(* ===== verification/_CoqProject ===== *)
-Q . S2P
Prelude.v
JsString.v
JsRegExp.v
JsNumber.v
NumRounding.v
NumDecimals.v
Json.v
JsonPretty.v
Currency.v
FormDates.v
ApiKeyForm.v
RedemptionForm.v
UserForm.v
PlanForm.v
ModelForm.v
EntityForms.v
TableUrl.v
SettingsJson.v
SettingsForm.v
Base64.v
Passkey.v
EntryEditors.v
ChatEditor.v
PaymentEditor.v
CreemEditor.v
RateLimitEditor.v
ChatLinks.v
AmountEditors.v
GroupRatios.v
SpecialGroups.v
SettingsSessions.v
ParamOverride.v
ParamRoundtrip.v
ParamDrafts.v
ParamEditor.v
ParamSession.v
ChannelForm.v
StatusCodes.v
BillingExpr.v
BillingRules.v
BillingRoundtrip.v
TierExpr.v
Pricing.v
Charts.v
DashboardPrefs.v
PricingSheet.v
TieredEditor.v
Channels.v
Messages.v
Storage.v
Stream.v
Maintenance.v
ModelPricing.v
RatioSync.v
RatioSelections.v
RatioPage.v
SyncChannels.v
NavModules.v
Sidebar.v
ChannelList.v
ContentSections.v
Notifications.v
SecureVerification.v
PriceDisplay.v
UsageLogs.v
