(* ===== verification/Prelude.v ===== *)
(** * new-api web console: verified core logic

    new-api is a gateway for language model providers.  Its server is written in
    Go; its web console, in TypeScript under [src/web/default/src], holds the logic
    that decides what administrators store and what users see: price expressions,
    channel settings, navigation switches and the playground.  This development
    models that logic as executable functions and proves what makes it correct.

    ** How the parts interact

    An administrator edits settings in forms; a form keeps a structured state,
    prints it into a text that the server stores, and parses the text again when it
    is opened.  Other parts of the console parse the same text to decide what to
    show.  Most theorems are therefore about printers and parsers that must agree,
    about the state machines of the forms, and about readers of one text in
    different files.  The playground sends messages, receives a stream of events and
    keeps its state in the browser's storage.

    ** Files

    - [Prelude]: tactics, the exception monad [exn], lists, first occurrences,
      stable sorting.
    - [JsString], [JsNumber], [JsRegExp]: JavaScript strings as lists of UTF-16
      code units, numbers as binary64 ([SpecFloat]) with [Number(s)], [String(x)] and
      [toFixed], a backtracking matcher for the regular expressions of the sources.
    - [NumRounding], [NumDecimals]: the error of rounded products, quotients and sums, exact
      results, and amounts with a fixed number of fraction digits.
    - [Json], [JsonPretty]: values, property order, [JSON.parse],
      [JSON.stringify] with and without indentation, and their round trips.
    - [SettingsJson]: [system-settings/utils/json-parser.ts] and [json-validators.ts].
    - [SettingsForm]: [system-settings/hooks/use-settings-form.ts], the form that the
      sections of the settings share.
    - [EntryEditors]: the interface of a settings table over a stored JSON text;
      [ChatEditor], [PaymentEditor], [CreemEditor], [RateLimitEditor] and
      [AmountEditors] implement it, [SettingsSessions] is its client.
    - [GroupRatios], [SpecialGroups]: [system-settings/models/group-ratio-visual-editor.tsx]
      and [group-special-usable-editor.tsx].
    - [Base64], [Passkey]: the platform's base64 and [lib/passkey.ts].
    - [ChatLinks]: [features/chat] (presets, links, keys) and the places that open
      links; its presets are those that [ChatEditor] stores.
    - [Currency]: [lib/currency.ts] and the quota amounts of [lib/format.ts].
    - [FormDates], [ApiKeyForm], [RedemptionForm], [UserForm], [PlanForm],
      [ModelForm], [EntityForms]: the forms of keys, redemption codes, users,
      subscription plans and models, and that saving them twice changes nothing.
    - [TableUrl]: [hooks/use-table-url-state.ts], tables whose state is in the URL.
    - [StatusCodes]: [lib/http-status-code-rules.ts] (status code ranges) and
      [features/channels/lib/status-code-risk-guard.ts] (redirect guard).
    - [BillingExpr], [BillingRules], [BillingRoundtrip]:
      [features/pricing/lib/billing-expr.ts]: tiers, request rules, their parser,
      their printer, and that the parser inverts the printer.
    - [TierExpr]: [features/pricing/lib/tier-expr.ts], the visual tier editor.
    - [Pricing]: [filters.ts], [model-helpers.ts], [dynamic-price.ts], [seed.ts].
    - [PriceDisplay]: [features/pricing/lib/price.ts], the prices of the catalogue.
    - [UsageLogs]: [features/usage-logs/lib]: requests for logs, and the tier of a log.
    - [SecureVerification]: [features/auth/secure-verification]: the hook that asks users to
      confirm who they are before a protected call, with requests in flight.
    - [Charts], [DashboardPrefs]: [features/dashboard/lib]: what the charts add up, and
      the stored preferences.
    - [Channels]: [model-mapping-validation.ts], [upstream-update-utils.ts],
      [multi-key-utils.ts], [ollama-utils.ts].
    - [ChannelList]: [features/channels/lib/channel-utils.ts]: the rows of the tag mode,
      states, keys, lists and texts of the cells.
    - [ParamOverride], [ParamRoundtrip], [ParamDrafts], [ParamEditor],
      [ParamSession]: the parameter override editor
      [features/channels/components/dialogs/param-override-editor-dialog.tsx]: tables
      and helpers, saving and reopening, structured drafts, the dialog as a state
      machine, and its invariants.
    - [ChannelForm]: [features/channels/lib/channel-form.ts], the values of the
      channel form, its checks, the stored settings texts and the payloads.
    - [PricingSheet], [ModelPricing]: the model price settings
      ([system-settings/models/pricing-format.ts], [model-pricing-sheet.tsx],
      [model-ratio-visual-editor.tsx]): the price sheet as a state machine, the table
      of models over ten stored texts, saving, copying and deleting.
    - [RatioSync], [RatioSelections], [RatioPage], [SyncChannels]: the price sync
      ([system-settings/models/upstream-ratio-sync.tsx], its helpers, table and columns, and
      [channel-selector-dialog.tsx]): operations, facts about selections, the page as
      a state machine over the records of [ModelPricing], the choice of channels.
    - [TieredEditor]: [system-settings/models/tiered-pricing-editor.tsx], with its
      effects as a machine of renders.
    - [Messages], [Storage], [Stream]: the playground: messages and think tags,
      storage and state, streaming sessions as a step relation.
    - [ContentSections], [Notifications]: the sections of [system-settings/content] that edit
      questions, announcements, addresses and status pages, and the hook
      [hooks/use-notifications.ts] with its store, which tells users about announcements.
    - [Maintenance], [NavModules], [Sidebar]: navigation settings
      ([maintenance/config.ts]), their readers ([lib/nav-modules.ts]) and the
      filtered sidebar ([hooks/use-sidebar-config.ts]).

    ** What the theorems show

    - Round trips: billing expressions with request rules ([split_combine],
      [request_rules_roundtrip]; what comes back changed is in [billing_text_changed]); status code lists
      ([parse_normalized_roundtrip]); quota shown as an amount in any currency, with
      its rounding errors ([quota_amount_roundtrip]), and the forms that hold such
      amounts and dates ([saved_entities_stable]); credential buffers
      ([passkey_roundtrip]); chat links ([config_link_spec], with the case in which the
      code throws); the parameter override document
      ([saved_reopens], [mode_switch_roundtrip]) and its drafts; the channel
      form through the server's update of the fields that are not zero ([edit_reopens_same]); stored playground messages; the table of pricing
      groups ([group_table_roundtrip]) and the rules for special groups
      ([special_rules_roundtrip]); opening a tiered price ([editor_opens]).
    - State machines, by induction over reachable states: [session_safe] (as long as
      nothing is sent during a reply, only the last message is unfinished, only its source is live, and stopping
      settles it; [suggestion_during_reply] shows the other case), [editor_safe]
      (rows with distinct identifiers, valid modes and a valid selection),
      [panel_saves] (when the price sheet submits, and that the ratios follow the prices),
      [table_session] (an edit of the pricing table is not taken back by its effect),
      [tiers_well_formed], [visual_edit_kept], [selections_consistent] (a price and ratios are
      never selected together, every selected value was offered), [sync_asks_first] (a
      sync that moves a model between prices and ratios asks first), [notifications_read]
      (what counts as read, by identifier or hash), [calls_verified]
      (besides the first attempts, a protected call is only run after a confirmed verification); the renders of the tier editor come to
      rest ([editor_settles]).
    - Refinement: the stored playground state is what a reload shows
      ([reload_shows_state]); the rows of the price table after a save ([pricing_saved_shows]); the sidebar that the settings page saved is the one
      that is enforced ([saved_sidebar_is_enforced], [saved_header_is_read]); sessions
      of the settings tables are updates of a finite map ([editors_refine], with
      [renamed_chat_doubled] for names that are taken), overrides
      for pairs of groups those of a map of maps ([overrides_refine]); a table shows and
      reads back from the URL what the user did ([table_url_refines]); a settings form sends
      exactly what changed, and the server then has its values ([form_saves_changes]); the sections
      with lists of content are updates of a finite map ([section_refines]); a price
      sync writes the selected values into what the page shows ([sync_refines], [second_sync_undoes]); the presets of the chat
      editor are the ones the site shows ([saved_presets_shown]).
    - Equivalence: streaming in any chunks gives the same reply
      ([chunking_independent]); the catalogue shows the price of the cheapest group
      ([cheapest_group_shown]); two readers of the header settings agree on every text
      with plain flags ([header_readers_agree]); the banner of the editor is the
      reason why saving fails ([banner_matches_save]).
    - Functional behaviour and errors: the charts say and draw what the records add up to
      ([charts_add_up], [user_trend_total]); the rows of tags what the channels under them
      do ([tag_rows_sum_up]), with exact sums below [2^53]; removing duplicate keys
      ([duplicate_keys_removed]); range parsing, think tags, filters and
      sorting, validation with the first offending line ([save_validates]),
      messages for broken texts.
    The comments of the form "C1:" number the principal properties.

    ** Language model, fuel and bounds

    A text is a list of code units; an object is the list of its own properties in
    JavaScript's order; a name that the code might find on a prototype is written
    out where it matters.  [exn], [res] and [idm] carry exceptions ([idm] also
    the counter of local identifiers).  Fuel is always computed from the input: two
    steps per character for [json_parse] ([json_parse_stringify] shows that it is
    enough for every printed value), the length of the text for the think tag loop
    and for unwrapping parentheses ([unwrap_complete]), the size of text and
    expression for the matcher, the length of a link for the pieces around a
    placeholder ([split_fuel_spec]), one try more than there are rows for a free group name
    ([added_row_name]), seven digits for a hash of 32 bits
    ([base36_go_val]).  Five renders are enough for the tier editor
    ([editor_settles]).  Numbers keep their 64-bit rounding, bit operations
    their 32-bit wrap; quota amounts are exact up to [2^49] units with rates between
    [2^-200] and [2^200], sums of whole numbers below [2^53], and sums of amounts with four
    fraction digits below [2^50] units of the last one ([dec4_add]).

    ** Parameters

    Code and data that are not in the repository are arguments: [toLowerCase]
    ([LowerCase], with its documented laws and an instance), [localeCompare],
    [Intl.NumberFormat], the translation function, HTTP answers, the clock, the check of an
    address ([UrlCheck]), the decoder of UTF-8 ([TextDecoder]), local calendar dates ([Clock], with an instance for UTC), what GORM writes into a column ([GormUpdates], with its documented laws and an instance), the fields that the form library marks as
    changed, the messages of the engine's own exceptions, and the evaluation of generated
    JavaScript.

    ** Not modelled

    The Go server, apart from the update of a channel; React rendering and styling; HTTP clients; translations; the
    classic console.  Parts of the console that are not listed above are not modelled: the columns
    of the channel table, model metadata, the table of usage logs, the wallet.  Key
    presses are events of the models; the layout of the pages is not. *)

From stdpp Require Export base tactics list numbers option strings sets sorting.
From Stdlib Require Export Lia.

#[global] Set Default Goal Selector "!".

(** ** Automation *)

Create HintDb jsdb.

(** Case analysis on every [if]/[match] scrutinee of the goal or hypotheses. *)
Ltac cases :=
  repeat (case_match; simplify_eq/=); try done.

(** Turns boolean tests of the source into propositions. *)
Ltac boolify :=
  repeat match goal with
  | H : (_ && _)%bool = true |- _ => apply andb_true_iff in H as [? ?]
  | H : (_ || _)%bool = false |- _ => apply orb_false_iff in H as [? ?]
  | H : negb _ = true |- _ => apply negb_true_iff in H
  | H : negb _ = false |- _ => apply negb_false_iff in H
  | H : bool_decide _ = true |- _ => apply bool_decide_eq_true in H
  | H : bool_decide _ = false |- _ => apply bool_decide_eq_false in H
  | H : (_ =? _)%N = true |- _ => apply N.eqb_eq in H
  | H : (_ =? _)%N = false |- _ => apply N.eqb_neq in H
  | H : (_ <=? _)%N = true |- _ => apply N.leb_le in H
  | H : (_ <=? _)%N = false |- _ => apply N.leb_gt in H
  | H : (_ <? _)%N = true |- _ => apply N.ltb_lt in H
  | H : (_ <? _)%N = false |- _ => apply N.ltb_ge in H
  | H : (_ =? _)%Z = true |- _ => apply Z.eqb_eq in H
  | H : (_ =? _)%Z = false |- _ => apply Z.eqb_neq in H
  | H : (_ <=? _)%Z = true |- _ => apply Z.leb_le in H
  | H : (_ <=? _)%Z = false |- _ => apply Z.leb_gt in H
  | H : (_ <? _)%Z = true |- _ => apply Z.ltb_lt in H
  | H : (_ <? _)%Z = false |- _ => apply Z.ltb_ge in H
  end.

(** ** Exceptions

    The outcome of code that may throw: [Throw] is an uncaught exception. *)
Inductive exn (A : Type) := Ret (x : A) | Throw.
Arguments Ret {A} x.
Arguments Throw {A}.

#[export] Instance exn_ret : MRet exn := λ A x, Ret x.
#[export] Instance exn_bind : MBind exn := λ A B f m,
  match m with Ret x => f x | Throw => Throw end.

(** A JSON.parse outside any try block. *)
Definition or_throw {A} (o : option A) : exn A :=
  match o with Some x => Ret x | None => Throw end.

(** ** Lists *)

Section lists.
Context {A B : Type}.
Implicit Types (l : list A).

Lemma last_snoc_inv l x : last l = Some x → ∃ l', l = l' ++ [x].
Proof.
  induction l as [|y l _] using rev_ind; [done|].
  rewrite last_snoc. intros [= ->]. by exists l.
Qed.

Lemma last_None_inv l : last l = None → l = [].
Proof. by apply last_None. Qed.

Lemma forallb_Forall (p : A → bool) l : forallb p l = true ↔ Forall (λ x, p x = true) l.
Proof. rewrite forallb_forall, List.Forall_forall. done. Qed.

Lemma existsb_false (p : A → bool) l :
  existsb p l = false ↔ Forall (λ x, p x = false) l.
Proof.
  induction l as [|x l IH]; simpl; [by split; [constructor|]|].
  rewrite orb_false_iff, Forall_cons, IH. done.
Qed.
End lists.

Lemma omap_cons {A B} (f : A → option B) x l :
  omap f (x :: l) = match f x with Some y => y :: omap f l | None => omap f l end.
Proof. done. Qed.

Lemma StronglySorted_filter {A} (R : A → A → Prop) (p : A → bool) (l : list A) :
  StronglySorted R l → StronglySorted R (List.filter p l).
Proof.
  induction 1 as [|x l Hl IH Hx]; simpl; [constructor|].
  destruct (p x); [|done]. constructor; [done|].
  rewrite Forall_forall in *. intros y. rewrite list_elem_of_In, filter_In, <- list_elem_of_In.
  naive_solver.
Qed.

(** The first occurrence of every element, in order: [Array.from(new Set(l))]. *)
Fixpoint dedup_go {A} `{EqDecision A} (seen l : list A) : list A :=
  match l with
  | [] => []
  | x :: l => if bool_decide (x ∈ seen) then dedup_go seen l else x :: dedup_go (x :: seen) l
  end.

Definition dedup {A} `{EqDecision A} (l : list A) : list A := dedup_go [] l.

Section dedup.
Context {A : Type} `{EqDecision A}.
Implicit Types (l seen : list A) (x : A).

Lemma elem_of_dedup_go seen l x : x ∈ dedup_go seen l ↔ x ∈ l ∧ x ∉ seen.
Proof.
  revert seen; induction l as [|y l IH]; intros seen; simpl; [set_solver|].
  case_bool_decide; rewrite ?elem_of_cons, IH; [set_solver|].
  destruct (decide (x = y)); set_solver.
Qed.

Lemma elem_of_dedup l x : x ∈ dedup l ↔ x ∈ l.
Proof. unfold dedup. rewrite elem_of_dedup_go. set_solver. Qed.

Lemma NoDup_dedup_go seen l : NoDup (dedup_go seen l).
Proof.
  revert seen; induction l as [|y l IH]; intros seen; simpl; [constructor|].
  case_bool_decide; [done|]. constructor; [|done].
  rewrite elem_of_dedup_go. set_solver.
Qed.

Lemma NoDup_dedup l : NoDup (dedup l).
Proof. apply NoDup_dedup_go. Qed.

Lemma dedup_go_id seen l : NoDup l → (∀ x, x ∈ l → x ∉ seen) → dedup_go seen l = l.
Proof.
  revert seen; induction l as [|y l IH]; intros seen Hnd Hs; [done|]; simpl.
  apply NoDup_cons in Hnd as [Hy Hnd].
  rewrite bool_decide_eq_false_2 by set_solver. f_equal.
  apply IH; [done|]. set_solver.
Qed.

Lemma dedup_id l : NoDup l → dedup l = l.
Proof. intros. apply dedup_go_id; [done|set_solver]. Qed.

Lemma dedup_idemp l : dedup (dedup l) = dedup l.
Proof. apply dedup_id, NoDup_dedup. Qed.

Lemma dedup_go_app seen l x :
  dedup_go seen (l ++ [x]) = dedup_go seen l ++ (if bool_decide (x ∈ seen ++ l) then [] else [x]).
Proof.
  revert seen. induction l as [|y l IH]; intros seen; cbn [app dedup_go].
  - rewrite app_nil_r. by case_bool_decide.
  - assert (∀ b, bool_decide (y ∈ seen) = b → bool_decide (x ∈ seen ++ y :: l) = bool_decide (x ∈ (if b then seen else y :: seen) ++ l)) as E.
    { intros b Hb. apply bool_decide_ext. destruct b; [apply bool_decide_eq_true in Hb|]; set_solver. }
    destruct (bool_decide (y ∈ seen)) eqn:Hy; [by rewrite IH, (E true)|].
    cbn [app]. by rewrite IH, (E false).
Qed.

Lemma dedup_snoc l x : dedup (l ++ [x]) = dedup l ++ (if bool_decide (x ∈ l) then [] else [x]).
Proof. apply (dedup_go_app []). Qed.
End dedup.

#[export] Hint Resolve NoDup_dedup : jsdb.

(** ** [Array.prototype.sort]: a stable sort by a boolean "not after" test. *)

Fixpoint insert_stable {A} (le : A → A → bool) (x : A) (l : list A) : list A :=
  match l with
  | [] => [x]
  | y :: l' => if le x y then x :: l else y :: insert_stable le x l'
  end.

Fixpoint stable_sort {A} (le : A → A → bool) (l : list A) : list A :=
  match l with
  | [] => []
  | x :: l => insert_stable le x (stable_sort le l)
  end.

Section stable_sort.
Context {A : Type} (le : A → A → bool).
Implicit Types (l : list A) (x y : A).

Lemma insert_stable_perm x l : insert_stable le x l ≡ₚ x :: l.
Proof.
  induction l as [|y l IH]; simpl; [done|]. case_match; [done|].
  rewrite IH. apply perm_swap.
Qed.

Lemma stable_sort_perm l : stable_sort le l ≡ₚ l.
Proof. induction l as [|x l IH]; simpl; [done|]. by rewrite insert_stable_perm, IH. Qed.

Lemma elem_of_stable_sort x l : x ∈ stable_sort le l ↔ x ∈ l.
Proof. by rewrite stable_sort_perm. Qed.

(** Elements of one class of a predicate the order does not separate keep
    their relative order. *)
Lemma insert_stable_filter (P : A → bool) x l :
  (∀ y, P x = true → P y = true → le x y = true) →
  List.filter P (insert_stable le x l) = List.filter P (x :: l).
Proof.
  intros HP. induction l as [|y l IH]; simpl; [done|].
  destruct (le x y) eqn:Hxy; simpl; [done|].
  destruct (P y) eqn:HPy; simpl; rewrite IH; simpl; destruct (P x) eqn:HPx; try done.
  by rewrite HP in Hxy.
Qed.

Lemma stable_sort_filter (P : A → bool) l :
  (∀ x y, P x = true → P y = true → le x y = true) →
  List.filter P (stable_sort le l) = List.filter P l.
Proof.
  intros HP. induction l as [|x l IH]; simpl; [done|].
  rewrite insert_stable_filter by auto. simpl. by rewrite IH.
Qed.

(** The order is only needed on the elements that are sorted. *)
Lemma insert_stable_sorted_on (D : A → Prop) x l :
  (∀ x y, D x → D y → le x y = false → le y x = true) →
  (∀ x y z, D x → D y → D z → le x y = true → le y z = true → le x z = true) →
  D x → Forall D l → StronglySorted (λ a b, le a b = true) l →
  StronglySorted (λ a b, le a b = true) (insert_stable le x l).
Proof.
  intros Htot Htr Hx HD. induction 1 as [|y l Hl IH Hy]; simpl; [by repeat constructor|].
  apply Forall_cons in HD as [HDy HD]. destruct (le x y) eqn:Hxy.
  - constructor; [by constructor|]. constructor; [done|].
    rewrite Forall_forall in *. eauto.
  - constructor; [by apply IH|]. rewrite insert_stable_perm. constructor; eauto.
Qed.

Lemma stable_sort_sorted_on (D : A → Prop) l :
  (∀ x y, D x → D y → le x y = false → le y x = true) →
  (∀ x y z, D x → D y → D z → le x y = true → le y z = true → le x z = true) →
  Forall D l → StronglySorted (λ a b, le a b = true) (stable_sort le l).
Proof.
  intros Htot Htr. induction 1; simpl; [constructor|].
  eapply insert_stable_sorted_on; eauto. by rewrite stable_sort_perm.
Qed.

Hypothesis le_total : ∀ x y, le x y = false → le y x = true.
Hypothesis le_trans : ∀ x y z, le x y = true → le y z = true → le x z = true.

Lemma stable_sort_sorted l : StronglySorted (λ a b, le a b = true) (stable_sort le l).
Proof. apply (stable_sort_sorted_on (λ _, True)); eauto. by apply Forall_true. Qed.
End stable_sort.

#[export] Hint Resolve stable_sort_perm : jsdb.
