(* ===== verification/JsString.v ===== *)
(** * JavaScript strings

    A JavaScript string is a sequence of UTF-16 code units; it is modelled as a
    list of [N].  This file gives the string operations of the language that the
    sources use ([trim], [indexOf], [split], [str_join], [slice], decimal printing
    and [parseInt]), each executable, with the lemmas the components share. *)

From S2P Require Import Prelude.
From stdpp Require Import list strings.
From Stdlib Require Import NArith.

Abbreviation jstr := (list N).

(** ** Literals

    Source files are UTF-8; a literal is decoded to UTF-16 code units. *)
Fixpoint utf16_of_utf8 (l : list N) : jstr :=
  match l with
  | [] => []
  | a :: l1 =>
    if (a <? 128)%N then a :: utf16_of_utf8 l1
    else match l1 with
    | [] => [a]
    | b :: l2 =>
      if (a <? 224)%N then ((a - 192) * 64 + (b - 128))%N :: utf16_of_utf8 l2
      else match l2 with
      | [] => [a; b]
      | c :: l3 => ((a - 224) * 4096 + (b - 128) * 64 + (c - 128))%N :: utf16_of_utf8 l3
      end
    end
  end.

Definition js (s : string) : jstr :=
  utf16_of_utf8 (Ascii.N_of_ascii <$> String.list_ascii_of_string s).

Definition DQ : N := 34.
Definition LPAREN : N := 40.
Definition RPAREN : N := 41.
Definition BSLASH : N := 92.

(** A literal in which an apostrophe stands for the double quote. *)
Definition jq (s : string) : jstr :=
  (λ c, if (c =? 39)%N then DQ else c) <$> js s.

(** Evaluates the literals of the goal. *)
Ltac js_eval :=
  repeat match goal with
  | |- context [js ?s] => let v := eval vm_compute in (js s) in change (js s) with v
  | |- context [jq ?s] => let v := eval vm_compute in (jq s) in change (jq s) with v
  end.

Ltac js_eval_in H :=
  repeat match type of H with
  | context [js ?s] => let v := eval vm_compute in (js s) in change (js s) with v in H
  | context [jq ?s] => let v := eval vm_compute in (jq s) in change (jq s) with v in H
  end.

Definition str_eqb (s t : jstr) : bool := bool_decide (s = t).

(** [Boolean(s)] of a string. *)
Definition nonempty (s : jstr) : bool := match s with [] => false | _ => true end.

(** [s || d] on strings. *)
Definition str_or (s d : jstr) : jstr := if nonempty s then s else d.

(** ** White space and [trim] *)

(** ECMAScript [WhiteSpace] and [LineTerminator]: what [trim] strips and what
    [\s] matches. *)
Definition is_ws (c : N) : bool :=
  ((9 <=? c) && (c <=? 13) || (c =? 32) || (c =? 160) || (c =? 5760)
   || (8192 <=? c) && (c <=? 8202) || (c =? 8232) || (c =? 8233) || (c =? 8239)
   || (c =? 8287) || (c =? 12288) || (c =? 65279))%N.

Fixpoint trim_start (s : jstr) : jstr :=
  match s with
  | [] => []
  | c :: s' => if is_ws c then trim_start s' else s
  end.

Definition trim_end (s : jstr) : jstr := reverse (trim_start (reverse s)).

Definition trim (s : jstr) : jstr := trim_end (trim_start s).

(** Neither the first nor the last code unit is white space. *)
Definition no_edge_ws (s : jstr) : bool :=
  match head s with Some c => negb (is_ws c) | None => true end &&
  match last s with Some c => negb (is_ws c) | None => true end.

Lemma trim_start_id c s : is_ws c = false → trim_start (c :: s) = c :: s.
Proof. intros H. simpl. by rewrite H. Qed.

Lemma trim_start_suffix s : ∃ w, s = w ++ trim_start s ∧ Forall (λ c, is_ws c = true) w.
Proof.
  induction s as [|c s [w [Hs Hw]]]; [by exists []|]. simpl.
  destruct (is_ws c) eqn:Hc; [|by exists []].
  exists (c :: w). simpl. rewrite <- Hs. eauto.
Qed.

Lemma trim_start_head s c : head (trim_start s) = Some c → is_ws c = false.
Proof.
  induction s as [|d s IH]; simpl; [done|]. destruct (is_ws d) eqn:Hd; [done|].
  simpl. intros [= <-]. done.
Qed.

Lemma last_reverse_head {A} (l : list A) : last (reverse l) = head l.
Proof. destruct l as [|x l]; [done|]. by rewrite reverse_cons, last_snoc. Qed.

Lemma head_reverse_last {A} (l : list A) : head (reverse l) = last l.
Proof. by rewrite <- last_reverse_head, reverse_involutive. Qed.

Lemma trim_start_fix s : (∀ c, head s = Some c → is_ws c = false) → trim_start s = s.
Proof. destruct s as [|c s]; [done|]. intros H. by apply trim_start_id, H. Qed.

Lemma trim_fix s : no_edge_ws s = true → trim s = s.
Proof.
  unfold no_edge_ws, trim, trim_end. intros [H1 H2]%andb_true_iff.
  rewrite (trim_start_fix s).
  2: { intros c Hc. rewrite Hc in H1. by boolify. }
  rewrite trim_start_fix, reverse_involutive; [done|].
  intros c. rewrite head_reverse_last. intros Hc. rewrite Hc in H2. by boolify.
Qed.

Lemma head_trim_end s c : head (trim_end s) = Some c → head s = Some c.
Proof.
  unfold trim_end. rewrite <- (reverse_involutive s) at 2.
  rewrite !head_reverse_last.
  destruct (trim_start_suffix (reverse s)) as (w & Hw & _).
  intros Hl. rewrite Hw. rewrite last_app, Hl. done.
Qed.

Lemma trim_no_edge s : no_edge_ws (trim s) = true.
Proof.
  unfold no_edge_ws, trim. apply andb_true_iff. split.
  - destruct (head (trim_end _)) eqn:E; [|done].
    apply head_trim_end, trim_start_head in E. by rewrite E.
  - unfold trim_end. rewrite last_reverse_head.
    destruct (head _) eqn:E; [|done]. apply trim_start_head in E. by rewrite E.
Qed.

Lemma trim_idemp s : trim (trim s) = trim s.
Proof. apply trim_fix, trim_no_edge. Qed.

Lemma trim_fix_iff s : no_edge_ws s = true ↔ trim s = s.
Proof. split; [apply trim_fix|]. intros <-. apply trim_no_edge. Qed.

(** A string delimited by two non-blank code units is its own [trim]. *)
Lemma trim_wrap a s b : is_ws a = false → is_ws b = false → trim (a :: s ++ [b]) = a :: s ++ [b].
Proof.
  intros Ha Hb. apply trim_fix. unfold no_edge_ws.
  rewrite app_comm_cons, last_snoc. simpl. by rewrite Ha, Hb.
Qed.

Lemma trim_all_ws s : Forall (λ c, is_ws c = true) s → trim s = [].
Proof.
  intros H. unfold trim. replace (trim_start s) with (@nil N); [done|].
  induction H as [|c s Hc _ IH]; simpl; [done|]. by rewrite Hc.
Qed.

Lemma trim_start_incl s x : x ∈ trim_start s → x ∈ s.
Proof.
  destruct (trim_start_suffix s) as (w & Hw & _). intros H. rewrite Hw. set_solver.
Qed.

Lemma trim_incl s x : x ∈ trim s → x ∈ s.
Proof.
  unfold trim, trim_end. rewrite elem_of_reverse. intros H%trim_start_incl.
  rewrite elem_of_reverse in H. by apply trim_start_incl.
Qed.



(** ** Searching *)

Fixpoint prefixb (p s : jstr) : bool :=
  match p, s with
  | [], _ => true
  | a :: p, b :: s => (a =? b)%N && prefixb p s
  | _ :: _, [] => false
  end.

(** [s.indexOf(p)]: [None] stands for -1. *)
Fixpoint index_of (p s : jstr) : option nat :=
  if prefixb p s then Some 0
  else match s with
  | [] => None
  | _ :: s' => S <$> index_of p s'
  end.

(** [s.indexOf(p, from)]. *)
Definition index_of_from (p s : jstr) (from : nat) : option nat :=
  (λ i, from + i) <$> index_of p (drop from s).

(** [s.includes(p)]. *)
Definition includes (p s : jstr) : bool :=
  match index_of p s with Some _ => true | None => false end.

Definition starts_with (p s : jstr) : bool := prefixb p s.
Definition ends_with (p s : jstr) : bool := prefixb (reverse p) (reverse s).

(** [s.slice(i, j)] and [s.substring(i, j)] for 0 <= i <= j. *)
Definition slice (i j : nat) (s : jstr) : jstr := take (j - i) (drop i s).

Lemma prefixb_spec p s : prefixb p s = true ↔ ∃ t, s = p ++ t.
Proof.
  revert s; induction p as [|a p IH]; intros s; simpl.
  - split; [by exists s|done].
  - destruct s as [|b s]; [split; [done|by intros [??]]|].
    rewrite andb_true_iff, N.eqb_eq, IH. split.
    + intros [-> [t ->]]. by exists t.
    + intros [t [= -> ->]]. eauto.
Qed.

Lemma prefixb_app p s : prefixb p (p ++ s) = true.
Proof. apply prefixb_spec. eauto. Qed.

Lemma index_of_Some p s i :
  index_of p s = Some i → ∃ t, s = take i s ++ p ++ t ∧ i ≤ length s.
Proof.
  revert i; induction s as [|c s IH]; intros i; simpl.
  - destruct (prefixb p []) eqn:E; [|done]. intros [= <-].
    apply prefixb_spec in E as [t Ht]. exists t. split; [done|simpl; lia].
  - destruct (prefixb p (c :: s)) eqn:E.
    + intros [= <-]. apply prefixb_spec in E as [t Ht]. exists t. split; [done|simpl; lia].
    + destruct (index_of p s) as [j|] eqn:Ej; [|done]. intros [= <-].
      destruct (IH _ eq_refl) as (t & Ht & Hl). exists t. simpl.
      split; [by rewrite <- Ht|lia].
Qed.

Lemma index_of_None p s : index_of p s = None → ∀ a b, s ≠ a ++ p ++ b.
Proof.
  induction s as [|c s IH]; simpl.
  - destruct (prefixb p []) eqn:E; [done|]. intros _ a b Hs.
    symmetry in Hs. apply app_eq_nil in Hs as [-> Hs].
    apply app_eq_nil in Hs as [-> _]. done.
  - destruct (prefixb p (c :: s)) eqn:E; [done|].
    destruct (index_of p s) eqn:Ei; [done|]. intros _ [|x a] b Hs; simpl in Hs.
    + by rewrite Hs, prefixb_app in E.
    + injection Hs as -> Hs. by eapply IH.
Qed.

Lemma includes_spec p s : includes p s = true ↔ ∃ a b, s = a ++ p ++ b.
Proof.
  unfold includes. destruct (index_of p s) eqn:E; split; try done.
  - intros _. apply index_of_Some in E as (t & -> & _). eauto.
  - intros (a & b & H). exfalso. by eapply index_of_None.
Qed.

(** ** [split] on one code unit and [join] *)

Fixpoint split_char (c : N) (s : jstr) : list jstr :=
  match s with
  | [] => [[]]
  | x :: s =>
    if (x =? c)%N then [] :: split_char c s
    else match split_char c s with
         | [] => [[x]]
         | w :: ws => (x :: w) :: ws
         end
  end.

Fixpoint str_join (sep : jstr) (l : list jstr) : jstr :=
  match l with
  | [] => []
  | [x] => x
  | x :: l => x ++ sep ++ str_join sep l
  end.

Lemma join_cons sep x l : l ≠ [] → str_join sep (x :: l) = x ++ sep ++ str_join sep l.
Proof. by destruct l. Qed.

Lemma split_char_nonnil c s : split_char c s ≠ [].
Proof. destruct s as [|x s]; simpl; [done|]. repeat case_match; done. Qed.

Lemma split_char_app c w s : c ∉ w → split_char c (w ++ c :: s) = w :: split_char c s.
Proof.
  induction w as [|x w IH]; simpl; intros H; [by rewrite N.eqb_refl|].
  apply not_elem_of_cons in H as [Hx H]. rewrite IH by done.
  destruct (N.eqb_spec x c); [congruence|done].
Qed.

Lemma split_char_none c w : c ∉ w → split_char c w = [w].
Proof.
  induction w as [|x w IH]; simpl; intros H; [done|].
  apply not_elem_of_cons in H as [Hx H]. rewrite IH by done.
  destruct (N.eqb_spec x c); [congruence|done].
Qed.

Lemma split_join c l : l ≠ [] → Forall (λ w, c ∉ w) l → split_char c (str_join [c] l) = l.
Proof.
  intros Hl H. induction H as [|w l Hw H IH]; [done|].
  destruct l as [|w' l]; [by apply split_char_none|].
  rewrite join_cons by done.
  trans (w :: split_char c (str_join [c] (w' :: l))); [by apply split_char_app|].
  by rewrite IH.
Qed.

Lemma split_char_incl c s w x : w ∈ split_char c s → x ∈ w → x ∈ s ∧ x ≠ c.
Proof.
  revert w; induction s as [|y s IH]; intros w; simpl.
  { rewrite list_elem_of_singleton. intros ->. by rewrite elem_of_nil. }
  destruct (N.eqb_spec y c) as [->|Hy].
  - rewrite elem_of_cons. intros [->|Hw] Hx; [by apply elem_of_nil in Hx|].
    destruct (IH w Hw Hx). set_solver.
  - pose proof (split_char_nonnil c s).
    destruct (split_char c s) as [|v vs]; [done|].
    rewrite elem_of_cons. intros [->|Hw] Hx.
    + apply elem_of_cons in Hx as [->|Hx]; [set_solver|].
      destruct (IH v ltac:(set_solver) Hx). set_solver.
    + destruct (IH w ltac:(set_solver) Hx). set_solver.
Qed.

Lemma elem_of_join sep l x : x ∈ str_join sep l → x ∈ sep ∨ ∃ w, w ∈ l ∧ x ∈ w.
Proof.
  induction l as [|w l IH]; [set_solver|]. destruct l as [|w' l]; [set_solver|].
  rewrite join_cons by done. rewrite !elem_of_app. intros [H|[H|H]]; [set_solver..|].
  destruct (IH H) as [?|(v & ? & ?)]; [by left|]. right. exists v. set_solver.
Qed.

(** ** Decimal integers *)

Definition is_digit (c : N) : bool := ((48 <=? c) && (c <=? 57))%N.

Fixpoint dec_go (fuel : nat) (n : N) (acc : jstr) : jstr :=
  match fuel with
  | O => acc
  | S f =>
    let acc := (48 + n mod 10)%N :: acc in
    if (n / 10 =? 0)%N then acc else dec_go f (n / 10) acc
  end.

(** [`${n}`] of a non-negative integer below 2^53. *)
Definition dec (n : N) : jstr := dec_go (S (N.to_nat (N.log2 n))) n [].

Definition digits_val (s : jstr) : N := foldl (λ a c, a * 10 + (c - 48))%N 0%N s.

Lemma div_mod_digit n : (n / 10 * 10 + (48 + n mod 10 - 48))%N = n.
Proof.
  rewrite (N.add_comm 48), N.add_sub, (N.mul_comm _ 10). symmetry. apply N.div_mod'.
Qed.

Lemma dec_go_val f n acc :
  (n < 10 ^ N.of_nat f)%N →
  foldl (λ a c, a * 10 + (c - 48))%N 0%N (dec_go f n acc)
  = foldl (λ a c, a * 10 + (c - 48))%N n acc.
Proof.
  revert n acc; induction f as [|f IH]; intros n acc Hn; simpl dec_go.
  { simpl in Hn. by replace n with 0%N by lia. }
  rewrite Nat2N.inj_succ, N.pow_succ_r' in Hn.
  destruct (n / 10 =? 0)%N eqn:E; boolify.
  - cbn [foldl]. rewrite <- (div_mod_digit n) at 2. by rewrite E.
  - rewrite IH by (by apply N.Div0.div_lt_upper_bound).
    cbn [foldl]. by rewrite div_mod_digit.
Qed.

Lemma dec_fuel_enough n : (n < 10 ^ N.of_nat (S (N.to_nat (N.log2 n))))%N.
Proof.
  rewrite Nat2N.inj_succ, N2Nat.id.
  destruct (N.eq_dec n 0) as [->|Hn]; [simpl; lia|].
  eapply N.lt_le_trans; [apply N.log2_spec; lia|].
  apply N.pow_le_mono_l. lia.
Qed.

Lemma digits_val_dec n : digits_val (dec n) = n.
Proof. unfold digits_val, dec. by rewrite dec_go_val by apply dec_fuel_enough. Qed.

Lemma dec_go_digits f n acc :
  Forall (λ c, is_digit c = true) acc → Forall (λ c, is_digit c = true) (dec_go f n acc).
Proof.
  revert n acc; induction f as [|f IH]; intros n acc H; simpl; [done|].
  assert (is_digit (48 + n mod 10) = true).
  { unfold is_digit. generalize (N.mod_lt n 10 ltac:(lia)).
    generalize (n mod 10)%N. intros m Hm. apply andb_true_iff. rewrite !N.leb_le. lia. }
  case_match; [by constructor|]. apply IH. by constructor.
Qed.

Lemma dec_digits n : Forall (λ c, is_digit c = true) (dec n).
Proof. by apply dec_go_digits. Qed.

Lemma dec_go_nonnil f n acc : acc ≠ [] → dec_go f n acc ≠ [].
Proof. revert n acc; induction f; intros n acc H; simpl; [done|]. case_match; auto. Qed.

Lemma dec_nonnil n : dec n ≠ [].
Proof. unfold dec. simpl. case_match; [done|]. by apply dec_go_nonnil. Qed.

Lemma dec_inj n m : dec n = dec m → n = m.
Proof. intros H. by rewrite <- (digits_val_dec n), H, digits_val_dec. Qed.

Lemma is_digit_not_ws c : is_digit c = true → is_ws c = false.
Proof.
  unfold is_digit, is_ws. intros H. boolify.
  repeat (apply orb_false_iff; split);
    first [apply N.eqb_neq; lia | apply andb_false_iff; rewrite !N.leb_gt; lia].
Qed.

(** ** Code-unit order: the default comparison of [Array.prototype.sort] *)

Fixpoint str_leb (s t : jstr) : bool :=
  match s, t with
  | [], _ => true
  | _ :: _, [] => false
  | a :: s, b :: t => if (a <? b)%N then true else if (b <? a)%N then false else str_leb s t
  end.

Lemma str_leb_total s t : str_leb s t = false → str_leb t s = true.
Proof.
  revert t; induction s as [|a s IH]; intros [|b t]; simpl; try done.
  destruct (N.ltb_spec a b); [done|]. destruct (N.ltb_spec b a); [done|]. apply IH.
Qed.

Lemma str_leb_trans s t u : str_leb s t = true → str_leb t u = true → str_leb s u = true.
Proof.
  revert t u; induction s as [|a s IH]; intros [|b t] [|c u]; simpl; try done.
  repeat (match goal with |- context [(?x <? ?y)%N] => destruct (N.ltb_spec x y) end);
    try done; try lia. apply IH.
Qed.

Lemma nonempty_spec s : nonempty s = true ↔ s ≠ [].
Proof. by destruct s. Qed.

Lemma filter_nonempty_id l : Forall (λ w, w ≠ []) l → List.filter nonempty l = l.
Proof. induction 1 as [|w l Hw H IH]; [done|]. cbn. destruct w; [done|]. cbn. by rewrite IH. Qed.

(** ** Case

    [toLowerCase] depends on the Unicode character database, which no source
    file contains; the components that use it are stated against this
    interface, whose laws are the documented behaviour they rely on. *)

Definition ascii_lower (c : N) : N := if ((65 <=? c) && (c <=? 90))%N then (c + 32)%N else c.

Class LowerCase := {
  toLowerCase : jstr → jstr;
  toLowerCase_ascii s : Forall (λ c, (c < 128)%N) s → toLowerCase s = map ascii_lower s;
  toLowerCase_idemp s : toLowerCase (toLowerCase s) = toLowerCase s;
}.

Lemma ascii_lower_idemp c : ascii_lower (ascii_lower c) = ascii_lower c.
Proof.
  unfold ascii_lower. destruct ((65 <=? c) && (c <=? 90))%N eqn:E; [|by rewrite E].
  boolify. rewrite (proj2 (N.leb_gt (c + 32) 90)) by lia. by rewrite andb_false_r.
Qed.

(** The interface is inhabited by the mapping that leaves other letters alone. *)
Definition ascii_lower_case : LowerCase.
Proof.
  refine {| toLowerCase := map ascii_lower |}; [done|].
  intros s. rewrite map_map. apply map_ext, ascii_lower_idemp.
Defined.
