(* ===== verification/JsRegExp.v ===== *)
(** * JavaScript regular expressions

    A backtracking matcher with the ECMAScript semantics of the constructs the
    sources use: character classes, sequencing, ordered alternation, greedy
    repetition, numbered capture groups, back references, [^], [$] and [\b].
    The matcher is in continuation-passing style, as in the language
    specification, and total: a repetition iterates at most as many times as
    there are code units left, because an iteration that consumes nothing is
    rejected.  No pattern of the sources captures inside a repetition, so the
    per-iteration capture reset of the specification is not needed. *)

From S2P Require Import Prelude JsString.
From stdpp Require Import list.
From Stdlib Require Import NArith.

Inductive regex :=
  | RSet (p : N → bool)
  | REmpty
  | RSeq (r1 r2 : regex)
  | RAlt (r1 r2 : regex)
  | RStar (r : regex)
  | RGroup (n : nat) (r : regex)
  | RBackref (n : nat)
  | RBol
  | REol
  | RWordB.

(** A matcher position: the code unit before it, what follows, the captures. *)
Record mstate := MState {
  m_prev : option N;
  m_rest : jstr;
  m_caps : list (nat * jstr);
}.

Fixpoint cap (caps : list (nat * jstr)) (n : nat) : option jstr :=
  match caps with
  | [] => None
  | (m, s) :: caps => if Nat.eqb m n then Some s else cap caps n
  end.

(** A capture that the pattern guarantees to be set. *)
Definition capt (st : mstate) (n : nat) : jstr := default [] (cap (m_caps st) n).

Definition is_word (c : N) : bool :=
  is_digit c || ((65 <=? c) && (c <=? 90))%N || ((97 <=? c) && (c <=? 122))%N || (c =? 95)%N.

Definition word_at (o : option N) : bool := match o with Some c => is_word c | None => false end.

(** Consumes a fixed string. *)
Fixpoint eat (w : jstr) (st : mstate) : option mstate :=
  match w with
  | [] => Some st
  | c :: w =>
    match m_rest st with
    | d :: s => if (c =? d)%N then eat w (MState (Some d) s (m_caps st)) else None
    | [] => None
    end
  end.

Section star.
Context {A : Type} (body : mstate → (mstate → option A) → option A).

Fixpoint star_go (fuel : nat) (st : mstate) (k : mstate → option A) : option A :=
  match fuel with
  | O => k st
  | S f =>
    match body st (λ st', if length (m_rest st') <? length (m_rest st)
                          then star_go f st' k else None) with
    | Some x => Some x
    | None => k st
    end
  end.
End star.

Fixpoint re_match {A} (r : regex) (st : mstate) (k : mstate → option A) : option A :=
  match r with
  | RSet p =>
    match m_rest st with
    | c :: s => if p c then k (MState (Some c) s (m_caps st)) else None
    | [] => None
    end
  | REmpty => k st
  | RSeq r1 r2 => re_match r1 st (λ st', re_match r2 st' k)
  | RAlt r1 r2 => match re_match r1 st k with Some x => Some x | None => re_match r2 st k end
  | RStar r => star_go (re_match r) (length (m_rest st)) st k
  | RGroup n r =>
    re_match r st (λ st', k (MState (m_prev st') (m_rest st')
      ((n, take (length (m_rest st) - length (m_rest st')) (m_rest st)) :: m_caps st')))
  | RBackref n =>
    match eat (default [] (cap (m_caps st) n)) st with Some st' => k st' | None => None end
  | RBol => match m_prev st with None => k st | Some _ => None end
  | REol => match m_rest st with [] => k st | _ => None end
  | RWordB =>
    if xorb (word_at (m_prev st)) (word_at (head (m_rest st))) then k st else None
  end.

(** ** Derived forms *)

Definition rlit (s : jstr) : regex := foldr (λ c r, RSeq (RSet (N.eqb c)) r) REmpty s.
Definition RPlus (r : regex) : regex := RSeq r (RStar r).
Definition ROpt (r : regex) : regex := RAlt r REmpty.
Fixpoint rseq (l : list regex) : regex :=
  match l with [] => REmpty | [r] => r | r :: l => RSeq r (rseq l) end.
Fixpoint ralt (l : list regex) : regex :=
  match l with [] => RSet (λ _, false) | [r] => r | r :: l => RAlt r (ralt l) end.

Definition one_of (s : jstr) (c : N) : bool := bool_decide (c ∈ s).
Definition none_of (s : jstr) (c : N) : bool := bool_decide (c ∉ s).
Definition is_line_end (c : N) : bool := one_of [10; 13; 8232; 8233]%N c.
Definition RDot : regex := RSet (λ c, negb (is_line_end c)).
Definition RAny : regex := RSet (λ _, true).
Definition RDigit : regex := RSet is_digit.
Definition rws : regex := RStar (RSet is_ws).

(** ** Searching

    [re_exec r prev s] tries every position from the left; the result is the
    text before the match and the state after it, group 0 being the match. *)
Fixpoint re_exec (r : regex) (prev : option N) (s : jstr) : option (jstr * mstate) :=
  match re_match (RGroup 0 r) (MState prev s []) Some with
  | Some st => Some ([], st)
  | None =>
    match s with
    | [] => None
    | c :: s => prod_map (cons c) id <$> re_exec r (Some c) s
    end
  end.

Definition re_find (r : regex) (s : jstr) : option mstate := snd <$> re_exec r None s.

(** [r.test(s)]. *)
Definition re_test (r : regex) (s : jstr) : bool :=
  match re_find r s with Some _ => true | None => false end.

(** The successive matches of a global pattern, each with the text before it. *)
Fixpoint re_all_go (fuel : nat) (r : regex) (prev : option N) (s : jstr)
  : list (jstr * mstate) * jstr :=
  match fuel with
  | O => ([], s)
  | S f =>
    match re_exec r prev s with
    | None => ([], s)
    | Some (before, st) =>
      if length (m_rest st) <? length s then
        let '(l, tail) := re_all_go f r (m_prev st) (m_rest st) in
        ((before, st) :: l, tail)
      else ([], s)
    end
  end.

Definition re_all (r : regex) (s : jstr) : list (jstr * mstate) * jstr :=
  re_all_go (S (length s)) r None s.

(** [s.replace(r, t)] for a global [r] that never matches the empty string. *)
Definition re_replace (r : regex) (t s : jstr) : jstr :=
  let '(l, tail) := re_all r s in concat ((λ m, fst m ++ t) <$> l) ++ tail.

(** [s.split(r)] for an [r] without captures that never matches the empty string. *)
Definition re_split (r : regex) (s : jstr) : list jstr :=
  let '(l, tail) := re_all r s in (fst <$> l) ++ [tail].

(** ** Matching lemmas *)

Definition prev_after (p : option N) (w : jstr) : option N :=
  match last w with Some c => Some c | None => p end.

Lemma prev_after_cons p c w : prev_after (Some c) w = prev_after p (c :: w).
Proof. unfold prev_after. rewrite last_cons. by destruct (last w). Qed.

Lemma prev_after_nil p : prev_after p [] = p.
Proof. done. Qed.

Section matching.
Context {A : Type}.
Implicit Types (k : mstate → option A) (st : mstate) (caps : list (nat * jstr)).

Lemma re_match_seq r1 r2 st k :
  re_match (RSeq r1 r2) st k = re_match r1 st (λ st', re_match r2 st' k).
Proof. done. Qed.

Lemma re_match_group n r st k :
  re_match (RGroup n r) st k =
    re_match r st (λ st', k (MState (m_prev st') (m_rest st')
      ((n, take (length (m_rest st) - length (m_rest st')) (m_rest st)) :: m_caps st'))).
Proof. done. Qed.

Lemma re_match_star r st k :
  re_match (RStar r) st k = star_go (re_match r) (length (m_rest st)) st k.
Proof. done. Qed.

Lemma re_match_set q p c s caps k :
  re_match (RSet q) (MState p (c :: s) caps) k =
    if q c then k (MState (Some c) s caps) else None.
Proof. done. Qed.

Lemma re_match_lit w p s caps k :
  re_match (rlit w) (MState p (w ++ s) caps) k = k (MState (prev_after p w) s caps).
Proof.
  revert p; induction w as [|c w IH]; intros p; simpl; [done|].
  rewrite N.eqb_refl, IH. by rewrite (prev_after_cons p).
Qed.

Lemma re_match_lit_fail w p s caps k :
  prefixb w s = false → re_match (rlit w) (MState p s caps) k = None.
Proof.
  revert p s; induction w as [|c w IH]; intros p s; simpl; [done|].
  destruct s as [|d s]; simpl; [done|]. destruct (N.eqb_spec c d); [apply IH|done].
Qed.

(** A literal matches exactly when the input starts with it. *)
Lemma re_match_lit_case w st k :
  re_match (rlit w) st k =
    if prefixb w (m_rest st)
    then k (MState (prev_after (m_prev st) w) (drop (length w) (m_rest st)) (m_caps st))
    else None.
Proof.
  destruct st as [p s caps]; simpl. destruct (prefixb w s) eqn:E.
  - apply prefixb_spec in E as [t ->]. by rewrite re_match_lit, drop_app_length.
  - by apply re_match_lit_fail.
Qed.

Lemma star_set_step (q : N → bool) f p c s caps k :
  star_go (re_match (RSet q)) (S f) (MState p (c :: s) caps) k =
    if q c then
      match star_go (re_match (RSet q)) f (MState (Some c) s caps) k with
      | Some x => Some x
      | None => k (MState p (c :: s) caps)
      end
    else k (MState p (c :: s) caps).
Proof.
  simpl. destruct (q c); [|done].
  rewrite (proj2 (Nat.ltb_lt (length s) (S (length s)))) by lia. done.
Qed.

Lemma star_set_nil (q : N → bool) f p caps k :
  star_go (re_match (RSet q)) f (MState p [] caps) k = k (MState p [] caps).
Proof. by destruct f. Qed.

(** Greedy repetition of a class: the longest run first. *)
Lemma star_set_greedy_go (q : N → bool) f w p s caps k x :
  length w ≤ f → Forall (λ c, q c = true) w →
  match head s with Some c => q c = false | None => True end →
  k (MState (prev_after p w) s caps) = Some x →
  star_go (re_match (RSet q)) f (MState p (w ++ s) caps) k = Some x.
Proof.
  intros Hf Hw Hs. revert p f Hf. induction Hw as [|c w Hc Hw IH]; intros p f Hf Hk.
  - rewrite prev_after_nil in Hk. destruct f; [done|].
    destruct s as [|d s]; [by rewrite star_set_nil|]. simpl app.
    rewrite star_set_step. simpl in Hs. by rewrite Hs.
  - simpl in Hf. destruct f as [|f]; [lia|]. simpl app. rewrite star_set_step, Hc.
    erewrite IH; [done|lia|]. by rewrite (prev_after_cons p).
Qed.

Lemma re_match_star_set_greedy (q : N → bool) w p s caps k x :
  Forall (λ c, q c = true) w →
  match head s with Some c => q c = false | None => True end →
  k (MState (prev_after p w) s caps) = Some x →
  re_match (RStar (RSet q)) (MState p (w ++ s) caps) k = Some x.
Proof. intros. apply star_set_greedy_go; simpl; rewrite ?length_app; auto with lia. Qed.

(** Deterministic repetition: the continuation rejects every position at
    which the class would still match, so only the full run is left. *)
Lemma star_set_det_go (q : N → bool) f w p s caps k :
  length w ≤ f → Forall (λ c, q c = true) w →
  match head s with Some c => q c = false | None => True end →
  (∀ p' c s', q c = true → k (MState p' (c :: s') caps) = None) →
  star_go (re_match (RSet q)) f (MState p (w ++ s) caps) k
  = k (MState (prev_after p w) s caps).
Proof.
  intros Hf Hw Hs Hk. revert p f Hf. induction Hw as [|c w Hc Hw IH]; intros p f Hf.
  - rewrite prev_after_nil. destruct f; [done|].
    destruct s as [|d s]; [by rewrite star_set_nil|]. simpl app.
    rewrite star_set_step. simpl in Hs. by rewrite Hs.
  - simpl in Hf. destruct f as [|f]; [lia|]. simpl app. rewrite star_set_step, Hc.
    rewrite IH by lia. rewrite (Hk p) by done. rewrite (prev_after_cons p).
    by destruct (k _).
Qed.

Lemma re_match_star_set_det (q : N → bool) w p s caps k :
  Forall (λ c, q c = true) w →
  match head s with Some c => q c = false | None => True end →
  (∀ p' c s', q c = true → k (MState p' (c :: s') caps) = None) →
  re_match (RStar (RSet q)) (MState p (w ++ s) caps) k
  = k (MState (prev_after p w) s caps).
Proof. intros. apply star_set_det_go; simpl; rewrite ?length_app; auto with lia. Qed.

Lemma re_match_plus_set_det (q : N → bool) w p s caps k :
  w ≠ [] → Forall (λ c, q c = true) w →
  match head s with Some c => q c = false | None => True end →
  (∀ p' c s', q c = true → k (MState p' (c :: s') caps) = None) →
  re_match (RPlus (RSet q)) (MState p (w ++ s) caps) k
  = k (MState (prev_after p w) s caps).
Proof.
  intros Hne Hw Hs Hk. destruct Hw as [|c w Hc Hw]; [done|].
  unfold RPlus. simpl app. rewrite re_match_seq, re_match_set, Hc.
  rewrite re_match_star_set_det by done. by rewrite (prev_after_cons p).
Qed.

Lemma re_match_plus_set_greedy (q : N → bool) w p s caps k x :
  w ≠ [] → Forall (λ c, q c = true) w →
  match head s with Some c => q c = false | None => True end →
  k (MState (prev_after p w) s caps) = Some x →
  re_match (RPlus (RSet q)) (MState p (w ++ s) caps) k = Some x.
Proof.
  intros Hne Hw Hs Hk. destruct Hw as [|c w Hc Hw]; [done|].
  unfold RPlus. simpl app. rewrite re_match_seq, re_match_set, Hc.
  apply re_match_star_set_greedy; [done..|]. by rewrite <- (prev_after_cons p) in Hk.
Qed.

Lemma re_match_plus_set_none (q : N → bool) p s caps k :
  match head s with Some c => q c = false | None => True end →
  re_match (RPlus (RSet q)) (MState p s caps) k = None.
Proof. destruct s as [|c s]; simpl; [done|]. by intros ->. Qed.

Lemma take_run (w s : jstr) : take (length (w ++ s) - length s) (w ++ s) = w.
Proof. rewrite length_app, Nat.add_sub. by rewrite take_app_length. Qed.

(** A capture group around a deterministic run records exactly the run. *)
Lemma re_match_group_plus_det n (q : N → bool) w p s caps k :
  w ≠ [] → Forall (λ c, q c = true) w →
  match head s with Some c => q c = false | None => True end →
  (∀ p' c s' cs, q c = true → k (MState p' (c :: s') cs) = None) →
  re_match (RGroup n (RPlus (RSet q))) (MState p (w ++ s) caps) k
  = k (MState (prev_after p w) s ((n, w) :: caps)).
Proof.
  intros Hne Hw Hs Hk. rewrite re_match_group.
  rewrite re_match_plus_set_det by (simpl; auto). simpl. by rewrite take_run.
Qed.

Lemma eat_app w p s caps :
  eat w (MState p (w ++ s) caps) = Some (MState (prev_after p w) s caps).
Proof.
  revert p; induction w as [|c w IH]; intros p; simpl; [done|].
  rewrite N.eqb_refl, IH. by rewrite (prev_after_cons p).
Qed.
End matching.

(** ** Soundness of the matcher: what a successful match has consumed *)

(** Every class of [r] is included in [P], and [r] has no back reference. *)
Fixpoint re_chars (P : N → Prop) (r : regex) : Prop :=
  match r with
  | RSet p => ∀ c, p c = true → P c
  | RSeq r1 r2 | RAlt r1 r2 => re_chars P r1 ∧ re_chars P r2
  | RStar r | RGroup _ r => re_chars P r
  | RBackref _ => False
  | REmpty | RBol | REol | RWordB => True
  end.

(** A lower bound on the number of code units a match consumes. *)
Fixpoint re_min (r : regex) : nat :=
  match r with
  | RSet _ => 1
  | RSeq r1 r2 => re_min r1 + re_min r2
  | RAlt r1 r2 => re_min r1 `min` re_min r2
  | RGroup _ r => re_min r
  | _ => 0
  end.

Definition consumed (P : N → Prop) (n : nat) (st st' : mstate) : Prop :=
  ∃ w, m_rest st = w ++ m_rest st' ∧ Forall P w ∧ n ≤ length w.

Lemma consumed_refl P st : consumed P 0 st st.
Proof. exists []. split_and!; [done|constructor|simpl; lia]. Qed.

Lemma consumed_trans P n m st1 st2 st3 :
  consumed P n st1 st2 → consumed P m st2 st3 → consumed P (n + m) st1 st3.
Proof.
  intros (w & Hw & HP & Hn) (v & Hv & HQ & Hm). exists (w ++ v).
  rewrite Hw, Hv, app_assoc, length_app. split_and!; [done|by apply Forall_app|lia].
Qed.

Lemma consumed_weaken P n m st st' : m ≤ n → consumed P n st st' → consumed P m st st'.
Proof. intros Hm (w & ? & ? & ?). exists w. split_and!; auto with lia. Qed.

Lemma star_go_sound {A} P (body : mstate → (mstate → option A) → option A) f st k x :
  (∀ st k, body st k = Some x → ∃ st', consumed P 0 st st' ∧ k st' = Some x) →
  star_go body f st k = Some x → ∃ st', consumed P 0 st st' ∧ k st' = Some x.
Proof.
  intros Hb. revert st; induction f as [|f IH]; intros st; simpl.
  { intros. exists st. split; [apply consumed_refl|done]. }
  destruct (body st _) as [y|] eqn:E.
  - intros [= ->]. apply Hb in E as (st1 & H1 & Hk). case_match; [|done].
    apply IH in Hk as (st2 & H2 & Hk). exists st2. split; [|done].
    by apply (consumed_trans P 0 0 _ st1).
  - intros. exists st. split; [apply consumed_refl|done].
Qed.

Lemma re_match_sound {A} P r st (k : mstate → option A) x :
  re_chars P r → re_match r st k = Some x →
  ∃ st', consumed P (re_min r) st st' ∧ k st' = Some x.
Proof.
  revert st k.
  induction r as [q| |r1 IH1 r2 IH2|r1 IH1 r2 IH2|r IH|n r IH|n| | |];
    intros st k HP; simpl in *.
  - destruct (m_rest st) as [|c s] eqn:E; [done|].
    destruct (q c) eqn:Hc; [|done]. intros Hk. eexists; split; [|exact Hk].
    exists [c]. simpl. rewrite E. split_and!; [done|by repeat constructor; auto|lia].
  - intros. exists st. split; [apply consumed_refl|done].
  - destruct HP as [HP1 HP2]. intros (st1 & H1 & Hk)%IH1; [|done].
    apply IH2 in Hk as (st2 & H2 & Hk); [|done].
    exists st2. split; [by eapply consumed_trans|done].
  - destruct HP as [HP1 HP2]. destruct (re_match r1 st k) as [y|] eqn:E.
    + intros [= ->]. apply IH1 in E as (st1 & H1 & Hk); [|done].
      exists st1. split; [eapply consumed_weaken; [|done]; lia|done].
    + intros (st1 & H1 & Hk)%IH2; [|done].
      exists st1. split; [eapply consumed_weaken; [|done]; lia|done].
  - intros H. eapply star_go_sound; [|exact H]. intros st1 k1 H1.
    apply IH in H1 as (st2 & H2 & Hk); [|done].
    exists st2. split; [eapply consumed_weaken; [|done]; lia|done].
  - intros (st1 & H1 & Hk)%IH; [|done]. eexists; split; [|exact Hk]. done.
  - done.
  - case_match; [done|]. intros. exists st. split; [apply consumed_refl|done].
  - case_match; [|done]. intros. exists st. split; [apply consumed_refl|done].
  - case_match; [|done]. intros. exists st. split; [apply consumed_refl|done].
Qed.

(** A pattern anchored at the start is only tried there. *)
Lemma re_exec_bol_None r c s : re_exec (RSeq RBol r) (Some c) s = None.
Proof. revert c; induction s as [|d s IH]; intros c; simpl; [done|]. by rewrite IH. Qed.

Lemma re_exec_bol r s :
  re_exec (RSeq RBol r) None s =
    (λ st, ([], st)) <$> re_match (RGroup 0 r) (MState None s []) Some.
Proof.
  destruct s as [|c s].
  - simpl. by destruct (re_match r _ _).
  - cbn [re_exec]. rewrite re_exec_bol_None. simpl. by destruct (re_match r _ _).
Qed.

Lemma re_find_bol r s :
  re_find (RSeq RBol r) s = re_match (RGroup 0 r) (MState None s []) Some.
Proof. unfold re_find. rewrite re_exec_bol. by destruct (re_match _ _ _). Qed.

(** A fully anchored pattern accepts only strings over its classes. *)
Lemma re_test_anchored_sound P r s :
  re_chars P r → re_test (RSeq RBol (RSeq r REol)) s = true →
  Forall P s ∧ re_min r ≤ length s.
Proof.
  unfold re_test. rewrite re_find_bol. intros HP.
  destruct (re_match _ _ _) as [x|] eqn:E; [|done]. intros _.
  cbn [re_match] in E. apply (re_match_sound P) in E as (st & (w & Hw & HF & Hl) & Hk); [|done].
  destruct (m_rest st) eqn:Hr; [|done]. rewrite app_nil_r in Hw. simpl in Hw. by subst.
Qed.

(** [/^\d+$/]. *)
Definition digits_re : regex := RSeq RBol (RSeq (RPlus RDigit) REol).

Lemma re_test_digits s : re_test digits_re s = true ↔ s ≠ [] ∧ Forall (λ c, is_digit c = true) s.
Proof.
  split.
  - intros H. apply (re_test_anchored_sound (λ c, is_digit c = true)) in H as [HF Hl].
    + split; [|done]. destruct s; [|done]. simpl in Hl. lia.
    + simpl. auto.
  - intros [Hne HF]. unfold re_test, digits_re. rewrite re_find_bol.
    unfold RDigit. rewrite re_match_group, re_match_seq, <- (app_nil_r s).
    erewrite re_match_plus_set_greedy; [done|done|done|done|reflexivity].
Qed.

(** ** Global replacement of a character class *)
Lemma re_exec_set (q : N → bool) prev s :
  match re_exec (RSet q) prev s with
  | None => Forall (λ c, q c = false) s
  | Some (before, st) => ∃ c, s = before ++ c :: m_rest st ∧ q c = true
      ∧ Forall (λ c, q c = false) before
  end.
Proof.
  revert prev; induction s as [|c s IH]; intros prev; [by constructor|].
  cbn [re_exec]. simpl re_match. destruct (q c) eqn:Hc; simpl.
  - exists c. split_and!; [done|done|constructor].
  - specialize (IH (Some c)). destruct (re_exec _ _ s) as [[before st]|]; simpl.
    + destruct IH as (d & -> & Hd & HF). exists d. split_and!; [done|done|by constructor].
    + by constructor.
Qed.

Definition subst_set (q : N → bool) (t s : jstr) : jstr :=
  concat (map (λ c, if q c then t else [c]) s).

Lemma subst_set_none q t s : Forall (λ c, q c = false) s → subst_set q t s = s.
Proof. unfold subst_set. induction 1 as [|c s Hc _ IH]; simpl; [done|]. by rewrite Hc, IH. Qed.

Lemma re_all_go_set (q : N → bool) t f prev s :
  length s < f →
  (let '(l, tail) := re_all_go f (RSet q) prev s in
   concat ((λ m, fst m ++ t) <$> l) ++ tail) = subst_set q t s.
Proof.
  revert prev s; induction f as [|f IH]; intros prev s Hf; [lia|]. cbn [re_all_go].
  pose proof (re_exec_set q prev s) as Hs.
  destruct (re_exec (RSet q) prev s) as [[before st]|].
  - destruct Hs as (c & -> & Hc & HF).
    rewrite (proj2 (Nat.ltb_lt _ _)) by (rewrite length_app; simpl; lia).
    rewrite length_app in Hf; simpl in Hf.
    specialize (IH (m_prev st) (m_rest st) ltac:(lia)).
    destruct (re_all_go f _ _ _) as [l tail]. simpl.
    unfold subst_set in *. rewrite map_app, concat_app. simpl. rewrite Hc, <- IH.
    pose proof (subst_set_none q t before HF) as Hb. unfold subst_set in Hb. rewrite Hb.
    by rewrite <- !app_assoc.
  - by rewrite subst_set_none.
Qed.

Lemma re_replace_set q t s : re_replace (RSet q) t s = subst_set q t s.
Proof.
  unfold re_replace, re_all. pose proof (re_all_go_set q t (S (length s)) None s ltac:(lia)) as H.
  by destruct (re_all_go _ _ _ _).
Qed.

(** ** Sequences of patterns

    [match_seq] runs a list of patterns one after the other; the lemmas below
    execute a pattern symbolically on a text built from the same pieces. *)
Lemma star_go_ext {A} (body : mstate → (mstate → option A) → option A) f st k k' :
  (∀ st k k', (∀ st, k st = k' st) → body st k = body st k') →
  (∀ st, k st = k' st) → star_go body f st k = star_go body f st k'.
Proof.
  intros Hb Hk. revert st; induction f as [|f IH]; intros st; simpl; [done|].
  rewrite Hk. erewrite Hb; [done|]. intros st'. simpl. by rewrite IH.
Qed.

Lemma re_match_ext {A} r st (k k' : mstate → option A) :
  (∀ st, k st = k' st) → re_match r st k = re_match r st k'.
Proof.
  revert st k k'.
  induction r as [q| |r1 IH1 r2 IH2|r1 IH1 r2 IH2|r IH|n r IH|n| | |]; intros st k k' Hk; simpl.
  - destruct (m_rest st) as [|c s]; [done|]. by destruct (q c).
  - done.
  - apply IH1. intros. by apply IH2.
  - by rewrite (IH1 st k k' Hk), (IH2 st k k' Hk).
  - by apply star_go_ext.
  - apply IH. intros. by rewrite Hk.
  - by destruct (eat _ st).
  - by destruct (m_prev st).
  - by destruct (m_rest st).
  - by destruct (xorb _ _).
Qed.

Fixpoint match_seq {A} (l : list regex) (st : mstate) (k : mstate → option A) : option A :=
  match l with
  | [] => k st
  | r :: l => re_match r st (λ st', match_seq l st' k)
  end.

Lemma re_match_rseq {A} l st (k : mstate → option A) : re_match (rseq l) st k = match_seq l st k.
Proof.
  revert st; induction l as [|r l IH]; intros st; [done|].
  destruct l as [|r' l]; [done|]. cbn [rseq match_seq]. rewrite re_match_seq.
  apply re_match_ext. intros st'. apply IH.
Qed.

Section match_seq.
Context {A : Type}.
Implicit Types (k : mstate → option A) (l : list regex) (caps : list (nat * jstr)).

Lemma match_seq_app l1 l2 st k :
  match_seq (l1 ++ l2) st k = match_seq l1 st (λ st', match_seq l2 st' k).
Proof.
  revert st; induction l1 as [|r l1 IH]; intros st; [done|]. simpl.
  apply re_match_ext. intros. by rewrite IH.
Qed.

Lemma match_seq_rseq l1 l2 st k :
  match_seq (rseq l1 :: l2) st k = match_seq (l1 ++ l2) st k.
Proof. simpl. by rewrite re_match_rseq, match_seq_app. Qed.

Lemma match_seq_lit w l p s caps k :
  match_seq (rlit w :: l) (MState p (w ++ s) caps) k
  = match_seq l (MState (prev_after p w) s caps) k.
Proof. simpl. by rewrite re_match_lit. Qed.

Lemma match_seq_lit_end w p caps k :
  match_seq [rlit w] (MState p w caps) k = k (MState (prev_after p w) [] caps).
Proof. rewrite <- (app_nil_r w) at 2. by rewrite match_seq_lit. Qed.

Lemma match_seq_lit_fail w l p s caps k :
  prefixb w s = false → match_seq (rlit w :: l) (MState p s caps) k = None.
Proof. intros. simpl. by rewrite re_match_lit_fail. Qed.

(** A captured run of a class up to a literal that the class excludes. *)
Lemma match_seq_run n (q : N → bool) w c u l p s caps k :
  w ≠ [] → Forall (λ x, q x = true) w → q c = false →
  match_seq (RGroup n (RPlus (RSet q)) :: rlit (c :: u) :: l) (MState p (w ++ c :: s) caps) k
  = match_seq (rlit (c :: u) :: l) (MState (prev_after p w) (c :: s) ((n, w) :: caps)) k.
Proof.
  intros Hne Hw Hc. cbn [match_seq]. rewrite re_match_group_plus_det; [done|done|done|done|].
  intros p' d s' cs Hd. apply re_match_lit_fail. simpl.
  destruct (N.eqb_spec c d); [congruence|done].
Qed.

(** A captured run that ends the text. *)
Lemma match_seq_run_end n (q : N → bool) w p caps k x :
  w ≠ [] → Forall (λ x, q x = true) w →
  k (MState (prev_after p w) [] ((n, w) :: caps)) = Some x →
  match_seq [RGroup n (RPlus (RSet q))] (MState p w caps) k = Some x.
Proof.
  intros Hne Hw Hk. cbn [match_seq]. rewrite re_match_group, <- (app_nil_r w).
  apply re_match_plus_set_greedy; [done|done|done|]. simpl.
  by rewrite Nat.sub_0_r, firstn_all, app_nil_r in *.
Qed.

(** A captured run that ends the text where a literal is expected. *)
Lemma match_seq_run_stop n (q : N → bool) w c u l p caps k :
  Forall (λ x, q x = true) w → q c = false →
  match_seq (RGroup n (RPlus (RSet q)) :: rlit (c :: u) :: l) (MState p w caps) k = None.
Proof.
  intros Hw Hc. cbn [match_seq]. destruct w as [|d w]; [done|].
  rewrite <- (app_nil_r (d :: w)). rewrite re_match_group_plus_det; [done|done|done|done|].
  intros p' e s' cs He. apply re_match_lit_fail. simpl.
  destruct (N.eqb_spec c e); [congruence|done].
Qed.

Lemma match_seq_backref n w l p s caps k :
  cap caps n = Some w →
  match_seq (RBackref n :: l) (MState p (w ++ s) caps) k
  = match_seq l (MState (prev_after p w) s caps) k.
Proof. intros H. simpl. by rewrite H, eat_app. Qed.

(** A run with nothing to run over. *)
Lemma match_seq_run_none n (q : N → bool) l p s caps k :
  match head s with Some c => q c = false | None => True end →
  match_seq (RGroup n (RPlus (RSet q)) :: l) (MState p s caps) k = None.
Proof. intros H. cbn [match_seq]. rewrite re_match_group. by apply re_match_plus_set_none. Qed.
End match_seq.

(** The end of a fully anchored match of [s]. *)
Definition k_end (s : jstr) (st : mstate) : option mstate :=
  match m_rest st with
  | [] => Some (MState (m_prev st) [] ((0, s) :: m_caps st))
  | _ => None
  end.

Lemma re_find_anchored l s :
  re_find (RSeq RBol (RSeq (rseq l) REol)) s = match_seq l (MState None s []) (k_end s).
Proof.
  rewrite re_find_bol, re_match_group, re_match_seq, re_match_rseq. cbn [m_rest].
  rewrite <- !re_match_rseq. apply re_match_ext. intros [p t caps]. unfold k_end. simpl.
  destruct t; [|done]. simpl. by rewrite Nat.sub_0_r, firstn_all.
Qed.

(** Alternatives of literals: the first that is a prefix and lets the rest match. *)
Lemma re_match_ralt_lit_none {A} ws p s caps (k : mstate → option A) :
  Forall (λ w, prefixb w s = false) ws →
  re_match (ralt (map rlit ws)) (MState p s caps) k = None.
Proof.
  induction 1 as [|w ws Hw Hws IH]; [by destruct s|].
  destruct ws as [|w' ws]; [by apply re_match_lit_fail|].
  change (ralt (map rlit (w :: w' :: ws))) with (RAlt (rlit w) (ralt (map rlit (w' :: ws)))).
  cbn [re_match]. fold (@re_match A). rewrite re_match_lit_fail by done. apply IH.
Qed.

(** ** Splitting at runs of a character class *)

(** The maximal runs of code units outside [q]: the reference for a split. *)
Fixpoint words_go (q : N → bool) (cur s : jstr) : list jstr :=
  match s with
  | [] => if nonempty cur then [reverse cur] else []
  | c :: s =>
    if q c then (if nonempty cur then [reverse cur] else []) ++ words_go q [] s
    else words_go q (c :: cur) s
  end.

Definition words (q : N → bool) (s : jstr) : list jstr := words_go q [] s.

Lemma words_go_app q cur w s :
  Forall (λ c, q c = false) w → words_go q cur (w ++ s) = words_go q (reverse w ++ cur) s.
Proof.
  intros Hw. revert cur. induction Hw as [|c w Hc Hw IH]; intros cur; [done|].
  cbn [app words_go]. rewrite Hc, IH, reverse_cons, <- app_assoc. done.
Qed.

Lemma words_go_run q s : ∀ w, Forall (λ c, q c = true) w → words_go q [] (w ++ s) = words_go q [] s.
Proof. induction 1 as [|c w Hc Hw IH]; [done|]. cbn [app words_go]. by rewrite Hc. Qed.

Lemma words_go_sep q cur c w s :
  q c = true → Forall (λ c, q c = true) w →
  words_go q cur (c :: w ++ s) = (if nonempty cur then [reverse cur] else []) ++ words_go q [] s.
Proof. intros Hc Hw. cbn [words_go]. by rewrite Hc, words_go_run. Qed.

(** The longest prefix in a class. *)
Lemma class_prefix (q : N → bool) (s : jstr) :
  ∃ w t, s = w ++ t ∧ Forall (λ c, q c = true) w ∧
    match head t with Some c => q c = false | None => True end.
Proof.
  induction s as [|c s (w & t & -> & Hw & Ht)]; [by exists [], []|].
  destruct (q c) eqn:Hc.
  - exists (c :: w), t. split_and!; [done|by constructor|done].
  - by exists [], (c :: w ++ t).
Qed.

Lemma re_exec_plus_set (q : N → bool) prev s :
  match re_exec (RPlus (RSet q)) prev s with
  | None => Forall (λ c, q c = false) s
  | Some (before, st) => ∃ c w, s = before ++ c :: w ++ m_rest st ∧ q c = true
      ∧ Forall (λ c, q c = true) w ∧ Forall (λ c, q c = false) before
  end.
Proof.
  revert prev; induction s as [|c s IH]; intros prev; [by constructor|].
  destruct (q c) eqn:Hc.
  - destruct (class_prefix q s) as (w & t & -> & Hw & Ht).
    assert (re_match (RGroup 0 (RPlus (RSet q))) (MState prev (c :: w ++ t) []) Some
      = Some (MState (prev_after (Some c) w) t
          [(0, take (length (c :: w ++ t) - length t) (c :: w ++ t))])) as Hm.
    { rewrite re_match_group. unfold RPlus. rewrite re_match_seq, re_match_set, Hc.
      by apply re_match_star_set_greedy. }
    cbn [re_exec]. rewrite Hm. exists c, w. done.
  - assert (re_match (RGroup 0 (RPlus (RSet q))) (MState prev (c :: s) []) Some = None) as Hm.
    { rewrite re_match_group. unfold RPlus. rewrite re_match_seq, re_match_set, Hc. done. }
    cbn [re_exec]. rewrite Hm. specialize (IH (Some c)).
    destruct (re_exec _ _ s) as [[before st]|]; cbn.
    + destruct IH as (d & w & -> & Hd & Hw & HF). exists d, w. split_and!; [done|done|done|by constructor].
    + by constructor.
Qed.

Lemma re_all_go_words q f prev s :
  length s < f →
  (let '(l, tail) := re_all_go f (RPlus (RSet q)) prev s in
   List.filter nonempty ((fst <$> l) ++ [tail])) = words q s ∧
  (let '(l, tail) := re_all_go f (RPlus (RSet q)) prev s in
   Forall (λ w, Forall (λ c, q c = false) w) ((fst <$> l) ++ [tail])).
Proof.
  revert prev s; induction f as [|f IH]; intros prev s Hf; [lia|]. cbn [re_all_go].
  pose proof (re_exec_plus_set q prev s) as Hs.
  destruct (re_exec (RPlus (RSet q)) prev s) as [[before st]|].
  - destruct Hs as (c & w & -> & Hc & Hw & HF).
    rewrite (proj2 (Nat.ltb_lt _ _)) by (rewrite length_app; cbn; rewrite length_app; lia).
    rewrite length_app in Hf; cbn in Hf; rewrite length_app in Hf.
    destruct (IH (m_prev st) (m_rest st)) as [IH1 IH2]; [lia|].
    destruct (re_all_go f _ _ _) as [l tail]. cbn [fmap list_fmap fst app List.filter]. split.
    + rewrite IH1. unfold words. rewrite words_go_app, words_go_sep, app_nil_r by done.
      rewrite reverse_involutive. destruct before as [|b before]; [done|].
      by destruct (reverse (b :: before)) eqn:E; [apply (f_equal length) in E; rewrite length_reverse in E|].
    + by constructor.
  - split; [|by repeat constructor]. unfold words. pose proof (words_go_app q [] s [] Hs) as Hw.
    rewrite !app_nil_r in Hw. rewrite Hw. cbn [words_go]. rewrite reverse_involutive.
    destruct s as [|c s]; [done|].
    by destruct (reverse (c :: s)) eqn:E; [apply (f_equal length) in E; rewrite length_reverse in E|].
Qed.

Lemma re_split_words q s :
  List.filter nonempty (re_split (RPlus (RSet q)) s) = words q s ∧
  Forall (λ w, Forall (λ c, q c = false) w) (re_split (RPlus (RSet q)) s).
Proof.
  unfold re_split, re_all. pose proof (re_all_go_words q (S (length s)) None s) as H.
  destruct (re_all_go _ _ _ _). apply H. lia.
Qed.

Lemma words_go_facts q cur s w :
  Forall (λ c, q c = false) cur → w ∈ words_go q cur s →
  w ≠ [] ∧ Forall (λ c, q c = false) w.
Proof.
  revert cur; induction s as [|c s IH]; intros cur Hcur.
  - cbn [words_go]. destruct cur as [|d cur]; [by intros ?%elem_of_nil|].
    cbn [nonempty]. rewrite list_elem_of_singleton. intros ->. split.
    + intros E%(f_equal length). by rewrite length_reverse in E.
    + by rewrite reverse_Permutation.
  - cbn [words_go]. destruct (q c) eqn:Hc.
    + rewrite elem_of_app. intros [Hw|Hw]; [|by apply (IH []); [constructor|]]. destruct cur as [|d cur]; [by apply elem_of_nil in Hw|].
      cbn [nonempty] in Hw. apply list_elem_of_singleton in Hw as ->. split.
      * intros E%(f_equal length). by rewrite length_reverse in E.
      * by rewrite reverse_Permutation.
    + apply IH. by constructor.
Qed.
