(* ===== verification/JsNumber.v ===== *)
(** * JavaScript numbers

    A JavaScript number is an IEEE 754 binary64 value.  It is modelled by the
    Standard Library's [spec_float] at precision 53 and exponent bound 1024,
    whose operations compute the correctly rounded results.  The file adds the
    conversions of the language: [Number(s)] of a string and [String(x)] of a
    number (the shortest decimal that reads back as the same value). *)

From S2P Require Import Prelude JsString.
From stdpp Require Import list numbers.
From Stdlib Require Import ZArith NArith SpecFloat.

Abbreviation num := spec_float.

Definition nadd : num → num → num := SFadd 53 1024.
Definition nsub : num → num → num := SFsub 53 1024.
Definition nmul : num → num → num := SFmul 53 1024.
Definition ndiv : num → num → num := SFdiv 53 1024.
Definition nlt (x y : num) : bool := SFltb x y.
Definition nle (x y : num) : bool := SFleb x y.
Definition num_eqb (x y : num) : bool := SFeqb x y.

Definition nzero : num := S754_zero false.
Definition ninf : num := S754_infinity false.

Definition num_of_Z (z : Z) : num := binary_normalize 53 1024 z 0 false.

Definition is_nan (x : num) : bool := match x with S754_nan => true | _ => false end.
Definition is_finite (x : num) : bool :=
  match x with S754_finite _ _ _ | S754_zero _ => true | _ => false end.

(** [Boolean(x)]: false on NaN and both zeros. *)
Definition num_truthy (x : num) : bool :=
  match x with S754_nan | S754_zero _ => false | _ => true end.

(** [x || 0] on numbers. *)
Definition num_or0 (x : num) : num := if num_truthy x then x else nzero.

Lemma num_or0_idemp x : num_or0 (num_or0 x) = num_or0 x.
Proof. by destruct x. Qed.

#[export] Instance num_eq_dec : EqDecision num.
Proof. solve_decision. Defined.

(** The exact integer value of a number, when it is an integer. *)
Definition num_to_Z (x : num) : option Z :=
  match x with
  | S754_zero _ => Some 0%Z
  | S754_finite s m e =>
    let z := if s then Z.neg m else Z.pos m in
    if (0 <=? e)%Z then Some (z * 2 ^ e)%Z
    else if (Z.pos m mod 2 ^ (- e) =? 0)%Z then Some (z / 2 ^ (- e))%Z else None
  | _ => None
  end.

(** [Math.floor]. *)
Definition num_floor (x : num) : num :=
  match x with
  | S754_finite s m e =>
    if (0 <=? e)%Z then x
    else num_of_Z ((if s then Z.neg m else Z.pos m) / 2 ^ (- e))%Z
  | _ => x
  end.

(** ToInt32 and ToUint32 of an integer. *)
Definition to_uint32 (z : Z) : Z := (z mod 2 ^ 32)%Z.
Definition to_int32 (z : Z) : Z :=
  let u := to_uint32 z in if (u <? 2 ^ 31)%Z then u else (u - 2 ^ 32)%Z.

(** The order is transitive, NaN excluded by the comparison itself. *)
Lemma nlt_trans x y z : nlt x y = true → nlt y z = true → nlt x z = true.
Proof.
  unfold nlt, SFltb, SFcompare.
  destruct x as [sx|sx| |sx mx ex], y as [sy|sy| |sy my ey], z as [sz|sz| |sz mz ez]; try done;
    destruct sx, sy, sz; try done; cbn [CompOpp]; change (Pos.compare_cont Eq) with Pos.compare.
  - destruct (Z.compare_spec ex ey), (Z.compare_spec ey ez), (Z.compare_spec ex ez); try done; try lia;
      destruct (Pos.compare_spec mx my), (Pos.compare_spec my mz), (Pos.compare_spec mx mz); done || lia.
  - destruct (Z.compare_spec ex ey), (Z.compare_spec ey ez), (Z.compare_spec ex ez); try done; try lia;
      destruct (Pos.compare_spec mx my), (Pos.compare_spec my mz), (Pos.compare_spec mx mz); done || lia.
Qed.

Lemma nlt_irrefl x : nlt x x = false.
Proof.
  destruct x as [[]|[]| |[] m e]; try done; unfold nlt, SFltb, SFcompare;
    change (Pos.compare_cont Eq) with Pos.compare; by rewrite Z.compare_refl, Pos.compare_refl.
Qed.

(** Any number lies on one side of a pair that is in order. *)
Lemma nlt_cotrans x y z : is_nan y = false → nlt x z = true → nlt x y = true ∨ nlt y z = true.
Proof.
  unfold nlt, SFltb, SFcompare.
  destruct x as [sx|sx| |sx mx ex], y as [sy|sy| |sy my ey], z as [sz|sz| |sz mz ez]; try done;
    destruct sx, sy, sz; try done; auto; cbn [CompOpp]; change (Pos.compare_cont Eq) with Pos.compare;
    intros _.
  - destruct (Z.compare_spec ex ey), (Z.compare_spec ey ez), (Z.compare_spec ex ez); auto; try done; try lia;
      destruct (Pos.compare_spec mx my), (Pos.compare_spec my mz), (Pos.compare_spec mx mz); auto; done || lia.
  - destruct (Z.compare_spec ex ey), (Z.compare_spec ey ez), (Z.compare_spec ex ez); auto; try done; try lia;
      destruct (Pos.compare_spec mx my), (Pos.compare_spec my mz), (Pos.compare_spec mx mz); auto; done || lia.
Qed.

Lemma nlt_not_nan x y : nlt x y = true → is_nan x = false.
Proof. by destruct x. Qed.

(** ** Decimal to binary

    [dec_to_num neg m e] is the binary64 value nearest to [m * 10^e]. *)
Definition dec_to_num (neg : bool) (m : N) (e : Z) : num :=
  match m with
  | N0 => S754_zero neg
  | Npos p =>
    let len := Z.of_nat (length (dec m)) in
    if (309 <? len + e)%Z then S754_infinity neg
    else if (len + e <? -323)%Z then S754_zero neg
    else if (0 <=? e)%Z
    then binary_normalize 53 1024 ((if neg then Z.neg p else Z.pos p) * 10 ^ e) 0 neg
    else SFdiv 53 1024 (S754_finite neg p 0) (S754_finite false (Z.to_pos (10 ^ (- e))) 0)
  end.

(** ** [Number(s)] *)

Fixpoint span_digits (s : jstr) : jstr * jstr :=
  match s with
  | c :: s' => if is_digit c then prod_map (cons c) id (span_digits s') else ([], s)
  | [] => ([], [])
  end.

(** The exponent part: [Some 0] when absent, [None] when malformed. *)
Definition parse_exponent (s : jstr) : option Z :=
  match s with
  | [] => Some 0%Z
  | c :: s =>
    if bool_decide (c = 101 ∨ c = 69)%N then
      let '(neg, s) :=
        match s with
        | 45%N :: s => (true, s) | 43%N :: s => (false, s) | _ => (false, s)
        end in
      match span_digits s with
      | ([], _) => None
      | (ds, []) => let v := Z.of_N (digits_val ds) in Some (if neg then - v else v)%Z
      | _ => None
      end
    else None
  end.

(** StrUnsignedDecimalLiteral without [Infinity]. *)
Definition parse_unsigned (neg : bool) (s : jstr) : num :=
  let '(ip, s1) := span_digits s in
  let '(fp, s2) :=
    match s1 with 46%N :: s => span_digits s | _ => ([], s1) end in
  match ip ++ fp, parse_exponent s2 with
  | [], _ | _, None => S754_nan
  | ds, Some e => dec_to_num neg (digits_val ds) (e - Z.of_nat (length fp))
  end.

Definition hex_digit (c : N) : option N :=
  if is_digit c then Some (c - 48)%N
  else if ((97 <=? c) && (c <=? 102))%N then Some (c - 87)%N
  else if ((65 <=? c) && (c <=? 70))%N then Some (c - 55)%N
  else None.

Fixpoint radix_val (radix : N) (s : jstr) (acc : N) : option N :=
  match s with
  | [] => Some acc
  | c :: s =>
    match hex_digit c with
    | Some d => if (d <? radix)%N then radix_val radix s (acc * radix + d)%N else None
    | None => None
    end
  end.

Definition parse_radix (radix : N) (s : jstr) : num :=
  match s, radix_val radix s 0 with
  | _ :: _, Some n => num_of_Z (Z.of_N n)
  | _, _ => S754_nan
  end.

Definition to_number (s : jstr) : num :=
  match trim s with
  | [] => nzero
  | (48%N :: c :: s') as t =>
    if bool_decide (c = 120 ∨ c = 88)%N then parse_radix 16 s'
    else if bool_decide (c = 111 ∨ c = 79)%N then parse_radix 8 s'
    else if bool_decide (c = 98 ∨ c = 66)%N then parse_radix 2 s'
    else parse_unsigned false t
  | 45%N :: t => if str_eqb t (js "Infinity") then S754_infinity true else parse_unsigned true t
  | 43%N :: t => if str_eqb t (js "Infinity") then ninf else parse_unsigned false t
  | t => if str_eqb t (js "Infinity") then ninf else parse_unsigned false t
  end.

(** ** [String(x)] *)

(** The decimal position of [m * 2^e]: [10^(n-1) <= m * 2^e < 10^n]. *)
Fixpoint below_one (fuel : nat) (m : N) (d : N) (j : Z) : Z :=
  match fuel with
  | O => j
  | S f => if (d <=? m)%N then j else below_one f (m * 10) d (j - 1)
  end.

Definition dec_pos (m : positive) (e : Z) : Z :=
  if (0 <=? e)%Z then Z.of_nat (length (dec (N.pos m * 2 ^ Z.to_N e)))
  else
    let d := (2 ^ Z.to_N (- e))%N in
    if (d <=? N.pos m)%N then Z.of_nat (length (dec (N.pos m / d)))
    else below_one 400 (N.pos m) d 1.

(** [floor (m * 2^e * 10^j)] and whether the upper neighbour is closer. *)
Definition scaled (m : positive) (e j : Z) : N * bool :=
  let num := (Z.pos m * 2 ^ Z.max 0 e * 10 ^ Z.max 0 j)%Z in
  let den := (2 ^ Z.max 0 (- e) * 10 ^ Z.max 0 (- j))%Z in
  (Z.to_N (num / den), (den <? 2 * (num mod den))%Z).

(** The shortest digits [(s, k, n)] with [s * 10^(n-k)] reading back as [x]. *)
Fixpoint shortest (fuel k : nat) (m : positive) (e n : Z) (x : num) : N * nat * Z :=
  let j := (Z.of_nat k - n)%Z in
  let '(lo, up) := scaled m e j in
  let hi := (lo + 1)%N in
  let ok c := bool_decide (dec_to_num false c (- j) = x) in
  let norm c := if (c =? 10 ^ N.of_nat k)%N then ((10 ^ N.of_nat (k - 1))%N, k, (n + 1)%Z)
                else (c, k, n) in
  match fuel with
  | O => (lo, k, n)
  | S f =>
    match ok lo, ok hi with
    | true, true => norm (if up then hi else lo)
    | true, false => norm lo
    | false, true => norm hi
    | false, false => shortest f (S k) m e n x
    end
  end.

Definition zeros (n : Z) : jstr := replicate (Z.to_nat n) 48%N.

(** The layout of Number::toString. *)
Definition layout (s : N) (k : nat) (n : Z) : jstr :=
  let ds := dec s in
  let k := Z.of_nat k in
  if ((k <=? n) && (n <=? 21))%Z then ds ++ zeros (n - k)
  else if ((0 <? n) && (n <=? 21))%Z then
    take (Z.to_nat n) ds ++ [46%N] ++ drop (Z.to_nat n) ds
  else if ((-6 <? n) && (n <=? 0))%Z then js "0." ++ zeros (- n) ++ ds
  else
    let e := (n - 1)%Z in
    let exp := (if (e <? 0)%Z then js "e-" else js "e+") ++ dec (Z.to_N (Z.abs e)) in
    match ds with
    | _ :: _ :: _ => take 1 ds ++ [46%N] ++ drop 1 ds ++ exp
    | _ => ds ++ exp
    end.

Definition num_to_string (x : num) : jstr :=
  match x with
  | S754_nan => js "NaN"
  | S754_infinity false => js "Infinity"
  | S754_infinity true => js "-Infinity"
  | S754_zero _ => js "0"
  | S754_finite s m e =>
    let '(d, k, n) := shortest 17 1 m e (dec_pos m e) (S754_finite false m e) in
    (if s then [45%N] else []) ++ layout d k n
  end.

(** [x.toFixed(f)]: the decimal with [f] fraction digits nearest to [x], the
    larger one on a tie; huge numbers print as [String(x)]. *)
Definition fixed_digits (m : positive) (e : Z) (f : nat) : N :=
  let num := (Z.pos m * 2 ^ Z.max 0 e * 10 ^ Z.of_nat f)%Z in
  let den := (2 ^ Z.max 0 (- e))%Z in
  Z.to_N ((2 * num + den) / (2 * den)).

Definition fixed_layout (n : N) (f : nat) : jstr :=
  let ds := dec n in
  let ds := replicate (f + 1 - length ds) 48%N ++ ds in
  match f with
  | O => ds
  | _ => take (length ds - f) ds ++ [46%N] ++ drop (length ds - f) ds
  end.

Definition toFixed (x : num) (f : nat) : jstr :=
  match x with
  | S754_zero _ => fixed_layout 0 f
  | S754_finite s m e =>
    if nle (num_of_Z (10 ^ 21)) (S754_finite false m e) then num_to_string x
    else (if s then [45%N] else []) ++ fixed_layout (fixed_digits m e f) f
  | _ => num_to_string x
  end.

Example toFixed_ex :
  (toFixed (dec_to_num false 15 (-1)) 0, toFixed (dec_to_num false 10005 (-4)) 3,
   toFixed (dec_to_num false 1255 (-3)) 2, toFixed nzero 2, toFixed (dec_to_num true 5 (-3)) 1)
  = (js "2", js "1.000", js "1.25", js "0.00", js "-0.0").
Proof. vm_compute. reflexivity. Qed.

(** ** [Math.round], [Math.abs], [Math.max], [Number.EPSILON] *)

(** The nearest integer, the larger one on a tie; a negative number above minus one
    half rounds to the negative zero. *)
Definition num_round (x : num) : num :=
  match x with
  | S754_finite s m e =>
    let z := if s then Z.neg m else Z.pos m in
    let r := if (0 <=? e)%Z then (z * 2 ^ e)%Z else ((2 * z + 2 ^ (- e)) / 2 ^ (1 - e))%Z in
    if (r =? 0)%Z then S754_zero s else num_of_Z r
  | _ => x
  end.

Definition nabs : num → num := SFabs.

(** [Math.max(x, y)] of numbers other than NaN. *)
Definition nmax (x y : num) : num := if nlt x y then y else x.

Definition EPSILON : num := binary_normalize 53 1024 1 (-52) false.

Example num_round_ex :
  (num_round (dec_to_num false 25 (-1)), num_round (dec_to_num true 25 (-1)), num_round (dec_to_num true 4 (-1)),
   num_round (to_number (js "0.49999999999999994")), num_round (num_of_Z 7))
  = (num_of_Z 3, num_of_Z (-2), S754_zero true, nzero, num_of_Z 7).
Proof. vm_compute. reflexivity. Qed.

(** ** [parseFloat(s)]: the longest prefix that is a decimal number *)

(** The exponent part at the head of a text, empty when it is not complete. *)
Definition exponent_prefix (s : jstr) : jstr :=
  match s with
  | c :: r =>
    if bool_decide (c = 101 ∨ c = 69)%N then
      let '(sg, r) := match r with 45%N :: r => ([45%N], r) | 43%N :: r => ([43%N], r) | _ => ([], r) end in
      match span_digits r with ([], _) => [] | (ds, _) => c :: sg ++ ds end
    else []
  | [] => []
  end.

Definition parseFloat (s : jstr) : num :=
  let t := trim_start s in
  let '(neg, t) := match t with 45%N :: t => (true, t) | 43%N :: t => (false, t) | _ => (false, t) end in
  if prefixb (js "Infinity") t then S754_infinity neg
  else
    let '(ip, r) := span_digits t in
    let '(fp, r) := match r with 46%N :: r' => let '(fp, r') := span_digits r' in (46%N :: fp, r') | _ => ([], r) end in
    parse_unsigned neg (ip ++ fp ++ exponent_prefix r).

Example parseFloat_ex :
  (parseFloat (js " 1.5x"), parseFloat (js ".5"), parseFloat (js "3."), parseFloat (js "2e1e"), parseFloat (js "1e"),
   parseFloat (js "-2.50"), parseFloat (js "."), parseFloat (js "x1"), parseFloat (js ".e3"))
  = (dec_to_num false 15 (-1), dec_to_num false 5 (-1), num_of_Z 3, num_of_Z 20, num_of_Z 1,
     dec_to_num true 25 (-1), S754_nan, S754_nan, S754_nan).
Proof. vm_compute. reflexivity. Qed.

(** [String] of an integer constant of the sources. *)
Example num_to_string_int : num_to_string (num_of_Z 1500) = js "1500".
Proof. vm_compute. reflexivity. Qed.

Example num_to_string_tenth : num_to_string (dec_to_num false 1 (-1)) = js "0.1".
Proof. vm_compute. reflexivity. Qed.

Example num_to_string_sum :
  num_to_string (nadd (dec_to_num false 1 (-1)) (dec_to_num false 2 (-1)))
  = js "0.30000000000000004".
Proof. vm_compute. reflexivity. Qed.

Example num_to_string_1e23 : num_to_string (to_number (js "1e23")) = js "1e+23".
Proof. vm_compute. reflexivity. Qed.

Example num_to_string_max :
  num_to_string (to_number (js "1.7976931348623157e308")) = js "1.7976931348623157e+308".
Proof. vm_compute. reflexivity. Qed.

Example num_to_string_min : num_to_string (to_number (js "5e-324")) = js "5e-324".
Proof. vm_compute. reflexivity. Qed.

Example to_number_third : to_number (js " -0.000001e1 ") = dec_to_num true 1 (-5).
Proof. vm_compute. reflexivity. Qed.

Example to_number_zero_point : to_number (js "0.25") = dec_to_num false 25 (-2).
Proof. vm_compute. reflexivity. Qed.

Example to_number_hex : to_number (js "0x1F") = num_of_Z 31.
Proof. vm_compute. reflexivity. Qed.
