(* ===== verification/NumRounding.v ===== *)
(** * Rounding errors

    The operations of [JsNumber] round to the nearest binary64 value.  This file bounds their
    error: a product or a quotient of normal numbers whose exact value is in the normal
    range differs from it by at most the fraction [2^-53].  The components use the bound
    where a computed amount must come back as the integer it was made of. *)

From Stdlib Require Import ZArith SpecFloat Reals Lra Lia.
From S2P Require Import Prelude JsString JsNumber.
Local Open Scope Z_scope.

(** ** Digits *)
Lemma digits_bounds p : 2 ^ (Z.pos (digits2_pos p) - 1) <= Z.pos p < 2 ^ Z.pos (digits2_pos p).
Proof.
  induction p as [p IH|p IH|]; cbn [digits2_pos]; [..|lia];
    rewrite Pos2Z.inj_succ; unfold Z.succ; rewrite Z.pow_add_r by lia; rewrite Z.add_simpl_r;
    replace (2 ^ Z.pos (digits2_pos p)) with (2 * 2 ^ (Z.pos (digits2_pos p) - 1)) in *
      by (rewrite <- Z.pow_succ_r by lia; f_equal; lia); lia.
Qed.

Lemma Zdigits2_unique m d : 0 < d → 2 ^ (d - 1) <= m < 2 ^ d → Zdigits2 m = d.
Proof.
  intros Hd H. assert (0 < 2 ^ (d - 1)) by (apply Z.pow_pos_nonneg; lia). destruct m as [|p|p]; [lia| |lia].
  cbn [Zdigits2]. pose proof (digits_bounds p) as Hp.
  destruct (Z.lt_trichotomy (Z.pos (digits2_pos p)) d) as [Hl|[He|Hg]]; [|done|]; exfalso.
  - assert (2 ^ Z.pos (digits2_pos p) <= 2 ^ (d - 1)) by (apply Z.pow_le_mono_r; lia). lia.
  - assert (2 ^ d <= 2 ^ (Z.pos (digits2_pos p) - 1)) by (apply Z.pow_le_mono_r; lia). lia.
Qed.

(** ** Where an exact value lies *)

(** The exact value is [a / b]; the integer below it is [m], and the location says where
    between [m] and [m + 1] it lies. *)
Definition inb (m : Z) (l : location) (a b : Z) : Prop :=
  match l with
  | loc_Exact => a = m * b
  | loc_Inexact c => m * b < a < (m + 1) * b ∧ (2 * a ?= (2 * m + 1) * b) = c
  end.

Lemma shr_1_inb mrs a b : 0 < b → 0 <= shr_m mrs → inb (shr_m mrs) (loc_of_shr_record mrs) a b →
  0 <= shr_m (shr_1 mrs) ∧ inb (shr_m (shr_1 mrs)) (loc_of_shr_record (shr_1 mrs)) a (2 * b).
Proof.
  destruct mrs as [m r s]. cbn [shr_m]. intros Hb Hm H. destruct m as [|[p|p|]|p]; [..|lia]; destruct r, s; cbn in *;
    rewrite ?Z.compare_eq_iff, ?Z.compare_lt_iff, ?Z.compare_gt_iff in *; (split; [lia|]); try split; nia.
Qed.

Lemma iter_shr_inb n mrs a b : 0 < b → 0 <= shr_m mrs → inb (shr_m mrs) (loc_of_shr_record mrs) a b →
  let mrs' := SpecFloat.iter_pos shr_1 n mrs in 0 <= shr_m mrs' ∧ inb (shr_m mrs') (loc_of_shr_record mrs') a (2 ^ Z.pos n * b).
Proof.
  revert mrs b. induction n as [n IH|n IH|]; intros mrs b Hb Hm H; cbn [SpecFloat.iter_pos].
  - destruct (shr_1_inb mrs a b Hb Hm H) as [Hm1 H1].
    destruct (IH (shr_1 mrs) (2 * b)) as [Hm2 H2]; [lia|done..|].
    destruct (IH (SpecFloat.iter_pos shr_1 n (shr_1 mrs)) (2 ^ Z.pos n * (2 * b))) as [Hm3 H3]; [|done..|].
    { apply Z.mul_pos_pos; [|lia]. apply Z.pow_pos_nonneg; lia. }
    split; [done|]. rewrite (Pos2Z.inj_xI n). rewrite Z.pow_add_r, Z.pow_1_r, (Z.mul_comm 2 (Z.pos n)), Z.pow_mul_r by lia.
    replace ((2 ^ Z.pos n) ^ 2 * 2 * b) with (2 ^ Z.pos n * (2 ^ Z.pos n * (2 * b))) by ring. done.
  - destruct (IH mrs b Hb Hm H) as [Hm2 H2].
    destruct (IH (SpecFloat.iter_pos shr_1 n mrs) (2 ^ Z.pos n * b)) as [Hm3 H3]; [|done..|].
    { apply Z.mul_pos_pos; [|lia]. apply Z.pow_pos_nonneg; lia. }
    split; [done|]. rewrite (Pos2Z.inj_xO n). rewrite (Z.mul_comm 2 (Z.pos n)), Z.pow_mul_r by lia.
    replace ((2 ^ Z.pos n) ^ 2 * b) with (2 ^ Z.pos n * (2 ^ Z.pos n * b)) by ring. done.
  - by apply shr_1_inb.
Qed.

Lemma shr_inb m e l n a b : 0 < b → 0 <= m → 0 <= n → inb m l a b →
  ∃ mrs, shr (shr_record_of_loc m l) e n = (mrs, e + n) ∧ 0 <= shr_m mrs ∧ inb (shr_m mrs) (loc_of_shr_record mrs) a (2 ^ n * b).
Proof.
  intros Hb Hm Hn H.
  assert (shr_m (shr_record_of_loc m l) = m ∧ loc_of_shr_record (shr_record_of_loc m l) = l) as [E1 E2]
    by (by destruct l as [|[]]).
  destruct n as [|n|n]; [..|lia]; cbn [shr].
  - eexists. split; [by rewrite Z.add_0_r|]. rewrite E1, E2, Z.mul_1_l. done.
  - eexists. split; [reflexivity|]. apply iter_shr_inb; rewrite ?E1, ?E2; done.
Qed.

Lemma inb_floor m l a b : 0 < b → inb m l a b → m * b <= a < (m + 1) * b.
Proof. intros Hb. destruct l; cbn; lia. Qed.

Lemma round_error m l a b : 0 < b → inb m l a b →
  m <= round_nearest_even m l <= m + 1 ∧ - b <= 2 * (round_nearest_even m l * b - a) <= b.
Proof.
  intros Hb H. destruct l as [|[]]; cbn in *; rewrite ?Z.compare_eq_iff, ?Z.compare_lt_iff, ?Z.compare_gt_iff in H.
  - lia.
  - destruct (Z.even m); lia.
  - lia.
  - lia.
Qed.

(** ** Rounding a normal value *)

(** A mantissa of 53 bits. *)
Definition normal_m (m : positive) : Prop := 2 ^ 52 <= Z.pos m < 2 ^ 53.

Lemma shr_fexp_exact r e : 2 ^ 52 <= r < 2 ^ 53 → -1074 <= e → shr_fexp 53 1024 r e loc_Exact = (shr_record_of_loc r loc_Exact, e).
Proof.
  intros Hr He. unfold shr_fexp, fexp, emin. rewrite (Zdigits2_unique r 53) by lia.
  by replace (Z.max (53 + e - 53) (3 - 1024 - 53) - e) with 0 by lia.
Qed.

Lemma round_exact s m e : normal_m m → -1074 <= e <= 971 → binary_round_aux 53 1024 s (Z.pos m) e loc_Exact = S754_finite s m e.
Proof.
  intros Hm He. unfold binary_round_aux. rewrite shr_fexp_exact by (unfold normal_m in *; lia). cbn [shr_m shr_record_of_loc loc_of_shr_record round_nearest_even].
  rewrite shr_fexp_exact by (unfold normal_m in *; lia). cbn [shr_m shr_record_of_loc].
  by rewrite (proj2 (Z.leb_le e (1024 - 53))) by lia.
Qed.

Lemma round_aux_spec s mx ex lx a b :
  0 < b → inb mx lx a b → 2 ^ 52 <= mx → -1021 <= Zdigits2 mx + ex <= 1023 →
  ∃ m e n r, binary_round_aux 53 1024 s mx ex lx = S754_finite s m e ∧ normal_m m ∧ 0 <= n
    ∧ (e = ex + n ∧ r = Z.pos m ∨ e = ex + n + 1 ∧ r = 2 * Z.pos m ∧ Z.pos m = 2 ^ 52)
    ∧ 2 ^ 52 * (2 ^ n * b) <= a ∧ - (2 ^ n * b) <= 2 * (r * (2 ^ n * b) - a) <= 2 ^ n * b.
Proof.
  intros Hb Hin Hmx Hd. destruct mx as [|p|p]; [lia| |lia]. pose proof (digits_bounds p) as Hp. cbn [Zdigits2] in Hd.
  set (d := Z.pos (digits2_pos p)) in *. assert (53 <= d) as H53.
  { destruct (Z.le_gt_cases 53 d); [done|]. assert (2 ^ d <= 2 ^ 52) by (apply Z.pow_le_mono_r; lia). lia. }
  unfold binary_round_aux, shr_fexp at 1, fexp, emin. cbn [Zdigits2]. fold d.
  replace (Z.max (d + ex - 53) (3 - 1024 - 53) - ex) with (d - 53) by lia.
  destruct (shr_inb (Z.pos p) ex lx (d - 53) a b) as (mrs & -> & Hm & Hin'); [lia..|done|].
  set (c := 2 ^ (d - 53) * b) in *. assert (0 < 2 ^ (d - 53)) as Hpow by (apply Z.pow_pos_nonneg; lia).
  assert (0 < c) as Hc by (apply Z.mul_pos_pos; lia).
  pose proof (inb_floor _ _ _ _ Hb Hin) as Hf. pose proof (inb_floor _ _ _ _ Hc Hin') as Hf'.
  assert (2 ^ (d - 1) = 2 ^ 52 * 2 ^ (d - 53)) as E1 by (rewrite <- Z.pow_add_r by lia; f_equal; lia).
  assert (2 ^ d = 2 ^ 53 * 2 ^ (d - 53)) as E2 by (rewrite <- Z.pow_add_r by lia; f_equal; lia).
  assert (2 ^ 52 <= shr_m mrs < 2 ^ 53) as Hr.
  { unfold c in *. split; [|]; nia. }
  destruct (round_error _ _ _ _ Hc Hin') as [Hr1 Hr2]. set (r := round_nearest_even _ _) in *.
  assert (2 ^ 52 * c <= a) as Hlow by nia.
  destruct (Z.eq_dec r (2 ^ 53)) as [He|He].
  - exists (2 ^ 52)%positive, (ex + (d - 53) + 1), (d - 53), r. rewrite He.
    replace (shr_fexp 53 1024 (2 ^ 53) (ex + (d - 53)) loc_Exact) with
      ({| shr_m := 2 ^ 52; shr_r := false; shr_s := false |}, ex + (d - 53) + 1).
    2: { unfold shr_fexp, fexp, emin. rewrite (Zdigits2_unique (2 ^ 53) 54) by lia.
         by replace (Z.max (54 + (ex + (d - 53)) - 53) (3 - 1024 - 53) - (ex + (d - 53))) with 1 by lia. }
    cbn [shr_m]. rewrite (proj2 (Z.leb_le _ (1024 - 53))) by lia. rewrite He in Hr2.
    split; [done|]. split; [done|]. split; [lia|]. split; [by right|by split].
  - destruct r as [|m|m] eqn:Er; [lia| |lia]. exists m, (ex + (d - 53)), (d - 53), (Z.pos m).
    rewrite shr_fexp_exact by lia. cbn [shr_m shr_record_of_loc]. rewrite (proj2 (Z.leb_le _ (1024 - 53))) by lia.
    split; [done|]. split; [unfold normal_m; lia|]. split; [lia|]. split; [by left|by split].
Qed.

(** ** Relative errors *)

Local Open Scope R_scope.

Definition bp (e : Z) : R := powerRZ 2 e.

Lemma bp_pos e : 0 < bp e.
Proof. apply powerRZ_lt. lra. Qed.

Lemma bp_add a b : bp (a + b) = bp a * bp b.
Proof. apply powerRZ_add. lra. Qed.

Lemma bp_1 : bp 1 = 2.
Proof. apply powerRZ_1. Qed.

Lemma bp_IZR n : (0 <= n)%Z → IZR (2 ^ n) = bp n.
Proof. intros Hn. unfold bp. rewrite <- (Z2Nat.id n) by done. rewrite <- pow_powerRZ. symmetry. apply pow_IZR. Qed.

Lemma bp_le a b : (a <= b)%Z → bp a <= bp b.
Proof.
  intros H. replace b with (a + (b - a))%Z by lia. rewrite bp_add, <- (bp_IZR (b - a)) by lia.
  assert (1 <= IZR (2 ^ (b - a))) by (apply IZR_le; assert (0 < 2 ^ (b - a))%Z by (apply Z.pow_pos_nonneg; lia); lia).
  pose proof (bp_pos a). nra.
Qed.

Lemma bp_lt_inv a b : bp a < bp b → (a < b)%Z.
Proof. intros H. destruct (Z.lt_ge_cases a b) as [|Hge]; [done|]. apply bp_le in Hge. lra. Qed.

(** The bound of the relative error. *)
Definition eps : R := bp (-53).

Lemma eps_val : eps * IZR (2 ^ 53) = 1.
Proof. unfold eps. rewrite bp_IZR by lia. rewrite <- bp_add. reflexivity. Qed.

(** A positive normal number and its value. *)
Definition pos_num (x : num) (v : R) : Prop := ∃ m e, x = S754_finite false m e ∧ normal_m m ∧ v = IZR (Z.pos m) * bp e.

Lemma pos_num_pos x v : pos_num x v → 0 < v.
Proof. intros (m & e & _ & _ & ->). apply Rmult_lt_0_compat; [by apply IZR_lt|apply bp_pos]. Qed.

(** [v] is [x] up to one rounding. *)
Definition near (v x : R) : Prop := ∃ d, v = x * (1 + d) ∧ - eps <= d <= eps.

Lemma digits_range mx ex lx a b :
  (0 < b)%Z → inb mx lx a b → (2 ^ 52 <= mx)%Z → bp (-1000) <= IZR a / IZR b * bp ex <= bp 1000 →
  (-1021 <= Zdigits2 mx + ex <= 1023)%Z.
Proof.
  intros Hb Hin Hm HX. pose proof (inb_floor _ _ _ _ Hb Hin) as Hf. assert (0 < IZR b) as HbR by (by apply IZR_lt).
  pose proof (bp_pos ex) as Hex.
  destruct mx as [|p|p]; [lia| |lia]. cbn [Zdigits2]. pose proof (digits_bounds p) as Hd.
  set (d := Z.pos (digits2_pos p)) in *. assert (1 <= d)%Z as Hd1 by (unfold d; lia).
  assert (bp (d - 1) <= IZR a / IZR b < bp d) as [H1 H2].
  { rewrite <- (bp_IZR (d - 1)), <- (bp_IZR d) by lia.
    assert (2 ^ (d - 1) * b <= a < 2 ^ d * b)%Z as [Hl Hu] by nia. split.
    - apply Rmult_le_reg_r with (IZR b); [done|]. replace (IZR a / IZR b * IZR b) with (IZR a) by (field; lra).
      rewrite <- mult_IZR. by apply IZR_le.
    - apply Rmult_lt_reg_r with (IZR b); [done|]. replace (IZR a / IZR b * IZR b) with (IZR a) by (field; lra).
      rewrite <- mult_IZR. by apply IZR_lt. }
  apply (Rmult_le_compat_r (bp ex)) in H1; [|lra]. apply (Rmult_lt_compat_r (bp ex)) in H2; [|done].
  rewrite <- bp_add in H1, H2.
  assert (-1000 < d + ex)%Z by (apply bp_lt_inv; lra).
  assert (bp 1000 < bp 1001) by (change 1001%Z with (1000 + 1)%Z; rewrite (bp_add 1000 1), bp_1; pose proof (bp_pos 1000); lra).
  assert (d - 1 + ex < 1001)%Z by (apply bp_lt_inv; lra).
  lia.
Qed.

Lemma round_near mx ex lx a b :
  (0 < b)%Z → inb mx lx a b → (2 ^ 52 <= mx)%Z → bp (-1000) <= IZR a / IZR b * bp ex <= bp 1000 →
  ∃ v, pos_num (binary_round_aux 53 1024 false mx ex lx) v ∧ near v (IZR a / IZR b * bp ex).
Proof.
  intros Hb Hin Hm HX. pose proof (inb_floor _ _ _ _ Hb Hin) as Hf. assert (0 < IZR b) as HbR by (by apply IZR_lt).
  assert (0 < a)%Z as Ha by nia. assert (0 < IZR a) as HaR by (by apply IZR_lt). pose proof (bp_pos ex) as Hex.
  destruct (round_aux_spec false mx ex lx a b) as (m & e & n & r & Hr & Hnm & Hn & Hv & Hlow & Hhalf); [done..| |].
  { by apply (digits_range mx ex lx a b). }
  exists (IZR r * bp (ex + n)). split.
  - exists m, e. split_and!; [done..|]. destruct Hv as [[-> ->] | (-> & -> & _)]; [done|].
    rewrite mult_IZR, (bp_add (ex + n) 1), bp_1. ring.
  - exists (IZR (r * (2 ^ n * b) - a) / IZR a). split.
    + rewrite minus_IZR, !mult_IZR, (bp_IZR n) by done. rewrite bp_add. field. lra.
    + assert (- a <= 2 ^ 53 * (r * (2 ^ n * b) - a) <= a)%Z as Herr by (generalize dependent (2 ^ n * b)%Z; lia).
      destruct Herr as [H1%IZR_le H2%IZR_le]. rewrite mult_IZR in H1, H2. rewrite opp_IZR in H1.
      pose proof eps_val as He. set (q := IZR (r * (2 ^ n * b) - a)) in *. split.
      * apply Rmult_le_reg_r with (IZR a * IZR (2 ^ 53)); [apply Rmult_lt_0_compat; [done|by apply IZR_lt]|].
        replace (q / IZR a * (IZR a * IZR (2 ^ 53))) with (IZR (2 ^ 53) * q) by (field; lra).
        replace (- eps * (IZR a * IZR (2 ^ 53))) with (- IZR a * (eps * IZR (2 ^ 53))) by ring. rewrite He. lra.
      * apply Rmult_le_reg_r with (IZR a * IZR (2 ^ 53)); [apply Rmult_lt_0_compat; [done|by apply IZR_lt]|].
        replace (q / IZR a * (IZR a * IZR (2 ^ 53))) with (IZR (2 ^ 53) * q) by (field; lra).
        replace (eps * (IZR a * IZR (2 ^ 53))) with (IZR a * (eps * IZR (2 ^ 53))) by ring. rewrite He. lra.
Qed.

Lemma mul_near x y vx vy : pos_num x vx → pos_num y vy → bp (-1000) <= vx * vy <= bp 1000 →
  ∃ v, pos_num (nmul x y) v ∧ near v (vx * vy).
Proof.
  intros (mx & ex & -> & Hx & ->) (my & ey & -> & Hy & ->) H. cbn [nmul SFmul xorb]. unfold normal_m in *.
  assert (IZR (Z.pos (mx * my)) / IZR 1 * bp (ex + ey) = IZR (Z.pos mx) * bp ex * (IZR (Z.pos my) * bp ey)) as E
    by (rewrite Pos2Z.inj_mul, mult_IZR, bp_add; field).
  rewrite <- E in *. apply round_near; [lia|cbn; lia|rewrite Pos2Z.inj_mul; nia|done].
Qed.

Lemma new_location_inb q r m : (0 < m → 0 <= r < m → inb q (new_location m r) (q * m + r) m)%Z.
Proof.
  intros Hm Hr. unfold new_location, new_location_even, new_location_odd, inb.
  destruct (Z.even m) eqn:Ev; destruct (Z.eqb_spec r 0) as [->|Hne]; try lia.
  - split; [lia|].
    destruct (2 * r ?= m)%Z eqn:Ec; rewrite ?Z.compare_eq_iff, ?Z.compare_lt_iff, ?Z.compare_gt_iff in *; lia.
  - split; [lia|]. assert (∃ k, m = 2 * k + 1)%Z as [k ->].
    { apply Z.odd_spec. by rewrite <- Z.negb_even, Ev. }
    destruct (2 * r + 1 ?= 2 * k + 1)%Z eqn:Ec; rewrite ?Z.compare_eq_iff, ?Z.compare_lt_iff, ?Z.compare_gt_iff in *; lia.
Qed.

Lemma div_core x y vx vy : pos_num x vx → pos_num y vy → bp (-900) <= vx / vy →
  ∃ q E l a b, ndiv x y = binary_round_aux 53 1024 false q E l ∧ (0 < b)%Z ∧ inb q l a b ∧ (2 ^ 52 <= q)%Z
    ∧ IZR a / IZR b * bp E = vx / vy.
Proof.
  intros (mx & ex & -> & Hx & ->) (my & ey & -> & Hy & ->) H. unfold normal_m in *. cbn [ndiv SFdiv xorb].
  assert (0 < IZR (Z.pos my)) as Hmy by (by apply IZR_lt). pose proof (bp_pos ey) as Hey.
  set (E := (ex - ey - 53)%Z).
  assert (IZR (Z.pos mx * 2 ^ 53) / IZR (Z.pos my) * bp E = IZR (Z.pos mx) * bp ex / (IZR (Z.pos my) * bp ey)) as Eq.
  { rewrite mult_IZR, (bp_IZR 53) by lia. replace ex with (53 + E + ey)%Z by (unfold E; lia). rewrite !bp_add. field. lra. }
  rewrite <- Eq in H. assert (-901 < ex - ey)%Z as He.
  { assert (IZR (Z.pos mx * 2 ^ 53) / IZR (Z.pos my) < bp 54) as Hlt.
    { apply Rmult_lt_reg_r with (IZR (Z.pos my)); [done|].
      replace (IZR (Z.pos mx * 2 ^ 53) / IZR (Z.pos my) * IZR (Z.pos my)) with (IZR (Z.pos mx * 2 ^ 53)) by (field; lra).
      rewrite <- bp_IZR, <- mult_IZR by lia. apply IZR_lt. nia. }
    apply (Rmult_lt_compat_r (bp E)) in Hlt; [|apply bp_pos]. rewrite <- bp_add in Hlt.
    assert (-900 < 54 + E)%Z by (apply bp_lt_inv; lra). unfold E in *. lia. }
  unfold SFdiv_core_binary, fexp, emin. rewrite !(Zdigits2_unique _ 53) by lia.
  replace (Z.min (Z.max (53 + ex - (53 + ey) - 53) (3 - 1024 - 53)) (ex - ey)) with E by (unfold E; lia).
  replace (ex - ey - E)%Z with 53%Z by (unfold E; lia). cbn [Z.sub]. rewrite Z.shiftl_mul_pow2 by lia.
  pose proof (Z.div_eucl_eq (Z.pos mx * 2 ^ 53) (Z.pos my)) as Hd. pose proof (Z.mod_pos_bound (Z.pos mx * 2 ^ 53) (Z.pos my)) as Hmod.
  unfold Z.modulo in Hmod. destruct (Z.div_eucl (Z.pos mx * 2 ^ 53) (Z.pos my)) as [q r]. specialize (Hd ltac:(lia)). specialize (Hmod ltac:(lia)).
  exists q, E, (new_location (Z.pos my) r), (Z.pos mx * 2 ^ 53)%Z, (Z.pos my). split; [done|]. split; [lia|].
  split; [rewrite Hd, (Z.mul_comm (Z.pos my) q); by apply new_location_inb|]. split; [nia|exact Eq].
Qed.

Lemma div_near x y vx vy : pos_num x vx → pos_num y vy → bp (-900) <= vx / vy <= bp 1000 →
  ∃ v, pos_num (ndiv x y) v ∧ near v (vx / vy).
Proof.
  intros Hx Hy H. destruct (div_core x y vx vy Hx Hy) as (q & E & l & a & b & -> & Hb & Hin & Hq & He); [lra|]. rewrite <- He in *.
  apply round_near; [done..|]. pose proof (bp_le (-1000) (-900) ltac:(lia)). lra.
Qed.

(** ** Integers *)
Lemma iter_xO p n : Z.pos (Pos.iter xO p n) = (Z.pos p * 2 ^ Z.pos n)%Z.
Proof.
  induction n as [|n IH] using Pos.peano_ind; [cbn; lia|]. rewrite Pos.iter_succ, Pos2Z.inj_xO, IH, Pos2Z.inj_succ, Z.pow_succ_r by lia. ring.
Qed.

(** Integers below [2^53] are exact. *)
Lemma num_of_Z_exact u : (0 < u < 2 ^ 53)%Z → pos_num (num_of_Z u) (IZR u).
Proof.
  intros Hu. destruct u as [|p|p]; [lia| |lia]. unfold num_of_Z, binary_normalize, binary_round, fexp, emin.
  pose proof (digits_bounds p) as Hd. set (d := Z.pos (digits2_pos p)) in *. assert (1 <= d)%Z as Hd1 by (unfold d; lia).
  assert (d <= 53)%Z as Hd2.
  { destruct (Z.le_gt_cases d 53); [done|]. assert (2 ^ 53 <= 2 ^ (d - 1))%Z by (apply Z.pow_le_mono_r; lia). lia. }
  replace (Z.max (d + 0 - 53) (3 - 1024 - 53)) with (d - 53)%Z by lia. unfold shl_align. rewrite Z.sub_0_r.
  destruct (d - 53)%Z as [|k|k] eqn:Ek; [|lia|].
  - assert (d = 53)%Z as Ed by lia. rewrite Ed in Hd. rewrite round_exact by (unfold normal_m; lia).
    exists p, 0%Z. split_and!; [done|unfold normal_m; lia|]. unfold bp. cbn [powerRZ]. ring.
  - assert (normal_m (Pos.iter xO p k)) as Hn.
    { unfold normal_m. rewrite iter_xO. replace (2 ^ 52)%Z with (2 ^ (d - 1) * 2 ^ Z.pos k)%Z
        by (rewrite <- Z.pow_add_r by lia; f_equal; lia).
      replace (2 ^ 53)%Z with (2 ^ d * 2 ^ Z.pos k)%Z by (rewrite <- Z.pow_add_r by lia; f_equal; lia).
      assert (0 < 2 ^ Z.pos k)%Z by (apply Z.pow_pos_nonneg; lia). nia. }
    rewrite round_exact by (done || lia). exists (Pos.iter xO p k), (Z.neg k). split_and!; [done..|].
    rewrite iter_xO, mult_IZR, bp_IZR, Rmult_assoc, <- bp_add by lia. replace (Z.pos k + Z.neg k)%Z with 0%Z by lia. unfold bp. cbn [powerRZ]. ring.
Qed.

(** [Math.round] finds the integer that is less than one half away. *)
Lemma num_round_near x v u : (0 < u)%Z → pos_num x v → IZR u - / 2 < v < IZR u + / 2 → num_round x = num_of_Z u.
Proof.
  intros Hu (m & e & -> & _ & ->) Hv. unfold num_round.
  set (r := if (0 <=? e)%Z then _ else _). assert (r = u) as ->.
  { unfold r. destruct (Z.leb_spec 0 e) as [He|He].
    - rewrite <- bp_IZR, <- mult_IZR in Hv by done. set (w := (Z.pos m * 2 ^ e)%Z) in *.
      assert (IZR u < IZR (w + 1)) as H1%lt_IZR by (rewrite plus_IZR; lra).
      assert (IZR w < IZR (u + 1)) as H2%lt_IZR by (rewrite plus_IZR; lra). lia.
    - symmetry. set (k := (1 - e)%Z).
      assert (IZR (2 ^ k) = 2 * IZR (2 ^ (- e))) as Ek.
      { unfold k. replace (1 - e)%Z with (Z.succ (- e)) by lia. rewrite Z.pow_succ_r by lia. apply mult_IZR. }
      assert (bp e * IZR (2 ^ (- e)) = 1) as E1 by (rewrite bp_IZR, <- bp_add by lia; by replace (e + - e)%Z with 0%Z by lia).
      assert (0 < 2 ^ (- e))%Z as Hp by (apply Z.pow_pos_nonneg; lia). apply IZR_lt in Hp as HpR.
      set (P := IZR (2 ^ (- e))) in *. destruct Hv as [Hv1 Hv2].
      apply (Rmult_lt_compat_r P) in Hv1; [|done]. apply (Rmult_lt_compat_r P) in Hv2; [|done]. rewrite Rmult_assoc, E1, Rmult_1_r in Hv1, Hv2.
      apply Z.div_unique with (2 * Z.pos m + 2 ^ (- e) - u * 2 ^ k)%Z; [left|lia].
      assert (IZR (2 ^ k * u) < IZR (2 * Z.pos m + 2 ^ (- e))) as H1%lt_IZR by (rewrite plus_IZR, !mult_IZR, Ek; fold P; lra).
      assert (IZR (2 * Z.pos m + 2 ^ (- e)) < IZR (2 ^ k * (u + 1))) as H2%lt_IZR by (rewrite mult_IZR, !plus_IZR, mult_IZR, Ek; fold P; lra).
      lia. }
  destruct (Z.eqb_spec u 0); [lia|done].
Qed.

(** Four roundings of an integer up to [2^49] stay less than one half away from it. *)
Lemma four_roundings u d1 d2 d3 d4 : (0 < u <= 2 ^ 49)%Z →
  - eps <= d1 <= eps → - eps <= d2 <= eps → - eps <= d3 <= eps → - eps <= d4 <= eps →
  IZR u - / 2 < IZR u * ((1 + d1) * (1 + d2) * (1 + d3) * (1 + d4)) < IZR u + / 2.
Proof.
  intros Hu H1 H2 H3 H4. assert (0 < IZR u <= IZR (2 ^ 49)) as [Hu1 Hu2] by (split; [apply IZR_lt|apply IZR_le]; lia).
  assert (0 < eps) as He by apply bp_pos. assert (eps * IZR (2 ^ 49) = / 16) as Hs.
  { pose proof eps_val as Hv. replace (IZR (2 ^ 53)) with (IZR (2 ^ 49) * 16) in Hv by (rewrite <- mult_IZR; by f_equal). lra. }
  assert (eps <= / 16) as Hsmall.
  { assert (1 <= IZR (2 ^ 49)) by (apply IZR_le; lia). nra. }
  assert (∀ a b x y, 0 <= a <= / 2 → 0 <= b <= / 2 → - a <= x <= a → - b <= y <= b →
    - (a + b + a * b) <= (1 + x) * (1 + y) - 1 <= a + b + a * b) as Hm by (intros; split; nra).
  assert (eps * eps <= eps * / 16) as Hee by nra. set (f := 2 * eps + eps * eps) in *.
  assert (0 <= f <= eps * (2 + / 16)) as Hf by (unfold f; split; nra).
  assert (- f <= (1 + d1) * (1 + d2) - 1 <= f) as Ha by (unfold f; destruct (Hm eps eps d1 d2); lra).
  assert (- f <= (1 + d3) * (1 + d4) - 1 <= f) as Hb by (unfold f; destruct (Hm eps eps d3 d4); lra).
  set (a := (1 + d1) * (1 + d2) - 1) in *. set (b := (1 + d3) * (1 + d4) - 1) in *.
  replace ((1 + d1) * (1 + d2) * (1 + d3) * (1 + d4)) with ((1 + a) * (1 + b)) by (unfold a, b; ring).
  destruct (Hm f f a b) as [Hab1 Hab2]; [lra..|]. assert (f * f <= f * / 2) as Hff by nra.
  assert (- (6 * eps) < (1 + a) * (1 + b) - 1 < 6 * eps) as [Hl Hr] by lra.
  apply (Rmult_lt_compat_l (IZR u)) in Hl; [|done]. apply (Rmult_lt_compat_l (IZR u)) in Hr; [|done].
  assert (IZR u * eps <= / 16) as Hue by nra. lra.
Qed.

(** ** Ranges *)

Definition within (a b : Z) (v : R) : Prop := bp a <= v <= bp b.

Lemma bp_neg e : bp (- e) = / bp e.
Proof. apply Rmult_eq_reg_r with (bp e); [|pose proof (bp_pos e); lra]. rewrite <- bp_add, Z.add_opp_diag_l. rewrite Rinv_l; [done|]. pose proof (bp_pos e). lra. Qed.

Lemma eps_small : 0 < eps <= / 2.
Proof.
  split; [apply bp_pos|]. pose proof eps_val as He. assert (2 <= IZR (2 ^ 53)) as H by (apply IZR_le; lia). pose proof (bp_pos (-53)) as Hp.
  fold eps in Hp. nra.
Qed.

Lemma near_within v x a b : near v x → within a b x → within (a - 1) (b + 1) v.
Proof.
  intros (d & -> & Hd) [H1 H2]. pose proof eps_small as He. pose proof (bp_pos a). unfold within.
  rewrite (bp_add b 1), bp_1. replace (bp (a - 1)) with (bp a * / 2) by (unfold Z.sub; rewrite bp_add, bp_neg, bp_1; done). split; nra.
Qed.

Lemma mul_within a b c d x y : within a b x → within c d y → within (a + c) (b + d) (x * y).
Proof.
  intros [H1 H2] [H3 H4]. pose proof (bp_pos a). pose proof (bp_pos c). unfold within. rewrite !bp_add.
  split; apply Rmult_le_compat; lra.
Qed.

Lemma inv_within a b x : within a b x → within (- b) (- a) (/ x).
Proof. intros [H1 H2]. pose proof (bp_pos a). unfold within. rewrite !bp_neg. split; apply Rinv_le_contravar; lra. Qed.

Lemma div_within a b c d x y : within a b x → within c d y → within (a - d) (b - c) (x / y).
Proof. intros Hx Hy. unfold Z.sub, Rdiv. by apply mul_within, inv_within. Qed.

Lemma within_mono a b a' b' v : (a' <= a)%Z → (b <= b')%Z → within a b v → within a' b' v.
Proof. intros H1%bp_le H2%bp_le [H3 H4]. split; lra. Qed.

Lemma int_within u k : (0 <= k)%Z → (0 < u <= 2 ^ k)%Z → within 0 k (IZR u).
Proof.
  intros Hk Hu. split; [change (bp 0) with 1; apply IZR_le; lia|]. rewrite <- bp_IZR by done. apply IZR_le; lia.
Qed.

(** ** Exact results *)

(** A value that is a number is not changed by rounding. *)
Lemma round_repr mx ex lx a b M E :
  (0 < b)%Z → inb mx lx a b → (2 ^ 52 <= mx)%Z → normal_m M → IZR a / IZR b * bp ex = IZR (Z.pos M) * bp E →
  within (-1000) 1000 (IZR (Z.pos M) * bp E) → binary_round_aux 53 1024 false mx ex lx = S754_finite false M E.
Proof.
  intros Hb Hin Hm HM HE HW. unfold within in HW. rewrite <- HE in HW. pose proof (digits_range _ _ _ _ _ Hb Hin Hm HW) as Hd.
  destruct (round_aux_spec false mx ex lx a b Hb Hin Hm Hd) as (m & e & n & r & -> & Hnm & Hn & Hv & Hlow & Hhalf).
  assert (0 < IZR b) as HbR by (by apply IZR_lt). assert (0 < 2 ^ n)%Z as Hp by (apply Z.pow_pos_nonneg; lia).
  set (c := (2 ^ n * b)%Z) in *. assert (0 < c)%Z as Hc by (unfold c; lia). set (k := (E - (ex + n))%Z).
  assert (IZR a = IZR (Z.pos M) * (bp k * IZR c)) as Ha.
  { unfold c. rewrite mult_IZR, bp_IZR by done. replace E with (k + n + ex)%Z in HE by (unfold k; lia). rewrite !bp_add in HE.
    pose proof (bp_pos ex) as Hx. apply Rmult_eq_reg_r with (bp ex / IZR b); [|pose proof (Rinv_0_lt_compat _ HbR); nra].
    replace (IZR a * (bp ex / IZR b)) with (IZR a / IZR b * bp ex) by (field; lra). rewrite HE. field. lra. }
  unfold normal_m in *. destruct (Z.lt_trichotomy k 0) as [Hk|[Hk|Hk]].
  - exfalso. assert (a * 2 ^ (- k) = Z.pos M * c)%Z as Ha'.
    { apply eq_IZR. rewrite !mult_IZR, (bp_IZR (- k)), Ha, bp_neg by lia. field. pose proof (bp_pos k). lra. }
    assert (2 ^ 1 <= 2 ^ (- k))%Z by (apply Z.pow_le_mono_r; lia).
    assert (a * 2 <= a * 2 ^ (- k))%Z by nia. nia.
  - assert (a = Z.pos M * c)%Z as Ha' by (apply eq_IZR; rewrite Ha, Hk, mult_IZR; change (bp 0) with 1; ring).
    assert (r = Z.pos M) as -> by nia. destruct Hv as [[-> Hv]|(-> & Hv & Hv')]; [|lia].
    replace E with (ex + n)%Z by (unfold k in Hk; lia). by replace m with M by lia.
  - assert (a = Z.pos M * (2 ^ k * c))%Z as Ha' by (apply eq_IZR; rewrite Ha, !mult_IZR, (bp_IZR k) by lia; ring).
    assert (2 ^ 1 <= 2 ^ k)%Z by (apply Z.pow_le_mono_r; lia).
    assert (Z.pos M * 2 ^ k = r)%Z as Hr by nia. assert (r <= 2 ^ 53)%Z by (destruct Hv as [[_ ->]|(_ & -> & ->)]; lia).
    assert (Z.pos M = 2 ^ 52 ∧ 2 ^ k = 2)%Z as [HM52 Hk2] by nia.
    assert (k = 1)%Z as Hk1 by (apply (Z.pow_inj_r 2); [lia..|]; by rewrite Hk2).
    destruct Hv as [[-> Hv]|(-> & Hv & Hv')]; [lia|]. replace E with (ex + n + 1)%Z by (unfold k in Hk1; lia). by replace m with M by lia.
Qed.

(** A quotient that is an integer is exact. *)
Lemma div_int x y vx vy s : pos_num x vx → pos_num y vy → (0 < s < 2 ^ 53)%Z → vx / vy = IZR s → ndiv x y = num_of_Z s.
Proof.
  intros Hx Hy Hs Hv. pose proof (int_within s 53 ltac:(lia) ltac:(lia)) as [W1 W2].
  destruct (div_core x y vx vy Hx Hy) as (q & E & l & a & b & -> & Hb & Hin & Hq & He).
  { rewrite Hv. pose proof (bp_le (-900) 0 ltac:(lia)). lra. }
  destruct (num_of_Z_exact s Hs) as (M & F & -> & HM & HV). apply (round_repr q E l a b); [done..|congruence|].
  rewrite <- HV. pose proof (bp_le (-1000) 0 ltac:(lia)). pose proof (bp_le 53 1000 ltac:(lia)). split; lra.
Qed.

Lemma floor_int s : (0 < s < 2 ^ 53)%Z → num_floor (num_of_Z s) = num_of_Z s.
Proof.
  intros Hs. destruct (num_of_Z_exact s Hs) as (m & e & Hm & _ & Hv). rewrite Hm. unfold num_floor.
  destruct (Z.leb_spec 0 e) as [He|He]; [done|]. rewrite <- Hm. f_equal.
  assert (s * 2 ^ (- e) = Z.pos m)%Z as <-.
  { apply eq_IZR. rewrite mult_IZR, Hv, bp_IZR, bp_neg by lia. field. pose proof (bp_pos e). lra. }
  apply Z.div_mul. apply Z.pow_nonzero; lia.
Qed.

(** A product that is an integer is exact. *)
Lemma mul_int x y vx vy s : pos_num x vx → pos_num y vy → (0 < s < 2 ^ 53)%Z → vx * vy = IZR s → nmul x y = num_of_Z s.
Proof.
  intros (mx & ex & -> & Hx & ->) (my & ey & -> & Hy & ->) Hs Hv. cbn [nmul SFmul xorb]. unfold normal_m in Hx, Hy.
  pose proof (int_within s 53 ltac:(lia) ltac:(lia)) as W. destruct (num_of_Z_exact s Hs) as (M & F & -> & HM & HV).
  apply (round_repr _ _ _ (Z.pos (mx * my)) 1); [lia|cbn; lia|rewrite Pos2Z.inj_mul; nia|done| |].
  - rewrite <- HV, <- Hv, Pos2Z.inj_mul, mult_IZR, bp_add. field.
  - rewrite <- HV. eapply within_mono; [..|exact W]; lia.
Qed.

(** Two aligned mantissas are added exactly. *)
Lemma align_min m e e' : fst (shl_align m e (Z.min e e')) = Z.to_pos (Z.pos m * 2 ^ (e - Z.min e e')).
Proof.
  unfold shl_align. destruct (Z.min e e' - e)%Z as [|k|k] eqn:E; cbn [fst].
  - replace (e - Z.min e e')%Z with 0%Z by lia. by rewrite Z.pow_0_r, Z.mul_1_r.
  - lia.
  - rewrite <- (Pos2Z.id (Pos.iter xO m k)), iter_xO. by replace (e - Z.min e e')%Z with (Z.pos k) by lia.
Qed.

(** A sum of positive numbers is rounded once. *)
Lemma add_core x y vx vy : pos_num x vx → pos_num y vy →
  ∃ p E, nadd x y = binary_round_aux 53 1024 false (Z.pos p) E loc_Exact ∧ (2 ^ 52 <= Z.pos p)%Z ∧ IZR (Z.pos p) / IZR 1 * bp E = vx + vy.
Proof.
  intros (mx & ex & -> & Hx & ->) (my & ey & -> & Hy & ->). unfold nadd, SFadd, normal_m in *. cbn [cond_Zopp].
  rewrite align_min, (Z.min_comm ex ey), align_min, (Z.min_comm ey ex). set (ez := Z.min ex ey).
  set (a := (Z.pos mx * 2 ^ (ex - ez))%Z). set (b := (Z.pos my * 2 ^ (ey - ez))%Z).
  assert (0 < 2 ^ (ex - ez))%Z as P1 by (apply Z.pow_pos_nonneg; lia). assert (0 < 2 ^ (ey - ez))%Z as P2 by (apply Z.pow_pos_nonneg; lia).
  assert (2 ^ 52 <= a)%Z as Ha by (unfold a; nia). assert (2 ^ 52 <= b)%Z as Hb by (unfold b; nia).
  rewrite !Z2Pos.id by lia. destruct (a + b)%Z as [|p|p] eqn:Ep; [lia| |lia]. exists p, ez. split_and!; [|lia|].
  - unfold binary_normalize, binary_round. pose proof (digits_bounds p) as Hd. set (d := Z.pos (digits2_pos p)) in *.
    assert (53 <= d)%Z as Hd53.
    { destruct (Z.le_gt_cases 53 d); [done|]. assert (2 ^ d <= 2 ^ 52)%Z by (apply Z.pow_le_mono_r; lia). lia. }
    assert (shl_align p ez (fexp 53 1024 (d + ez)) = (p, ez)) as ->; [|done].
    unfold shl_align, fexp, emin. destruct (Z.max (d + ez - 53) (3 - 1024 - 53) - ez)%Z eqn:E; [done..|lia].
  - rewrite <- Ep, plus_IZR. unfold a, b. rewrite !mult_IZR, !bp_IZR by lia.
    replace ex with (ex - ez + ez)%Z at 2 by lia. replace ey with (ey - ez + ez)%Z at 2 by lia. rewrite !(bp_add (_ - _)). field.
Qed.

Lemma add_near x y vx vy : pos_num x vx → pos_num y vy → within (-900) 900 vx → within (-900) 900 vy →
  ∃ v, pos_num (nadd x y) v ∧ near v (vx + vy).
Proof.
  intros Hx Hy [] []. destruct (add_core x y vx vy Hx Hy) as (p & E & -> & Hp & HE). rewrite <- HE.
  apply round_near; [lia|cbn; lia|done|]. rewrite HE.
  pose proof (bp_le (-1000) (-900) ltac:(lia)). pose proof (bp_le 901 1000 ltac:(lia)) as H9.
  change 901%Z with (900 + 1)%Z in H9. rewrite bp_add, bp_1 in H9. pose proof (bp_pos (-900)). lra.
Qed.

(** A sum of positive numbers that is an integer is exact. *)
Lemma add_pos_int x y vx vy s : pos_num x vx → pos_num y vy → (0 < s < 2 ^ 53)%Z → vx + vy = IZR s → nadd x y = num_of_Z s.
Proof.
  intros Hx Hy Hs Hv. destruct (add_core x y vx vy Hx Hy) as (p & E & -> & Hp & HE).
  destruct (num_of_Z_exact s Hs) as (M & F & -> & HM & HV).
  apply (round_repr _ _ _ (Z.pos p) 1); [lia|cbn; lia|done|done| |].
  - by rewrite HE, Hv, <- HV.
  - rewrite <- HV. eapply within_mono; [..|apply (int_within s 53); lia]; lia.
Qed.

Lemma add_int a b : (a + b < 2 ^ 53)%Z → (0 <= a)%Z → (0 <= b)%Z → nadd (num_of_Z a) (num_of_Z b) = num_of_Z (a + b).
Proof.
  intros H Ha Hb. destruct (decide (a = 0)%Z) as [->|Ha0].
  - destruct (decide (b = 0)%Z) as [->|Hb0]; [done|]. rewrite Z.add_0_l.
    destruct (num_of_Z_exact b ltac:(lia)) as (m & e & -> & _ & _). done.
  - destruct (decide (b = 0)%Z) as [->|Hb0].
    + rewrite Z.add_0_r. destruct (num_of_Z_exact a ltac:(lia)) as (m & e & -> & _ & _). done.
    + eapply add_pos_int; [by apply num_of_Z_exact; lia..|lia|symmetry; apply plus_IZR].
Qed.

(** The floor of a positive number below [2^50] is an integer at most one below it. *)
Lemma floor_near x v : pos_num x v → v <= bp 50 → ∃ s, num_floor x = num_of_Z s ∧ IZR s <= v < IZR s + 1.
Proof.
  intros (m & e & -> & Hm & ->) Hv. unfold num_floor, normal_m in *. destruct (Z.leb_spec 0 e) as [He|He].
  - exfalso. assert (bp 52 <= IZR (Z.pos m)) by (rewrite <- bp_IZR by lia; apply IZR_le; lia). pose proof (bp_le 0 e He) as H0.
    change (bp 0) with 1 in H0. pose proof (bp_pos 52). assert (bp 50 < bp 52).
    { change 52%Z with (50 + 1 + 1)%Z. rewrite !bp_add, bp_1. pose proof (bp_pos 50). lra. }
    nra.
  - eexists. split; [reflexivity|]. set (P := (2 ^ (- e))%Z). assert (0 < P)%Z as HP by (apply Z.pow_pos_nonneg; lia).
    pose proof (Z.div_mod (Z.pos m) P ltac:(lia)) as Hd. pose proof (Z.mod_pos_bound (Z.pos m) P HP) as Hb.
    assert (bp e * IZR P = 1) as E1 by (unfold P; rewrite bp_IZR, <- bp_add by lia; by rewrite Z.add_opp_diag_r).
    apply IZR_lt in HP as HPR. set (q := (Z.pos m / P)%Z) in *. split.
    + apply Rmult_le_reg_r with (IZR P); [done|]. rewrite Rmult_assoc, E1, Rmult_1_r, <- mult_IZR. apply IZR_le. lia.
    + apply Rmult_lt_reg_r with (IZR P); [done|]. rewrite Rmult_assoc, E1, Rmult_1_r.
      change 1 with (IZR 1). rewrite <- plus_IZR, <- mult_IZR. apply IZR_lt. lia.
Qed.

(** The order of positive numbers. *)
Lemma pos_num_le x y vx vy : pos_num x vx → pos_num y vy → vx <= vy → nle x y = true.
Proof.
  intros (mx & ex & -> & Hx & ->) (my & ey & -> & Hy & ->) H. unfold nle, SFleb, SFcompare, normal_m in *.
  destruct (Z.compare_spec ex ey) as [->|Hlt|Hgt]; [|done|].
  - change (Pos.compare_cont Eq mx my) with (Pos.compare mx my). apply Rmult_le_reg_r, le_IZR in H; [|apply bp_pos].
    destruct (Pos.compare_spec mx my); [done|done|lia].
  - exfalso. assert (ey + 1 <= ex)%Z as Hle by lia. apply bp_le in Hle. rewrite bp_add, bp_1 in Hle. pose proof (bp_pos ey).
    assert (IZR (2 ^ 52) <= IZR (Z.pos mx)) by (apply IZR_le; lia). assert (IZR (Z.pos my) < IZR (2 ^ 53)) by (apply IZR_lt; lia).
    replace (IZR (2 ^ 53)) with (2 * IZR (2 ^ 52)) in * by (rewrite <- mult_IZR; by f_equal).
    assert (0 < IZR (2 ^ 52)) by (by apply IZR_lt). nra.
Qed.
