(* ===== verification/NumDecimals.v ===== *)
(** * Amounts with fraction digits

    [Number(x.toFixed(f))] as the charts use it: the text with [f] fraction digits is read
    back as the binary64 value nearest to that decimal, and adding two such values and
    rounding again adds the decimals exactly as long as they stay below [2^50] units of the last
    digit. *)

From Stdlib Require Import NArith ZArith SpecFloat Reals Lra Lia.
From S2P Require Import Prelude JsString JsNumber NumRounding.
Local Open Scope Z_scope.

(** ** The printed decimal is read back *)
Lemma dec_go_length f n acc : (length (dec_go f n acc) ≤ f + length acc)%nat.
Proof.
  revert n acc. induction f as [|f IH]; intros n acc; cbn [dec_go]; [lia|]. case_match; cbn [length]; [lia|].
  etransitivity; [apply IH|]. cbn [length]. lia.
Qed.

Lemma dec_length n k : (n < 2 ^ N.of_nat k)%N → (length (dec n) ≤ S k)%nat.
Proof.
  intros Hn. unfold dec. etransitivity; [apply dec_go_length|]. cbn [length]. rewrite Nat.add_0_r. apply le_n_S.
  destruct (decide (n = 0)%N) as [->|H0]; [cbn; lia|]. assert (N.log2 n < N.of_nat k)%N by (apply N.log2_lt_pow2; lia). lia.
Qed.

Lemma span_digits_app ds s : Forall (λ c, is_digit c = true) ds → (∀ c, head s = Some c → is_digit c = false) →
  span_digits (ds ++ s) = (ds, s).
Proof.
  intros Hd Hs. induction Hd as [|c ds Hc _ IH]; cbn [app].
  - destruct s as [|c s]; [done|]. cbn [span_digits]. by rewrite (Hs c).
  - cbn [span_digits]. by rewrite Hc, IH.
Qed.

Lemma digits_val_zeros k ds : digits_val (replicate k 48%N ++ ds) = digits_val ds.
Proof. unfold digits_val. by induction k. Qed.

(** A text that starts with a digit and then goes on with a digit or a point is no prefixed
    literal and not [Infinity]. *)
Lemma to_number_unsigned c d s :
  is_digit c = true → is_digit d = true ∨ d = 46%N → trim (c :: d :: s) = c :: d :: s →
  to_number (c :: d :: s) = parse_unsigned false (c :: d :: s).
Proof.
  intros Hc Hd Ht. unfold to_number. rewrite Ht. clear Ht.
  assert (d <= 57)%N as Hk.
  { destruct Hd as [Hd| ->]; [|lia]. unfold is_digit in Hd. rewrite andb_true_iff, !N.leb_le in Hd. lia. }
  unfold is_digit in Hc. rewrite andb_true_iff, !N.leb_le in Hc.
  assert (c = 48 ∨ c = 49 ∨ c = 50 ∨ c = 51 ∨ c = 52 ∨ c = 53 ∨ c = 54 ∨ c = 55 ∨ c = 56 ∨ c = 57)%N as H by lia. clear Hc.
  destruct_or! H; subst c; [|reflexivity..]. by rewrite !bool_decide_eq_false_2 by lia.
Qed.

Lemma to_number_decimal ip fp :
  ip ≠ [] → fp ≠ [] → Forall (λ c, is_digit c = true) ip → Forall (λ c, is_digit c = true) fp →
  to_number (ip ++ 46%N :: fp) = dec_to_num false (digits_val (ip ++ fp)) (- Z.of_nat (length fp)).
Proof.
  intros Hi Hf Di Df.
  assert (parse_unsigned false (ip ++ 46%N :: fp) = dec_to_num false (digits_val (ip ++ fp)) (- Z.of_nat (length fp))) as <-.
  { unfold parse_unsigned. rewrite span_digits_app by (done || by intros c [= <-]).
    rewrite <- (app_nil_r fp) at 1. rewrite span_digits_app by done.
    destruct (ip ++ fp) eqn:E; [by apply app_eq_nil in E as [-> _]|]. done. }
  assert (trim (ip ++ 46%N :: fp) = ip ++ 46%N :: fp) as Ht.
  { destruct ip as [|a ip]; [done|]. destruct fp as [|b fp _] using rev_ind; [done|]. apply Forall_cons in Di as [Ha _].
    apply Forall_app in Df as [_ [Hb _]%Forall_cons]. change ((a :: ip) ++ 46%N :: fp ++ [b]) with (a :: ip ++ (46%N :: fp) ++ [b]).
    rewrite app_assoc. by apply trim_wrap; apply is_digit_not_ws. }
  destruct ip as [|c [|d ip]]; [done| |]; apply Forall_cons in Di as [Hc Di].
  - apply to_number_unsigned; [done|by right|done].
  - apply Forall_cons in Di as [Hd _]. by apply to_number_unsigned; [|left|].
Qed.

(** The binary64 value nearest to [n] units of the fourth fraction digit. *)
Definition dec4 (n : Z) : num := dec_to_num false (Z.to_N n) (-4).

Lemma fixed_read n : to_number (fixed_layout n 4) = dec_to_num false n (-4).
Proof.
  unfold fixed_layout. set (ds := replicate _ _ ++ dec n).
  assert (5 ≤ length ds)%nat as Hl by (unfold ds; rewrite length_app, length_replicate; lia).
  assert (Forall (λ c, is_digit c = true) ds) as Hd by (apply Forall_app; split; [by apply Forall_replicate|apply dec_digits]).
  change ([46%N] ++ ?l) with (46%N :: l). rewrite to_number_decimal.
  - rewrite take_drop, length_drop. replace (length ds - (length ds - 4))%nat with 4%nat by lia.
    unfold ds. by rewrite digits_val_zeros, digits_val_dec.
  - intros E%(f_equal length). rewrite length_take in E. cbn [length] in E. lia.
  - intros E%(f_equal length). rewrite length_drop in E. cbn [length] in E. lia.
  - by apply Forall_take.
  - by apply Forall_drop.
Qed.

(** ** The value that is read *)

(** A quotient of two positive integers, not normalized, is rounded once. *)
Lemma div_integers p r : Z.pos p < 2 ^ 100 → Z.pos r < 2 ^ 100 →
  ∃ v, pos_num (SFdiv 53 1024 (S754_finite false p 0) (S754_finite false r 0)) v ∧ near v (IZR (Z.pos p) / IZR (Z.pos r)).
Proof.
  intros Hp Hr. cbn [SFdiv xorb]. unfold SFdiv_core_binary, fexp, emin. cbn [Zdigits2].
  pose proof (digits_bounds p) as Dp. pose proof (digits_bounds r) as Dr.
  set (dp := Z.pos (digits2_pos p)) in *. set (dr := Z.pos (digits2_pos r)) in *.
  assert (1 <= dp <= 100 ∧ 1 <= dr <= 100) as [Bp Br].
  { assert (∀ d m, 2 ^ (d - 1) <= m → m < 2 ^ 100 → d <= 100) as Hb.
    { intros d m H1 H2. destruct (Z.le_gt_cases d 100); [done|]. assert (2 ^ 100 <= 2 ^ (d - 1)) by (apply Z.pow_le_mono_r; lia). lia. }
    split; (split; [unfold dp, dr; lia|]); [by apply (Hb dp _ (proj1 Dp))|by apply (Hb dr _ (proj1 Dr))]. }
  set (E := Z.min (Z.max (dp + 0 - (dr + 0) - 53) (3 - 1024 - 53)) (0 - 0)).
  assert (E = Z.min (dp - dr - 53) 0) as HE by (unfold E; lia). set (s := 0 - 0 - E). assert (0 <= s) as Hs by (unfold s; lia).
  assert (match s with Z0 => Z.pos p | Z.pos _ => Z.shiftl (Z.pos p) s | Z.neg _ => 0 end = Z.pos p * 2 ^ s) as ->.
  { destruct s eqn:Es; [lia|by apply Z.shiftl_mul_pow2|lia]. }
  pose proof (Z.div_eucl_eq (Z.pos p * 2 ^ s) (Z.pos r)) as Hd. pose proof (Z.mod_pos_bound (Z.pos p * 2 ^ s) (Z.pos r)) as Hmod.
  unfold Z.modulo in Hmod. destruct (Z.div_eucl (Z.pos p * 2 ^ s) (Z.pos r)) as [q t]. specialize (Hd ltac:(lia)). specialize (Hmod ltac:(lia)).
  assert (IZR (Z.pos p) / IZR (Z.pos r) = IZR (Z.pos p * 2 ^ s) / IZR (Z.pos r) * bp E)%R as ->.
  { assert (0 < IZR (Z.pos r))%R by by apply IZR_lt. rewrite mult_IZR, bp_IZR by done. replace s with (- E) by (unfold s; lia).
    rewrite bp_neg. pose proof (bp_pos E). field. lra. }
  apply round_near; [lia|rewrite Hd, (Z.mul_comm (Z.pos r) q); by apply new_location_inb| |].
  - assert (2 ^ (dp - 1) * 2 ^ s <= Z.pos p * 2 ^ s) as H1 by (apply Z.mul_le_mono_nonneg_r; [apply Z.pow_nonneg|]; lia).
    rewrite <- Z.pow_add_r in H1 by lia. assert (2 ^ (dr + 52) <= 2 ^ (dp - 1 + s)) as H2 by (apply Z.pow_le_mono_r; unfold s; lia).
    rewrite Z.pow_add_r in H2 by lia. nia.
  - assert (within (-100) 100 (IZR (Z.pos p * 2 ^ s) / IZR (Z.pos r) * bp E)) as [W1 W2].
    { replace (IZR (Z.pos p * 2 ^ s) / IZR (Z.pos r) * bp E)%R with (IZR (Z.pos p) / IZR (Z.pos r))%R.
      - apply (div_within 0 100 0 100); apply int_within; lia.
      - assert (0 < IZR (Z.pos r))%R by by apply IZR_lt. rewrite mult_IZR, bp_IZR by done. replace s with (- E) by (unfold s; lia).
        rewrite bp_neg. pose proof (bp_pos E). field. lra. }
    pose proof (bp_le (-1000) (-100) ltac:(lia)). pose proof (bp_le 100 1000 ltac:(lia)). lra.
Qed.

Local Open Scope R_scope.

Lemma dec4_near n : (0 < n < 2 ^ 60)%Z → ∃ v, pos_num (dec4 n) v ∧ near v (IZR n / 10000).
Proof.
  intros Hn. unfold dec4, dec_to_num. destruct (Z.to_N n) as [|p] eqn:E; [lia|].
  assert (length (dec (N.pos p)) ≤ 61)%nat as Hl by (apply dec_length; lia).
  assert (n = Z.pos p) as -> by lia. rewrite !(proj2 (Z.ltb_ge _ _)) by lia. cbn [Z.leb Z.compare].
  destruct (div_integers p 10000) as (v & Hv & Hnear); [lia..|]. by exists v.
Qed.

Lemma pos_num_not_le x y vx vy : pos_num x vx → pos_num y vy → vx < vy → nle y x = false.
Proof.
  intros (mx & ex & -> & Hx & ->) (my & ey & -> & Hy & ->) H. unfold nle, SFleb, SFcompare, normal_m in *.
  destruct (Z.compare_spec ey ex) as [->|Hlt|Hgt]; [| |done].
  - change (Pos.compare_cont Eq my mx) with (Pos.compare my mx). apply Rmult_lt_reg_r, lt_IZR in H; [|apply bp_pos].
    destruct (Pos.compare_spec my mx); [lia|lia|done].
  - exfalso. assert (ey + 1 <= ex)%Z as Hle by lia. apply bp_le in Hle. rewrite bp_add, bp_1 in Hle. pose proof (bp_pos ey).
    assert (IZR (2 ^ 52) <= IZR (Z.pos mx)) by (apply IZR_le; lia). assert (IZR (Z.pos my) < IZR (2 ^ 53)) by (apply IZR_lt; lia).
    replace (IZR (2 ^ 53)) with (2 * IZR (2 ^ 52)) in * by (rewrite <- mult_IZR; by f_equal).
    assert (0 < IZR (2 ^ 52)) by (by apply IZR_lt). nra.
Qed.

Lemma not_huge x v : pos_num x v → v < bp 60 → nle (num_of_Z (10 ^ 21)) x = false.
Proof.
  intros Hx Hv. assert (num_of_Z (10 ^ 21) = S754_finite false 7629394531250000 17) as -> by (vm_compute; reflexivity).
  apply (pos_num_not_le x _ v (IZR 7629394531250000 * bp 17) Hx).
  - eexists _, _. split_and!; [done|unfold normal_m; lia|done].
  - eapply Rlt_trans; [exact Hv|]. rewrite <- !bp_IZR, <- mult_IZR by lia. apply IZR_lt. lia.
Qed.

(** The printed decimal is the nearest one. *)
Lemma fixed_digits_near m e : 
  IZR (Z.of_N (fixed_digits m e 4)) - / 2 <= IZR (Z.pos m) * bp e * 10000 < IZR (Z.of_N (fixed_digits m e 4)) + / 2.
Proof.
  unfold fixed_digits. change (10 ^ Z.of_nat 4)%Z with 10000%Z.
  set (num := (Z.pos m * 2 ^ Z.max 0 e * 10000)%Z). set (den := (2 ^ Z.max 0 (- e))%Z).
  assert (0 < den)%Z as Hden by (apply Z.pow_pos_nonneg; lia). assert (0 < 2 ^ Z.max 0 e)%Z by (apply Z.pow_pos_nonneg; lia).
  assert (0 <= num)%Z as Hnum by (unfold num; lia).
  assert (IZR (Z.pos m) * bp e * 10000 * IZR den = IZR num) as Hw.
  { unfold num, den. rewrite !mult_IZR, !bp_IZR by lia. replace e with (Z.max 0 e - Z.max 0 (- e))%Z at 1 by lia.
    unfold Z.sub. rewrite bp_add, bp_neg. pose proof (bp_pos (Z.max 0 (- e))). field. lra. }
  pose proof (Z.div_mod (2 * num + den) (2 * den) ltac:(lia)) as Hd. pose proof (Z.mod_pos_bound (2 * num + den) (2 * den) ltac:(lia)) as Hm.
  set (q := ((2 * num + den) / (2 * den))%Z) in *. assert (0 <= q)%Z by (apply Z.div_pos; lia). rewrite Z2N.id by done.
  set (w := IZR (Z.pos m) * bp e * 10000) in *. assert (0 < IZR den) as HD by (by apply IZR_lt).
  assert (2 * num + den < 2 * q * den + 2 * den ∧ 2 * q * den <= 2 * num + den)%Z as [H1%IZR_lt H2%IZR_le] by lia.
  rewrite !plus_IZR, !mult_IZR, <- Hw in H1. rewrite !plus_IZR, !mult_IZR, <- Hw in H2.
  split; [apply Rmult_le_reg_r with (IZR den)|apply Rmult_lt_reg_r with (IZR den)]; lra.
Qed.

(** The units of the fourth fraction digit that [x.toFixed(4)] shows. *)
Definition units4 (x : num) : Z := match x with S754_finite _ m e => Z.of_N (fixed_digits m e 4) | _ => 0%Z end.

Lemma fixed4_near x v : pos_num x v → v < bp 60 →
  to_number (toFixed x 4) = dec4 (units4 x) ∧ (0 <= units4 x)%Z ∧ IZR (units4 x) - / 2 <= v * 10000 < IZR (units4 x) + / 2.
Proof.
  intros Hx Hv. pose proof (not_huge x v Hx Hv) as Hh. destruct Hx as (m & e & -> & Hm & ->). unfold toFixed. rewrite Hh. cbn [app units4].
  split_and!; [|lia|by apply fixed_digits_near..].
  rewrite fixed_read. unfold dec4. by rewrite N2Z.id.
Qed.

(** Less than half a unit away there is only one decimal. *)
Lemma fixed4_unique x v n : pos_num x v → v < bp 60 → IZR n - / 2 < v * 10000 < IZR n + / 2 → to_number (toFixed x 4) = dec4 n.
Proof.
  intros Hx Hv Hn. destruct (fixed4_near x v Hx Hv) as (-> & _ & Hk). set (k := units4 x) in *. f_equal.
  assert (IZR k < IZR (n + 1)) as H1%lt_IZR by (rewrite plus_IZR; lra).
  assert (IZR n < IZR (k + 1)) as H2%lt_IZR by (rewrite plus_IZR; lra). lia.
Qed.

(** *** Sums *)
Lemma dec4_value n : (0 < n <= 2 ^ 50)%Z → ∃ v, pos_num (dec4 n) v ∧ near v (IZR n / 10000) ∧ within (-50) 51 v ∧ v < bp 60.
Proof.
  intros Hn. destruct (dec4_near n) as (v & Hv & Hnear); [lia|]. exists v.
  assert (within (-50) 51 v) as W.
  { eapply within_mono; [| |eapply near_within; [done|]]; [..|apply (div_within 0 50 0 14); apply int_within]; lia. }
  split_and!; [done..|]. destruct W. pose proof (bp_le 52 60 ltac:(lia)) as H6. change 52%Z with (51 + 1)%Z in H6.
  rewrite bp_add, bp_1 in H6. pose proof (bp_pos 51). lra.
Qed.

Lemma small_errors a b d1 d2 d : (0 <= a)%Z → (0 <= b)%Z → (a + b <= 2 ^ 50)%Z →
  - eps <= d1 <= eps → - eps <= d2 <= eps → - eps <= d <= eps →
  IZR (a + b) - / 2 < (IZR a * (1 + d1) + IZR b * (1 + d2)) * (1 + d) < IZR (a + b) + / 2.
Proof.
  intros Ha%IZR_le Hb%IZR_le Hab%IZR_le H1 H2 H3. rewrite plus_IZR in *. set (A := IZR a) in *. set (B := IZR b) in *.
  assert (0 < eps) as He by apply bp_pos. assert (eps * IZR (2 ^ 50) = / 8) as Hs.
  { pose proof eps_val as Hv. replace (IZR (2 ^ 53)) with (IZR (2 ^ 50) * 8) in Hv by (rewrite <- mult_IZR; by f_equal). lra. }
  assert (eps <= / 8) as Hsmall by (assert (1 <= IZR (2 ^ 50)) by (apply IZR_le; lia); nra).
  assert ((A + B) * eps <= / 8) as Hsum by nra. set (S := A * d1 + B * d2).
  assert (- ((A + B) * eps) <= S <= (A + B) * eps) as HS by (unfold S; split; nra).
  replace ((A * (1 + d1) + B * (1 + d2)) * (1 + d)) with (A + B + S + (A + B + S) * d) by (unfold S; ring).
  assert (0 <= A + B) as HAB by lra. assert (- (/ 8 + / 64) <= (A + B + S) * d <= / 8 + / 64); [|lra].
  assert (- ((A + B) * eps) <= (A + B) * d <= (A + B) * eps) by (split; nra).
  assert (- / 64 <= S * d <= / 64) by (split; nra). lra.
Qed.

(** Rounding such an amount again changes nothing. *)
Lemma dec4_fixed n : (0 <= n <= 2 ^ 50)%Z → to_number (toFixed (dec4 n) 4) = dec4 n.
Proof.
  intros Hn. destruct (decide (n = 0)%Z) as [->|H0]; [by vm_compute|].
  destruct (dec4_value n ltac:(lia)) as (v & Hv & (d & Ev & Hd) & _ & Hb). eapply fixed4_unique; [exact Hv|exact Hb|].
  pose proof (small_errors n 0 d 0 0) as H. rewrite Z.add_0_r in H. assert (0 < eps) by apply bp_pos.
  replace (v * 10000) with ((IZR n * (1 + d) + IZR 0 * (1 + 0)) * (1 + 0)) by (rewrite Ev; field). apply H; lia || lra.
Qed.

(** Adding two such amounts and rounding again adds the units. *)
Lemma dec4_add a b : (0 <= a)%Z → (0 <= b)%Z → (a + b <= 2 ^ 50)%Z →
  to_number (toFixed (nadd (dec4 a) (dec4 b)) 4) = dec4 (a + b).
Proof.
  intros Ha Hb Hab. destruct (decide (a = 0)%Z) as [->|Ha0]; [|destruct (decide (b = 0)%Z) as [->|Hb0]].
  - assert (nadd (dec4 0) (dec4 b) = dec4 b) as ->; [|by apply dec4_fixed].
    destruct (decide (b = 0)%Z) as [->|Hb0]; [done|]. by destruct (dec4_value b ltac:(lia)) as (v & (m & e & -> & _) & _).
  - assert (nadd (dec4 a) (dec4 0) = dec4 a) as ->; [|rewrite Z.add_0_r in *; by apply dec4_fixed].
    by destruct (dec4_value a ltac:(lia)) as (v & (m & e & -> & _) & _).
  - destruct (dec4_value a ltac:(lia)) as (va & Hva & (d1 & E1 & Hd1) & W1 & _).
    destruct (dec4_value b ltac:(lia)) as (vb & Hvb & (d2 & E2 & Hd2) & W2 & _).
    destruct (add_near _ _ _ _ Hva Hvb) as (v & Hv & d & E & Hd); [by eapply within_mono; [..|eassumption]; lia..|].
    pose proof (small_errors a b d1 d2 d Ha Hb Hab Hd1 Hd2 Hd) as Hs.
    assert (v * 10000 = (IZR a * (1 + d1) + IZR b * (1 + d2)) * (1 + d)) as Ev by (rewrite E, E1, E2; field).
    rewrite <- Ev in Hs. eapply fixed4_unique; [exact Hv| |exact Hs].
    assert (IZR (a + b) <= bp 50) as H5 by (rewrite <- bp_IZR by lia; apply IZR_le; lia).
    pose proof (bp_le 51 60 ltac:(lia)) as H6. change 51%Z with (50 + 1)%Z in H6. rewrite bp_add, bp_1 in H6.
    assert (1 <= bp 50) by (apply (bp_le 0); lia). lra.
Qed.

(** A quotient of integers with four fraction digits is less than one unit of the last digit off. *)
Lemma div_fixed4 raw q : (0 < raw < 2 ^ 53)%Z → (0 < q < 2 ^ 53)%Z → (raw <= 2 ^ 36 * q)%Z →
  let x := ndiv (num_of_Z raw) (num_of_Z q) in
  num_truthy x = true ∧ to_number (toFixed x 4) = dec4 (units4 x) ∧ (0 <= units4 x)%Z ∧ (Z.abs (units4 x * q - 10000 * raw) < q)%Z.
Proof.
  intros Hraw Hq Hle. pose proof (num_of_Z_exact raw Hraw) as Hr. pose proof (num_of_Z_exact q Hq) as Hqq.
  destruct (div_near _ _ _ _ Hr Hqq) as (v & Hv & d & E & Hd).
  { assert (within (-53) 53 (IZR raw / IZR q)) as [W1 W2] by (apply (div_within 0 53 0 53); apply int_within; lia).
    pose proof (bp_le (-900) (-53) ltac:(lia)). pose proof (bp_le 53 1000 ltac:(lia)). lra. }
  assert (0 < IZR q) as HQ by (apply IZR_lt; lia). assert (0 < IZR raw) as HR by (apply IZR_lt; lia). set (w := IZR raw / IZR q) in *.
  assert (0 < w <= bp 36) as Hw.
  { split; [by apply Rdiv_lt_0_compat|]. apply Rmult_le_reg_r with (IZR q); [done|].
    replace (w * IZR q) with (IZR raw) by (unfold w; field; lra). rewrite <- bp_IZR, <- mult_IZR by lia. by apply IZR_le. }
  assert (0 < eps) as He by apply bp_pos. assert (eps * bp 50 = / 8) as H50.
  { pose proof eps_val as H. rewrite bp_IZR in H by lia. change 53%Z with (50 + 1 + 1 + 1)%Z in H. rewrite !(bp_add _ 1), bp_1 in H. lra. }
  assert (10000 * w * eps <= / 8) as Herr.
  { assert (10000 * w <= bp 50); [|nra]. change 50%Z with (14 + 36)%Z. rewrite bp_add.
    assert (10000 <= bp 14) by (rewrite <- bp_IZR by lia; apply IZR_le; lia). nra. }
  assert (eps <= 1) as He1 by (assert (1 <= bp 50) by (apply (bp_le 0); lia); nra).
  destruct (fixed4_near _ v Hv) as (Ef & Hn & Hnv).
  { pose proof (bp_le 38 60 ltac:(lia)) as H6. change 38%Z with (36 + 1 + 1)%Z in H6. rewrite !bp_add, bp_1 in H6. nra. }
  intros x. split; [destruct Hv as (? & ? & Ex & _); unfold x; by rewrite Ex|].
  fold x in Ef, Hn, Hnv. split_and!; [done..|]. clear Ef. set (n := units4 x) in *. assert (- (5 / 8) <= IZR n - 10000 * w <= 5 / 8) as Hd8.
  { assert (- / 8 <= 10000 * w * d <= / 8) by (split; nra). rewrite E in Hnv. split; lra. }
  assert (IZR (n * q - 10000 * raw) = (IZR n - 10000 * w) * IZR q) as EZ
    by (rewrite minus_IZR, !mult_IZR; unfold w; field; lra).
  assert (IZR (n * q - 10000 * raw) < IZR q) as H1%lt_IZR by (rewrite EZ; nra).
  assert (IZR (- q) < IZR (n * q - 10000 * raw)) as H2%lt_IZR by (rewrite EZ, opp_IZR; nra). lia.
Qed.

(** ** Whole amounts *)

(** Integers that JavaScript adds: the sum is rounded to a binary64 value, which is an integer again. *)
Definition dadd (a b : Z) : Z := default 0%Z (num_to_Z (nadd (num_of_Z a) (num_of_Z b))).

Lemma num_of_Z_back z : (0 <= z < 2 ^ 53)%Z → num_to_Z (num_of_Z z) = Some z.
Proof.
  intros Hz. destruct (decide (z = 0)%Z) as [->|H0]; [done|].
  destruct (num_of_Z_exact z ltac:(lia)) as (m & e & -> & _ & Hv). cbn [num_to_Z]. destruct (Z.leb_spec 0 e) as [He|He].
  - f_equal. apply eq_IZR. by rewrite mult_IZR, bp_IZR.
  - assert (z * 2 ^ (- e) = Z.pos m)%Z as <-.
    { apply eq_IZR. rewrite mult_IZR, Hv, bp_IZR, bp_neg by lia. field. pose proof (bp_pos e). lra. }
    assert (2 ^ (- e) ≠ 0)%Z by (apply Z.pow_nonzero; lia). by rewrite Z.mod_mul, Z.eqb_refl, Z.div_mul.
Qed.

Lemma dadd_exact a b : (0 <= a)%Z → (0 <= b)%Z → (a + b < 2 ^ 53)%Z → dadd a b = (a + b)%Z.
Proof. intros. unfold dadd. rewrite add_int by done. by rewrite num_of_Z_back by lia. Qed.

Example dadd_rounds : dadd (2 ^ 53) 1 = (2 ^ 53)%Z ∧ dadd (2 ^ 53 - 1) 1 = (2 ^ 53)%Z.
Proof. split; vm_compute; reflexivity. Qed.
