(* ===== verification/Json.v ===== *)
(** * JSON values, [JSON.parse] and [JSON.stringify]

    Objects are property lists in JavaScript's own-property order: array-index
    keys ascending, then the other keys in insertion order; a repeated key keeps
    its place and takes the last value.  [json_parse] is a recursive-descent
    parser whose fuel, linear in the length of the text, is never exhausted on
    the texts that [stringify] prints. *)

From S2P Require Import Prelude JsString JsRegExp JsNumber.
From stdpp Require Import list.
From Stdlib Require Import NArith ZArith.

Inductive json :=
  | JNull
  | JBool (b : bool)
  | JNum (x : num)
  | JStr (s : jstr)
  | JArr (l : list json)
  | JObj (l : list (jstr * json)).

Section json_ind.
Variable P : json → Prop.
Hypothesis HNull : P JNull.
Hypothesis HBool : ∀ b, P (JBool b).
Hypothesis HNum : ∀ x, P (JNum x).
Hypothesis HStr : ∀ s, P (JStr s).
Hypothesis HArr : ∀ l, Forall P l → P (JArr l).
Hypothesis HObj : ∀ l, Forall (λ kv, P kv.2) l → P (JObj l).

Fixpoint json_ind' (v : json) : P v :=
  match v with
  | JNull => HNull
  | JBool b => HBool b
  | JNum x => HNum x
  | JStr s => HStr s
  | JArr l => HArr l ((fix go l : Forall P l :=
      match l with [] => Forall_nil_2 _ | v :: l => Forall_cons_2 _ _ _ (json_ind' v) (go l) end) l)
  | JObj l => HObj l ((fix go l : Forall (λ kv, P kv.2) l :=
      match l with [] => Forall_nil_2 _ | kv :: l => Forall_cons_2 _ _ _ (json_ind' kv.2) (go l) end) l)
  end.
End json_ind.

(** ** Property order *)

(** The array index a key denotes: a canonical decimal below 2^32 - 1. *)
Definition array_index (k : jstr) : option N :=
  let n := digits_val k in
  if forallb is_digit k && str_eqb (dec n) k && (n <? 4294967295)%N then Some n else None.

(** Where a new property goes. *)
Fixpoint obj_place {A} (k : jstr) (v : A) (l : list (jstr * A)) : list (jstr * A) :=
  match array_index k with
  | None => l ++ [(k, v)]
  | Some i =>
    match l with
    | [] => [(k, v)]
    | (k', v') :: l' =>
      match array_index k' with
      | Some j => if (j <? i)%N then (k', v') :: obj_place k v l' else (k, v) :: l
      | None => (k, v) :: l
      end
    end
  end.

(** [o[k] = v]. *)
Definition obj_set {A} (l : list (jstr * A)) (k : jstr) (v : A) : list (jstr * A) :=
  if existsb (λ kv, str_eqb kv.1 k) l
  then (λ kv, if str_eqb kv.1 k then (k, v) else kv) <$> l
  else obj_place k v l.

Definition mk_obj {A} (ms : list (jstr * A)) : list (jstr * A) :=
  foldl (λ o kv, obj_set o kv.1 kv.2) [] ms.

(** [o[k]] of an own property: [None] is undefined. *)
Fixpoint obj_get {A} (k : jstr) (l : list (jstr * A)) : option A :=
  match l with
  | [] => None
  | (k', v) :: l => if str_eqb k' k then Some v else obj_get k l
  end.

(** [v.k] of a value that is not null, for a name that only objects have. *)
Definition prop (k : jstr) (v : json) : option json :=
  match v with JObj o => obj_get k o | _ => None end.

(** The own properties that [Object.entries(v)] lists and [...v] copies: the
    elements of an array or the code units of a string count as properties named
    by their index. *)
Definition indexed {A} (f : A → json) (l : list A) : list (jstr * json) :=
  imap (λ i x, (dec (N.of_nat i), f x)) l.

Definition own_props (v : json) : list (jstr * json) :=
  match v with
  | JObj o => o
  | JArr l => indexed id l
  | JStr s => indexed (λ c, JStr [c]) s
  | _ => []
  end.

(** One step of a [forEach] over entries that reads and may write the property of
    the entry's own key: [g] gives the value to write, if any. *)
Definition obj_update {A B} (g : jstr → option A → B → option A)
    (o : list (jstr * A)) (kv : jstr * B) : list (jstr * A) :=
  match g kv.1 (obj_get kv.1 o) kv.2 with
  | Some a => obj_set o kv.1 a
  | None => o
  end.

(** ** Strings *)

Definition hex_val (l : jstr) : option N := radix_val 16 l 0.

Definition unescape (c : N) : option N :=
  match c with
  | 34%N | 92%N | 47%N => Some c
  | 98%N => Some 8%N
  | 102%N => Some 12%N
  | 110%N => Some 10%N
  | 114%N => Some 13%N
  | 116%N => Some 9%N
  | _ => None
  end.

(** The text of a JSON string after its opening quote. *)
Fixpoint json_str (s : jstr) : option (jstr * jstr) :=
  match s with
  | [] => None
  | c :: s1 =>
    if (c =? DQ)%N then Some ([], s1)
    else if (c =? BSLASH)%N then
      match s1 with
      | 117%N :: a :: b :: d :: e :: s2 =>
        match hex_val [a; b; d; e] with
        | Some u => prod_map (cons u) id <$> json_str s2
        | None => None
        end
      | e :: s2 =>
        match unescape e with
        | Some u => prod_map (cons u) id <$> json_str s2
        | None => None
        end
      | [] => None
      end
    else if (c <? 32)%N then None
    else prod_map (cons c) id <$> json_str s1
  end.

Definition hex_char (d : N) : N := if (d <? 10)%N then (48 + d)%N else (87 + d)%N.

Definition hex4 (c : N) : jstr :=
  hex_char <$> [(c / 4096) mod 16; (c / 256) mod 16; (c / 16) mod 16; c mod 16]%N.

Definition is_lead (c : N) : bool := ((55296 <=? c) && (c <=? 56319))%N.
Definition is_trail (c : N) : bool := ((56320 <=? c) && (c <=? 57343))%N.

(** QuoteJSONString on one code unit that is not half of a surrogate pair. *)
Definition escape_unit (c : N) : jstr :=
  if (c =? 8)%N then js "\b"
  else if (c =? 9)%N then js "\t"
  else if (c =? 10)%N then js "\n"
  else if (c =? 12)%N then js "\f"
  else if (c =? 13)%N then js "\r"
  else if (c =? DQ)%N then [BSLASH; DQ]
  else if (c =? BSLASH)%N then [BSLASH; BSLASH]
  else if (c <? 32)%N || is_lead c || is_trail c then js "\u" ++ hex4 c
  else [c].

Fixpoint escape (s : jstr) : jstr :=
  match s with
  | [] => []
  | c :: s' =>
    match s' with
    | d :: s'' => if is_lead c && is_trail d then c :: d :: escape s'' else escape_unit c ++ escape s'
    | [] => escape_unit c
    end
  end.

(** [JSON.stringify(s)] of a string. *)
Definition quote (s : jstr) : jstr := DQ :: escape s ++ [DQ].

(** ** Numbers *)

Definition num_unit (c : N) : bool := is_digit c || one_of (js "+-.eE") c.

Fixpoint span_num (s : jstr) : jstr * jstr :=
  match s with
  | c :: s' => if num_unit c then prod_map (cons c) id (span_num s') else ([], s)
  | [] => ([], [])
  end.

Definition json_number_re : regex :=
  RSeq RBol (RSeq
    (rseq [ROpt (rlit (js "-"));
           RAlt (rlit (js "0")) (RSeq (RSet (λ c, (49 <=? c) && (c <=? 57))%N) (RStar RDigit));
           ROpt (RSeq (rlit (js ".")) (RPlus RDigit));
           ROpt (rseq [RSet (one_of (js "eE")); ROpt (RSet (one_of (js "+-"))); RPlus RDigit])])
    REol).

(** The number a token denotes.  A number is delimited in a JSON text by a
    code unit outside [num_unit], so the token is the maximal run of them. *)
Definition num_token (t : jstr) : option num :=
  if re_test json_number_re t then Some (to_number t) else None.

(** ** [JSON.parse] *)

Definition json_ws (c : N) : bool := one_of [9; 10; 13; 32]%N c.

Fixpoint skip_ws (s : jstr) : jstr :=
  match s with
  | c :: s' => if json_ws c then skip_ws s' else s
  | [] => []
  end.

(** The text after an expected punctuator. *)
Definition expect (c : N) (s : jstr) : option jstr :=
  match skip_ws s with
  | d :: s' => if (d =? c)%N then Some s' else None
  | [] => None
  end.

Fixpoint parse_value (f : nat) (s : jstr) : option (json * jstr) :=
  match f with
  | O => None
  | S f =>
    match skip_ws s with
    | [] => None
    | c :: s1 =>
      if (c =? 123)%N then
        match expect 125 s1 with
        | Some s2 => Some (JObj [], s2)
        | None => '(ms, s2) ← parse_members f s1; Some (JObj (mk_obj ms), s2)
        end
      else if (c =? 91)%N then
        match expect 93 s1 with
        | Some s2 => Some (JArr [], s2)
        | None => '(l, s2) ← parse_elems f s1; Some (JArr l, s2)
        end
      else if (c =? DQ)%N then '(t, s2) ← json_str s1; Some (JStr t, s2)
      else if prefixb (js "true") (c :: s1) then Some (JBool true, drop 3 s1)
      else if prefixb (js "false") (c :: s1) then Some (JBool false, drop 4 s1)
      else if prefixb (js "null") (c :: s1) then Some (JNull, drop 3 s1)
      else
        let '(t, s2) := span_num (c :: s1) in
        x ← num_token t; Some (JNum x, s2)
    end
  end
with parse_elems (f : nat) (s : jstr) : option (list json * jstr) :=
  match f with
  | O => None
  | S f =>
    '(v, s1) ← parse_value f s;
    match expect 44 s1 with
    | Some s2 => '(l, s3) ← parse_elems f s2; Some (v :: l, s3)
    | None => s2 ← expect 93 s1; Some ([v], s2)
    end
  end
with parse_members (f : nat) (s : jstr) : option (list (jstr * json) * jstr) :=
  match f with
  | O => None
  | S f =>
    s1 ← expect DQ s;
    '(k, s2) ← json_str s1;
    s3 ← expect 58 s2;
    '(v, s4) ← parse_value f s3;
    match expect 44 s4 with
    | Some s5 => '(l, s6) ← parse_members f s5; Some ((k, v) :: l, s6)
    | None => s5 ← expect 125 s4; Some ([(k, v)], s5)
    end
  end.

(** [None] is a thrown SyntaxError. *)
Definition json_parse (s : jstr) : option json :=
  '(v, r) ← parse_value (2 * length s + 2) s;
  match skip_ws r with [] => Some v | _ => None end.

(** ** [JSON.stringify] *)

Fixpoint stringify (v : json) : jstr :=
  match v with
  | JNull => js "null"
  | JBool true => js "true"
  | JBool false => js "false"
  | JNum x => if is_finite x then num_to_string x else js "null"
  | JStr s => quote s
  | JArr l => js "[" ++ str_join (js ",") (map stringify l) ++ js "]"
  | JObj l => js "{" ++ str_join (js ",") (map (λ kv, quote kv.1 ++ js ":" ++ stringify kv.2) l) ++ js "}"
  end.

(** [String(v)] of a JSON value. *)
Fixpoint string_of_json (v : json) : jstr :=
  match v with
  | JNull => js "null"
  | JBool true => js "true"
  | JBool false => js "false"
  | JNum x => num_to_string x
  | JStr s => s
  | JArr l => str_join (js ",") (map (λ v, match v with JNull => [] | _ => string_of_json v end) l)
  | JObj _ => js "[object Object]"
  end.

(** [String(v)] throws on an object whose own [toString] hides the inherited one:
    no JSON value is callable. *)
Fixpoint coercible (v : json) : bool :=
  match v with
  | JArr l => forallb coercible l
  | JObj o => match obj_get (js "toString") o with Some _ => false | None => true end
  | _ => true
  end.

Definition js_string (v : json) : exn jstr := if coercible v then Ret (string_of_json v) else Throw.

(** [Boolean(v)] of a JSON value. *)
Definition json_truthy (v : json) : bool :=
  match v with
  | JNull => false
  | JBool b => b
  | JNum x => num_truthy x
  | JStr s => nonempty s
  | JArr _ | JObj _ => true
  end.

Example json_parse_ex :
  json_parse (jq " {'b' : [1, -2.5e1, true, null], '10':'x\n\u00e9', 'b':[] , '2' : {}} ")
  = Some (JObj [(js "2", JObj []); (js "10", JStr (120 :: 10 :: 233 :: [])%N); (js "b", JArr [])]).
Proof. vm_compute. reflexivity. Qed.

Example json_parse_bad : json_parse (js "{a:1}") = None.
Proof. vm_compute. reflexivity. Qed.

Example stringify_ex :
  stringify (JObj [(js "a", JArr [JNum (num_of_Z 7); JStr [34; 1; 55357; 56832; 55357]%N])])
  = jq "{'a':[7,'\'\u0001" ++ [55357; 56832]%N ++ jq "\ud83d']}".
Proof. vm_compute. reflexivity. Qed.

(** ** The string round trip *)

Definition code_unit (c : N) : Prop := (c < 65536)%N.

Lemma hex_digit_char d : (d < 16)%N → hex_digit (hex_char d) = Some d.
Proof.
  intros H. unfold hex_digit, hex_char, is_digit.
  destruct (N.ltb_spec d 10).
  - rewrite (proj2 (N.leb_le 48 (48 + d))), (proj2 (N.leb_le (48 + d) 57)) by lia.
    simpl. f_equal. lia.
  - rewrite (proj2 (N.leb_gt (87 + d) 57)), andb_false_r by lia.
    rewrite (proj2 (N.leb_le 97 (87 + d))), (proj2 (N.leb_le (87 + d) 102)) by lia.
    simpl. f_equal. lia.
Qed.

Lemma hex4_digits c :
  code_unit c →
  (((c / 4096 mod 16 * 16 + c / 256 mod 16) * 16 + c / 16 mod 16) * 16 + c mod 16 = c)%N.
Proof.
  unfold code_unit. intros Hc.
  replace (c / 4096)%N with (c / 16 / 16 / 16)%N by (rewrite !N.Div0.div_div; done).
  replace (c / 256)%N with (c / 16 / 16)%N by (rewrite !N.Div0.div_div; done).
  rewrite (N.mod_small (c / 16 / 16 / 16)).
  2: { rewrite !N.Div0.div_div. by apply N.Div0.div_lt_upper_bound. }
  rewrite (N.mul_comm (c / 16 / 16 / 16)), <- (N.div_mod' (c / 16 / 16)).
  rewrite (N.mul_comm (c / 16 / 16)), <- (N.div_mod' (c / 16)).
  by rewrite (N.mul_comm (c / 16)), <- (N.div_mod' c).
Qed.

Lemma hex_val_hex4 c : code_unit c → hex_val (hex4 c) = Some c.
Proof.
  intros Hc. unfold hex_val, hex4. cbn [fmap list_fmap radix_val].
  rewrite !hex_digit_char by (by apply N.mod_lt).
  rewrite !(proj2 (N.ltb_lt _ 16)) by (by apply N.mod_lt).
  f_equal. rewrite N.mul_0_l, N.add_0_l. by apply hex4_digits.
Qed.

Lemma json_str_plain c t :
  c ≠ DQ → c ≠ BSLASH → (32 <= c)%N →
  json_str (c :: t) = prod_map (cons c) id <$> json_str t.
Proof.
  intros H1 H2 H3. cbn [json_str].
  rewrite (proj2 (N.eqb_neq c DQ)), (proj2 (N.eqb_neq c BSLASH)) by done.
  by rewrite (proj2 (N.ltb_ge c 32)).
Qed.

Lemma json_str_hex c t :
  code_unit c →
  json_str (js "\u" ++ hex4 c ++ t) = prod_map (cons c) id <$> json_str t.
Proof.
  intros Hc. pose proof (hex_val_hex4 c Hc) as Hv. unfold hex4 in *.
  cbn [fmap list_fmap] in *. js_eval. cbn [app json_str].
  change (92 =? DQ)%N with false. change (92 =? BSLASH)%N with true. cbv iota. by rewrite Hv.
Qed.

Lemma json_str_escape_unit c t :
  code_unit c →
  json_str (escape_unit c ++ t) = prod_map (cons c) id <$> json_str t.
Proof.
  intros Hc. unfold escape_unit.
  repeat match goal with
  | |- context [(c =? ?x)%N] => destruct (N.eqb_spec c x) as [->|?]; [reflexivity|]
  end.
  destruct ((c <? 32)%N || is_lead c || is_trail c) eqn:E.
  - rewrite <- app_assoc. by apply json_str_hex.
  - boolify. by apply json_str_plain.
Qed.

Lemma is_lead_plain c : is_lead c = true → c ≠ DQ ∧ c ≠ BSLASH ∧ (32 <= c)%N.
Proof. unfold is_lead, DQ, BSLASH. intros H. boolify. lia. Qed.

Lemma is_trail_plain c : is_trail c = true → c ≠ DQ ∧ c ≠ BSLASH ∧ (32 <= c)%N.
Proof. unfold is_trail, DQ, BSLASH. intros H. boolify. lia. Qed.

Lemma json_str_escape s rest :
  Forall code_unit s → json_str (escape s ++ DQ :: rest) = Some (s, rest).
Proof.
  remember (length s) as n eqn:Hn. revert s Hn.
  induction (lt_wf n) as [n _ IH]; intros s -> Hs.
  destruct s as [|c s]; [done|]. apply Forall_cons in Hs as [Hc Hs]. cbn [escape].
  destruct s as [|d s].
  { rewrite json_str_escape_unit by done. done. }
  destruct (is_lead c && is_trail d) eqn:E.
  - boolify. apply Forall_cons in Hs as [Hd Hs]. rewrite <- !app_comm_cons.
    destruct (is_lead_plain c) as (?&?&?); [done|]. destruct (is_trail_plain d) as (?&?&?); [done|].
    rewrite !json_str_plain by done. rewrite (IH (length s)); [done|simpl; lia|done|done].
  - rewrite <- app_assoc, json_str_escape_unit by done.
    rewrite (IH (length (d :: s))); [done|simpl; lia|done|done].
Qed.

(** ** The value round trip *)

(** A number whose printed form is a JSON number token that reads back as it:
    every finite number except the negative zero, which prints as 0. *)
Definition num_ok (x : num) : bool :=
  is_finite x && forallb num_unit (num_to_string x) &&
  bool_decide (num_token (num_to_string x) = Some x).

Inductive json_ok : json → Prop :=
  | ok_null : json_ok JNull
  | ok_bool b : json_ok (JBool b)
  | ok_num x : num_ok x = true → json_ok (JNum x)
  | ok_str s : Forall code_unit s → json_ok (JStr s)
  | ok_arr l : Forall json_ok l → json_ok (JArr l)
  | ok_obj l :
      Forall (λ kv, Forall code_unit kv.1) l → Forall (λ kv, json_ok kv.2) l →
      mk_obj l = l → json_ok (JObj l).

Fixpoint json_size (v : json) : nat :=
  match v with
  | JArr l => S (foldr (λ v n, S (json_size v + n)) 0 l)
  | JObj l => S (foldr (λ kv n, S (json_size kv.2 + n)) 0 l)
  | _ => 1
  end.

Definition elems_size (l : list json) : nat := foldr (λ v n, S (json_size v + n)) 0 l.
Definition members_size (l : list (jstr * json)) : nat :=
  foldr (λ kv n, S (json_size kv.2 + n)) 0 l.

(** What may follow a value: nothing that would extend a number token. *)
Definition delim (s : jstr) : Prop :=
  match head s with Some c => num_unit c = false | None => True end.

Lemma span_num_app t s :
  Forall (λ c, num_unit c = true) t → delim s → span_num (t ++ s) = (t, s).
Proof.
  intros Ht Hs. induction Ht as [|c t Hc _ IH]; simpl.
  - destruct s as [|c s]; [done|]. unfold delim in Hs. simpl in *. by rewrite Hs.
  - by rewrite Hc, IH.
Qed.

Lemma expect_hit c s : json_ws c = false → expect c (c :: s) = Some s.
Proof. intros H. unfold expect. simpl. by rewrite H, N.eqb_refl. Qed.

Lemma expect_miss c d s : json_ws d = false → d ≠ c → expect c (d :: s) = None.
Proof.
  intros H Hd. unfold expect. simpl. rewrite H. by rewrite (proj2 (N.eqb_neq d c)).
Qed.

(** The first code unit of a printed value. *)
Definition starts_value (c : N) : bool :=
  num_unit c || one_of [123; 91; 34; 116; 102; 110]%N c.

Lemma starts_value_facts c :
  starts_value c = true → json_ws c = false ∧ c ≠ 93%N ∧ c ≠ 125%N ∧ c ≠ 44%N.
Proof.
  unfold starts_value, num_unit, is_digit, json_ws, one_of. js_eval. intros H.
  apply orb_true_iff in H. rewrite orb_true_iff in H.
  rewrite bool_decide_eq_false.
  destruct H as [[H|H]|H]; boolify; set_unfold; lia.
Qed.

Lemma num_string_ok x :
  num_ok x = true →
  ∃ c t, num_to_string x = c :: t ∧ Forall (λ c, num_unit c = true) (c :: t)
    ∧ is_finite x = true ∧ num_token (c :: t) = Some x.
Proof.
  unfold num_ok. intros H. boolify.
  match goal with H : forallb _ _ = true |- _ => apply forallb_Forall in H end.
  destruct (num_to_string x) as [|c t]; [done|]. eauto 10.
Qed.

Lemma stringify_head v :
  json_ok v → ∃ c t, stringify v = c :: t ∧ starts_value c = true.
Proof.
  intros H. inversion H; subst; simpl; try (eexists _, _; split; [reflexivity|done]).
  - destruct b; eexists _, _; (split; [reflexivity|done]).
  - destruct (num_string_ok x) as (c & t & -> & HF & -> & _); [done|].
    eexists _, _; split; [done|]. inversion HF; subst. unfold starts_value.
    by apply orb_true_iff; left.
Qed.

(** The text [t] is read as the value [v]. *)
Definition parses_as (t : jstr) (v : json) : Prop :=
  ∀ f rest, json_size v ≤ f → delim rest → parse_value f (t ++ rest) = Some (v, rest).

Definition parses (v : json) : Prop := parses_as (stringify v) v.

(** *** White space *)

Definition blank (w : jstr) : Prop := Forall (λ c, json_ws c = true) w.

Lemma skip_ws_blank w s : blank w → skip_ws (w ++ s) = skip_ws s.
Proof. induction 1 as [|c w Hc _ IH]; [done|]. cbn [app skip_ws]. by rewrite Hc. Qed.

Lemma expect_blank c w s : blank w → expect c (w ++ s) = expect c s.
Proof. intros H. unfold expect. by rewrite skip_ws_blank. Qed.

Lemma parse_value_blank f w s : blank w → parse_value f (w ++ s) = parse_value f s.
Proof. intros H. destruct f; [done|]. cbn [parse_value]. by rewrite skip_ws_blank. Qed.

Lemma parse_members_blank f w s : blank w → parse_members f (w ++ s) = parse_members f s.
Proof. intros H. destruct f; [done|]. cbn [parse_members]. by rewrite expect_blank. Qed.

Lemma parses_as_blank w t v : blank w → parses_as t v → parses_as (w ++ t) v.
Proof. intros Hw Ht f rest Hf Hr. rewrite <- app_assoc, parse_value_blank by done. by apply Ht. Qed.

Lemma blank_delim w c s : blank w → num_unit c = false → delim (w ++ c :: s).
Proof.
  intros [|d w' Hd _] Hc; unfold delim; [done|]. cbn [app head].
  unfold json_ws, one_of in Hd. boolify. unfold num_unit, is_digit, one_of. js_eval.
  set_unfold. destruct_or!; subst; by vm_compute.
Qed.

Lemma num_unit_facts c :
  num_unit c = true →
  json_ws c = false ∧ c ≠ 123%N ∧ c ≠ 91%N ∧ c ≠ DQ ∧ c ≠ 116%N ∧ c ≠ 102%N ∧ c ≠ 110%N.
Proof.
  unfold num_unit, is_digit, json_ws, one_of, DQ. js_eval. rewrite orb_true_iff.
  rewrite bool_decide_eq_false. intros [H|H]; boolify; set_unfold; lia.
Qed.

Lemma prefixb_head_ne a p c s : c ≠ a → prefixb (a :: p) (c :: s) = false.
Proof. intros H. simpl. destruct (N.eqb_spec a c); [congruence|done]. Qed.

Lemma parses_num x : num_ok x = true → parses (JNum x).
Proof.
  intros Hx [|f] rest Hf Hr; [simpl in Hf; lia|].
  destruct (num_string_ok x Hx) as (c & t & Hs & HF & Hfin & Htok).
  simpl stringify. rewrite Hfin, Hs. cbn [app parse_value skip_ws].
  assert (num_unit c = true) as Hc by (by inversion HF).
  apply num_unit_facts in Hc as (Hws & ? & ? & ? & ? & ? & ?). rewrite Hws.
  rewrite !(proj2 (N.eqb_neq c _)) by done. js_eval. rewrite !prefixb_head_ne by done.
  rewrite app_comm_cons, span_num_app by done. by rewrite Htok.
Qed.

Lemma parses_str s : Forall code_unit s → parses (JStr s).
Proof.
  intros Hs [|f] rest Hf Hr; [simpl in Hf; lia|].
  simpl stringify. unfold quote. cbn [app]. rewrite <- app_assoc. cbn [app].
  simpl parse_value. by rewrite json_str_escape.
Qed.

(** The elements of an array, each printed by [p], and the closing bracket after
    the white space [w]. *)
Lemma parse_elems_ok (p : json → jstr) w l f rest :
  blank w → l ≠ [] → Forall (λ v, parses_as (p v) v) l → elems_size l ≤ f →
  parse_elems f (str_join (js ",") (map p l) ++ w ++ 93%N :: rest) = Some (l, rest).
Proof.
  intros Hw Hne Hl. revert f. induction Hl as [|v l Hv Hl IH]; [done|]; intros f Hf.
  simpl in Hf. destruct f as [|f]; [lia|]. cbn [parse_elems].
  destruct l as [|v' l].
  - simpl map. cbn [str_join]. rewrite Hv by (simpl in *; first [lia|by apply blank_delim]).
    cbn [mbind option_bind]. rewrite expect_blank, expect_miss by done.
    by rewrite expect_blank, expect_hit.
  - simpl map. rewrite join_cons by done. rewrite <- !app_assoc.
    rewrite Hv by (simpl in *; first [lia|done]). cbn [mbind option_bind]. js_eval. cbn [app].
    rewrite expect_hit by done. cbn [mbind option_bind].
    change [44%N] with (js ","). change (p v' :: map p l) with (map p (v' :: l)).
    rewrite IH by (done || lia). done.
Qed.

Definition member_text (kv : jstr * json) : jstr := quote kv.1 ++ js ":" ++ stringify kv.2.

(** A member printed as its key and a text [v]. *)
Definition member_as (p : jstr * json → jstr) (kv : jstr * json) : Prop :=
  ∃ w t, blank w ∧ parses_as t kv.2 ∧ p kv = w ++ DQ :: escape kv.1 ++ DQ :: 58%N :: t.

Lemma parse_members_ok (p : jstr * json → jstr) w l f rest :
  blank w → l ≠ [] → Forall (λ kv, Forall code_unit kv.1) l → Forall (member_as p) l →
  members_size l ≤ f →
  parse_members f (str_join (js ",") (map p l) ++ w ++ 125%N :: rest) = Some (l, rest).
Proof.
  intros Hw Hne Hk Hl. revert f Hk. induction Hl as [|[k v] l Hv Hl IH]; [done|]; intros f Hk Hf.
  simpl in Hf. apply Forall_cons in Hk as [Hk1 Hk]. simpl in Hk1.
  destruct f as [|f]; [lia|]. destruct Hv as (w1 & tv & Hw1 & Hv & Hp). cbn [fst snd] in *.
  assert (∀ t, p (k, v) ++ t = w1 ++ DQ :: escape k ++ DQ :: (58%N :: (tv ++ t))) as Htext.
  { intros t. rewrite Hp, <- app_assoc. cbn [app]. f_equal. f_equal. rewrite <- app_assoc. done. }
  destruct l as [|kv' l].
  - simpl map. cbn [str_join]. rewrite Htext, parse_members_blank by done. cbn [parse_members].
    rewrite expect_hit by done. cbn [mbind option_bind]. rewrite json_str_escape by done.
    cbn [mbind option_bind]. rewrite expect_hit by done. cbn [mbind option_bind].
    rewrite Hv by (simpl in *; first [lia|by apply blank_delim]). cbn [mbind option_bind].
    rewrite expect_blank, expect_miss by done. by rewrite expect_blank, expect_hit.
  - simpl map. rewrite join_cons by done. rewrite <- !app_assoc, Htext, parse_members_blank by done.
    cbn [parse_members]. rewrite expect_hit by done. cbn [mbind option_bind].
    rewrite json_str_escape by done. cbn [mbind option_bind].
    rewrite expect_hit by done. cbn [mbind option_bind].
    rewrite Hv by (simpl in *; first [lia|done]). cbn [mbind option_bind]. js_eval. cbn [app].
    rewrite expect_hit by done. cbn [mbind option_bind].
    change [44%N] with (js ",").
    change (p kv' :: map p l) with (map p (kv' :: l)).
    rewrite IH by (done || lia). done.
Qed.

Lemma member_text_as kv : parses kv.2 → member_as member_text kv.
Proof.
  intros H. exists [], (stringify kv.2). split; [constructor|]. split; [exact H|].
  unfold member_text, quote. js_eval. cbn [app]. by rewrite <- !app_assoc.
Qed.

(** A printed list of values does not start with a closing bracket. *)
Lemma expect_join {A} c (f : A → jstr) t l :
  (∀ v, json_ws v = true ∨ v = c → starts_value v = false) →
  l ≠ [] → Forall (λ x : jstr, ∃ d u, x = d :: u ∧ starts_value d = true) (map f l) →
  expect c (str_join (js ",") (map f l) ++ t) = None.
Proof.
  intros Hc Hne Hl. destruct l as [|x l]; [done|]. simpl map in *.
  apply Forall_cons in Hl as [(d & u & Hd & Hs) _].
  assert (∃ u', str_join (js ",") (f x :: map f l) ++ t = d :: u') as [u' ->].
  { destruct l; simpl; rewrite Hd; simpl; eauto. }
  apply expect_miss.
  - destruct (json_ws d) eqn:E; [|done]. by rewrite Hc in Hs by auto.
  - intros ->. by rewrite Hc in Hs by auto.
Qed.

Lemma parse_value_arr f s :
  parse_value (S f) (91%N :: s) =
    match expect 93 s with
    | Some s2 => Some (JArr [], s2)
    | None => '(l, s2) ← parse_elems f s; Some (JArr l, s2)
    end.
Proof. done. Qed.

Lemma parse_value_obj f s :
  parse_value (S f) (123%N :: s) =
    match expect 125 s with
    | Some s2 => Some (JObj [], s2)
    | None => '(ms, s2) ← parse_members f s; Some (JObj (mk_obj ms), s2)
    end.
Proof. done. Qed.

Lemma stringify_arr l rest :
  stringify (JArr l) ++ rest = 91%N :: str_join (js ",") (map stringify l) ++ 93%N :: rest.
Proof. cbn [stringify]. rewrite <- !app_assoc. done. Qed.

Lemma stringify_obj l rest :
  stringify (JObj l) ++ rest = 123%N :: str_join (js ",") (map member_text l) ++ 125%N :: rest.
Proof. cbn [stringify]. rewrite <- !app_assoc. done. Qed.

Lemma parses_arr l : Forall json_ok l → Forall parses l → parses (JArr l).
Proof.
  intros Hok Hl [|f] rest Hf Hr; [simpl in Hf; lia|].
  rewrite stringify_arr, parse_value_arr. destruct l as [|v l]; [done|].
  rewrite expect_join.
  - change (93%N :: rest) with (@nil N ++ 93%N :: rest).
    rewrite (parse_elems_ok stringify []); [done|constructor|done|done|]. exact (le_S_n _ _ Hf).
  - intros u [H| ->]; [|done]. destruct (starts_value u) eqn:E; [|done].
    apply starts_value_facts in E as [E _]. congruence.
  - done.
  - apply Forall_map. eapply Forall_impl; [exact Hok|]. apply stringify_head.
Qed.

Lemma parses_obj l :
  Forall (λ kv, Forall code_unit kv.1) l → Forall (λ kv, parses kv.2) l →
  mk_obj l = l → parses (JObj l).
Proof.
  intros Hk Hl Hmk [|f] rest Hf Hr; [simpl in Hf; lia|].
  rewrite stringify_obj, parse_value_obj. destruct l as [|kv l]; [done|].
  rewrite expect_join.
  - change (125%N :: rest) with (@nil N ++ 125%N :: rest).
    rewrite (parse_members_ok member_text []); [|constructor|done|done| |exact (le_S_n _ _ Hf)].
    2: { eapply Forall_impl; [exact Hl|]. apply member_text_as. }
    cbn [mbind option_bind]. by rewrite Hmk.
  - intros u [H| ->]; [|done]. destruct (starts_value u) eqn:E; [|done].
    apply starts_value_facts in E as [E _]. congruence.
  - done.
  - apply Forall_map, Forall_forall. intros kv' _. unfold member_text, quote.
    by eexists _, _.
Qed.

Lemma json_ok_parses v : json_ok v → parses v.
Proof.
  induction v as [|b|x|s|l IH|l IH] using json_ind'; intros H; inversion H; subst.
  - intros [|f] rest Hf _; [simpl in Hf; lia|done].
  - intros [|f] rest Hf _; [simpl in Hf; lia|by destruct b].
  - by apply parses_num.
  - by apply parses_str.
  - apply parses_arr; [done|]. rewrite Forall_forall in *. auto.
  - apply parses_obj; [done| |done]. rewrite Forall_forall in *. auto.
Qed.

Lemma stringify_length v : json_ok v → 1 ≤ length (stringify v).
Proof. intros H. destruct (stringify_head v H) as (c & t & -> & _). simpl. lia. Qed.

Lemma join_length sep l : length sep = 1 →
  length (str_join sep l) + 1 ≥ foldr (λ x n, length x + 1 + n) 0 l.
Proof.
  intros Hsep. induction l as [|x l IH]; [simpl; lia|]. destruct l as [|y l]; [simpl; lia|].
  rewrite join_cons by done. rewrite !length_app. cbn [foldr] in *. lia.
Qed.

(** The fuel of [json_parse] covers every printed value. *)
Lemma json_size_length v : json_ok v → json_size v ≤ 2 * length (stringify v).
Proof.
  induction v as [|b|x|s|l IH|l IH] using json_ind'; intros H;
    try (pose proof (stringify_length _ H); simpl json_size; lia).
  - inversion H as [| | | |? Hl|]; subst. cbn [stringify json_size]. rewrite !length_app.
    pose proof (join_length (js ",") (map stringify l) eq_refl).
    assert (foldr (λ v n, S (json_size v + n)) 0 l
      ≤ 2 * foldr (λ x n, length x + 1 + n) 0 (map stringify l)).
    { clear H H0. induction l as [|v l IHl]; cbn [foldr map]; [lia|].
      apply Forall_cons in IH as [IHv IH]. apply Forall_cons in Hl as [Hv Hl].
      specialize (IHv Hv). specialize (IHl IH Hl). lia. }
    change (length (js "[")) with 1. change (length (js "]")) with 1. lia.
  - inversion H as [| | | | |? Hk Hl Hm]; subst. cbn [stringify json_size]. fold member_text.
    rewrite !length_app.
    pose proof (join_length (js ",") (map member_text l) eq_refl).
    assert (foldr (λ kv n, S (json_size kv.2 + n)) 0 l
      ≤ 2 * foldr (λ x n, length x + 1 + n) 0 (map member_text l)).
    { clear H H0 Hk Hm. induction l as [|v l IHl]; cbn [foldr map]; [lia|].
      apply Forall_cons in IH as [IHv IH]. apply Forall_cons in Hl as [Hv Hl].
      specialize (IHv Hv). specialize (IHl IH Hl).
      assert (length (stringify v.2) ≤ length (member_text v)); [|lia].
      unfold member_text. rewrite !length_app. lia. }
    change (length (js "{")) with 1. change (length (js "}")) with 1. lia.
Qed.

(** [JSON.parse(JSON.stringify(v))] gives back [v]. *)
Lemma json_parse_stringify v : json_ok v → json_parse (stringify v) = Some v.
Proof.
  intros H. unfold json_parse. rewrite <- (app_nil_r (stringify v)) at 2.
  rewrite (json_ok_parses v H); [done| |done].
  pose proof (json_size_length v H). lia.
Qed.

(** ** Reading and writing properties *)
Lemma obj_get_none {A} k (l : list (jstr * A)) : k ∉ map fst l → obj_get k l = None.
Proof.
  induction l as [|[j w] l IH]; [done|]. cbn [obj_get map fst]. intros Hk. unfold str_eqb.
  rewrite bool_decide_eq_false_2 by set_solver. apply IH. set_solver.
Qed.

Lemma obj_get_snoc {A} k k' v (l : list (jstr * A)) :
  obj_get k' (l ++ [(k, v)])
  = match obj_get k' l with Some x => Some x | None => if str_eqb k k' then Some v else None end.
Proof.
  induction l as [|[j w] l IH]; [done|]. cbn [app obj_get]. by destruct (str_eqb j k').
Qed.

Lemma obj_get_place {A} k k' v (l : list (jstr * A)) :
  k ∉ map fst l → obj_get k' (obj_place k v l) = if str_eqb k k' then Some v else obj_get k' l.
Proof.
  assert (∀ l : list (jstr * A), k ∉ map fst l → obj_get k' (l ++ [(k, v)]) = if str_eqb k k' then Some v else obj_get k' l) as Hs.
  { intros l0 Hk. rewrite obj_get_snoc. unfold str_eqb. case_bool_decide; subst; [by rewrite obj_get_none|].
    by destruct (obj_get k' l0). }
  induction l as [|[j w] l IH]; intros Hk.
  - cbn [obj_place]. destruct (array_index k); [done|by apply (Hs [])].
  - cbn [obj_place]. destruct (array_index k); [|by apply Hs]. destruct (array_index j); [|done].
    destruct (_ <? _)%N; [|done]. cbn [obj_get map fst] in *. rewrite IH by set_solver.
    unfold str_eqb. repeat case_bool_decide; subst; try done. set_solver.
Qed.

Lemma existsb_key {A} k (l : list (jstr * A)) : existsb (λ kv, str_eqb kv.1 k) l = true ↔ k ∈ map fst l.
Proof.
  rewrite existsb_exists. unfold str_eqb. split.
  - intros ([k' v] & Hin & H). boolify. cbn in H. subst. apply list_elem_of_fmap. exists (k, v).
    by rewrite list_elem_of_In.
  - intros ([k' v] & -> & Hin)%list_elem_of_fmap. exists (k', v). rewrite <- list_elem_of_In.
    by rewrite bool_decide_eq_true.
Qed.

Lemma obj_get_set {A} (l : list (jstr * A)) k k' v : obj_get k' (obj_set l k v) = if str_eqb k k' then Some v else obj_get k' l.
Proof.
  unfold obj_set. destruct (existsb _ l) eqn:E.
  - apply existsb_key in E. unfold str_eqb in *. induction l as [|[j w] l IH]; [by apply elem_of_nil in E|].
    cbn [fmap list_fmap obj_get fst]. unfold str_eqb. destruct (decide (j = k)) as [->|Hj].
    + rewrite (bool_decide_eq_true_2 (k = k)) by done. cbn [obj_get]. unfold str_eqb.
      case_bool_decide; [done|]. clear E IH. induction l as [|[i u] l IH]; [done|].
      cbn [fmap list_fmap obj_get fst]. case_bool_decide; subst.
      * cbn [obj_get]. unfold str_eqb. rewrite bool_decide_eq_false_2; done.
      * cbn [obj_get]. unfold str_eqb. case_bool_decide; [done|]. apply IH.
    + rewrite (bool_decide_eq_false_2 (j = k)) by done. cbn [obj_get]. unfold str_eqb.
      apply elem_of_cons in E as [E|E]; [by cbn in E|]. specialize (IH E).
      rewrite IH. repeat case_bool_decide; subst; done.
  - apply obj_get_place. intros Hin%existsb_key. congruence.
Qed.

(** Writing the value a property already has changes nothing. *)
Lemma obj_set_same {A} (l : list (jstr * A)) k v : NoDup (map fst l) → obj_get k l = Some v → obj_set l k v = l.
Proof.
  intros Hnd Hg. assert (k ∈ map fst l) as Hin.
  { clear Hnd. induction l as [|[j w] l IH]; [done|]. cbn [obj_get map fst] in *. unfold str_eqb in Hg.
    case_bool_decide; subst; [by left|right; auto]. }
  unfold obj_set. rewrite (proj2 (existsb_key k l)) by done.
  clear Hin. induction l as [|[j w] l IH]; [done|]. cbn [map fst] in Hnd.
  apply NoDup_cons in Hnd as [Hj Hnd]. cbn [fmap list_fmap obj_get fst] in *. unfold str_eqb in *.
  case_bool_decide; simplify_eq.
  - f_equal. clear IH Hnd. induction l as [|[i u] l IH]; [done|]. cbn [fmap list_fmap fst map] in *.
    rewrite bool_decide_eq_false_2 by set_solver. f_equal. apply IH. set_solver.
  - f_equal. by apply IH.
Qed.

Lemma obj_place_keys {A} k v (l : list (jstr * A)) : map fst (obj_place k v l) ≡ₚ k :: map fst l.
Proof.
  induction l as [|[j w] l IH]; cbn [obj_place]; destruct (array_index k).
  - done.
  - done.
  - destruct (array_index j); [|done]. destruct (_ <? _)%N; [|done]. cbn [map fst]. rewrite IH. apply perm_swap.
  - rewrite map_app. cbn [map fst]. by rewrite Permutation_app_comm.
Qed.

Lemma obj_set_nodup {A} (l : list (jstr * A)) k v : NoDup (map fst l) → NoDup (map fst (obj_set l k v)).
Proof.
  intros Hnd. unfold obj_set. destruct (existsb _ l) eqn:E.
  - replace (map fst ((λ kv, if str_eqb kv.1 k then (k, v) else kv) <$> l)) with (map fst l); [done|].
    clear. induction l as [|[j w] l IH]; [done|]. cbn [fmap list_fmap map fst]. rewrite <- IH.
    unfold str_eqb. case_bool_decide; by subst.
  - rewrite obj_place_keys. apply NoDup_cons. split; [|done]. intros Hin%existsb_key. congruence.
Qed.

Lemma obj_place_plain {A} k v (l : list (jstr * A)) : array_index k = None → obj_place k v l = l ++ [(k, v)].
Proof. intros Hk. destruct l as [|[j w] l]; cbn [obj_place]; by rewrite Hk. Qed.

(** ** Own-property order

    Every object built by property writes lists its array-index keys ascending
    before the others; rebuilding such an object property by property gives it
    back. *)
Definition key_before (k k' : jstr) : Prop :=
  match array_index k, array_index k' with
  | Some i, Some j => (i < j)%N
  | None, Some _ => False
  | _, None => True
  end.

Definition ordered {A} (l : list (jstr * A)) : Prop :=
  NoDup (map fst l) ∧ StronglySorted key_before (map fst l).

Lemma dec_index_inj k k' i : array_index k = Some i → array_index k' = Some i → k = k'.
Proof.
  unfold array_index, str_eqb. intros H H'.
  destruct (forallb is_digit k && _ && _) eqn:E; [|done].
  destruct (forallb is_digit k' && _ && _) eqn:E'; [|done]. boolify. simplify_eq. congruence.
Qed.

Lemma obj_place_sorted {A} k (v : A) l :
  k ∉ map fst l → StronglySorted key_before (map fst l) →
  StronglySorted key_before (map fst (obj_place k v l)).
Proof.
  induction l as [|[j w] l IH]; intros Hk Hs.
  { cbn [obj_place]. destruct (array_index k); repeat constructor. }
  cbn [map fst] in *. apply StronglySorted_inv in Hs as [Hs Hj]. cbn [obj_place].
  destruct (array_index k) as [i|] eqn:Ei.
  - destruct (array_index j) as [n|] eqn:En.
    + destruct (n <? i)%N eqn:Hlt; cbn [map fst]; boolify.
      * constructor; [apply IH; [set_solver|done]|]. rewrite obj_place_keys. constructor; [|done].
        unfold key_before. by rewrite En, Ei.
      * assert (i ≠ n) by (intros ->; apply Hk; rewrite (dec_index_inj k j n) by done; by left).
        constructor; [by constructor|]. constructor; [unfold key_before; rewrite Ei, En; lia|].
        eapply Forall_impl; [exact Hj|]. intros x Hx. unfold key_before in *. rewrite En in Hx. rewrite Ei.
        destruct (array_index x); [lia|done].
    + cbn [map fst]. constructor; [by constructor|]. constructor; [unfold key_before; by rewrite Ei, En|].
      eapply Forall_impl; [exact Hj|]. intros x Hx. unfold key_before in *.
      rewrite En in Hx. rewrite Ei. by destruct (array_index x).
  - rewrite <- app_comm_cons. cbn [map fst].
    specialize (IH ltac:(set_solver) Hs). rewrite obj_place_plain, map_app in IH by done.
    rewrite map_app. cbn [map fst] in *. constructor; [done|]. rewrite Forall_app. split; [done|].
    repeat constructor. unfold key_before. rewrite Ei. by destruct (array_index j).
Qed.

Lemma obj_set_keys {A} (l : list (jstr * A)) k v :
  k ∈ map fst l → map fst (obj_set l k v) = map fst l.
Proof.
  intros Hk. unfold obj_set. rewrite (proj2 (existsb_key k l)) by done. clear Hk.
  induction l as [|[j w] l IH]; [done|]. cbn [fmap list_fmap map fst]. f_equal; [|exact IH].
  unfold str_eqb. case_bool_decide; by subst.
Qed.

Lemma obj_set_new {A} (l : list (jstr * A)) k v : k ∉ map fst l → obj_set l k v = obj_place k v l.
Proof.
  intros Hk. unfold obj_set. destruct (existsb _ l) eqn:E; [|done]. by apply existsb_key in E.
Qed.

Lemma obj_set_ordered {A} (l : list (jstr * A)) k v : ordered l → ordered (obj_set l k v).
Proof.
  intros [Hnd Hs]. split; [by apply obj_set_nodup|].
  destruct (decide (k ∈ map fst l)) as [Hk|Hk]; [by rewrite obj_set_keys|].
  rewrite obj_set_new by done. by apply obj_place_sorted.
Qed.

Lemma foldl_set_ordered {A B} (f : B → jstr) (g : B → A) ms (l : list (jstr * A)) :
  ordered l → ordered (foldl (λ o m, obj_set o (f m) (g m)) l ms).
Proof. revert l. induction ms as [|m ms IH]; intros l H; [done|]. by apply IH, obj_set_ordered. Qed.

Lemma ordered_nil {A} : ordered (@nil (jstr * A)).
Proof. split; constructor. Qed.

Lemma obj_place_last {A} k (v : A) l :
  Forall (λ j, key_before j k) (map fst l) → obj_place k v l = l ++ [(k, v)].
Proof.
  induction l as [|[j w] l IH]; cbn [map fst obj_place]; [by destruct (array_index k)|].
  intros [Hj Hl]%Forall_cons. destruct (array_index k) as [i|] eqn:Ei; [|done].
  unfold key_before in Hj. rewrite Ei in Hj. destruct (array_index j) as [n|]; [|done].
  rewrite (proj2 (N.ltb_lt _ _)) by done. by rewrite IH.
Qed.

Lemma foldl_set_suffix {A} (l acc : list (jstr * A)) :
  ordered (acc ++ l) → foldl (λ o kv, obj_set o kv.1 kv.2) acc l = acc ++ l.
Proof.
  revert acc. induction l as [|[k v] l IH]; intros acc Ho; [by rewrite app_nil_r|]. cbn [foldl fst snd].
  assert (obj_set acc k v = acc ++ [(k, v)]) as ->.
  { destruct Ho as [Hnd Hs]. rewrite map_app in Hnd, Hs. cbn [map fst] in *.
    apply NoDup_app in Hnd as (_ & Hd & _).
    rewrite obj_set_new; [|intros Hk; apply (Hd _ Hk); by left]. apply obj_place_last.
    clear -Hs. induction acc as [|[j w] acc IH]; [constructor|]. cbn [map fst app] in *.
    apply StronglySorted_inv in Hs as [Hs Hj]. constructor; [|by apply IH].
    rewrite Forall_app, Forall_cons in Hj. naive_solver. }
  rewrite IH; by rewrite <- app_assoc.
Qed.

Lemma mk_obj_ordered {A} (l : list (jstr * A)) : ordered l → mk_obj l = l.
Proof. intros H. by apply (foldl_set_suffix l []). Qed.

Lemma mk_obj_is_ordered {A} (ms : list (jstr * A)) : ordered (mk_obj ms).
Proof. apply foldl_set_ordered, ordered_nil. Qed.

Lemma obj_update_ordered {A B} (g : jstr → option A → B → option A) ms o :
  ordered o → ordered (foldl (obj_update g) o ms).
Proof.
  revert o. induction ms as [|[k b] ms IH]; intros o Ho; [done|]. apply IH. unfold obj_update.
  destruct (g _ _ _); [by apply obj_set_ordered|done].
Qed.

(** The property a [forEach] over distinct keys leaves behind. *)
Lemma obj_get_update {A B} (g : jstr → option A → B → option A) ms o k :
  NoDup (map fst ms) →
  obj_get k (foldl (obj_update g) o ms)
  = match obj_get k ms ≫= g k (obj_get k o) with Some a => Some a | None => obj_get k o end.
Proof.
  revert o. induction ms as [|[j b] ms IH]; intros o Hnd; [done|]. cbn [map fst] in Hnd.
  apply NoDup_cons in Hnd as [Hj Hnd]. cbn [foldl obj_get]. rewrite IH by done.
  assert (j ≠ k → obj_get k (obj_update g o (j, b)) = obj_get k o) as Hne.
  { intros Hne. unfold obj_update. cbn [fst snd]. destruct (g _ _ _); [|done]. rewrite obj_get_set.
    unfold str_eqb. by rewrite bool_decide_eq_false_2. }
  unfold str_eqb. case_bool_decide as E; [|by rewrite Hne]. subst.
  rewrite (obj_get_none k ms) by done. cbn [mbind option_bind]. unfold obj_update. cbn [fst snd].
  destruct (g k (obj_get k o) b); [|done]. rewrite obj_get_set. unfold str_eqb.
  by rewrite bool_decide_eq_true_2.
Qed.

Lemma obj_get_elem {A} k v (l : list (jstr * A)) : obj_get k l = Some v → (k, v) ∈ l.
Proof.
  induction l as [|[j w] l IH]; cbn [obj_get]; [done|]. unfold str_eqb. case_bool_decide.
  - intros [= ->]. subst. left.
  - right. auto.
Qed.

Lemma elem_obj_get {A} k v (l : list (jstr * A)) :
  NoDup (map fst l) → (k, v) ∈ l → obj_get k l = Some v.
Proof.
  induction l as [|[j w] l IH]; [by intros _ ?%elem_of_nil|]. cbn [map fst].
  intros [Hj Hnd]%NoDup_cons [[= -> ->]|Hin]%elem_of_cons; cbn [obj_get]; unfold str_eqb.
  - by rewrite bool_decide_eq_true_2.
  - rewrite bool_decide_eq_false_2; [by apply IH|]. intros ->. apply Hj, list_elem_of_fmap. by exists (k, v).
Qed.

Lemma obj_get_map {A B} (f : A → B) k l : obj_get k (prod_map id f <$> l) = f <$> obj_get k l.
Proof.
  induction l as [|[j w] l IH]; [done|]. rewrite fmap_cons. cbn [prod_map obj_get id fst snd].
  destruct (str_eqb j k); [done|exact IH].
Qed.

Lemma map_fst_prod_map {A B} (f : A → B) (l : list (jstr * A)) : map fst (prod_map id f <$> l) = map fst l.
Proof. induction l as [|[j w] l IH]; [done|]. cbn. by rewrite IH. Qed.

(** ** Parsed values

    Every object of a parsed value lists each of its keys once, in order. *)
Inductive json_wf : json → Prop :=
  | wf_null : json_wf JNull
  | wf_bool b : json_wf (JBool b)
  | wf_num x : json_wf (JNum x)
  | wf_str s : json_wf (JStr s)
  | wf_arr l : Forall json_wf l → json_wf (JArr l)
  | wf_obj l : ordered l → Forall (λ kv, json_wf kv.2) l → json_wf (JObj l).
#[export] Hint Constructors json_wf : jsdb.

Lemma obj_set_Forall {A} (P : jstr * A → Prop) l k v :
  P (k, v) → Forall P l → Forall P (obj_set l k v).
Proof.
  intros Hv Hl. unfold obj_set. destruct (existsb _ l).
  - apply Forall_fmap. eapply Forall_impl; [exact Hl|]. intros [j w] Hw. cbn. by destruct (str_eqb j k).
  - induction Hl as [|[j w] l Hw Hl IH]; cbn [obj_place].
    + destruct (array_index k); by repeat constructor.
    + destruct (array_index k); [|apply Forall_app; repeat constructor; done].
      destruct (array_index j); [destruct (_ <? _)%N|]; repeat (constructor; auto).
Qed.

Lemma foldl_set_values {A} (P : A → Prop) (ms o : list (jstr * A)) :
  Forall (λ kv, P kv.2) ms → Forall (λ kv, P kv.2) o →
  Forall (λ kv, P kv.2) (foldl (λ o kv, obj_set o kv.1 kv.2) o ms).
Proof.
  revert o. induction ms as [|[k v] ms IH]; intros o Hms Ho; [done|].
  apply Forall_cons in Hms as [Hv Hms]. apply IH; [done|]. by apply obj_set_Forall.
Qed.

Lemma parse_wf f : ∀ s,
  (∀ v r, parse_value f s = Some (v, r) → json_wf v) ∧
  (∀ l r, parse_elems f s = Some (l, r) → Forall json_wf l) ∧
  (∀ l r, parse_members f s = Some (l, r) → Forall (λ kv, json_wf kv.2) l).
Proof.
  induction f as [|f IH]; intros s; [done|]. split_and!.
  - intros v r. cbn [parse_value]. destruct (skip_ws s) as [|c s1]; [done|].
    destruct (c =? 123)%N; [|destruct (c =? 91)%N; [|destruct (c =? DQ)%N]].
    + destruct (expect 125 s1); [intros [= <- <-]; constructor; [apply ordered_nil|done]|].
      destruct (parse_members f s1) as [[ms s2]|] eqn:E; [|done]. intros [= <- <-].
      constructor; [apply mk_obj_is_ordered|]. apply foldl_set_values; [by eapply IH|constructor].
    + destruct (expect 93 s1); [intros [= <- <-]; by constructor|].
      destruct (parse_elems f s1) as [[l s2]|] eqn:E; [|done]. intros [= <- <-].
      constructor. by eapply IH.
    + destruct (json_str s1) as [[t s2]|]; [|done]. intros [= <- <-]. constructor.
    + do 3 (destruct (prefixb _ _); [intros [= <- <-]; constructor|]).
      destruct (span_num _) as [t s2]. destruct (num_token t); [|done]. intros [= <- <-]. constructor.
  - intros l r. cbn [parse_elems]. intros H. simplify_option_eq.
    match goal with p : _ * _ |- _ => destruct p as [v s1] end.
    assert (json_wf v) by by eapply IH.
    case_match; simplify_option_eq; [|by repeat constructor].
    match goal with p : _ * _ |- _ => destruct p as [l' s3] end. simplify_eq/=.
    constructor; [done|]. by eapply IH.
  - intros l r. cbn [parse_members]. intros H. simplify_option_eq.
    match goal with H : json_str _ = Some ?p |- _ => destruct p as [k s2] end. simplify_option_eq.
    match goal with H : parse_value _ _ = Some ?p |- _ => destruct p as [v s4] end.
    assert (json_wf v) by by eapply IH.
    case_match; simplify_option_eq; [|by repeat constructor].
    match goal with H : parse_members _ _ = Some ?p |- _ => destruct p as [l' s6] end. simplify_eq/=.
    constructor; [done|]. by eapply IH.
Qed.

Lemma json_parse_wf s v : json_parse s = Some v → json_wf v.
Proof.
  unfold json_parse. intros H. simplify_option_eq.
  match goal with p : _ * _ |- _ => destruct p as [w r] end. case_match; simplify_eq.
  by eapply (proj1 (parse_wf _ _)).
Qed.

Lemma indexed_nodup {A} (f : A → json) l : NoDup (map fst (indexed f l)).
Proof.
  unfold indexed. change (map fst) with (fmap (M:=list) (A:=jstr * json) fst). rewrite fmap_imap.
  apply NoDup_alt. intros i j x Hi Hj. rewrite list_lookup_imap in Hi, Hj.
  destruct (l !! i), (l !! j); [|done..]. injection Hi as Hi. injection Hj as Hj.
  rewrite <- Hj in Hi. apply dec_inj in Hi. lia.
Qed.

Lemma own_props_nodup v : json_wf v → NoDup (map fst (own_props v)).
Proof.
  destruct 1 as [| | |s|l _|l [Hl _] _]; cbn [own_props]; try apply NoDup_nil_2.
  - apply indexed_nodup.
  - apply indexed_nodup.
  - done.
Qed.

(** ** Objects with optional properties *)

(** [{k1: v1, ...}] where an undefined value leaves the property out of the text. *)
Definition fields (l : list (jstr * option json)) : list (jstr * json) :=
  omap (λ kv, (λ v, (fst kv, v)) <$> snd kv) l.

(** Property names that are no array indices, each once: insertion order. *)
Definition plain_keys (ks : list jstr) : Prop :=
  NoDup ks ∧ Forall (λ k, array_index k = None) ks.

Lemma foldl_obj_set {A} (l : list (jstr * A)) acc :
  plain_keys (map fst l) → (∀ k, k ∈ map fst l → k ∉ map fst acc) →
  foldl (λ o kv, obj_set o kv.1 kv.2) acc l = acc ++ l.
Proof.
  intros [Hnd Hi]. revert acc. induction l as [|[k v] l IH]; intros acc Hd; [by rewrite app_nil_r|].
  cbn [map fst] in *. apply NoDup_cons in Hnd as [Hk Hnd]. apply Forall_cons in Hi as [Hki Hi].
  cbn [foldl fst snd]. unfold obj_set at 2.
  destruct (existsb _ acc) eqn:E; [apply existsb_key in E; exfalso; eapply Hd; [|exact E]; by left|].
  rewrite obj_place_plain by done. rewrite IH; [by rewrite <- app_assoc|done|done|].
  intros k' Hk'. rewrite map_app, elem_of_app. cbn [map fst]. rewrite list_elem_of_singleton.
  intros [H| ->]; [|done]. eapply Hd; [|exact H]. by right.
Qed.

Lemma mk_obj_plain {A} (l : list (jstr * A)) : plain_keys (map fst l) → mk_obj l = l.
Proof. intros H. unfold mk_obj. rewrite foldl_obj_set; [done|done|]. intros k _. apply not_elem_of_nil. Qed.

Lemma fields_keys l k : k ∈ map fst (fields l) → k ∈ map fst l.
Proof.
  induction l as [|[j o] l IH]; [done|]. unfold fields in *. cbn [omap list_omap fst snd].
  destruct o; cbn [fmap option_fmap option_map map fst]; rewrite !elem_of_cons; naive_solver.
Qed.

Lemma fields_plain l : plain_keys (map fst l) → plain_keys (map fst (fields l)).
Proof.
  intros [Hnd Hi]. split.
  - induction l as [|[j o] l IH]; [constructor|]. cbn [map fst] in *. apply NoDup_cons in Hnd as [Hj Hnd].
    apply Forall_cons in Hi as [_ Hi]. unfold fields in *. cbn [omap list_omap fst snd].
    destruct o; cbn [fmap option_fmap option_map map fst]; [|by apply IH].
    apply NoDup_cons. split; [|by apply IH]. intros H. by apply Hj, fields_keys.
  - rewrite Forall_forall in *. intros k Hk%fields_keys. auto.
Qed.

Lemma obj_get_fields l k o : NoDup (map fst l) → (k, o) ∈ l → obj_get k (fields l) = o.
Proof.
  induction l as [|[j p] l IH]; [by intros _ ?%elem_of_nil|]. cbn [map fst].
  intros [Hj Hnd]%NoDup_cons. unfold fields in *. cbn [omap list_omap fst snd].
  rewrite elem_of_cons. intros [[= -> ->]|Hin].
  - destruct p as [v|]; cbn [fmap option_fmap option_map obj_get].
    + unfold str_eqb. by rewrite bool_decide_eq_true_2.
    + apply obj_get_none. intros H. by apply Hj, fields_keys.
  - assert (j ≠ k) by (intros ->; apply Hj, list_elem_of_fmap; by exists (k, o)).
    destruct p as [v|]; cbn [fmap option_fmap option_map obj_get]; [|by apply IH].
    unfold str_eqb. rewrite bool_decide_eq_false_2 by done. by apply IH.
Qed.

Lemma json_ok_fields l :
  plain_keys (map fst l) → Forall (λ k, Forall code_unit k) (map fst l) →
  Forall (λ kv, match snd kv with Some v => json_ok v | None => True end) l →
  json_ok (JObj (fields l)).
Proof.
  intros Hp Hk Hv. constructor.
  - apply Forall_forall. intros [k v] Hin. rewrite Forall_forall in Hk. apply Hk, fields_keys.
    apply list_elem_of_fmap. by exists (k, v).
  - apply Forall_forall. intros [k v] Hin. unfold fields in Hin.
    apply list_elem_of_omap in Hin as ([j [w|]] & Hin & Hw); [|done]. simplify_eq/=.
    rewrite Forall_forall in Hv. exact (Hv _ Hin).
  - apply mk_obj_plain. by apply fields_plain.
Qed.

Lemma num_unit_ws c : num_unit c = true → is_ws c = false.
Proof.
  intros H. assert (43 <= c ∧ c <= 101)%N as Hc.
  { unfold num_unit, is_digit, one_of in H. js_eval_in H. apply orb_true_iff in H as [H|H]; boolify; [lia|].
    repeat (apply elem_of_cons in H as [->|H]; [lia|]). by apply elem_of_nil in H. }
  unfold is_ws. repeat (apply orb_false_iff; split);
    rewrite ?andb_false_iff, ?N.eqb_neq, ?N.leb_gt; lia.
Qed.

Lemma json_parse_blank v : trim v = [] → json_parse v = None.
Proof.
  intros H. assert (Forall (λ c, is_ws c = true) v) as Hw.
  { unfold trim, trim_end in H. apply (f_equal reverse) in H. rewrite reverse_involutive in H.
    destruct (trim_start_suffix (reverse (trim_start v))) as (w & E & Hw).
    rewrite H, app_nil_r in E. destruct (trim_start_suffix v) as (u & Eu & Hu).
    rewrite Eu. apply Forall_app. split; [done|]. rewrite <- (reverse_involutive (trim_start v)), E.
    by apply Forall_reverse. }
  unfold json_parse. rewrite Nat.add_comm. cbn [plus parse_value].
  destruct (skip_ws v) as [|c s] eqn:E; [done|].
  assert (is_ws c = true) as Hc.
  { clear H. induction Hw as [|d v Hd Hw IH]; cbn [skip_ws] in E; [done|].
    destruct (json_ws d); [by apply IH|]. by simplify_eq. }
  assert (∀ d, is_ws d = false → (c =? d)%N = false) as Hne by (intros d Hd; apply N.eqb_neq; congruence).
  rewrite !Hne by done. assert (∀ d t, is_ws d = false → prefixb (d :: t) (c :: s) = false) as Hpre.
  { intros d t Hd. apply prefixb_head_ne. congruence. }
  js_eval. rewrite !Hpre by done. cbn [span_num].
  assert (num_unit c = false) as ->; [|done].
  destruct (num_unit c) eqn:Hu; [|done]. apply num_unit_ws in Hu. congruence.
Qed.

(** A test for [json_ok]. *)
Fixpoint json_okb (v : json) : bool :=
  match v with
  | JNull | JBool _ => true
  | JNum x => num_ok x
  | JStr s => forallb (λ c, c <? 65536)%N s
  | JArr l => forallb json_okb l
  | JObj l =>
    forallb (λ kv, forallb (λ c, c <? 65536)%N kv.1) l && forallb (λ kv, json_okb kv.2) l &&
    bool_decide (map fst (mk_obj l) = map fst l)
  end.

Lemma code_units_b s : forallb (λ c, c <? 65536)%N s = true → Forall code_unit s.
Proof. rewrite forallb_Forall. intros H. eapply Forall_impl; [exact H|]. intros c Hc. by apply N.ltb_lt in Hc. Qed.

Lemma json_okb_ok v : json_okb v = true → json_ok v.
Proof.
  induction v as [|b|x|s|l IH|l IH] using json_ind'; cbn [json_okb]; intros H; constructor; try done.
  - by apply code_units_b.
  - rewrite forallb_Forall in H. rewrite Forall_forall in *. eauto.
  - boolify. apply Forall_forall. intros kv Hkv. apply code_units_b.
    match goal with H : forallb _ _ = true |- _ => rewrite forallb_Forall in H; by apply (proj1 (Forall_forall _ _) H kv) end.
  - boolify. rewrite forallb_Forall in *. rewrite Forall_forall in *. eauto.
  - boolify. apply mk_obj_ordered. pose proof (mk_obj_is_ordered l) as Hl. unfold ordered in *. congruence.
Qed.

(** The text of a value that is not a string has no white space at its ends. *)
Lemma stringify_trim v : json_ok v → (∀ s, v ≠ JStr s) → trim (stringify v) = stringify v.
Proof.
  intros H Hs. destruct v as [|b|x|s|l|l].
  - done.
  - by destruct b.
  - inversion H as [| |? Hx| | |]; subst. destruct (num_string_ok x Hx) as (c & t & E & HF & Hfin & _).
    cbn [stringify]. rewrite Hfin. apply trim_fix. unfold no_edge_ws.
    assert (∀ d, d ∈ num_to_string x → is_ws d = false) as Hd.
    { intros d Hin. rewrite E in Hin. apply num_unit_ws. by apply (proj1 (Forall_forall _ _) HF). }
    destruct (num_to_string x) as [|c' t'] eqn:E'; [done|].
    destruct (last (c' :: t')) as [d|] eqn:El; [|by apply last_None in El].
    cbn [head]. rewrite (Hd c'), (Hd d); [done|by apply last_Some_elem_of|by left].
  - by destruct (Hs s).
  - cbn [stringify]. by apply (trim_wrap 91 _ 93).
  - cbn [stringify]. by apply (trim_wrap 123 _ 125).
Qed.

(** ** [Number(v)] and [delete] *)

(** [Number(v)]; [None] is a thrown TypeError. *)
Definition number_of_json (v : json) : option num :=
  match v with
  | JNull => Some nzero
  | JBool b => Some (if b then num_of_Z 1 else nzero)
  | JNum x => Some x
  | JStr s => Some (to_number s)
  | v => if coercible v then Some (to_number (string_of_json v)) else None
  end.

(** [delete o[k]]. *)
Definition obj_delete {A} (k : jstr) (o : list (jstr * A)) : list (jstr * A) :=
  List.filter (λ kv, negb (str_eqb kv.1 k)) o.

Lemma obj_get_delete {A} k k' (o : list (jstr * A)) :
  obj_get k' (obj_delete k o) = if str_eqb k k' then None else obj_get k' o.
Proof.
  induction o as [|[j v] o IH]; cbn [obj_delete List.filter fst]; [by destruct (str_eqb k k')|].
  fold (obj_delete k o). unfold str_eqb in *. destruct (decide (j = k)) as [->|Hj].
  - rewrite (bool_decide_eq_true_2 (k = k)) by done. cbn [negb]. rewrite IH. cbn [obj_get]. unfold str_eqb.
    by case_bool_decide.
  - rewrite (bool_decide_eq_false_2 (j = k)) by done. cbn [negb obj_get]. unfold str_eqb. rewrite IH.
    repeat case_bool_decide; congruence.
Qed.

Lemma obj_delete_none {A} k (o : list (jstr * A)) : obj_get k o = None → obj_delete k o = o.
Proof.
  induction o as [|[j v] o IH]; cbn [obj_get]; [done|]. unfold obj_delete. cbn [List.filter fst].
  destruct (str_eqb j k); [done|]. intros H. cbn [negb]. f_equal. by apply IH.
Qed.

Lemma obj_delete_sublist {A} k (o : list (jstr * A)) : sublist (map fst (obj_delete k o)) (map fst o).
Proof.
  induction o as [|[j v] o IH]; [done|]. unfold obj_delete. cbn [List.filter fst]. destruct (negb _); cbn [map]; by constructor.
Qed.

(** ** Printable objects after an assignment or a deletion *)
Lemma ordered_sublist {A} (l l' : list (jstr * A)) : sublist l' l → ordered l → ordered l'.
Proof.
  intros Hs [Hn Hk]. assert (sublist (map fst l') (map fst l)) as Hm by (by apply fmap_sublist).
  split; [by eapply sublist_NoDup|]. clear Hn. revert Hk. generalize dependent (map fst l). generalize dependent (map fst l').
  clear. intros l' l Hm. induction Hm as [|x l1 l2 Hs IH|x l1 l2 Hs IH]; intros Hk; [done| |].
  - apply StronglySorted_inv in Hk as [Hk Hf]. constructor; [by apply IH|]. rewrite Forall_forall in Hf |- *.
    intros y Hy. apply Hf. by eapply elem_of_sublist.
  - apply IH. by apply StronglySorted_inv in Hk as [].
Qed.

Lemma json_ok_obj_inv o : json_ok (JObj o) →
  ordered o ∧ Forall (λ kv, Forall code_unit kv.1) o ∧ Forall (λ kv, json_ok kv.2) o.
Proof. inversion 1 as [| | | | |? Hk Hv Hm]; subst. split_and!; [|done..]. rewrite <- Hm. apply mk_obj_is_ordered. Qed.

Lemma json_ok_obj o :
  ordered o → Forall (λ kv, Forall code_unit kv.1) o → Forall (λ kv, json_ok kv.2) o → json_ok (JObj o).
Proof. intros. constructor; [done..|]. by apply mk_obj_ordered. Qed.

Lemma json_ok_set o k v :
  json_ok (JObj o) → Forall code_unit k → json_ok v → json_ok (JObj (obj_set o k v)).
Proof.
  intros (Ho & Hk & Hv)%json_ok_obj_inv Hk' Hv'. apply json_ok_obj; [by apply obj_set_ordered|..]; by apply obj_set_Forall.
Qed.

Lemma json_ok_delete o k : json_ok (JObj o) → json_ok (JObj (obj_delete k o)).
Proof.
  intros (Ho & Hk & Hv)%json_ok_obj_inv.
  assert (sublist (obj_delete k o) o) as Hs.
  { unfold obj_delete. clear. induction o as [|kv o IH]; [done|]. cbn [List.filter]. destruct (negb _); by constructor. }
  apply json_ok_obj; [by eapply ordered_sublist|..]; rewrite Forall_forall in *; intros kv Hin; eauto using elem_of_sublist.
Qed.

(** ** Names on the prototype *)

(** The names every JavaScript object inherits. *)
Definition object_prototype : list jstr :=
  [js "constructor"; js "hasOwnProperty"; js "isPrototypeOf"; js "propertyIsEnumerable";
   js "toLocaleString"; js "toString"; js "valueOf"; js "__proto__"; js "__defineGetter__";
   js "__defineSetter__"; js "__lookupGetter__"; js "__lookupSetter__"].

(** [o[name]] finds something although [o] has no such property. *)
Definition inherited (name : jstr) : bool := bool_decide (name ∈ object_prototype).

(** A name that no object has unless it is given to it. *)
Definition regular (k : jstr) : Prop := Forall code_unit k ∧ k ∉ object_prototype.
