(* ===== verification/JsonPretty.v ===== *)
(** * [JSON.stringify(v, null, 2)]

    The indented printer and its round trip: an indented text is read back as the
    value it was printed from. *)

From S2P Require Import Prelude JsString JsRegExp JsNumber Json.
From stdpp Require Import list.
From Stdlib Require Import NArith.

(** A line break and an indentation. *)
Definition newline (ind : nat) : jstr := 10%N :: replicate ind 32%N.

Fixpoint pretty (ind : nat) (v : json) : jstr :=
  match v with
  | JArr [] => js "[]"
  | JObj [] => js "{}"
  | JArr l =>
    js "[" ++ str_join (js ",") (map (λ v, newline (2 + ind) ++ pretty (2 + ind) v) l)
    ++ newline ind ++ js "]"
  | JObj l =>
    js "{" ++ str_join (js ",") (map (λ kv, newline (2 + ind) ++ quote kv.1 ++ js ": " ++ pretty (2 + ind) kv.2) l)
    ++ newline ind ++ js "}"
  | _ => stringify v
  end.

Definition stringify_pretty (v : json) : jstr := pretty 0 v.

Example pretty_ex :
  stringify_pretty (JObj [(js "a", JArr [JBool true; JArr []]); (js "b", JObj [])])
  = jq "{" ++ newline 2 ++ jq "'a': [" ++ newline 4 ++ jq "true," ++ newline 4 ++ jq "[]" ++ newline 2
    ++ jq "]," ++ newline 2 ++ jq "'b': {}" ++ newline 0 ++ jq "}".
Proof. vm_compute. reflexivity. Qed.

Lemma newline_blank n : blank (newline n).
Proof. constructor; [done|]. apply Forall_replicate. done. Qed.

Lemma pretty_head ind v : json_ok v → ∃ c t, pretty ind v = c :: t ∧ starts_value c = true.
Proof.
  intros H. destruct v as [| | | |l|l]; try (by apply stringify_head).
  - destruct l; eexists _, _; (split; [reflexivity|done]).
  - destruct l; eexists _, _; (split; [reflexivity|done]).
Qed.

Lemma pretty_nonblank ind v : json_ok v → ∃ c t, pretty ind v = c :: t ∧ is_ws c = false.
Proof.
  intros H. destruct (pretty_head ind v H) as (c & t & -> & Hc). exists c, t. split; [done|].
  unfold starts_value, num_unit, is_digit, one_of in Hc. js_eval_in Hc.
  destruct (is_ws c) eqn:E; [|done]. exfalso. unfold is_ws in E.
  rewrite !orb_true_iff, !andb_true_iff, ?N.leb_le, ?N.eqb_eq in E.
  rewrite !orb_true_iff, andb_true_iff, !N.leb_le, !bool_decide_eq_true in Hc. set_unfold. lia.
Qed.

(** The opening bracket is not followed by the closing one. *)
Lemma expect_indented c n x l t :
  (∃ d u, x = newline n ++ d :: u ∧ json_ws d = false ∧ d ≠ c) →
  expect c (str_join (js ",") (x :: l) ++ t) = None.
Proof.
  intros (d & u & -> & Hd & Hne). assert (∃ u', str_join (js ",") ((newline n ++ d :: u) :: l) ++ t
    = newline n ++ d :: u') as [u' ->].
  { destruct l; [|rewrite join_cons by done]; eexists; cbn [str_join]; rewrite <- !app_assoc; f_equal. }
  rewrite expect_blank by apply newline_blank. by apply expect_miss.
Qed.

Lemma pretty_arr ind v l rest :
  pretty ind (JArr (v :: l)) ++ rest
  = 91%N :: str_join (js ",") (map (λ v, newline (2 + ind) ++ pretty (2 + ind) v) (v :: l))
    ++ newline ind ++ 93%N :: rest.
Proof. cbn [pretty]. rewrite <- !app_assoc. done. Qed.

Lemma pretty_obj ind v l rest :
  pretty ind (JObj (v :: l)) ++ rest
  = 123%N :: str_join (js ",")
      (map (λ kv, newline (2 + ind) ++ quote kv.1 ++ js ": " ++ pretty (2 + ind) kv.2) (v :: l))
    ++ newline ind ++ 125%N :: rest.
Proof. cbn [pretty]. rewrite <- !app_assoc. done. Qed.

Lemma pretty_parses v : json_ok v → ∀ ind, parses_as (pretty ind v) v.
Proof.
  induction v as [|b|x|s|l IH|l IH] using json_ind'; intros H ind; try (by apply json_ok_parses).
  - destruct l as [|v l]; [exact (json_ok_parses _ H)|]. inversion H as [| | | |? Hl|]; subst.
    intros [|f] rest Hf Hr; [simpl in Hf; lia|]. rewrite pretty_arr, parse_value_arr.
    replace (expect 93 _) with (@None jstr).
    2: { symmetry. apply (expect_indented _ (2 + ind)). apply Forall_cons in Hl as [Hv _]. destruct (pretty_head (2 + ind) v Hv) as (c & t & -> & Hc).
         apply starts_value_facts in Hc as (? & ? & _). eauto 10. }
    rewrite parse_elems_ok; [done|apply newline_blank|done| |exact (le_S_n _ _ Hf)].
    rewrite Forall_forall in *. intros w Hw. apply parses_as_blank; [apply newline_blank|].
    by apply IH, Hl.
  - destruct l as [|v l]; [exact (json_ok_parses _ H)|]. inversion H as [| | | | |? Hk Hl Hm]; subst.
    intros [|f] rest Hf Hr; [simpl in Hf; lia|]. rewrite pretty_obj, parse_value_obj.
    replace (expect 125 _) with (@None jstr).
    2: { symmetry. apply (expect_indented _ (2 + ind)). unfold quote. exists DQ. eexists. split; [reflexivity|done]. }
    rewrite parse_members_ok; [cbn [mbind option_bind]; by rewrite Hm|apply newline_blank|done|done| |exact (le_S_n _ _ Hf)].
    rewrite Forall_forall in *. intros [k w] Hw.
    exists (newline (2 + ind)), (32%N :: pretty (2 + ind) w). split; [apply newline_blank|]. split.
    + apply (parses_as_blank [32%N]); [by repeat constructor|]. apply (IH (k, w) Hw), (Hl (k, w) Hw).
    + unfold quote. cbn [fst snd app]. rewrite <- app_assoc. done.
Qed.

Lemma join_le sep l l' :
  Forall2 (λ x y : jstr, length x ≤ length y) l l' → length (str_join sep l) ≤ length (str_join sep l').
Proof.
  induction 1 as [|x y l l' Hxy Hl IH]; [done|].
  destruct Hl as [|x' y' l l' Hxy' Hl]; [done|].
  rewrite (join_cons sep x), (join_cons sep y) by done. rewrite !length_app. lia.
Qed.

Lemma pretty_length v : ∀ ind, length (stringify v) ≤ length (pretty ind v).
Proof.
  induction v as [|b|x|s|l IH|l IH] using json_ind'; intros ind; try done.
  - destruct l as [|v l]; [done|]. cbn [pretty stringify]. rewrite !length_app.
    match goal with |- _ + (length (str_join _ ?a) + _) ≤ _ + (length (str_join _ ?b) + _) =>
      assert (length (str_join (js ",") a) ≤ length (str_join (js ",") b)); [apply join_le|lia] end.
    revert IH. generalize (v :: l). intros l'. induction 1 as [|w l' Hw _ IH']; cbn [map]; constructor; [|done].
    rewrite length_app. specialize (Hw (2 + ind)). lia.
  - destruct l as [|v l]; [done|]. cbn [pretty stringify]. rewrite !length_app.
    match goal with |- _ + (length (str_join _ ?a) + _) ≤ _ + (length (str_join _ ?b) + _) =>
      assert (length (str_join (js ",") a) ≤ length (str_join (js ",") b)); [apply join_le|lia] end.
    revert IH. generalize (v :: l). intros l'. induction 1 as [|w l' Hw _ IH']; cbn [map]; constructor; [|done].
    rewrite !length_app. specialize (Hw (2 + ind)). change (length (js ":")) with 1. change (length (js ": ")) with 2. lia.
Qed.

(** [JSON.parse(JSON.stringify(v, null, 2))] gives back [v]. *)
Lemma json_parse_pretty v : json_ok v → json_parse (stringify_pretty v) = Some v.
Proof.
  intros H. unfold json_parse, stringify_pretty. rewrite <- (app_nil_r (pretty 0 v)) at 2.
  rewrite (pretty_parses v H 0); [done| |done].
  pose proof (json_size_length v H). pose proof (pretty_length v 0). lia.
Qed.
