(* ===== verification/Currency.v ===== *)
(** * Currency display and quota amounts

    Model of [web/default/src/lib/currency.ts], of the defaults in
    [stores/system-config-store.ts], and of the functions of [lib/format.ts] that turn quota
    units into amounts and back.  The store is an argument; [Intl.NumberFormat] is the
    platform's and is an argument too. *)

From Stdlib Require Import NArith ZArith SpecFloat Reals Lra.
From S2P Require Import Prelude JsString JsNumber NumRounding.

(** ** Configuration *)

Inductive CurrencyDisplayType := USD | CNY | TOKENS | CUSTOM.

Record CurrencyConfig := {
  displayInCurrency : bool;
  quotaDisplayType : CurrencyDisplayType;
  quotaPerUnit : num;
  usdExchangeRate : num;
  customCurrencySymbol : jstr;
  customCurrencyExchangeRate : num;
}.

Definition DEFAULT_CURRENCY_CONFIG : CurrencyConfig := {|
  displayInCurrency := true; quotaDisplayType := USD; quotaPerUnit := num_of_Z 500000; usdExchangeRate := num_of_Z 1;
  customCurrencySymbol := js "¤"; customCurrencyExchangeRate := num_of_Z 1 |}.

(** [DISPLAY_TYPE_VALUES], as texts. *)
Definition display_type (value : jstr) : option CurrencyDisplayType :=
  if str_eqb value (js "USD") then Some USD else if str_eqb value (js "CNY") then Some CNY
  else if str_eqb value (js "TOKENS") then Some TOKENS else if str_eqb value (js "CUSTOM") then Some CUSTOM else None.

Definition isCurrencyDisplayType (value : option jstr) : bool :=
  match value with Some s => match display_type s with Some _ => true | None => false end | None => false end.

(** [None]: the value is not a text. *)
Definition parseCurrencyDisplayType (value : option jstr) (fallback : CurrencyDisplayType) : CurrencyDisplayType :=
  match value with Some s => default fallback (display_type s) | None => fallback end.

(** [x && x > 0 ? x : d]. *)
Definition positive_or (x d : num) : num := if num_truthy x && nlt nzero x then x else d.

(** [None]: the store has no currency. *)
Definition getConfig (store : option CurrencyConfig) : CurrencyConfig :=
  let currency := default DEFAULT_CURRENCY_CONFIG store in
  let d := DEFAULT_CURRENCY_CONFIG in
  {| displayInCurrency := displayInCurrency currency; quotaDisplayType := quotaDisplayType currency;
     quotaPerUnit := positive_or (quotaPerUnit currency) (quotaPerUnit d);
     usdExchangeRate := positive_or (usdExchangeRate currency) (usdExchangeRate d);
     customCurrencySymbol := str_or (trim (customCurrencySymbol currency)) (customCurrencySymbol d);
     customCurrencyExchangeRate := positive_or (customCurrencyExchangeRate currency) (customCurrencyExchangeRate d) |}.

Inductive DisplayMeta :=
  | MCurrency (symbol currencyCode : jstr) (exchangeRate : num)
  | MCustom (symbol : jstr) (exchangeRate : num)
  | MTokens (quotaPerUnit : num).

Definition dollars : DisplayMeta := MCurrency (js "$") (js "USD") (num_of_Z 1).

Definition getDisplayMeta (config : CurrencyConfig) : DisplayMeta :=
  match quotaDisplayType config with
  | CNY => MCurrency (js "¥") (js "CNY") (usdExchangeRate config)
  | CUSTOM => MCustom (customCurrencySymbol config) (customCurrencyExchangeRate config)
  | TOKENS => MTokens (quotaPerUnit config)
  | USD => dollars
  end.

Definition getBillingDisplayMeta (config : CurrencyConfig) : DisplayMeta :=
  match getDisplayMeta config with MTokens _ => dollars | meta => meta end.

Definition getCurrencyDisplay (store : option CurrencyConfig) : CurrencyConfig * DisplayMeta :=
  let config := getConfig store in (config, getDisplayMeta config).

(** ** Formatting *)

Record CurrencyFormatOptions := { digitsLarge : nat; digitsSmall : nat; abbreviate : bool; minimumNonZero : num }.

Definition DEFAULT_FORMAT_OPTIONS : CurrencyFormatOptions :=
  {| digitsLarge := 2; digitsSmall := 4; abbreviate := true; minimumNonZero := nzero |}.

(** The options that a caller gives. *)
Record given_options := { g_large : option nat; g_small : option nat; g_abbreviate : option bool; g_minimum : option num }.

Definition mergeOptions (options : option given_options) : CurrencyFormatOptions :=
  match options with
  | None => DEFAULT_FORMAT_OPTIONS
  | Some o => {| digitsLarge := default (digitsLarge DEFAULT_FORMAT_OPTIONS) (g_large o);
                 digitsSmall := default (digitsSmall DEFAULT_FORMAT_OPTIONS) (g_small o);
                 abbreviate := default (abbreviate DEFAULT_FORMAT_OPTIONS) (g_abbreviate o);
                 minimumNonZero := default (minimumNonZero DEFAULT_FORMAT_OPTIONS) (g_minimum o) |}
  end.

Fixpoint span_while (f : N → bool) (s : jstr) : jstr * jstr :=
  match s with
  | c :: s' => if f c then let '(a, b) := span_while f s' in (c :: a, b) else ([], s)
  | [] => ([], [])
  end.

(** [replace(/(\.[0-9]*?)0+$/, '$1')]: a match reaches the end and has no second point, so it
    starts at the last point. *)
Definition strip_zeros (s : jstr) : jstr :=
  let '(zeros, rest) := span_while (N.eqb 48) (reverse s) in
  match zeros with
  | [] => s
  | _ => match (span_while is_digit rest).2 with c :: _ => if (c =? 46)%N then reverse rest else s | [] => s end
  end.

(** [replace(/\.$/, '')]. *)
Definition strip_point (s : jstr) : jstr :=
  match reverse s with c :: r => if (c =? 46)%N then reverse r else s | [] => s end.

Definition removeTrailingZeros (str : jstr) : jstr :=
  if negb (includes (js ".") str) then str else strip_point (strip_zeros str).

Definition formatNumberWithSuffix (value : num) (large small : nat) (abbr : bool) : jstr :=
  let abs := nabs value in
  if abbr && nle (num_of_Z 1000) abs then removeTrailingZeros (toFixed (ndiv value (num_of_Z 1000)) 1) ++ js "k"
  else removeTrailingZeros (toFixed value (if nle (num_of_Z 1) abs then large else small)).

(** [Math.pow(10, -digits)] is the closest number. *)
Definition adjustForMinimum (value : num) (digits : nat) (minimum : num) : num :=
  if num_eqb value nzero then value
  else
    let threshold := if nlt nzero minimum then minimum else dec_to_num false 1 (- Z.of_nat digits) in
    let abs := nabs value in
    if nlt nzero abs && nlt abs threshold then if nlt nzero value then threshold else SFopp threshold else value.

(** What the platform's number format gives: for a currency code or for plain decimals, with
    at most so many digits after the point. *)
Record intl := { intl_currency : jstr → nat → num → jstr; intl_decimal : nat → num → jstr }.

Definition formatCurrencyValue (i : intl) (value : num) (options : CurrencyFormatOptions) (meta : DisplayMeta) : jstr :=
  let digits := if nle (num_of_Z 1) (nabs value) then digitsLarge options else digitsSmall options in
  let adjusted := adjustForMinimum value digits (minimumNonZero options) in
  match meta with
  | MTokens _ => formatNumberWithSuffix value (digitsLarge options) (digitsSmall options) (abbreviate options)
  | MCurrency _ code _ => intl_currency i code digits adjusted
  | MCustom symbol _ => symbol ++ js " " ++ intl_decimal i digits adjusted
  end.

(** [None] is null or undefined. *)
Definition formatCurrencyFromUSD (i : intl) (store : option CurrencyConfig) (amountUSD : option num) (options : option given_options) : jstr :=
  match amountUSD with
  | None | Some S754_nan => js "-"
  | Some amount =>
    let '(config, meta) := getCurrencyDisplay store in
    let merged := mergeOptions options in
    match meta with
    | MTokens _ => formatNumberWithSuffix (nmul amount (quotaPerUnit config)) 0 (digitsSmall merged) (abbreviate merged)
    | MCurrency _ _ rate | MCustom _ rate => formatCurrencyValue i (nmul amount rate) merged meta
    end
  end.

Definition formatBillingCurrencyFromUSD (i : intl) (store : option CurrencyConfig) (amountUSD : option num) (options : option given_options) : jstr :=
  match amountUSD with
  | None | Some S754_nan => js "-"
  | Some amount =>
    let meta := getBillingDisplayMeta (getConfig store) in
    let value := match meta with MCurrency _ _ rate | MCustom _ rate => nmul amount rate | MTokens _ => amount end in
    formatCurrencyValue i value (mergeOptions options) meta
  end.

Definition formatQuotaWithCurrency (i : intl) (store : option CurrencyConfig) (quota : option num) (options : option given_options) : jstr :=
  match quota with
  | None | Some S754_nan => js "-"
  | Some quota => formatCurrencyFromUSD i store (Some (ndiv quota (quotaPerUnit (getConfig store)))) options
  end.

Definition getCurrencyLabel (store : option CurrencyConfig) : jstr :=
  let '(config, meta) := getCurrencyDisplay store in
  match meta with
  | MTokens _ => js "Tokens"
  | _ => match quotaDisplayType config with
    | CNY => js "CNY"
    | CUSTOM => match meta with MCustom symbol _ => symbol | _ => js "Custom" end
    | _ => js "USD"
    end
  end.

Definition isCurrencyDisplayEnabled (store : option CurrencyConfig) : bool :=
  match (getCurrencyDisplay store).2 with MTokens _ => false | _ => true end.

Definition formatLocalCurrencyAmount (i : intl) (store : option CurrencyConfig) (amount : option num) (options : option given_options) : jstr :=
  match amount with
  | None | Some S754_nan => js "-"
  | Some amount => formatCurrencyValue i amount (mergeOptions options) (getBillingDisplayMeta (getConfig store))
  end.

(** ** Quota *)

Definition formatQuota (i : intl) (store : option CurrencyConfig) (quota : num) : jstr :=
  formatQuotaWithCurrency i store (Some quota)
    (Some {| g_large := Some 2; g_small := Some 4; g_abbreviate := Some true; g_minimum := None |}).

Definition formatLogQuota (i : intl) (store : option CurrencyConfig) (quota : num) : jstr :=
  formatQuotaWithCurrency i store (Some quota)
    (Some {| g_large := Some 4; g_small := Some 6; g_abbreviate := Some false; g_minimum := None |}).

Definition parseQuotaFromDollars (store : option CurrencyConfig) (amount : num) : num :=
  if negb (is_finite amount) then nzero
  else
    let '(config, meta) := getCurrencyDisplay store in
    match meta with
    | MTokens _ => num_round amount
    | MCurrency _ _ exchangeRate | MCustom _ exchangeRate =>
      let usdAmount := if nlt nzero exchangeRate then ndiv amount exchangeRate else amount in
      num_round (nmul usdAmount (quotaPerUnit config))
    end.

Definition quotaUnitsToDollars (store : option CurrencyConfig) (units : num) : num :=
  let '(config, meta) := getCurrencyDisplay store in
  match meta with
  | MTokens _ => units
  | MCurrency _ _ exchangeRate | MCustom _ exchangeRate => nmul (ndiv units (quotaPerUnit config)) exchangeRate
  end.

(** ** Quota amounts come back *)

Local Open Scope R_scope.

(** A number that a rate may be: positive, and neither tiny nor huge. *)
Definition rate_ok (x : num) : Prop := ∃ v, pos_num x v ∧ within (-200) 200 v.

(** A stored rate: such a number, or one that is replaced by the default. *)
Definition stored_rate (x : num) : Prop := num_truthy x && nlt nzero x = false ∨ rate_ok x.

Definition store_ok (store : option CurrencyConfig) : Prop :=
  let c := default DEFAULT_CURRENCY_CONFIG store in
  stored_rate (quotaPerUnit c) ∧ stored_rate (usdExchangeRate c) ∧ stored_rate (customCurrencyExchangeRate c).

Lemma int_rate u : (0 < u <= 2 ^ 52)%Z → rate_ok (num_of_Z u).
Proof.
  intros Hu. exists (IZR u). split; [apply num_of_Z_exact; lia|]. apply (within_mono 0 52); [lia..|]. apply int_within; lia.
Qed.

Lemma positive_or_rate x d : stored_rate x → rate_ok d → rate_ok (positive_or x d).
Proof. intros [H|H] Hd; unfold positive_or; [by rewrite H|]. by case_match. Qed.

(** Every configuration has usable rates. *)
Lemma config_rates store : store_ok store →
  rate_ok (quotaPerUnit (getConfig store))
  ∧ match getDisplayMeta (getConfig store) with MCurrency _ _ r | MCustom _ r => rate_ok r | MTokens _ => True end.
Proof.
  intros (H1 & H2 & H3). split; [apply positive_or_rate; [done|]; apply int_rate; lia|].
  unfold getDisplayMeta. destruct (quotaDisplayType (getConfig store)); [apply int_rate; lia| |done|];
    (apply positive_or_rate; [done|]; apply int_rate; lia).
Qed.

Lemma pos_num_sign x v : pos_num x v → nlt nzero x = true ∧ is_finite x = true.
Proof. by intros (m & e & -> & _). Qed.

Lemma pos_num_or0 x v : pos_num x v → num_or0 x = x.
Proof. by intros (m & e & -> & _). Qed.

(** The conversion through the exchange rate. *)
Lemma rate_roundtrip (u : Z) (q r : num) : (0 < u <= 2 ^ 49)%Z → rate_ok q → rate_ok r →
  let shown := nmul (ndiv (num_of_Z u) q) r in
  num_or0 shown = shown ∧ is_finite shown = true ∧ num_round (nmul (ndiv shown r) q) = num_of_Z u.
Proof.
  intros Hu (vq & Hq & Wq) (vr & Hr & Wr) shown. pose proof (num_of_Z_exact u ltac:(lia)) as Pu.
  pose proof (int_within u 49 ltac:(lia) Hu) as Wu. pose proof (pos_num_pos _ _ Hq) as Pq. pose proof (pos_num_pos _ _ Hr) as Pr.
  pose proof (div_within _ _ _ _ _ _ Wu Wq) as W1.
  destruct (div_near _ _ _ _ Pu Hq) as (v1 & P1 & N1); [eapply within_mono; [..|exact W1]; lia|].
  pose proof (near_within _ _ _ _ N1 W1) as W1'. pose proof (mul_within _ _ _ _ _ _ W1' Wr) as W2.
  destruct (mul_near _ _ _ _ P1 Hr) as (v2 & P2 & N2); [eapply within_mono; [..|exact W2]; lia|].
  pose proof (near_within _ _ _ _ N2 W2) as W2'. pose proof (div_within _ _ _ _ _ _ W2' Wr) as W3.
  destruct (div_near _ _ _ _ P2 Hr) as (v3 & P3 & N3); [eapply within_mono; [..|exact W3]; lia|].
  pose proof (near_within _ _ _ _ N3 W3) as W3'. pose proof (mul_within _ _ _ _ _ _ W3' Wq) as W4.
  destruct (mul_near _ _ _ _ P3 Hq) as (v4 & P4 & N4); [eapply within_mono; [..|exact W4]; lia|].
  split; [exact (pos_num_or0 _ _ P2)|]. split; [by eapply pos_num_sign|]. apply num_round_near with v4; [lia|done|].
  destruct N1 as (d1 & -> & D1), N2 as (d2 & -> & D2), N3 as (d3 & -> & D3), N4 as (d4 & -> & D4).
  replace (IZR u / vq * (1 + d1) * vr * (1 + d2) / vr * (1 + d3) * vq * (1 + d4))
    with (IZR u * ((1 + d1) * (1 + d2) * (1 + d3) * (1 + d4))) by (field; lra).
  by apply four_roundings.
Qed.

Lemma zero_roundtrip q r : rate_ok q → rate_ok r →
  let shown := nmul (ndiv (num_of_Z 0%Z) q) r in
  num_or0 shown = shown ∧ is_finite shown = true ∧ num_round (nmul (ndiv shown r) q) = num_of_Z 0%Z.
Proof. intros (vq & (mq & eq & -> & _) & _) (vr & (mr & er & -> & _) & _). done. Qed.

(** Whole numbers of tokens are not changed. *)
Lemma round_int u : (0 <= u <= 2 ^ 49)%Z → num_round (num_of_Z u) = num_of_Z u ∧ is_finite (num_of_Z u) = true.
Proof.
  intros Hu. destruct (Z.eq_dec u 0%Z) as [->|Hne]; [done|]. pose proof (num_of_Z_exact u ltac:(lia)) as P.
  split; [apply num_round_near with (IZR u); [lia|done|lra]|by eapply pos_num_sign].
Qed.

(** The shown amount, and what becomes of it. *)
Lemma units_back (store : option CurrencyConfig) (u : Z) : store_ok store → (0 <= u <= 2 ^ 49)%Z →
  let shown := quotaUnitsToDollars store (num_of_Z u) in
  num_or0 shown = shown ∧ parseQuotaFromDollars store shown = num_of_Z u.
Proof.
  intros Hs Hu. destruct (config_rates store Hs) as [Hq Hm]. destruct (round_int u Hu) as [Hri Hfi].
  unfold parseQuotaFromDollars, quotaUnitsToDollars, getCurrencyDisplay. set (q := quotaPerUnit (getConfig store)) in *.
  assert (∀ r, rate_ok r → let shown := nmul (ndiv (num_of_Z u) q) r in num_or0 shown = shown ∧
    (if negb (is_finite shown) then nzero else num_round (nmul (if nlt nzero r then ndiv shown r else shown) q)) = num_of_Z u) as H.
  { intros r Hr shown. assert (num_or0 shown = shown ∧ is_finite shown = true ∧ num_round (nmul (ndiv shown r) q) = num_of_Z u)
      as (Ho & Hf & Hn) by (destruct (Z.eq_dec u 0%Z) as [->|]; [by apply zero_roundtrip|apply rate_roundtrip; [lia|done..]]).
    destruct Hr as (v & Hv & _). by rewrite Hf, (proj1 (pos_num_sign _ _ Hv)). }
  destruct (getDisplayMeta (getConfig store)) as [sy co r|sy r|q']; [by apply H|by apply H|]. rewrite Hfi, Hri. split; [|done].
  destruct (Z.eq_dec u 0%Z) as [->|Hne]; [done|]. by destruct (num_of_Z_exact u ltac:(lia)) as (m & e & -> & _).
Qed.

Lemma num_of_Z_inj u u' : (0 <= u < 2 ^ 53)%Z → (0 <= u' < 2 ^ 53)%Z → num_of_Z u = num_of_Z u' → u = u'.
Proof.
  intros Hu Hu' E. destruct (Z.eq_dec u 0%Z) as [->|Hn], (Z.eq_dec u' 0%Z) as [->|Hn']; [done|..].
  - destruct (num_of_Z_exact u' ltac:(lia)) as (m & e & H & _). rewrite <- E in H. done.
  - destruct (num_of_Z_exact u ltac:(lia)) as (m & e & H & _). rewrite E in H. done.
  - destruct (num_of_Z_exact u ltac:(lia)) as (m & e & H & _ & V), (num_of_Z_exact u' ltac:(lia)) as (m' & e' & H' & _ & V').
    apply eq_IZR. congruence.
Qed.

(** C11: The two conversions are inverse on quota: whatever the display currency, the amount
    that is shown for a number of quota units, up to [2^49], is converted back to exactly that
    number, although up to four operations on the way are rounded; so different quotas are
    different amounts.  The rates are those of the store, or the defaults when the stored ones
    are not positive. *)
Theorem quota_amount_roundtrip (store : option CurrencyConfig) : store_ok store →
  ∀ u, (0 <= u <= 2 ^ 49)%Z →
  parseQuotaFromDollars store (quotaUnitsToDollars store (num_of_Z u)) = num_of_Z u
  ∧ ∀ u', (0 <= u' <= 2 ^ 49)%Z → quotaUnitsToDollars store (num_of_Z u) = quotaUnitsToDollars store (num_of_Z u') → u = u'.
Proof.
  intros Hs u Hu. destruct (units_back store u Hs Hu) as [_ H]. split; [done|]. intros u' Hu' E.
  destruct (units_back store u' Hs Hu') as [_ H']. rewrite <- E, H in H'. apply num_of_Z_inj; [lia..|done].
Qed.

Definition demo_store : option CurrencyConfig :=
  Some {| displayInCurrency := true; quotaDisplayType := CNY; quotaPerUnit := num_of_Z 500000; usdExchangeRate := num_of_Z 7;
          customCurrencySymbol := []; customCurrencyExchangeRate := S754_nan |}.

Lemma quota_amount_roundtrip_witness :
  parseQuotaFromDollars demo_store (quotaUnitsToDollars demo_store (num_of_Z 123456789)) = num_of_Z 123456789.
Proof.
  apply (quota_amount_roundtrip demo_store); [|lia].
  split; [right; apply int_rate; lia|]. split; [right; apply int_rate; lia|left; vm_compute; reflexivity].
Defined.

Local Close Scope R_scope.

(** ** The configuration in use *)
Theorem config_usable store :
  let c := getConfig store in
  nlt nzero (quotaPerUnit c) = true ∧ nlt nzero (usdExchangeRate c) = true ∧ nlt nzero (customCurrencyExchangeRate c) = true
  ∧ customCurrencySymbol c ≠ [].
Proof.
  assert (∀ x d, nlt nzero d = true → nlt nzero (positive_or x d) = true) as H.
  { intros x d Hd. unfold positive_or. destruct (num_truthy x && nlt nzero x) eqn:E; [|done]. by apply andb_true_iff in E as [_ E]. }
  cbn zeta. split_and!; [by apply H..|]. cbn [getConfig customCurrencySymbol]. unfold str_or.
  destruct (trim _); [|done]. vm_compute. done.
Qed.

(** Prices and payments are never shown in tokens. *)
Theorem billing_never_tokens c q : getBillingDisplayMeta c ≠ MTokens q.
Proof. unfold getBillingDisplayMeta. by destruct (getDisplayMeta c). Qed.

(** ** Trailing zeros *)
Lemma span_while_app f a b : Forall (λ c, f c = true) a → match b with c :: _ => f c = false | [] => True end →
  span_while f (a ++ b) = (a, b).
Proof.
  induction 1 as [|c a Hc Ha IH]; intros Hb; [destruct b as [|d b]; cbn; [done|by rewrite Hb]|]. cbn. by rewrite Hc, IH.
Qed.

Lemma last_digit_cases (ds : jstr) : ∃ ds' k, ds = ds' ++ replicate k 48%N ∧ match last ds' with Some c => c ≠ 48%N | None => True end.
Proof.
  induction ds as [|c ds IH] using rev_ind; [by exists [], 0|]. destruct (decide (c = 48%N)) as [->|Hc].
  - destruct IH as (ds' & k & -> & H). exists ds', (S k). split; [|done]. rewrite <- app_assoc. f_equal. symmetry. apply replicate_cons_app.
  - exists (ds ++ [c]), 0. rewrite app_nil_r, last_snoc. done.
Qed.

(** The digits after the point without the zeros at their end; no point remains without
    digits. *)
Theorem trailing_zeros_removed (n ds : jstr) : 46%N ∉ ds → Forall (λ c, is_digit c = true) ds →
  ∃ ds' k, ds = ds' ++ replicate k 48%N ∧ match last ds' with Some c => c ≠ 48%N | None => True end
    ∧ removeTrailingZeros (n ++ [46%N] ++ ds) = match ds' with [] => n | _ => n ++ [46%N] ++ ds' end.
Proof.
  intros Hp Hd. destruct (last_digit_cases ds) as (ds' & k & -> & Hl). exists ds', k. split; [done|]. split; [done|].
  unfold removeTrailingZeros. replace (includes (js ".") (n ++ [46%N] ++ ds' ++ replicate k 48%N)) with true
    by (symmetry; apply includes_spec; by exists n, (ds' ++ replicate k 48%N)). cbn [negb].
  apply Forall_app in Hd as [Hd _]. apply not_elem_of_app in Hp as [Hp _].
  assert (strip_zeros (n ++ [46%N] ++ ds' ++ replicate k 48%N) = n ++ [46%N] ++ ds') as ->.
  { unfold strip_zeros. rewrite !reverse_app, reverse_replicate, <- !app_assoc.
    assert (match last ds' with Some c => reverse ds' = c :: reverse (removelast ds') | None => reverse ds' = [] end) as Hlast.
    { destruct ds' as [|c l] using rev_ind; [done|]. rewrite last_snoc, reverse_snoc, removelast_last. done. }
    rewrite span_while_app.
    - destruct k as [|k]; cbn [replicate]; [by rewrite app_nil_r|]. rewrite span_while_app; [|by apply Forall_reverse|done].
      cbn. by rewrite reverse_app, reverse_cons, !reverse_involutive, <- app_assoc.
    - by apply Forall_replicate.
    - destruct (last ds'); rewrite Hlast; [|done]. cbn [app]. by apply N.eqb_neq. }
  unfold strip_point. rewrite !reverse_app. destruct (decide (ds' = [])) as [->|Hne]; [apply reverse_involutive|].
  destruct (reverse ds') as [|c r] eqn:Er; [by apply (f_equal reverse) in Er; rewrite reverse_involutive in Er; subst|].
  cbn. rewrite (proj2 (N.eqb_neq c 46)); [by destruct ds'|]. intros ->. apply Hp. apply elem_of_reverse. rewrite Er. by left.
Qed.

(** With tokens as the display, the example of the documentation gives 5000k, not 5,000,000. *)
Theorem tokens_abbreviated i :
  formatCurrencyFromUSD i (Some {| displayInCurrency := true; quotaDisplayType := TOKENS; quotaPerUnit := num_of_Z 500000;
    usdExchangeRate := num_of_Z 1; customCurrencySymbol := []; customCurrencyExchangeRate := num_of_Z 1 |}) (Some (num_of_Z 10)) None
  = js "5000k".
Proof. vm_compute. reflexivity. Qed.
