(* ===== verification/FormDates.v ===== *)
(** * Dates of forms

    A date is its time value in milliseconds; the forms of keys and of redemption codes turn
    stored seconds into dates and back. *)

From Stdlib Require Import NArith ZArith SpecFloat Reals Lra Lia.
From S2P Require Import Prelude JsString JsNumber NumRounding Currency.

(** ** Dates *)

Definition num_trunc (x : num) : num := if nlt x nzero then SFopp (num_floor (nabs x)) else num_floor x.

(** [new Date(t)]: an integer of at most [8.64e15] milliseconds, or invalid. *)
Definition Date (t : num) : num :=
  if is_finite t && nle (nabs t) (num_of_Z 8640000000000000) then nadd (num_trunc t) nzero else S754_nan.

(** [new Date(seconds * 1000)]. *)
Definition date_of_seconds (seconds : num) : num := Date (nmul seconds (num_of_Z 1000)).

(** [Math.floor(date.getTime() / 1000)]. *)
Definition seconds_of_date (date : num) : num := num_floor (ndiv date (num_of_Z 1000)).

(** [seconds > 0 ? new Date(seconds * 1000) : undefined]. *)
Definition open_date (seconds : num) : option num := if nlt nzero seconds then Some (date_of_seconds seconds) else None.

(** ** Times *)
Lemma pos_num_sort x v : pos_num x v → nabs x = x ∧ nlt x nzero = false ∧ nadd x nzero = x ∧ num_truthy x = true ∧ is_finite x = true.
Proof. by intros (m & e & -> & _). Qed.

Lemma date_of_int t : (0 < t <= 8640000000000000)%Z → Date (num_of_Z t) = num_of_Z t.
Proof.
  intros Ht. pose proof (num_of_Z_exact t ltac:(lia)) as Hp. destruct (pos_num_sort _ _ Hp) as (Ha & Hl & Hz & _ & Hf).
  unfold Date, num_trunc. rewrite Hf, Ha, Hl, floor_int, Hz by lia.
  rewrite (pos_num_le _ _ _ _ Hp (num_of_Z_exact 8640000000000000 ltac:(lia))); [done|]. apply IZR_le. lia.
Qed.

(** A time in whole seconds survives the date of the form. *)
Lemma seconds_roundtrip s : (0 < s <= 8640000000000)%Z →
  open_date (num_of_Z s) = Some (num_of_Z (s * 1000)) ∧ seconds_of_date (num_of_Z (s * 1000)) = num_of_Z s.
Proof.
  intros Hs. pose proof (num_of_Z_exact s ltac:(lia)) as Hp. pose proof (num_of_Z_exact 1000 ltac:(lia)) as Hk.
  pose proof (num_of_Z_exact (s * 1000) ltac:(lia)) as Ht. split.
  - unfold open_date. rewrite (proj1 (pos_num_sign _ _ Hp)). unfold date_of_seconds.
    rewrite (mul_int _ _ _ _ (s * 1000) Hp Hk) by (lia || (symmetry; apply mult_IZR)). by rewrite date_of_int by lia.
  - unfold seconds_of_date. rewrite (div_int _ _ _ _ s Ht Hk); [by apply floor_int; lia|lia|]. rewrite mult_IZR. field.
Qed.

(** The second of a date, from the third second of the epoch on. *)
Lemma date_seconds t : (2000 <= t <= 8640000000000000)%Z → ∃ s, (0 < s <= 8640000000000)%Z ∧ seconds_of_date (num_of_Z t) = num_of_Z s.
Proof.
  intros Ht. pose proof (num_of_Z_exact t ltac:(lia)) as Hp. pose proof (num_of_Z_exact 1000 ltac:(lia)) as Hk.
  pose proof (div_within _ _ _ _ _ _ (int_within t 53 ltac:(lia) ltac:(lia)) (int_within 1000 10 ltac:(lia) ltac:(lia))) as W.
  destruct (div_near _ _ _ _ Hp Hk) as (v & Hv & d & -> & Hd); [by apply (within_mono (0 - 10) (53 - 0)); [lia..|]|].
  assert (eps * IZR (2 ^ 53) = 1)%R as He by apply eps_val. assert (0 < eps)%R as He0 by apply bp_pos.
  assert (IZR 2000 <= IZR t <= IZR 8640000000000000)%R as [Ht1 Ht2] by (split; apply IZR_le; lia).
  assert (IZR (2 ^ 53) = 9007199254740992)%R as H53 by reflexivity. rewrite H53 in He.
  assert (eps <= / 2)%R as Hh by apply eps_small.
  destruct (floor_near _ _ Hv) as (s & Hs & Hs1 & Hs2).
  { rewrite <- bp_IZR by lia. change (2 ^ 50)%Z with 1125899906842624%Z. nra. }
  exists s. split; [|exact Hs]. split.
  - assert (IZR 0 < IZR s)%R as H%lt_IZR by nra. lia.
  - assert (IZR s < IZR (8640000000000 + 1))%R as H%lt_IZR by (rewrite plus_IZR; nra). lia.
Qed.
