(* ===== verification/ApiKeyForm.v ===== *)
(** * The form of an API key

    Model of [web/default/src/features/keys/lib/api-key-form.ts]. *)

From Stdlib Require Import NArith ZArith SpecFloat.
From S2P Require Import Prelude JsString JsNumber Currency FormDates.

Record ApiKeyFormValues := {
  name : jstr; remain_quota_dollars : option num; expired_time : option num; unlimited_quota : bool;
  model_limits : list jstr; allow_ips : option jstr; group : option jstr; cross_group_retry : option bool; tokenCount : option num;
}.

(** What is sent, and what is stored of it. *)
Record ApiKeyFormData := {
  d_name : jstr; d_remain_quota : num; d_expired_time : num; d_unlimited_quota : bool; d_model_limits_enabled : bool;
  d_model_limits : jstr; d_allow_ips : jstr; d_group : jstr; d_cross_group_retry : bool;
}.

Definition DEFAULT_GROUP : jstr := [].

(** The checks of the schema. *)
Definition accepts (v : ApiKeyFormValues) : bool :=
  nonempty (name v) && match tokenCount v with Some n => nle (num_of_Z 1) n | None => true end
  && (unlimited_quota v || match remain_quota_dollars v with Some x => negb (nlt x nzero) | None => false end).

Definition getApiKeyFormDefaultValues (defaultUseAutoGroup : bool) : ApiKeyFormValues := {|
  name := []; remain_quota_dollars := Some (num_of_Z 10); expired_time := None; unlimited_quota := true; model_limits := [];
  allow_ips := Some []; group := Some (if defaultUseAutoGroup then js "auto" else DEFAULT_GROUP);
  cross_group_retry := Some defaultUseAutoGroup; tokenCount := Some (num_of_Z 1) |}.

Definition transformFormDataToPayload (store : option CurrencyConfig) (data : ApiKeyFormValues) : ApiKeyFormData := {|
  d_name := name data;
  d_remain_quota := if unlimited_quota data then nzero
    else parseQuotaFromDollars store (match remain_quota_dollars data with Some x => num_or0 x | None => nzero end);
  d_expired_time := match expired_time data with Some d => seconds_of_date d | None => num_of_Z (-1) end;
  d_unlimited_quota := unlimited_quota data;
  d_model_limits_enabled := match model_limits data with [] => false | _ => true end;
  d_model_limits := str_join (js ",") (model_limits data);
  d_allow_ips := default [] (allow_ips data);
  d_group := default [] (group data);
  d_cross_group_retry := match group data with Some g => str_eqb g (js "auto") && default false (cross_group_retry data) | None => false end |}.

Definition transformApiKeyToFormDefaults (store : option CurrencyConfig) (apiKey : ApiKeyFormData) : ApiKeyFormValues := {|
  name := d_name apiKey;
  remain_quota_dollars := Some (if d_unlimited_quota apiKey then nzero else quotaUnitsToDollars store (d_remain_quota apiKey));
  expired_time := open_date (d_expired_time apiKey);
  unlimited_quota := d_unlimited_quota apiKey;
  model_limits := match d_model_limits apiKey with [] => [] | s => List.filter nonempty (split_char 44 s) end;
  allow_ips := Some (d_allow_ips apiKey);
  group := Some (str_or (d_group apiKey) DEFAULT_GROUP);
  cross_group_retry := Some (d_cross_group_retry apiKey);
  tokenCount := Some (num_of_Z 1) |}.
