(* ===== verification/RedemptionForm.v ===== *)
(** * The form of a redemption code

    Model of [web/default/src/features/redemption-codes/lib/redemption-form.ts]. *)

From Stdlib Require Import NArith ZArith SpecFloat.
From S2P Require Import Prelude JsString JsNumber Currency FormDates.

Record RedemptionFormValues := { name : jstr; quota_dollars : num; expired_time : option num; count : option num }.
Record RedemptionFormData := { d_name : jstr; d_quota : num; d_expired_time : num; d_count : num }.

Definition accepts (v : RedemptionFormValues) : bool :=
  (1 <=? length (name v)) && (length (name v) <=? 20) && nle nzero (quota_dollars v)
  && match count v with Some n => nle (num_of_Z 1) n && nle n (num_of_Z 100) | None => true end.

Definition REDEMPTION_FORM_DEFAULT_VALUES : RedemptionFormValues :=
  {| name := []; quota_dollars := num_of_Z 10; expired_time := None; count := Some (num_of_Z 1) |}.

Definition transformFormDataToPayload (store : option CurrencyConfig) (data : RedemptionFormValues) : RedemptionFormData := {|
  d_name := name data; d_quota := parseQuotaFromDollars store (quota_dollars data);
  d_expired_time := match expired_time data with Some d => seconds_of_date d | None => nzero end;
  d_count := match count data with Some n => if num_truthy n then n else num_of_Z 1 | None => num_of_Z 1 end |}.

Definition transformRedemptionToFormDefaults (store : option CurrencyConfig) (r : RedemptionFormData) : RedemptionFormValues := {|
  name := d_name r; quota_dollars := quotaUnitsToDollars store (d_quota r);
  expired_time := open_date (d_expired_time r); count := Some (num_of_Z 1) |}.
