(* ===== verification/UserForm.v ===== *)
(** * The form of a user

    Model of [web/default/src/features/users/lib/user-form.ts]. *)

From Stdlib Require Import NArith ZArith SpecFloat.
From S2P Require Import Prelude JsString JsNumber Currency.

Record UserFormValues := {
  username : jstr; display_name : option jstr; password : option jstr; role : option num; quota_dollars : option num;
  group : option jstr; remark : option jstr;
}.

(** Fields that are not sent are [None]. *)
Record UserFormData := {
  d_username : jstr; d_display_name : jstr; d_password : option jstr; d_role : option num;
  d_group : option jstr; d_remark : option jstr; d_id : option Z;
}.

Record User := { u_username : jstr; u_display_name : jstr; u_role : num; u_quota : num; u_group : jstr; u_remark : option jstr }.

Definition DEFAULT_GROUP : jstr := js "default".

Definition accepts (v : UserFormValues) : bool :=
  nonempty (username v) && match quota_dollars v with Some x => nle nzero x | None => true end.

Definition USER_FORM_DEFAULT_VALUES : UserFormValues := {|
  username := []; display_name := Some []; password := Some []; role := Some (num_of_Z 1); quota_dollars := Some nzero;
  group := Some DEFAULT_GROUP; remark := Some [] |}.

(** [s || undefined]. *)
Definition or_undefined (s : option jstr) : option jstr := match s with Some [] => None | _ => s end.

Definition transformFormDataToPayload (data : UserFormValues) (userId : option Z) : UserFormData :=
  let base r g m i := {|
    d_username := username data; d_display_name := str_or (default [] (display_name data)) (username data);
    d_password := or_undefined (password data); d_role := r; d_group := g; d_remark := m; d_id := i |} in
  match userId with
  | None => base (Some (match role data with Some r => if num_truthy r then r else num_of_Z 1 | None => num_of_Z 1 end)) None None None
  | Some i => base None (group data) (or_undefined (remark data)) (Some i)
  end.

Definition transformUserToFormDefaults (store : option CurrencyConfig) (user : User) : UserFormValues := {|
  username := u_username user; display_name := Some (u_display_name user); password := Some []; role := Some (u_role user);
  quota_dollars := Some (quotaUnitsToDollars store (u_quota user)); group := Some (str_or (u_group user) DEFAULT_GROUP);
  remark := Some (default [] (u_remark user)) |}.
