(* ===== verification/PlanForm.v ===== *)
(** * The form of a subscription plan

    Model of [web/default/src/features/subscriptions/lib/plan-form.ts]. *)

From Stdlib Require Import NArith ZArith SpecFloat.
From S2P Require Import Prelude JsString JsNumber Currency.

Inductive duration_unit := Year | Month | Day | Hour | CustomDuration.
Inductive reset_period := Never | Daily | Weekly | Monthly | CustomReset.
#[export] Instance reset_period_eq_dec : EqDecision reset_period.
Proof. solve_decision. Defined.

(** The fields that the form and a stored plan share; an optional text is empty when it is
    missing, and an optional number is zero. *)
Record plan := {
  title : jstr; subtitle : jstr; price_amount : num; duration : duration_unit; duration_value : num; custom_seconds : num;
  quota_reset_period : reset_period; quota_reset_custom_seconds : num; enabled : bool; sort_order : num; allow_balance_pay : bool;
  max_purchase_per_user : num; total_amount : num; upgrade_group : jstr; stripe_price_id : jstr; creem_product_id : jstr;
  waffo_pancake_product_id : jstr;
}.

Definition PLAN_FORM_DEFAULTS : plan := {|
  title := []; subtitle := []; price_amount := nzero; duration := Month; duration_value := num_of_Z 1; custom_seconds := nzero;
  quota_reset_period := Never; quota_reset_custom_seconds := nzero; enabled := true; sort_order := nzero; allow_balance_pay := true;
  max_purchase_per_user := nzero; total_amount := nzero; upgrade_group := []; stripe_price_id := []; creem_product_id := [];
  waffo_pancake_product_id := [] |}.

Definition accepts (v : plan) : bool :=
  nonempty (title v) && nle nzero (price_amount v) && nle (num_of_Z 1) (duration_value v) && nle nzero (custom_seconds v)
  && nle nzero (quota_reset_custom_seconds v) && negb (is_nan (sort_order v)) && nle nzero (max_purchase_per_user v) && nle nzero (total_amount v).

(** [x || 1]. *)
Definition num_or1 (x : num) : num := if num_truthy x then x else num_of_Z 1.

Definition planToFormValues (store : option CurrencyConfig) (p : plan) : plan := {|
  title := title p; subtitle := subtitle p; price_amount := num_or0 (price_amount p); duration := duration p;
  duration_value := num_or1 (duration_value p); custom_seconds := num_or0 (custom_seconds p);
  quota_reset_period := quota_reset_period p; quota_reset_custom_seconds := num_or0 (quota_reset_custom_seconds p);
  enabled := enabled p; sort_order := num_or0 (sort_order p); allow_balance_pay := allow_balance_pay p;
  max_purchase_per_user := num_or0 (max_purchase_per_user p);
  total_amount := quotaUnitsToDollars store (num_or0 (total_amount p)); upgrade_group := upgrade_group p;
  stripe_price_id := stripe_price_id p; creem_product_id := creem_product_id p; waffo_pancake_product_id := waffo_pancake_product_id p |}.

(** The plan that is sent, with its currency. *)
Definition formValuesToPlanPayload (store : option CurrencyConfig) (v : plan) : plan * jstr :=
  ({| title := title v; subtitle := subtitle v; price_amount := num_or0 (price_amount v); duration := duration v;
      duration_value := num_or0 (duration_value v); custom_seconds := num_or0 (custom_seconds v);
      quota_reset_period := quota_reset_period v;
      quota_reset_custom_seconds := if bool_decide (quota_reset_period v = CustomReset) then num_or0 (quota_reset_custom_seconds v) else nzero;
      enabled := enabled v; sort_order := num_or0 (sort_order v); allow_balance_pay := allow_balance_pay v;
      max_purchase_per_user := num_or0 (max_purchase_per_user v);
      total_amount := parseQuotaFromDollars store (num_or0 (total_amount v)); upgrade_group := upgrade_group v;
      stripe_price_id := stripe_price_id v; creem_product_id := creem_product_id v; waffo_pancake_product_id := waffo_pancake_product_id v |},
   js "USD").
