(* ===== verification/ModelForm.v ===== *)
(** * The form of a model

    Model of [web/default/src/features/models/lib/model-form.ts] and of the texts of
    [features/models/lib/model-utils.ts]. *)

From Stdlib Require Import NArith ZArith SpecFloat.
From S2P Require Import Prelude JsString JsNumber Json.

Record ModelFormValues := {
  id : option Z; model_name : jstr; description : jstr; icon : jstr; tags : list jstr; vendor_id : option Z; endpoints : jstr;
  name_rule : Z; status : bool; sync_official : bool; enable_groups : list jstr; quota_types : list Z;
}.

Record Model := {
  m_id : option Z; m_model_name : jstr; m_description : jstr; m_icon : jstr; m_tags : jstr; m_vendor_id : option Z; m_endpoints : jstr;
  m_name_rule : Z; m_status : Z; m_sync_official : Z; m_enable_groups : list jstr; m_quota_types : list Z;
}.

Definition parseModelTags (tags : jstr) : list jstr :=
  match tags with [] => [] | _ => List.filter nonempty (map trim (split_char 44 tags)) end.

Definition formatTagsArray (tags : list jstr) : jstr := str_join (js ",") (List.filter nonempty tags).

Definition transformModelToFormDefaults (model : Model) : ModelFormValues := {|
  id := m_id model; model_name := m_model_name model; description := m_description model; icon := m_icon model;
  tags := parseModelTags (m_tags model); vendor_id := m_vendor_id model; endpoints := m_endpoints model; name_rule := m_name_rule model;
  status := (m_status model =? 1)%Z; sync_official := (m_sync_official model =? 1)%Z; enable_groups := m_enable_groups model;
  quota_types := m_quota_types model |}.

Definition transformFormDataToModelPayload (f : ModelFormValues) : Model := {|
  m_id := id f; m_model_name := model_name f; m_description := description f; m_icon := icon f; m_tags := formatTagsArray (tags f);
  m_vendor_id := vendor_id f; m_endpoints := endpoints f; m_name_rule := name_rule f; m_status := if status f then 1 else 0;
  m_sync_official := if sync_official f then 1 else 0; m_enable_groups := enable_groups f; m_quota_types := quota_types f |}.

Definition validateJSON (value : jstr) : bool :=
  if negb (nonempty value) || str_eqb (trim value) [] then true else match json_parse value with Some _ => true | None => false end.
Definition validateEndpoints (endpoints : jstr) : bool := validateJSON endpoints.

Definition validateModelName (name : jstr) : bool := nonempty (trim name).
Definition validateEndpointsJSON (endpoints : jstr) : bool :=
  if negb (nonempty endpoints) || str_eqb (trim endpoints) [] then true else match json_parse endpoints with Some _ => true | None => false end.

Definition parseEndpoints (endpoints : jstr) : option json :=
  if negb (nonempty endpoints) || str_eqb (trim endpoints) [] then None else json_parse endpoints.

(** [String] of an element may throw. *)
Definition formatEndpointsDisplay (endpoints : jstr) : exn (list jstr) :=
  match parseEndpoints endpoints with
  | Some (JObj o) => Ret (map fst o)
  | Some (JArr l) => mapM js_string l
  | _ => Ret []
  end.

Definition isModelEnabled (model : Model) : bool := (m_status model =? 1)%Z.
Definition isModelSyncOfficial (model : Model) : bool := (m_sync_official model =? 1)%Z.
