(* ===== verification/EntityForms.v ===== *)
(** * Saved entities

    The forms of [ApiKeyForm], [RedemptionForm], [PlanForm], [ModelForm] and [UserForm]: what is
    saved from a form, opened again and submitted untouched is the same. *)

From Stdlib Require Import NArith ZArith SpecFloat Lia.
From S2P Require Import Prelude JsString JsNumber NumRounding Json Currency FormDates ApiKeyForm RedemptionForm UserForm PlanForm ModelForm.

(** ** What is saved is saved again *)

(** A quota within the range that amounts keep. *)
Definition quota_ok (x : num) : Prop := ∃ u, (0 <= u <= 2 ^ 49)%Z ∧ x = num_of_Z u.

(** A date that the form can hold: none, or one after the second second of the epoch. *)
Definition date_ok (d : option num) : Prop :=
  match d with None => True | Some x => ∃ t, (2000 <= t <= 8640000000000000)%Z ∧ x = num_of_Z t end.

Definition limits_ok (l : list jstr) : Prop := Forall (λ m, nonempty m = true ∧ 44%N ∉ m) l.

Lemma quota_again store x : store_ok store → quota_ok x → parseQuotaFromDollars store (num_or0 (quotaUnitsToDollars store x)) = x.
Proof. intros Hs (u & Hu & ->). destruct (units_back store u Hs Hu) as [-> H]. done. Qed.

(** The seconds that are sent for a date, with [d] for no date, are sent again. *)
Lemma date_again date d : date_ok date → nlt nzero d = false →
  let sent := match date with Some x => seconds_of_date x | None => d end in
  match open_date sent with Some x => seconds_of_date x | None => d end = sent.
Proof.
  intros Hd Hn. destruct date as [x|]; cbn zeta.
  - destruct Hd as (t & Ht & ->). destruct (date_seconds t Ht) as (s & Hs & ->). destruct (seconds_roundtrip s Hs) as [-> ->]. done.
  - unfold open_date. by rewrite Hn.
Qed.

Lemma limits_again l : limits_ok l →
  (match str_join (js ",") l with [] => [] | s => List.filter nonempty (split_char 44 s) end) = l.
Proof.
  intros Hl. destruct l as [|m l]; [done|]. destruct (str_join (js ",") (m :: l)) as [|c s] eqn:E.
  - exfalso. apply Forall_cons_1 in Hl as [[Hm _] _]. destruct m as [|x m]; [done|]. destruct l; [done|]. rewrite join_cons in E by done. done.
  - rewrite <- E. change (js ",") with [44%N]. rewrite split_join; [|done|].
    + apply filter_nonempty_id. eapply Forall_impl; [exact Hl|]. intros w [Hw _] ->. done.
    + eapply Forall_impl; [exact Hl|]. by intros w [_ Hw].
Qed.

Section forms.
Context (store : option CurrencyConfig) (Hstore : store_ok store).

Lemma api_key_again data : quota_ok (ApiKeyForm.d_remain_quota (ApiKeyForm.transformFormDataToPayload store data)) →
  date_ok (ApiKeyForm.expired_time data) → limits_ok (ApiKeyForm.model_limits data) →
  let sent := ApiKeyForm.transformFormDataToPayload store data in
  ApiKeyForm.transformFormDataToPayload store (ApiKeyForm.transformApiKeyToFormDefaults store sent) = sent.
Proof.
  intros Hq Hd Hl sent. unfold sent, ApiKeyForm.transformFormDataToPayload, ApiKeyForm.transformApiKeyToFormDefaults in *.
  cbn [ApiKeyForm.name ApiKeyForm.remain_quota_dollars ApiKeyForm.expired_time ApiKeyForm.unlimited_quota ApiKeyForm.model_limits ApiKeyForm.allow_ips
    ApiKeyForm.group ApiKeyForm.cross_group_retry ApiKeyForm.d_name ApiKeyForm.d_remain_quota ApiKeyForm.d_expired_time ApiKeyForm.d_unlimited_quota
    ApiKeyForm.d_model_limits_enabled ApiKeyForm.d_model_limits ApiKeyForm.d_allow_ips ApiKeyForm.d_group ApiKeyForm.d_cross_group_retry from_option] in *.
  rewrite (limits_again _ Hl), (date_again _ _ Hd) by done. f_equal.
  - destruct (ApiKeyForm.unlimited_quota data); [done|]. by apply quota_again.
  - unfold str_or, ApiKeyForm.DEFAULT_GROUP. by destruct (ApiKeyForm.group data) as [[]|].
  - unfold str_or, ApiKeyForm.DEFAULT_GROUP. destruct (ApiKeyForm.group data) as [[|c g]|]; [done| |done].
    exact (eq_trans (andb_assoc _ _ _) (f_equal (λ b, b && _) (andb_diag (str_eqb (c :: g) (js "auto"))))).
Qed.

Lemma redemption_again data : quota_ok (RedemptionForm.d_quota (RedemptionForm.transformFormDataToPayload store data)) →
  date_ok (RedemptionForm.expired_time data) →
  let sent := RedemptionForm.transformFormDataToPayload store data in
  let again := RedemptionForm.transformFormDataToPayload store (RedemptionForm.transformRedemptionToFormDefaults store sent) in
  RedemptionForm.d_name again = RedemptionForm.d_name sent ∧ RedemptionForm.d_quota again = RedemptionForm.d_quota sent
  ∧ RedemptionForm.d_expired_time again = RedemptionForm.d_expired_time sent.
Proof.
  intros (u & Hu & Hq) Hd sent again. split_and!; [done| |by apply date_again]. unfold again, sent. cbn [RedemptionForm.d_quota RedemptionForm.transformFormDataToPayload
    RedemptionForm.transformRedemptionToFormDefaults RedemptionForm.quota_dollars] in *. rewrite Hq. by apply units_back.
Qed.

Lemma plan_again v : quota_ok (PlanForm.total_amount (PlanForm.formValuesToPlanPayload store v).1) → num_truthy (PlanForm.duration_value v) = true →
  let sent := PlanForm.formValuesToPlanPayload store v in
  PlanForm.formValuesToPlanPayload store (PlanForm.planToFormValues store sent.1) = sent.
Proof.
  intros Hq Hdv sent. unfold sent, PlanForm.formValuesToPlanPayload, PlanForm.planToFormValues in *. cbn [fst
    PlanForm.title PlanForm.subtitle PlanForm.price_amount PlanForm.duration PlanForm.duration_value PlanForm.custom_seconds PlanForm.quota_reset_period
    PlanForm.quota_reset_custom_seconds PlanForm.enabled PlanForm.sort_order PlanForm.allow_balance_pay PlanForm.max_purchase_per_user PlanForm.total_amount
    PlanForm.upgrade_group PlanForm.stripe_price_id PlanForm.creem_product_id PlanForm.waffo_pancake_product_id] in *.
  rewrite !num_or0_idemp. f_equal. f_equal.
  - unfold PlanForm.num_or1, num_or0. rewrite Hdv, Hdv, Hdv. done.
  - case_bool_decide; [by rewrite num_or0_idemp|done].
  - destruct Hq as (u & Hu & Hq). rewrite Hq. assert (num_or0 (num_of_Z u) = num_of_Z u) as ->; [|by apply quota_again; [|exists u]].
    destruct (Z.eq_dec u 0%Z) as [->|]; [done|]. by apply (pos_num_or0 _ _ (num_of_Z_exact u ltac:(lia))).
Qed.
End forms.

Definition tags_ok (l : list jstr) : Prop := Forall (λ m, m ≠ [] ∧ (44%N ∉ m) ∧ trim m = m) l.

Lemma tags_again l : tags_ok l → ModelForm.parseModelTags (ModelForm.formatTagsArray l) = l.
Proof.
  intros Hl. unfold ModelForm.formatTagsArray. rewrite filter_nonempty_id by (eapply Forall_impl; [exact Hl|]; by intros w [? _]).
  assert (limits_ok l) as Hok by (eapply Forall_impl; [exact Hl|]; intros [|c w] (? & ? & _); done).
  pose proof (limits_again l Hok) as E. unfold ModelForm.parseModelTags. destruct (str_join (js ",") l) as [|c s]; [done|].
  transitivity (List.filter nonempty (split_char 44 (c :: s))); [|exact E]. f_equal.
  assert (∀ w, w ∈ split_char 44 (c :: s) → trim w = w) as Ht.
  { intros w Hw. destruct (nonempty w) eqn:En; [|by destruct w].
    assert (w ∈ l) as Hin by (rewrite <- E; apply list_elem_of_In, filter_In; split; [by apply list_elem_of_In|done]).
    unfold tags_ok in Hl. rewrite Forall_forall in Hl. by destruct (Hl w Hin) as (_ & _ & ?). }
  clear -Ht. induction (split_char 44 (c :: s)) as [|w l IH]; [done|]. cbn [map]. rewrite Ht by (by left). f_equal. apply IH.
  intros x Hx. apply Ht. by right.
Qed.

Lemma model_again f : tags_ok (ModelForm.tags f) →
  let sent := ModelForm.transformFormDataToModelPayload f in
  ModelForm.transformFormDataToModelPayload (ModelForm.transformModelToFormDefaults sent) = sent.
Proof.
  intros Ht sent. unfold sent, ModelForm.transformFormDataToModelPayload, ModelForm.transformModelToFormDefaults.
  cbn [ModelForm.m_id ModelForm.m_model_name ModelForm.m_description ModelForm.m_icon ModelForm.m_tags ModelForm.m_vendor_id ModelForm.m_endpoints ModelForm.m_name_rule
    ModelForm.m_status ModelForm.m_sync_official ModelForm.m_enable_groups ModelForm.m_quota_types ModelForm.id ModelForm.model_name ModelForm.description ModelForm.icon
    ModelForm.tags ModelForm.vendor_id ModelForm.endpoints ModelForm.name_rule ModelForm.status ModelForm.sync_official ModelForm.enable_groups ModelForm.quota_types].
  rewrite tags_again by done. by destruct (ModelForm.status f), (ModelForm.sync_official f).
Qed.

(** C26: An entity that was saved from its form is saved again without a change.  Opening the
    form on the stored key, redemption code, plan or model and submitting it untouched sends the
    same quota, the same expiry time and the same lists as before, in every display currency with
    rates that are not positive, and so replaced by the default, or within the range of [rate_ok]: for whole quotas
    up to [2^49] units, dates from the third second of the epoch on, model limits that are not
    empty and without commas, tags that are also trimmed, and a plan with a duration other
    than zero.  Of a redemption code it is the name, the quota and the expiry time. *)
Theorem saved_entities_stable (store : option CurrencyConfig) : store_ok store →
  (∀ data, let sent := ApiKeyForm.transformFormDataToPayload store data in
     quota_ok (ApiKeyForm.d_remain_quota sent) → date_ok (ApiKeyForm.expired_time data) → limits_ok (ApiKeyForm.model_limits data) →
     ApiKeyForm.transformFormDataToPayload store (ApiKeyForm.transformApiKeyToFormDefaults store sent) = sent)
  ∧ (∀ data, let sent := RedemptionForm.transformFormDataToPayload store data in
     let again := RedemptionForm.transformFormDataToPayload store (RedemptionForm.transformRedemptionToFormDefaults store sent) in
     quota_ok (RedemptionForm.d_quota sent) → date_ok (RedemptionForm.expired_time data) →
     RedemptionForm.d_name again = RedemptionForm.d_name sent ∧ RedemptionForm.d_quota again = RedemptionForm.d_quota sent
     ∧ RedemptionForm.d_expired_time again = RedemptionForm.d_expired_time sent)
  ∧ (∀ v, let sent := PlanForm.formValuesToPlanPayload store v in
     quota_ok (PlanForm.total_amount sent.1) → num_truthy (PlanForm.duration_value v) = true →
     PlanForm.formValuesToPlanPayload store (PlanForm.planToFormValues store sent.1) = sent)
  ∧ (∀ f, let sent := ModelForm.transformFormDataToModelPayload f in
     tags_ok (ModelForm.tags f) → ModelForm.transformFormDataToModelPayload (ModelForm.transformModelToFormDefaults sent) = sent).
Proof.
  intros Hs. split; [intros data; by apply api_key_again|]. split; [intros data; by apply redemption_again|].
  split; [intros v; by apply plan_again|intros f; by apply model_again].
Qed.

(** A key worth 12.34 yuan at seven yuan per dollar that expires in 2033. *)
Definition demo_key : ApiKeyForm.ApiKeyFormValues := {|
  ApiKeyForm.name := js "k"; ApiKeyForm.remain_quota_dollars := Some (to_number (js "12.34")); ApiKeyForm.expired_time := Some (num_of_Z 2000000000123);
  ApiKeyForm.unlimited_quota := false; ApiKeyForm.model_limits := [js "a"; js "b"]; ApiKeyForm.allow_ips := None; ApiKeyForm.group := Some (js "auto");
  ApiKeyForm.cross_group_retry := Some true; ApiKeyForm.tokenCount := None |}.

Lemma saved_entities_stable_witness :
  let sent := ApiKeyForm.transformFormDataToPayload demo_store demo_key in
  ApiKeyForm.d_remain_quota sent = num_of_Z 881429 ∧ ApiKeyForm.d_expired_time sent = num_of_Z 2000000000
  ∧ ApiKeyForm.transformFormDataToPayload demo_store (ApiKeyForm.transformApiKeyToFormDefaults demo_store sent) = sent.
Proof.
  split; [vm_compute; reflexivity|]. split; [vm_compute; reflexivity|]. apply (saved_entities_stable demo_store).
  - split; [right; apply int_rate; lia|]. split; [right; apply int_rate; lia|left; vm_compute; reflexivity].
  - exists 881429%Z. split; [lia|vm_compute; reflexivity].
  - exists 2000000000123%Z. split; [lia|reflexivity].
  - repeat constructor; apply (bool_decide_eq_true_1 _); vm_compute; reflexivity.
Defined.

(** A key without a limit is always sent with no quota left. *)
Theorem unlimited_key_quota store k : ApiKeyForm.d_unlimited_quota k = true →
  ApiKeyForm.d_remain_quota (ApiKeyForm.transformFormDataToPayload store (ApiKeyForm.transformApiKeyToFormDefaults store k)) = nzero.
Proof. intros H. cbn. by rewrite H. Qed.

(** What an update of a user sends: never the role or the quota, and an emptied remark or
    password is left out. *)
Theorem user_update_sends data i :
  let p := UserForm.transformFormDataToPayload data (Some i) in
  UserForm.d_role p = None ∧ UserForm.d_id p = Some i ∧ UserForm.d_group p = UserForm.group data ∧ UserForm.d_password p ≠ Some [] ∧ UserForm.d_remark p ≠ Some []
  ∧ (UserForm.username data ≠ [] → UserForm.d_display_name p ≠ []).
Proof.
  cbn. unfold UserForm.or_undefined, str_or. split_and!; try done.
  - by destruct (UserForm.password data) as [[]|].
  - by destruct (UserForm.remark data) as [[]|].
  - by destruct (default [] (UserForm.display_name data)).
Qed.
