(* ===== verification/TableUrl.v ===== *)
(** * Tables whose state is in the URL

    Model of [web/default/src/hooks/use-table-url-state.ts].  The search parameters of the
    router are a finite map; a parameter that is set to undefined is absent from it.  The
    router itself, which turns the map into the text of the URL and back, is not part of the
    model; navigating to equal parameters keeps the object that the hook is given, so that its
    effect does not run.  Page numbers and sizes are integers, and the elements of a list are texts, as the
    schemas of the routes declare them. *)

From S2P Require Import Prelude JsString.
From stdpp Require Import gmap.
From Stdlib Require Import ZArith.

(** ** Parameters *)

Inductive param := PNum (n : Z) | PStr (s : jstr) | PArr (l : list jstr) | POther.
#[export] Instance param_eq_dec : EqDecision param.
Proof. solve_decision. Defined.

Abbreviation search := (gmap jstr param).

(** [{ ...prev, [k]: v }]. *)
Definition put (k : jstr) (v : option param) (s : search) : search :=
  match v with Some v => <[k := v]> s | None => delete k s end.

Inductive filter_type := TString | TArray.

(** A column filter of the configuration. *)
Record column_cfg := {
  columnId : jstr;
  searchKey : jstr;
  ctype : option filter_type;
  serialize : option (param → option param);
  deserialize : option (option param → option param);
}.

Record config := {
  pageKey : jstr;
  pageSizeKey : jstr;
  defaultPage : Z;
  defaultPageSize : Z;
  globalFilterKey : jstr;
  globalFilterEnabled : bool;
  trimGlobal : bool;
  columnFiltersCfg : list column_cfg;
}.

(** The values that [params] leaves out. *)
Definition DEFAULT_CONFIG : config := {|
  pageKey := js "page"; pageSizeKey := js "pageSize"; defaultPage := 1; defaultPageSize := 20;
  globalFilterKey := js "filter"; globalFilterEnabled := true; trimGlobal := true; columnFiltersCfg := [] |}.

Record PaginationState := { pageIndex : Z; pageSize : Z }.

Abbreviation ColumnFiltersState := (list (jstr * param)).

Section hook.
Context (c : config).

(** ** Reading *)

(** The value of a filter, when it is one that filters. *)
Definition text_filter (v : option param) : option param :=
  match v with Some (PStr s) => if str_eqb (trim s) [] then None else v | _ => None end.
Definition list_filter (v : option param) : option param := match v with Some (PArr (_ :: _)) => v | _ => None end.

Definition read_filter (cfg : column_cfg) (s : search) : option (jstr * param) :=
  let raw := s !! searchKey cfg in
  let value := match deserialize cfg with Some f => f raw | None => raw end in
  (λ v, (columnId cfg, v)) <$> match ctype cfg with Some TString => text_filter value | _ => list_filter value end.

Definition initialColumnFilters (s : search) : ColumnFiltersState := omap (λ cfg, read_filter cfg s) (columnFiltersCfg c).

Definition num_param (k : jstr) (d : Z) (s : search) : Z := match s !! k with Some (PNum n) => n | _ => d end.

Definition pagination (s : search) : PaginationState :=
  {| pageIndex := Z.max 0 (num_param (pageKey c) (defaultPage c) s - 1); pageSize := num_param (pageSizeKey c) (defaultPageSize c) s |}.

Definition initialGlobalFilter (s : search) : option jstr :=
  if negb (globalFilterEnabled c) then None else Some (match s !! globalFilterKey c with Some (PStr t) => t | _ => [] end).

(** ** State *)

Record table := { t_search : search; columnFilters : ColumnFiltersState; globalFilter : option jstr }.

Definition mount (s : search) : table := {| t_search := s; columnFilters := initialColumnFilters s; globalFilter := initialGlobalFilter s |}.

(** The effect that follows a change of the parameters. *)
Definition navigate (t : table) (s : search) : table :=
  if decide (s = t_search t) then t
  else {| t_search := s; columnFilters := initialColumnFilters s; globalFilter := globalFilter t |}.

(** ** Changes *)

Definition onPaginationChange (next : PaginationState) (t : table) : table :=
  let nextPage := (pageIndex next + 1)%Z in
  navigate t (put (pageSizeKey c) (Some (PNum (pageSize next)))
    (put (pageKey c) (if (nextPage <=? defaultPage c)%Z then None else Some (PNum nextPage)) (t_search t))).

Definition onGlobalFilterChange (next : jstr) (t : table) : table :=
  if globalFilterEnabled c then
    let value := if trimGlobal c then trim next else next in
    let t := {| t_search := t_search t; columnFilters := columnFilters t; globalFilter := Some value |} in
    navigate t (put (globalFilterKey c) (if nonempty value then Some (PStr value) else None) (put (pageKey c) None (t_search t)))
  else t.

(** The parameter that is written for one configured column. *)
Definition written (cfg : column_cfg) (next : ColumnFiltersState) : option param :=
  let found := snd <$> List.find (λ f, str_eqb f.1 (columnId cfg)) next in
  let ser v := match serialize cfg with Some f => f v | None => Some v end in
  match ctype cfg with Some TString => text_filter found | _ => list_filter found end ≫= ser.

Definition patch (next : ColumnFiltersState) (s : search) : search :=
  foldl (λ s cfg, put (searchKey cfg) (written cfg next) s) s (columnFiltersCfg c).

Definition onColumnFiltersChange (next : ColumnFiltersState) (t : table) : table :=
  navigate {| t_search := t_search t; columnFilters := next; globalFilter := globalFilter t |}
    (patch next (put (pageKey c) None (t_search t))).

Inductive reset_to := First | Last.

Definition ensurePageInRange (pageCount : Z) (resetTo : reset_to) (t : table) : table :=
  let pageNum := num_param (pageKey c) (defaultPage c) (t_search t) in
  if ((0 <? pageCount) && (pageCount <? pageNum))%Z
  then navigate t (put (pageKey c) (match resetTo with Last => Some (PNum pageCount) | First => None end) (t_search t))
  else t.
End hook.

(** ** The abstract table

    What the user of a table sees: a page, a page size, a text and column filters. *)

Record view := { v_page : Z; v_size : Z; v_global : option jstr; v_filters : ColumnFiltersState }.

Inductive table_op := SetPage (p : PaginationState) | SetGlobal (s : jstr) | SetFilters (fs : ColumnFiltersState) | EnsurePage (n : Z) (r : reset_to).

Section refinement.
Context (c : config).

Definition step (t : table) (o : table_op) : table :=
  match o with
  | SetPage p => onPaginationChange c p t
  | SetGlobal s => onGlobalFilterChange c s t
  | SetFilters fs => onColumnFiltersChange c fs t
  | EnsurePage n r => ensurePageInRange c n r t
  end.

Definition view_of (t : table) : view := {|
  v_page := pageIndex (pagination c (t_search t)); v_size := pageSize (pagination c (t_search t)); v_global := globalFilter t;
  v_filters := columnFilters t |}.

Definition first_page : Z := (defaultPage c - 1)%Z.

(** The filters that remain: for every configured column, in the configured order, its first
    value in the list, when it filters. *)
Definition kept (fs : ColumnFiltersState) : ColumnFiltersState :=
  omap (λ cfg, (λ v, (columnId cfg, v)) <$>
    (let found := snd <$> List.find (λ f, str_eqb f.1 (columnId cfg)) fs in
     match ctype cfg with Some TString => text_filter found | _ => list_filter found end)) (columnFiltersCfg c).

(** The filters stay, or only those that filter remain. *)
Definition same_filters (old new : ColumnFiltersState) : Prop := new = old ∨ new = kept old.

Definition spec_step (v : view) (o : table_op) (v' : view) : Prop :=
  match o with
  | SetPage p =>
    v_page v' = Z.max (pageIndex p) first_page ∧ v_size v' = pageSize p ∧ v_global v' = v_global v ∧ same_filters (v_filters v) (v_filters v')
  | SetGlobal s =>
    if globalFilterEnabled c
    then v_page v' = first_page ∧ v_size v' = v_size v ∧ v_global v' = Some (if trimGlobal c then trim s else s) ∧ same_filters (v_filters v) (v_filters v')
    else v' = v
  | SetFilters fs =>
    v_page v' = first_page ∧ v_size v' = v_size v ∧ v_global v' = v_global v ∧
    (v_filters v' = kept fs ∨ v_filters v' = fs ∧ kept fs = kept (v_filters v) ∧ v_page v = first_page)
  | EnsurePage n r =>
    if ((0 <? n) && (n <=? v_page v))%Z
    then v_page v' = match r with First => first_page | Last => (n - 1)%Z end ∧ v_size v' = v_size v ∧ v_global v' = v_global v ∧ same_filters (v_filters v) (v_filters v')
    else v' = v
  end.

(** A sequence of actions. *)
Inductive spec_run : view → list table_op → view → Prop :=
  | run_nil v : spec_run v [] v
  | run_cons v o v1 ops v2 : spec_step v o v1 → spec_run v1 ops v2 → spec_run v (o :: ops) v2.

(** Reading undoes writing. *)
Definition codec_ok (cfg : column_cfg) : Prop :=
  (∀ v, ∃ p, match serialize cfg with Some f => f v | None => Some v end = Some p
     ∧ match deserialize cfg with Some f => f (Some p) | None => Some p end = Some v)
  ∧ match deserialize cfg with Some f => f None | None => None end = None.

Definition config_ok : Prop :=
  (1 <= defaultPage c)%Z ∧ NoDup (map columnId (columnFiltersCfg c)) ∧ NoDup (pageKey c :: pageSizeKey c :: globalFilterKey c :: map searchKey (columnFiltersCfg c))
  ∧ Forall codec_ok (columnFiltersCfg c).

Definition op_ok (o : table_op) : Prop := match o with SetPage p => (0 <= pageIndex p)%Z | _ => True end.

(** ** Lookups *)
Lemma lookup_put (k k' : jstr) (v : option param) (s : search) : put k v s !! k' = if decide (k = k') then v else s !! k'.
Proof. unfold put. destruct v; destruct (decide (k = k')) as [->|Hn]; simplify_map_eq; done. Qed.

Lemma put_num (k k' : jstr) (v : option param) (d : Z) (s : search) : k ≠ k' → num_param k' d (put k v s) = num_param k' d s.
Proof. intros Hn. unfold num_param. by rewrite lookup_put, decide_False. Qed.

Lemma put_num_same (k : jstr) (v : option param) (d : Z) (s : search) : num_param k d (put k v s) = match v with Some (PNum n) => n | _ => d end.
Proof. unfold num_param. by rewrite lookup_put, decide_True. Qed.

Lemma patch_other (next : ColumnFiltersState) (cfgs : list column_cfg) (s : search) (k : jstr) : k ∉ map searchKey cfgs →
  foldl (λ s cfg, put (searchKey cfg) (written cfg next) s) s cfgs !! k = s !! k.
Proof.
  revert s. induction cfgs as [|cfg cfgs IH]; intros s Hk; [done|]. cbn [map] in Hk. apply not_elem_of_cons in Hk as [Hn Hk].
  cbn [foldl]. rewrite IH by done. by rewrite lookup_put, decide_False.
Qed.

Lemma patch_same (next : ColumnFiltersState) (cfgs : list column_cfg) (s : search) (cfg : column_cfg) : NoDup (map searchKey cfgs) → cfg ∈ cfgs →
  foldl (λ s cfg, put (searchKey cfg) (written cfg next) s) s cfgs !! searchKey cfg = written cfg next.
Proof.
  revert s. induction cfgs as [|cfg' cfgs IH]; intros s Hn Hin; [by apply elem_of_nil in Hin|].
  cbn [map] in Hn. apply NoDup_cons in Hn as [Hx Hn]. cbn [foldl]. apply elem_of_cons in Hin as [->|Hin].
  - rewrite patch_other by done. by rewrite lookup_put, decide_True.
  - by apply IH.
Qed.

Lemma filters_ext (s s' : search) : (∀ cfg, cfg ∈ columnFiltersCfg c → s !! searchKey cfg = s' !! searchKey cfg) →
  initialColumnFilters c s = initialColumnFilters c s'.
Proof.
  intros H. unfold initialColumnFilters. induction (columnFiltersCfg c) as [|cfg l IH]; [done|]. cbn [omap list_omap].
  assert (read_filter cfg s = read_filter cfg s') as -> by (unfold read_filter; by rewrite (H cfg) by (by left)).
  by rewrite IH by (intros; apply H; by right).
Qed.

Lemma put_filters (k : jstr) (v : option param) (s : search) : k ∉ map searchKey (columnFiltersCfg c) → initialColumnFilters c (put k v s) = initialColumnFilters c s.
Proof.
  intros Hk. apply filters_ext. intros cfg Hin. rewrite lookup_put, decide_False; [done|]. intros ->. apply Hk.
  by apply (list_elem_of_fmap_2 searchKey).
Qed.

Lemma patch_filters (next : ColumnFiltersState) (s : search) : NoDup (map searchKey (columnFiltersCfg c)) → Forall codec_ok (columnFiltersCfg c) →
  initialColumnFilters c (patch c next s) = kept next.
Proof.
  intros Hn Hc. unfold initialColumnFilters, kept. set (s' := patch c next s).
  assert (∀ cfg, cfg ∈ columnFiltersCfg c → s' !! searchKey cfg = written cfg next) as Hs by (intros; by apply patch_same).
  clearbody s'. clear Hn. induction Hc as [|cfg l [Hser Hdes] _ IH]; [done|]. cbn [omap list_omap].
  rewrite IH by (intros; apply Hs; by right). clear IH. specialize (Hs cfg ltac:(by left)). unfold read_filter. rewrite Hs. unfold written.
  set (found := snd <$> _). set (keep := match ctype cfg with Some TString => text_filter | _ => list_filter end).
  assert (keep found = match ctype cfg with Some TString => text_filter found | _ => list_filter found end) as Hk
    by (unfold keep; by destruct (ctype cfg) as [[]|]).
  rewrite <- Hk. assert (keep (keep found) = keep found) as Hidem.
  { unfold keep, text_filter, list_filter. destruct (ctype cfg) as [[]|]; destruct found as [[| |[]|]|]; try done.
    all: by repeat (case_match; simplify_eq). }
  assert (keep None = None) as Hnone by (unfold keep; by destruct (ctype cfg) as [[]|]).
  assert (∀ x, match ctype cfg with Some TString => text_filter x | _ => list_filter x end = keep x) as Hkeep
    by (intros x; unfold keep; by destruct (ctype cfg) as [[]|]).
  rewrite Hkeep. f_equal. destruct (keep found) as [v|] eqn:Ev; cbn [mbind option_bind].
  - destruct (Hser v) as (p & -> & Hd). assert (match deserialize cfg with Some f => f (Some p) | None => Some p end = Some v) as -> by done. by rewrite Hidem.
  - by rewrite Hdes, Hnone.
Qed.

(** ** Refinement *)
Lemma navigate_search t s : t_search (navigate c t s) = s ∧ globalFilter (navigate c t s) = globalFilter t.
Proof. unfold navigate. by destruct (decide (s = t_search t)) as [->|]. Qed.

(** What the state of the table and the URL have in common. *)
Definition synced (t : table) : Prop :=
  globalFilter t = initialGlobalFilter c (t_search t) ∧ kept (columnFilters t) = initialColumnFilters c (t_search t).

Lemma navigate_filters t s : columnFilters (navigate c t s) = initialColumnFilters c s ∨
  columnFilters (navigate c t s) = columnFilters t ∧ s = t_search t.
Proof. unfold navigate. destruct (decide (s = t_search t)); [by right|by left]. Qed.

(** Reading gives filters that filter, one for each column. *)
Lemma find_read (l : list column_cfg) (s : search) (cfg : column_cfg) : NoDup (map columnId l) → cfg ∈ l →
  snd <$> List.find (λ f, str_eqb f.1 (columnId cfg)) (omap (λ cfg, read_filter cfg s) l) = snd <$> read_filter cfg s.
Proof.
  assert (∀ cfg f, read_filter cfg s = Some f → f.1 = columnId cfg) as Hid.
  { intros cfg' f. unfold read_filter. destruct (match ctype cfg' with Some TString => _ | _ => _ end); [|done]. by intros [= <-]. }
  assert (∀ l k, k ∉ map columnId l → List.find (λ f, str_eqb f.1 k) (omap (λ cfg, read_filter cfg s) l) = None) as Hnone.
  { clear -Hid. intros l k. induction l as [|cfg' l IH]; [done|]. intros [Hk Hl]%not_elem_of_cons. cbn [omap list_omap].
    destruct (read_filter cfg' s) as [f|] eqn:E; [|by apply IH]. cbn [List.find]. unfold str_eqb at 1.
    rewrite (Hid _ _ E), bool_decide_eq_false_2 by done. by apply IH. }
  induction l as [|cfg' l IH]; [by intros _ ?%elem_of_nil|]. intros [Hn Hnd]%NoDup_cons Hin. cbn [omap list_omap].
  apply elem_of_cons in Hin as [->|Hin].
  - destruct (read_filter cfg' s) as [f|] eqn:E; [|by rewrite Hnone]. cbn [List.find]. unfold str_eqb.
    by rewrite (Hid _ _ E), bool_decide_eq_true_2.
  - rewrite <- IH by done. destruct (read_filter cfg' s) as [f|] eqn:E; [|done]. cbn [List.find]. unfold str_eqb at 1.
    rewrite (Hid _ _ E), bool_decide_eq_false_2; [done|]. intros Heq. apply Hn. rewrite Heq. by apply list_elem_of_fmap_2.
Qed.

Lemma filter_twice (cfg : column_cfg) (v : option param) :
  let keep x := match ctype cfg with Some TString => text_filter x | _ => list_filter x end in keep (keep v) = keep v.
Proof.
  cbv zeta. unfold text_filter, list_filter. destruct (ctype cfg) as [[]|]; destruct v as [[| |[]|]|]; try done.
  all: by repeat (case_match; simplify_eq).
Qed.

Lemma read_kept s : NoDup (map columnId (columnFiltersCfg c)) → kept (initialColumnFilters c s) = initialColumnFilters c s.
Proof.
  intros Hn. unfold kept. remember (initialColumnFilters c s) as fs eqn:Efs.
  assert (∀ cfg, cfg ∈ columnFiltersCfg c → (λ v, (columnId cfg, v)) <$>
    (let found := snd <$> List.find (λ f, str_eqb f.1 (columnId cfg)) fs in
     match ctype cfg with Some TString => text_filter found | _ => list_filter found end) = read_filter cfg s) as H.
  { intros cfg Hin. cbv zeta. rewrite Efs. unfold initialColumnFilters. rewrite find_read by done. unfold read_filter.
    set (v := match deserialize cfg with Some f => _ | None => _ end). pose proof (filter_twice cfg v) as Ht. cbv zeta in Ht.
    set (w := match ctype cfg with Some TString => text_filter v | _ => list_filter v end) in *.
    replace (snd <$> ((λ v0, (columnId cfg, v0)) <$> w)) with w by by destruct w. by rewrite Ht. }
  trans (omap (λ cfg, read_filter cfg s) (columnFiltersCfg c)); [|by symmetry]. clear Hn Efs.
  induction (columnFiltersCfg c) as [|cfg l IH]; [done|]. cbn [omap list_omap].
  pose proof (H cfg ltac:(by left)) as Hcfg. cbv zeta in Hcfg. rewrite Hcfg, IH; [done|]. intros cfg' Hin. apply H. by right.
Qed.

(** After an action that leaves the filters of the URL alone. *)
Lemma filters_stay t s : synced t → initialColumnFilters c s = initialColumnFilters c (t_search t) →
  same_filters (columnFilters t) (columnFilters (navigate c t s)).
Proof. intros [_ Hk] Hs. destruct (navigate_filters t s) as [->|[-> _]]; [right; congruence|by left]. Qed.

(** The keys are different. *)
Lemma keys_differ : config_ok →
  pageKey c ≠ pageSizeKey c ∧ pageKey c ≠ globalFilterKey c ∧ pageSizeKey c ≠ globalFilterKey c
  ∧ (pageKey c ∉ map searchKey (columnFiltersCfg c)) ∧ (pageSizeKey c ∉ map searchKey (columnFiltersCfg c))
  ∧ (globalFilterKey c ∉ map searchKey (columnFiltersCfg c)) ∧ NoDup (map searchKey (columnFiltersCfg c)).
Proof.
  intros (_ & _ & Hn & _). rewrite !NoDup_cons, !not_elem_of_cons in Hn. naive_solver.
Qed.

Lemma view_page t s : v_page (view_of (navigate c t s)) = pageIndex (pagination c s) ∧
  v_size (view_of (navigate c t s)) = pageSize (pagination c s) ∧ v_global (view_of (navigate c t s)) = globalFilter t.
Proof. unfold view_of. cbn [v_page v_size v_global]. by destruct (navigate_search t s) as [-> ->]. Qed.

Lemma patch_num (fs : ColumnFiltersState) (k : jstr) (d : Z) (s : search) :
  k ∉ map searchKey (columnFiltersCfg c) → num_param k d (patch c fs s) = num_param k d s.
Proof. intros Hk. unfold num_param, patch. by rewrite patch_other. Qed.

Lemma set_filters_refines t fs : config_ok → synced t → spec_step (view_of t) (SetFilters fs) (view_of (step t (SetFilters fs))).
Proof.
  intros Hc [_ Hsync]. destruct (keys_differ Hc) as (K1 & K2 & K3 & F1 & F2 & F3 & Hn). destruct Hc as (Hd & Hid & _ & Hcodec).
  cbn [step spec_step]. unfold onColumnFiltersChange. set (t' := {| t_search := t_search t; columnFilters := fs; globalFilter := globalFilter t |}).
  set (s := patch c fs (put (pageKey c) None (t_search t))). destruct (view_page t' s) as (-> & -> & ->).
  assert (pageIndex (pagination c s) = first_page) as Hp.
  { unfold s, pagination, first_page. cbn [pageIndex]. rewrite patch_num, put_num_same by done. lia. }
  split_and!; [done| |done|].
  - unfold s, view_of, pagination. cbn [pageSize v_size]. by rewrite patch_num, put_num.
  - unfold view_of. cbn [v_filters v_page]. assert (initialColumnFilters c s = kept fs) as Hs by by apply patch_filters.
    destruct (navigate_filters t' s) as [->|[-> E]]; [by left|right]. split_and!; [done| |].
    + rewrite <- Hs, Hsync. by rewrite E.
    + rewrite <- Hp. by rewrite E.
Qed.

Lemma step_refines t o : config_ok → op_ok o → synced t → spec_step (view_of t) o (view_of (step t o)).
Proof.
  intros Hc Ho Hsync. destruct (keys_differ Hc) as (K1 & K2 & K3 & F1 & F2 & F3 & Hn).
  destruct o as [p|g|fs|n r]; [..|by apply set_filters_refines|]; destruct Hc as (Hd & _ & _ & Hcodec); cbn [step spec_step op_ok] in *.
  - unfold onPaginationChange. set (s := put _ _ _). destruct (view_page t s) as (-> & -> & ->). unfold s, pagination, first_page.
    cbn [pageIndex pageSize]. rewrite put_num, !put_num_same by done. split_and!; [|done|done|].
    + destruct (Z.leb_spec (pageIndex p + 1) (defaultPage c)); lia.
    + unfold view_of. cbn [v_filters]. apply filters_stay; [done|]. by rewrite !put_filters.
  - unfold onGlobalFilterChange. destruct (globalFilterEnabled c); [|done]. set (value := if trimGlobal c then _ else _).
    set (t' := {| t_search := t_search t; columnFilters := columnFilters t; globalFilter := Some value |}). set (s := put _ _ _).
    destruct (view_page t' s) as (-> & -> & ->). unfold s, pagination, first_page. cbn [pageIndex pageSize t_search t'].
    rewrite !(put_num (globalFilterKey c)), put_num_same, put_num by done. split_and!; [lia|done|done|].
    unfold view_of. cbn [v_filters]. destruct Hsync as [_ Hk]. match goal with |- same_filters _ (columnFilters (navigate c ?a ?b)) =>
      destruct (navigate_filters a b) as [->|[-> _]] end; [right|by left]. by rewrite Hk, !put_filters.
  - unfold ensurePageInRange. unfold view_of at 1. cbn [v_page]. unfold pagination at 1. cbn [pageIndex].
    set (num := num_param (pageKey c) (defaultPage c) (t_search t)).
    assert (((0 <? n) && (n <=? Z.max 0 (num - 1)))%Z = ((0 <? n) && (n <? num))%Z) as ->.
    { destruct (Z.ltb_spec 0 n); [|done]. cbn. destruct (Z.ltb_spec n num), (Z.leb_spec n (Z.max 0 (num - 1))); lia. }
    destruct ((0 <? n) && (n <? num))%Z eqn:En; [|done]. set (s := put _ _ _). destruct (view_page t s) as (-> & -> & ->).
    unfold s, pagination, first_page. cbn [pageIndex pageSize]. rewrite put_num_same, put_num by done.
    apply andb_true_iff in En as [E1%Z.ltb_lt E2]. split_and!; [destruct r; lia|done|done|].
    unfold view_of. cbn [v_filters]. apply filters_stay; [done|]. by rewrite put_filters.
Qed.

(** A step to another URL, where the text of the state is the one of the URL. *)
Lemma navigate_synced t s : NoDup (map columnId (columnFiltersCfg c)) → globalFilter t = initialGlobalFilter c s →
  (s = t_search t → kept (columnFilters t) = initialColumnFilters c s) → synced (navigate c t s).
Proof.
  intros Hid Hg Hk. unfold synced. destruct (navigate_search t s) as [-> ->]. split; [done|].
  destruct (navigate_filters t s) as [->|[-> E]]; [by apply read_kept|by apply Hk].
Qed.

Lemma run_step_synced t o : config_ok → synced t → synced (step t o).
Proof.
  intros Hc [Hg Hk]. destruct (keys_differ Hc) as (K1 & K2 & K3 & F1 & F2 & F3 & Hn). destruct Hc as (_ & Hid & _ & Hcodec).
  assert (∀ (s s' : search), s !! globalFilterKey c = s' !! globalFilterKey c → initialGlobalFilter c s = initialGlobalFilter c s') as Hext.
  { intros s s' H. unfold initialGlobalFilter. by rewrite H. }
  destruct o as [p|g|fs|n r]; cbn [step].
  - apply navigate_synced; [done| |by intros ->]. rewrite Hg. apply Hext. by rewrite !lookup_put, !decide_False.
  - unfold onGlobalFilterChange. destruct (globalFilterEnabled c) eqn:Eg; [|done]. apply navigate_synced; [done| |].
    + cbn [globalFilter]. unfold initialGlobalFilter. rewrite Eg, lookup_put, decide_True by done. cbn [negb].
      by destruct (if trimGlobal c then trim g else g).
    + cbn [t_search columnFilters]. by intros ->.
  - apply navigate_synced; [done| |].
    + cbn [globalFilter]. rewrite Hg. apply Hext. unfold patch. rewrite patch_other by done. by rewrite lookup_put, decide_False.
    + intros _. cbn [columnFilters]. symmetry. by apply patch_filters.
  - unfold ensurePageInRange. case_match; [|done]. apply navigate_synced; [done| |by intros ->].
    rewrite Hg. apply Hext. by rewrite lookup_put, decide_False.
Qed.

End refinement.

Definition demo_config : config := {|
  pageKey := js "page"; pageSizeKey := js "pageSize"; defaultPage := 1; defaultPageSize := 20; globalFilterKey := js "filter";
  globalFilterEnabled := true; trimGlobal := true;
  columnFiltersCfg := [{| columnId := js "status"; searchKey := js "status"; ctype := Some TArray; serialize := None; deserialize := None |}] |}.

Definition demo_ops : list table_op :=
  [SetFilters [(js "status", PArr [js "1"])]; SetPage {| pageIndex := 6; pageSize := 50 |}; SetGlobal (js " gpt ");
   SetPage {| pageIndex := 9; pageSize := 50 |}; EnsurePage 4 Last].


(** After a correction the page exists, as long as the first page of the table does. *)
Theorem corrected_page_exists c v n r v' :
  (0 < n)%Z → (1 <= defaultPage c <= n)%Z → spec_step c v (EnsurePage n r) v' → (v_page v' < n)%Z.
Proof.
  intros Hn Hd. cbn [spec_step]. destruct (Z.ltb_spec 0 n); [|lia]. cbn [andb]. destruct (Z.leb_spec n (v_page v)).
  - intros (-> & _). unfold first_page. destruct r; lia.
  - intros ->. lia.
Qed.

(** A blank filter that is set when the URL has none stays in the state that the hook returns. *)
Theorem blank_filter_stays :
  columnFilters (onColumnFiltersChange demo_config [(js "status", PArr [])] (mount demo_config ∅)) = [(js "status", PArr [])].
Proof. vm_compute. reflexivity. Qed.

(** A filter without a type reads its parameter as a list, although a missing type is
    declared as a text: the text in the URL is not a filter. *)
Theorem untyped_filter_ignored k s :
  initialColumnFilters {| pageKey := js "page"; pageSizeKey := js "pageSize"; defaultPage := 1; defaultPageSize := 20; globalFilterKey := js "filter";
    globalFilterEnabled := true; trimGlobal := true;
    columnFiltersCfg := [{| columnId := k; searchKey := k; ctype := None; serialize := None; deserialize := None |}] |} {[k := PStr s]} = [].
Proof. unfold initialColumnFilters, read_filter. cbn. by rewrite lookup_singleton_eq. Qed.

(** With a default page after the first, the pages before it cannot be reached. *)
Theorem earlier_pages_unreachable c v p v' :
  (pageIndex p < defaultPage c - 1)%Z → spec_step c v (SetPage p) v' → v_page v' = (defaultPage c - 1)%Z.
Proof. intros H. cbn. unfold first_page. intros (-> & _). lia. Qed.

(** A change of the URL from outside, such as going back, updates the column filters but not
    the text filter. *)
Theorem global_filter_stale :
  let t := navigate DEFAULT_CONFIG (mount DEFAULT_CONFIG {[js "filter" := PStr (js "a")]}) ∅ in
  globalFilter t = Some (js "a") ∧ initialGlobalFilter DEFAULT_CONFIG (t_search t) = Some [].
Proof. vm_compute. split; reflexivity. Qed.
