(* ===== verification/SettingsJson.v ===== *)
(** * JSON texts of the settings pages

    Model of [web/default/src/features/system-settings/utils/json-parser.ts] and
    [json-validators.ts]: reading a stored text with a fallback, validators, and the
    description of a syntax error, whose message comes from the JavaScript engine. *)

From S2P Require Import Prelude JsString JsRegExp JsNumber Json JsonPretty.
From Stdlib Require Import NArith.

(** ** Reading with a fallback *)

(** A blank or broken text gives the fallback. *)
Definition safeJsonParse (value : jstr) (fallback : json) : json :=
  if negb (nonempty value) || str_eqb (trim value) [] then fallback
  else default fallback (json_parse (trim value)).

Definition safeJsonParseWithValidation (value : jstr) (validator : json → bool) (fallback : json) : json :=
  let parsed := safeJsonParse value fallback in
  if negb (validator parsed) then fallback else parsed.

(** The two kinds of failure, and the data. *)
Definition tryJsonParse (engine_message : jstr → jstr) (value : jstr) : jstr + json :=
  if negb (nonempty value) || str_eqb (trim value) [] then inl (js "Empty value")
  else match json_parse (trim value) with
       | Some data => inr data
       | None => inl (engine_message (trim value))
       end.

(** ** Validators *)

Definition isObjectRecord (data : json) : bool := match data with JObj _ => true | _ => false end.
Definition isArray (data : json) : bool := match data with JArr _ => true | _ => false end.

Definition isStringArray (data : json) : bool :=
  match data with JArr l => forallb (λ v, match v with JStr _ => true | _ => false end) l | _ => false end.

Definition isNumberArray (data : json) : bool :=
  match data with JArr l => forallb (λ v, match v with JNum _ => true | _ => false end) l | _ => false end.

Definition isObjectArray (data : json) : bool :=
  match data with JArr l => forallb isObjectRecord l | _ => false end.

(** [key in data] for keys that objects do not inherit. *)
Definition createObjectValidator (requiredKeys : list jstr) (data : json) : bool :=
  match data with
  | JObj o => forallb (λ key, match obj_get key o with Some _ => true | None => false end) requiredKeys
  | _ => false
  end.

Definition createArrayValidator (itemValidator : json → bool) (data : json) : bool :=
  match data with JArr l => forallb itemValidator l | _ => false end.

(** ** Positions of syntax errors *)

(** [text.substring(0, position).split('\n')]: the number of lines, and one more
    than the length of the last. *)
Definition getLineAndColumn (text : jstr) (position : N) : N * N :=
  let lines := split_char 10 (take (N.to_nat position) text) in
  (N.of_nat (length lines), N.of_nat (length (default [] (last lines))) + 1)%N.

Record JsonErrorPosition := { ep_line : option N; ep_column : option N; ep_position : option N }.

(** A literal that is matched without regard to case. *)
Definition rlit_i (s : jstr) : regex :=
  foldr (λ c r, RSeq (RSet (λ d, (ascii_lower c =? ascii_lower d)%N)) r) REmpty s.

Definition position_re : regex := rseq [rlit_i (js "at position "); RGroup 1 (RPlus RDigit)].

Definition line_col_re : regex :=
  rseq [rlit_i (js "at line "); RGroup 1 (RPlus RDigit); rlit_i (js " column "); RGroup 2 (RPlus RDigit)].

(** [None] is an error that is not an [Error]. *)
Definition extractErrorPosition (error : option jstr) (jsonString : jstr) : JsonErrorPosition :=
  match error with
  | None => {| ep_line := None; ep_column := None; ep_position := None |}
  | Some message =>
    match re_find position_re message with
    | Some m =>
      let position := digits_val (capt m 1) in
      let '(line, column) := getLineAndColumn jsonString position in
      {| ep_line := Some line; ep_column := Some column; ep_position := Some position |}
    | None =>
      match re_find line_col_re message with
      | Some m => {| ep_line := Some (digits_val (capt m 1)); ep_column := Some (digits_val (capt m 2)); ep_position := None |}
      | None => {| ep_line := None; ep_column := None; ep_position := None |}
      end
    end
  end.

(** [if (position.line && position.column)]. *)
Definition truthy_pair (p : JsonErrorPosition) : option (N * N) :=
  match ep_line p, ep_column p with
  | Some l, Some c => if ((l =? 0) || (c =? 0))%N then None else Some (l, c)
  | _, _ => None
  end.

Definition formatErrorDescription (error : option jstr) (jsonString : jstr) : option jstr :=
  match error with
  | None => None
  | Some message =>
    let position := extractErrorPosition error jsonString in
    let isMissingCommaError :=
      includes (js "Expected ','") message || includes (js "Expected property name") message
      || includes (js "Unexpected string") message in
    Some match truthy_pair position with
    | Some (line, column) =>
      let hint := if isMissingCommaError && (1 <? line)%N
        then js " (check line " ++ dec (line - 1) ++ js " for missing comma)" else [] in
      js "Error at line " ++ dec line ++ js ", column " ++ dec column ++ js ": " ++ message ++ hint
    | None =>
      match ep_position position with
      | Some p => js "Error at position " ++ dec p ++ js ": " ++ message
      | None => message
      end
    end
  end.

Example format_error_ex :
  formatErrorDescription (Some (js "Expected ',' or '}' after property value in JSON at position 9"))
    (js "{" ++ [10%N] ++ jq "'a': 1" ++ [10%N] ++ jq "'b': 2}")
  = Some (js "Error at line 3, column 1: Expected ',' or '}' after property value in JSON at position 9 (check line 2 for missing comma)").
Proof. vm_compute. reflexivity. Qed.

(** ** Facts *)
Lemma join_split c s : str_join [c] (split_char c s) = s.
Proof.
  induction s as [|x s IH]; [done|]. cbn [split_char]. destruct (N.eqb_spec x c) as [->|Hx].
  - rewrite join_cons by apply split_char_nonnil. by rewrite IH.
  - destruct (split_char c s) as [|w ws] eqn:E; [by destruct (split_char_nonnil c s)|].
    rewrite <- IH. by destruct ws.
Qed.

(** The lines of a prefix: some whole lines and the beginning of the next. *)
Lemma split_take c s n :
  ∃ k line j, split_char c s !! k = Some line ∧ j ≤ length line ∧
    split_char c (take n s) = take k (split_char c s) ++ [take j line].
Proof.
  revert n. induction s as [|x s IH]; intros n; [exists 0, [], 0; by rewrite take_nil|].
  destruct n as [|n]; cbn [take].
  { destruct (split_char c (x :: s)) as [|w ws] eqn:E; [by destruct (split_char_nonnil c (x :: s))|].
    exists 0, w, 0. split_and!; [done|lia|done]. }
  destruct (IH n) as (k & line & j & Hk & Hj & E). cbn [split_char]. rewrite E. destruct (x =? c)%N; [by exists (S k), line, j|].
  destruct (split_char c s) as [|w ws]; [done|]. destruct k as [|k].
  - injection Hk as ->. exists 0, (x :: line), (S j). split_and!; [done|cbn; lia|done].
  - by exists (S k), line, j.
Qed.

(** C36: the line and the column that a syntax error is reported at. They exist in the
    text: the line is one of its lines and the column at most one past its end; and
    the text before the position is the lines before, then the characters of
    the line before the column. *)
Theorem error_position_spec text position :
  let '(line, column) := getLineAndColumn text position in
  (1 <= line <= N.of_nat (length (split_char 10 text)))%N ∧
  ∃ s, split_char 10 text !! (N.to_nat line - 1) = Some s ∧ (1 <= column <= N.of_nat (length s) + 1)%N ∧
    take (N.to_nat position) text =
    str_join [10%N] (take (N.to_nat line - 1) (split_char 10 text) ++ [take (N.to_nat column - 1) s]).
Proof.
  unfold getLineAndColumn. destruct (split_take 10 text (N.to_nat position)) as (k & s & j & Hk & Hj & E).
  pose proof (lookup_lt_Some _ _ _ Hk) as Hlt.
  assert (length (take k (split_char 10 text)) = k) as Hl by (rewrite length_take; lia).
  rewrite E, length_app, Hl, last_snoc. cbn [length default from_option id]. rewrite length_take_le by done.
  replace (N.to_nat (N.of_nat (k + 1)) - 1) with k by lia. replace (N.to_nat (N.of_nat j + 1) - 1) with j by lia.
  split; [lia|]. exists s. split_and!; [done|lia|lia|]. rewrite <- E. by rewrite join_split.
Qed.

(** Reading an object that was printed with indentation. *)
Lemma pretty_obj_trim o : trim (stringify_pretty (JObj o)) = stringify_pretty (JObj o) ∧ stringify_pretty (JObj o) ≠ [].
Proof.
  unfold stringify_pretty. destruct o as [|kv o]; [by vm_compute|]. cbn [pretty]. rewrite app_assoc. split; [|done].
  change (js "{") with [123%N]. change (js "}") with [125%N]. rewrite <- !app_assoc. cbn [app]. rewrite app_assoc.
  by apply (trim_wrap 123 _ 125).
Qed.

Lemma pretty_arr_trim l : trim (stringify_pretty (JArr l)) = stringify_pretty (JArr l) ∧ stringify_pretty (JArr l) ≠ [].
Proof.
  unfold stringify_pretty. destruct l as [|v l]; [by vm_compute|]. cbn [pretty]. rewrite app_assoc. split; [|done].
  change (js "[") with [91%N]. change (js "]") with [93%N]. rewrite <- !app_assoc. cbn [app]. rewrite app_assoc.
  by apply (trim_wrap 91 _ 93).
Qed.

Lemma safe_parse_text s v d : trim s = s → s ≠ [] → json_parse s = Some v → safeJsonParse s d = v.
Proof.
  intros Ht Hne Hp. unfold safeJsonParse. rewrite Ht, Hp. destruct s; [done|]. reflexivity.
Qed.

Lemma safe_parse_obj o d : json_ok (JObj o) → safeJsonParse (stringify_pretty (JObj o)) d = JObj o.
Proof. intros H. destruct (pretty_obj_trim o). apply safe_parse_text; [done..|]. by apply json_parse_pretty. Qed.

Lemma safe_parse_arr l d : json_ok (JArr l) → safeJsonParse (stringify_pretty (JArr l)) d = JArr l.
Proof. intros H. destruct (pretty_arr_trim l). apply safe_parse_text; [done..|]. by apply json_parse_pretty. Qed.

(** ** A stored map *)

(** A setting that is used as a map without a check; [None] when the text holds
    something else, which the declared type excludes. *)
Definition map_of (text : jstr) : option (list (jstr * json)) :=
  match safeJsonParse text (JObj []) with JObj o => Some o | _ => None end.

Lemma map_of_printed o : json_ok (JObj o) → map_of (stringify_pretty (JObj o)) = Some o.
Proof. intros Hok. unfold map_of. by rewrite safe_parse_obj. Qed.
