(* ===== verification/SettingsForm.v ===== *)
(** * Forms of the settings pages

    Model of the hook [web/default/src/features/system-settings/hooks/use-settings-form.ts]
    that the sections of the settings share.  Options have names with dots, such as
    [billing_setting.mode]; the form library works on nested objects.  The hook expands the
    names, keeps the flat values that were last saved, and on submit hands the fields that
    changed to the section.

    Values are JSON values.  The form library is represented by its current values and by
    the tree of the fields that it marks as changed. *)

From S2P Require Import Prelude JsString JsNumber Json SettingsJson.
From Stdlib Require Import NArith.

(** ** Flat and nested values *)

Abbreviation record := (list (jstr * json)).

(** [parentKey ? `${parentKey}.${key}` : key]. *)
Definition nextKey (parentKey : option jstr) (key : jstr) : jstr :=
  match parentKey with
  | Some p => if nonempty p then p ++ js "." ++ key else key
  | None => key
  end.

Fixpoint flattenValues (values : json) (parentKey : option jstr) (result : record) {struct values} : record :=
  match values with
  | JObj entries =>
    (fix go (l : record) (result : record) : record :=
      match l with
      | [] => result
      | (key, value) :: l =>
        let k := nextKey parentKey key in
        go l (match value with JObj _ => flattenValues value (Some k) result | _ => obj_set result k value end)
      end) entries result
  | _ => match parentKey with Some p => obj_set result p values | None => result end
  end.

(** The path of a name: [path.split('.')]. *)
Definition segments (path : jstr) : list jstr := split_char 46 path.

(** [current] moves into nested objects, which replace anything else on the way. *)
Fixpoint setDeepValue (target : record) (path : list jstr) (value : json) : record :=
  match path with
  | [] => target
  | [segment] => obj_set target segment value
  | segment :: path =>
    let next := match obj_get segment target with Some (JObj o) => o | _ => [] end in
    obj_set target segment (JObj (setDeepValue next path value))
  end.

Fixpoint expandDotPaths (values : json) : json :=
  match values with
  | JObj entries =>
    JObj ((fix go (l : record) (result : record) : record :=
      match l with
      | [] => result
      | (key, value) :: l =>
        go l (if includes (js ".") key then setDeepValue result (segments key) value
              else obj_set result key (match value with JObj _ => expandDotPaths value | _ => value end))
      end) entries [])
  | _ => values
  end.

(** ** Changed fields *)

(** The library's tree of changed fields: [true], a nested tree, or something falsy. *)
Inductive dirty := DTrue | DNode (fields : list (jstr * dirty)) | DFalse.

(** [values[key]] of an object or an array; anything else has no fields. *)
Definition field_value (values : option json) (key : jstr) : option json :=
  match values with
  | Some (JObj o) => obj_get key o
  | Some (JArr l) => obj_get key (own_props (JArr l))
  | _ => None
  end.

(** A field of the tree that the values do not have is undefined. *)
Fixpoint collectDirtyValues (dirtyFields : dirty) (values : option json) (parentKey : option jstr)
    (result : list (jstr * option json)) {struct dirtyFields} : list (jstr * option json) :=
  match dirtyFields with
  | DTrue => match parentKey with Some p => obj_set result p values | None => result end
  | DFalse => result
  | DNode fields =>
    (fix go (l : list (jstr * dirty)) (result : list (jstr * option json)) :=
      match l with
      | [] => result
      | (key, d) :: l =>
        let k := nextKey parentKey key in
        let source := field_value values key in
        go l (match d with
              | DTrue => obj_set result k source
              | DNode _ => collectDirtyValues d source (Some k) result
              | DFalse => result
              end)
      end) fields result
  end.

(** [typeof v]. *)
Definition type_of (v : option json) : N :=
  match v with
  | None => 0
  | Some (JBool _) => 1
  | Some (JNum _) => 2
  | Some (JStr _) => 3
  | Some _ => 4
  end.

(** Identical objects have identical texts, so [a === b] is only decided for the others. *)
Definition defaultCompare (a b : option json) : bool :=
  match a, b with
  | None, None | Some JNull, Some JNull => true
  | Some (JBool x), Some (JBool y) => Bool.eqb x y
  | Some (JNum x), Some (JNum y) => num_eqb x y
  | Some (JStr x), Some (JStr y) => str_eqb x y
  | Some JNull, _ | _, Some JNull => false
  | Some v, Some w =>
    if (type_of a =? 4)%N && (type_of b =? 4)%N then str_eqb (stringify v) (stringify w) else false
  | _, _ => false
  end.

(** ** The hook *)

(** What the references hold: the values last saved, flat and nested, and their text. *)
Record form := {
  baseline : record;
  defaults : json;
  serialized : jstr;
}.

Definition mount_form (defaultValues : json) : form :=
  let expanded := expandDotPaths defaultValues in
  let flat := flattenValues expanded None [] in
  {| baseline := flat; defaults := expanded; serialized := stringify (JObj flat) |}.

(** The effect for new default values: [Some v] resets the values of the form to [v]. *)
Definition defaults_effect (defaultValues : json) (f : form) : form * option json :=
  let expanded := expandDotPaths defaultValues in
  let flat := flattenValues expanded None [] in
  if str_eqb (stringify (JObj flat)) (serialized f) then (f, None)
  else ({| baseline := flat; defaults := expanded; serialized := stringify (JObj flat) |}, Some expanded).

Section submit.
(** [compareValues || defaultCompare]. *)
Variable compare : option json → option json → bool.

Definition changedFields (dirtyFields : dirty) (data : json) (f : form) : list (jstr * option json) :=
  mk_obj (List.filter (λ '(key, value), negb (compare value (obj_get key (baseline f))))
    (collectDirtyValues dirtyFields (Some data) None [])).

(** What is handed to the section, and the state when it succeeds; [None] when there is
    nothing to save. *)
Definition handleSubmit (dirtyFields : dirty) (data : json) (f : form) : option (list (jstr * option json) * form) :=
  match changedFields dirtyFields data f with
  | [] => None
  | changed =>
    let flat := flattenValues data None [] in
    Some (changed, {| baseline := flat; defaults := data; serialized := stringify (JObj flat) |})
  end.

End submit.

(** The values that [handleReset] puts back. *)
Definition handleReset (f : form) : json := defaults f.

(** ** Fields of nested values *)

Definition is_object (v : json) : bool := match v with JObj _ => true | _ => false end.

(** The field at a path: a value that is not an object. *)
Fixpoint leaf_at (o : record) (path : list jstr) : option json :=
  match path with
  | [] => None
  | k :: path =>
    match obj_get k o, path with
    | Some (JObj o'), _ => leaf_at o' path
    | Some v, [] => Some v
    | _, _ => None
    end
  end.

Definition segment_ok (s : jstr) : Prop := s ≠ [] ∧ 46%N ∉ s.

(** Nested values whose names are segments, each once. *)
Inductive tree_ok : json → Prop :=
  | tree_leaf v : is_object v = false → tree_ok v
  | tree_node o : NoDup (map fst o) → Forall (λ kv, segment_ok kv.1) o → Forall (λ kv, tree_ok kv.2) o → tree_ok (JObj o).

Lemma tree_node_inv o : tree_ok (JObj o) → NoDup (map fst o) ∧ Forall (λ kv, segment_ok kv.1) o ∧ Forall (λ kv, tree_ok kv.2) o.
Proof. by inversion 1. Qed.

(** The rest of a path below another. *)
Fixpoint strip (prefix path : list jstr) : option (list jstr) :=
  match prefix, path with
  | [], _ => Some path
  | k :: prefix, k' :: path => if str_eqb k k' then strip prefix path else None
  | _ :: _, [] => None
  end.

Lemma strip_snoc prefix key path :
  strip (prefix ++ [key]) path =
  match strip prefix path with Some (k :: p) => if str_eqb key k then Some p else None | _ => None end.
Proof.
  revert path. induction prefix as [|k prefix IH]; intros path; cbn [app strip].
  - destruct path as [|k p]; [done|]. by destruct (str_eqb key k), p.
  - destruct path as [|k' p]; [done|]. destruct (str_eqb k k'); [apply IH|done].
Qed.

Lemma strip_spec prefix path p : strip prefix path = Some p ↔ path = prefix ++ p.
Proof.
  revert path. induction prefix as [|k prefix IH]; intros path; cbn [app strip]; [naive_solver|].
  destruct path as [|k' path]; [done|]. unfold str_eqb. case_bool_decide as Hk; [subst; rewrite IH; naive_solver|naive_solver].
Qed.

Definition parent_of (prefix : list jstr) : option jstr :=
  match prefix with [] => None | _ => Some (str_join (js ".") prefix) end.

Lemma join_snoc prefix key : prefix ≠ [] → str_join (js ".") (prefix ++ [key]) = str_join (js ".") prefix ++ js "." ++ key.
Proof.
  induction prefix as [|k prefix IH]; [done|]. intros _. destruct prefix as [|k' prefix]; [done|].
  cbn [app]. rewrite !join_cons by done. change (k' :: prefix ++ [key]) with ((k' :: prefix) ++ [key]). rewrite IH, (join_cons _ k) by done. by rewrite <- !app_assoc.
Qed.

Lemma joined_nonempty prefix : prefix ≠ [] → Forall segment_ok prefix → nonempty (str_join (js ".") prefix) = true.
Proof.
  intros Hne Hp. destruct Hp as [|k prefix [Hk _] Hp]; [done|]. destruct prefix as [|k' prefix]; [by destruct k|].
  rewrite join_cons by done. by destruct k.
Qed.

Lemma next_key prefix key :
  Forall segment_ok prefix → nextKey (parent_of prefix) key = str_join (js ".") (prefix ++ [key]).
Proof.
  intros Hp. destruct prefix as [|k prefix]; [done|]. unfold parent_of, nextKey. rewrite joined_nonempty by done. by rewrite join_snoc.
Qed.

Lemma segments_join path : path ≠ [] → Forall segment_ok path → segments (str_join (js ".") path) = path.
Proof. intros Hne Hp. apply split_join; [done|]. eapply Forall_impl; [exact Hp|]. by intros s [_ Hs]. Qed.

Lemma next_key_eq prefix key k :
  Forall segment_ok prefix → segment_ok key →
  nextKey (parent_of prefix) key = k ↔ strip prefix (segments k) = Some [key].
Proof.
  intros Hp Hk. rewrite next_key, strip_spec by done. split.
  - intros <-. apply segments_join; [by destruct prefix|]. apply Forall_app. auto.
  - intros E. rewrite <- E. unfold segments. apply join_split.
Qed.

(** The entries of a record, one after the other. *)
Lemma flatten_step parentKey key value l result :
  flattenValues (JObj ((key, value) :: l)) parentKey result =
  flattenValues (JObj l) parentKey
    (match value with JObj _ => flattenValues value (Some (nextKey parentKey key)) result | _ => obj_set result (nextKey parentKey key) value end).
Proof. reflexivity. Qed.

(** The field below an entry. *)
Definition leaf_in (v : json) (p : list jstr) : option json :=
  match v, p with JObj o, _ => leaf_at o p | v, [] => Some v | _, _ => None end.

Lemma leaf_at_cons key value l k p :
  leaf_at ((key, value) :: l) (k :: p) = if str_eqb key k then leaf_in value p else leaf_at l (k :: p).
Proof. cbn [leaf_at obj_get]. destruct (str_eqb key k); [|done]. by destruct value. Qed.

Lemma leaf_at_none l k p : k ∉ map fst l → leaf_at l (k :: p) = None.
Proof. intros Hk. cbn [leaf_at]. by rewrite obj_get_none. Qed.

Lemma set_leaf_get prefix key value result k :
  Forall segment_ok prefix → segment_ok key → is_object value = false →
  obj_get k (obj_set result (nextKey (parent_of prefix) key) value) =
  match p ← strip (prefix ++ [key]) (segments k); leaf_in value p with Some w => Some w | None => obj_get k result end.
Proof.
  intros Hp Hk Hv. rewrite obj_get_set, strip_snoc. destruct (str_eqb (nextKey _ key) k) eqn:E.
  - apply bool_decide_eq_true, (next_key_eq prefix key k Hp Hk) in E. rewrite E.
    unfold str_eqb. rewrite bool_decide_eq_true_2 by done. cbn [mbind option_bind]. by destruct value.
  - apply bool_decide_eq_false in E. rewrite (next_key_eq prefix key k Hp Hk) in E.
    destruct (strip prefix (segments k)) as [[|k0 [|k1 p]]|]; cbn [mbind option_bind]; try done; unfold str_eqb; case_bool_decide; try done.
    + congruence.
    + cbn [mbind option_bind]. by destruct value.
Qed.

(** A flat record has the fields of the nested one under their joined paths. *)
Lemma flatten_get v prefix result k :
  tree_ok v → is_object v = true → Forall segment_ok prefix →
  obj_get k (flattenValues v (parent_of prefix) result) =
  match p ← strip prefix (segments k); leaf_at (own_props v) p with Some w => Some w | None => obj_get k result end.
Proof.
  revert prefix result. induction v as [|b|x|s|l _|l IH] using json_ind'; try done.
  intros prefix result (Hn & Hs & Ht)%tree_node_inv _ Hp. revert result. cbn [own_props].
  induction l as [|[key value] l IHl]; intros result.
  { cbn [flattenValues]. destruct (strip _ _) as [[|]|]; done. }
  apply Forall_cons in IH as [IHv IH], Hs as [Hk Hs], Ht as [Ht Htl]. apply NoDup_cons in Hn as [Hnot Hn]. cbn [fst snd] in *.
  rewrite flatten_step, (IHl IH Hn Hs Htl). clear IHl.
  assert (obj_get k (match value with JObj _ => flattenValues value (Some (nextKey (parent_of prefix) key)) result | _ => obj_set result (nextKey (parent_of prefix) key) value end) =
    match p ← strip (prefix ++ [key]) (segments k); leaf_in value p with Some w => Some w | None => obj_get k result end) as ->.
  { destruct value as [|b|x|s|a|o]; try (by apply set_leaf_get). rewrite next_key by done.
    assert (Forall segment_ok (prefix ++ [key])) as Hp' by (apply Forall_app; auto).
    replace (Some (str_join _ (prefix ++ [key]))) with (parent_of (prefix ++ [key])) by (unfold parent_of; by destruct (prefix ++ [key]) eqn:E; [destruct prefix|]).
    by rewrite (IHv (prefix ++ [key]) result Ht eq_refl Hp'). }
  rewrite strip_snoc. destruct (strip prefix (segments k)) as [[|k0 p]|]; cbn [mbind option_bind]; [done| |done].
  rewrite leaf_at_cons. destruct (str_eqb key k0) eqn:E; [|cbn [mbind option_bind]; by destruct (leaf_at l _)].
  apply bool_decide_eq_true in E as ->. by rewrite leaf_at_none.
Qed.

Lemma flatten_leaf o k : tree_ok (JObj o) → obj_get k (flattenValues (JObj o) None []) = leaf_at o (segments k).
Proof. intros Ho. change None with (parent_of []). rewrite flatten_get by done. cbn [strip mbind option_bind own_props obj_get]. by destruct (leaf_at o _). Qed.

(** ** Expanding names *)

(** One of two paths continues the other. *)
Definition comparable (p q : list jstr) : bool :=
  match strip p q, strip q p with None, None => false | _, _ => true end.

Lemma comparable_cons a b p q : comparable (a :: p) (b :: q) = str_eqb a b && comparable p q.
Proof.
  unfold comparable. cbn [strip]. unfold str_eqb. destruct (decide (a = b)) as [->|Hab].
  - by rewrite !bool_decide_eq_true_2.
  - by rewrite !bool_decide_eq_false_2 by congruence.
Qed.

Lemma comparable_nil_l q : comparable [] q = true.
Proof. done. Qed.

Lemma comparable_nil_r p : comparable p [] = true.
Proof. by destruct p. Qed.

Lemma leaf_at_nil q : leaf_at [] q = None.
Proof. by destruct q. Qed.

Lemma set_deep_leaf p v o q :
  p ≠ [] → is_object v = false →
  leaf_at (setDeepValue o p v) q = if bool_decide (q = p) then Some v else if comparable p q then None else leaf_at o q.
Proof.
  intros Hp Hv. revert o q. induction p as [|k p IH]; [done|]. intros o q. destruct q as [|k' q].
  { by rewrite bool_decide_eq_false_2, comparable_nil_r by done. }
  rewrite comparable_cons. destruct p as [|k2 p].
  - cbn [setDeepValue leaf_at]. rewrite obj_get_set, comparable_nil_l, andb_true_r. unfold str_eqb. destruct (decide (k = k')) as [->|Hk].
    + rewrite (bool_decide_eq_true_2 (k' = k')) by done. destruct q; [by rewrite bool_decide_eq_true_2; destruct v|].
      rewrite bool_decide_eq_false_2 by done. by destruct v.
    + rewrite !bool_decide_eq_false_2 by congruence. done.
  - change (setDeepValue o (k :: k2 :: p) v) with
      (obj_set o k (JObj (setDeepValue (match obj_get k o with Some (JObj o) => o | _ => [] end) (k2 :: p) v))).
    cbn [leaf_at]. rewrite obj_get_set. unfold str_eqb at 1 2. destruct (decide (k = k')) as [->|Hk].
    + rewrite (bool_decide_eq_true_2 (k' = k')) by done. rewrite IH by done. cbn [andb].
      destruct (decide (q = k2 :: p)) as [->|Hq]; [by rewrite !bool_decide_eq_true_2|].
      rewrite !bool_decide_eq_false_2 by congruence. destruct (comparable (k2 :: p) q) eqn:Ec; [done|].
      destruct (obj_get k' o) as [[]|]; rewrite ?leaf_at_nil; try done; by destruct q.
    + rewrite !bool_decide_eq_false_2 by congruence. done.
Qed.

Lemma set_tree_ok o k v : tree_ok (JObj o) → segment_ok k → tree_ok v → tree_ok (JObj (obj_set o k v)).
Proof.
  intros (Hn & Hs & Ht)%tree_node_inv Hk Hv. constructor; [by apply obj_set_nodup|..]; by apply obj_set_Forall.
Qed.

Lemma set_deep_ok p v o : Forall segment_ok p → is_object v = false → tree_ok (JObj o) → tree_ok (JObj (setDeepValue o p v)).
Proof.
  intros Hp Hv. revert o. induction Hp as [|k p Hk Hp IH]; intros o Ho; [done|].
  destruct p as [|k2 p]; [apply set_tree_ok; [done..|by apply tree_leaf]|].
  change (setDeepValue o (k :: k2 :: p) v) with
    (obj_set o k (JObj (setDeepValue (match obj_get k o with Some (JObj o) => o | _ => [] end) (k2 :: p) v))).
  apply set_tree_ok; [done..|]. apply IH. apply tree_node_inv in Ho as (_ & _ & Ht).
  destruct (obj_get k o) as [[| | | | |o']|] eqn:E; try (by repeat constructor).
  apply obj_get_elem in E. rewrite Forall_forall in Ht. exact (Ht _ E).
Qed.

(** The names of a flat record of options: segments, none of them below another. *)
Record options_ok (d : record) : Prop := {
  options_nodup : NoDup (map fst d);
  options_segments : Forall (λ kv, Forall segment_ok (segments kv.1)) d;
  options_leaves : Forall (λ kv, is_object kv.2 = false) d;
  options_apart k k' : k ∈ map fst d → k' ∈ map fst d → k ≠ k' → comparable (segments k) (segments k') = false;
}.

Definition put_option (o : record) (kv : jstr * json) : record := setDeepValue o (segments kv.1) kv.2.

Lemma includes_dot k : includes (js ".") k = false → segments k = [k].
Proof.
  intros H. apply split_char_none. intros (a & b & ->)%list_elem_of_split.
  assert (includes (js ".") (a ++ 46%N :: b) = true) as Ht; [|congruence]. apply includes_spec. by exists a, b.
Qed.

Lemma segments_inj k k' : segments k = segments k' → k = k'.
Proof. intros E. rewrite <- (join_split 46 k), <- (join_split 46 k'). unfold segments in E. by rewrite E. Qed.

Lemma expand_options d : Forall (λ kv, is_object kv.2 = false) d → expandDotPaths (JObj d) = JObj (foldl put_option [] d).
Proof.
  intros Hd. cbn [expandDotPaths]. f_equal. generalize (@nil (jstr * json)). induction Hd as [|[k v] d Hv Hd IH]; intros o; [done|].
  cbn [foldl fst snd] in *. rewrite IH. f_equal. unfold put_option. cbn [fst snd]. destruct (includes (js ".") k) eqn:E; [done|].
  rewrite includes_dot by done. cbn [setDeepValue]. by destruct v.
Qed.

Lemma obj_get_snoc_new {A} k k' (v : A) l : k ∉ map fst l → obj_get k' (l ++ [(k, v)]) = if str_eqb k k' then Some v else obj_get k' l.
Proof.
  induction l as [|[j w] l IH]; intros Hk; cbn [app obj_get map fst] in *; [done|].
  apply not_elem_of_cons in Hk as [Hj Hk]. rewrite IH by done. unfold str_eqb. repeat case_bool_decide; congruence.
Qed.

Lemma options_prefix d kv : options_ok (d ++ [kv]) → options_ok d ∧ kv.1 ∉ map fst d.
Proof.
  intros [Hn Hs Hl Ha]. rewrite map_app in Hn, Ha. apply NoDup_app in Hn as (Hn & Hd & _). apply Forall_app in Hs as [Hs _], Hl as [Hl _].
  split; [split; try done|].
  - intros k k' Hk Hk'. apply Ha; set_solver.
  - intros Hin. apply (Hd _ Hin). by left.
Qed.

Lemma put_options_get d : options_ok d → tree_ok (JObj (foldl put_option [] d)) ∧ ∀ k, leaf_at (foldl put_option [] d) (segments k) = obj_get k d.
Proof.
  induction d as [|[k v] d IH] using rev_ind; intros Hd.
  { split; [by apply tree_node; constructor|]. intros k. apply leaf_at_nil. }
  destruct (options_prefix _ _ Hd) as [Hd' Hk]. destruct (IH Hd') as [Ht Hg]. destruct Hd as [_ Hs Hl Ha].
  apply Forall_app in Hs as [_ [Hs _]%Forall_cons], Hl as [_ [Hl _]%Forall_cons]. cbn [fst snd] in *.
  rewrite foldl_app. cbn [foldl]. unfold put_option at 1 3. cbn [fst snd]. split; [by apply set_deep_ok|].
  intros k'. rewrite set_deep_leaf, obj_get_snoc_new by (done || apply split_char_nonnil). unfold str_eqb.
  destruct (decide (k = k')) as [<-|Hne]; [by rewrite !bool_decide_eq_true_2|].
  rewrite !bool_decide_eq_false_2 by (try (intros ?%segments_inj); congruence). rewrite Hg.
  destruct (comparable (segments k) (segments k')) eqn:Ec; [|done]. symmetry. apply obj_get_none. intros Hin.
  rewrite (Ha k k') in Ec; [done|..|done]; rewrite map_app, elem_of_app; [right; by left|by left].
Qed.

(** Expanding the names of options and flattening the result gives the options back. *)
Lemma flatten_expand d k :
  options_ok d → ∃ o, expandDotPaths (JObj d) = JObj o ∧ tree_ok (JObj o) ∧ obj_get k (flattenValues (JObj o) None []) = obj_get k d.
Proof.
  intros Hd. destruct (put_options_get d Hd) as [Ht Hg]. exists (foldl put_option [] d).
  split_and!; [apply expand_options, Hd|done|]. by rewrite flatten_leaf, Hg.
Qed.

(** ** Marked fields *)

Section dirty_ind.
Variable P : dirty → Prop.
Hypothesis HTrue : P DTrue.
Hypothesis HFalse : P DFalse.
Hypothesis HNode : ∀ l, Forall (λ kd, P kd.2) l → P (DNode l).

Fixpoint dirty_ind' (d : dirty) : P d :=
  match d with
  | DTrue => HTrue
  | DFalse => HFalse
  | DNode l => HNode l ((fix go l : Forall (λ kd, P kd.2) l :=
      match l with [] => Forall_nil_2 _ | kd :: l => Forall_cons_2 _ _ _ (dirty_ind' kd.2) (go l) end) l)
  end.
End dirty_ind.

Inductive dirty_ok : dirty → Prop :=
  | dirty_true : dirty_ok DTrue
  | dirty_false : dirty_ok DFalse
  | dirty_node l : NoDup (map fst l) → Forall (λ kd, segment_ok kd.1) l → Forall (λ kd, dirty_ok kd.2) l → dirty_ok (DNode l).

Lemma dirty_node_inv l : dirty_ok (DNode l) → NoDup (map fst l) ∧ Forall (λ kd, segment_ok kd.1) l ∧ Forall (λ kd, dirty_ok kd.2) l.
Proof. by inversion 1. Qed.

Fixpoint marked (d : dirty) (path : list jstr) : bool :=
  match path with
  | [] => match d with DTrue => true | _ => false end
  | k :: path =>
    match d with
    | DNode l => match obj_get k l with Some d' => marked d' path | None => false end
    | _ => false
    end
  end.

Definition value_at (values : option json) (path : list jstr) : option json := foldl field_value values path.

Lemma collect_step parentKey key d l values result :
  collectDirtyValues (DNode ((key, d) :: l)) values parentKey result =
  collectDirtyValues (DNode l) values parentKey
    (match d with
     | DTrue => obj_set result (nextKey parentKey key) (field_value values key)
     | DNode _ => collectDirtyValues d (field_value values key) (Some (nextKey parentKey key)) result
     | DFalse => result
     end).
Proof. reflexivity. Qed.

Lemma collect_get d values prefix result k :
  dirty_ok d → d ≠ DTrue → Forall segment_ok prefix →
  obj_get k (collectDirtyValues d values (parent_of prefix) result) =
  match strip prefix (segments k) with
  | Some p => if marked d p then Some (value_at values p) else obj_get k result
  | None => obj_get k result
  end.
Proof.
  revert values prefix result. induction d as [| |l IH] using dirty_ind'; try done.
  { intros values prefix result _ _ _. cbn [collectDirtyValues]. destruct (strip _ _) as [[|]|]; done. }
  intros values prefix result (Hn & Hs & Ht)%dirty_node_inv _ Hp. revert result.
  induction l as [|[key d] l IHl]; intros result.
  { cbn [collectDirtyValues]. destruct (strip _ _) as [[|]|]; done. }
  apply Forall_cons in IH as [IHd IH], Hs as [Hk Hs], Ht as [Ht Htl]. apply NoDup_cons in Hn as [Hnot Hn]. cbn [fst snd] in *.
  rewrite collect_step, (IHl IH Hn Hs Htl). clear IHl.
  assert (obj_get k (match d with
     | DTrue => obj_set result (nextKey (parent_of prefix) key) (field_value values key)
     | DNode _ => collectDirtyValues d (field_value values key) (Some (nextKey (parent_of prefix) key)) result
     | DFalse => result
     end) = match strip (prefix ++ [key]) (segments k) with
            | Some p => if marked d p then Some (value_at (field_value values key) p) else obj_get k result
            | None => obj_get k result
            end) as ->.
  { destruct d as [|l'|].
    - rewrite obj_get_set, strip_snoc. destruct (str_eqb (nextKey _ key) k) eqn:E.
      + apply bool_decide_eq_true, (next_key_eq prefix key k Hp Hk) in E. rewrite E. unfold str_eqb. by rewrite bool_decide_eq_true_2.
      + apply bool_decide_eq_false in E. rewrite (next_key_eq prefix key k Hp Hk) in E.
        destruct (strip prefix (segments k)) as [[|k0 [|k1 p]]|]; try done; unfold str_eqb; case_bool_decide; try done. congruence.
    - rewrite next_key by done. assert (Forall segment_ok (prefix ++ [key])) as Hp' by (apply Forall_app; auto).
      replace (Some (str_join _ (prefix ++ [key]))) with (parent_of (prefix ++ [key])) by (unfold parent_of; by destruct (prefix ++ [key]) eqn:E; [destruct prefix|]).
      by rewrite (IHd _ (prefix ++ [key]) result Ht).
    - destruct (strip _ _) as [[|]|]; done. }
  rewrite strip_snoc. destruct (strip prefix (segments k)) as [[|k0 p]|]; [done| |done]. cbn [marked obj_get].
  destruct (str_eqb key k0) eqn:E; [|done]. apply bool_decide_eq_true in E as ->. by rewrite obj_get_none.
Qed.

Lemma leaf_value o p v : leaf_at o p = Some v → value_at (Some (JObj o)) p = Some v.
Proof.
  revert o. induction p as [|k p IH]; intros o; [done|]. cbn [leaf_at value_at foldl field_value].
  destruct (obj_get k o) as [[]|]; try done; [destruct p; [by intros [= <-]|done]..|]. apply IH.
Qed.

Lemma collect_ordered d values prefix result : ordered result → ordered (collectDirtyValues d values prefix result).
Proof.
  revert values prefix result. induction d as [| |l IH] using dirty_ind'; intros values prefix result Hr; cbn [collectDirtyValues].
  - destruct prefix; [by apply obj_set_ordered|done].
  - done.
  - revert result Hr. induction IH as [|[key d] l IHd IH IHl]; intros result Hr; [done|]. apply IHl.
    destruct d; [by apply obj_set_ordered|by apply IHd|done].
Qed.

(** The fields that are handed over are the marked ones whose value is new. *)
Lemma changed_get compare d o f k w :
  dirty_ok d → d ≠ DTrue →
  obj_get k (changedFields compare d (JObj o) f) = Some w ↔
  marked d (segments k) = true ∧ w = value_at (Some (JObj o)) (segments k) ∧ compare w (obj_get k (baseline f)) = false.
Proof.
  intros Hd Ht. unfold changedFields. pose proof (collect_ordered d (Some (JObj o)) None [] ltac:(split; constructor)) as Ho.
  pose proof (λ k, collect_get d (Some (JObj o)) [] [] k Hd Ht (Forall_nil_2 _)) as Hg. cbn [parent_of strip obj_get] in Hg.
  set (l := collectDirtyValues d (Some (JObj o)) None []) in *.
  set (p := λ '(key, value), negb (compare value (obj_get key (baseline f)))).
  assert (sublist (List.filter p l) l) as Hsub.
  { clear. induction l as [|e l IH]; [done|]. cbn [List.filter]. destruct (p e); by constructor. }
  pose proof (ordered_sublist _ _ Hsub Ho) as Hof. rewrite mk_obj_ordered by done. split.
  - intros Hk%obj_get_elem. apply list_elem_of_In, filter_In in Hk as [Hin Hp]. apply list_elem_of_In, elem_obj_get in Hin; [|by destruct Ho].
    rewrite Hg in Hin. destruct (marked d (segments k)); [|done]. injection Hin as <-. split_and!; [done..|]. by apply negb_true_iff.
  - intros (Hm & -> & Hc). apply elem_obj_get; [by destruct Hof|]. apply list_elem_of_In, filter_In. split; [|by apply negb_true_iff].
    apply list_elem_of_In, obj_get_elem. by rewrite Hg, Hm.
Qed.

(** ** Sessions of a form *)

Section session.
Variable compare : option json → option json → bool.

(** Options arrive from the server, and values are submitted with success. *)
Inductive session : form → Prop :=
  | session_mount d : options_ok d → session (mount_form (JObj d))
  | session_defaults d f : options_ok d → session f → session (defaults_effect (JObj d) f).1
  | session_submit dirtyFields data changed f f' :
      session f → tree_ok (JObj data) → handleSubmit compare dirtyFields (JObj data) f = Some (changed, f') → session f'.

(** The saved values, flat and nested, are the same. *)
Definition form_ok (f : form) : Prop :=
  ∃ o, defaults f = JObj o ∧ tree_ok (JObj o) ∧ (∀ k, obj_get k (baseline f) = leaf_at o (segments k)) ∧
    serialized f = stringify (JObj (baseline f)).

Lemma mount_ok d : options_ok d → form_ok (mount_form (JObj d)).
Proof.
  intros Hd. destruct (put_options_get d Hd) as [Ht Hg]. exists (foldl put_option [] d).
  unfold mount_form. rewrite expand_options by apply Hd. cbn [defaults baseline serialized]. split_and!; [done..| |done].
  intros k. by apply flatten_leaf.
Qed.

Lemma session_ok f : session f → form_ok f.
Proof.
  induction 1 as [d Hd|d f Hd _ IH|dirtyFields data changed f f' _ IH Ht Hs].
  - by apply mount_ok.
  - unfold defaults_effect. destruct (str_eqb _ _); [done|]. by apply mount_ok.
  - unfold handleSubmit in Hs. destruct (changedFields _ _ _ _); [done|]. injection Hs as _ <-. exists data. cbn [defaults baseline serialized].
    split_and!; [done..| |done]. intros k. by apply flatten_leaf.
Qed.

(** A section writes each of the fields it is handed. *)
Definition store_changes (changed : list (jstr * option json)) (server : record) : record :=
  foldl (λ s '(k, w), match w with Some v => obj_set s k v | None => s end) server changed.

Lemma store_changes_get changed server k :
  NoDup (map fst changed) →
  obj_get k (store_changes changed server) = match obj_get k changed with Some (Some v) => Some v | _ => obj_get k server end.
Proof.
  unfold store_changes. revert server. induction changed as [|[j w] l IH]; intros server Hn; [done|].
  apply NoDup_cons in Hn as [Hj Hn]. cbn [foldl obj_get fst] in *. rewrite IH by done. destruct (str_eqb j k) eqn:E.
  - apply bool_decide_eq_true in E as ->. rewrite (obj_get_none k l) by done. destruct w; [|done].
    rewrite obj_get_set. unfold str_eqb. by rewrite bool_decide_eq_true_2.
  - destruct (obj_get k l) as [[v|]|]; [done|..]; (destruct w; [rewrite obj_get_set, E|]; done).
Qed.

(** What the form library marks: fields of the form, and at least those whose value is no
    longer the saved one. *)
Record marks_changes (dirtyFields : dirty) (saved data : record) : Prop := {
  marks_ok : dirty_ok dirtyFields;
  marks_node : dirtyFields ≠ DTrue;
  marks_fields p : marked dirtyFields p = true → leaf_at data p ≠ None;
  marks_all p v : leaf_at data p = Some v → compare (Some v) (leaf_at saved p) = false → marked dirtyFields p = true;
}.

Lemma changed_nodup dirtyFields data f : NoDup (map fst (changedFields compare dirtyFields data f)).
Proof. unfold changedFields. apply (mk_obj_is_ordered _). Qed.

(** C12: what a settings form hands to its section, in every state of the form: exactly the fields
    whose value differs from the saved one, under the names of the options. When the
    section writes them, the server has every value of the form, up to
    the comparison, and keeps all other options; afterwards the form counts
    these values as saved, and submitting them again hands over nothing. *)
Theorem form_saves_changes f o dirtyFields data server :
  session f → defaults f = JObj o → tree_ok (JObj data) → marks_changes dirtyFields o data →
  (∀ p, leaf_at data p ≠ None → leaf_at o p ≠ None) → (∀ k v, leaf_at o (segments k) = Some v → obj_get k server = Some v) →
  let changed := changedFields compare dirtyFields (JObj data) f in
  (∀ k w, obj_get k changed = Some w ↔
    ∃ v, w = Some v ∧ leaf_at data (segments k) = Some v ∧ compare (Some v) (leaf_at o (segments k)) = false) ∧
  (∀ k v, leaf_at data (segments k) = Some v →
    obj_get k (store_changes changed server) = Some v ∨ compare (Some v) (obj_get k (store_changes changed server)) = true) ∧
  (∀ k, leaf_at data (segments k) = None → obj_get k (store_changes changed server) = obj_get k server) ∧
  (∀ f', handleSubmit compare dirtyFields (JObj data) f = Some (changed, f') →
    (∀ k, obj_get k (baseline f') = leaf_at data (segments k)) ∧ handleReset f' = JObj data ∧
    ((∀ p v, leaf_at data p = Some v → compare (Some v) (Some v) = true) →
      ∀ marks, dirty_ok marks → marks ≠ DTrue → (∀ p, marked marks p = true → leaf_at data p ≠ None) →
      handleSubmit compare marks (JObj data) f' = None)).
Proof.
  intros (o' & Ho' & _ & Hb & _)%session_ok Ho Ht [Hd Hnode Hfields Hall] Hshape Hserver changed. assert (o' = o) as -> by congruence.
  assert (∀ k w, obj_get k changed = Some w ↔
    ∃ v, w = Some v ∧ leaf_at data (segments k) = Some v ∧ compare (Some v) (leaf_at o (segments k)) = false) as Hch.
  { intros k w. unfold changed. rewrite changed_get, Hb by done. split.
    - intros (Hm & -> & Hc). apply Hfields in Hm. destruct (leaf_at data (segments k)) as [v|] eqn:E; [|done].
      rewrite (leaf_value _ _ _ E) in *. by exists v.
    - intros (v & -> & Hv & Hc). rewrite (leaf_value _ _ _ Hv). split_and!; [by eapply Hall|done..]. }
  pose proof (store_changes_get changed server) as Hst. split_and!.
  - exact Hch.
  - intros k v Hv. rewrite Hst by apply changed_nodup. destruct (obj_get k changed) as [w|] eqn:E.
    + apply Hch in E as (v' & -> & Hv' & _). left. congruence.
    + right. destruct (leaf_at o (segments k)) as [u|] eqn:Eu; [|by destruct (Hshape (segments k)); [congruence|]].
      rewrite (Hserver _ _ Eu). apply not_false_iff_true. intros Hc. assert (obj_get k changed = Some (Some v)); [|congruence].
      apply Hch. exists v. by rewrite Eu.
  - intros k Hk. rewrite Hst by apply changed_nodup. destruct (obj_get k changed) as [w|] eqn:E; [|done].
    apply Hch in E as (v' & -> & Hv' & _). congruence.
  - intros f' Hs. unfold handleSubmit in Hs. fold changed in Hs. destruct changed as [|e l] eqn:Ec; [done|]. injection Hs as <-.
    cbn [baseline defaults handleReset]. assert (∀ k, obj_get k (flattenValues (JObj data) None []) = leaf_at data (segments k)) as Hf
      by (intros k; by apply flatten_leaf). split_and!; [done..|]. intros Hrefl marks Hm1 Hm2 Hm3. unfold handleSubmit.
    destruct (changedFields compare marks _ _) as [|[k w] l'] eqn:Em; [done|]. exfalso.
    match type of Em with changedFields _ _ _ ?g = _ => assert (obj_get k (changedFields compare marks (JObj data) g) = Some w) as Hg end.
    { rewrite Em. cbn [obj_get]. unfold str_eqb. by rewrite bool_decide_eq_true_2. }
    apply changed_get in Hg as (Hk & -> & Hc); [|done..]. cbn [baseline] in Hc. rewrite Hf in Hc. apply Hm3 in Hk.
    destruct (leaf_at data (segments k)) as [v|] eqn:E; [|done]. rewrite (leaf_value _ _ _ E), (Hrefl _ _ E) in Hc. done.
Qed.
End session.

(** ** Opening a form *)

(** The saved values of a form that was just opened are the options of the server. *)
Theorem form_opens_options d k : options_ok d → obj_get k (baseline (mount_form (JObj d))) = obj_get k d.
Proof.
  intros Hd. destruct (flatten_expand d k Hd) as (o & He & _ & Hg). unfold mount_form. cbn [baseline]. by rewrite He.
Qed.

(** New options replace what was typed, whatever it is: the form is reset to them. *)
Theorem new_options_reset d f :
  serialized f ≠ stringify (JObj (flattenValues (expandDotPaths (JObj d)) None [])) →
  (defaults_effect (JObj d) f).2 = Some (expandDotPaths (JObj d)).
Proof. intros Hne. unfold defaults_effect, str_eqb. rewrite bool_decide_eq_false_2; [done|]. congruence. Qed.

(** Options that print as the saved ones leave the form alone. *)
Theorem same_options_keep d f :
  serialized f = stringify (JObj (flattenValues (expandDotPaths (JObj d)) None [])) → defaults_effect (JObj d) f = (f, None).
Proof. intros E. unfold defaults_effect, str_eqb. by rewrite bool_decide_eq_true_2. Qed.

(** The comparison accepts equal values, except for the number that differs from itself. *)
Lemma default_compare_refl v : (∀ x, v = JNum x → num_eqb x x = true) → defaultCompare (Some v) (Some v) = true.
Proof.
  intros Hx. destruct v as [|b|x|s|l|o]; cbn [defaultCompare type_of].
  - done.
  - apply eqb_reflx.
  - by apply Hx.
  - unfold str_eqb. by apply bool_decide_eq_true_2.
  - cbn [andb N.eqb Pos.eqb]. unfold str_eqb. by apply bool_decide_eq_true_2.
  - cbn [andb N.eqb Pos.eqb]. unfold str_eqb. by apply bool_decide_eq_true_2.
Qed.

(** ** Example *)

Definition demo_options : record :=
  [(js "Notice", JStr (js "hi")); (js "billing_setting.mode", JStr (js "a")); (js "billing_setting.limit", JNum (num_of_Z 3))].

Definition demo_data : record :=
  [(js "Notice", JStr (js "hi")); (js "billing_setting", JObj [(js "mode", JStr (js "b")); (js "limit", JNum (num_of_Z 3))])].

(** The values as the form was opened with them. *)
Definition demo_saved : record :=
  [(js "Notice", JStr (js "hi")); (js "billing_setting", JObj [(js "mode", JStr (js "a")); (js "limit", JNum (num_of_Z 3))])].

Definition demo_marks : dirty := DNode [(js "billing_setting", DNode [(js "mode", DTrue)])].

Example demo_changed :
  changedFields defaultCompare demo_marks (JObj demo_data) (mount_form (JObj demo_options)) = [(js "billing_setting.mode", Some (JStr (js "b")))].
Proof. vm_compute. reflexivity. Qed.

(** The conditions can be evaluated. *)
Definition segment_okb (s : jstr) : bool := nonempty s && negb (existsb (N.eqb 46) s).

Lemma segment_b s : segment_okb s = true → segment_ok s.
Proof.
  intros [H1 H2]%andb_true_iff. split; [by intros ->|]. intros Hin. apply negb_true_iff in H2.
  assert (existsb (N.eqb 46) s = true) as Ht; [|congruence]. apply existsb_exists. exists 46%N. by rewrite <- list_elem_of_In, N.eqb_refl.
Qed.

Definition options_okb (d : record) : bool :=
  bool_decide (NoDup (map fst d)) && forallb (λ kv, forallb segment_okb (segments kv.1)) d &&
  forallb (λ kv, negb (is_object kv.2)) d &&
  forallb (λ k, forallb (λ k', str_eqb k k' || negb (comparable (segments k) (segments k'))) (map fst d)) (map fst d).

Lemma options_okb_ok d : options_okb d = true → options_ok d.
Proof.
  intros [[[H1 H2]%andb_true_iff H3]%andb_true_iff H4]%andb_true_iff. apply bool_decide_eq_true in H1.
  apply forallb_Forall in H2. apply forallb_Forall in H3. apply forallb_Forall in H4. split; [done|..].
  - eapply Forall_impl; [exact H2|]. cbn beta. intros kv Hkv. rewrite forallb_Forall in Hkv.
    eapply Forall_impl; [exact Hkv|]. intros s. apply segment_b.
  - eapply Forall_impl; [exact H3|]. cbn beta. intros kv. by apply negb_true_iff.
  - intros k k' Hk Hk' Hne. rewrite Forall_forall in H4. specialize (H4 k Hk). cbn beta in H4. rewrite forallb_Forall, Forall_forall in H4.
    specialize (H4 k' Hk'). cbn beta in H4. apply orb_true_iff in H4 as [H4|H4]; [by apply bool_decide_eq_true in H4|by apply negb_true_iff].
Qed.

Fixpoint tree_okb (v : json) : bool :=
  match v with
  | JObj o => bool_decide (NoDup (map fst o)) && forallb (λ kv, segment_okb kv.1 && tree_okb kv.2) o
  | _ => true
  end.

Lemma tree_okb_ok v : tree_okb v = true → tree_ok v.
Proof.
  induction v as [|b|x|s|l _|l IH] using json_ind'; try (by constructor). cbn [tree_okb]. intros [H1 H2]%andb_true_iff.
  apply bool_decide_eq_true in H1. rewrite forallb_Forall in H2. apply tree_node; [done|..]; rewrite Forall_forall in *; intros kv Hkv;
    specialize (H2 kv Hkv); apply andb_true_iff in H2 as [Hs Ht]; [by apply segment_b|by apply IH].
Qed.

Lemma demo_marks_ok : marks_changes defaultCompare demo_marks demo_saved demo_data.
Proof.
  assert (∀ p, marked demo_marks p = true ↔ p = [js "billing_setting"; js "mode"]) as Hm.
  { intros p. split; [|by intros ->]. destruct p as [|a p]; [done|]. cbn [marked demo_marks obj_get].
    destruct (str_eqb _ a) eqn:Ea; [|done]. apply bool_decide_eq_true in Ea as <-. destruct p as [|b p]; [done|]. cbn [marked obj_get].
    destruct (str_eqb _ b) eqn:Eb; [|done]. apply bool_decide_eq_true in Eb as <-. by destruct p. }
  split.
  - apply dirty_node; [apply NoDup_singleton|repeat constructor; apply segment_b; vm_compute; reflexivity|].
    constructor; [|constructor]. apply dirty_node; [apply NoDup_singleton|repeat constructor; apply segment_b; vm_compute; reflexivity|].
    constructor; [constructor|constructor].
  - done.
  - intros p ->%Hm. done.
  - intros p v Hv Hc. apply Hm. destruct p as [|a p]; [done|]. cbn [leaf_at demo_data obj_get] in Hv.
    destruct (str_eqb (js "Notice") a) eqn:Ea.
    { apply bool_decide_eq_true in Ea as <-. destruct p; [|done]. injection Hv as <-. vm_compute in Hc. done. }
    destruct (str_eqb (js "billing_setting") a) eqn:Eb; [|done]. apply bool_decide_eq_true in Eb as <-.
    destruct p as [|b p]; [done|]. cbn [leaf_at obj_get] in Hv. destruct (str_eqb (js "mode") b) eqn:Em.
    { apply bool_decide_eq_true in Em as <-. destruct p; [done|discriminate]. }
    destruct (str_eqb (js "limit") b) eqn:El; [|done]. apply bool_decide_eq_true in El as <-. destruct p; [|done].
    injection Hv as <-. vm_compute in Hc. done.
Qed.

Lemma demo_shape p : leaf_at demo_data p ≠ None → leaf_at demo_saved p ≠ None.
Proof.
  destruct p as [|a p]; [done|]. cbn [leaf_at demo_data demo_saved obj_get]. destruct (str_eqb (js "Notice") a); [done|].
  destruct (str_eqb (js "billing_setting") a); [|done]. destruct p as [|b p]; [done|]. cbn [leaf_at obj_get].
  destruct (str_eqb (js "mode") b); [by destruct p|]. done.
Qed.

Lemma demo_server k v : leaf_at demo_saved (segments k) = Some v → obj_get k demo_options = Some v.
Proof.
  intros Hv. destruct (put_options_get demo_options) as [_ Hg]; [apply options_okb_ok; vm_compute; reflexivity|].
  rewrite <- Hg, <- Hv. reflexivity.
Qed.

Lemma form_saves_changes_witness :
  let changed := changedFields defaultCompare demo_marks (JObj demo_data) (mount_form (JObj demo_options)) in
  obj_get (js "Notice") (store_changes changed demo_options) = Some (JStr (js "hi")) ∨
  defaultCompare (Some (JStr (js "hi"))) (obj_get (js "Notice") (store_changes changed demo_options)) = true.
Proof.
  assert (session defaultCompare (mount_form (JObj demo_options))) as Hs.
  { apply session_mount, options_okb_ok. vm_compute. reflexivity. }
  destruct (form_saves_changes defaultCompare (mount_form (JObj demo_options)) demo_saved demo_marks demo_data demo_options Hs)
    as (_ & H & _).
  - vm_compute. reflexivity.
  - apply tree_okb_ok. vm_compute. reflexivity.
  - exact demo_marks_ok.
  - exact demo_shape.
  - exact demo_server.
  - apply H. vm_compute. reflexivity.
Defined.
