(* ===== verification/Base64.v ===== *)
(** * Base64

    The platform's [btoa] and [atob], the forgiving base64 of the browser, on texts whose
    code units are bytes, and the laws that their users need. *)

From S2P Require Import Prelude JsString JsRegExp.
From Stdlib Require Import NArith ZArith ZifyN ZifyNat ZifyBool.

(** ** Base64 *)

Definition PLUS : N := 43%N.
Definition SLASH : N := 47%N.
Definition MINUS : N := 45%N.
Definition USCORE : N := 95%N.
Definition EQUALS : N := 61%N.

(** The character of a number below 64. *)
Definition b64_char (n : N) : N :=
  if (n <? 26)%N then (65 + n)%N else if (n <? 52)%N then (71 + n)%N else if (n <? 62)%N then (n - 4)%N
  else if (n =? 62)%N then PLUS else SLASH.

Definition b64_value (c : N) : option N :=
  if ((65 <=? c) && (c <=? 90))%N then Some (c - 65)%N
  else if ((97 <=? c) && (c <=? 122))%N then Some (c - 71)%N
  else if ((48 <=? c) && (c <=? 57))%N then Some (c + 4)%N
  else if (c =? PLUS)%N then Some 62%N else if (c =? SLASH)%N then Some 63%N else None.

(** Three bytes as four numbers below 64; one or two bytes at the end as two or three. *)
Fixpoint sextets (l : list N) : list N :=
  match l with
  | a :: b :: c :: l => (a / 4)%N :: (a mod 4 * 16 + b / 16)%N :: (b mod 16 * 4 + c / 64)%N :: (c mod 64)%N :: sextets l
  | [a; b] => [a / 4; a mod 4 * 16 + b / 16; b mod 16 * 4]%N
  | [a] => [a / 4; a mod 4 * 16]%N
  | [] => []
  end.

Fixpoint octets (l : list N) : list N :=
  match l with
  | a :: b :: c :: d :: l => (a * 4 + b / 16)%N :: (b mod 16 * 16 + c / 4)%N :: (c mod 4 * 64 + d)%N :: octets l
  | [a; b; c] => [a * 4 + b / 16; b mod 16 * 16 + c / 4]%N
  | [a; b] => [a * 4 + b / 16]%N
  | _ => []
  end.

(** The padding that makes a length a multiple of four. *)
Definition padding (n : nat) : jstr := replicate ((4 - n mod 4) mod 4) EQUALS.

(** Throws on a code unit above 255. *)
Definition btoa (binary : jstr) : exn jstr :=
  if forallb (λ c, c <? 256)%N binary
  then let t := map b64_char (sextets binary) in Ret (t ++ padding (length t)) else Throw.

Definition ascii_ws (c : N) : bool := one_of [9; 10; 12; 13; 32]%N c.

(** At most two equals signs at the end of a text whose length is a multiple of four. *)
Definition strip_padding (s : jstr) : jstr :=
  if (length s mod 4 =? 0)%nat then
    match reverse s with
    | c :: d :: r => if (c =? EQUALS)%N then if (d =? EQUALS)%N then reverse r else reverse (d :: r) else s
    | _ => s
    end
  else s.

Definition atob (data : jstr) : exn jstr :=
  let data := strip_padding (List.filter (λ c, negb (ascii_ws c)) data) in
  if (length data mod 4 =? 1)%nat then Throw
  else match mapM b64_value data with Some l => Ret (octets l) | None => Throw end.

(** ** Encoding *)

Definition bytes_ok (l : list N) : Prop := Forall (λ c, (c < 256)%N) l.
Definition sextets_ok (l : list N) : Prop := Forall (λ c, (c < 64)%N) l.

Ltac euclid := zify; Z.to_euclidean_division_equations; lia.

Lemma list_three_ind {A} (P : list A → Prop) :
  P [] → (∀ a, P [a]) → (∀ a b, P [a; b]) → (∀ a b c l, P l → P (a :: b :: c :: l)) → ∀ l, P l.
Proof. intros H0 H1 H2 H3. fix IH 1. intros [|a [|b [|c l]]]; [exact H0|exact (H1 a)|exact (H2 a b)|exact (H3 a b c l (IH l))]. Qed.

Lemma sextets_bound l : bytes_ok l → sextets_ok (sextets l).
Proof.
  unfold bytes_ok, sextets_ok.
  induction l as [|a|a b|a b c l IH] using list_three_ind; rewrite ?Forall_cons; cbn [sextets]; rewrite ?Forall_cons, ?Forall_nil.
  - done.
  - intros [Ha _]. split_and!; [euclid..|done].
  - intros (Ha & Hb & _). split_and!; [euclid..|done].
  - intros (Ha & Hb & Hc & Hl). split_and!; [euclid..|by apply IH].
Qed.

Lemma octets_sextets l : bytes_ok l → octets (sextets l) = l.
Proof.
  unfold bytes_ok.
  induction l as [|a|a b|a b c l IH] using list_three_ind; rewrite ?Forall_cons; cbn [sextets octets].
  - done.
  - intros [Ha _]. f_equal. euclid.
  - intros (Ha & Hb & _). f_equal; [euclid|]. f_equal. euclid.
  - intros (Ha & Hb & Hc & Hl). rewrite IH by done. f_equal; [euclid|]. f_equal; [euclid|]. f_equal. euclid.
Qed.

Lemma sextets_length l : (length (sextets l) mod 4 ≠ 1)%nat.
Proof.
  induction l as [|a|a b|a b c l IH] using list_three_ind; [done..|]. cbn [sextets length].
  revert IH. generalize (length (sextets l)). intros n Hn H. euclid.
Qed.

Lemma small_cases k (P : N → Prop) : Forall P (N.of_nat <$> seq 0 k) → ∀ n, (n < N.of_nat k)%N → P n.
Proof.
  rewrite Forall_forall. intros H n Hn. apply H, list_elem_of_fmap. exists (N.to_nat n). rewrite N2Nat.id.
  split; [done|]. apply elem_of_seq. lia.
Qed.

Lemma b64_value_char n : (n < 64)%N → b64_value (b64_char n) = Some n.
Proof. revert n. apply (small_cases 64). apply (bool_decide_eq_true_1 _). vm_compute. reflexivity. Qed.

(** ** Padding *)
Lemma padding_length n : length (padding n) = ((4 - n mod 4) mod 4)%nat.
Proof. apply length_replicate. Qed.

Lemma padding_ext n m : (n mod 4 = m mod 4)%nat → padding n = padding m.
Proof. unfold padding. by intros ->. Qed.

Lemma padding_equals n : Forall (λ c, c = EQUALS) (padding n).
Proof. by apply Forall_replicate. Qed.

Lemma no_ws_filter s : Forall (λ c, ascii_ws c = false) s → List.filter (λ c, negb (ascii_ws c)) s = s.
Proof. induction 1 as [|c s Hc Hs IH]; [done|]. cbn [List.filter]. by rewrite Hc, IH. Qed.

(** The padding of a text without equals signs is removed, unless its length is one more
    than a multiple of four. *)
Lemma strip_pad s : Forall (λ c, c ≠ EQUALS) s → (length s mod 4 ≠ 1)%nat → strip_padding (s ++ padding (length s)) = s.
Proof.
  intros Hs Hl. unfold strip_padding. rewrite length_app, padding_length.
  replace ((length s + (4 - length s mod 4) mod 4) mod 4 =? 0)%nat with true by (symmetry; apply Nat.eqb_eq; euclid).
  rewrite reverse_app. unfold padding.
  assert (length s mod 4 = 0 ∨ length s mod 4 = 2 ∨ length s mod 4 = 3)%nat as [H|[H|H]] by euclid; rewrite H; cbn.
  - destruct (reverse s) as [|c [|d r]] eqn:Hr; rewrite ?app_nil_r; [done..|]. apply Forall_reverse in Hs. rewrite Hr in Hs.
    apply Forall_cons_1 in Hs as [Hc _]. by rewrite (proj2 (N.eqb_neq _ _) Hc).
  - apply reverse_involutive.
  - destruct (reverse s) as [|c r] eqn:Hr.
    + apply (f_equal length) in Hr. rewrite length_reverse in Hr. cbn in Hr. rewrite Hr in H. done.
    + apply Forall_reverse in Hs. rewrite Hr in Hs. apply Forall_cons_1 in Hs as [Hc _].
      cbn. rewrite (proj2 (N.eqb_neq _ _) Hc). rewrite <- (reverse_involutive s), Hr. done.
Qed.

Lemma values_chars l : sextets_ok l → mapM b64_value (map b64_char l) = Some l.
Proof.
  intros H. apply mapM_Some_2. induction H as [|n l Hn Hl IH]; [constructor|]. cbn [map]. constructor; [|done]. by apply b64_value_char.
Qed.

Lemma no_ws_padding n : Forall (λ c, ascii_ws c = false) (padding n).
Proof. by apply Forall_replicate. Qed.

Lemma mapM_missing {A B} (f : A → option B) l x : x ∈ l → f x = None → mapM f l = None.
Proof.
  induction 1 as [l|x y l Hl IH]; intros Hx; cbn [mapM mbind option_bind]; [by rewrite Hx|]. destruct (f y); cbn; [|done]. by rewrite IH.
Qed.

Lemma encoded_length b : length (sextets b) = ((4 * length b + 2) / 3)%nat.
Proof.
  induction b as [|a|a b|a b c l IH] using list_three_ind; [done..|]. cbn [sextets length]. rewrite IH.
  generalize (length l). intros n. euclid.
Qed.

Lemma forallb_bytes b : bytes_ok b → forallb (λ c, c <? 256)%N b = true.
Proof.
  intros Hb. apply forallb_forall. intros c Hc%list_elem_of_In. unfold bytes_ok in Hb. rewrite Forall_forall in Hb.
  apply N.ltb_lt. by apply Hb.
Qed.

Lemma b64_char_plain n : (n < 64)%N → b64_char n ≠ EQUALS ∧ ascii_ws (b64_char n) = false.
Proof. revert n. apply (small_cases 64). apply (bool_decide_eq_true_1 _). vm_compute. reflexivity. Qed.

Lemma b64_chars_plain l : sextets_ok l →
  Forall (λ c, c ≠ EQUALS) (map b64_char l) ∧ Forall (λ c, ascii_ws c = false) (map b64_char l).
Proof.
  induction 1 as [|n l Hn Hl (H1 & H2)]; [done|]. cbn [map]. destruct (b64_char_plain n Hn). split; by constructor.
Qed.

(** What is encoded is decoded to the same bytes. *)
Lemma btoa_atob b : bytes_ok b → ∃ s, btoa b = Ret s ∧ atob s = Ret b ∧ Forall (λ c, b64_value c ≠ None ∨ c = EQUALS) s.
Proof.
  intros Hb. pose proof (sextets_bound b Hb) as Hs. unfold btoa. rewrite forallb_bytes by done. eexists. split; [reflexivity|].
  destruct (b64_chars_plain _ Hs) as [He Hw]. split.
  - unfold atob. rewrite no_ws_filter by (apply Forall_app; split; [done|apply no_ws_padding]).
    rewrite strip_pad, length_map by (rewrite ?length_map; auto using sextets_length).
    rewrite (proj2 (Nat.eqb_neq _ _) (sextets_length b)), values_chars by done. by rewrite octets_sextets.
  - apply Forall_app. split.
    + apply Forall_map. eapply Forall_impl; [exact Hs|]. intros n Hn. left. cbn. by rewrite b64_value_char.
    + eapply Forall_impl; [apply padding_equals|]. intros c Hc. by right.
Qed.
