(* ===== verification/Passkey.v ===== *)
(** * Passkey data

    Model of [web/default/src/lib/passkey.ts]: buffers and base64url texts, the options
    that the server sends for the browser's credential functions, and the payloads that
    are sent back.  The browser's [atob] and [btoa] are the forgiving base64 of the
    platform; the browser's credential functions themselves are not called here. *)

From S2P Require Import Prelude JsString JsRegExp JsNumber Json Base64.
From Stdlib Require Import NArith ZArith ZifyN ZifyNat ZifyBool.

(** ** Base64url *)

Definition from_url (c : N) : N := if (c =? MINUS)%N then PLUS else if (c =? USCORE)%N then SLASH else c.
Definition to_url (c : N) : N := if (c =? PLUS)%N then MINUS else if (c =? SLASH)%N then USCORE else c.

(** [replace(/=+$/g, '')]. *)
Definition drop_equals (s : jstr) : jstr :=
  reverse ((fix go l := match l with c :: l' => if (c =? EQUALS)%N then go l' else l | [] => [] end) (reverse s)).

(** [None] is null or undefined; a buffer is the list of its bytes. *)
Definition base64UrlToArrayBuffer (value : option jstr) : exn (list N) :=
  match value with
  | None | Some [] => Ret []
  | Some value => atob (map from_url (value ++ padding (length value)))
  end.

Definition arrayBufferToBase64Url (buffer : option (list N)) : exn jstr :=
  match buffer with
  | None => Ret []
  | Some bytes => s ← btoa bytes; Ret (drop_equals (map to_url s))
  end.

(** ** Options from the server *)

(** A value of the options after their texts became buffers. *)
Inductive cval := CJson (v : json) | CBuffer (bytes : list N) | CObject (o : list (jstr * cval)) | CArray (l : list cval).

(** [payload?.publicKey ?? payload?.PublicKey ?? payload?.response ?? payload?.Response]. *)
Definition options_of (payload : json) : option json :=
  let try k := match prop (js k) payload with Some JNull | None => None | Some v => Some v end in
  match try "publicKey" with
  | Some v => Some v
  | None => match try "PublicKey" with
    | Some v => Some v
    | None => match try "response" with Some v => Some v | None => try "Response" end
    end
  end.

(** The outcome: an exception of the code, or a text field that is not a text, which the
    declared types exclude. *)
Inductive outcome (A : Type) := Value (x : A) | Thrown | Untyped.
Arguments Value {A}.
Arguments Thrown {A}.
Arguments Untyped {A}.

Definition obind {A B} (o : outcome A) (f : A → outcome B) : outcome B :=
  match o with Value x => f x | Thrown => Thrown | Untyped => Untyped end.

Definition buffer_field (k : jstr) (o : json) : outcome cval :=
  let decode s := match base64UrlToArrayBuffer s with Ret b => Value (CBuffer b) | Throw => Thrown end in
  match prop k o with
  | None | Some JNull => decode None
  | Some (JStr s) => decode (Some s)
  | Some _ => Untyped
  end.

Definition json_fields (o : list (jstr * json)) : list (jstr * cval) := map (λ kv, (kv.1, CJson kv.2)) o.

(** [{ ...item, id: base64UrlToArrayBuffer(item.id) }]. *)
Definition with_buffer (k : jstr) (o : json) : outcome cval :=
  obind (buffer_field k o) (λ b, Value (CObject (obj_set (json_fields (own_props o)) k b))).

Fixpoint buffers_of (items : list json) : outcome (list cval) :=
  match items with
  | [] => Value []
  | JNull :: _ => Thrown
  | item :: items => obind (with_buffer (js "id") item) (λ x, obind (buffers_of items) (λ l, Value (x :: l)))
  end.

(** The list of credentials, when there is one. *)
Definition with_credentials (k : jstr) (options : json) (o : list (jstr * cval)) : outcome (list (jstr * cval)) :=
  match prop k options with
  | Some (JArr items) => obind (buffers_of items) (λ l, Value (obj_set o k (CArray l)))
  | _ => Value o
  end.

Definition prepareCredentialCreationOptions (payload : json) : outcome (list (jstr * cval)) :=
  match options_of payload with
  | None => Thrown
  | Some options =>
    if negb (json_truthy options) then Thrown
    else
      obind (buffer_field (js "challenge") options) (λ challenge,
      obind (with_buffer (js "id") (default JNull (prop (js "user") options))) (λ user,
      let o := obj_set (obj_set (json_fields (own_props options)) (js "challenge") challenge) (js "user") user in
      obind (with_credentials (js "excludeCredentials") options o) (λ o,
      Value (match prop (js "attestationFormats") options with
             | Some (JArr []) => obj_delete (js "attestationFormats") o
             | _ => o
             end))))
  end.

Definition prepareCredentialRequestOptions (payload : json) : outcome (list (jstr * cval)) :=
  match options_of payload with
  | None => Thrown
  | Some options =>
    if negb (json_truthy options) then Thrown
    else
      obind (buffer_field (js "challenge") options) (λ challenge,
      with_credentials (js "allowCredentials") options (obj_set (json_fields (own_props options)) (js "challenge") challenge))
  end.

(** ** Payloads *)

(** A credential of the browser: the fields that the payloads use. *)
Record attestation := { at_object : list N; at_client : list N; at_transports : option (list jstr) }.
Record assertion := { as_data : list N; as_client : list N; as_signature : list N; as_handle : option (list N) }.
Record credential (R : Type) := {
  cr_id : jstr;
  cr_rawId : list N;
  cr_type : jstr;
  cr_attachment : option jstr;
  cr_response : R;
  cr_extensions : option json;
}.
Arguments cr_id {R}.
Arguments cr_rawId {R}.
Arguments cr_type {R}.
Arguments cr_attachment {R}.
Arguments cr_response {R}.
Arguments cr_extensions {R}.

Definition buffer_text (bytes : list N) : exn json := s ← arrayBufferToBase64Url (Some bytes); Ret (JStr s).

(** The fields around the response. *)
Definition credential_json {R} (c : credential R) (rawId response : json) : json :=
  JObj (fields [(js "id", Some (JStr (cr_id c))); (js "rawId", Some rawId); (js "type", Some (JStr (cr_type c)));
                (js "authenticatorAttachment", Some (match cr_attachment c with Some s => JStr s | None => JNull end));
                (js "response", Some response);
                (js "clientExtensionResults", Some (default (JObj []) (cr_extensions c)))]).

Definition buildRegistrationResult (c : option (credential attestation)) : exn json :=
  match c with
  | None => Ret JNull
  | Some c =>
    let r := cr_response c in
    rawId ← buffer_text (cr_rawId c);
    object ← buffer_text (at_object r);
    client ← buffer_text (at_client r);
    Ret (credential_json c rawId
      (JObj (fields [(js "attestationObject", Some object); (js "clientDataJSON", Some client);
                     (js "transports", (λ l, JArr (map JStr l)) <$> at_transports r)])))
  end.

Definition buildAssertionResult (c : option (credential assertion)) : exn json :=
  match c with
  | None => Ret JNull
  | Some c =>
    let r := cr_response c in
    rawId ← buffer_text (cr_rawId c);
    data ← buffer_text (as_data r);
    client ← buffer_text (as_client r);
    signature ← buffer_text (as_signature r);
    handle ← match as_handle r with Some h => buffer_text h | None => Ret JNull end;
    Ret (credential_json c rawId
      (JObj [(js "authenticatorData", data); (js "clientDataJSON", client); (js "signature", signature); (js "userHandle", handle)]))
  end.

(** ** Support *)

(** A function of the browser that may be missing, may answer, or may reject. *)
Inductive probe := Missing | Answers (b : bool) | Rejects.

(** [None]: there is no window, or no credential interface in it. *)
Definition isPasskeySupported (browser : option (probe * probe)) : bool :=
  match browser with
  | None => false
  | Some (conditional, platform) =>
    match conditional with
    | Answers true => true
    | _ => match platform with Missing => true | Answers b => b | Rejects => false end
    end
  end.

(** The characters of the url alphabet. *)
Definition url_value (c : N) : option N := if one_of [PLUS; SLASH] c then None else b64_value (from_url c).
Definition url_char (n : N) : N := to_url (b64_char n).

Lemma url_char_spec n : (n < 64)%N →
  url_value (url_char n) = Some n ∧ from_url (url_char n) = b64_char n ∧ url_char n ≠ EQUALS ∧ b64_char n ≠ EQUALS
  ∧ ascii_ws (b64_char n) = false.
Proof. revert n. apply (small_cases 64). apply (bool_decide_eq_true_1 _). vm_compute. reflexivity. Qed.

(** A character of the url alphabet is the character of its value. *)
Lemma url_value_char c n : url_value c = Some n → (n < 64)%N ∧ c = url_char n.
Proof.
  destruct (decide (c < 128)%N) as [Hc|Hc].
  - assert (forallb (λ c, match url_value c with Some n => (n <? 64)%N && (c =? url_char n)%N | None => true end) (N.of_nat <$> seq 0 128) = true)
      as H by (vm_compute; reflexivity).
    rewrite forallb_forall in H. revert c Hc. refine (small_cases 128 _ _). apply Forall_forall. intros c Hin%list_elem_of_In Hv.
    specialize (H c Hin). rewrite Hv in H. by rewrite andb_true_iff, N.ltb_lt, N.eqb_eq in H.
  - assert (from_url c = c) as Hf by (unfold from_url, MINUS, USCORE; repeat (case_match; try lia); done).
    unfold url_value. rewrite Hf. destruct (one_of _ c); [done|]. unfold b64_value, PLUS, SLASH.
    repeat (case_match; try lia); done.
Qed.

Lemma drop_equals_pad s p : Forall (λ c, c ≠ EQUALS) s → Forall (λ c, c = EQUALS) p → drop_equals (s ++ p) = s.
Proof.
  intros Hs Hp. unfold drop_equals. rewrite reverse_app. apply Forall_reverse in Hp. revert Hp. generalize (reverse p). clear p.
  intros p Hp. rewrite <- (reverse_involutive s) at 2. f_equal.
  induction Hp as [|c p -> _ IH]; cbn [app]; [|by rewrite N.eqb_refl].
  apply Forall_reverse in Hs. destruct (reverse s) as [|c r]; [done|]. apply Forall_cons_1 in Hs as [Hc _].
  by rewrite (proj2 (N.eqb_neq _ _) Hc).
Qed.

(** ** Decoding a text over the url alphabet *)

Definition url_text (s : jstr) (l : list N) : Prop := mapM url_value s = Some l.

Lemma url_text_chars s l : url_text s l → s = map url_char l ∧ sextets_ok l.
Proof.
  unfold url_text, sextets_ok. intros H%mapM_Some_1. induction H as [|c n s l Hc Hs IH]; [done|].
  apply url_value_char in Hc as [Hn ->]. destruct IH as [-> Hl]. split; [done|]. by constructor.
Qed.

Lemma chars_url_text l : sextets_ok l → url_text (map url_char l) l.
Proof.
  intros H. unfold url_text. apply mapM_Some_2. induction H as [|n l Hn Hl IH]; [constructor|]. cbn [map]. constructor; [|done].
  by apply url_char_spec.
Qed.

Lemma from_url_chars l : sextets_ok l → map from_url (map url_char l) = map b64_char l.
Proof.
  induction 1 as [|n l Hn Hl IH]; [done|]. cbn [map]. rewrite IH. by destruct (url_char_spec n Hn) as (_ & -> & _).
Qed.

Lemma chars_plain l : sextets_ok l →
  Forall (λ c, c ≠ EQUALS) (map b64_char l) ∧ Forall (λ c, ascii_ws c = false) (map b64_char l)
  ∧ Forall (λ c, c ≠ EQUALS) (map url_char l).
Proof.
  induction 1 as [|n l Hn Hl (H1 & H2 & H3)]; [by split_and!|]. cbn [map]. destruct (url_char_spec n Hn) as (_ & _ & Hu & He & Hw).
  split_and!; by constructor.
Qed.

Lemma from_url_padding n : map from_url (padding n) = padding n.
Proof. unfold padding. generalize ((4 - n mod 4) mod 4). intros k. induction k as [|k IH]; [done|]. cbn [replicate map]. by rewrite IH. Qed.

Lemma encode_url b : bytes_ok b → arrayBufferToBase64Url (Some b) = Ret (map url_char (sextets b)).
Proof.
  intros Hb. unfold arrayBufferToBase64Url, btoa. rewrite forallb_bytes by done.
  cbn [mbind exn_bind]. f_equal. rewrite map_app, map_map.
  assert (map to_url (padding (length (map b64_char (sextets b)))) = padding (length (map b64_char (sextets b)))) as ->.
  { unfold padding. generalize ((4 - length (map b64_char (sextets b)) mod 4) mod 4). intros k.
    induction k as [|k IH]; [done|]. cbn [replicate map]. by rewrite IH. }
  apply drop_equals_pad; [|apply padding_equals]. by apply chars_plain, sextets_bound.
Qed.

Lemma decode_url s l : url_text s l →
  base64UrlToArrayBuffer (Some s) = if (length s mod 4 =? 1)%nat then Throw else Ret (octets l).
Proof.
  intros [-> Hl]%url_text_chars. destruct l as [|n l']; [done|]. unfold base64UrlToArrayBuffer. cbn [map].
  change (url_char n :: map url_char l') with (map url_char (n :: l')). generalize dependent (n :: l'). clear n l'. intros l Hl.
  rewrite map_app, from_url_chars, from_url_padding by done. destruct (chars_plain l Hl) as (He & Hw & _).
  unfold atob. rewrite no_ws_filter by (apply Forall_app; split; [done|apply no_ws_padding]). rewrite !length_map.
  replace (padding (length l)) with (padding (length (map b64_char l))) by (by rewrite length_map).
  destruct (length l mod 4 =? 1)%nat eqn:H1.
  - apply Nat.eqb_eq in H1. unfold strip_padding. rewrite length_app, padding_length, length_map, H1.
    replace ((length l + (4 - 1) mod 4) mod 4 =? 0)%nat with true by (symmetry; apply Nat.eqb_eq; change ((4 - 1) mod 4) with 3; euclid).
    unfold padding. rewrite H1, reverse_app. cbn.
    case_match; [done|]. by rewrite (mapM_missing b64_value _ EQUALS) by (done || (rewrite rev_append_rev, elem_of_app; right; apply list_elem_of_singleton; done)).
  - apply Nat.eqb_neq in H1. rewrite strip_pad by (rewrite ?length_map; done). rewrite length_map.
    by rewrite (proj2 (Nat.eqb_neq _ _) H1), values_chars.
Qed.

(** C27: A buffer is always written as a text over the url alphabet, without padding, whose
    length is the one of an unpadded base64 text, and reading that text gives the buffer
    back: the texts of a credential that the server sends back are read as the same bytes. *)
Theorem passkey_roundtrip (b : list N) : bytes_ok b →
  ∃ s, arrayBufferToBase64Url (Some b) = Ret s ∧ Forall (λ c, is_Some (url_value c)) s
    ∧ length s = ((4 * length b + 2) / 3)%nat ∧ base64UrlToArrayBuffer (Some s) = Ret b.
Proof.
  intros Hb. pose proof (sextets_bound b Hb) as Hs. exists (map url_char (sextets b)). split_and!.
  - by apply encode_url.
  - apply Forall_map. eapply Forall_impl; [exact Hs|]. intros n Hn. exists n. by apply url_char_spec.
  - rewrite length_map. apply encoded_length.
  - rewrite (decode_url _ _ (chars_url_text _ Hs)), length_map, (proj2 (Nat.eqb_neq _ _) (sextets_length b)).
    by rewrite octets_sextets.
Qed.

Lemma passkey_roundtrip_witness :
  ∃ s, arrayBufferToBase64Url (Some [251; 255; 0; 7]%N) = Ret s ∧ Forall (λ c, is_Some (url_value c)) s
    ∧ length s = 6%nat ∧ base64UrlToArrayBuffer (Some s) = Ret [251; 255; 0; 7]%N.
Proof. apply (passkey_roundtrip [251; 255; 0; 7]%N). apply (bool_decide_eq_true_1 _). vm_compute. reflexivity. Defined.

(** A text over the url alphabet is refused exactly when its length cannot be the one of an
    encoded buffer. *)
Theorem url_text_refused s l : url_text s l → base64UrlToArrayBuffer (Some s) = Throw ↔ (length s mod 4 = 1)%nat.
Proof. intros H. rewrite (decode_url _ _ H), <- Nat.eqb_eq. by destruct (length s mod 4 =? 1)%nat. Qed.

(** ** Prepared options *)

(** The value is the text of the buffer. *)
Definition encoded (v : option json) (b : list N) : Prop :=
  bytes_ok b ∧ ∃ s, arrayBufferToBase64Url (Some b) = Ret s ∧ v = Some (JStr s).

Lemma buffer_field_encoded k o b : encoded (prop k o) b → buffer_field k o = Value (CBuffer b).
Proof.
  intros (Hb & s & Hs & Hv). unfold buffer_field. rewrite Hv. rewrite encode_url in Hs by done.
  assert (s = map url_char (sextets b)) as -> by congruence. pose proof (sextets_bound b Hb) as Hx.
  rewrite (decode_url _ _ (chars_url_text _ Hx)), length_map, (proj2 (Nat.eqb_neq _ _) (sextets_length b)).
  by rewrite octets_sextets.
Qed.

Lemma obj_get_json_fields k o : obj_get k (json_fields o) = CJson <$> obj_get k o.
Proof.
  induction o as [|[j v] o IH]; [done|]. cbn [json_fields map obj_get fst snd]. by destruct (str_eqb j k).
Qed.

(** A credential descriptor with its identifier as a buffer. *)
Definition descriptor (item : json) (b : list N) : cval := CObject (obj_set (json_fields (own_props item)) (js "id") (CBuffer b)).

Lemma buffers_of_encoded items bs : Forall2 (λ item b, encoded (prop (js "id") item) b) items bs →
  buffers_of items = Value (zip_with descriptor items bs).
Proof.
  induction 1 as [|item b items bs Hi _ IH]; [done|]. cbn [buffers_of zip_with]. unfold with_buffer.
  rewrite (buffer_field_encoded _ _ _ Hi), IH. destruct Hi as (_ & s & _ & Hv). by destruct item.
Qed.

(** The credentials of the options, when the field is a list of encoded identifiers or missing. *)
Definition credentials (v : option json) (bs : list (list N)) (r : option cval) : Prop :=
  match v with
  | Some (JArr items) => Forall2 (λ item b, encoded (prop (js "id") item) b) items bs ∧ r = Some (CArray (zip_with descriptor items bs))
  | _ => r = CJson <$> v
  end.

Lemma with_credentials_encoded k options o bs : obj_get k o = CJson <$> prop k options →
  match prop k options with Some (JArr items) => Forall2 (λ item b, encoded (prop (js "id") item) b) items bs | _ => True end →
  ∃ o', with_credentials k options o = Value o' ∧ credentials (prop k options) bs (obj_get k o')
    ∧ ∀ k', k' ≠ k → obj_get k' o' = obj_get k' o.
Proof.
  intros Ho H. unfold with_credentials, credentials. destruct (prop k options) as [v|] eqn:Hv; [|by exists o].
  destruct v; try (by exists o). exists (obj_set o k (CArray (zip_with descriptor l bs))). rewrite (buffers_of_encoded _ _ H).
  split; [done|]. split; [split; [done|]; rewrite obj_get_set; unfold str_eqb; by rewrite bool_decide_eq_true_2|].
  intros k' Hk. rewrite obj_get_set. unfold str_eqb. by rewrite bool_decide_eq_false_2.
Qed.

(** When the server's challenge, user identifier and excluded credentials are texts of
    buffers, the options handed to the browser hold exactly those buffers: the challenge, the
    user with its identifier, and the credentials in the same order; an empty list of
    attestation formats is left out, and every other field is the server's. *)
Theorem creation_options_spec (payload : json) (o u : list (jstr * json)) (challenge uid : list N) (ids : list (list N)) :
  options_of payload = Some (JObj o) → encoded (obj_get (js "challenge") o) challenge →
  obj_get (js "user") o = Some (JObj u) → encoded (obj_get (js "id") u) uid →
  match obj_get (js "excludeCredentials") o with
  | Some (JArr items) => Forall2 (λ item b, encoded (prop (js "id") item) b) items ids | _ => True end →
  ∃ r, prepareCredentialCreationOptions payload = Value r
    ∧ obj_get (js "challenge") r = Some (CBuffer challenge) ∧ obj_get (js "user") r = Some (descriptor (JObj u) uid)
    ∧ credentials (obj_get (js "excludeCredentials") o) ids (obj_get (js "excludeCredentials") r)
    ∧ obj_get (js "attestationFormats") r
      = match obj_get (js "attestationFormats") o with Some (JArr []) => None | v => CJson <$> v end
    ∧ ∀ k, k ∉ [js "challenge"; js "user"; js "excludeCredentials"; js "attestationFormats"] → obj_get k r = CJson <$> obj_get k o.
Proof.
  intros Ho Hc Hu Hid Hx. unfold prepareCredentialCreationOptions. rewrite Ho. cbn [negb json_truthy].
  rewrite (buffer_field_encoded (js "challenge") (JObj o) challenge Hc). cbn [obind prop]. rewrite Hu. change (default JNull (Some (JObj u))) with (JObj u). unfold with_buffer.
  rewrite (buffer_field_encoded (js "id") (JObj u) uid Hid). cbn [obind].
  set (base := obj_set _ (js "user") _).
  destruct (with_credentials_encoded (js "excludeCredentials") (JObj o) base ids) as (o' & Hw & Hcr & Hk); [|exact Hx|].
  { unfold base. rewrite !obj_get_set, obj_get_json_fields. done. }
  rewrite Hw. cbn [obind prop]. eexists. split; [reflexivity|].
  assert (∀ k, k ≠ js "attestationFormats" →
    obj_get k (match obj_get (js "attestationFormats") o with Some (JArr []) => obj_delete (js "attestationFormats") o' | _ => o' end)
    = obj_get k o') as Hd.
  { intros k Hne. repeat case_match; try done; rewrite obj_get_delete; unfold str_eqb; by rewrite bool_decide_eq_false_2. }
  split_and!.
  - rewrite Hd, Hk by done. unfold base. by rewrite !obj_get_set.
  - rewrite Hd, Hk by done. unfold base. by rewrite !obj_get_set.
  - by rewrite Hd.
  - assert (obj_get (js "attestationFormats") o' = CJson <$> obj_get (js "attestationFormats") o) as Ha.
    { rewrite Hk by done. unfold base. by rewrite !obj_get_set, obj_get_json_fields. }
    destruct (obj_get (js "attestationFormats") o) as [[| | | |[|]|]|]; try exact Ha. by rewrite obj_get_delete.
  - intros k Hin. rewrite !not_elem_of_cons in Hin. destruct Hin as (H1 & H2 & H3 & H4 & _).
    rewrite Hd, Hk by done. unfold base. rewrite !obj_get_set, obj_get_json_fields. unfold str_eqb.
    by rewrite !bool_decide_eq_false_2 by done.
Qed.

Definition sample_options : list (jstr * json) :=
  [(js "challenge", JStr (js "AQID")); (js "user", JObj [(js "name", JStr (js "ann")); (js "id", JStr (js "_w"))]);
   (js "excludeCredentials", JArr [JObj [(js "type", JStr (js "public-key")); (js "id", JStr (js "AAE"))]]);
   (js "attestationFormats", JArr []); (js "timeout", JStr (js "6"))].

Lemma sample_encoded (s : jstr) b : bytes_ok b → arrayBufferToBase64Url (Some b) = Ret s → encoded (Some (JStr s)) b.
Proof. intros Hb Hs. split; [done|]. by exists s. Qed.

Lemma creation_options_spec_witness :
  ∃ r, prepareCredentialCreationOptions (JObj [(js "Response", JObj sample_options)]) = Value r
    ∧ obj_get (js "challenge") r = Some (CBuffer [1; 2; 3]%N) ∧ obj_get (js "attestationFormats") r = None.
Proof.
  destruct (creation_options_spec (JObj [(js "Response", JObj sample_options)]) sample_options
    [(js "name", JStr (js "ann")); (js "id", JStr (js "_w"))] [1; 2; 3]%N [255]%N [[0; 1]%N]) as (r & Hr & Hc & _ & _ & Hf & _).
  - vm_compute. reflexivity.
  - apply sample_encoded; [apply (bool_decide_eq_true_1 _)|]; vm_compute; reflexivity.
  - vm_compute. reflexivity.
  - apply sample_encoded; [apply (bool_decide_eq_true_1 _)|]; vm_compute; reflexivity.
  - constructor; [|constructor]. apply sample_encoded; [apply (bool_decide_eq_true_1 _)|]; vm_compute; reflexivity.
  - exists r. exact (conj Hr (conj Hc Hf)).
Defined.

(** The same for a login: only the challenge and the allowed credentials become buffers. *)
Theorem request_options_spec payload o challenge ids :
  options_of payload = Some (JObj o) → encoded (obj_get (js "challenge") o) challenge →
  match obj_get (js "allowCredentials") o with
  | Some (JArr items) => Forall2 (λ item b, encoded (prop (js "id") item) b) items ids | _ => True end →
  ∃ r, prepareCredentialRequestOptions payload = Value r
    ∧ obj_get (js "challenge") r = Some (CBuffer challenge)
    ∧ credentials (obj_get (js "allowCredentials") o) ids (obj_get (js "allowCredentials") r)
    ∧ ∀ k, k ≠ js "challenge" → k ≠ js "allowCredentials" → obj_get k r = CJson <$> obj_get k o.
Proof.
  intros Ho Hc Hx. unfold prepareCredentialRequestOptions. rewrite Ho. cbn [negb json_truthy].
  rewrite (buffer_field_encoded (js "challenge") (JObj o) challenge Hc). cbn [obind].
  set (base := obj_set _ (js "challenge") _).
  destruct (with_credentials_encoded (js "allowCredentials") (JObj o) base ids) as (o' & Hw & Hcr & Hk); [|exact Hx|].
  { unfold base. rewrite obj_get_set, obj_get_json_fields. done. }
  exists o'. split_and!; [done| |done|].
  - rewrite Hk by done. unfold base. by rewrite obj_get_set.
  - intros k H1 H2. rewrite Hk by done. unfold base. rewrite obj_get_set, obj_get_json_fields. unfold str_eqb.
    by rewrite bool_decide_eq_false_2.
Qed.

(** Options the server did not send are an error of both functions. *)
Theorem missing_options_refused payload :
  options_of payload = None →
  prepareCredentialCreationOptions payload = Thrown ∧ prepareCredentialRequestOptions payload = Thrown.
Proof. intros H. unfold prepareCredentialCreationOptions, prepareCredentialRequestOptions. by rewrite H. Qed.

(** ** Sent payloads *)

(** The text of a field reads as the buffer. *)
Definition reads (o : json) (k : jstr) (b : list N) : Prop :=
  ∃ s, prop k o = Some (JStr s) ∧ base64UrlToArrayBuffer (Some s) = Ret b.

Lemma buffer_text_reads b : bytes_ok b → ∃ s, buffer_text b = Ret (JStr s) ∧ base64UrlToArrayBuffer (Some s) = Ret b.
Proof.
  intros Hb. pose proof (sextets_bound b Hb) as Hs. exists (map url_char (sextets b)). unfold buffer_text.
  rewrite encode_url by done. split; [done|].
  rewrite (decode_url _ _ (chars_url_text _ Hs)), length_map, (proj2 (Nat.eqb_neq _ _) (sextets_length b)).
  by rewrite octets_sextets.
Qed.

Definition assertion_ok (c : credential assertion) : Prop :=
  bytes_ok (cr_rawId c) ∧ bytes_ok (as_data (cr_response c)) ∧ bytes_ok (as_client (cr_response c))
  ∧ bytes_ok (as_signature (cr_response c)) ∧ from_option bytes_ok True (as_handle (cr_response c)).

(** The payload of a login is always built; every buffer of the credential can be read back
    from it, and a missing user handle is null. *)
Theorem assertion_payload c : assertion_ok c →
  ∃ v r, buildAssertionResult (Some c) = Ret v ∧ prop (js "id") v = Some (JStr (cr_id c)) ∧ reads v (js "rawId") (cr_rawId c)
    ∧ prop (js "response") v = Some r
    ∧ reads r (js "authenticatorData") (as_data (cr_response c)) ∧ reads r (js "clientDataJSON") (as_client (cr_response c))
    ∧ reads r (js "signature") (as_signature (cr_response c))
    ∧ match as_handle (cr_response c) with Some h => reads r (js "userHandle") h | None => prop (js "userHandle") r = Some JNull end.
Proof.
  intros (H1 & H2 & H3 & H4 & H5). unfold buildAssertionResult.
  destruct (buffer_text_reads _ H1) as (s1 & -> & R1), (buffer_text_reads _ H2) as (s2 & -> & R2),
    (buffer_text_reads _ H3) as (s3 & -> & R3), (buffer_text_reads _ H4) as (s4 & -> & R4). cbn [mbind exn_bind].
  destruct (as_handle (cr_response c)) as [h|].
  - destruct (buffer_text_reads _ H5) as (s5 & -> & R5). do 2 eexists. split; [reflexivity|]. unfold reads. split_and!; eauto.
  - do 2 eexists. split; [reflexivity|]. unfold reads. split_and!; eauto.
Qed.

Theorem registration_payload c :
  bytes_ok (cr_rawId c) → bytes_ok (at_object (cr_response c)) → bytes_ok (at_client (cr_response c)) →
  ∃ v r, buildRegistrationResult (Some c) = Ret v ∧ prop (js "id") v = Some (JStr (cr_id c)) ∧ reads v (js "rawId") (cr_rawId c)
    ∧ prop (js "response") v = Some r
    ∧ reads r (js "attestationObject") (at_object (cr_response c)) ∧ reads r (js "clientDataJSON") (at_client (cr_response c))
    ∧ prop (js "transports") r = (λ l, JArr (map JStr l)) <$> at_transports (cr_response c).
Proof.
  intros H1 H2 H3. unfold buildRegistrationResult.
  destruct (buffer_text_reads _ H1) as (s1 & -> & R1), (buffer_text_reads _ H2) as (s2 & -> & R2),
    (buffer_text_reads _ H3) as (s3 & -> & R3). cbn [mbind exn_bind].
  do 2 eexists. split; [reflexivity|]. split; [reflexivity|]. split; [by exists s1|]. split; [reflexivity|].
  split; [by exists s2|]. split; [by exists s3|]. by destruct (at_transports (cr_response c)).
Qed.
