(* ===== verification/EntryEditors.v ===== *)
(** * Tables over a stored JSON text

    What the settings editors share that show a stored JSON text as a table and rewrite
    it on every change: the steps they have in common, the interface [EntryEditor] of
    an editor of entries, and the client theorem that a session of any of them refines
    updates of a finite map.  The editors themselves are [ChatEditor],
    [PaymentEditor], [CreemEditor], [RateLimitEditor] and [AmountEditors]. *)

From S2P Require Import Prelude JsString JsNumber Json JsonPretty SettingsJson.
From stdpp Require Import gmap.
From Stdlib Require Import NArith ZArith SpecFloat.

(** ** Shared steps *)

(** The stored array; anything else counts as none. *)
Definition stored_array (value : jstr) : list json :=
  match safeJsonParseWithValidation value isArray (JArr []) with JArr l => l | _ => [] end.

Definition stored_object (value : jstr) : list (jstr * json) :=
  match safeJsonParseWithValidation value isObjectRecord (JObj []) with JObj o => o | _ => [] end.

(** [o[k] = v]: assigning to [__proto__] adds no property, but changes one that is there. *)
Definition put_prop (o : list (jstr * json)) (k : jstr) (v : json) : list (jstr * json) :=
  if str_eqb k (js "__proto__") && negb (bool_decide (k ∈ map fst o)) then o else obj_set o k v.

Lemma put_prop_set o k v : k ≠ js "__proto__" → put_prop o k v = obj_set o k v.
Proof. intros H. unfold put_prop, str_eqb. by rewrite bool_decide_eq_false_2. Qed.

(** [typeof item.k === 'string'] and the like. *)
Definition text_prop (k : jstr) (item : json) : option jstr :=
  match prop k item with Some (JStr s) => Some s | _ => None end.

Definition num_prop (k : jstr) (item : json) : option num :=
  match prop k item with Some (JNum x) => Some x | _ => None end.

(** [updatedArray[index] = data] for the first item that matches, else [push]. *)
Fixpoint replace_first (p : json → bool) (data : json) (l : list json) : option (list json) :=
  match l with
  | [] => None
  | item :: l => if p item then Some (data :: l) else cons item <$> replace_first p data l
  end.

(** ** The interface *)

(** The entries with another key. *)
Definition without {E K} `{EqDecision K} (key : E → K) (k : K) (l : list E) : list E :=
  List.filter (λ x, negb (bool_decide (key x = k))) l.

(** The entries that are not edited. *)
Definition but_edited {E K} `{EqDecision K} (key : E → K) (l : list E) (old : option E) : list E :=
  match old with Some o => without key (key o) l | None => l end.

(** The key of an entry is new, or that of the edited one. *)
Definition own_or_free {E K} (key : E → K) (l : list E) (old : option E) (e : E) : Prop :=
  key e ∈ map key l → ∃ o, old = Some o ∧ key o = key e.

(** What an editor of entries promises.  [ee_ok] holds of a text with readable entries
    only and without two for one key; [ee_save] gets the entry that is edited, if
    any.  An editor of a stored object ([ee_overwrites]) puts the new entry in the place
    of one with its key; one of a stored array keeps the promise only when the key of
    the new entry is free or that of the edited one. *)
Class EntryEditor (E K : Type) `{Countable K} := {
  ee_key : E → K;
  ee_entries : jstr → list E;
  ee_save : jstr → option E → E → jstr;
  ee_delete : jstr → E → jstr;
  ee_overwrites : bool;
  ee_ok : jstr → Prop;
  ee_valid : E → Prop;
  ee_unique t : ee_ok t → NoDup (map ee_key (ee_entries t));
  ee_save_spec t old e :
    ee_ok t → ee_valid e →
    match old with Some o => o ∈ ee_entries t | None => True end →
    (ee_overwrites = false → own_or_free ee_key (ee_entries t) old e) →
    ee_ok (ee_save t old e) ∧
    ee_entries (ee_save t old e) ≡ₚ e :: without ee_key (ee_key e) (but_edited ee_key (ee_entries t) old);
  ee_delete_spec t e :
    ee_ok t → e ∈ ee_entries t →
    ee_ok (ee_delete t e) ∧ ee_entries (ee_delete t e) ≡ₚ without ee_key (ee_key e) (ee_entries t);
}.

(** ** Sessions refine a finite map *)

Section session.
Context {E K : Type} `{Countable K} {ed : EntryEditor E K}.
Implicit Types (t : jstr) (e o : E) (m : gmap K E).

(** The table as a map from keys to entries. *)
Definition table (l : list E) : gmap K E := list_to_map (map (λ e, (ee_key e, e)) l).

Inductive edit := AddEntry (e : E) | EditEntry (o e : E) | DeleteEntry (e : E).

Definition do_edit (t : jstr) (a : edit) : jstr :=
  match a with
  | AddEntry e => ee_save t None e
  | EditEntry o e => ee_save t (Some o) e
  | DeleteEntry e => ee_delete t e
  end.

Definition spec_edit (m : gmap K E) (a : edit) : gmap K E :=
  match a with
  | AddEntry e => <[ee_key e := e]> m
  | EditEntry o e => <[ee_key e := e]> (delete (ee_key o) m)
  | DeleteEntry e => delete (ee_key e) m
  end.

(** The steps that the theorem is about: entries that are shown are edited and deleted,
    and where two entries for one key could be stored, the key of a saved entry is new
    or that of the edited one.  The dialogs of the array editors do not ask for this. *)
Definition allowed (t : jstr) (a : edit) : Prop :=
  match a with
  | AddEntry e => ee_valid e ∧ (ee_overwrites = false → own_or_free ee_key (ee_entries t) None e)
  | EditEntry o e =>
      ee_valid e ∧ o ∈ ee_entries t ∧ (ee_overwrites = false → own_or_free ee_key (ee_entries t) (Some o) e)
  | DeleteEntry e => e ∈ ee_entries t
  end.

Inductive session (t : jstr) : list edit → jstr → Prop :=
  | session_nil : session t [] t
  | session_cons a l t' : allowed t a → session (do_edit t a) l t' → session t (a :: l) t'.

Lemma table_perm l l' : NoDup (map ee_key l) → l ≡ₚ l' → table l = table l'.
Proof.
  intros Hn Hp. apply list_to_map_proper; [|by apply fmap_Permutation].
  assert ((map (λ e, (ee_key e, e)) l).*1 = map ee_key l) as ->; [|done].
  clear. induction l as [|e l IH]; [done|]. cbn. by rewrite <- IH.
Qed.

Lemma table_without k l : table (without ee_key k l) = delete k (table l).
Proof.
  unfold table, without. induction l as [|e l IH]; cbn [List.filter map]; [by rewrite list_to_map_nil, delete_empty|].
  rewrite list_to_map_cons. case_bool_decide as Hk; cbn [negb map].
  - by rewrite IH, Hk, delete_insert_eq.
  - by rewrite list_to_map_cons, IH, delete_insert_ne.
Qed.

Lemma table_saved e l : table (e :: without ee_key (ee_key e) l) = <[ee_key e := e]> (table l).
Proof.
  change (table (e :: ?l')) with (<[ee_key e := e]> (table l')). rewrite table_without. apply insert_delete_eq.
Qed.

Lemma do_edit_spec t a :
  ee_ok t → allowed t a → ee_ok (do_edit t a) ∧ table (ee_entries (do_edit t a)) = spec_edit (table (ee_entries t)) a.
Proof.
  intros Hok. destruct a as [e|o e|e]; cbn [do_edit spec_edit allowed].
  - intros [Hv Hk]. destruct (ee_save_spec t None e Hok Hv I Hk) as [Hok' Hp]. split; [done|].
    by rewrite (table_perm _ _ (ee_unique _ Hok') Hp), table_saved.
  - intros (Hv & Ho & Hk). destruct (ee_save_spec t (Some o) e Hok Hv Ho Hk) as [Hok' Hp]. split; [done|].
    by rewrite (table_perm _ _ (ee_unique _ Hok') Hp), table_saved, <- table_without.
  - intros He. destruct (ee_delete_spec t e Hok He) as [Hok' Hp]. split; [done|].
    by rewrite (table_perm _ _ (ee_unique _ Hok') Hp), table_without.
Qed.

Lemma session_refines t l t' :
  ee_ok t → session t l t' → ee_ok t' ∧ table (ee_entries t') = foldl spec_edit (table (ee_entries t)) l.
Proof.
  intros Hok Hs. induction Hs as [|t a l t' Ha Hs IH]; [done|].
  destruct (do_edit_spec t a Hok Ha) as [Hok' E']. destruct (IH Hok') as [? E'']. split; [done|]. by rewrite E'', E'.
Qed.
End session.

Arguments edit : clear implicits.

(** ** Editors over an array of items *)
Lemma stored_array_printed l : json_ok (JArr l) → stored_array (stringify_pretty (JArr l)) = l.
Proof. intros H. unfold stored_array, safeJsonParseWithValidation. by rewrite safe_parse_arr. Qed.

Lemma stored_object_printed o : json_ok (JObj o) → stored_object (stringify_pretty (JObj o)) = o.
Proof. intros H. unfold stored_object, safeJsonParseWithValidation. by rewrite safe_parse_obj. Qed.

Lemma json_ok_arr l : json_ok (JArr l) ↔ Forall json_ok l.
Proof. split; [by inversion 1|by constructor]. Qed.

Lemma filter_ext_Forall {A} (p q : A → bool) l : Forall (λ x, p x = q x) l → List.filter p l = List.filter q l.
Proof. induction 1 as [|x l H _ IH]; [done|]. cbn. by rewrite H, IH. Qed.

Lemma Forall_filter_list {A} (P : A → Prop) p l : Forall P l → Forall P (List.filter p l).
Proof. induction 1; cbn; [done|]. destruct (p x); by try constructor. Qed.

Lemma Permutation_filter_bool {A} (p : A → bool) l l' : l ≡ₚ l' → List.filter p l ≡ₚ List.filter p l'.
Proof.
  induction 1 as [|x l l' _ IH|x y l|l l' l'' _ IH1 _ IH2]; cbn; [done| | |by trans (List.filter p l')].
  - destruct (p x); [by constructor|done].
  - destruct (p x), (p y); try done. constructor.
Qed.

Lemma map_without_nodup {E K} `{EqDecision K} (key : E → K) k l : NoDup (map key l) → NoDup (map key (without key k l)).
Proof.
  intros H. eapply sublist_NoDup; [exact H|]. unfold without. clear H. induction l as [|x l IH]; [done|].
  cbn [List.filter]. destruct (negb _); cbn [map]; by constructor.
Qed.

Lemma without_none {E K} `{EqDecision K} (key : E → K) k l : k ∉ map key l → without key k l = l.
Proof.
  induction l as [|x l IH]; [done|]. cbn [map]. intros [Hx Hl]%not_elem_of_cons. unfold without. cbn [List.filter].
  rewrite bool_decide_eq_false_2 by done. cbn [negb]. f_equal. by apply IH.
Qed.

Lemma elem_of_without {E K} `{EqDecision K} (key : E → K) k j l : j ∈ map key (without key k l) → j ∈ map key l ∧ j ≠ k.
Proof.
  intros (y & -> & Hy)%list_elem_of_fmap. apply list_elem_of_In, filter_In in Hy as [Hy Hb].
  apply negb_true_iff, bool_decide_eq_false in Hb. split; [|done].
  apply list_elem_of_fmap. exists y. split; [done|by apply list_elem_of_In].
Qed.

Lemma free_key {E K} `{EqDecision K} (key : E → K) l old e : own_or_free key l old e → key e ∉ map key (but_edited key l old).
Proof.
  intros Hf Hin. destruct old as [o|]; cbn [but_edited] in Hin.
  - destruct (elem_of_without _ _ _ _ Hin) as [Hl Hne]. destruct (Hf Hl) as (o' & [= <-] & Ho). by rewrite Ho in Hne.
  - by destruct (Hf Hin) as (? & ? & _).
Qed.

Section items.
Context {K : Type} `{EqDecision K} (key : json → K) (shown : json → bool) (same : json → json → bool).
Hypothesis same_key : ∀ e x, shown x = true → same e x = bool_decide (key x = key e).

Definition items_ok (t : jstr) : Prop :=
  let l := stored_array t in
  json_ok (JArr l) ∧ Forall (λ x, shown x = true) l ∧ NoDup (map key l).

Definition item_valid (e : json) : Prop := shown e = true ∧ json_ok e.

Lemma replace_first_perm e data l :
  Forall (λ x, shown x = true) l → NoDup (map key l) → e ∈ l →
  ∃ l', replace_first (same e) data l = Some l' ∧ l' ≡ₚ data :: without key (key e) l.
Proof.
  induction l as [|x l IH]; intros Hs Hn Hin; [by apply elem_of_nil in Hin|].
  apply Forall_cons in Hs as [Hx Hs]. cbn [map] in Hn. apply NoDup_cons in Hn as [Hxn Hn].
  cbn [replace_first]. rewrite same_key by done. unfold without. cbn [List.filter]. case_bool_decide as Hk.
  - exists (data :: l). split; [done|]. cbn [negb]. fold (without key (key e) l). rewrite without_none; [done|]. by rewrite <- Hk.
  - apply elem_of_cons in Hin as [->|Hin]; [done|]. destruct (IH Hs Hn Hin) as (l' & -> & Hp).
    exists (x :: l'). split; [done|]. cbn [negb]. rewrite Hp. fold (without key (key e) l). constructor.
Qed.

Lemma filter_same e l :
  Forall (λ x, shown x = true) l → List.filter (λ x, negb (same e x)) l = without key (key e) l.
Proof.
  intros Hs. apply filter_ext_Forall. eapply Forall_impl; [exact Hs|]. intros x Hx. cbv beta. by rewrite same_key.
Qed.

Lemma items_printed l :
  Forall json_ok l → Forall (λ x, shown x = true) l → NoDup (map key l) →
  items_ok (stringify_pretty (JArr l)) ∧ List.filter shown (stored_array (stringify_pretty (JArr l))) = l.
Proof.
  intros Hj Hs Hn. assert (json_ok (JArr l)) as Hok by by apply json_ok_arr.
  unfold items_ok. rewrite stored_array_printed by done. split; [done|].
  clear Hj Hn Hok. induction Hs as [|x l Hx _ IH]; [done|]. cbn [List.filter]. by rewrite Hx, IH.
Qed.

Lemma items_shown t : items_ok t → List.filter shown (stored_array t) = stored_array t.
Proof. intros (_ & Hs & _). induction Hs as [|x l Hx _ IH]; [done|]. cbn [List.filter]. by rewrite Hx, IH. Qed.

Lemma items_save t old e :
  items_ok t → item_valid e →
  match old with Some o => o ∈ stored_array t | None => True end →
  own_or_free key (stored_array t) old e →
  let text := stringify_pretty (JArr
    match old with
    | Some o => match replace_first (same o) e (stored_array t) with Some l => l | None => stored_array t ++ [e] end
    | None => stored_array t ++ [e]
    end) in
  items_ok text ∧ List.filter shown (stored_array text) ≡ₚ e :: without key (key e) (but_edited key (stored_array t) old).
Proof.
  intros (Hj%json_ok_arr & Hs & Hn) [Hse Hje] Hold Hkey. cbv zeta. pose proof (free_key _ _ _ _ Hkey) as Hfree. rewrite without_none by done.
  assert (∃ l', match old with
    | Some o => match replace_first (same o) e (stored_array t) with Some l => l | None => stored_array t ++ [e] end
    | None => stored_array t ++ [e] end = l' ∧
    l' ≡ₚ e :: but_edited key (stored_array t) old) as (l' & -> & Hp).
  { destruct old as [o|]; [|eexists; split; [done|]; by rewrite Permutation_app_comm].
    destruct (replace_first_perm o e (stored_array t) Hs Hn Hold) as (l' & -> & Hp). by exists l'. }
  assert (items_ok (stringify_pretty (JArr l')) ∧ List.filter shown (stored_array (stringify_pretty (JArr l'))) = l') as [? ->]; [|done].
  assert (∀ P : json → Prop, P e → Forall P (stored_array t) → Forall P l') as HF.
  { intros P He Hl. rewrite Hp. constructor; [done|]. destruct old; [by apply Forall_filter_list|done]. }
  apply items_printed; [by apply HF|by apply HF|].
  rewrite (Permutation_map key Hp). cbn [map]. apply NoDup_cons. split.
  - done.
  - destruct old; [by apply map_without_nodup|done].
Qed.

Lemma items_delete t e :
  items_ok t →
  let text := stringify_pretty (JArr (List.filter (λ x, negb (same e x)) (stored_array t))) in
  items_ok text ∧ List.filter shown (stored_array text) ≡ₚ without key (key e) (stored_array t).
Proof.
  intros (Hj%json_ok_arr & Hs & Hn). cbv zeta. rewrite filter_same by done.
  destruct (items_printed (without key (key e) (stored_array t))) as [? ->]; [by apply Forall_filter_list..|by apply map_without_nodup|done].
Qed.
End items.

(** ** Editors over an object *)
Lemma obj_set_perm {A} (o : list (jstr * A)) k v :
  NoDup (map fst o) → obj_set o k v ≡ₚ (k, v) :: obj_delete k o.
Proof.
  intros Hn. assert (∀ l : list (jstr * A), NoDup (map fst l) → NoDup l) as Hnd.
  { intros l. induction l as [|x l IH]; [constructor|]. cbn [map]. intros [Hx Hl]%NoDup_cons. constructor; [|by apply IH].
    intros Hin. apply Hx. apply list_elem_of_fmap. by exists x. }
  assert (NoDup (map fst ((k, v) :: obj_delete k o))) as Hn2.
  { cbn [map fst]. constructor; [|by eapply sublist_NoDup; [exact Hn|apply obj_delete_sublist]].
    intros ([j w] & -> & Hin)%list_elem_of_fmap. apply list_elem_of_In, filter_In in Hin as [_ Hb]. cbn [fst] in Hb.
    unfold str_eqb in Hb. by rewrite bool_decide_eq_true_2 in Hb. }
  apply NoDup_Permutation; [by apply Hnd, obj_set_nodup|by apply Hnd|]. intros [j w].
  assert (∀ l : list (jstr * A), NoDup (map fst l) → (j, w) ∈ l ↔ obj_get j l = Some w) as Hg.
  { intros l Hl. split; [by apply elem_obj_get|apply obj_get_elem]. }
  rewrite (Hg (obj_set o k v)), (Hg ((k, v) :: obj_delete k o)) by (done || by apply obj_set_nodup).
  rewrite obj_get_set. cbn [obj_get]. rewrite obj_get_delete. by destruct (str_eqb k j).
Qed.

Section objects.
Context {E : Type} (item : E → jstr * json).

Definition object_ok (t : jstr) (l : list E) : Prop :=
  stored_object t = map item l ∧ json_ok (JObj (stored_object t)).

Definition entry_ok (e : E) : Prop :=
  Forall code_unit ((item e).1) ∧ json_ok (item e).2 ∧ (item e).1 ≠ js "__proto__".

Lemma object_ok_nodup t l : object_ok t l → NoDup (map (λ e, (item e).1) l).
Proof. intros [E1 ((Hn & _) & _)%json_ok_obj_inv]. by rewrite E1, map_map in Hn. Qed.

Lemma delete_items k l : obj_delete k (map item l) = map item (without (λ e, (item e).1) k l).
Proof.
  unfold obj_delete, without. induction l as [|e l IH]; [done|]. cbn [map List.filter]. rewrite IH. unfold str_eqb. by destruct (negb _).
Qed.

Lemma object_written o l : json_ok (JObj o) → o ≡ₚ map item l →
  ∃ l', object_ok (stringify_pretty (JObj o)) l' ∧ l' ≡ₚ l.
Proof.
  intros Hok Hp. symmetry in Hp. destruct (Permutation_map_inv _ _ (symmetry Hp)) as (l' & -> & Hl).
  exists l'. split; [|by symmetry]. unfold object_ok. by rewrite stored_object_printed.
Qed.

Lemma object_delete t l k :
  object_ok t l → ∃ l', object_ok (stringify_pretty (JObj (obj_delete k (stored_object t)))) l' ∧ l' ≡ₚ without (λ e, (item e).1) k l.
Proof.
  intros [E1 Hok]. apply object_written; [by apply json_ok_delete|]. by rewrite E1, delete_items.
Qed.

Lemma object_save t l (old : option E) e :
  object_ok t l → entry_ok e →
  let o := match old with
    | Some o => if str_eqb ((item o).1) ((item e).1) then stored_object t else obj_delete ((item o).1) (stored_object t)
    | None => stored_object t
    end in
  ∃ l', object_ok (stringify_pretty (JObj (put_prop o ((item e).1) (item e).2))) l' ∧
    l' ≡ₚ e :: without (λ e, (item e).1) ((item e).1) (but_edited (λ e, (item e).1) l old).
Proof.
  intros Hl (Hc & Hj & Hp). destruct Hl as [E1 Hok]. cbv zeta.
  rewrite put_prop_set by done.
  set (o := match old with Some _ => _ | None => _ end).
  assert (json_ok (JObj o)) as Ho. { unfold o. destruct old; [destruct (str_eqb _ _); [done|by apply json_ok_delete]|done]. }
  apply object_written; [by apply json_ok_set|].
  rewrite obj_set_perm by (by destruct (json_ok_obj_inv _ Ho) as [[? _] _]). cbn [map]. rewrite <- surjective_pairing. f_equiv.
  unfold o. rewrite E1. destruct old as [d|].
  - cbn [but_edited]. unfold str_eqb. case_bool_decide as Hd; [|by rewrite !delete_items].
    rewrite delete_items, Hd, (without_none _ _ (without _ _ _)); [done|]. by intros [_ ?]%elem_of_without.
  - by rewrite delete_items.
Qed.
End objects.
