(* ===== verification/ChatEditor.v ===== *)
(** * Chat presets

    Model of [web/default/src/features/system-settings/content/chat-settings-visual-editor.tsx]:
    the presets are the one-property objects of a stored array. *)

From S2P Require Import Prelude JsString JsNumber Json JsonPretty SettingsJson EntryEditors.
From stdpp Require Import gmap.
From Stdlib Require Import NArith ZArith SpecFloat.

(** ** Chat presets *)

Module Chats.
Record ChatEntry := { name : jstr; url : jstr }.

Definition chat_of (item : json) : exn (option ChatEntry) :=
  match item with
  | JObj [(name, url)] => u ← js_string url; Ret (Some {| name := name; url := u |})
  | _ => Ret None
  end.

Definition chats (value : jstr) : exn (list ChatEntry) :=
  items ← mapM chat_of (stored_array value); Ret (omap id items).

Definition has_key (key : jstr) (item : json) : bool :=
  match item with JObj o => bool_decide (key ∈ map fst o) | _ => false end.

Definition handleSave (value : jstr) (editData : option ChatEntry) (data : ChatEntry) : jstr :=
  let updatedArray := stored_array value in
  let updatedArray := match editData with
    | Some e => List.filter (λ item, negb (has_key (name e) item)) updatedArray
    | None => updatedArray
    end in
  stringify_pretty (JArr (updatedArray ++ [JObj [(name data, JStr (url data))]])).

Definition handleDelete (value : jstr) (n : jstr) : jstr :=
  stringify_pretty (JArr (List.filter (λ item, negb (has_key n item)) (stored_array value))).

Definition filteredChats `{LowerCase} (searchText : jstr) (l : list ChatEntry) : list ChatEntry :=
  if negb (nonempty searchText) then l
  else List.filter (λ c, includes (toLowerCase searchText) (toLowerCase (name c))
                         || includes (toLowerCase searchText) (toLowerCase (url c))) l.
End Chats.


(** *** Chat presets *)

Definition chat_item (c : Chats.ChatEntry) : json := JObj [(Chats.name c, JStr (Chats.url c))].

Definition chats_ok (t : jstr) : Prop :=
  ∃ l, stored_array t = map chat_item l ∧ json_ok (JArr (stored_array t)) ∧ NoDup (map Chats.name l).

Definition chat_valid (c : Chats.ChatEntry) : Prop := json_ok (chat_item c).

(** The list of presets; a preset that cannot be shown leaves none. *)
Definition chat_entries (t : jstr) : list Chats.ChatEntry := match Chats.chats t with Ret l => l | Throw => [] end.

Lemma chats_of_items t l : stored_array t = map chat_item l → Chats.chats t = Ret l.
Proof.
  intros E. unfold Chats.chats. rewrite E. clear E.
  assert (mapM Chats.chat_of (map chat_item l) = Ret (map Some l)) as ->.
  { induction l as [|[n u] l IH]; [done|]. cbn [map mapM]. rewrite IH. reflexivity. }
  cbn [mbind exn_bind]. f_equal. induction l as [|c l IH]; [done|]. cbn. by rewrite IH.
Qed.

Lemma chats_shown l : Forall chat_valid l → chat_entries (stringify_pretty (JArr (map chat_item l))) = l.
Proof.
  intros Hv. unfold chat_entries. rewrite (chats_of_items _ l); [done|]. apply stored_array_printed, json_ok_arr, Forall_map, Hv.
Qed.

Lemma chats_printed l :
  NoDup (map Chats.name l) → Forall chat_valid l →
  chats_ok (stringify_pretty (JArr (map chat_item l))) ∧ chat_entries (stringify_pretty (JArr (map chat_item l))) = l.
Proof.
  intros Hn Hv. assert (json_ok (JArr (map chat_item l))) as Hok by (apply json_ok_arr, Forall_map; exact Hv).
  assert (stored_array (stringify_pretty (JArr (map chat_item l))) = map chat_item l) as E by by apply stored_array_printed.
  split; [exists l; by rewrite E|by apply chats_shown].
Qed.

Lemma chat_key_filter k l :
  List.filter (λ item, negb (Chats.has_key k item)) (map chat_item l) = map chat_item (without Chats.name k l).
Proof.
  unfold without. induction l as [|c l IH]; [done|]. cbn [map List.filter]. rewrite IH.
  assert (Chats.has_key k (chat_item c) = bool_decide (Chats.name c = k)) as ->.
  { unfold Chats.has_key, chat_item. cbn [map fst]. apply bool_decide_ext. rewrite list_elem_of_singleton. naive_solver. }
  by destruct (negb _).
Qed.

Lemma chats_ok_inv t : chats_ok t →
  stored_array t = map chat_item (chat_entries t) ∧ Forall chat_valid (chat_entries t) ∧ NoDup (map Chats.name (chat_entries t)).
Proof.
  intros (l & E & Hok & Hn). unfold chat_entries. rewrite (chats_of_items t l E). split_and!; [done| |done].
  rewrite E in Hok. apply json_ok_arr in Hok. by apply (Forall_map chat_item).
Qed.

#[export, refine] Instance chats_editor : EntryEditor Chats.ChatEntry jstr := {
  ee_key := Chats.name; ee_entries := chat_entries;
  ee_save := Chats.handleSave; ee_delete t c := Chats.handleDelete t (Chats.name c);
  ee_overwrites := false; ee_ok := chats_ok; ee_valid := chat_valid }.
Proof.
  - intros t Hok. by apply chats_ok_inv.
  - intros t old e (E & Hv & Hn)%chats_ok_inv He Hold Hkey. unfold Chats.handleSave. rewrite E.
    pose proof (free_key _ _ _ _ (Hkey eq_refl)) as Hfree. rewrite without_none by done.
    set (rest := but_edited Chats.name (chat_entries t) old) in *.
    assert (match old with
      | Some o => List.filter (λ item, negb (Chats.has_key (Chats.name o) item)) (map chat_item (chat_entries t))
      | None => map chat_item (chat_entries t) end = map chat_item rest) as ->
      by (unfold rest; destruct old; [apply chat_key_filter|done]).
    change [JObj [(Chats.name e, JStr (Chats.url e))]] with (map chat_item [e]). rewrite <- map_app.
    destruct (chats_printed (rest ++ [e])) as [? ->].
    + rewrite map_app, NoDup_app. split_and!; [unfold rest; destruct old; [by apply map_without_nodup|done]| |by apply NoDup_singleton].
      intros n Hin Hne%list_elem_of_singleton. by subst n.
    + apply Forall_app. split; [unfold rest; destruct old; [by apply Forall_filter_list|done]|by constructor].
    + split; [done|]. by rewrite Permutation_app_comm.
  - intros t e (E & Hv & Hn)%chats_ok_inv _. unfold Chats.handleDelete. rewrite E, chat_key_filter.
    destruct (chats_printed (without Chats.name (Chats.name e) (chat_entries t))) as [? ->];
      [by apply map_without_nodup|by apply Forall_filter_list|done].
Defined.
