(* ===== verification/PaymentEditor.v ===== *)
(** * Payment methods

    Model of [web/default/src/features/system-settings/integrations/payment-methods-visual-editor.tsx];
    an entry is a stored item itself. *)

From S2P Require Import Prelude JsString JsNumber Json JsonPretty SettingsJson EntryEditors.
From stdpp Require Import gmap.
From Stdlib Require Import NArith ZArith SpecFloat.

(** ** Payment methods: an entry is a stored item itself *)

Module Payments.
Record PaymentMethodData := { name : jstr; type : jstr; color : jstr; min_topup : option jstr }.

(** The object that the dialog hands over. *)
Definition item_of (d : PaymentMethodData) : json :=
  JObj (fields [(js "name", Some (JStr (name d))); (js "type", Some (JStr (type d)));
                (js "color", Some (JStr (color d))); (js "min_topup", JStr <$> min_topup d)]).

(** [handleSubmit] of the dialog: a blank minimum is left out. *)
Definition PaymentMethodDialog_handleSubmit (n t c minTopup : jstr) : json :=
  item_of {| name := n; type := t; color := c;
             min_topup := if nonempty minTopup && negb (str_eqb (trim minTopup) []) then Some minTopup else None |}.

Definition PAYMENT_TEMPLATES : list (jstr * json) :=
  [(js "Alipay", JObj [(js "color", JStr (js "rgba(var(--semi-blue-5), 1)")); (js "name", JStr (js "支付宝")); (js "type", JStr (js "alipay"))]);
   (js "WeChat Pay", JObj [(js "color", JStr (js "rgba(var(--semi-green-5), 1)")); (js "name", JStr (js "微信")); (js "type", JStr (js "wxpay"))]);
   (js "Stripe", JObj [(js "color", JStr (js "rgba(var(--semi-green-5), 1)")); (js "name", JStr (js "Stripe")); (js "type", JStr (js "stripe"))]);
   (js "Custom", JObj [(js "color", JStr (js "black")); (js "min_topup", JStr (js "50")); (js "name", JStr (js "自定义1")); (js "type", JStr (js "custom1"))])].

Definition is_method (item : json) : bool :=
  match text_prop (js "name") item, text_prop (js "type") item, text_prop (js "color") item with
  | Some _, Some _, Some _ => true | _, _, _ => false end.

Definition paymentMethods (value : jstr) : list json := List.filter is_method (stored_array value).

(** The name and the type of an entry. *)
Definition key (item : json) : jstr * jstr :=
  (default [] (text_prop (js "name") item), default [] (text_prop (js "type") item)).

(** [item.name === e.name && item.type === e.type]. *)
Definition same_method (e item : json) : bool :=
  match text_prop (js "name") item, text_prop (js "type") item with
  | Some n, Some t => bool_decide ((n, t) = key e)
  | _, _ => false
  end.

Definition handleSave (value : jstr) (editData : option json) (data : json) : jstr :=
  let parsed := stored_array value in
  stringify_pretty (JArr
    match editData with
    | Some e => match replace_first (same_method e) data parsed with Some l => l | None => parsed ++ [data] end
    | None => parsed ++ [data]
    end).

Definition handleDelete (value : jstr) (method : json) : jstr :=
  stringify_pretty (JArr (List.filter (λ item, negb (same_method method item)) (stored_array value))).

(** [None]: nothing is written, because the template is there already. *)
Definition handleInsertTemplate (value : jstr) (template : json) : option jstr :=
  let parsed := stored_array value in
  if existsb (same_method template) parsed then None else Some (stringify_pretty (JArr (parsed ++ [template]))).

Definition getColorPreview (c : jstr) : option jstr := if includes (js "var(--") c then None else Some c.

Definition filteredMethods `{LowerCase} (searchText : jstr) (l : list json) : list json :=
  if negb (nonempty searchText) then l
  else List.filter (λ m, includes (toLowerCase searchText) (toLowerCase (key m).1)
                         || includes (toLowerCase searchText) (toLowerCase (key m).2)) l.
End Payments.


Lemma same_method_key e x : Payments.is_method x = true → Payments.same_method e x = bool_decide (Payments.key x = Payments.key e).
Proof.
  unfold Payments.is_method, Payments.same_method, Payments.key.
  by destruct (text_prop (js "name") x), (text_prop (js "type") x).
Qed.

#[export, refine] Instance payments_editor : EntryEditor json (jstr * jstr) := {
  ee_key := Payments.key; ee_entries := Payments.paymentMethods;
  ee_save := Payments.handleSave; ee_delete := Payments.handleDelete;
  ee_overwrites := false; ee_ok := items_ok Payments.key Payments.is_method; ee_valid := item_valid Payments.is_method }.
Proof.
  - intros t Hok. unfold Payments.paymentMethods. rewrite (items_shown _ _ t Hok). apply Hok.
  - intros t old e Hok Hv. unfold Payments.paymentMethods. rewrite (items_shown _ _ t Hok).
    intros Hold Hkey. by apply (items_save _ _ _ same_method_key); [..|apply Hkey].
  - intros t e Hok _. unfold Payments.paymentMethods. rewrite (items_shown _ _ t Hok).
    by apply (items_delete _ _ _ same_method_key).
Defined.
