(* ===== verification/CreemEditor.v ===== *)
(** * Creem products

    Model of [web/default/src/features/system-settings/integrations/creem-products-visual-editor.tsx]. *)

From S2P Require Import Prelude JsString JsNumber Json JsonPretty SettingsJson EntryEditors.
From stdpp Require Import gmap.
From Stdlib Require Import NArith ZArith SpecFloat.

(** ** Creem products *)

Module Creem.
Record CreemProduct := { name : jstr; productId : jstr; price : num; quota : num; currency : jstr }.

Definition item_of (d : CreemProduct) : json :=
  JObj [(js "name", JStr (name d)); (js "productId", JStr (productId d)); (js "price", JNum (price d));
        (js "quota", JNum (quota d)); (js "currency", JStr (currency d))].

Definition is_product (item : json) : bool :=
  match text_prop (js "name") item, text_prop (js "productId") item, num_prop (js "price") item,
        num_prop (js "quota") item, text_prop (js "currency") item with
  | Some _, Some _, Some _, Some _, Some c => str_eqb c (js "USD") || str_eqb c (js "EUR")
  | _, _, _, _, _ => false
  end.

Definition products (value : jstr) : list json := List.filter is_product (stored_array value).

Definition key (item : json) : jstr := default [] (text_prop (js "productId") item).

Definition same_product (e item : json) : bool :=
  match text_prop (js "productId") item with Some i => str_eqb i (key e) | None => false end.

Definition handleSave (value : jstr) (editData : option json) (data : json) : jstr :=
  let parsed := stored_array value in
  stringify_pretty (JArr
    match editData with
    | Some e => match replace_first (same_product e) data parsed with Some l => l | None => parsed ++ [data] end
    | None => parsed ++ [data]
    end).

Definition handleDelete (value : jstr) (product : json) : jstr :=
  stringify_pretty (JArr (List.filter (λ item, negb (same_product product item)) (stored_array value))).

Definition filteredProducts `{LowerCase} (searchText : jstr) (l : list json) : list json :=
  if negb (nonempty searchText) then l
  else List.filter (λ p, includes (toLowerCase searchText) (toLowerCase (default [] (text_prop (js "name") p)))
                         || includes (toLowerCase searchText) (toLowerCase (key p))) l.
End Creem.


Lemma same_product_key e x : Creem.is_product x = true → Creem.same_product e x = bool_decide (Creem.key x = Creem.key e).
Proof.
  unfold Creem.is_product, Creem.same_product, Creem.key.
  by destruct (text_prop (js "name") x), (text_prop (js "productId") x).
Qed.

#[export, refine] Instance creem_editor : EntryEditor json jstr := {
  ee_key := Creem.key; ee_entries := Creem.products;
  ee_save := Creem.handleSave; ee_delete := Creem.handleDelete;
  ee_overwrites := false; ee_ok := items_ok Creem.key Creem.is_product; ee_valid := item_valid Creem.is_product }.
Proof.
  - intros t Hok. unfold Creem.products. rewrite (items_shown _ _ t Hok). apply Hok.
  - intros t old e Hok Hv. unfold Creem.products. rewrite (items_shown _ _ t Hok).
    intros Hold Hkey. by apply (items_save _ _ _ same_product_key); [..|apply Hkey].
  - intros t e Hok _. unfold Creem.products. rewrite (items_shown _ _ t Hok).
    by apply (items_delete _ _ _ same_product_key).
Defined.
