(* ===== verification/RateLimitEditor.v ===== *)
(** * Rate limits of groups

    Model of [web/default/src/features/system-settings/request-limits/rate-limit-visual-editor.tsx]:
    an object from group names to pairs of numbers. *)

From S2P Require Import Prelude JsString JsNumber Json JsonPretty SettingsJson EntryEditors.
From stdpp Require Import gmap.
From Stdlib Require Import NArith ZArith SpecFloat.

(** ** Rate limits of groups *)

Module RateLimits.
Record RateLimitEntry := { groupName : jstr; maxRequests : num; maxSuccess : num }.

Definition entry_of (kv : jstr * json) : option RateLimitEntry :=
  match kv.2 with
  | JArr [JNum a; JNum b] => Some {| groupName := kv.1; maxRequests := a; maxSuccess := b |}
  | _ => None
  end.

Definition rateLimits (value : jstr) : list RateLimitEntry :=
  if negb (nonempty value) || str_eqb (trim value) [] then [] else omap entry_of (stored_object value).

Definition handleSave (value : jstr) (editData : option RateLimitEntry) (data : RateLimitEntry) : jstr :=
  let parsed := stored_object value in
  let parsed := match editData with
    | Some e => if str_eqb (groupName e) (groupName data) then parsed else obj_delete (groupName e) parsed
    | None => parsed
    end in
  stringify_pretty (JObj (put_prop parsed (groupName data) (JArr [JNum (maxRequests data); JNum (maxSuccess data)]))).

Definition handleDelete (value : jstr) (group : jstr) : jstr :=
  stringify_pretty (JObj (obj_delete group (stored_object value))).

Definition filteredRateLimits `{LowerCase} (searchText : jstr) (l : list RateLimitEntry) : list RateLimitEntry :=
  if negb (nonempty searchText) then l
  else List.filter (λ e, includes (toLowerCase searchText) (toLowerCase (groupName e))) l.
End RateLimits.


(** *** Rate limits *)

Definition rate_item (e : RateLimits.RateLimitEntry) : jstr * json :=
  (RateLimits.groupName e, JArr [JNum (RateLimits.maxRequests e); JNum (RateLimits.maxSuccess e)]).

Lemma rates_read t : RateLimits.rateLimits t = omap RateLimits.entry_of (stored_object t).
Proof.
  unfold RateLimits.rateLimits, stored_object, safeJsonParseWithValidation, safeJsonParse.
  by destruct (negb (nonempty t) || str_eqb (trim t) []).
Qed.

Lemma rates_of_items l : omap RateLimits.entry_of (map rate_item l) = l.
Proof. induction l as [|[] l IH]; [done|]. cbn. by rewrite IH. Qed.

Definition rates_ok (t : jstr) : Prop := object_ok rate_item t (RateLimits.rateLimits t).

Lemma rates_ok_intro t l : object_ok rate_item t l → rates_ok t ∧ RateLimits.rateLimits t = l.
Proof.
  intros [E1 Hok]. assert (RateLimits.rateLimits t = l) as E2 by (by rewrite rates_read, E1, rates_of_items).
  split; [|done]. unfold rates_ok, object_ok. by rewrite E2.
Qed.

#[export, refine] Instance rates_editor : EntryEditor RateLimits.RateLimitEntry jstr := {
  ee_key := RateLimits.groupName; ee_entries := RateLimits.rateLimits;
  ee_save := RateLimits.handleSave; ee_delete t e := RateLimits.handleDelete t (RateLimits.groupName e);
  ee_overwrites := true; ee_ok := rates_ok; ee_valid := entry_ok rate_item }.
Proof.
  - intros t Hok. by apply (object_ok_nodup rate_item t).
  - intros t old e Hok He _ _. destruct (object_save rate_item t _ old e Hok He) as (l' & Hl & Hp).
    destruct (rates_ok_intro _ _ Hl) as [H1 H2]. split; [exact H1|]. rewrite <- Hp, <- H2. reflexivity.
  - intros t e Hok _. destruct (object_delete rate_item t _ (RateLimits.groupName e) Hok) as (l' & Hl & Hp).
    destruct (rates_ok_intro _ _ Hl) as [H1 H2]. split; [exact H1|]. rewrite <- Hp, <- H2. reflexivity.
Defined.
