(* ===== verification/ChatLinks.v ===== *)
(** * Chat links

    Model of [web/default/src/features/chat/lib/chat-links.ts], [lib/send-to-fluent.ts],
    [hooks/use-chat-presets.ts] and [hooks/use-active-chat-key.ts], with the places that
    use them: the route [/chat/$chatId], the page [chat2link], the sidebar entry and the
    row actions of the key table.  The presets are those that the editor of [ChatEditor]
    stores; the link of a preset is its text with the placeholders filled in. *)

From S2P Require Import Prelude JsString JsRegExp JsNumber Json JsonPretty SettingsJson EntryEditors ChatEditor Base64.
From stdpp Require Import gmap.
From Stdlib Require Import NArith ZArith ZifyN ZifyNat ZifyBool SpecFloat.

(** ** Texts *)

(** [s.split(tok)] for a token that is not empty; the fuel is the number of units left. *)
Fixpoint split_fuel (fuel : nat) (tok s : jstr) : list jstr :=
  match fuel, index_of tok s with
  | S fuel, Some i => take i s :: split_fuel fuel tok (drop (i + length tok) s)
  | _, _ => [s]
  end.

Definition split_text (tok s : jstr) : list jstr := split_fuel (length s) tok s.

Definition replaceToken (source token value : jstr) : jstr := str_join value (split_text token source).

(** ** encodeURIComponent *)

Definition uri_plain (c : N) : bool :=
  ((65 <=? c) && (c <=? 90) || (97 <=? c) && (c <=? 122) || (48 <=? c) && (c <=? 57))%N || one_of (js "-_.!~*'()") c.

(** The code points of a text: none for one with a lone surrogate. *)
Fixpoint code_points (s : jstr) : option (list N) :=
  match s with
  | [] => Some []
  | c :: s' =>
    if is_lead c then
      match s' with
      | d :: s'' => if is_trail d then cons (65536 + (c - 55296) * 1024 + (d - 56320))%N <$> code_points s'' else None
      | [] => None
      end
    else if is_trail c then None else cons c <$> code_points s'
  end.

Definition utf8 (p : N) : list N :=
  (if p <? 128 then [p]
   else if p <? 2048 then [192 + p / 64; 128 + p mod 64]
   else if p <? 65536 then [224 + p / 4096; 128 + p / 64 mod 64; 128 + p mod 64]
   else [240 + p / 262144; 128 + p / 4096 mod 64; 128 + p / 64 mod 64; 128 + p mod 64])%N.

Definition hex_upper (d : N) : N := if (d <? 10)%N then (48 + d)%N else (55 + d)%N.
Definition percent (b : N) : jstr := [37; hex_upper (b / 16); hex_upper (b mod 16)]%N.

Definition encode_point (p : N) : jstr := if uri_plain p then [p] else concat (map percent (utf8 p)).

Definition encodeURIComponent (s : jstr) : exn jstr :=
  match code_points s with Some l => Ret (concat (map encode_point l)) | None => Throw end.

(** ** Presets *)

Inductive ChatLinkType := Web | CustomProtocol | Fluent.
#[export] Instance ChatLinkType_eq_dec : EqDecision ChatLinkType.
Proof. solve_decision. Defined.

Record ChatPreset := { id : jstr; name : jstr; url : jstr; type : ChatLinkType }.

(** [/^https?:\/\//i]: the letters of the pattern match in both cases, and no letter outside
    ASCII matches one of them. *)
Definition HTTP_REGEX (s : jstr) : bool :=
  let s := map ascii_lower s in starts_with (js "http://") s || starts_with (js "https://") s.

Definition detectChatLinkType `{LowerCase} (url : jstr) : ChatLinkType :=
  if HTTP_REGEX url then Web else if starts_with (js "fluent") (toLowerCase url) then Fluent else CustomProtocol.

Definition chatLinkRequiresApiKey (url : jstr) : bool :=
  includes (js "{key}") url || includes (js "{cherryConfig}") url || includes (js "{aionuiConfig}") url
  || includes (js "{deepchatConfig}") url.

Definition preset_of `{LowerCase} (index : nat) (entry : json) : option ChatPreset :=
  match entry with
  | JObj [(name, JStr value)] =>
    let url := trim value in
    if negb (nonempty url) then None
    else Some {| id := dec (N.of_nat index); name := name; url := url; type := detectChatLinkType url |}
  | _ => None
  end.

(** [None] is null or undefined. *)
Definition parseChatConfig `{LowerCase} (raw : option json) : list ChatPreset :=
  let parsed := match raw with Some (JStr s) => json_parse s | _ => raw end in
  match parsed with Some (JArr l) => omap (λ p, p) (imap preset_of l) | _ => [] end.

Definition normalizeApiKey (apiKey : jstr) : jstr :=
  let trimmed := trim apiKey in
  if negb (nonempty trimmed) then [] else if starts_with (js "sk-") trimmed then trimmed else js "sk-" ++ trimmed.

(** The object that a configuration placeholder carries. *)
Definition config_payload (tag tag_value address key : jstr) : json :=
  JObj [(tag, JStr tag_value); (js "baseUrl", JStr address); (js "apiKey", JStr key)].

Definition config_link (template token : jstr) (payload : json) : exn jstr :=
  b64 ← btoa (stringify payload); encoded ← encodeURIComponent b64; Ret (replaceToken template token encoded).

(** A missing key is the empty one. *)
Definition resolveChatUrl (template : jstr) (apiKey : option jstr) (serverAddress : jstr) : exn jstr :=
  let safeApiKey := normalizeApiKey (default [] apiKey) in
  if includes (js "{cherryConfig}") template
  then config_link template (js "{cherryConfig}") (config_payload (js "id") (js "new-api") serverAddress safeApiKey)
  else if includes (js "{aionuiConfig}") template
  then config_link template (js "{aionuiConfig}") (config_payload (js "platform") (js "new-api") serverAddress safeApiKey)
  else if includes (js "{deepchatConfig}") template
  then config_link template (js "{deepchatConfig}") (config_payload (js "id") (js "new-api") serverAddress safeApiKey)
  else
    url ← (if nonempty serverAddress
           then e ← encodeURIComponent serverAddress; Ret (replaceToken template (js "{address}") e) else Ret template);
    Ret (if nonempty safeApiKey then replaceToken url (js "{key}") safeApiKey else url).

Record ActiveApiKey := { key : jstr; status : Z }.

Definition ENABLED : Z := 1.

Definition getFirstActiveKey (keys : option (list ActiveApiKey)) : option ActiveApiKey :=
  match keys with
  | None => None
  | Some keys => List.find (λ item, (status item =? ENABLED)%Z) keys
  end.

(** ** Reading the presets *)

Definition defined (v : option json) : option json := match v with Some JNull => None | _ => v end.

(** [a ?? b ?? ...]. *)
Definition coalesce (l : list (option json)) : option json := head (omap defined l).

(** The text under [status] in the local storage. *)
Definition getStoredStatusChats (stored : option jstr) : option json :=
  match stored with
  | None | Some [] => None
  | Some raw => match json_parse raw with
    | Some parsed => coalesce [prop (js "chats") parsed; prop (js "Chats") parsed]
    | None => None
    end
  end.

Definition field (k : string) (status : option json) : option json := s ← status; prop (js k) s.

Definition extractServerAddress (origin : jstr) (status : option json) : jstr :=
  match coalesce [field "server_address" status; field "serverAddress" status;
                  field "server_address" (field "data" status); field "serverAddress" (field "data" status)] with
  | Some (JStr s) => if nonempty s then s else origin
  | _ => origin
  end.

Definition extractChats (stored : option jstr) (status : option json) : option json :=
  match coalesce [field "Chats" status; field "chats" status; field "Chats" (field "data" status); field "chats" (field "data" status)] with
  | Some raw => Some raw
  | None => getStoredStatusChats stored
  end.

Definition useChatPresets `{LowerCase} (stored : option jstr) (origin : jstr) (status : option json) : list ChatPreset * jstr :=
  (parseChatConfig (extractChats stored status), extractServerAddress origin status).

(** ** Keys *)

(** The answers of the two requests: the keys of the first page, and the text of one key. *)
Record key_item := { ki_id : Z; ki_status : Z }.
Inductive answer (A : Type) := Success (x : A) | Failure.
Arguments Success {A}.
Arguments Failure {A}.

Definition fetchActiveChatKey (getApiKeys : answer (option (list key_item))) (fetchTokenKey : Z → answer (option jstr)) : exn jstr :=
  match getApiKeys with
  | Failure => Throw
  | Success items =>
    match List.find (λ item, (ki_status item =? ENABLED)%Z) (default [] items) with
    | None => Throw
    | Some active =>
      match fetchTokenKey (ki_id active) with
      | Success (Some (c :: key)) => Ret (js "sk-" ++ c :: key)
      | _ => Throw
      end
    end
  end.

(** The key that the key table resolves. *)
Definition resolveRealKey (res : answer (option jstr)) : option jstr :=
  match res with Success (Some (c :: key)) => Some (js "sk-" ++ c :: key) | _ => None end.

(** [None]: the extension is not there.  Otherwise the address and the key that are sent. *)
Definition sendToFluent (container : bool) (origin apiKey serverAddress : jstr) : option (jstr * jstr) :=
  if container then Some (str_or serverAddress origin, js "sk-" ++ apiKey) else None.

(** ** Places that open links *)

Definition visiblePresets (l : list ChatPreset) : list ChatPreset := List.filter (λ p, negb (bool_decide (type p = Fluent))) l.

(** The preset that the route of an identifier shows. *)
Definition route_preset (chatId : jstr) (l : list ChatPreset) : option ChatPreset :=
  match num_to_Z (to_number chatId) with
  | Some i => if (i <? 0)%Z then None else l !! Z.to_nat i
  | None => None
  end.

Definition iframeSrc (preset : option ChatPreset) (activeKey : option jstr) (serverAddress : jstr) : exn jstr :=
  match preset with
  | Some p =>
    if bool_decide (type p = Web) then
      let required := chatLinkRequiresApiKey (url p) in
      if required && match activeKey with None | Some [] => true | _ => false end then Ret []
      else resolveChatUrl (url p) (if required then activeKey else None) serverAddress
    else Ret []
  | None => Ret []
  end.

Definition firstWebPreset (l : list ChatPreset) : option ChatPreset := List.find (λ p, bool_decide (type p = Web)) l.

Inductive opened := Nothing | Sent (address key : jstr) | Opened (url : jstr).

(** [handleOpenChatPreset] of a row of the key table. *)
Definition handleOpenChatPreset (container : bool) (origin serverAddress : jstr) (res : answer (option jstr)) (preset : ChatPreset)
    : exn opened :=
  match resolveRealKey res with
  | None => Ret Nothing
  | Some realKey =>
    match type preset with
    | Fluent => Ret (match sendToFluent container origin realKey serverAddress with Some (a, k) => Sent a k | None => Nothing end)
    | _ => u ← resolveChatUrl (url preset) (Some realKey) serverAddress; Ret (if nonempty u then Opened u else Nothing)
    end
  end.

(** ** Replacing a placeholder *)
Lemma index_of_bound p a b : p ≠ [] → ∃ j, index_of p (a ++ p ++ b) = Some j ∧ j ≤ length a.
Proof.
  intros Hp. induction a as [|c a (j & IH & Hj)]; cbn [app].
  - exists 0. pose proof (prefixb_app p b) as H. split; [|done]. destruct (p ++ b); cbn [index_of]; by rewrite H.
  - cbn [index_of]. destruct (prefixb p (c :: a ++ p ++ b)); [exists 0; split; [done|cbn; lia]|]. rewrite IH. exists (S j).
    split; [done|cbn; lia].
Qed.

Lemma index_of_minimal p s i : p ≠ [] → index_of p s = Some i → includes p (take i s) = false.
Proof.
  intros Hp Hi. destruct (includes p (take i s)) eqn:E; [|done]. apply includes_spec in E as (a & b & E).
  assert (i ≤ length s) as Hl by (by apply index_of_Some in Hi as (? & _ & ?)).
  assert (s = a ++ p ++ (b ++ drop i s)) as Hs by (rewrite <- (take_drop i s) at 1; rewrite E; by rewrite <- !app_assoc).
  destruct (index_of_bound p a (b ++ drop i s) Hp) as (j & Hj & Hle). rewrite <- Hs, Hi in Hj. injection Hj as <-.
  apply (f_equal length) in E. rewrite length_take, !length_app in E. destruct p; [done|]. cbn in E. lia.
Qed.

Lemma split_fuel_spec tok f s : tok ≠ [] → length s ≤ f →
  str_join tok (split_fuel f tok s) = s ∧ Forall (λ p, includes tok p = false) (split_fuel f tok s) ∧ split_fuel f tok s ≠ [].
Proof.
  intros Ht. revert s. induction f as [|f IH]; intros s Hs; cbn [split_fuel].
  - destruct s; [|cbn in Hs; lia]. split_and!; [done| |done]. apply Forall_singleton. unfold includes. cbn. by destruct tok.
  - destruct (index_of tok s) as [i|] eqn:Ei.
    + destruct (IH (drop (i + length tok) s)) as (H1 & H2 & H3).
      { rewrite length_drop. destruct tok; [done|]. cbn. destruct s; [by apply index_of_Some in Ei as (t & E & _); destruct (take i [])|]. cbn in *. lia. }
      split_and!; [|constructor; [by apply index_of_minimal|done]|done].
      rewrite join_cons, H1 by done. destruct (index_of_Some _ _ _ Ei) as (t & E & Hl).
      assert (drop (i + length tok) s = t) as ->.
      { rewrite E at 1. rewrite app_assoc, drop_app_length'; [done|]. rewrite length_app, length_take. lia. }
      by symmetry.
    + split_and!; [done| |done]. apply Forall_singleton. unfold includes. by rewrite Ei.
Qed.

(** The text is the pieces around the placeholder, none of which contains it, and the result
    is the same pieces around the value. *)
Lemma replaceToken_spec source token value : token ≠ [] →
  ∃ pieces, source = str_join token pieces ∧ Forall (λ p, includes token p = false) pieces
    ∧ replaceToken source token value = str_join value pieces.
Proof.
  intros Ht. destruct (split_fuel_spec token (length source) source Ht) as (H1 & H2 & _); [lia|].
  exists (split_text token source). by split_and!.
Qed.

(** ** The text that an encoded component stands for *)

Fixpoint uri_bytes (s : jstr) : option (list N) :=
  match s with
  | [] => Some []
  | 37%N :: s' =>
    match s' with
    | a :: b :: s'' =>
      match hex_digit a, hex_digit b with Some x, Some y => cons (16 * x + y)%N <$> uri_bytes s'' | _, _ => None end
    | _ => None
    end
  | c :: s' => cons c <$> uri_bytes s'
  end.

Fixpoint utf8_points (l : list N) : option (list N) :=
  match l with
  | [] => Some []
  | a :: l1 =>
    (if (a <? 128)%N then cons a <$> utf8_points l1
     else match l1 with
     | [] => None
     | b :: l2 =>
       if (a <? 224)%N then cons ((a - 192) * 64 + (b - 128))%N <$> utf8_points l2
       else match l2 with
       | [] => None
       | c :: l3 =>
         if (a <? 240)%N then cons ((a - 224) * 4096 + (b - 128) * 64 + (c - 128))%N <$> utf8_points l3
         else match l3 with
         | [] => None
         | d :: l4 => cons ((a - 240) * 262144 + (b - 128) * 4096 + (c - 128) * 64 + (d - 128))%N <$> utf8_points l4
         end
       end
     end)
  end.

Definition units_of (p : N) : jstr := (if p <? 65536 then [p] else [55296 + (p - 65536) / 1024; 56320 + (p - 65536) mod 1024])%N.

Definition uri_text (s : jstr) : option jstr := l ← uri_bytes s; p ← utf8_points l; Some (concat (map units_of p)).

(** A code point that is no surrogate. *)
Definition point_ok (p : N) : Prop := (p < 1114112)%N ∧ is_lead p = false ∧ is_trail p = false.

Lemma utf8_points_app p l : point_ok p → utf8_points (utf8 p ++ l) = cons p <$> utf8_points l.
Proof.
  intros (Hp & _ & _). unfold utf8. destruct (p <? 128)%N eqn:H1; [by cbn; rewrite H1|].
  destruct (p <? 2048)%N eqn:H2; [|destruct (p <? 65536)%N eqn:H3]; cbn [app utf8_points].
  - replace (192 + p / 64 <? 128)%N with false by lia. replace (192 + p / 64 <? 224)%N with true by euclid. do 2 f_equal. euclid.
  - replace (224 + p / 4096 <? 128)%N with false by lia. replace (224 + p / 4096 <? 224)%N with false by lia.
    replace (224 + p / 4096 <? 240)%N with true by euclid. do 2 f_equal. euclid.
  - replace (240 + p / 262144 <? 128)%N with false by lia. replace (240 + p / 262144 <? 224)%N with false by lia.
    replace (240 + p / 262144 <? 240)%N with false by lia. do 2 f_equal. euclid.
Qed.

Lemma utf8_byte p : point_ok p → Forall (λ b, (b < 256)%N) (utf8 p).
Proof.
  intros (Hp & _ & _). unfold utf8. repeat case_match; rewrite ?Forall_cons, ?Forall_nil; split_and!; try done; euclid.
Qed.

Lemma percent_bytes b s : (b < 256)%N → uri_bytes (percent b ++ s) = cons b <$> uri_bytes s.
Proof.
  intros Hb. assert (hex_digit (hex_upper (b / 16)) = Some (b / 16)%N ∧ hex_digit (hex_upper (b mod 16)) = Some (b mod 16)%N) as [H1 H2].
  { revert b Hb. refine (small_cases 256 _ _). apply (bool_decide_eq_true_1 _). vm_compute. reflexivity. }
  unfold percent. cbn [app uri_bytes]. rewrite H1, H2. do 2 f_equal. euclid.
Qed.

Lemma percents_bytes l s : Forall (λ b, (b < 256)%N) l → uri_bytes (concat (map percent l) ++ s) = app l <$> uri_bytes s.
Proof.
  induction 1 as [|b l Hb Hl IH]; [by cbn; destruct (uri_bytes s)|]. cbn [map concat]. rewrite <- app_assoc, percent_bytes, IH by done.
  by destruct (uri_bytes s).
Qed.

Lemma uri_plain_ascii c : uri_plain c = true → (c < 128)%N ∧ c ≠ 37%N.
Proof.
  destruct (decide (c < 128)%N) as [Hc|Hc].
  - revert c Hc. refine (small_cases 128 _ _). apply Forall_forall. intros c Hin Hp. split.
    + apply list_elem_of_fmap in Hin as (k & -> & Hk%elem_of_seq). lia.
    + intros ->. revert Hp. vm_compute. done.
  - unfold uri_plain. intros H. exfalso. apply orb_true_iff in H as [H|H]; [lia|].
    unfold one_of in H. apply bool_decide_eq_true_1 in H. revert H. js_eval. rewrite !elem_of_cons, elem_of_nil. lia.
Qed.

Lemma encode_point_bytes p s : point_ok p → uri_bytes (encode_point p ++ s) = app (utf8 p) <$> uri_bytes s.
Proof.
  intros Hp. unfold encode_point. destruct (uri_plain p) eqn:E; [|by apply percents_bytes, utf8_byte].
  apply uri_plain_ascii in E as [Ha Hne]. unfold utf8. rewrite (proj2 (N.ltb_lt _ _) Ha). cbn [app].
  assert (∀ c t, c ≠ 37%N → uri_bytes (c :: t) = cons c <$> uri_bytes t) as H.
  { intros c t Hc. cbn [uri_bytes]. repeat case_match; congruence. }
  rewrite H by done. by destruct (uri_bytes s).
Qed.

Lemma code_points_units s l : Forall code_unit s → code_points s = Some l → concat (map units_of l) = s ∧ Forall point_ok l.
Proof.
  revert l. induction s as [s IH] using (induction_ltof1 _ (@length N)). unfold ltof in IH. intros l Hs. unfold code_unit in Hs.
  destruct s as [|c s]; [by intros [= <-]|]. apply Forall_cons_1 in Hs as [Hc Hs]. cbn [code_points].
  destruct (is_lead c) eqn:Hl.
  - destruct s as [|d s]; [done|]. destruct (is_trail d) eqn:Ht; [|done]. apply Forall_cons_1 in Hs as [Hd Hs].
    destruct (code_points s) as [l'|] eqn:El; [|done]. intros [= <-].
    destruct (IH s) with (l := l') as [H1 H2]; [cbn; lia|done..|]. cbn [map concat]. rewrite H1. clear IH H1 El.
    unfold is_lead, is_trail in *. split.
    + unfold units_of. replace (65536 + (c - 55296) * 1024 + (d - 56320) <? 65536)%N with false by lia. cbn [app].
      f_equal; [euclid|]. f_equal. euclid.
    + constructor; [|done]. unfold point_ok, is_lead, is_trail. split_and!; lia.
  - destruct (is_trail c) eqn:Ht; [done|]. destruct (code_points s) as [l'|] eqn:El; [|done]. intros [= <-].
    destruct (IH s) with (l := l') as [H1 H2]; [cbn; lia|done..|]. cbn [map concat]. rewrite H1. split.
    + unfold units_of. by replace (c <? 65536)%N with true by lia.
    + constructor; [|done]. unfold point_ok. split_and!; [lia|done..].
Qed.

Lemma encode_points_bytes l : Forall point_ok l → uri_bytes (concat (map encode_point l)) = Some (concat (map utf8 l)).
Proof. induction 1 as [|p l Hp Hl IH]; [done|]. cbn [map concat]. by rewrite encode_point_bytes, IH. Qed.

Lemma points_of_utf8 l : Forall point_ok l → utf8_points (concat (map utf8 l)) = Some l.
Proof. induction 1 as [|p l Hp Hl IH]; [done|]. cbn [map concat]. by rewrite utf8_points_app, IH. Qed.

(** An encoded component stands for the text it was made of. *)
Lemma uri_text_encoded s e : Forall code_unit s → encodeURIComponent s = Ret e → uri_text e = Some s.
Proof.
  intros Hs. unfold encodeURIComponent. destruct (code_points s) as [l|] eqn:El; [|done]. intros [= <-].
  destruct (code_points_units s l Hs El) as [H1 H2]. unfold uri_text. rewrite encode_points_bytes by done. cbn [mbind option_bind].
  rewrite points_of_utf8 by done. cbn [mbind option_bind]. by rewrite H1.
Qed.

(** Only plain units and escapes remain. *)
Lemma encoded_units s e : Forall code_unit s → encodeURIComponent s = Ret e → Forall (λ c, uri_plain c = true ∨ c = 37%N) e.
Proof.
  intros Hs. unfold encodeURIComponent. destruct (code_points s) as [l|] eqn:El; [|done]. intros [= <-].
  destruct (code_points_units s l Hs El) as [_ H]. apply Forall_concat, Forall_map. eapply Forall_impl; [exact H|].
  intros p Hp. cbn. unfold encode_point. destruct (uri_plain p) eqn:E; [apply Forall_singleton; by left|].
  apply Forall_concat, Forall_map. eapply Forall_impl; [apply utf8_byte, Hp|]. intros b Hb. cbn. unfold percent.
  assert (uri_plain (hex_upper (b / 16)) = true ∧ uri_plain (hex_upper (b mod 16)) = true) as [H1 H2].
  { revert b Hb. refine (small_cases 256 _ _). apply (bool_decide_eq_true_1 _). vm_compute. reflexivity. }
  constructor; [by right|]. constructor; [by left|]. constructor; [by left|constructor].
Qed.

Lemma ascii_points s : Forall (λ c, (c < 256)%N) s → code_points s = Some s.
Proof.
  induction 1 as [|c s Hc Hs IH]; [done|]. cbn [code_points]. rewrite IH.
  replace (is_lead c) with false by (unfold is_lead; lia). by replace (is_trail c) with false by (unfold is_trail; lia).
Qed.

(** ** Links with a configuration *)

(** The placeholder of a template, with the field that names the platform. *)
Definition config_token (template : jstr) : option (jstr * jstr) :=
  if includes (js "{cherryConfig}") template then Some (js "{cherryConfig}", js "id")
  else if includes (js "{aionuiConfig}") template then Some (js "{aionuiConfig}", js "platform")
  else if includes (js "{deepchatConfig}") template then Some (js "{deepchatConfig}", js "id")
  else None.

Lemma resolve_config template apiKey address tok tag : config_token template = Some (tok, tag) →
  tok ≠ [] ∧ includes tok template = true ∧ (tag = js "id" ∨ tag = js "platform")
  ∧ resolveChatUrl template apiKey address
    = config_link template tok (config_payload tag (js "new-api") address (normalizeApiKey (default [] apiKey))).
Proof.
  unfold config_token, resolveChatUrl.
  destruct (includes (js "{cherryConfig}") template) eqn:H1; [intros [= <- <-]; auto|].
  destruct (includes (js "{aionuiConfig}") template) eqn:H2; [intros [= <- <-]; auto|].
  destruct (includes (js "{deepchatConfig}") template) eqn:H3; [intros [= <- <-]; auto|]. done.
Qed.

Lemma payload_json_ok tag address key :
  tag = js "id" ∨ tag = js "platform" → Forall code_unit address → Forall code_unit key →
  json_ok (config_payload tag (js "new-api") address key).
Proof.
  intros Ht Ha Hk. unfold config_payload. apply ok_obj.
  - rewrite !Forall_cons, Forall_nil. cbn [fst]. split_and!; [|apply code_units_b; vm_compute; reflexivity..|done].
    destruct Ht as [-> | ->]; apply code_units_b; vm_compute; reflexivity.
  - rewrite !Forall_cons, Forall_nil. cbn [snd].
    split_and!; [apply ok_str, code_units_b; vm_compute; reflexivity|by apply ok_str..|done].
  - destruct Ht as [-> | ->]; reflexivity.
Qed.

Lemma btoa_throws b : (∃ c, c ∈ b ∧ (256 <= c)%N) → btoa b = Throw.
Proof.
  intros (c & Hc & Hb). unfold btoa. destruct (forallb _ b) eqn:E; [|done]. rewrite forallb_forall in E.
  specialize (E c (proj1 (list_elem_of_In _ _) Hc)). lia.
Qed.

(** What a program that opens the link finds in it. *)
Definition opens_config (encoded : jstr) (payload : json) : Prop :=
  ∃ b64 text, uri_text encoded = Some b64 ∧ atob b64 = Ret text ∧ json_parse text = Some payload.

(** C32: A link with a configuration placeholder is the template with every occurrence of
    the placeholder replaced by one and the same component, of which only plain characters
    and escapes are part; undoing the percent encoding, the base64 and the JSON gives the
    platform, the address of the server and the key with its prefix.  This holds when every
    code unit of the JSON text is below 256; when one is not, no link is made: the
    function throws. *)
Theorem config_link_spec (template address tok tag : jstr) (apiKey : option jstr) :
  let key := normalizeApiKey (default [] apiKey) in
  let payload := config_payload tag (js "new-api") address key in
  config_token template = Some (tok, tag) → Forall code_unit address → Forall code_unit key →
  (bytes_ok (stringify payload) →
   ∃ pieces encoded, resolveChatUrl template apiKey address = Ret (str_join encoded pieces)
     ∧ template = str_join tok pieces ∧ Forall (λ p, includes tok p = false) pieces
     ∧ Forall (λ c, uri_plain c = true ∨ c = 37%N) encoded ∧ opens_config encoded payload)
  ∧ ((∃ c, c ∈ stringify payload ∧ (256 <= c)%N) → resolveChatUrl template apiKey address = Throw).
Proof.
  intros key payload Ht Ha Hk. destruct (resolve_config template apiKey address tok tag Ht) as (Hne & _ & Htag & ->).
  fold key. fold payload. unfold config_link. split; [|by intros ->%btoa_throws].
  intros Hb. destruct (btoa_atob _ Hb) as (b64 & -> & Hat & Hv). cbn [mbind exn_bind].
  assert (Forall (λ c, (c < 256)%N) b64) as H256.
  { eapply Forall_impl; [exact Hv|]. intros c [Hc|Hc]; [|by subst c].
    unfold b64_value, PLUS, SLASH in Hc. cbn in Hc. repeat (case_match; [lia|]). done. }
  assert (Forall code_unit b64) as Hcu by (eapply Forall_impl; [exact H256|]; unfold code_unit; intros; lia).
  destruct (encodeURIComponent b64) as [encoded|] eqn:He; [|by unfold encodeURIComponent in He; rewrite ascii_points in He].
  cbn [mbind exn_bind]. destruct (replaceToken_spec template tok encoded Hne) as (pieces & Hs & Hp & ->).
  exists pieces, encoded. split_and!; [done..|by eapply encoded_units|].
  exists b64, (stringify payload). split_and!; [by apply uri_text_encoded|done|]. by apply json_parse_stringify, payload_json_ok.
Qed.

Lemma config_link_spec_witness :
  ∃ pieces encoded, resolveChatUrl (js "app://add?c={cherryConfig}") (Some (js "abc")) (js "https://a.b") = Ret (str_join encoded pieces)
    ∧ opens_config encoded (config_payload (js "id") (js "new-api") (js "https://a.b") (js "sk-abc")).
Proof.
  destruct (config_link_spec (js "app://add?c={cherryConfig}") (js "https://a.b") (js "{cherryConfig}") (js "id") (Some (js "abc")))
    as [H _].
  - vm_compute. reflexivity.
  - apply code_units_b. vm_compute. reflexivity.
  - apply code_units_b. vm_compute. reflexivity.
  - destruct H as (pieces & encoded & Hr & _ & _ & _ & Ho).
    + apply (bool_decide_eq_true_1 _). vm_compute. reflexivity.
    + exists pieces, encoded. split; [exact Hr|exact Ho].
Defined.

(** ** Presets of the editor *)
Lemma omap_imap_lookup {A B} (f : nat → A → option B) l i :
  (∀ j x, l !! j = Some x → is_Some (f j x)) → omap (λ p, p) (imap f l) !! i = x ← l !! i; f i x.
Proof.
  revert f i. induction l as [|x l IH]; intros f i Hf; [done|]. rewrite imap_cons. cbn [omap list_omap].
  destruct (Hf 0 x eq_refl) as [y Hy]. rewrite Hy. destruct i as [|i]; cbn [lookup list_lookup]; [by cbn; rewrite Hy|].
  change (omap (λ p, p) (imap (f ∘ S) l) !! i = x ← l !! i; f (S i) x). apply (IH (f ∘ S)). intros j z Hz. by apply (Hf (S j)).
Qed.

Lemma index_number i : i < 1000 → num_to_Z (to_number (dec (N.of_nat i))) = Some (Z.of_nat i).
Proof.
  intros Hi. rewrite <- nat_N_Z. assert (N.of_nat i < N.of_nat 1000)%N as H by lia. revert H. generalize (N.of_nat i). clear.
  refine (small_cases 1000 _ _). apply (bool_decide_eq_true_1 _). vm_compute. reflexivity.
Qed.

Section presets.
Context `{LowerCase}.

(** The presets of a list of entries, each with the position of its entry. *)
Definition presets_of (l : list Chats.ChatEntry) : list ChatPreset := omap (λ p, p) (imap (λ i c, preset_of i (chat_item c)) l).

Definition blank_url (c : Chats.ChatEntry) : bool := negb (nonempty (trim (Chats.url c))).

Lemma parse_printed_presets l : json_ok (JArr (map chat_item l)) →
  parseChatConfig (Some (JStr (stringify_pretty (JArr (map chat_item l))))) = presets_of l.
Proof.
  intros Hok. unfold parseChatConfig. rewrite json_parse_pretty by done. unfold presets_of. f_equal.
  change (map chat_item l) with (chat_item <$> l). by rewrite imap_fmap.
Qed.

Lemma preset_nonblank i c : blank_url c = false →
  ∃ p, preset_of i (chat_item c) = Some p ∧ id p = dec (N.of_nat i) ∧ name p = Chats.name c ∧ url p = trim (Chats.url c).
Proof. unfold blank_url, preset_of, chat_item. intros ->. eexists. by split_and!. Qed.

(** With an address in every entry, the route of a shown preset shows that preset. *)
Lemma routes_match l p : Forall (λ c, blank_url c = false) l → length l ≤ 1000 → p ∈ presets_of l →
  route_preset (id p) (presets_of l) = Some p.
Proof.
  intros Hl Hn Hp. apply list_elem_of_lookup in Hp as [i Hi]. rewrite Forall_lookup in Hl.
  assert (presets_of l !! i = c ← l !! i; preset_of i (chat_item c)) as E.
  { apply omap_imap_lookup. intros j c Hc. destruct (preset_nonblank j c (Hl j c Hc)) as (q & -> & _). eauto. }
  pose proof Hi as Hi'. rewrite E in Hi. destruct (l !! i) as [c|] eqn:Ec; [|done]. cbn [mbind option_bind] in Hi.
  destruct (preset_nonblank i c (Hl i c Ec)) as (q & Hq & Hid & _). rewrite Hq in Hi. injection Hi as <-.
  apply lookup_lt_Some in Ec. unfold route_preset. rewrite Hid, index_number by lia.
  replace (Z.of_nat i <? 0)%Z with false by lia. by rewrite Nat2Z.id.
Qed.

Lemma presets_content l :
  map (λ p, (name p, url p)) (presets_of l)
  = map (λ c, (Chats.name c, trim (Chats.url c))) (List.filter (λ c, negb (blank_url c)) l).
Proof.
  unfold presets_of.
  assert (∀ k, map (λ p, (name p, url p)) (omap (λ p, p) (imap (λ i c, preset_of (k + i) (chat_item c)) l))
    = map (λ c, (Chats.name c, trim (Chats.url c))) (List.filter (λ c, negb (blank_url c)) l)) as Hg; [|apply (Hg 0)].
  induction l as [|c l IH]; intros k; [done|]. rewrite imap_cons. cbn [List.filter].
  assert (imap ((λ i c, preset_of (k + i) (chat_item c)) ∘ S) l = imap (λ i c, preset_of (S k + i) (chat_item c)) l) as ->.
  { apply imap_ext. intros i x _. unfold compose. by replace (k + S i) with (S k + i) by lia. }
  destruct (blank_url c) eqn:Hb; cbn [negb omap list_omap].
  - unfold preset_of at 1, chat_item at 1. unfold blank_url in Hb. rewrite Hb. apply IH.
  - destruct (preset_nonblank (k + 0) c Hb) as (p & -> & _ & Hn & Hu). cbn [map]. by rewrite Hn, Hu, <- (IH (S k)).
Qed.

Lemma saved_array t old e : json_ok (JArr (stored_array t)) → chat_valid e →
  ∃ l, Chats.handleSave t old e = stringify_pretty (JArr l) ∧ json_ok (JArr l).
Proof.
  intros Ht He. unfold Chats.handleSave. eexists. split; [reflexivity|]. apply json_ok_arr, Forall_app. apply json_ok_arr in Ht. split.
  - destruct old; [by apply Forall_filter_list|done].
  - by apply Forall_singleton.
Qed.

(** The site shows the presets that the administrator saves: after a save in the chat
    editor, the stored text is read as one preset for every entry of the editor whose
    address is not blank, in the editor's order, with its name and its trimmed address; and
    when no address is blank, the link of every shown preset opens that preset. *)
Theorem saved_presets_shown (t : jstr) (old : option Chats.ChatEntry) (e : Chats.ChatEntry) :
  chats_ok t → chat_valid e → match old with Some o => o ∈ chat_entries t | None => True end →
  own_or_free Chats.name (chat_entries t) old e →
  let t' := Chats.handleSave t old e in
  let shown := parseChatConfig (Some (JStr t')) in
  chat_entries t' ≡ₚ e :: but_edited Chats.name (chat_entries t) old
  ∧ shown = presets_of (chat_entries t')
  ∧ map (λ p, (name p, url p)) shown
    = map (λ c, (Chats.name c, trim (Chats.url c))) (List.filter (λ c, negb (blank_url c)) (chat_entries t'))
  ∧ (Forall (λ c, blank_url c = false) (chat_entries t') → length (chat_entries t') ≤ 1000 →
     ∀ p, p ∈ shown → route_preset (id p) shown = Some p).
Proof.
  intros Ht He Hold Hkey t' shown. destruct (@ee_save_spec _ _ _ _ chats_editor t old e Ht He Hold (λ _, Hkey)) as [Hok Hp].
  rewrite without_none in Hp by (by apply free_key).
  assert (shown = presets_of (chat_entries t')) as Hs.
  { destruct Ht as (l0 & _ & Hj & _). destruct (saved_array t old e Hj He) as (l & El & Hl).
    destruct (chats_ok_inv _ Hok) as (E & _). change (ee_save t old e) with t' in E. fold t' in El.
    rewrite El in E at 1. rewrite stored_array_printed in E by done. subst l. unfold shown. rewrite El at 1.
    by apply parse_printed_presets. }
  split_and!; [exact Hp|done|rewrite Hs; apply presets_content|rewrite Hs; intros Hb Hn p; by apply routes_match].
Qed.
End presets.

Definition demo_chats : jstr := stringify_pretty (JArr [chat_item {| Chats.name := js "A"; Chats.url := js "https://a?k={key}" |}]).

Definition demo_chat : Chats.ChatEntry := {| Chats.name := js "B"; Chats.url := js " fluent " |}.

Lemma saved_presets_shown_witness :
  let t' := Chats.handleSave demo_chats None demo_chat in
  map (λ p, (name p, url p)) (@parseChatConfig ascii_lower_case (Some (JStr t'))) = [(js "A", js "https://a?k={key}"); (js "B", js "fluent")].
Proof.
  destruct (@saved_presets_shown ascii_lower_case demo_chats None demo_chat) as (_ & _ & H & _).
  - exists [{| Chats.name := js "A"; Chats.url := js "https://a?k={key}" |}]. split; [vm_compute; reflexivity|].
    split; [apply json_okb_ok; vm_compute; reflexivity|apply NoDup_singleton].
  - apply json_okb_ok. vm_compute. reflexivity.
  - exact I.
  - intros Hin. exfalso. revert Hin. apply (bool_decide_eq_false_1 _). vm_compute. reflexivity.
  - etransitivity; [exact H|]. vm_compute. reflexivity.
Defined.

(** Identifiers are positions in the stored list, but the route looks them up among the
    presets that are left: after an entry with a blank address, the link of a preset opens
    the next one, or none. *)
Theorem blank_preset_shifts `{LowerCase} (u v : jstr) : u ≠ [] → v ≠ [] → trim u = u → trim v = v →
  let shown := parseChatConfig (Some (JArr [JObj [(js "A", JStr [])]; JObj [(js "B", JStr u)]; JObj [(js "C", JStr v)]])) in
  ∃ b c, shown = [b; c] ∧ name b = js "B" ∧ name c = js "C"
    ∧ route_preset (id b) shown = Some c ∧ route_preset (id c) shown = None.
Proof.
  intros Hu Hv Tu Tv.
  assert (∀ i n w, w ≠ [] → trim w = w → preset_of i (JObj [(n, JStr w)])
    = Some {| id := dec (N.of_nat i); name := n; url := w; type := detectChatLinkType w |}) as Hp.
  { intros i n w Hw Tw. unfold preset_of. rewrite Tw. by destruct w. }
  unfold parseChatConfig. rewrite !imap_cons. unfold compose. rewrite (Hp 1 (js "B") u), (Hp 2 (js "C") v) by done. do 2 eexists. split_and!; reflexivity.
Qed.

(** The key table resolves keys with their prefix, and the extension is sent a key with a
    second prefix. *)
Theorem fluent_key_doubled origin address c k p : type p = Fluent →
  handleOpenChatPreset true origin address (Success (Some (c :: k))) p = Ret (Sent (str_or address origin) (js "sk-sk-" ++ c :: k)).
Proof. intros H. unfold handleOpenChatPreset, resolveRealKey. by rewrite H. Qed.

(** A server address with a character outside Latin-1 makes a configuration link throw. *)
Theorem unicode_address_throws : resolveChatUrl (js "cherrystudio://x?data={cherryConfig}") (Some (js "k")) (js "https://例.com") = Throw.
Proof. vm_compute. reflexivity. Qed.

Lemma prefixed_key k : normalizeApiKey k = [] ∨ starts_with (js "sk-") (normalizeApiKey k) = true.
Proof.
  unfold normalizeApiKey. destruct (negb (nonempty (trim k))); [by left|]. destruct (starts_with (js "sk-") (trim k)) eqn:E; right; [done|].
  apply prefixb_app.
Qed.

(** A link without a configuration throws only on an address with a lone surrogate; otherwise
    the address is encoded and the key, which is empty or has its prefix, is put in as it is. *)
Theorem plain_link_spec template apiKey address :
  config_token template = None → Forall code_unit address →
  let key := normalizeApiKey (default [] apiKey) in
  (resolveChatUrl template apiKey address = Throw ↔ code_points address = None)
  ∧ ∀ url, resolveChatUrl template apiKey address = Ret url →
    ∃ e, uri_text e = Some address
      ∧ url = (let u := if nonempty address then replaceToken template (js "{address}") e else template in
               if nonempty key then replaceToken u (js "{key}") key else u)
      ∧ (key = [] ∨ starts_with (js "sk-") key = true).
Proof.
  intros Ht Ha key. unfold config_token in Ht. unfold resolveChatUrl. fold key.
  destruct (includes (js "{cherryConfig}") template); [done|]. destruct (includes (js "{aionuiConfig}") template); [done|].
  destruct (includes (js "{deepchatConfig}") template); [done|]. destruct address as [|c address]; cbn [nonempty].
  - split; [done|]. intros url [= <-]. exists []. split_and!; [done..|apply prefixed_key].
  - unfold encodeURIComponent at 1 2. destruct (code_points (c :: address)) as [l|] eqn:El; cbn [mbind exn_bind]; [|done].
    split; [done|]. intros url [= <-]. exists (concat (map encode_point l)). split_and!; [|done|apply prefixed_key].
    apply uri_text_encoded; [done|]. unfold encodeURIComponent. by rewrite El.
Qed.

(** The key for a link is the first enabled one of the page, with its prefix. *)
Theorem active_key_spec items fetch k :
  fetchActiveChatKey (Success (Some items)) fetch = Ret k →
  ∃ item s, List.find (λ i, (ki_status i =? ENABLED)%Z) items = Some item ∧ fetch (ki_id item) = Success (Some s) ∧ s ≠ []
    ∧ k = js "sk-" ++ s.
Proof.
  unfold fetchActiveChatKey. cbn [from_option]. change (Datatypes.id items) with items.
  destruct (List.find _ items) as [item|]; [|done].
  destruct (fetch (ki_id item)) as [[[|c s]|]|] eqn:Ef; try done. intros Hk. exists item, (c :: s). split_and!; [done..|]. congruence.
Qed.
