(* ===== verification/AmountEditors.v ===== *)
(** * Amounts and their discounts

    Model of [amount-discount-visual-editor.tsx] and [amount-options-visual-editor.tsx] of
    [web/default/src/features/system-settings/integrations]. *)

From S2P Require Import Prelude JsString JsNumber Json JsonPretty SettingsJson EntryEditors.
From stdpp Require Import gmap.
From Stdlib Require Import NArith ZArith SpecFloat.

(** ** Discounts by amount *)

(** [parseInt(s, 10)]. *)
Definition parse_int10 (s : jstr) : num :=
  let t := trim_start s in
  let '(neg, t) := match t with 45%N :: t => (true, t) | 43%N :: t => (false, t) | _ => (false, t) end in
  match span_digits t with
  | ([], _) => S754_nan
  | (ds, _) => dec_to_num neg (digits_val ds) 0
  end.

Module Discounts.
Record AmountDiscountData := { amount : num; discountRate : num }.

Definition entry_of (kv : jstr * json) : exn AmountDiscountData :=
  rate ← match kv.2 with JNum x => Ret x | v => s ← js_string v; Ret (parseFloat s) end;
  Ret {| amount := parse_int10 kv.1; discountRate := rate |}.

(** [(a, b) => a.amount - b.amount] as an order: a difference that is not negative. *)
Definition amount_le (a b : AmountDiscountData) : bool := negb (nlt (amount b) (amount a)).

Definition discounts (value : jstr) : exn (list AmountDiscountData) :=
  items ← mapM entry_of (stored_object value);
  Ret (stable_sort amount_le
    (List.filter (λ i, negb (is_nan (amount i)) && negb (is_nan (discountRate i))) items)).

Definition handleSave (value : jstr) (editData : option AmountDiscountData) (data : AmountDiscountData) : jstr :=
  let o := stored_object value in
  let o := match editData with
    | Some e => if num_eqb (amount e) (amount data) then o else obj_delete (num_to_string (amount e)) o
    | None => o
    end in
  stringify_pretty (JObj (put_prop o (num_to_string (amount data)) (JNum (discountRate data)))).

Definition handleDelete (value : jstr) (a : num) : jstr :=
  stringify_pretty (JObj (obj_delete (num_to_string a) (stored_object value))).

Definition formatPercentage (rate : num) : jstr :=
  if nle (num_of_Z 1) rate then js "0%"
  else num_to_string (num_round (nmul (nsub (num_of_Z 1) rate) (num_of_Z 100))) ++ js "%".
End Discounts.

(** ** Amounts to choose from *)

Module AmountOptions.
(** [(a, b) => a - b] as an order. *)
Definition num_le (a b : num) : bool := negb (nlt b a).

(** [typeof item === 'number' || !isNaN(Number(item))], then [map(Number)]. *)
Definition amounts (value : jstr) : exn (list num) :=
  xs ← mapM (λ v, match number_of_json v with Some x => Ret (v, x) | None => Throw end) (stored_array value);
  Ret (stable_sort num_le (map snd (List.filter (λ vx, match vx.1 with JNum _ => true | _ => negb (is_nan vx.2) end) xs))).

(** [filter((v, i, a) => a.indexOf(v) === i)]: the first of equal numbers. *)
Fixpoint first_of (seen l : list num) : list num :=
  match l with
  | [] => []
  | x :: l => if existsb (num_eqb x) seen || is_nan x then first_of seen l else x :: first_of (seen ++ [x]) l
  end.

(** [None]: nothing is written. *)
Definition handleAdd (current : list num) (newAmount : jstr) : option (list num) :=
  let amount := parseFloat newAmount in
  if is_nan amount || nle amount nzero then None
  else Some (stable_sort num_le (first_of [] (current ++ [amount]))).

Definition handleRemove (current : list num) (amount : num) : list num :=
  List.filter (λ a, negb (num_eqb a amount)) current.

Definition written (l : list num) : jstr := stringify_pretty (JArr (map JNum l)).
End AmountOptions.


(** *** Discounts *)

Definition discount_item (e : Discounts.AmountDiscountData) : jstr * json :=
  (num_to_string (Discounts.amount e), JNum (Discounts.discountRate e)).

(** An amount that its property name stands for, and a rate. *)
Definition discount_readable (e : Discounts.AmountDiscountData) : Prop :=
  parse_int10 (num_to_string (Discounts.amount e)) = Discounts.amount e ∧
  is_nan (Discounts.amount e) = false ∧ is_nan (Discounts.discountRate e) = false.

Definition discount_entries (t : jstr) : list Discounts.AmountDiscountData :=
  match Discounts.discounts t with Ret l => l | Throw => [] end.

Definition discounts_ok (t : jstr) : Prop := ∃ l, object_ok discount_item t l ∧ Forall discount_readable l.

Lemma num_eqb_refl x : is_nan x = false → num_eqb x x = true.
Proof.
  unfold num_eqb, SFeqb. destruct x as [s|s| |s m e]; try done; cbn [SFcompare].
  - by destruct s.
  - by destruct s; rewrite Z.compare_refl; change (Pos.compare_cont Eq) with Pos.compare; rewrite Pos.compare_refl.
Qed.

Lemma num_eqb_same x y : num_eqb x y = true → x = y ∨ (∃ s, x = S754_zero s) ∧ ∃ s, y = S754_zero s.
Proof.
  unfold num_eqb, SFeqb. intros H.
  destruct x as [s|s| |s m e], y as [s'|s'| |s' m' e']; try done; cbn [SFcompare] in H; eauto;
    try (by destruct s); try (by destruct s'); try (by destruct s, s'; eauto).
  destruct s, s'; try done; destruct (Z.compare_spec e e'); try done; subst;
    change (Pos.compare_cont Eq) with Pos.compare in H; destruct (Pos.compare_spec m m'); try done; subst; by left.
Qed.

Lemma amount_text a b :
  discount_readable a → discount_readable b →
  num_eqb (Discounts.amount a) (Discounts.amount b) = str_eqb (discount_item a).1 (discount_item b).1.
Proof.
  intros (Ha & Hna & _) (Hb & Hnb & _). cbn [discount_item fst]. unfold str_eqb. case_bool_decide as E.
  - assert (Discounts.amount a = Discounts.amount b) as -> by congruence. by apply num_eqb_refl.
  - apply not_true_is_false. intros [H|[[s H] [s' H']]]%num_eqb_same; apply E; [by rewrite H|by rewrite H, H'].
Qed.

Lemma discounts_of_items t l :
  stored_object t = map discount_item l → Forall discount_readable l →
  Discounts.discounts t = Ret (stable_sort Discounts.amount_le l).
Proof.
  intros E Hr. unfold Discounts.discounts. rewrite E.
  assert (mapM Discounts.entry_of (map discount_item l) = Ret l) as ->.
  { clear E. induction Hr as [|e l (Hp & _) _ IH]; [done|]. cbn [map mapM]. rewrite IH. unfold Discounts.entry_of at 1.
    cbn [discount_item fst snd mbind exn_bind]. rewrite Hp. by destruct e. }
  cbn [mbind exn_bind]. do 2 f_equal. clear E. induction Hr as [|e l (_ & H1 & H2) _ IH]; [done|].
  cbn [List.filter]. by rewrite H1, H2, IH.
Qed.

Lemma discounts_entries t l :
  object_ok discount_item t l → Forall discount_readable l → discounts_ok t ∧ discount_entries t ≡ₚ l.
Proof.
  intros Hl Hr. split; [by exists l|]. unfold discount_entries. rewrite (discounts_of_items t l) by (done || apply Hl).
  apply stable_sort_perm.
Qed.

#[export, refine] Instance discounts_editor : EntryEditor Discounts.AmountDiscountData jstr := {
  ee_key e := (discount_item e).1; ee_entries := discount_entries;
  ee_save := Discounts.handleSave; ee_delete t e := Discounts.handleDelete t (Discounts.amount e);
  ee_overwrites := true; ee_ok := discounts_ok; ee_valid e := entry_ok discount_item e ∧ discount_readable e }.
Proof.
  - intros t (l & Hl & Hr). destruct (discounts_entries t l Hl Hr) as [_ Hp]. rewrite (Permutation_map _ Hp).
    by apply (object_ok_nodup discount_item t).
  - intros t old e (l & Hl & Hr) [He Hre] Hold _. destruct (discounts_entries t l Hl Hr) as [_ Hp].
    destruct (object_save discount_item t l old e Hl He) as (l' & Hl' & Hp').
    assert (Discounts.handleSave t old e = stringify_pretty (JObj (put_prop
      match old with
      | Some o => if str_eqb (discount_item o).1 (discount_item e).1 then stored_object t else obj_delete (discount_item o).1 (stored_object t)
      | None => stored_object t end (discount_item e).1 (discount_item e).2))) as ->.
    { unfold Discounts.handleSave. destruct old as [o|]; [|done]. rewrite (amount_text o e); [done| |done].
      rewrite Forall_forall in Hr. apply Hr. by rewrite <- Hp. }
    destruct (discounts_entries _ l' Hl') as [? Hq].
    { rewrite Hp'. constructor; [done|]. apply Forall_filter_list. destruct old; [by apply Forall_filter_list|done]. }
    split; [done|]. rewrite Hq, Hp'. f_equiv. unfold without at 1 2. apply Permutation_filter_bool.
    destruct old as [o|]; cbn [but_edited]; [|by symmetry]. apply Permutation_filter_bool. by symmetry.
  - intros t e (l & Hl & Hr) _. destruct (discounts_entries t l Hl Hr) as [_ Hp].
    destruct (object_delete discount_item t l (discount_item e).1 Hl) as (l' & Hl' & Hp').
    destruct (discounts_entries _ l' Hl') as [? Hq]; [by rewrite Hp'; apply Forall_filter_list|].
    split; [done|]. rewrite Hq, Hp'. unfold without. apply Permutation_filter_bool. by symmetry.
Defined.

(** *** Amounts to choose from *)

(** An amount above zero that is printed and read back. *)
Definition amount_ok (x : num) : Prop := nlt nzero x = true ∧ num_ok x = true.

(** The text shows exactly these amounts: above zero, each once and in order. *)
Definition options_ok (t : jstr) (l : list num) : Prop :=
  AmountOptions.amounts t = Ret l ∧ Forall amount_ok l ∧ StronglySorted (λ a b, nlt a b = true) l.

Lemma pos_not_nan x : nlt nzero x = true → is_nan x = false.
Proof. by destruct x as [[]|[]| |[] m e]. Qed.

(** Numbers above zero are equal for JavaScript when they are the same. *)
Lemma num_eqb_pos x y : nlt nzero x = true → num_eqb x y = bool_decide (x = y).
Proof.
  intros Hx. case_bool_decide as E; [subst; by apply num_eqb_refl, pos_not_nan|].
  apply not_true_is_false. intros [?|[[s ->] _]]%num_eqb_same; [done|]. by destruct s.
Qed.

Lemma nlt_total x y : is_nan x = false → is_nan y = false → nlt x y = false → nlt y x = false → num_eqb x y = true.
Proof.
  unfold nlt, SFltb, num_eqb, SFeqb, SFcompare.
  destruct x as [sx|sx| |sx mx ex], y as [sy|sy| |sy my ey]; try done; try (by destruct sx); try (by destruct sy); try (by destruct sx, sy).
  change (Pos.compare_cont Eq) with Pos.compare.
  destruct sx, sy; try done; rewrite (Z.compare_antisym ex ey), (Pos.compare_antisym mx my);
    destruct (Z.compare_spec ex ey), (Pos.compare_spec mx my); done.
Qed.

Lemma amounts_sorted l :
  Forall amount_ok l → NoDup l → StronglySorted (λ a b, nlt a b = true) (stable_sort AmountOptions.num_le l).
Proof.
  intros Hok Hn.
  assert (StronglySorted (λ a b, AmountOptions.num_le a b = true) (stable_sort AmountOptions.num_le l)) as Hs.
  { apply (stable_sort_sorted_on _ amount_ok); [| |done]; unfold AmountOptions.num_le.
    - intros x y _ _ H%negb_false_iff. apply negb_true_iff, not_true_is_false. intros H'.
      pose proof (nlt_trans _ _ _ H H') as H0. by rewrite nlt_irrefl in H0.
    - intros x y z _ Hy _ H1%negb_true_iff H2%negb_true_iff. apply negb_true_iff, not_true_is_false. intros H'.
      destruct (nlt_cotrans _ y _ (pos_not_nan _ (proj1 Hy)) H'); congruence. }
  rewrite <- (stable_sort_perm AmountOptions.num_le l) in Hok, Hn. revert Hok Hn Hs.
  generalize (stable_sort AmountOptions.num_le l). clear l. intros l Hok Hn Hs.
  induction Hs as [|x l Hs IH Hx]; [constructor|]. apply Forall_cons in Hok as [[Hx0 _] Hok]. apply NoDup_cons in Hn as [Hxn Hn].
  constructor; [by apply IH|]. rewrite Forall_forall in Hx, Hok |- *. intros y Hy.
  pose proof (Hx y Hy) as H%negb_true_iff. destruct (nlt x y) eqn:E; [done|].
  pose proof (nlt_total x y (pos_not_nan _ Hx0) (pos_not_nan _ (proj1 (Hok y Hy))) E H) as E2.
  rewrite num_eqb_pos in E2 by done. apply bool_decide_eq_true in E2. by subst.
Qed.

Lemma sorted_stable l : StronglySorted (λ a b, nlt a b = true) l → stable_sort AmountOptions.num_le l = l.
Proof.
  induction 1 as [|x l _ IH Hx]; [done|]. cbn [stable_sort]. rewrite IH. destruct Hx as [|y l Hy _]; [done|].
  cbn [insert_stable]. unfold AmountOptions.num_le. destruct (nlt y x) eqn:E; [|done].
  pose proof (nlt_trans _ _ _ Hy E) as H0. by rewrite nlt_irrefl in H0.
Qed.

Lemma options_written l :
  Forall amount_ok l → StronglySorted (λ a b, nlt a b = true) l → options_ok (AmountOptions.written l) l.
Proof.
  intros Hok Hs. split; [|done]. unfold AmountOptions.amounts, AmountOptions.written.
  rewrite stored_array_printed by (apply json_ok_arr, (Forall_map JNum); eapply Forall_impl; [exact Hok|]; intros x [_ ?]; by constructor).
  assert (mapM (λ v, match number_of_json v with Some x => Ret (v, x) | None => Throw end) (map JNum l) = Ret (map (λ x, (JNum x, x)) l)) as ->.
  { clear. induction l as [|x l IH]; [done|]. cbn [map mapM]. rewrite IH. reflexivity. }
  cbn [mbind exn_bind].
  assert (map snd (List.filter (λ vx : json * num, match vx.1 with JNum _ => true | _ => negb (is_nan vx.2) end) (map (λ x, (JNum x, x)) l)) = l) as ->.
  { clear. induction l as [|x l IH]; [done|]. cbn. by rewrite IH. }
  by rewrite sorted_stable.
Qed.

Lemma first_of_spec seen l :
  Forall amount_ok seen → Forall amount_ok l → NoDup seen →
  NoDup (seen ++ AmountOptions.first_of seen l) ∧
  ∀ x, x ∈ seen ++ AmountOptions.first_of seen l ↔ x ∈ seen ∨ x ∈ l.
Proof.
  revert seen. induction l as [|y l IH]; intros seen Hs Hl Hn; cbn [AmountOptions.first_of].
  { rewrite app_nil_r. split; [done|]. intros x. set_solver. }
  apply Forall_cons in Hl as [Hy Hl]. rewrite (pos_not_nan y) by apply Hy. rewrite orb_false_r.
  assert (existsb (num_eqb y) seen = bool_decide (y ∈ seen)) as ->.
  { clear -Hy. induction seen as [|z s IHs]; [done|]. cbn [existsb]. rewrite IHs, num_eqb_pos by apply Hy.
    repeat case_bool_decide; set_solver. }
  case_bool_decide as Hin.
  - destruct (IH seen Hs Hl Hn) as [H1 H2]. split; [done|]. intros x. rewrite H2. set_solver.
  - destruct (IH (seen ++ [y])) as [H1 H2].
    + apply Forall_app. by repeat constructor; try apply Hy.
    + done.
    + apply NoDup_app. split_and!; [done|set_solver|by apply NoDup_singleton].
    + rewrite <- app_assoc in H1, H2. split; [exact H1|]. intros x. rewrite (H2 x). set_solver.
Qed.

(** whatever amounts above zero the recharge options hold, the shown list is strictly
    increasing and stays so: adding a text writes exactly the old amounts and the
    number it starts with, once, and writes nothing when that is no number above zero;
    removing an amount writes exactly the others; and the text that is written is read
    back as the list that was computed. *)
Theorem amount_options_spec t l :
  options_ok t l →
  (∀ s, match AmountOptions.handleAdd l s with
        | None => nlt nzero (parseFloat s) = false
        | Some l' => nlt nzero (parseFloat s) = true ∧
            (num_ok (parseFloat s) = true →
             options_ok (AmountOptions.written l') l' ∧ ∀ x, x ∈ l' ↔ x ∈ l ∨ x = parseFloat s)
        end) ∧
  (∀ a, a ∈ l → let l' := AmountOptions.handleRemove l a in
    options_ok (AmountOptions.written l') l' ∧ ∀ x, x ∈ l' ↔ x ∈ l ∧ x ≠ a).
Proof.
  intros (_ & Hok & Hs). split.
  - intros s. unfold AmountOptions.handleAdd.
    assert (is_nan (parseFloat s) || nle (parseFloat s) nzero = negb (nlt nzero (parseFloat s))) as ->
      by (by destruct (parseFloat s) as [[]|[]| |[] m e]).
    destruct (nlt nzero (parseFloat s)) eqn:Hp; cbn [negb]; [|done]. split; [done|]. intros Hn.
    assert (Forall amount_ok (l ++ [parseFloat s])) as Hok' by (apply Forall_app; by repeat constructor).
    destruct (first_of_spec [] (l ++ [parseFloat s])) as [H1 H2]; [done..|constructor|]. cbn [app] in H1, H2.
    assert (Forall amount_ok (AmountOptions.first_of [] (l ++ [parseFloat s]))) as Hok2.
    { rewrite Forall_forall in Hok' |- *. intros x [Hx|Hx]%H2; [set_solver|by apply Hok']. }
    split; [|intros x; rewrite elem_of_stable_sort, H2; set_solver].
    apply options_written; [|by apply amounts_sorted]. by rewrite stable_sort_perm.
  - intros a Ha. cbv zeta.
    assert (AmountOptions.handleRemove l a = List.filter (λ x, bool_decide (x ≠ a)) l) as ->.
    { apply filter_ext_Forall. eapply Forall_impl; [exact Hok|]. intros x [Hx _]. cbv beta. rewrite num_eqb_pos by done.
      by rewrite <- bool_decide_not. }
    split.
    + apply options_written; [by apply Forall_filter_list|]. clear -Hs. induction Hs as [|x l _ IH Hx]; [constructor|].
      cbn [List.filter]. case_bool_decide; [|done]. constructor; [done|]. by apply Forall_filter_list.
    + intros x. rewrite !list_elem_of_In, filter_In, bool_decide_eq_true. done.
Qed.

Lemma amount_options_spec_witness :
  options_ok (js "[50, 10]") (map num_of_Z [10; 50]%Z) ∧
  AmountOptions.handleRemove (map num_of_Z [10; 50]%Z) (num_of_Z 10) = [num_of_Z 50] ∧
  options_ok (AmountOptions.written [num_of_Z 50]) [num_of_Z 50].
Proof.
  assert (options_ok (js "[50, 10]") (map num_of_Z [10; 50]%Z)) as H.
  { split; [vm_compute; reflexivity|]. split; repeat constructor; vm_compute; reflexivity. }
  assert (AmountOptions.handleRemove (map num_of_Z [10; 50]%Z) (num_of_Z 10) = [num_of_Z 50]) as E by (vm_compute; reflexivity).
  split_and!; [exact H|exact E|]. rewrite <- E.
  exact (proj1 (proj2 (amount_options_spec _ _ H) (num_of_Z 10) (list_elem_of_here _ _))).
Defined.
