(* ===== verification/GroupRatios.v ===== *)
(** * Group ratios

    Model of [web/default/src/features/system-settings/models/group-ratio-visual-editor.tsx]:
    the table of pricing groups over two stored maps, with the effect that takes over
    foreign changes, the top-up ratios, the automatic groups and the overrides per pair
    of groups.  The form that the editor reports to ([group-ratio-form.tsx]) stores
    every reported text, so the texts are part of the state.  [None] stands for a
    stored text that does not have the declared type. *)

From S2P Require Import Prelude JsString JsNumber Json JsonPretty SettingsJson EntryEditors.
From stdpp Require Import gmap.
From Stdlib Require Import NArith ZArith SpecFloat.

(** ** The pricing table *)

Record GroupPricingRow := {
  row_id : jstr;
  row_name : jstr;
  row_ratio : num;
  row_selectable : bool;
  row_description : jstr;
}.

(** The identifier that the counter gives after it is increased. *)
Definition group_id (counter : N) : jstr := js "gpr_" ++ dec counter.

Definition createGroupPricingId (counter : N) : jstr * N := (group_id (counter + 1), (counter + 1)%N).

(** [Number.isFinite(parsed) ? parsed : 1]. *)
Definition finite_or_one (x : num) : num := if is_finite x then x else num_of_Z 1.

(** Of undefined and of an inherited function the number is [NaN]. *)
Definition normalizeRatio (value : option json) : exn num :=
  match value with
  | None => Ret (num_of_Z 1)
  | Some v => match number_of_json v with Some x => Ret (finite_or_one x) | None => Throw end
  end.

Section rows.
(** The text of a method that every object inherits, such as [toString]. *)
Variable native : jstr → jstr.

(** [String(usableMap[name] ?? '')]. *)
Definition description_of (usableMap : list (jstr * json)) (name : jstr) : exn jstr :=
  match obj_get name usableMap with
  | Some JNull => Ret []
  | Some v => js_string v
  | None => Ret (if inherited name then native name else [])
  end.

Definition row_of (ratioMap usableMap : list (jstr * json)) (counter : N) (name : jstr) : exn GroupPricingRow :=
  ratio ← normalizeRatio (obj_get name ratioMap);
  description ← description_of usableMap name;
  Ret {| row_id := (createGroupPricingId counter).1; row_name := name; row_ratio := ratio;
         row_selectable := bool_decide (name ∈ map fst usableMap); row_description := description |}.

Fixpoint rows_of (ratioMap usableMap : list (jstr * json)) (counter : N) (names : list jstr)
    : exn (list GroupPricingRow * N) :=
  match names with
  | [] => Ret ([], counter)
  | name :: names =>
    row ← row_of ratioMap usableMap counter name;
    rest ← rows_of ratioMap usableMap (createGroupPricingId counter).2 names;
    Ret (row :: rest.1, rest.2)
  end.

Definition buildGroupPricingRows (groupRatio userUsableGroups : jstr) (counter : N)
    : option (exn (list GroupPricingRow * N)) :=
  match map_of groupRatio, map_of userUsableGroups with
  | Some ratioMap, Some usableMap =>
    Some (rows_of ratioMap usableMap counter (dedup (map fst ratioMap ++ map fst usableMap)))
  | _, _ => None
  end.

(** One turn of the loop over the rows. *)
Definition put_row (maps : list (jstr * json) * list (jstr * json)) (row : GroupPricingRow)
    : list (jstr * json) * list (jstr * json) :=
  let name := trim (row_name row) in
  if negb (nonempty name) then maps
  else (put_prop maps.1 name (JNum (finite_or_one (row_ratio row))),
        if row_selectable row then put_prop maps.2 name (JStr (row_description row)) else maps.2).

Definition serialized_maps (rows : list GroupPricingRow) : list (jstr * json) * list (jstr * json) :=
  foldl put_row ([], []) rows.

Definition serializeGroupPricingRows (rows : list GroupPricingRow) : jstr * jstr :=
  (stringify_pretty (JObj (serialized_maps rows).1), stringify_pretty (JObj (serialized_maps rows).2)).

Definition sourceGroupPricingSignature (groupRatio userUsableGroups : jstr) : jstr :=
  stringify (JObj [(js "groupRatio", safeJsonParse groupRatio (JObj []));
                   (js "userUsableGroups", safeJsonParse userUsableGroups (JObj []))]).

Definition groupPricingSignature (rows : list GroupPricingRow) : jstr :=
  let serialized := serializeGroupPricingRows rows in
  stringify (JObj [(js "groupRatio", safeJsonParse serialized.1 (JObj []));
                   (js "userUsableGroups", safeJsonParse serialized.2 (JObj []))]).

(** The table with the two texts of the form and the counter of identifiers. *)
Record pricing_table := {
  tb_rows : list GroupPricingRow;
  tb_groupRatio : jstr;
  tb_userUsableGroups : jstr;
  tb_counter : N;
}.

(** The effect on the two texts. *)
Definition sync_rows (tb : pricing_table) : option (exn pricing_table) :=
  if str_eqb (groupPricingSignature (tb_rows tb)) (sourceGroupPricingSignature (tb_groupRatio tb) (tb_userUsableGroups tb))
  then Some (Ret tb)
  else match buildGroupPricingRows (tb_groupRatio tb) (tb_userUsableGroups tb) (tb_counter tb) with
       | Some r => Some (rc ← r; Ret {| tb_rows := rc.1; tb_groupRatio := tb_groupRatio tb;
                                        tb_userUsableGroups := tb_userUsableGroups tb; tb_counter := rc.2 |})
       | None => None
       end.

Definition emitRows (tb : pricing_table) (nextRows : list GroupPricingRow) (counter : N) : pricing_table :=
  {| tb_rows := nextRows; tb_groupRatio := (serializeGroupPricingRows nextRows).1;
     tb_userUsableGroups := (serializeGroupPricingRows nextRows).2; tb_counter := counter |}.

(** A field of a row with the value that its input reports. *)
Inductive row_change :=
  | SetName (s : jstr)
  | SetRatio (s : jstr)
  | SetSelectable (b : bool)
  | SetDescription (s : jstr).

Definition change_row (c : row_change) (row : GroupPricingRow) : GroupPricingRow :=
  {| row_id := row_id row;
     row_name := match c with SetName s => s | _ => row_name row end;
     row_ratio := match c with SetRatio s => finite_or_one (to_number s) | _ => row_ratio row end;
     row_selectable := match c with SetSelectable b => b | _ => row_selectable row end;
     row_description := match c with SetDescription s => s | _ => row_description row end |}.

Definition updateRow (id : jstr) (c : row_change) (tb : pricing_table) : pricing_table :=
  emitRows tb (map (λ row, if str_eqb (row_id row) id then change_row c row else row) (tb_rows tb)) (tb_counter tb).

Definition group_name (index : N) : jstr := js "group_" ++ dec index.

(** The loop of [addRow]; one turn more than there are rows is enough. *)
Fixpoint free_index (existingNames : list jstr) (fuel : nat) (index : N) : option N :=
  match fuel with
  | O => None
  | S fuel => if bool_decide (group_name index ∈ existingNames) then free_index existingNames fuel (index + 1)
              else Some index
  end.

Definition addRow (tb : pricing_table) : option pricing_table :=
  index ← free_index (map row_name (tb_rows tb)) (S (length (tb_rows tb))) 1;
  let (id, counter) := createGroupPricingId (tb_counter tb) in
  Some (emitRows tb (tb_rows tb ++ [{| row_id := id; row_name := group_name index; row_ratio := num_of_Z 1;
                                       row_selectable := true; row_description := [] |}]) counter).

Definition removeRow (id : jstr) (tb : pricing_table) : pricing_table :=
  emitRows tb (List.filter (λ row, negb (str_eqb (row_id row) id)) (tb_rows tb)) (tb_counter tb).

(** [counts] in the order of its first insertions. *)
Definition count_name (counts : list (jstr * nat)) (row : GroupPricingRow) : list (jstr * nat) :=
  let name := trim (row_name row) in
  if negb (nonempty name) then counts
  else if bool_decide (name ∈ map fst counts)
       then map (λ kc, if str_eqb kc.1 name then (kc.1, S kc.2) else kc) counts
       else counts ++ [(name, 1%nat)].

Definition duplicateNames (rows : list GroupPricingRow) : list jstr :=
  map fst (List.filter (λ kc, 1 <? kc.2)%nat (foldl count_name [] rows)).
End rows.

(** ** Top-up ratios *)

Record SimpleGroup := { sg_name : jstr; sg_value : jstr }.

Definition topupRatioList (t : jstr) : option (exn (list SimpleGroup)) :=
  o ← map_of t; Some (mapM (λ kv : jstr * json, s ← js_string kv.2; Ret {| sg_name := kv.1; sg_value := s |}) o).

(** The text that is reported, for the map that the dialog was opened for. *)
Definition handleSimpleSave (t : jstr) (simpleEditData : option SimpleGroup) (name value : jstr) : option jstr :=
  m ← map_of t;
  let m := match simpleEditData with
    | Some e => if str_eqb (sg_name e) name then m else obj_delete (sg_name e) m
    | None => m
    end in
  Some (stringify_pretty (JObj (put_prop m name (JNum (parseFloat value))))).

Definition handleSimpleDelete (t name : jstr) : option jstr :=
  m ← map_of t; Some (stringify_pretty (JObj (obj_delete name m))).

(** [handleSave] of [SimpleGroupDialog]: the arguments of [onSave], if it is called. *)
Definition SimpleGroupDialog_handleSave (name value : jstr) : option (jstr * jstr) :=
  if negb (nonempty (trim name)) || negb (nonempty (trim value)) then None else Some (trim name, trim value).

(** ** Automatic groups *)

Definition autoGroupsList (t : jstr) : option (list json) :=
  match safeJsonParse t (JArr []) with JArr l => Some l | _ => None end.

(** [Some None]: nothing is reported. *)
Definition handleAutoGroupSave (t autoGroupInput : jstr) : option (option jstr) :=
  if negb (nonempty (trim autoGroupInput)) then Some None
  else l ← autoGroupsList t; Some (Some (stringify_pretty (JArr (l ++ [JStr (trim autoGroupInput)])))).

Definition handleAutoGroupDelete (t : jstr) (index : nat) : option jstr :=
  l ← autoGroupsList t; Some (stringify_pretty (JArr (take index l ++ drop (S index) l))).

(** [list[i], list[j] = list[j], list[i]]. *)
Definition swap_items {A} (l : list A) (i j : nat) : list A :=
  match l !! i, l !! j with Some x, Some y => <[j := x]> (<[i := y]> l) | _, _ => l end.

Definition handleAutoGroupMove (t : jstr) (index : nat) (up : bool) : option (option jstr) :=
  l ← autoGroupsList t;
  let newIndex := (Z.of_nat index + if up then -1 else 1)%Z in
  if ((newIndex <? 0) || (Z.of_nat (length l) <=? newIndex))%Z then Some None
  else Some (Some (stringify_pretty (JArr (swap_items l index (Z.to_nat newIndex))))).

(** ** Overrides for pairs of groups *)

Definition ggmap : Type := list (jstr * list (jstr * json)).

(** A map of maps. *)
Definition inner_object (kv : jstr * json) : option (jstr * list (jstr * json)) :=
  match kv.2 with JObj o => Some (kv.1, o) | _ => None end.

Definition group_map (t : jstr) : option ggmap := o ← map_of t; mapM inner_object o.

Definition printed_map (m : ggmap) : jstr := stringify_pretty (JObj (map (λ kv, (kv.1, JObj kv.2)) m)).

(** The groups in the order of the map, each with its targets. *)
Definition groupGroupRatioList (t : jstr) : option ggmap := group_map t.

(** [if (!map[g]) map[g] = {}]: an inherited name counts as there. *)
Definition with_group (m : ggmap) (g : jstr) : option ggmap :=
  match obj_get g m with
  | Some _ => Some m
  | None => if inherited g then None else Some (obj_set m g [])
  end.

(** [Some None]: nothing is reported.  An inherited name adds no group. *)
Definition handleUserGroupSave (t userGroupInput : jstr) : option (option jstr) :=
  let g := trim userGroupInput in
  if negb (nonempty g) then Some None
  else m ← group_map t; Some (Some (printed_map (default m (with_group m g)))).

Definition handleUserGroupDelete (t userGroup : jstr) : option jstr :=
  m ← group_map t; Some (printed_map (obj_delete userGroup m)).

(** [None] also for an inherited name that is not a group: the write would go to an
    object that every object shares. *)
Definition handleOverrideSave (t userGroup targetGroup : jstr) (ratio : num) (oldTargetGroup : option jstr)
    : option (option jstr) :=
  if negb (nonempty userGroup) then Some None
  else
    m ← group_map t;
    m ← with_group m userGroup;
    inner ← obj_get userGroup m;
    let inner := match oldTargetGroup with
      | Some old => if nonempty old && negb (str_eqb old targetGroup) then obj_delete old inner else inner
      | None => inner
      end in
    Some (Some (printed_map (obj_set m userGroup (put_prop inner targetGroup (JNum ratio))))).

Definition handleOverrideDelete (t userGroup targetGroup : jstr) : option jstr :=
  m ← group_map t;
  Some (printed_map
    match obj_get userGroup m with
    | Some inner =>
      match obj_delete targetGroup inner with
      | [] => obj_delete userGroup m
      | inner => obj_set m userGroup inner
      end
    | None => m
    end).

(** [handleSave] of [GroupOverrideDialog]: the arguments of [onSave], if it is called. *)
Definition GroupOverrideDialog_handleSave (targetGroup ratio : jstr) (editData : option jstr)
    : option (jstr * num * option jstr) :=
  if negb (nonempty (trim targetGroup)) || negb (nonempty (trim ratio)) then None
  else if is_nan (parseFloat ratio) then None
  else Some (trim targetGroup, parseFloat ratio, editData).

(** ** A free name for a new row *)
Lemma group_name_inj i j : group_name i = group_name j → i = j.
Proof. intros H%app_inv_head. by apply dec_inj. Qed.

Lemma group_id_inj i j : group_id i = group_id j → i = j.
Proof. intros H%app_inv_head. by apply dec_inj. Qed.

(** Without a free index among the first, all of them are taken. *)
Lemma free_index_none names fuel i :
  free_index names fuel i = None → ∀ k, (k < fuel)%nat → group_name (i + N.of_nat k) ∈ names.
Proof.
  revert i. induction fuel as [|fuel IH]; intros i; cbn [free_index]; [lia|].
  case_bool_decide as Hi; [|done]. intros Hn [|k] Hk; [by rewrite N.add_0_r|].
  replace (i + N.of_nat (S k))%N with (i + 1 + N.of_nat k)%N by lia. apply (IH _ Hn). lia.
Qed.

Lemma free_index_some names fuel i n :
  free_index names fuel i = Some n →
  (group_name n ∉ names) ∧ (i <= n < i + N.of_nat fuel)%N ∧ ∀ j, (i <= j < n)%N → group_name j ∈ names.
Proof.
  revert i. induction fuel as [|fuel IH]; intros i; cbn [free_index]; [done|].
  case_bool_decide as Hi.
  - intros (H1 & H2 & H3)%IH. split_and!; [done|lia..|]. intros j Hj.
    destruct (decide (j = i)) as [->|]; [done|]. apply H3. lia.
  - intros [= <-]. split_and!; [done|lia..|]. intros j. lia.
Qed.

Lemma free_index_total names : is_Some (free_index names (S (length names)) 1).
Proof.
  destruct (free_index names (S (length names)) 1) as [n|] eqn:E; [by exists n|]. exfalso.
  pose proof (free_index_none _ _ _ E) as Hall.
  set (taken := map (λ k, group_name (1 + N.of_nat k)) (seq 0 (S (length names)))).
  assert (NoDup taken) as Hn.
  { apply (NoDup_fmap_2_strong _ _); [|apply NoDup_seq]. intros a b _ _ H%group_name_inj. lia. }
  assert (length taken ≤ length names)%nat as Hl.
  { apply (submseteq_length taken names), NoDup_submseteq; [done|]. intros x (k & -> & Hk)%list_elem_of_fmap.
    apply elem_of_seq in Hk. apply Hall. lia. }
  unfold taken in Hl. rewrite length_map, length_seq in Hl. lia.
Qed.

(** Adding a row always finds a name: the first of group_1, group_2, ... that no row
    has, after at most one try more than there are rows; the other rows stay, and the
    new one is selectable with ratio 1 and an identifier of its own. *)
Theorem added_row_name tb :
  ∃ n tb', addRow tb = Some tb' ∧
    (1 <= n <= N.of_nat (length (tb_rows tb)) + 1)%N ∧
    (group_name n ∉ map row_name (tb_rows tb)) ∧
    (∀ j, (1 <= j < n)%N → group_name j ∈ map row_name (tb_rows tb)) ∧
    tb_rows tb' = tb_rows tb ++ [{| row_id := group_id (tb_counter tb + 1); row_name := group_name n;
      row_ratio := num_of_Z 1; row_selectable := true; row_description := [] |}] ∧
    tb_counter tb' = (tb_counter tb + 1)%N.
Proof.
  destruct (free_index_total (map row_name (tb_rows tb))) as [n E]. rewrite length_map in E.
  destruct (free_index_some _ _ _ _ E) as (H1 & H2 & H3).
  unfold addRow. rewrite E. exists n. eexists. split; [reflexivity|]. split_and!; try done; lia.
Qed.

(** ** Identifiers and the effect *)

(** Identifiers are distinct and were drawn from the counter. *)
Definition ids_ok (tb : pricing_table) : Prop :=
  NoDup (map row_id (tb_rows tb)) ∧
  Forall (λ row, ∃ k, row_id row = group_id k ∧ (k <= tb_counter tb)%N) (tb_rows tb).

Section sessions.
Variable native : jstr → jstr.

Lemma rows_of_ids rm um c names rows c' :
  rows_of native rm um c names = Ret (rows, c') →
  map row_id rows = map group_id (map (λ k, c + 1 + N.of_nat k)%N (seq 0 (length rows))) ∧ c' = (c + N.of_nat (length rows))%N.
Proof.
  revert c rows c'. induction names as [|n names IH]; intros c rows c'; cbn [rows_of].
  { intros [= <- <-]. cbn. split; [done|lia]. }
  destruct (row_of native rm um c n) as [row|] eqn:Er; [|done]. cbn [mbind exn_bind].
  destruct (rows_of native rm um (createGroupPricingId c).2 names) as [[rest c2]|] eqn:E; [|done].
  cbn [mbind exn_bind fst snd]. intros [= <- <-]. apply IH in E as [E ->]. cbn [createGroupPricingId snd] in E.
  cbn [map length seq]. rewrite E. split; [|cbn; lia]. f_equal.
  - unfold row_of in Er. destruct (normalizeRatio _); [|done]. destruct (description_of _ _ _); [|done].
    cbn [mbind exn_bind] in Er. injection Er as <-. cbn [row_id createGroupPricingId fst]. f_equal. lia.
  - f_equal. rewrite <- (seq_shift (length rest)), map_map. apply map_ext. intros k. lia.
Qed.

Lemma built_ids gr uu c rows c' tb :
  buildGroupPricingRows native gr uu c = Some (Ret (rows, c')) → tb_rows tb = rows → tb_counter tb = c' → ids_ok tb.
Proof.
  unfold buildGroupPricingRows. destruct (map_of gr); [|done]. destruct (map_of uu); [|done].
  intros [= [E ->]%rows_of_ids] Hr Hc. unfold ids_ok. rewrite Hr, Hc.
  assert (∀ x, x ∈ map row_id rows → ∃ k, x = group_id k ∧ (k <= c + N.of_nat (length rows))%N) as Hall.
  { rewrite E. intros x (k & -> & (j & -> & Hj)%list_elem_of_fmap)%list_elem_of_fmap. apply elem_of_seq in Hj.
    exists (c + 1 + N.of_nat j)%N. split; [done|lia]. }
  split.
  - rewrite E. apply (NoDup_fmap_2_strong _ _); [intros ????; apply group_id_inj|].
    apply (NoDup_fmap_2_strong _ _); [intros; lia|apply NoDup_seq].
  - apply Forall_forall. intros row Hrow. apply Hall. apply list_elem_of_fmap. by exists row.
Qed.

(** The texts that a table reports are those whose signature it has. *)
Lemma emitted_synced tb rows c : sync_rows native (emitRows tb rows c) = Some (Ret (emitRows tb rows c)).
Proof.
  unfold sync_rows. cbn [emitRows tb_rows tb_groupRatio tb_userUsableGroups].
  change (sourceGroupPricingSignature (serializeGroupPricingRows rows).1 (serializeGroupPricingRows rows).2) with (groupPricingSignature rows).
  unfold str_eqb. by rewrite bool_decide_eq_true_2.
Qed.

(** What the user does, and a change of the texts by someone else. *)
Inductive table_action :=
  | Update (id : jstr) (c : row_change)
  | AddRow
  | RemoveRow (id : jstr)
  | Foreign (groupRatio userUsableGroups : jstr).

Definition act (a : table_action) (tb : pricing_table) : option pricing_table :=
  match a with
  | Update id c => Some (updateRow id c tb)
  | AddRow => addRow tb
  | RemoveRow id => Some (removeRow id tb)
  | Foreign gr uu => Some {| tb_rows := tb_rows tb; tb_groupRatio := gr; tb_userUsableGroups := uu; tb_counter := tb_counter tb |}
  end.

(** Every action is followed by the effect. *)
Inductive table_reach : pricing_table → Prop :=
  | reach_mount gr uu c rows c' :
      buildGroupPricingRows native gr uu c = Some (Ret (rows, c')) →
      table_reach {| tb_rows := rows; tb_groupRatio := gr; tb_userUsableGroups := uu; tb_counter := c' |}
  | reach_act tb a tb1 tb2 :
      table_reach tb → act a tb = Some tb1 → sync_rows native tb1 = Some (Ret tb2) → table_reach tb2.

Lemma act_ids a tb tb' : ids_ok tb → act a tb = Some tb' → ids_ok tb'.
Proof.
  intros [Hn Hb]. destruct a as [id c| |id|gr uu]; cbn [act].
  - intros [= <-]. unfold ids_ok. cbn [updateRow emitRows tb_rows tb_counter].
    assert (∀ row : GroupPricingRow, row_id (if str_eqb (row_id row) id then change_row c row else row) = row_id row) as E
      by (intros row; by destruct (str_eqb _ _)).
    rewrite map_map, (map_ext _ row_id) by done. split; [done|]. apply (Forall_map (λ row, if str_eqb (row_id row) id then change_row c row else row)).
    eapply Forall_impl; [exact Hb|]. intros row Hrow. cbv beta. by rewrite E.
  - unfold addRow. destruct (free_index _ _ _) as [n|]; [|done]. cbn [mbind option_bind createGroupPricingId].
    intros [= <-]. unfold ids_ok. cbn [emitRows tb_rows tb_counter]. rewrite map_app. cbn [map row_id]. split.
    + apply NoDup_app. split_and!; [done| |by apply NoDup_singleton].
      intros x Hx ->%list_elem_of_singleton. apply list_elem_of_fmap in Hx as (row & Hr & Hin).
      rewrite Forall_forall in Hb. destruct (Hb row Hin) as (k & Hk & Hle). rewrite Hk in Hr. apply group_id_inj in Hr. lia.
    + apply Forall_app. split; [|repeat constructor; exists (tb_counter tb + 1)%N; by split].
      eapply Forall_impl; [exact Hb|]. intros row (k & Hk & Hle). exists k. split; [done|lia].
  - intros [= <-]. split; cbn [removeRow emitRows tb_rows tb_counter]; [|by apply Forall_filter_list].
    eapply sublist_NoDup; [exact Hn|]. clear. induction (tb_rows tb) as [|r l IH]; [done|].
    cbn [List.filter]. destruct (negb _); cbn [map]; by constructor.
  - by intros [= <-].
Qed.

Lemma sync_ids tb tb' : ids_ok tb → sync_rows native tb = Some (Ret tb') → ids_ok tb'.
Proof.
  intros Hok. unfold sync_rows. destruct (str_eqb _ _); [by intros [= <-]|].
  destruct (buildGroupPricingRows _ _ _ _) as [[[rows c]|]|] eqn:E; [|done..].
  cbn [mbind exn_bind fst snd]. intros [= <-]. by eapply built_ids.
Qed.

(** C34: in every state that the pricing table reaches from its mounting, through edits,
    added and removed rows and foreign changes of the two stored texts, the rows have
    distinct identifiers; and an edit of the user is never taken back: the effect that
    compares signatures after it leaves exactly the rows that the user made, with the
    two texts that they serialize to. *)
Theorem table_session tb a tb' :
  table_reach tb → (∀ gr uu, a ≠ Foreign gr uu) → act a tb = Some tb' →
  NoDup (map row_id (tb_rows tb)) ∧
  sync_rows native tb' = Some (Ret tb') ∧ table_reach tb' ∧
  (tb_groupRatio tb', tb_userUsableGroups tb') = serializeGroupPricingRows (tb_rows tb').
Proof.
  intros Hr Ha Hact.
  assert (ids_ok tb) as Hok.
  { clear Ha Hact. induction Hr as [|tb0 a0 tb1 tb2 _ IH H1 H2]; [by eapply built_ids|].
    eapply sync_ids; [|exact H2]. by eapply act_ids. }
  assert (∃ rows c, tb' = emitRows tb rows c) as (rows & c & ->).
  { destruct a as [id c| |id|gr uu]; cbn [act] in Hact; [| | |by destruct (Ha gr uu)].
    - injection Hact as <-. by do 2 eexists.
    - unfold addRow in Hact. destruct (free_index _ _ _); [|done]. cbn [mbind option_bind createGroupPricingId] in Hact.
      injection Hact as <-. by do 2 eexists.
    - injection Hact as <-. by do 2 eexists. }
  split_and!; [apply Hok|apply emitted_synced| |reflexivity].
  eapply reach_act; [exact Hr|exact Hact|apply emitted_synced].
Qed.
End sessions.

(** ** Reading the table back *)

(** The rows that are written, with their trimmed names. *)
Definition named_rows (rows : list GroupPricingRow) : list GroupPricingRow :=
  List.filter (λ row, nonempty (trim (row_name row))) rows.

Definition names_of (rows : list GroupPricingRow) : list jstr := map (λ row, trim (row_name row)) (named_rows rows).

Lemma dedup_app_sub {A} `{EqDecision A} (l k : list A) : NoDup l → (∀ x, x ∈ k → x ∈ l) → dedup (l ++ k) = l.
Proof.
  intros Hn. induction k as [|x k IH] using rev_ind; intros Hk; [rewrite app_nil_r; by apply dedup_id|].
  rewrite app_assoc, dedup_snoc, bool_decide_eq_true_2 by set_solver. rewrite app_nil_r. apply IH. set_solver.
Qed.

Definition occurrences (n : jstr) (l : list jstr) : nat := length (List.filter (str_eqb n) l).

Lemma occurrences_snoc n l x : occurrences n (l ++ [x]) = (occurrences n l + if str_eqb n x then 1 else 0)%nat.
Proof. unfold occurrences. rewrite List.filter_app, length_app. cbn. by destruct (str_eqb n x). Qed.

Lemma occurrences_zero n l : n ∉ l → occurrences n l = 0%nat.
Proof.
  intros Hn. unfold occurrences. induction l as [|x l IH]; [done|]. cbn [List.filter].
  unfold str_eqb at 1. rewrite bool_decide_eq_false_2 by set_solver. apply IH. set_solver.
Qed.

(** Every name that is written is counted, in the order of first occurrence. *)
Lemma counts_spec rows :
  foldl count_name [] rows = map (λ n, (n, occurrences n (names_of rows))) (dedup (names_of rows)).
Proof.
  induction rows as [|row rows IH] using rev_ind; [done|]. rewrite foldl_snoc, IH.
  unfold count_name, names_of, named_rows. rewrite List.filter_app, map_app. fold (named_rows rows). fold (names_of rows).
  cbn [List.filter]. destruct (nonempty (trim (row_name row))); cbn [negb map]; [|by rewrite app_nil_r].
  set (n := trim (row_name row)). set (l := names_of rows).
  assert (map fst (map (λ m, (m, occurrences m l)) (dedup l)) = dedup l) as -> by (rewrite map_map; apply map_id).
  rewrite dedup_snoc, (bool_decide_ext _ (n ∈ l)) by apply elem_of_dedup. case_bool_decide as Hin.
  - rewrite app_nil_r, map_map. apply map_ext. intros m. cbn [fst snd]. rewrite occurrences_snoc.
    destruct (str_eqb m n); by rewrite ?Nat.add_1_r, ?Nat.add_0_r.
  - rewrite map_app. cbn [map]. rewrite occurrences_snoc, occurrences_zero by done. unfold str_eqb at 1. rewrite bool_decide_eq_true_2 by done.
    f_equal. apply map_ext_in. intros m Hm%list_elem_of_In. rewrite elem_of_dedup in Hm. rewrite occurrences_snoc. unfold str_eqb.
    rewrite bool_decide_eq_false_2 by (intros ->; done). by rewrite Nat.add_0_r.
Qed.

Lemma elem_of_duplicateNames rows n :
  n ∈ duplicateNames rows ↔ (1 < occurrences n (names_of rows))%nat.
Proof.
  unfold duplicateNames. rewrite counts_spec, list_elem_of_fmap. setoid_rewrite list_elem_of_In. setoid_rewrite filter_In.
  setoid_rewrite <- list_elem_of_In. setoid_rewrite list_elem_of_fmap. split.
  - intros (? & -> & (m & -> & _) & Hlt). by apply Nat.ltb_lt in Hlt.
  - intros Hlt. exists (n, occurrences n (names_of rows)). split_and!; [done| |by apply Nat.ltb_lt].
    exists n. split; [done|]. apply elem_of_dedup. destruct (decide (n ∈ names_of rows)) as [|Hn]; [done|].
    rewrite occurrences_zero in Hlt by done. lia.
Qed.

Lemma occurrences_nodup l : (∀ n, (occurrences n l ≤ 1)%nat) → NoDup l.
Proof.
  induction l as [|x l IH]; intros Ho; [constructor|]. assert (∀ n, (occurrences n (x :: l) = (if str_eqb n x then 1 else 0) + occurrences n l)%nat) as E.
  { intros n. unfold occurrences. cbn [List.filter]. by destruct (str_eqb n x). }
  constructor; [|apply IH; intros n; specialize (Ho n); rewrite E in Ho; destruct (str_eqb n x); lia].
  intros Hin. specialize (Ho x). rewrite E in Ho. unfold str_eqb in Ho. rewrite bool_decide_eq_true_2 in Ho by done.
  assert (In x (List.filter (str_eqb x) l)) as Hf.
  { apply filter_In. split; [by apply list_elem_of_In|]. unfold str_eqb. by apply bool_decide_eq_true_2. }
  unfold occurrences in Ho. destruct (List.filter (str_eqb x) l); [done|cbn in Ho; lia].
Qed.

Lemma duplicateNames_nil rows : duplicateNames rows = [] → NoDup (names_of rows).
Proof.
  intros H. apply occurrences_nodup. intros n. apply Nat.nlt_ge. intros Hlt%elem_of_duplicateNames.
  rewrite H in Hlt. by apply elem_of_nil in Hlt.
Qed.

(** The maps that the rows are written to hold one property per named row. *)
Definition ratio_item (row : GroupPricingRow) : jstr * json :=
  (trim (row_name row), JNum (finite_or_one (row_ratio row))).

Definition usable_item (row : GroupPricingRow) : jstr * json := (trim (row_name row), JStr (row_description row)).

Definition usable_rows (rows : list GroupPricingRow) : list GroupPricingRow := List.filter row_selectable (named_rows rows).

(** A row that can be written: the name is not on the prototype, and texts and numbers
    are ones that JSON keeps. *)
Definition row_ok (row : GroupPricingRow) : Prop :=
  regular (trim (row_name row)) ∧ num_ok (finite_or_one (row_ratio row)) = true ∧ Forall code_unit (row_description row).

Lemma regular_not_proto k : regular k → k ≠ js "__proto__".
Proof. intros [_ H] ->. apply H. apply (bool_decide_eq_true_1 _). vm_compute. reflexivity. Qed.

Lemma set_fresh_perm {A} (o l : list (jstr * A)) k v :
  NoDup (map fst o) → o ≡ₚ l → k ∉ map fst l → obj_set o k v ≡ₚ l ++ [(k, v)].
Proof.
  intros Hn Hp Hk. rewrite obj_set_perm by done. rewrite Permutation_app_comm. cbn [app]. f_equiv.
  assert (obj_delete k o = o) as ->; [|done]. unfold obj_delete.
  rewrite <- (Permutation_map fst Hp) in Hk. clear -Hk. induction o as [|[j w] o IH]; [done|]. cbn [List.filter map fst] in *.
  unfold str_eqb at 1. rewrite bool_decide_eq_false_2 by set_solver. cbn [negb]. f_equal. apply IH. set_solver.
Qed.

Lemma serialized_spec rows :
  Forall row_ok (named_rows rows) → NoDup (names_of rows) →
  let m := serialized_maps rows in
  json_ok (JObj m.1) ∧ json_ok (JObj m.2) ∧ m.1 ≡ₚ map ratio_item (named_rows rows) ∧ m.2 ≡ₚ map usable_item (usable_rows rows).
Proof.
  cbv zeta. induction rows as [|row rows IH] using rev_ind.
  { intros _ _. assert (json_ok (JObj [])) by (by repeat constructor). done. }
  unfold names_of, usable_rows, named_rows. rewrite !List.filter_app, !map_app. fold (named_rows rows). fold (names_of rows). fold (usable_rows rows).
  unfold serialized_maps. rewrite foldl_snoc. fold (serialized_maps rows). unfold put_row at 1 2 3 4.
  cbn [List.filter]. destruct (nonempty (trim (row_name row))) eqn:En; cbn [negb map]; [|by rewrite !app_nil_r].
  intros [Hok [(Hreg & Hnum & Hd) _]%Forall_cons]%Forall_app (Hn & Hx & _)%NoDup_app.
  destruct (IH Hok Hn) as (J1 & J2 & P1 & P2). set (n := trim (row_name row)) in *.
  assert (n ∉ names_of rows) as Hfresh. { intros Hin. apply (Hx n Hin). by left. }
  assert (n ≠ js "__proto__") as Hproto by by apply regular_not_proto.
  cbn [fst snd]. rewrite !put_prop_set by done. split_and!.
  - apply json_ok_set; [done|apply Hreg|by constructor].
  - destruct (row_selectable row); [|done]. apply json_ok_set; [done|apply Hreg|by constructor].
  - apply set_fresh_perm; [by destruct (json_ok_obj_inv _ J1) as [[? _] _]|done|]. by rewrite map_map.
  - cbn [List.filter]. destruct (row_selectable row); [|by rewrite app_nil_r].
    apply set_fresh_perm; [by destruct (json_ok_obj_inv _ J2) as [[? _] _]|done|]. rewrite map_map.
    intros (r & Hr & Hin)%list_elem_of_fmap. apply Hfresh. apply list_elem_of_In, filter_In in Hin as [Hin _].
    apply list_elem_of_fmap. exists r. split; [done|by apply list_elem_of_In].
Qed.

(** What a row shows, and what a row is saved as. *)
Definition row_data (row : GroupPricingRow) : jstr * num * bool * jstr :=
  (row_name row, row_ratio row, row_selectable row, row_description row).

Definition saved_data (row : GroupPricingRow) : jstr * num * bool * jstr :=
  (trim (row_name row), finite_or_one (row_ratio row), row_selectable row,
   if row_selectable row then row_description row else []).

Section roundtrip.
Variable native : jstr → jstr.

(** Rows are read one by one, whatever identifiers they get. *)
Lemma rows_of_data rm um c names (f : jstr → jstr * num * bool * jstr) :
  (∀ c n, n ∈ names → ∃ row, row_of native rm um c n = Ret row ∧ row_data row = f n) →
  ∃ rows c', rows_of native rm um c names = Ret (rows, c') ∧ map row_data rows = map f names.
Proof.
  revert c. induction names as [|n names IH]; intros c H; cbn [rows_of]; [by eexists _, _|].
  destruct (H c n) as (row & -> & Hr); [by left|]. cbn [mbind exn_bind].
  destruct (IH (createGroupPricingId c).2) as (rows & c' & -> & Hrows); [intros; apply H; by right|].
  cbn [mbind exn_bind fst snd map]. do 2 eexists. split; [done|]. cbn [map]. by rewrite Hr, Hrows.
Qed.

Lemma num_ok_finite x : num_ok x = true → is_finite x = true.
Proof. unfold num_ok. intros [[H _]%andb_true_iff _]%andb_true_iff. exact H. Qed.

Lemma row_read rm um rows c row :
  NoDup (names_of rows) → NoDup (map fst rm) → NoDup (map fst um) →
  rm ≡ₚ map ratio_item (named_rows rows) → um ≡ₚ map usable_item (usable_rows rows) →
  row ∈ named_rows rows → row_ok row →
  ∃ row', row_of native rm um c (trim (row_name row)) = Ret row' ∧ row_data row' = saved_data row.
Proof.
  intros Hn Hrm Hum P1 P2 Hin (Hreg & Hnum & _). unfold row_of.
  assert (obj_get (trim (row_name row)) rm = Some (JNum (finite_or_one (row_ratio row)))) as ->.
  { apply elem_obj_get; [done|]. rewrite P1. apply list_elem_of_fmap. by exists row. }
  cbn [normalizeRatio number_of_json mbind exn_bind]. unfold finite_or_one at 1. rewrite (num_ok_finite _ Hnum).
  unfold description_of, saved_data. destruct (row_selectable row) eqn:Es.
  - assert ((trim (row_name row), JStr (row_description row)) ∈ um) as Hu.
    { rewrite P2. apply list_elem_of_fmap. exists row. split; [done|]. apply list_elem_of_In, filter_In. split; [by apply list_elem_of_In|done]. }
    rewrite (elem_obj_get _ _ _ Hum Hu). cbn [js_string coercible string_of_json mbind exn_bind].
    eexists. split; [reflexivity|]. unfold row_data. cbn [row_name row_ratio row_selectable row_description].
    rewrite bool_decide_eq_true_2; [done|]. apply list_elem_of_fmap. eexists. split; [|exact Hu]. done.
  - assert (trim (row_name row) ∉ map fst um) as Hu.
    { rewrite (Permutation_map fst P2), map_map. intros (r & Hr & Hin2)%list_elem_of_fmap.
      apply list_elem_of_In, filter_In in Hin2 as [Hin2 Hs]. cbn [fst usable_item] in Hr. apply list_elem_of_In in Hin2.
      assert (row = r) as <-; [|congruence]. unfold names_of in Hn. revert Hn Hin Hin2 Hr. clear.
      induction (named_rows rows) as [|x l IH]; [set_solver|]. cbn [map]. intros [Hx Hn]%NoDup_cons Ha Hb E.
      apply elem_of_cons in Ha as [->|Ha], Hb as [->|Hb]; [done| | |by apply IH].
      - destruct Hx. rewrite E. apply list_elem_of_fmap. by exists r.
      - destruct Hx. rewrite <- E. apply list_elem_of_fmap. by exists row. }
    destruct (obj_get (trim (row_name row)) um) as [v|] eqn:Eg.
    { destruct Hu. apply list_elem_of_fmap. eexists. split; [|apply (obj_get_elem _ _ _ Eg)]. done. }
    unfold inherited. rewrite (bool_decide_eq_false_2 (_ ∈ object_prototype)) by apply Hreg. cbn [mbind exn_bind].
    eexists. split; [reflexivity|]. unfold row_data. cbn [row_name row_ratio row_selectable row_description].
    by rewrite bool_decide_eq_false_2.
Qed.

(** C28: when no name is reported as a duplicate, the two texts that the table writes are
    read back as exactly the named rows, in some order and with new identifiers: the
    trimmed name, the ratio, whether users can select the group, and the description
    of a selectable group.  The trimmed names are not inherited property names such as
    [constructor], and ratios and texts are ones that JSON prints and reads back. *)
Theorem group_table_roundtrip rows c :
  Forall row_ok (named_rows rows) → duplicateNames rows = [] →
  ∃ rows' c', buildGroupPricingRows native (serializeGroupPricingRows rows).1 (serializeGroupPricingRows rows).2 c
      = Some (Ret (rows', c')) ∧
    map row_data rows' ≡ₚ map saved_data (named_rows rows).
Proof.
  intros Hok Hn%duplicateNames_nil. destruct (serialized_spec rows Hok Hn) as (J1 & J2 & P1 & P2).
  unfold buildGroupPricingRows, serializeGroupPricingRows. cbn [fst snd]. rewrite !map_of_printed by done.
  set (rm := (serialized_maps rows).1) in *. set (um := (serialized_maps rows).2) in *. clearbody rm um.
  assert (NoDup (map fst rm)) as N1 by (by destruct (json_ok_obj_inv _ J1) as [[? _] _]).
  assert (NoDup (map fst um)) as N2 by (by destruct (json_ok_obj_inv _ J2) as [[? _] _]).
  assert (map fst rm ≡ₚ names_of rows) as K1 by (rewrite (Permutation_map fst P1), map_map; done).
  rewrite dedup_app_sub; [|done|].
  2: { intros x. rewrite K1, (Permutation_map fst P2), map_map. intros (r & -> & Hin)%list_elem_of_fmap.
       apply list_elem_of_fmap. exists r. split; [done|]. apply list_elem_of_In, filter_In in Hin as [Hin _]. by apply list_elem_of_In. }
  set (f := λ n, match List.find (λ row, str_eqb (trim (row_name row)) n) (named_rows rows) with
                 | Some row => saved_data row | None => (n, nzero, false, []) end).
  assert (∀ row, row ∈ named_rows rows → f (trim (row_name row)) = saved_data row) as Hf.
  { unfold f, names_of in *. revert Hn. clear. induction (named_rows rows) as [|x l IH]; [set_solver|]. cbn [map].
    intros [Hx Hn]%NoDup_cons row [->|Hin]%elem_of_cons; cbn [List.find]; unfold str_eqb at 1.
    - by rewrite bool_decide_eq_true_2.
    - rewrite bool_decide_eq_false_2; [by apply IH|]. intros E. apply Hx. rewrite E. apply list_elem_of_fmap. by exists row. }
  destruct (rows_of_data rm um c (map fst rm) f) as (rows' & c' & E & Hd).
  { intros c0 n. rewrite K1. intros (row & -> & Hin)%list_elem_of_fmap. rewrite (Hf row Hin).
    apply (row_read rm um rows); try done. rewrite Forall_forall in Hok. by apply Hok. }
  exists rows', c'. rewrite E. split; [done|]. rewrite Hd, (Permutation_map f K1). unfold names_of. rewrite map_map.
  erewrite map_ext_in; [reflexivity|]. intros row Hin. apply Hf. by apply list_elem_of_In.
Qed.
End roundtrip.

Definition sample_rows : list GroupPricingRow :=
  [{| row_id := js "gpr_1"; row_name := js "vip"; row_ratio := num_of_Z 2; row_selectable := true; row_description := js "VIP" |};
   {| row_id := js "gpr_2"; row_name := js " 7 "; row_ratio := num_of_Z 1; row_selectable := false; row_description := js "x" |}].

Lemma sample_rows_ok : Forall row_ok (named_rows sample_rows).
Proof.
  change (named_rows sample_rows) with sample_rows.
  repeat (constructor; [split_and!; [split; [by repeat constructor|apply (bool_decide_eq_true_1 _); vm_compute; reflexivity]|vm_compute; reflexivity|by repeat constructor]|]).
  constructor.
Qed.

Lemma group_table_roundtrip_witness :
  ∃ rows' c', buildGroupPricingRows id (serializeGroupPricingRows sample_rows).1 (serializeGroupPricingRows sample_rows).2 0
      = Some (Ret (rows', c')) ∧ map row_data rows' ≡ₚ map saved_data sample_rows.
Proof.
  exact (group_table_roundtrip id sample_rows 0 sample_rows_ok (eq_refl : duplicateNames sample_rows = [])).
Defined.

Lemma table_session_witness :
  let tb := {| tb_rows := []; tb_groupRatio := []; tb_userUsableGroups := []; tb_counter := 0%N |} in
  let tb' := emitRows tb [{| row_id := js "gpr_1"; row_name := js "group_1"; row_ratio := num_of_Z 1;
                             row_selectable := true; row_description := [] |}] 1 in
  act AddRow tb = Some tb' ∧ table_reach id tb'.
Proof.
  cbv zeta. set (tb := {| tb_rows := []; tb_groupRatio := []; tb_userUsableGroups := []; tb_counter := 0%N |}).
  assert (∃ tb', act AddRow tb = Some tb' ∧ tb_rows tb' = [{| row_id := js "gpr_1"; row_name := js "group_1"; row_ratio := num_of_Z 1;
    row_selectable := true; row_description := [] |}] ∧ tb_counter tb' = 1%N) as (tb' & E & Er & Ec)
    by (eexists; split_and!; [reflexivity|vm_compute; reflexivity..]).
  assert (table_reach id tb) as Hr by (apply (reach_mount id [] [] 0 [] 0); reflexivity).
  destruct (table_session id tb AddRow tb' Hr ltac:(done) E) as (_ & _ & Hr' & Ht).
  rewrite Er in Ht. destruct tb' as [rows gr uu c]. cbn [tb_rows tb_groupRatio tb_userUsableGroups tb_counter] in *. subst rows c.
  injection Ht as -> ->. exact (conj E Hr').
Defined.

(** ** Top-up ratios are an editor of entries *)

Definition topup_item (e : SimpleGroup) : jstr * json := (sg_name e, JNum (parseFloat (sg_value e))).

(** A value that is the text of its number. *)
Definition topup_readable (e : SimpleGroup) : Prop := num_to_string (parseFloat (sg_value e)) = sg_value e.

Definition topup_entries (t : jstr) : list SimpleGroup :=
  match topupRatioList t with Some (Ret l) => l | _ => [] end.

Definition topup_ok (t : jstr) : Prop :=
  ∃ l, map_of t = Some (stored_object t) ∧ object_ok topup_item t l ∧ Forall topup_readable l.

Lemma topup_read t l :
  map_of t = Some (stored_object t) → object_ok topup_item t l → Forall topup_readable l → topup_entries t = l.
Proof.
  intros Hm [E _] Hr. unfold topup_entries, topupRatioList. rewrite Hm. cbn [mbind option_bind]. rewrite E. clear Hm E.
  assert (mapM (λ kv : jstr * json, s ← js_string kv.2; Ret {| sg_name := kv.1; sg_value := s |}) (map topup_item l) = Ret l) as ->; [|done].
  induction Hr as [|[n v] l Hv _ IH]; [done|]. cbn [map mapM]. rewrite IH. unfold topup_readable in Hv. cbn [sg_value] in Hv.
  cbn [topup_item fst snd sg_name sg_value]. unfold js_string. cbn [coercible string_of_json mbind exn_bind]. by rewrite Hv.
Qed.

Lemma topup_written o l :
  object_ok topup_item (stringify_pretty (JObj o)) l → json_ok (JObj o) → Forall topup_readable l →
  topup_ok (stringify_pretty (JObj o)) ∧ topup_entries (stringify_pretty (JObj o)) = l.
Proof.
  intros Hl Ho Hr. assert (map_of (stringify_pretty (JObj o)) = Some (stored_object (stringify_pretty (JObj o)))) as Hm
    by (by rewrite map_of_printed, stored_object_printed).
  split; [by exists l|by apply topup_read].
Qed.

#[export, refine] Instance topup_editor : EntryEditor SimpleGroup jstr := {
  ee_key := sg_name; ee_entries := topup_entries;
  ee_save t old e := default t (handleSimpleSave t old (sg_name e) (sg_value e));
  ee_delete t e := default t (handleSimpleDelete t (sg_name e));
  ee_overwrites := true; ee_ok := topup_ok; ee_valid e := entry_ok topup_item e ∧ topup_readable e }.
Proof.
  - intros t (l & Hm & Hl & Hr). rewrite (topup_read t l Hm Hl Hr). by apply (object_ok_nodup topup_item t).
  - intros t old e (l & Hm & Hl & Hr) [He Hre] _ _. rewrite (topup_read t l Hm Hl Hr) in *.
    destruct (object_save topup_item t l old e Hl He) as (l' & Hl' & Hp).
    unfold handleSimpleSave. rewrite Hm. cbn [mbind option_bind default from_option id].
    destruct (topup_written _ l' Hl') as [Hok E]; [| |split; [exact Hok|]; rewrite <- Hp, <- E; reflexivity].
    + destruct He as (Hc & Hj & Hproto). rewrite put_prop_set by done.
      assert (json_ok (JObj (stored_object t))) as Ho by apply Hl.
      apply json_ok_set; [|done..]. destruct old; [|done]. destruct (str_eqb _ _); [done|by apply json_ok_delete].
    + rewrite Hp. constructor; [done|]. apply Forall_filter_list. destruct old; [by apply Forall_filter_list|done].
  - intros t e (l & Hm & Hl & Hr) _. rewrite (topup_read t l Hm Hl Hr).
    destruct (object_delete topup_item t l (sg_name e) Hl) as (l' & Hl' & Hp).
    unfold handleSimpleDelete. rewrite Hm. cbn [mbind option_bind default from_option id].
    destruct (topup_written _ l' Hl') as [Hok E]; [apply json_ok_delete, Hl|rewrite Hp; by apply Forall_filter_list|].
    split; [exact Hok|]. rewrite <- Hp, <- E. reflexivity.
Defined.

(** ** Overrides refine a map of maps *)

Definition object_map {A} (o : list (jstr * A)) : gmap jstr A := list_to_map o.

Lemma lookup_object_map {A} (o : list (jstr * A)) k : object_map o !! k = obj_get k o.
Proof.
  unfold object_map. induction o as [|[j v] o IH]; [done|]. rewrite list_to_map_cons. cbn [obj_get]. unfold str_eqb.
  case_bool_decide as E; [subst; apply lookup_insert_eq|]. by rewrite lookup_insert_ne.
Qed.

Lemma object_map_set {A} (o : list (jstr * A)) k v : object_map (obj_set o k v) = <[k := v]> (object_map o).
Proof.
  apply map_eq. intros j. rewrite lookup_object_map, obj_get_set. unfold str_eqb. case_bool_decide as E.
  - subst. by rewrite lookup_insert_eq.
  - by rewrite lookup_insert_ne, lookup_object_map.
Qed.

Lemma object_map_delete {A} (o : list (jstr * A)) k : object_map (obj_delete k o) = delete k (object_map o).
Proof.
  apply map_eq. intros j. rewrite lookup_object_map, obj_get_delete. unfold str_eqb. case_bool_decide as E.
  - subst. by rewrite lookup_delete_eq.
  - by rewrite lookup_delete_ne, lookup_object_map.
Qed.

Lemma object_map_empty {A} (o : list (jstr * A)) : object_map o = ∅ ↔ o = [].
Proof.
  split; [|by intros ->]. destruct o as [|[k v] o]; [done|]. intros H.
  assert (object_map ((k, v) :: o) !! k = None) as E by (by rewrite H). rewrite lookup_object_map in E. cbn [obj_get] in E.
  unfold str_eqb in E. by rewrite bool_decide_eq_true_2 in E.
Qed.

(** The overrides of a map: by user group, then by target group. *)
Definition overrides (m : ggmap) : gmap jstr (gmap jstr json) := object_map <$> object_map m.

Definition wrap (kv : jstr * list (jstr * json)) : jstr * json := (kv.1, JObj kv.2).

Definition ggmap_ok (m : ggmap) : Prop := json_ok (JObj (map wrap m)).

(** The text shows exactly these overrides. *)
Definition shows (t : jstr) (ov : gmap jstr (gmap jstr json)) : Prop :=
  ∃ m, group_map t = Some m ∧ ggmap_ok m ∧ overrides m = ov.

Lemma group_map_printed m : ggmap_ok m → group_map (printed_map m) = Some m.
Proof.
  intros H. unfold group_map, printed_map. change (map (λ kv, (kv.1, JObj kv.2)) m) with (map wrap m).
  rewrite map_of_printed by done. cbn [mbind option_bind]. clear H. induction m as [|[k o] m IH]; [done|].
  cbn [map mapM]. by rewrite IH.
Qed.

Lemma printed_shows m : ggmap_ok m → shows (printed_map m) (overrides m).
Proof. intros H. exists m. by rewrite group_map_printed. Qed.

Lemma wrap_obj_set m k o : map wrap (obj_set m k o) = obj_set (map wrap m) k (JObj o).
Proof.
  unfold obj_set. assert (existsb (λ kv, str_eqb kv.1 k) (map wrap m) = existsb (λ kv, str_eqb kv.1 k) m) as ->.
  { induction m as [|kv m IH]; [done|]. cbn [map existsb]. by rewrite IH. }
  destruct (existsb _ m).
  - induction m as [|kv m IH]; [done|]. rewrite fmap_cons. cbn [map]. rewrite fmap_cons, IH. unfold wrap at 1 3. cbn [fst]. by destruct (str_eqb kv.1 k).
  - induction m as [|[k' o'] m IH]; cbn [obj_place map wrap fst snd]; destruct (array_index k) as [i|]; [done..| |by rewrite map_app].
    destruct (array_index k') as [j|]; [|done]. destruct (j <? i)%N; [|done]. cbn [map wrap fst snd]. by rewrite IH.
Qed.

Lemma ggmap_ok_set m k o : ggmap_ok m → Forall code_unit k → json_ok (JObj o) → ggmap_ok (obj_set m k o).
Proof. intros. unfold ggmap_ok. rewrite wrap_obj_set. by apply json_ok_set. Qed.

Lemma ggmap_ok_delete m k : ggmap_ok m → ggmap_ok (obj_delete k m).
Proof.
  intros H%(json_ok_delete _ k). unfold ggmap_ok. assert (map wrap (obj_delete k m) = obj_delete k (map wrap m)) as ->; [|done].
  clear. unfold obj_delete. induction m as [|kv m IH]; [done|]. cbn [List.filter map]. rewrite <- IH. cbn [wrap fst]. by destruct (negb _).
Qed.

Lemma ggmap_ok_get m k o : ggmap_ok m → obj_get k m = Some o → Forall code_unit k ∧ json_ok (JObj o).
Proof.
  intros (_ & Hk & Hv)%json_ok_obj_inv Hg%obj_get_elem. rewrite Forall_forall in Hk, Hv.
  assert ((k, JObj o) ∈ map wrap m) as Hin by (apply list_elem_of_fmap; by exists (k, o)). split; [by apply (Hk _ Hin)|by apply (Hv _ Hin)].
Qed.

Lemma overrides_get m g : overrides m !! g = object_map <$> obj_get g m.
Proof. unfold overrides. by rewrite lookup_fmap, lookup_object_map. Qed.

Lemma overrides_set m g o : overrides (obj_set m g o) = <[g := object_map o]> (overrides m).
Proof. unfold overrides. by rewrite object_map_set, fmap_insert. Qed.

Lemma overrides_delete m g : overrides (obj_delete g m) = delete g (overrides m).
Proof. unfold overrides. by rewrite object_map_delete, fmap_delete. Qed.

Lemma with_group_spec m g m' :
  ggmap_ok m → Forall code_unit g → with_group m g = Some m' →
  ggmap_ok m' ∧ overrides m' = <[g := default ∅ (overrides m !! g)]> (overrides m).
Proof.
  intros Hok Hg. unfold with_group. rewrite overrides_get. destruct (obj_get g m) as [o|] eqn:E.
  - intros [= <-]. split; [done|]. symmetry. apply insert_id. by rewrite overrides_get, E.
  - destruct (inherited g); [done|]. intros [= <-]. split; [apply ggmap_ok_set; [done..|by repeat constructor]|apply overrides_set].
Qed.

Lemma regular_with_group m g : regular g → is_Some (with_group m g).
Proof.
  intros [_ H]. unfold with_group, inherited. rewrite bool_decide_eq_false_2 by done. destruct (obj_get g m); eauto.
Qed.

(** The map after an override is saved, and after one is deleted with its group if that
    has no other. *)
Definition save_override (ov : gmap jstr (gmap jstr json)) (g target : jstr) (ratio : num) (old : option jstr) :=
  <[g := <[target := JNum ratio]> (match old with Some o => delete o (default ∅ (ov !! g)) | None => default ∅ (ov !! g) end)]> ov.

Definition delete_override (ov : gmap jstr (gmap jstr json)) (g target : jstr) :=
  partial_alter (λ inner, inner ← inner; if decide (delete target inner = ∅) then None else Some (delete target inner)) g ov.

Lemma override_saved t ov g target ratio old :
  shows t ov → regular g → g ≠ [] → regular target → num_ok ratio = true → old ≠ Some [] →
  ∃ t', handleOverrideSave t g target ratio old = Some (Some t') ∧ shows t' (save_override ov g target ratio old).
Proof.
  intros (m & Hm & Hok & <-) Hg Hne Ht Hr Hold. unfold handleOverrideSave. rewrite Hm.
  assert (nonempty g = true) as -> by (by destruct g). cbn [negb mbind option_bind].
  destruct (regular_with_group m g Hg) as [m' Em]. rewrite Em. cbn [mbind option_bind].
  destruct (with_group_spec m g m' Hok (proj1 Hg) Em) as [Hok' Eo].
  destruct (obj_get g m') as [inner|] eqn:Ei.
  2: { exfalso. pose proof (overrides_get m' g) as H. rewrite Ei, Eo, lookup_insert_eq in H. done. }
  assert (object_map inner = default ∅ (overrides m !! g)) as Einner.
  { pose proof (overrides_get m' g) as H. rewrite Ei, Eo, lookup_insert_eq in H. by injection H. }
  cbn [mbind option_bind]. eexists. split; [reflexivity|].
  destruct (ggmap_ok_get m' g inner Hok' Ei) as [_ Hji].
  set (inner' := match old with Some o => if nonempty o && negb (str_eqb o target) then obj_delete o inner else inner | None => inner end).
  assert (json_ok (JObj inner')) as Hj' by (unfold inner'; destruct old; [destruct (_ && _); [by apply json_ok_delete|]|]; done).
  rewrite put_prop_set by by apply regular_not_proto.
  assert (overrides (obj_set m' g (obj_set inner' target (JNum ratio))) = save_override (overrides m) g target ratio old) as <-.
  - rewrite overrides_set, Eo, insert_insert_eq. unfold save_override. f_equal. rewrite object_map_set.
    unfold inner'. destruct old as [o|]; [|by rewrite Einner]. destruct o as [|c o]; [done|]. cbn [nonempty andb]. unfold str_eqb.
    case_bool_decide as E; cbn [negb]; [by rewrite E, insert_delete_eq, Einner|by rewrite object_map_delete, Einner].
  - apply printed_shows, ggmap_ok_set; [done|apply Hg|]. apply json_ok_set; [done|apply Ht|by constructor].
Qed.

Lemma override_deleted t ov g target :
  shows t ov → ∃ t', handleOverrideDelete t g target = Some t' ∧ shows t' (delete_override ov g target).
Proof.
  intros (m & Hm & Hok & <-). unfold handleOverrideDelete. rewrite Hm. cbn [mbind option_bind]. eexists. split; [reflexivity|].
  pose proof (overrides_get m g) as Eg. destruct (obj_get g m) as [inner|] eqn:E; cbn [fmap option_fmap option_map] in Eg.
  2: { assert (delete_override (overrides m) g target = overrides m) as ->; [|by apply printed_shows].
       apply map_eq. intros k. unfold delete_override. destruct (decide (k = g)) as [->|];
         [by rewrite lookup_partial_alter_eq, Eg|by rewrite lookup_partial_alter_ne]. }
  destruct (ggmap_ok_get m g inner Hok E) as [Hc Hj].
  assert (object_map (obj_delete target inner) = delete target (object_map inner)) as Ed by apply object_map_delete.
  destruct (obj_delete target inner) as [|kv l] eqn:El.
  - assert (delete_override (overrides m) g target = overrides (obj_delete g m)) as ->; [|by apply printed_shows, ggmap_ok_delete].
    rewrite overrides_delete. apply map_eq. intros k. unfold delete_override. destruct (decide (k = g)) as [->|Hk].
    + rewrite lookup_partial_alter_eq, lookup_delete_eq, Eg. cbn [mbind option_bind]. rewrite <- Ed. by rewrite decide_True.
    + by rewrite lookup_partial_alter_ne, lookup_delete_ne.
  - assert (delete_override (overrides m) g target = overrides (obj_set m g (kv :: l))) as ->.
    + rewrite overrides_set. apply map_eq. intros k. unfold delete_override. destruct (decide (k = g)) as [->|Hk].
      * rewrite lookup_partial_alter_eq, lookup_insert_eq, Eg. cbn [mbind option_bind]. rewrite <- Ed.
        rewrite decide_False; [done|]. by intros ?%object_map_empty.
      * by rewrite lookup_partial_alter_ne, lookup_insert_ne.
    + apply printed_shows, ggmap_ok_set; [done..|]. rewrite <- El. by apply json_ok_delete.
Qed.

(** The overrides for pairs of groups behave as a map of maps: adding a user group adds
    an empty map unless it is there, deleting one deletes its map, saving an override
    writes exactly that pair and drops the pair it was renamed from, and deleting one
    deletes that pair, and the user group with it when it was the last; the text that
    is stored is read back as exactly the map. *)
Theorem overrides_refine t ov :
  shows t ov →
  (∀ input, let g := trim input in regular g →
    if nonempty g then ∃ t', handleUserGroupSave t input = Some (Some t') ∧ shows t' (<[g := default ∅ (ov !! g)]> ov)
    else handleUserGroupSave t input = Some None) ∧
  (∀ g, ∃ t', handleUserGroupDelete t g = Some t' ∧ shows t' (delete g ov)) ∧
  (∀ g target ratio old, regular g → g ≠ [] → regular target → num_ok ratio = true → old ≠ Some [] →
    ∃ t', handleOverrideSave t g target ratio old = Some (Some t') ∧ shows t' (save_override ov g target ratio old)) ∧
  (∀ g target, ∃ t', handleOverrideDelete t g target = Some t' ∧ shows t' (delete_override ov g target)).
Proof.
  intros Hs. split_and!.
  - intros input g Hg. unfold handleUserGroupSave. fold g. destruct (nonempty g); cbn [negb]; [|done].
    destruct Hs as (m & Hm & Hok & <-). rewrite Hm. cbn [mbind option_bind]. eexists. split; [reflexivity|].
    destruct (regular_with_group m g Hg) as [m' Em]. rewrite Em. cbn [default from_option id].
    destruct (with_group_spec m g m' Hok (proj1 Hg) Em) as [Hok' <-]. by apply printed_shows.
  - intros g. destruct Hs as (m & Hm & Hok & <-). unfold handleUserGroupDelete. rewrite Hm. cbn [mbind option_bind].
    eexists. split; [reflexivity|]. rewrite <- overrides_delete. by apply printed_shows, ggmap_ok_delete.
  - intros. by apply override_saved.
  - intros. by apply override_deleted.
Qed.

Lemma overrides_refine_witness :
  shows (js "{}") ∅ ∧
  ∃ t', handleOverrideSave (js "{}") (js "vip") (js "beta") (num_of_Z 2) None = Some (Some t') ∧
    shows t' {[ js "vip" := {[ js "beta" := JNum (num_of_Z 2) ]} ]}.
Proof.
  assert (shows (js "{}") ∅) as H. { exists []. split_and!; [vm_compute; reflexivity|by repeat constructor|reflexivity]. }
  split; [exact H|].
  assert (regular (js "vip") ∧ regular (js "beta")) as [Hv Hb].
  { split; (split; [by repeat constructor|apply (bool_decide_eq_true_1 _); vm_compute; reflexivity]). }
  apply (proj1 (proj2 (proj2 (overrides_refine _ _ H))) (js "vip") (js "beta") (num_of_Z 2) None Hv ltac:(done) Hb); [vm_compute; reflexivity|done].
Defined.

(** ** Automatic groups *)

(** The text shows exactly this list. *)
Definition shows_list (t : jstr) (l : list json) : Prop := autoGroupsList t = Some l ∧ Forall json_ok l.

Lemma list_printed l : Forall json_ok l → shows_list (stringify_pretty (JArr l)) l.
Proof.
  intros H. split; [|done]. unfold autoGroupsList. by rewrite safe_parse_arr by by apply json_ok_arr.
Qed.

Lemma swap_items_lookup {A} (l : list A) i j k :
  (i < length l)%nat → (j < length l)%nat →
  swap_items l i j !! k = l !! (if decide (k = i) then j else if decide (k = j) then i else k).
Proof.
  intros [x Hx]%lookup_lt_is_Some [y Hy]%lookup_lt_is_Some. unfold swap_items. rewrite Hx, Hy.
  assert (i < length l)%nat as Hi by by apply lookup_lt_is_Some_1. assert (j < length l)%nat as Hj by by apply lookup_lt_is_Some_1.
  destruct (decide (k = j)) as [->|Hkj].
  - rewrite list_lookup_insert_eq by (by rewrite length_insert). destruct (decide (j = i)); congruence.
  - rewrite list_lookup_insert_ne by done. destruct (decide (k = i)) as [->|]; [by rewrite list_lookup_insert_eq|by rewrite list_lookup_insert_ne].
Qed.

Lemma swap_items_Forall {A} (P : A → Prop) l i j : Forall P l → Forall P (swap_items l i j).
Proof.
  intros H. unfold swap_items. destruct (l !! i) eqn:Ei, (l !! j) eqn:Ej; try done.
  rewrite Forall_lookup in H. apply Forall_insert; [apply Forall_insert|]; eauto. by apply Forall_lookup.
Qed.

(** The ordered list of automatic groups: adding appends the trimmed name, and writes
    nothing for a blank one; deleting removes exactly the item at the index; moving
    exchanges an item with its neighbour and nothing else, and writes nothing at the
    ends; every text that is written is read back as that list. *)
Theorem auto_groups_spec t l :
  shows_list t l →
  (∀ input, Forall code_unit (trim input) →
    if nonempty (trim input)
    then ∃ t', handleAutoGroupSave t input = Some (Some t') ∧ shows_list t' (l ++ [JStr (trim input)])
    else handleAutoGroupSave t input = Some None) ∧
  (∀ i, ∃ t', handleAutoGroupDelete t i = Some t' ∧ shows_list t' (delete i l)) ∧
  (∀ i (up : bool), (i < length l)%nat →
    if (if up then (i =? 0) else (S i =? length l))%nat then handleAutoGroupMove t i up = Some None
    else ∃ t' l', handleAutoGroupMove t i up = Some (Some t') ∧ shows_list t' l' ∧
           let j := if up then (i - 1)%nat else S i in
           ∀ k, l' !! k = l !! (if decide (k = i) then j else if decide (k = j) then i else k)).
Proof.
  intros [Ht Hok]. split_and!.
  - intros input Hc. unfold handleAutoGroupSave. destruct (nonempty (trim input)); cbn [negb]; [|done].
    rewrite Ht. cbn [mbind option_bind]. eexists. split; [reflexivity|]. apply list_printed, Forall_app. by repeat constructor.
  - intros i. unfold handleAutoGroupDelete. rewrite Ht. cbn [mbind option_bind]. eexists. split; [reflexivity|].
    rewrite <- delete_take_drop. apply list_printed. by apply Forall_delete.
  - intros i up Hi. unfold handleAutoGroupMove. rewrite Ht. cbn [mbind option_bind].
    set (n := (Z.of_nat i + if up then -1 else 1)%Z).
    assert (((n <? 0) || (Z.of_nat (length l) <=? n))%Z = if up then (i =? 0)%nat else (S i =? length l)%nat) as ->.
    { unfold n. destruct up; apply eq_true_iff_eq; rewrite orb_true_iff, Z.ltb_lt, Z.leb_le, Nat.eqb_eq; lia. }
    destruct (if up then (i =? 0)%nat else (S i =? length l)%nat) eqn:Hd; [reflexivity|].
    assert (Z.to_nat n = if up then (i - 1)%nat else S i) as -> by (unfold n; destruct up; apply Nat.eqb_neq in Hd; lia).
    do 2 eexists. split_and!; [reflexivity|apply list_printed; by apply swap_items_Forall|].
    intros k. apply swap_items_lookup; [done|]. destruct up; apply Nat.eqb_neq in Hd; lia.
Qed.

Lemma auto_groups_spec_witness :
  shows_list (js "[1, 2]") (map (λ z, JNum (num_of_Z z)) [1; 2]%Z) ∧
  ∃ t', handleAutoGroupDelete (js "[1, 2]") 0 = Some t' ∧ shows_list t' [JNum (num_of_Z 2)].
Proof.
  assert (shows_list (js "[1, 2]") (map (λ z, JNum (num_of_Z z)) [1; 2]%Z)) as H.
  { split; [vm_compute; reflexivity|]. repeat constructor; vm_compute; reflexivity. }
  split; [exact H|]. exact (proj1 (proj2 (auto_groups_spec _ _ H)) 0%nat).
Defined.
