(* ===== verification/SpecialGroups.v ===== *)
(** * Special usable groups

    Model of [web/default/src/features/system-settings/models/group-special-usable-editor.tsx]:
    rules for the groups that a user group can select, stored as a map of maps whose
    inner names carry the operation as a prefix. *)

From S2P Require Import Prelude JsString JsNumber Json JsonPretty SettingsJson EntryEditors GroupRatios.
From stdpp Require Import gmap.
From Stdlib Require Import NArith ZArith SpecFloat.

Inductive OpType := OP_ADD | OP_REMOVE | OP_APPEND.

#[export] Instance OpType_eq_dec : EqDecision OpType.
Proof. solve_decision. Defined.

Record Rule := {
  rule_id : jstr;
  userGroup : jstr;
  op : OpType;
  targetGroup : jstr;
  description : jstr;
}.

(** The counter is increased before it is read. *)
Definition uid (counter : N) : jstr * N := (js "gsu_" ++ dec (counter + 1), (counter + 1)%N).

Definition parsePrefix (rawKey : jstr) : OpType * jstr :=
  match rawKey with
  | 43%N :: 58%N :: rest => (OP_ADD, rest)
  | 45%N :: 58%N :: rest => (OP_REMOVE, rest)
  | _ => (OP_APPEND, rawKey)
  end.

Definition toRawKey (o : OpType) (groupName : jstr) : jstr :=
  match o with
  | OP_ADD => js "+:" ++ groupName
  | OP_REMOVE => js "-:" ++ groupName
  | OP_APPEND => groupName
  end.

Definition safeParseJson (str : jstr) : json :=
  if negb (nonempty str) || negb (nonempty (trim str)) then JObj []
  else default (JObj []) (json_parse str).

(** The entries of the inner objects, each with its user group. *)
Definition rule_entries (nested : json) : list (jstr * jstr * json) :=
  flat_map (λ kv, match kv.2 with
    | JObj _ | JArr _ => map (λ e, (kv.1, e.1, e.2)) (own_props kv.2)
    | _ => []
    end) (own_props nested).

Definition rule_of (counter : N) (e : jstr * jstr * json) : Rule :=
  let (o, groupName) := parsePrefix e.1.2 in
  {| rule_id := (uid counter).1; userGroup := e.1.1; op := o; targetGroup := groupName;
     description := match o, e.2 with OP_REMOVE, _ => js "remove" | _, JStr desc => desc | _, _ => [] end |}.

Fixpoint push_rules (counter : N) (l : list (jstr * jstr * json)) : list Rule * N :=
  match l with
  | [] => ([], counter)
  | e :: l => let r := push_rules (uid counter).2 l in (rule_of counter e :: r.1, r.2)
  end.

(** [Object.entries(null)] throws. *)
Definition flattenRules (nested : json) (counter : N) : exn (list Rule * N) :=
  match nested with JNull => Throw | _ => Ret (push_rules counter (rule_entries nested)) end.

(** One turn of the loop.  Under an inherited name the rule is written to an object that
    is not part of the result. *)
Definition nest_rule (result : ggmap) (r : Rule) : ggmap :=
  if negb (nonempty (userGroup r)) || negb (nonempty (targetGroup r)) then result
  else match with_group result (userGroup r) with
       | None => result
       | Some result =>
         match obj_get (userGroup r) result with
         | Some inner => obj_set result (userGroup r) (put_prop inner (toRawKey (op r) (targetGroup r)) (JStr (description r)))
         | None => result
         end
       end.

Definition nestRules (rules : list Rule) : ggmap := foldl nest_rule [] rules.

Definition serializeRules (rules : list Rule) : jstr :=
  match nestRules rules with [] => js "{}" | nested => printed_map nested end.

(** The rules, the text that was reported last, the input for a new group, and the counter. *)
Record rules_editor := {
  re_rules : list Rule;
  re_value : jstr;
  re_newGroupName : jstr;
  re_counter : N;
}.

Definition mount (value : jstr) (counter : N) : exn rules_editor :=
  r ← flattenRules (safeParseJson value) counter;
  Ret {| re_rules := r.1; re_value := value; re_newGroupName := []; re_counter := r.2 |}.

Definition emitChange (newRules : list Rule) (counter : N) (ed : rules_editor) : rules_editor :=
  {| re_rules := newRules; re_value := serializeRules newRules; re_newGroupName := re_newGroupName ed; re_counter := counter |}.

Inductive rule_change := SetOp (o : OpType) | SetTarget (s : jstr) | SetDesc (s : jstr).

Definition change_rule (c : rule_change) (r : Rule) : Rule :=
  {| rule_id := rule_id r; userGroup := userGroup r;
     op := match c with SetOp o => o | _ => op r end;
     targetGroup := match c with SetTarget s => s | _ => targetGroup r end;
     description := match c with
       | SetDesc s => s
       | SetOp OP_REMOVE => js "remove"
       | SetOp _ => match op r with
                    | OP_REMOVE => if str_eqb (description r) (js "remove") then [] else description r
                    | _ => description r
                    end
       | SetTarget _ => description r
       end |}.

Definition updateRule (id : jstr) (c : rule_change) (ed : rules_editor) : rules_editor :=
  emitChange (map (λ r, if str_eqb (rule_id r) id then change_rule c r else r) (re_rules ed)) (re_counter ed) ed.

Definition removeRule (id : jstr) (ed : rules_editor) : rules_editor :=
  emitChange (List.filter (λ r, negb (str_eqb (rule_id r) id)) (re_rules ed)) (re_counter ed) ed.

Definition removeGroup (groupName : jstr) (ed : rules_editor) : rules_editor :=
  emitChange (List.filter (λ r, negb (str_eqb (userGroup r) groupName)) (re_rules ed)) (re_counter ed) ed.

Definition addRuleToGroup (groupName : jstr) (ed : rules_editor) : rules_editor :=
  let (id, counter) := uid (re_counter ed) in
  emitChange (re_rules ed ++ [{| rule_id := id; userGroup := groupName; op := OP_APPEND; targetGroup := []; description := [] |}])
    counter ed.

Definition addNewGroup (ed : rules_editor) : rules_editor :=
  let name := trim (re_newGroupName ed) in
  if negb (nonempty name) then ed
  else
    let (id, counter) := uid (re_counter ed) in
    let ed := emitChange (re_rules ed ++ [{| rule_id := id; userGroup := name; op := OP_APPEND; targetGroup := []; description := [] |}])
                counter ed in
    {| re_rules := re_rules ed; re_value := re_value ed; re_newGroupName := []; re_counter := re_counter ed |}.

(** One turn of the loop of [grouped] over [map] and [order]: what is inherited is there
    but has no [push]. *)
Definition group_rule (acc : list (jstr * list Rule)) (r : Rule) : exn (list (jstr * list Rule)) :=
  if negb (nonempty (userGroup r)) then Ret acc
  else match obj_get (userGroup r) acc with
       | Some _ => Ret (map (λ gi, if str_eqb gi.1 (userGroup r) then (gi.1, gi.2 ++ [r]) else gi) acc)
       | None => if inherited (userGroup r) then Throw else Ret (acc ++ [(userGroup r, [r])])
       end.

(** The sections of the page, in the order of [order]. *)
Definition grouped (rules : list Rule) : exn (list (jstr * list Rule)) :=
  foldl (λ acc r, acc ← acc; group_rule acc r) (Ret []) rules.

(** ** The sections of the page *)

Definition groups_of (rules : list Rule) : list jstr := dedup (List.filter nonempty (map userGroup rules)).

Definition rules_for (rules : list Rule) (g : jstr) : list Rule := List.filter (λ r, str_eqb (userGroup r) g) rules.

Lemma obj_get_pairs {A} (f : jstr → A) gs g : obj_get g (map (λ g, (g, f g)) gs) = if bool_decide (g ∈ gs) then Some (f g) else None.
Proof.
  induction gs as [|h gs IH]; [done|]. cbn [map obj_get]. unfold str_eqb. rewrite IH.
  repeat case_bool_decide; try set_solver; subst; done.
Qed.

Lemma rules_for_snoc rules r g : rules_for (rules ++ [r]) g = rules_for rules g ++ if str_eqb (userGroup r) g then [r] else [].
Proof. unfold rules_for. by rewrite List.filter_app. Qed.

Lemma elem_of_groups rules g : g ∈ groups_of rules ↔ nonempty g = true ∧ ∃ r, r ∈ rules ∧ userGroup r = g.
Proof.
  unfold groups_of. rewrite elem_of_dedup, list_elem_of_In, filter_In, <- list_elem_of_In, list_elem_of_fmap. naive_solver.
Qed.

(** the page shows one section per user group, in the order in which the groups first
    occur, with exactly the rules of the group in their order, and no section for rules
    without a group; it crashes exactly when a rule has a user group whose name every
    JavaScript object inherits, such as constructor. *)
Theorem special_groups_shown rules :
  grouped rules =
    if existsb (λ r, inherited (userGroup r)) rules then Throw
    else Ret (map (λ g, (g, rules_for rules g)) (groups_of rules)).
Proof.
  unfold grouped. induction rules as [|r rules IH] using rev_ind; [done|].
  rewrite foldl_snoc, IH, existsb_app. cbn [existsb]. rewrite orb_false_r.
  destruct (existsb _ rules) eqn:Ee; [done|]. cbn [orb mbind exn_bind]. unfold group_rule, groups_of.
  rewrite map_app, List.filter_app. cbn [map List.filter]. destruct (nonempty (userGroup r)) eqn:En; cbn [negb].
  2: { destruct (userGroup r) eqn:Eu; [|done]. change (inherited []) with false. cbv iota. rewrite app_nil_r. fold (groups_of rules).
       f_equal. apply map_ext_in. intros g Hg%list_elem_of_In%elem_of_groups. rewrite rules_for_snoc, Eu.
       destruct g as [|c g]; [by destruct Hg|]. by rewrite app_nil_r. }
  rewrite dedup_snoc. fold (groups_of rules). rewrite obj_get_pairs.
  assert (∀ g, g ∈ List.filter nonempty (map userGroup rules) ↔ g ∈ groups_of rules) as Hg by (intros g; symmetry; apply elem_of_dedup).
  rewrite (bool_decide_ext _ _ (Hg _)). case_bool_decide as Hin.
  - assert (inherited (userGroup r) = false) as ->.
    { apply elem_of_groups in Hin as (_ & r' & Hr' & <-). destruct (inherited (userGroup r')) eqn:H; [|done]. rewrite <- Ee.
      symmetry. apply existsb_exists. exists r'. split; [by apply list_elem_of_In|done]. }
    rewrite app_nil_r, map_map. f_equal. apply map_ext. intros g. cbn [fst snd]. rewrite rules_for_snoc. unfold str_eqb.
    rewrite (bool_decide_ext (g = userGroup r) (userGroup r = g)) by done. case_bool_decide; [done|by rewrite app_nil_r].
  - destruct (inherited (userGroup r)); [done|]. f_equal. rewrite map_app. cbn [map]. f_equal.
    + apply map_ext_in. intros g Hgin%list_elem_of_In. rewrite rules_for_snoc. unfold str_eqb. rewrite bool_decide_eq_false_2 by (intros <-; done).
      by rewrite app_nil_r.
    + do 2 f_equal. rewrite rules_for_snoc. unfold str_eqb at 1. rewrite bool_decide_eq_true_2 by done.
      assert (rules_for rules (userGroup r) = []) as ->; [|done].
      destruct (rules_for rules (userGroup r)) as [|r' l] eqn:E; [done|]. destruct Hin. apply elem_of_groups. split; [done|].
      assert (In r' (rules_for rules (userGroup r))) as [Hr' Hb]%filter_In by (rewrite E; by left).
      exists r'. split; [by apply list_elem_of_In|]. by apply bool_decide_eq_true in Hb.
Qed.

(** A user group named constructor breaks the page as soon as it is added. *)
Example inherited_group_crashes :
  grouped (re_rules (addNewGroup {| re_rules := []; re_value := []; re_newGroupName := js "constructor"; re_counter := 0 |})) = Throw.
Proof. vm_compute. reflexivity. Qed.

(** An appended group whose name begins with a prefix reopens as another operation. *)
Example prefixed_name_reopens :
  (flattenRules (safeParseJson (serializeRules
     [{| rule_id := []; userGroup := js "vip"; op := OP_APPEND; targetGroup := js "-:x"; description := js "d" |}])) 0)
  = Ret ([{| rule_id := js "gsu_1"; userGroup := js "vip"; op := OP_REMOVE; targetGroup := js "x"; description := js "remove" |}], 1%N).
Proof. vm_compute. reflexivity. Qed.

(** ** Reading the rules back *)

(** What a rule says, and the entry that it is written as. *)
Definition rule_data (r : Rule) : jstr * OpType * jstr * jstr := (userGroup r, op r, targetGroup r, description r).

Definition entry_of (r : Rule) : jstr * jstr * json := (userGroup r, toRawKey (op r) (targetGroup r), JStr (description r)).

(** A rule with a group and a target, whose name is no prefixed one when it is appended,
    and whose description is the fixed one when it removes. *)
Definition rule_ok (r : Rule) : Prop :=
  userGroup r ≠ [] ∧ regular (userGroup r) ∧
  targetGroup r ≠ [] ∧ regular (toRawKey (op r) (targetGroup r)) ∧ Forall code_unit (description r) ∧
  parsePrefix (toRawKey (op r) (targetGroup r)) = (op r, targetGroup r) ∧
  (op r = OP_REMOVE → description r = js "remove").

Definition flat (m : ggmap) : list (jstr * jstr * json) := flat_map (λ kv, map (λ e, (kv.1, e.1, e.2)) kv.2) m.

Lemma rule_entries_wrap m : rule_entries (JObj (map wrap m)) = flat m.
Proof. unfold rule_entries, flat. cbn [own_props]. induction m as [|kv m IH]; [done|]. cbn [map flat_map]. by rewrite IH. Qed.

Lemma flat_get m g inner k v : obj_get g m = Some inner → obj_get k inner = Some v → (g, k, v) ∈ flat m.
Proof.
  intros Hg%obj_get_elem Hk%obj_get_elem. apply list_elem_of_In, in_flat_map. exists (g, inner).
  split; [by apply list_elem_of_In|]. apply in_map_iff. exists (k, v). split; [done|by apply list_elem_of_In].
Qed.

(** Adding a pair that is not there adds exactly its entry. *)
Lemma flat_add m g inner k v :
  NoDup (map fst m) → NoDup (map fst inner) → obj_get g m = Some inner → k ∉ map fst inner →
  flat (obj_set m g (obj_set inner k v)) ≡ₚ flat m ++ [(g, k, v)].
Proof.
  intros Hm Hi Hg Hk. assert (m ≡ₚ (g, inner) :: obj_delete g m) as Hp by (rewrite <- (obj_set_perm m g inner), obj_set_same by done; done).
  unfold flat. rewrite (Permutation_flat_map _ (obj_set_perm m g (obj_set inner k v) Hm)).
  rewrite (Permutation_flat_map (λ kv : jstr * list (jstr * json), map (λ e, (kv.1, e.1, e.2)) kv.2) Hp). cbn [flat_map fst snd].
  rewrite (Permutation_map _ (set_fresh_perm inner inner k v Hi (Permutation_refl _) Hk)), map_app. cbn [map fst snd].
  rewrite <- !app_assoc. apply Permutation_app_head. apply Permutation_app_comm.
Qed.

Lemma nest_rules_spec rules :
  Forall rule_ok rules → NoDup (map (λ r, (entry_of r).1) rules) →
  ggmap_ok (nestRules rules) ∧ flat (nestRules rules) ≡ₚ map entry_of rules.
Proof.
  unfold nestRules. induction rules as [|r rules IH] using rev_ind; [intros _ _; split; [by repeat constructor|done]|].
  intros [Hok [(Hu & Hgu & Ht & Hgt & Hd & _) _]%Forall_cons]%Forall_app. rewrite map_app. intros (Hn & Hx & _)%NoDup_app.
  destruct (IH Hok Hn) as [Hg Hp]. rewrite foldl_snoc, map_app. set (m := foldl nest_rule [] rules) in *. unfold nest_rule.
  destruct (userGroup r) as [|u us] eqn:Eu; [done|]. rewrite <- Eu in *. clear Hu. destruct (targetGroup r) as [|x xs] eqn:Et; [done|]. rewrite <- Et in *.
  assert (nonempty (userGroup r) = true) as -> by (by rewrite Eu). assert (nonempty (targetGroup r) = true) as -> by (by rewrite Et). cbn [negb orb].
  destruct (regular_with_group m (userGroup r) Hgu) as [m' Em]. rewrite Em.
  assert (ggmap_ok m' ∧ flat m' ≡ₚ flat m ∧ is_Some (obj_get (userGroup r) m')) as (Hg' & Hf & inner & Ei).
  { destruct (with_group_spec m _ m' Hg (proj1 Hgu) Em) as [Hg' Eo]. split; [done|]. unfold with_group in Em.
    destruct (obj_get (userGroup r) m) eqn:E; [injection Em as <-; by eauto|]. destruct (inherited _); [done|]. injection Em as <-.
    rewrite obj_get_set. unfold str_eqb. rewrite bool_decide_eq_true_2 by done. split; [|by eauto].
    assert (NoDup (map fst m)) as Hnd by (destruct (json_ok_obj_inv _ Hg) as [[H _] _]; by rewrite map_map in H).
    assert (userGroup r ∉ map fst m) as Hf.
    { intros (kv & Ek & Hin)%list_elem_of_fmap. destruct kv as [k o]. cbn [fst] in Ek. subst k. by rewrite (elem_obj_get _ _ _ Hnd Hin) in E. }
    unfold flat. rewrite (Permutation_flat_map _ (set_fresh_perm m m (userGroup r) [] Hnd (Permutation_refl _) Hf)).
    rewrite flat_map_app. cbn. by rewrite app_nil_r. }
  rewrite Ei. rewrite put_prop_set by by apply regular_not_proto.
  destruct (ggmap_ok_get m' _ inner Hg' Ei) as [_ Hji].
  assert (NoDup (map fst inner)) as Hni by (by destruct (json_ok_obj_inv _ Hji) as [[H _] _]).
  assert (NoDup (map fst m')) as Hnm by (destruct (json_ok_obj_inv _ Hg') as [[H _] _]; by rewrite map_map in H).
  split.
  - apply ggmap_ok_set; [done|apply Hgu|]. apply json_ok_set; [done|apply Hgt|by constructor].
  - rewrite (flat_add m' _ inner); [by rewrite Hf, Hp|done..|].
    intros ((k & v) & Ek & Hin)%list_elem_of_fmap. cbn [fst] in Ek. subst k.
    pose proof (flat_get m' _ inner _ v Ei (elem_obj_get _ _ _ Hni Hin)) as Hin2. rewrite Hf, Hp in Hin2.
    apply list_elem_of_fmap in Hin2 as (r' & Er & Hr'). apply (Hx (entry_of r).1); [|by left].
    apply list_elem_of_fmap. exists r'. split; [|done]. by rewrite <- Er.
Qed.

Lemma pushed_data c l : map rule_data (push_rules c l).1 = map (λ e, rule_data (rule_of 0 e)) l.
Proof.
  revert c. induction l as [|e l IH]; intros c; [done|]. cbn [push_rules fst map]. rewrite IH. f_equal.
  unfold rule_of. by destruct (parsePrefix e.1.2).
Qed.

Lemma rule_of_entry r : rule_ok r → rule_data (rule_of 0 (entry_of r)) = rule_data r.
Proof.
  intros (_ & _ & _ & _ & _ & Hp & Hr). unfold rule_of. cbn [entry_of fst snd]. rewrite Hp. unfold rule_data. cbn [userGroup op targetGroup description].
  destruct (op r); [done|by rewrite Hr|done].
Qed.

(** Rules with a user group and a target, no two of them for the same group, operation
    and target, are stored and read back as exactly the same rules, in some order and
    with new identifiers. *)
Theorem special_rules_roundtrip rules c :
  Forall rule_ok rules → NoDup (map (λ r, (entry_of r).1) rules) →
  ∃ rules' c', flattenRules (safeParseJson (serializeRules rules)) c = Ret (rules', c') ∧
    map rule_data rules' ≡ₚ map rule_data rules.
Proof.
  intros Hok Hn. destruct (nest_rules_spec rules Hok Hn) as [Hg Hp].
  assert (safeParseJson (serializeRules rules) = JObj (map wrap (nestRules rules))) as ->.
  { unfold serializeRules. destruct (nestRules rules) as [|kv m] eqn:E; [vm_compute; reflexivity|]. rewrite <- E in *.
    unfold safeParseJson, printed_map. change (map (λ kv, (kv.1, JObj kv.2)) (nestRules rules)) with (map wrap (nestRules rules)).
    destruct (pretty_obj_trim (map wrap (nestRules rules))) as [-> Hne]. rewrite json_parse_pretty by done.
    by destruct (stringify_pretty _). }
  unfold flattenRules. rewrite rule_entries_wrap. rewrite (surjective_pairing (push_rules c (flat (nestRules rules)))).
  do 2 eexists. split; [reflexivity|]. rewrite pushed_data, (Permutation_map _ Hp), map_map.
  erewrite map_ext_in; [reflexivity|]. intros r Hr%list_elem_of_In. apply rule_of_entry. rewrite Forall_forall in Hok. by apply Hok.
Qed.

Definition sample_rules : list Rule :=
  [{| rule_id := js "a"; userGroup := js "vip"; op := OP_ADD; targetGroup := js "beta"; description := js "Beta" |};
   {| rule_id := js "b"; userGroup := js "vip"; op := OP_REMOVE; targetGroup := js "default"; description := js "remove" |};
   {| rule_id := js "c"; userGroup := js "7"; op := OP_APPEND; targetGroup := js "beta"; description := [] |}].

Lemma special_rules_roundtrip_witness :
  ∃ rules' c', flattenRules (safeParseJson (serializeRules sample_rules)) 0 = Ret (rules', c') ∧
    map rule_data rules' ≡ₚ map rule_data sample_rules.
Proof.
  apply special_rules_roundtrip.
  - repeat (constructor; [split_and!; [done|split; [by repeat constructor|apply (bool_decide_eq_true_1 _); vm_compute; reflexivity]|done|
      split; [by repeat constructor|apply (bool_decide_eq_true_1 _); vm_compute; reflexivity]|by repeat constructor|reflexivity|done]|]). constructor.
  - apply (bool_decide_eq_true_1 _). vm_compute. reflexivity.
Defined.

(** ** Sessions *)

Inductive rules_action :=
  | Change (id : jstr) (c : rule_change)
  | Remove (id : jstr)
  | RemoveAll (groupName : jstr)
  | AddTo (groupName : jstr)
  | TypeName (s : jstr)
  | AddGroup.

Definition rules_act (a : rules_action) (ed : rules_editor) : rules_editor :=
  match a with
  | Change id c => updateRule id c ed
  | Remove id => removeRule id ed
  | RemoveAll g => removeGroup g ed
  | AddTo g => addRuleToGroup g ed
  | TypeName s => {| re_rules := re_rules ed; re_value := re_value ed; re_newGroupName := s; re_counter := re_counter ed |}
  | AddGroup => addNewGroup ed
  end.

(** The page has no input for the description of a rule that removes. *)
Definition offered (ed : rules_editor) (a : rules_action) : Prop :=
  match a with
  | Change id (SetDesc _) => Forall (λ r, rule_id r = id → op r ≠ OP_REMOVE) (re_rules ed)
  | _ => True
  end.

Inductive rules_reach : rules_editor → Prop :=
  | rules_mount value c ed : mount value c = Ret ed → rules_reach ed
  | rules_step ed a : rules_reach ed → offered ed a → rules_reach (rules_act a ed).

Definition rules_inv (ed : rules_editor) : Prop :=
  NoDup (map rule_id (re_rules ed)) ∧
  Forall (λ r, ∃ k, rule_id r = js "gsu_" ++ dec k ∧ (k <= re_counter ed)%N) (re_rules ed) ∧
  Forall (λ r, op r = OP_REMOVE → description r = js "remove") (re_rules ed).

Lemma uid_inj i j : js "gsu_" ++ dec i = js "gsu_" ++ dec j → i = j.
Proof. intros H%app_inv_head. by apply dec_inj. Qed.

Lemma push_rules_inv c l :
  let r := push_rules c l in
  (c <= r.2)%N ∧ NoDup (map rule_id r.1) ∧
  Forall (λ x, ∃ k, rule_id x = js "gsu_" ++ dec k ∧ (c < k <= r.2)%N) r.1 ∧
  Forall (λ x, op x = OP_REMOVE → description x = js "remove") r.1.
Proof.
  cbv zeta. revert c. induction l as [|e l IH]; intros c; cbn [push_rules fst snd]; [split_and!; [lia|constructor..]|].
  destruct (IH (uid c).2) as (H1 & H2 & H3 & H4). cbn [uid snd] in *. set (r := push_rules (c + 1) l) in *.
  assert (rule_id (rule_of c e) = js "gsu_" ++ dec (c + 1)) as Ei by (unfold rule_of; by destruct (parsePrefix e.1.2)).
  split_and!; [lia| | |].
  - cbn [map]. rewrite Ei. constructor; [|done]. intros (x & Hx & Hin)%list_elem_of_fmap.
    rewrite Forall_forall in H3. destruct (H3 x Hin) as (k & Hk & Hlt). rewrite Hk in Hx. apply uid_inj in Hx. lia.
  - constructor; [exists (c + 1)%N; split; [done|lia]|]. eapply Forall_impl; [exact H3|]. intros x (k & ? & ?). exists k. split; [done|lia].
  - constructor; [|done]. unfold rule_of. destruct (parsePrefix e.1.2) as [o g]. cbn [op description]. by intros ->.
Qed.

Lemma added_inv ed g s :
  rules_inv ed →
  rules_inv {| re_rules := re_rules ed ++ [{| rule_id := (uid (re_counter ed)).1; userGroup := g; op := OP_APPEND;
                                              targetGroup := []; description := [] |}];
               re_value := serializeRules (re_rules ed ++ [{| rule_id := (uid (re_counter ed)).1; userGroup := g; op := OP_APPEND;
                                              targetGroup := []; description := [] |}]);
               re_newGroupName := s; re_counter := (re_counter ed + 1)%N |}.
Proof.
  intros (Hn & Hk & Hd). unfold rules_inv. cbn [re_rules re_counter uid fst]. rewrite map_app. cbn [map rule_id]. split_and!.
  - apply NoDup_app. split_and!; [done| |by apply NoDup_singleton]. intros x Hx ->%list_elem_of_singleton.
    apply list_elem_of_fmap in Hx as (r & Hr & Hin). rewrite Forall_forall in Hk. destruct (Hk r Hin) as (k & Ek & Hle).
    rewrite Ek in Hr. apply uid_inj in Hr. lia.
  - apply Forall_app. split; [|repeat constructor; exists (re_counter ed + 1)%N; by split].
    eapply Forall_impl; [exact Hk|]. intros r (k & ? & ?). exists k. split; [done|lia].
  - apply Forall_app. by repeat constructor.
Qed.

Lemma filtered_inv ed p :
  rules_inv ed → rules_inv (emitChange (List.filter p (re_rules ed)) (re_counter ed) ed).
Proof.
  intros (Hn & Hk & Hd). unfold rules_inv. cbn [emitChange re_rules re_counter]. split_and!; [|by apply Forall_filter_list..].
  eapply sublist_NoDup; [exact Hn|]. clear. induction (re_rules ed) as [|r l IH]; [done|].
  cbn [List.filter]. destruct (p r); cbn [map]; by constructor.
Qed.

Lemma changed_inv ed id c : rules_inv ed → offered ed (Change id c) → rules_inv (updateRule id c ed).
Proof.
  intros (Hn & Hk & Hd) Ho. unfold rules_inv. cbn [updateRule emitChange re_rules re_counter].
  assert (∀ r, rule_id (if str_eqb (rule_id r) id then change_rule c r else r) = rule_id r) as E by (intros r; by destruct (str_eqb _ _)).
  rewrite map_map, (map_ext _ rule_id) by done. split_and!; [done| |]; apply (Forall_map (λ r, if str_eqb (rule_id r) id then change_rule c r else r)).
  - eapply Forall_impl; [exact Hk|]. intros r Hr. cbv beta. by rewrite E.
  - rewrite Forall_forall in Hd |- *. intros r Hr. unfold str_eqb. case_bool_decide as Ei; [|by apply Hd].
    destruct c as [[]|s|s]; cbn [change_rule op description]; try done; try by apply Hd.
    cbn [offered] in Ho. rewrite Forall_forall in Ho. intros Hop. by destruct (Ho r Hr Ei).
Qed.

Lemma mount_inv value c ed : mount value c = Ret ed → rules_inv ed.
Proof.
  unfold mount. set (v := safeParseJson value). destruct (flattenRules v c) as [r|] eqn:E; [|done]. cbn [mbind exn_bind].
  intros [= <-]. assert (r = push_rules c (rule_entries v)) as -> by (destruct v; [done|by injection E..]).
  destruct (push_rules_inv c (rule_entries v)) as (_ & H2 & H3 & H4). split_and!; [done| |done].
  eapply Forall_impl; [exact H3|]. intros x (k & ? & ?). exists k. split; [done|]. cbn [re_counter]. lia.
Qed.

(** In every state that the editor of special rules reaches, the rules have distinct
    identifiers, a rule that removes a group has the fixed description, and the text
    that was reported last is the text of the shown rules once something was changed. *)
Theorem rules_session ed a :
  rules_reach ed → offered ed a →
  NoDup (map rule_id (re_rules ed)) ∧ Forall (λ r, op r = OP_REMOVE → description r = js "remove") (re_rules ed) ∧
  (re_rules (rules_act a ed) = re_rules ed ∨ re_value (rules_act a ed) = serializeRules (re_rules (rules_act a ed))).
Proof.
  intros Hr Ho. assert (rules_inv ed) as (H1 & _ & H3).
  { clear a Ho. induction Hr as [value c ed Hm|ed a _ IH Ho].
    - by eapply mount_inv.
    - destruct a; cbn [rules_act].
      + by apply changed_inv.
      + by apply filtered_inv.
      + by apply filtered_inv.
      + by apply added_inv.
      + exact IH.
      + unfold addNewGroup. destruct (negb _); [done|]. by apply added_inv. }
  split_and!; [done..|]. destruct a; cbn [rules_act]; try (right; reflexivity); [by left|].
  unfold addNewGroup. destruct (negb _); [by left|right; reflexivity].
Qed.

Lemma rules_session_witness :
  let ed := {| re_rules := []; re_value := []; re_newGroupName := []; re_counter := 0%N |} in
  rules_reach ed ∧ NoDup (map rule_id (re_rules ed)).
Proof.
  intros ed. assert (rules_reach ed) as H by (apply (rules_mount [] 0); vm_compute; reflexivity).
  exact (conj H (proj1 (rules_session ed (AddTo (js "vip")) H I))).
Defined.
