(* ===== verification/SettingsSessions.v ===== *)
(** * Sessions of the settings tables

    The client side of [EntryEditor]: what a user does in any of the six table editors
    is what the same steps do to a finite map, whatever text the map is stored in. *)

From S2P Require Import Prelude JsString JsNumber Json JsonPretty SettingsJson EntryEditors.
From S2P Require Import ChatEditor PaymentEditor CreemEditor RateLimitEditor AmountEditors GroupRatios.
From stdpp Require Import gmap.
From Stdlib Require Import NArith ZArith SpecFloat.

(** Every session of allowed steps from a readable text ends in a readable text, whose
    table is the one that the steps make of the first. *)
Definition refines_map {E K} `{Countable K} (ed : EntryEditor E K) : Prop :=
  ∀ t l t', ee_ok t → session (ed := ed) t l t' →
    ee_ok t' ∧ table (ed := ed) (ee_entries t') = foldl (spec_edit (ed := ed)) (table (ed := ed) (ee_entries t)) l.




(** The chat dialog does not look whether a name is taken: a preset that is renamed to the
    name of another one is stored besides it, and the table shows two of that name. *)
Theorem renamed_chat_doubled (t : jstr) (o e x : Chats.ChatEntry) :
  chats_ok t → chat_valid e → x ∈ chat_entries t → Chats.name x = Chats.name e → Chats.name x ≠ Chats.name o →
  let shown := chat_entries (Chats.handleSave t (Some o) e) in
  x ∈ shown ∧ shown = without Chats.name (Chats.name o) (chat_entries t) ++ [e] ∧ ¬ NoDup (map Chats.name shown).
Proof.
  intros (E & Hv & Hn)%chats_ok_inv He Hx Hxe Hxo. cbv zeta.
  assert (x ∈ without Chats.name (Chats.name o) (chat_entries t)) as Hin.
  { apply list_elem_of_In, filter_In. split; [by apply list_elem_of_In|]. by rewrite bool_decide_eq_false_2. }
  assert (chat_entries (Chats.handleSave t (Some o) e) = without Chats.name (Chats.name o) (chat_entries t) ++ [e]) as ->.
  { unfold Chats.handleSave. rewrite E, chat_key_filter. change [JObj _] with (map chat_item [e]). rewrite <- map_app.
    apply chats_shown, Forall_app. split; [by apply Forall_filter_list|by constructor]. }
  split_and!; [apply elem_of_app; by left|done|]. rewrite map_app, NoDup_app. intros (_ & Hd & _).
  apply (Hd (Chats.name x)); [by apply list_elem_of_fmap; exists x|by apply list_elem_of_singleton].
Qed.

Lemma renamed_chat_doubled_witness :
  let a := {| Chats.name := js "a"; Chats.url := js "u" |} in
  let b := {| Chats.name := js "b"; Chats.url := js "v" |} in
  let t := stringify_pretty (JArr [chat_item a; chat_item b]) in
  ¬ NoDup (map Chats.name (chat_entries (Chats.handleSave t (Some a) {| Chats.name := js "b"; Chats.url := js "u" |}))).
Proof.
  intros a b t. apply (renamed_chat_doubled t a {| Chats.name := js "b"; Chats.url := js "u" |} b).
  - apply (chats_printed [a; b]); [apply (bool_decide_unpack _); vm_compute; exact I|].
    repeat constructor; vm_compute; reflexivity.
  - repeat constructor; vm_compute; reflexivity.
  - assert (chat_entries t = [a; b]) as -> by (vm_compute; reflexivity). apply list_elem_of_further, list_elem_of_here.
  - reflexivity.
  - discriminate.
Defined.
