(* ===== verification/ParamOverride.v ===== *)
(** * The parameter override editor: tables, normalisation, validation and saving

    Model of the helpers of
    [web/default/src/features/channels/components/dialogs/param-override-editor-dialog.tsx].
    A channel stores its parameter overrides as a JSON text; the editor turns it
    into a list of operations, edits them and prints them again.  The source draws
    a fresh identifier for every row from a module-level counter, which is threaded
    here through the monad [idm]; a throw keeps the counter it had reached. *)

From S2P Require Import Prelude JsString JsNumber Json JsonPretty.
From stdpp Require Import list.
From Stdlib Require Import NArith.

(** ** Outcomes *)

(** What a [throw] carries: an [Error] of the source with its message, or a
    TypeError raised by the engine. *)
Inductive thrown := Error (message : jstr) | TypeError.

Inductive res (A : Type) := Ok (x : A) | Err (e : thrown).
Arguments Ok {A} x.
Arguments Err {A} e.

#[export] Instance res_ret : MRet res := λ A x, Ok x.
#[export] Instance res_bind : MBind res := λ A B f m,
  match m with Ok x => f x | Err e => Err e end.

(** An operation of the language that throws a TypeError. *)
Definition of_exn {A} (m : exn A) : res A :=
  match m with Ret x => Ok x | Throw => Err TypeError end.

(** Computations that draw local identifiers. *)
Definition idm (A : Type) : Type := N → res A * N.

#[export] Instance idm_ret : MRet idm := λ A x seed, (Ok x, seed).
#[export] Instance idm_bind : MBind idm := λ A B f m seed,
  match m seed with
  | (Ok x, seed') => f x seed'
  | (Err e, seed') => (Err e, seed')
  end.

Lemma idm_bind_ok {A B} (m : idm A) (f : A → idm B) seed x seed' :
  m seed = (Ok x, seed') → (m ≫= f) seed = f x seed'.
Proof. intros H. unfold mbind, idm_bind. by rewrite H. Qed.

Lemma idm_bind_inv {A B} (m : idm A) (f : A → idm B) seed y seed' :
  (m ≫= f) seed = (Ok y, seed') → ∃ x seed1, m seed = (Ok x, seed1) ∧ f x seed1 = (Ok y, seed').
Proof. unfold mbind, idm_bind. destruct (m seed) as [[x|e] seed1]; [eauto|done]. Qed.

Lemma idm_mapM_cons {A B} (f : A → idm B) x l seed y seed1 l' seed' :
  f x seed = (Ok y, seed1) → mapM f l seed1 = (Ok l', seed') → mapM f (x :: l) seed = (Ok (y :: l'), seed').
Proof.
  intros H1 H2. cbn [mapM]. rewrite (idm_bind_ok _ _ _ _ _ H1). by rewrite (idm_bind_ok _ _ _ _ _ H2).
Qed.

Lemma idm_mapM_inv {A B} (f : A → idm B) x l seed r seed' :
  mapM f (x :: l) seed = (Ok r, seed') →
  ∃ y seed1 l', f x seed = (Ok y, seed1) ∧ mapM f l seed1 = (Ok l', seed') ∧ r = y :: l'.
Proof.
  cbn [mapM]. intros (y & seed1 & H1 & (l' & seed2 & H2 & [= <- <-])%idm_bind_inv)%idm_bind_inv. eauto 10.
Qed.

Definition lift {A} (m : res A) : idm A := λ seed, (m, seed).

(** [try { m } catch { return d }]. *)
Definition try_catch {A} (m : idm A) (d : A) : idm A := λ seed,
  match m seed with
  | (Ok x, seed') => (Ok x, seed')
  | (Err _, seed') => (Ok d, seed')
  end.

(** ** Types *)

Record ParamOverrideCondition := {
  c_id : jstr;
  c_path : jstr;
  c_mode : jstr;
  c_value_text : jstr;
  c_invert : bool;
  c_pass_missing_key : bool;
}.

Record ParamOverrideOperation := {
  o_id : jstr;
  o_description : jstr;
  o_path : jstr;
  o_mode : jstr;
  o_from : jstr;
  o_to : jstr;
  o_value_text : jstr;
  o_keep_origin : bool;
  o_logic : jstr;
  o_conditions : list ParamOverrideCondition;
}.

(** ** Constants: option lists are (label, value) pairs *)

Definition OPERATION_MODE_OPTIONS : list (jstr * jstr) :=
  [(js "Set Field", js "set");
   (js "Delete Field", js "delete");
   (js "Append to End", js "append");
   (js "Prepend to Start", js "prepend");
   (js "Copy Field", js "copy");
   (js "Move Field", js "move");
   (js "String Replace", js "replace");
   (js "Regex Replace", js "regex_replace");
   (js "Trim Prefix", js "trim_prefix");
   (js "Trim Suffix", js "trim_suffix");
   (js "Ensure Prefix", js "ensure_prefix");
   (js "Ensure Suffix", js "ensure_suffix");
   (js "Trim Space", js "trim_space");
   (js "To Lowercase", js "to_lower");
   (js "To Uppercase", js "to_upper");
   (js "Return Custom Error", js "return_error");
   (js "Prune Object Items", js "prune_objects");
   (js "Pass Through Headers", js "pass_headers");
   (js "Sync Fields", js "sync_fields");
   (js "Set Request Header", js "set_header");
   (js "Delete Request Header", js "delete_header");
   (js "Copy Request Header", js "copy_header");
   (js "Move Request Header", js "move_header")].

Definition OPERATION_MODE_VALUES : list jstr := map snd OPERATION_MODE_OPTIONS.

Definition OPERATION_MODE_LABEL_MAP : list (jstr * jstr) :=
  foldl (λ acc item, obj_set acc item.2 item.1) [] OPERATION_MODE_OPTIONS.

Definition CONDITION_MODE_OPTIONS : list (jstr * jstr) :=
  [(js "Exact Match", js "full");
   (js "Prefix", js "prefix");
   (js "Suffix", js "suffix");
   (js "Contains", js "contains");
   (js "Greater Than", js "gt");
   (js "Greater Than or Equal", js "gte");
   (js "Less Than", js "lt");
   (js "Less Than or Equal", js "lte")].

Definition CONDITION_MODE_VALUES : list jstr := map snd CONDITION_MODE_OPTIONS.

(** Which fields of an operation its mode uses. *)
Record mode_meta := meta {
  m_path : bool;
  m_pathOptional : bool;
  m_value : bool;
  m_from : bool;
  m_to : bool;
  m_keepOrigin : bool;
  m_pathAlias : bool;
}.

Definition MODE_META : list (jstr * mode_meta) :=
  [(js "delete", meta true false false false false false false);
   (js "set", meta true false true false false true false);
   (js "append", meta true false true false false true false);
   (js "prepend", meta true false true false false true false);
   (js "copy", meta false false false true true false false);
   (js "move", meta false false false true true false false);
   (js "replace", meta true false false true false false false);
   (js "regex_replace", meta true false false true false false false);
   (js "trim_prefix", meta true false true false false false false);
   (js "trim_suffix", meta true false true false false false false);
   (js "ensure_prefix", meta true false true false false false false);
   (js "ensure_suffix", meta true false true false false false false);
   (js "trim_space", meta true false false false false false false);
   (js "to_lower", meta true false false false false false false);
   (js "to_upper", meta true false false false false false false);
   (js "return_error", meta false false true false false false false);
   (js "prune_objects", meta false true true false false false false);
   (js "pass_headers", meta false false true false false true false);
   (js "sync_fields", meta false false false true true false false);
   (js "set_header", meta true false true false false true false);
   (js "delete_header", meta true false false false false false false);
   (js "copy_header", meta false false false true true true true);
   (js "move_header", meta false false false true true true true)].

(** [MODE_META[mode] || MODE_META.set], for the modes of the option list (every
    operation the editor holds has one). *)
Definition meta_of (mode : jstr) : mode_meta :=
  default (meta true false true false false true false) (obj_get mode MODE_META).

Definition VALUE_REQUIRED_MODES : list jstr :=
  [js "trim_prefix"; js "trim_suffix"; js "ensure_prefix"; js "ensure_suffix"; js "set_header"; js "return_error"; js "prune_objects"; js "pass_headers"].

Definition FROM_REQUIRED_MODES : list jstr :=
  [js "copy"; js "move"; js "replace"; js "regex_replace"; js "copy_header"; js "move_header"; js "sync_fields"].

Definition TO_REQUIRED_MODES : list jstr :=
  [js "copy"; js "move"; js "copy_header"; js "move_header"; js "sync_fields"].

Definition MODE_DESCRIPTIONS : list (jstr * jstr) :=
  [(js "set", js "Write value to the target field");
   (js "delete", js "Remove the target field");
   (js "append", js "Append value to array / string / object end");
   (js "prepend", js "Prepend value to array / string / object start");
   (js "copy", js "Copy source field to target field");
   (js "move", js "Move source field to target field");
   (js "replace", js "Do string replacement in the target field");
   (js "regex_replace", js "Do regex replacement in the target field");
   (js "trim_prefix", js "Remove string prefix");
   (js "trim_suffix", js "Remove string suffix");
   (js "ensure_prefix", js "Ensure the string has a specified prefix");
   (js "ensure_suffix", js "Ensure the string has a specified suffix");
   (js "trim_space", js "Trim leading/trailing whitespace");
   (js "to_lower", js "Convert string to lowercase");
   (js "to_upper", js "Convert string to uppercase");
   (js "return_error", js "Return a custom error immediately");
   (js "prune_objects", js "Prune object items by conditions");
   (js "pass_headers", js "Pass specified request headers to upstream");
   (js "sync_fields", js "Auto-fill when one field exists and another is missing");
   (js "set_header", js "Set runtime request header: override entire value, or manipulate comma-separated tokens");
   (js "delete_header", js "Delete a runtime request header");
   (js "copy_header", js "Copy a request header");
   (js "move_header", js "Move a request header")].

Definition SYNC_TARGET_TYPE_OPTIONS : list (jstr * jstr) :=
  [(js "Request Body Field", js "json");
   (js "Request Header Field", js "header")].

(** [set.has(v)] of a set of strings. *)
Definition has (s : list jstr) (v : jstr) : bool := bool_decide (v ∈ s).
(** ** Templates *)

Definition lit (s : string) : json := JStr (js s).

Definition LEGACY_TEMPLATE : json :=
  JObj [(js "temperature", JNum nzero); (js "max_tokens", JNum (num_of_Z 1000))].

Definition OPERATION_TEMPLATE : json :=
  JObj [(js "operations", JArr [JObj
    [(js "description", lit "Set default temperature for openai/* models.");
     (js "path", lit "temperature");
     (js "mode", lit "set");
     (js "value", JNum (dec_to_num false 7 (-1)));
     (js "conditions", JArr [JObj [(js "path", lit "model"); (js "mode", lit "prefix"); (js "value", lit "openai/")]]);
     (js "logic", lit "AND")]])].

Definition HEADER_PASSTHROUGH_TEMPLATE : json :=
  JObj [(js "operations", JArr [JObj
    [(js "description", lit "Pass through X-Request-Id header to upstream.");
     (js "mode", lit "pass_headers");
     (js "value", JArr [lit "X-Request-Id"]);
     (js "keep_origin", JBool true)]])].

Definition GEMINI_IMAGE_4K_TEMPLATE : json :=
  JObj [(js "operations", JArr [JObj
    [(js "description", lit "Set imageSize to 4K when model contains gemini/image and ends with 4k.");
     (js "mode", lit "set");
     (js "path", lit "generationConfig.imageConfig.imageSize");
     (js "value", lit "4K");
     (js "conditions", JArr
       [JObj [(js "path", lit "original_model"); (js "mode", lit "contains"); (js "value", lit "gemini")];
        JObj [(js "path", lit "original_model"); (js "mode", lit "contains"); (js "value", lit "image")];
        JObj [(js "path", lit "original_model"); (js "mode", lit "suffix"); (js "value", lit "4k")]]);
     (js "logic", lit "AND")]])].

Definition CODEX_CLI_HEADER_PASSTHROUGH_HEADERS : list jstr :=
  [js "Originator"; js "Session_id"; js "User-Agent"; js "X-Codex-Beta-Features"; js "X-Codex-Turn-Metadata"].

Definition CLAUDE_CLI_HEADER_PASSTHROUGH_HEADERS : list jstr :=
  [js "X-Stainless-Arch"; js "X-Stainless-Lang"; js "X-Stainless-Os"; js "X-Stainless-Package-Version"; js "X-Stainless-Retry-Count"; js "X-Stainless-Runtime"; js "X-Stainless-Runtime-Version"; js "X-Stainless-Timeout"; js "User-Agent"; js "X-App"; js "Anthropic-Beta"; js "Anthropic-Dangerous-Direct-Browser-Access"; js "Anthropic-Version"].

Definition buildPassHeadersTemplate (headers : list jstr) : json :=
  JObj [(js "operations", JArr [JObj
    [(js "mode", lit "pass_headers"); (js "value", JArr (map JStr headers)); (js "keep_origin", JBool true)]])].

Definition CODEX_CLI_HEADER_PASSTHROUGH_TEMPLATE : json :=
  buildPassHeadersTemplate CODEX_CLI_HEADER_PASSTHROUGH_HEADERS.

Definition CLAUDE_CLI_HEADER_PASSTHROUGH_TEMPLATE : json :=
  buildPassHeadersTemplate CLAUDE_CLI_HEADER_PASSTHROUGH_HEADERS.

Definition AWS_BEDROCK_ANTHROPIC_COMPAT_TEMPLATE : json :=
  JObj [(js "operations", JArr
    [JObj
      [(js "description", lit "Normalize anthropic-beta header tokens for Bedrock compatibility.");
       (js "mode", lit "set_header");
       (js "path", lit "anthropic-beta");
       (js "value", JObj
          [(js "advanced-tool-use-2025-11-20", JStr (js "tool-search-tool-2025-10-19"));
           (js "bash_20241022", JNull);
           (js "bash_20250124", JNull);
           (js "code-execution-2025-08-25", JNull);
           (js "compact-2026-01-12", JStr (js "compact-2026-01-12"));
           (js "computer-use-2025-01-24", JStr (js "computer-use-2025-01-24"));
           (js "computer-use-2025-11-24", JStr (js "computer-use-2025-11-24"));
           (js "context-1m-2025-08-07", JStr (js "context-1m-2025-08-07"));
           (js "context-management-2025-06-27", JStr (js "context-management-2025-06-27"));
           (js "effort-2025-11-24", JNull);
           (js "fast-mode-2026-02-01", JNull);
           (js "files-api-2025-04-14", JNull);
           (js "fine-grained-tool-streaming-2025-05-14", JNull);
           (js "interleaved-thinking-2025-05-14", JStr (js "interleaved-thinking-2025-05-14"));
           (js "mcp-client-2025-11-20", JNull);
           (js "mcp-client-2025-04-04", JNull);
           (js "mcp-servers-2025-12-04", JNull);
           (js "output-128k-2025-02-19", JNull);
           (js "structured-output-2024-03-01", JNull);
           (js "prompt-caching-scope-2026-01-05", JNull);
           (js "skills-2025-10-02", JNull);
           (js "structured-outputs-2025-11-13", JNull);
           (js "text_editor_20241022", JNull);
           (js "text_editor_20250124", JNull);
           (js "token-efficient-tools-2025-02-19", JNull);
           (js "tool-search-tool-2025-10-19", JStr (js "tool-search-tool-2025-10-19"));
           (js "web-fetch-2025-09-10", JNull);
           (js "web-search-2025-03-05", JNull);
           (js "oauth-2025-04-20", JNull)])];
     JObj
      [(js "description", lit "Remove all tools[*].custom.input_examples before upstream relay.");
       (js "mode", lit "delete");
       (js "path", lit "tools.*.custom.input_examples")]])].

Inductive template_kind := KOperations | KLegacy.

Record TemplatePresetConfig := preset {
  p_label : jstr;
  p_kind : template_kind;
  p_payload : json;
}.

Definition TEMPLATE_PRESET_CONFIG : list (jstr * TemplatePresetConfig) :=
  [(js "operations_default", preset (js "New Format Template") KOperations OPERATION_TEMPLATE);
   (js "legacy_default", preset (js "Legacy Format Template") KLegacy LEGACY_TEMPLATE);
   (js "pass_headers_auth", preset (js "Header Passthrough (X-Request-Id)") KOperations HEADER_PASSTHROUGH_TEMPLATE);
   (js "gemini_image_4k", preset (js "Gemini Image 4K") KOperations GEMINI_IMAGE_4K_TEMPLATE);
   (js "claude_cli_headers_passthrough", preset (js "Claude CLI Header Passthrough") KOperations CLAUDE_CLI_HEADER_PASSTHROUGH_TEMPLATE);
   (js "codex_cli_headers_passthrough", preset (js "Codex CLI Header Passthrough") KOperations CODEX_CLI_HEADER_PASSTHROUGH_TEMPLATE);
   (js "aws_bedrock_anthropic_beta_override", preset (js "AWS Bedrock Claude Compat") KOperations AWS_BEDROCK_ANTHROPIC_COMPAT_TEMPLATE)].

(** ** Helpers *)

Section helpers.
(** The value of [Date.now()] when the identifier numbered by the counter is drawn. *)
Context (now : N → N).

Definition local_id (seed : N) : jstr := js "po_" ++ dec (now seed) ++ js "_" ++ dec seed.

Definition nextLocalId : idm jstr := λ seed, (Ok (local_id seed), (seed + 1)%N).

(** [None] is undefined. *)
Definition toValueText (value : option json) : jstr :=
  match value with
  | None => []
  | Some (JStr s) => s
  | Some v => stringify v
  end.

Definition parseLooseValue (valueText : jstr) : json :=
  let raw := trim valueText in
  if str_eqb raw [] then JStr []
  else match json_parse raw with Some v => v | None => JStr raw end.

Definition verifyJSON (text : jstr) : bool :=
  match json_parse text with Some _ => true | None => false end.

(** [typeof v.k === 'string' ? v.k : '']. *)
Definition text_prop (k : jstr) (v : json) : jstr :=
  match prop k v with Some (JStr s) => s | _ => [] end.

(** [v.k === true]. *)
Definition is_true (k : jstr) (v : json) : bool :=
  match prop k v with Some (JBool b) => b | _ => false end.

(** [set.has(v.mode) ? v.mode : d]. *)
Definition mode_prop (s : list jstr) (d : jstr) (v : json) : jstr :=
  match prop (js "mode") v with
  | Some (JStr m) => if has s m then m else d
  | _ => d
  end.

Definition normalizeCondition (condition : json) : idm ParamOverrideCondition :=
  id ← nextLocalId;
  match condition with
  | JNull => lift (Err TypeError)
  | _ => mret {|
      c_id := id;
      c_path := text_prop (js "path") condition;
      c_mode := mode_prop CONDITION_MODE_VALUES (js "full") condition;
      c_value_text := toValueText (prop (js "value") condition);
      c_invert := is_true (js "invert") condition;
      c_pass_missing_key := is_true (js "pass_missing_key") condition |}
  end.

Definition createDefaultCondition : idm ParamOverrideCondition := normalizeCondition (JObj []).

(** [toUpperCase] compared with a word of the letters A, D, N, O and R: no other
    character has one of them as its upper case. *)
Definition ascii_upper (c : N) : N := if ((97 <=? c) && (c <=? 122))%N then (c - 32)%N else c.

Definition upper_is (w s : jstr) : bool := str_eqb (map ascii_upper s) w.

(** [String(v || d)]. *)
Definition string_or (v : option json) (d : jstr) : exn jstr :=
  match v with
  | Some v => if json_truthy v then js_string v else Ret d
  | None => Ret d
  end.

Definition normalizeOperation (operation : json) : idm ParamOverrideOperation :=
  id ← nextLocalId;
  match operation with
  | JNull => lift (Err TypeError)
  | _ =>
    logic ← lift (of_exn (string_or (prop (js "logic") operation) (js "OR")));
    conditions ←
      match prop (js "conditions") operation with
      | Some (JArr l) => mapM normalizeCondition l
      | _ => mret []
      end;
    mret {|
      o_id := id;
      o_description := text_prop (js "description") operation;
      o_path := text_prop (js "path") operation;
      o_mode := mode_prop OPERATION_MODE_VALUES (js "set") operation;
      o_value_text := toValueText (prop (js "value") operation);
      o_keep_origin := is_true (js "keep_origin") operation;
      o_from := text_prop (js "from") operation;
      o_to := text_prop (js "to") operation;
      o_logic := if upper_is (js "AND") logic then js "AND" else js "OR";
      o_conditions := conditions |}
  end.

Definition createDefaultOperation : idm ParamOverrideOperation :=
  normalizeOperation (JObj [(js "mode", lit "set")]).

(** [findIndex]: [None] is -1. *)
Fixpoint find_index {A} (p : A → bool) (l : list A) : option nat :=
  match l with
  | [] => None
  | x :: l => if p x then Some 0 else S <$> find_index p l
  end.

Definition has_id (id : jstr) (o : ParamOverrideOperation) : bool := str_eqb (o_id o) id.

Inductive drop_position := Before | After.

Definition reorderOperations (ops : list ParamOverrideOperation) (sourceId targetId : jstr)
    (position : drop_position) : list ParamOverrideOperation :=
  if negb (nonempty sourceId) || negb (nonempty targetId) || str_eqb sourceId targetId then ops
  else
    match find_index (has_id sourceId) ops with
    | None => ops
    | Some srcIdx =>
      let next := take srcIdx ops ++ drop (S srcIdx) ops in
      match find_index (has_id targetId) next with
      | None => ops
      | Some i =>
        let insertIdx := match position with After => S i | Before => i end in
        take insertIdx next ++ take 1 (drop srcIdx ops) ++ drop insertIdx next
      end
    end.

Definition condition_blank (c : ParamOverrideCondition) : bool :=
  negb (nonempty (trim (c_path c)) || nonempty (trim (c_value_text c))
        || negb (str_eqb (c_mode c) (js "full")) || c_invert c || c_pass_missing_key c).

Definition isOperationBlank (operation : ParamOverrideOperation) : bool :=
  let hasCondition := existsb (λ c, negb (condition_blank c)) (o_conditions operation) in
  str_eqb (o_mode operation) (js "set") && negb (nonempty (trim (o_path operation)))
  && negb (nonempty (trim (o_from operation))) && negb (nonempty (trim (o_to operation)))
  && str_eqb (trim (o_value_text operation)) [] && negb (o_keep_origin operation) && negb hasCondition.

Definition getOperationSummary (operation : ParamOverrideOperation) (index : N) : jstr :=
  let mode := str_or (o_mode operation) (js "set") in
  let modeLabel := str_or (default [] (obj_get mode OPERATION_MODE_LABEL_MAP)) mode in
  let from := trim (o_from operation) in
  let to := trim (o_to operation) in
  let path := trim (o_path operation) in
  dec (index + 1) ++ js ". " ++ modeLabel ++ js " · " ++
  if str_eqb mode (js "sync_fields") then str_or from (str_or to (js "-"))
  else str_or path (str_or from (str_or to (js "-"))).

Definition getModeTagTailwind (mode : jstr) : jstr :=
  if includes (js "header") mode then
    js "bg-cyan-500/15 text-cyan-700 dark:text-cyan-300 border-cyan-500/20"
  else if includes (js "replace") mode || includes (js "trim") mode then
    js "bg-violet-500/15 text-violet-700 dark:text-violet-300 border-violet-500/20"
  else if includes (js "copy") mode || includes (js "move") mode then
    js "bg-blue-500/15 text-blue-700 dark:text-blue-300 border-blue-500/20"
  else if includes (js "error") mode || includes (js "prune") mode then
    js "bg-red-500/15 text-red-700 dark:text-red-300 border-red-500/20"
  else if includes (js "sync") mode then
    js "bg-green-500/15 text-green-700 dark:text-green-300 border-green-500/20"
  else js "bg-muted text-muted-foreground".

Definition one_of_modes (l : list jstr) (mode : jstr) : bool := existsb (str_eqb mode) l.

Definition getModePathLabel (mode : jstr) : jstr :=
  if one_of_modes [js "set_header"; js "delete_header"] mode then js "Header Name"
  else if str_eqb mode (js "prune_objects") then js "Target Path (optional)"
  else js "Target Field Path".

Definition getModePathPlaceholder (mode : jstr) : jstr :=
  if str_eqb mode (js "set_header") then js "Authorization"
  else if str_eqb mode (js "delete_header") then js "X-Debug-Mode"
  else if str_eqb mode (js "prune_objects") then js "messages"
  else js "temperature".

Definition getModeFromLabel (mode : jstr) : jstr :=
  if str_eqb mode (js "replace") then js "Match Text"
  else if str_eqb mode (js "regex_replace") then js "Regex Pattern"
  else if one_of_modes [js "copy_header"; js "move_header"] mode then js "Source Header"
  else js "Source Field".

Definition getModeFromPlaceholder (mode : jstr) : jstr :=
  if str_eqb mode (js "replace") then js "openai/"
  else if str_eqb mode (js "regex_replace") then js "^gpt-"
  else if one_of_modes [js "copy_header"; js "move_header"] mode then js "Authorization"
  else js "model".

Definition getModeToLabel (mode : jstr) : jstr :=
  if one_of_modes [js "replace"; js "regex_replace"] mode then js "Replace With"
  else if one_of_modes [js "copy_header"; js "move_header"] mode then js "Target Header"
  else js "Target Field".

Definition getModeToPlaceholder (mode : jstr) : jstr :=
  if str_eqb mode (js "replace") then js "(leave empty to delete)"
  else if str_eqb mode (js "regex_replace") then js "openai/gpt-"
  else if one_of_modes [js "copy_header"; js "move_header"] mode then js "X-Upstream-Auth"
  else js "original_model".

Definition affix_modes : list jstr :=
  [js "trim_prefix"; js "trim_suffix"; js "ensure_prefix"; js "ensure_suffix"].

Definition getModeValueLabel (mode : jstr) : jstr :=
  if str_eqb mode (js "set_header") then js "Header Value (supports string or JSON mapping)"
  else if str_eqb mode (js "pass_headers") then js "Pass-through Headers (comma-separated or JSON array)"
  else if one_of_modes affix_modes mode then js "Prefix/Suffix Text"
  else if str_eqb mode (js "prune_objects") then js "Prune Rule (string or JSON object)"
  else js "Value (supports JSON or plain text)".

Definition getModeValuePlaceholder (mode : jstr) : jstr :=
  if str_eqb mode (js "set_header") then js "Bearer sk-xxx"
  else if str_eqb mode (js "pass_headers") then js "Authorization, X-Request-Id"
  else if one_of_modes affix_modes mode then js "openai/"
  else if str_eqb mode (js "prune_objects") then jq "{'type':'redacted_thinking'}"
  else js "0.7".

(** ** [sync_fields] targets *)

Record sync_target := { s_type : jstr; s_key : jstr }.

Definition parseSyncTargetSpec `{LowerCase} (spec : jstr) : sync_target :=
  let raw := trim spec in
  if negb (nonempty raw) then {| s_type := js "json"; s_key := [] |}
  else
    match index_of (js ":") raw with
    | None => {| s_type := js "json"; s_key := raw |}
    | Some idx =>
      let prefix := toLowerCase (trim (take idx raw)) in
      let key := trim (drop (idx + 1) raw) in
      if str_eqb prefix (js "header") then {| s_type := js "header"; s_key := key |}
      else {| s_type := js "json"; s_key := key |}
    end.

Definition buildSyncTargetSpec (type key : jstr) : jstr :=
  let normalizedType := if str_eqb type (js "header") then js "header" else js "json" in
  let normalizedKey := trim key in
  if negb (nonempty normalizedKey) then [] else normalizedType ++ js ":" ++ normalizedKey.

(** ** [pass_headers] values *)

(** [String(i ?? '').trim()]. *)
Definition trimmed_text (i : json) : exn jstr :=
  s ← match i with JNull => Ret [] | _ => js_string i end; Ret (trim s).

Definition parsePassHeaderNames (rawValue : json) : exn (list jstr) :=
  match rawValue with
  | JArr l => names ← mapM trimmed_text l; Ret (List.filter nonempty names)
  | JObj o =>
    match obj_get (js "headers") o with
    | Some (JArr l) => names ← mapM trimmed_text l; Ret (List.filter nonempty names)
    | _ =>
      match obj_get (js "header") o with
      | Some v => single ← trimmed_text v; Ret (if nonempty single then [single] else [])
      | None => Ret []
      end
    end
  | JStr s => Ret (List.filter nonempty (map trim (split_char 44 s)))
  | _ => Ret []
  end.

(** ** Payloads and validation *)

(** [if (b) o[k] = v]. *)
Definition set_if (b : bool) (k : jstr) (v : json) (o : list (jstr * json)) : list (jstr * json) :=
  if b then obj_set o k v else o.

(** [None] is null. *)
Definition buildConditionPayload (condition : ParamOverrideCondition) : option json :=
  let path := trim (c_path condition) in
  if negb (nonempty path) then None
  else
    let payload := [(js "path", JStr path); (js "mode", JStr (str_or (c_mode condition) (js "full")));
                    (js "value", parseLooseValue (c_value_text condition))] in
    let payload := set_if (c_invert condition) (js "invert") (JBool true) payload in
    let payload := set_if (c_pass_missing_key condition) (js "pass_missing_key") (JBool true) payload in
    Some (JObj payload).

(** The body of the loop of [validateOperations]: the key of the message it
    returns, if any. *)
Definition operation_error (op : ParamOverrideOperation) : res (option jstr) :=
  let mode := str_or (o_mode op) (js "set") in
  let meta := meta_of mode in
  let pathValue := trim (o_path op) in
  let fromValue := trim (o_from op) in
  let toValue := trim (o_to op) in
  let raw := trim (o_value_text op) in
  let aliased := m_pathAlias meta && nonempty pathValue in
  if m_path meta && negb (nonempty pathValue) then Ok (Some (js "Rule {{line}} is missing target path"))
  else if has FROM_REQUIRED_MODES mode && negb (nonempty fromValue) && negb aliased then
    Ok (Some (js "Rule {{line}} is missing source field"))
  else if has TO_REQUIRED_MODES mode && negb (nonempty toValue) && negb aliased then
    Ok (Some (js "Rule {{line}} is missing target field"))
  else if has VALUE_REQUIRED_MODES mode && str_eqb raw [] then
    Ok (Some (js "Rule {{line}} is missing value"))
  else if str_eqb mode (js "return_error") then
    if negb (nonempty raw) then Ok (Some (js "Rule {{line}} is missing value"))
    else
      match json_parse raw with
      | Some (JObj o) =>
        match string_or (obj_get (js "message") o) [] with
        | Ret message =>
          if nonempty (trim message) then Ok None
          else Ok (Some (js "Rule {{line}} return_error requires a message field"))
        | Throw => Ok None
        end
      | _ => Ok None
      end
  else if str_eqb mode (js "prune_objects") then
    if negb (nonempty raw) then Ok (Some (js "Rule {{line}} prune_objects is missing conditions"))
    else Ok None
  else if str_eqb mode (js "pass_headers") then
    if negb (nonempty raw) then Ok (Some (js "Rule {{line}} pass_headers is missing header names"))
    else
      headers ← of_exn (parsePassHeaderNames (parseLooseValue raw));
      match headers with
      | [] => Ok (Some (js "Rule {{line}} pass_headers format is invalid"))
      | _ => Ok None
      end
  else Ok None.

(** The translation function: a key and the line number of [{{line}}]. *)
Context (t : jstr → option N → jstr).

Fixpoint validate_from (line : N) (operations : list ParamOverrideOperation) : res jstr :=
  match operations with
  | [] => Ok []
  | op :: operations =>
    e ← operation_error op;
    match e with
    | Some key => Ok (t key (Some line))
    | None => validate_from (line + 1) operations
    end
  end.

Definition validateOperations (operations : list ParamOverrideOperation) : res jstr :=
  validate_from 1 operations.

(** [!payload.k]. *)
Definition lacks (k : jstr) (o : list (jstr * json)) : bool :=
  match obj_get k o with Some v => negb (json_truthy v) | None => true end.

Definition operation_payload (operation : ParamOverrideOperation) : json :=
  let mode := str_or (o_mode operation) (js "set") in
  let meta := meta_of mode in
  let descriptionValue := trim (o_description operation) in
  let pathValue := trim (o_path operation) in
  let fromValue := trim (o_from operation) in
  let toValue := trim (o_to operation) in
  let payload := [(js "mode", JStr mode)] in
  let payload := set_if (nonempty descriptionValue) (js "description") (JStr descriptionValue) payload in
  let payload := set_if (m_path meta) (js "path") (JStr pathValue) payload in
  let payload := set_if (m_pathOptional meta && nonempty pathValue) (js "path") (JStr pathValue) payload in
  let payload := set_if (m_value meta) (js "value") (parseLooseValue (o_value_text operation)) payload in
  let payload := set_if (m_keepOrigin meta && o_keep_origin operation) (js "keep_origin") (JBool true) payload in
  let payload := set_if (m_from meta) (js "from") (JStr fromValue) payload in
  let payload := set_if (negb (m_to meta) && nonempty toValue) (js "to") (JStr toValue) payload in
  let payload := set_if (m_to meta) (js "to") (JStr toValue) payload in
  let payload :=
    if m_pathAlias meta then
      let payload := set_if (lacks (js "from") payload && nonempty pathValue) (js "from") (JStr pathValue) payload in
      set_if (lacks (js "to") payload && nonempty pathValue) (js "to") (JStr pathValue) payload
    else payload in
  let conditions := omap buildConditionPayload (o_conditions operation) in
  match conditions with
  | [] => JObj payload
  | _ =>
    let payload := obj_set payload (js "conditions") (JArr conditions) in
    JObj (obj_set payload (js "logic")
            (JStr (if str_eqb (o_logic operation) (js "AND") then js "AND" else js "OR")))
  end.

Definition buildOperationsJson (sourceOperations : list ParamOverrideOperation) (validate : bool) : res jstr :=
  let filteredOps := List.filter (λ o, negb (isOperationBlank o)) sourceOperations in
  match filteredOps with
  | [] => Ok []
  | _ =>
    message ← (if validate then validateOperations filteredOps else Ok []);
    if nonempty message then Err (Error message)
    else Ok (stringify_pretty (JObj [(js "operations", JArr (map operation_payload filteredOps))]))
  end.

(** ** Opening the editor *)

Inductive edit_mode := VisualEdit | JsonEdit.
Inductive visual_mode := OperationsMode | LegacyMode.

Record EditorState := {
  e_editMode : edit_mode;
  e_visualMode : visual_mode;
  e_legacyValue : jstr;
  e_operations : list ParamOverrideOperation;
  e_jsonText : jstr;
  e_jsonError : jstr;
}.

(** [l.length > 0 ? l.map(normalizeOperation) : [createDefaultOperation()]]. *)
Definition operations_or_default (l : list json) : idm (list ParamOverrideOperation) :=
  match l with
  | [] => o ← createDefaultOperation; mret [o]
  | _ => mapM normalizeOperation l
  end.

Definition parseInitialState (rawValue : jstr) : idm EditorState :=
  let text := rawValue in
  let trimmed := trim text in
  if negb (nonempty trimmed) then
    o ← createDefaultOperation;
    mret {| e_editMode := VisualEdit; e_visualMode := OperationsMode; e_legacyValue := [];
            e_operations := [o]; e_jsonText := []; e_jsonError := [] |}
  else
    match json_parse trimmed with
    | None =>
      o ← createDefaultOperation;
      mret {| e_editMode := JsonEdit; e_visualMode := OperationsMode; e_legacyValue := [];
              e_operations := [o]; e_jsonText := text; e_jsonError := js "Invalid JSON format" |}
    | Some parsed =>
      let pretty := stringify_pretty parsed in
      match parsed with
      | JObj obj =>
        match obj_get (js "operations") obj with
        | Some (JArr l) =>
          ops ← operations_or_default l;
          mret {| e_editMode := VisualEdit; e_visualMode := OperationsMode; e_legacyValue := [];
                  e_operations := ops; e_jsonText := pretty; e_jsonError := [] |}
        | _ =>
          o ← createDefaultOperation;
          mret {| e_editMode := VisualEdit; e_visualMode := LegacyMode; e_legacyValue := pretty;
                  e_operations := [o]; e_jsonText := pretty; e_jsonError := [] |}
        end
      | _ =>
        o ← createDefaultOperation;
        mret {| e_editMode := JsonEdit; e_visualMode := OperationsMode; e_legacyValue := [];
                e_operations := [o]; e_jsonText := pretty; e_jsonError := [] |}
      end
    end.
End helpers.
