(* ===== verification/ParamRoundtrip.v ===== *)
(** * The parameter override editor: what is saved is what is opened

    Value texts, condition and operation payloads, validation and the whole
    document of [param-override-editor-dialog.tsx]: opening the text that the
    editor saved and saving it again gives the same text. *)

From S2P Require Import Prelude JsString JsNumber Json JsonPretty ParamOverride.
From stdpp Require Import list.
From Stdlib Require Import NArith.

(** ** Property lists *)
Lemma obj_get_set_if b k v o k' :
  obj_get k' (set_if b k v o) = if b && str_eqb k k' then Some v else obj_get k' o.
Proof. unfold set_if. destruct b; [apply obj_get_set|done]. Qed.

(** The property lists whose text reads back. *)
Definition props_ok (o : list (jstr * json)) : Prop :=
  Forall (λ kv, Forall code_unit kv.1 ∧ json_ok kv.2) o ∧ ordered o.

Lemma props_ok_obj o : props_ok o → json_ok (JObj o).
Proof.
  intros [Ho Hs]. constructor; [| |by apply mk_obj_ordered]; (eapply Forall_impl; [exact Ho|]); naive_solver.
Qed.

Lemma props_ok_set o k v : props_ok o → Forall code_unit k → json_ok v → props_ok (obj_set o k v).
Proof. intros [Ho Hs] ??. split; [by apply obj_set_Forall|by apply obj_set_ordered]. Qed.

Lemma props_ok_set_if b o k v :
  props_ok o → Forall code_unit k → json_ok v → props_ok (set_if b k v o).
Proof. destruct b; [apply props_ok_set|done]. Qed.

Lemma props_ok_fold l : Forall (λ kv, Forall code_unit kv.1 ∧ json_ok kv.2) l → plain_keys (map fst l) → props_ok l.
Proof.
  intros H Hk. split; [done|]. rewrite <- (mk_obj_plain l) by done. apply mk_obj_is_ordered.
Qed.

Lemma prop_ok_cons k v l :
  Forall code_unit k → json_ok v → Forall (λ kv, Forall code_unit kv.1 ∧ json_ok kv.2) l →
  Forall (λ kv, Forall code_unit kv.1 ∧ json_ok kv.2) ((k, v) :: l).
Proof. by constructor. Qed.

Lemma plain_keys_b ks :
  bool_decide (NoDup ks) && forallb (λ k, bool_decide (array_index k = None)) ks = true → plain_keys ks.
Proof.
  intros H. boolify. split; [done|]. rewrite forallb_Forall in *. eapply Forall_impl; [done|].
  cbn beta. intros k Hk. by apply bool_decide_eq_true in Hk.
Qed.

Lemma ascii_units s : forallb (λ c, c <? 65536)%N (js s) = true → Forall code_unit (js s).
Proof. apply code_units_b. Qed.

(** ** Value texts *)

(** The value texts that are not reinterpreted when the saved value is shown
    again: plain text, or the text of a value other than a string, or the quoted
    form of a string that is itself plain text. *)
Definition stable_text (s : jstr) : Prop :=
  match json_parse (trim s) with
  | None => Forall code_unit s
  | Some (JStr u) => Forall code_unit u ∧ u ≠ [] ∧ trim u = u ∧ json_parse u = None
  | Some v => json_ok v
  end.

Lemma stable_plain s : json_parse (trim s) = None → Forall code_unit s → stable_text s.
Proof. unfold stable_text. by intros ->. Qed.

Lemma trim_units s : Forall code_unit s → Forall code_unit (trim s).
Proof. rewrite !Forall_forall. intros H c Hc%trim_incl. auto. Qed.

Lemma parse_empty : json_parse [] = None.
Proof. done. Qed.

Lemma loose_plain s : json_parse (trim s) = None → parseLooseValue s = JStr (trim s).
Proof. intros H. unfold parseLooseValue, str_eqb. rewrite H. case_bool_decide as E; [by rewrite E|done]. Qed.

Lemma loose_json s v : json_parse (trim s) = Some v → parseLooseValue s = v.
Proof.
  intros H. unfold parseLooseValue, str_eqb. rewrite H. case_bool_decide as E; [|done].
  by rewrite E, parse_empty in H.
Qed.

Lemma loose_ok s : stable_text s → json_ok (parseLooseValue s).
Proof.
  unfold stable_text. destruct (json_parse (trim s)) as [v|] eqn:E; intros H.
  - rewrite (loose_json _ _ E). destruct v; try done. constructor. naive_solver.
  - rewrite loose_plain by done. constructor. by apply trim_units.
Qed.

(** A value text of any other value is read back as the value. *)
Lemma loose_stringify v : json_ok v → (∀ s, v ≠ JStr s) → parseLooseValue (stringify v) = v.
Proof.
  intros H Hs. apply loose_json. rewrite stringify_trim by done. by apply json_parse_stringify.
Qed.

Lemma value_text_other v : (∀ s, v ≠ JStr s) → toValueText (Some v) = stringify v.
Proof. destruct v as [| | |s| |]; try done. intros H. by destruct (H s eq_refl). Qed.

Lemma stable_shown s : stable_text s → parseLooseValue (toValueText (Some (parseLooseValue s))) = parseLooseValue s.
Proof.
  unfold stable_text. destruct (json_parse (trim s)) as [v|] eqn:E; intros H.
  - rewrite (loose_json _ _ E). destruct v as [| | |u| |]; try (by rewrite value_text_other by done; apply loose_stringify).
    cbn [toValueText]. destruct H as (_ & _ & Hu & Hn). rewrite <- Hu at 2. apply loose_plain. by rewrite Hu.
  - rewrite (loose_plain s) by done. cbn [toValueText]. rewrite loose_plain; [by rewrite trim_idemp|by rewrite trim_idemp].
Qed.

(** A stable text that is not blank is shown as a text that is not blank. *)
Lemma stable_nonblank s :
  stable_text s → trim s ≠ [] → trim (toValueText (Some (parseLooseValue s))) ≠ [].
Proof.
  unfold stable_text. destruct (json_parse (trim s)) as [v|] eqn:E; intros H Hs.
  - rewrite (loose_json _ _ E). destruct v as [| | |u| |].
    4: { cbn [toValueText]. destruct H as (_ & ? & -> & _). done. }
    all: rewrite value_text_other, stringify_trim by done; apply stringify_length in H; destruct (stringify _); [cbn in H; lia|done].
  - rewrite (loose_plain s) by done. cbn [toValueText]. by rewrite trim_idemp.
Qed.

(** ** Reading a property of a built payload *)

(** Decides the comparisons of property names. *)
Ltac names :=
  repeat match goal with
  | |- context [str_eqb (js ?a) (js ?b)] =>
    let r := eval vm_compute in (str_eqb (js a) (js b)) in
    change (str_eqb (js a) (js b)) with r
  end.

Ltac get_prop :=
  cbn [prop]; rewrite ?obj_get_set_if; cbn [obj_get]; names;
  rewrite ?andb_true_r, ?andb_false_r.

Ltac units := apply ascii_units; vm_compute; reflexivity.

Section reopen.
Context (now : N → N).

Lemma mode_nonempty s m d : forallb nonempty s = true → has s m = true → str_or m d = m.
Proof.
  unfold has. intros Hs Hm. apply bool_decide_eq_true in Hm. rewrite forallb_Forall, Forall_forall in Hs.
  unfold str_or. by rewrite (Hs _ Hm).
Qed.

Lemma condition_mode_str m d : has CONDITION_MODE_VALUES m = true → str_or m d = m.
Proof. by apply mode_nonempty. Qed.

Lemma operation_mode_str m d : has OPERATION_MODE_VALUES m = true → str_or m d = m.
Proof. by apply mode_nonempty. Qed.

(** Units below 2^16: the texts of a browser. *)
Lemma mode_units s m :
  forallb (forallb (λ c, c <? 65536)%N) s = true → has s m = true → Forall code_unit m.
Proof.
  unfold has. intros Hs Hm. apply bool_decide_eq_true in Hm. rewrite forallb_Forall, Forall_forall in Hs.
  apply code_units_b, (Hs _ Hm).
Qed.

(** *** Conditions *)

Definition stable_condition (c : ParamOverrideCondition) : Prop :=
  has CONDITION_MODE_VALUES (c_mode c) = true ∧ Forall code_unit (c_path c) ∧ stable_text (c_value_text c).

Lemma condition_payload_ok c v : stable_condition c → buildConditionPayload c = Some v → json_ok v.
Proof.
  intros (Hm & Hp & Hv). unfold buildConditionPayload. destruct (nonempty _); [|done]. intros [= <-].
  apply props_ok_obj. repeat apply props_ok_set_if; [|units|constructor|units|constructor].
  rewrite condition_mode_str by done. apply props_ok_fold.
  - apply prop_ok_cons; [units|by apply ok_str, trim_units|].
    apply prop_ok_cons; [units|by apply ok_str, (mode_units CONDITION_MODE_VALUES)|].
    apply prop_ok_cons; [units|by apply loose_ok|constructor].
  - apply plain_keys_b. vm_compute. reflexivity.
Qed.

Lemma condition_reopened c v seed :
  stable_condition c → buildConditionPayload c = Some v →
  ∃ c', normalizeCondition now v seed = (Ok c', (seed + 1)%N) ∧ buildConditionPayload c' = Some v.
Proof.
  intros (Hm & Hp & Hv). unfold buildConditionPayload at 1. destruct (nonempty (trim (c_path c))) eqn:Hn; [|done].
  cbn [negb]. intros [= <-]. eexists. split; [reflexivity|].
  unfold buildConditionPayload, text_prop, mode_prop, is_true. cbn [c_path c_mode c_value_text c_invert c_pass_missing_key].
  get_prop. rewrite !(condition_mode_str (c_mode c)) by done. rewrite Hm, trim_idemp, Hn, !(condition_mode_str (c_mode c)) by done.
  rewrite stable_shown by done. cbn [negb]. by destruct (c_invert c), (c_pass_missing_key c).
Qed.

Lemma conditions_reopened cs seed :
  Forall stable_condition cs →
  ∃ cs' seed', mapM (normalizeCondition now) (omap buildConditionPayload cs) seed = (Ok cs', seed') ∧
    omap buildConditionPayload cs' = omap buildConditionPayload cs.
Proof.
  intros H. revert seed. induction H as [|c cs Hc Hcs IH]; intros seed; [by exists [], seed|].
  rewrite omap_cons. destruct (buildConditionPayload c) as [v|] eqn:E; [|apply IH].
  destruct (condition_reopened c v seed Hc E) as (c' & E1 & E2).
  destruct (IH (seed + 1)%N) as (cs' & seed' & E3 & E4).
  exists (c' :: cs'), seed'. rewrite omap_cons, E2, E4. split; [|done]. by eapply idm_mapM_cons.
Qed.
(** *** Operations *)

(** The payload before the header aliases and the conditions. *)
Definition core_payload (mt : mode_meta) (op : ParamOverrideOperation) : list (jstr * json) :=
  set_if (m_to mt) (js "to") (JStr (trim (o_to op)))
  (set_if (negb (m_to mt) && nonempty (trim (o_to op))) (js "to") (JStr (trim (o_to op)))
  (set_if (m_from mt) (js "from") (JStr (trim (o_from op)))
  (set_if (m_keepOrigin mt && o_keep_origin op) (js "keep_origin") (JBool true)
  (set_if (m_value mt) (js "value") (parseLooseValue (o_value_text op))
  (set_if (m_pathOptional mt && nonempty (trim (o_path op))) (js "path") (JStr (trim (o_path op)))
  (set_if (m_path mt) (js "path") (JStr (trim (o_path op)))
  (set_if (nonempty (trim (o_description op))) (js "description") (JStr (trim (o_description op)))
  [(js "mode", JStr (o_mode op))]))))))).

Definition alias_payload (p : jstr) (o : list (jstr * json)) : list (jstr * json) :=
  let o := set_if (lacks (js "from") o && nonempty p) (js "from") (JStr p) o in
  set_if (lacks (js "to") o && nonempty p) (js "to") (JStr p) o.

Definition base_payload (op : ParamOverrideOperation) : list (jstr * json) :=
  let mt := meta_of (o_mode op) in
  if m_pathAlias mt then alias_payload (trim (o_path op)) (core_payload mt op) else core_payload mt op.

Definition and_or (logic : jstr) : jstr := if str_eqb logic (js "AND") then js "AND" else js "OR".

Lemma operation_payload_eq op :
  has OPERATION_MODE_VALUES (o_mode op) = true →
  operation_payload op =
  match omap buildConditionPayload (o_conditions op) with
  | [] => JObj (base_payload op)
  | cs => JObj (obj_set (obj_set (base_payload op) (js "conditions") (JArr cs)) (js "logic") (JStr (and_or (o_logic op))))
  end.
Proof.
  intros H. unfold operation_payload. rewrite operation_mode_str by done.
  unfold base_payload, alias_payload, core_payload, and_or. cbv zeta.
  destruct (omap _ _); destruct (m_pathAlias _); reflexivity.
Qed.

(** What the table of modes says about the modes that take a path as an alias. *)
Lemma alias_meta m :
  has OPERATION_MODE_VALUES m = true → m_pathAlias (meta_of m) = true →
  meta_of m = meta false false false true true true true.
Proof.
  unfold has. intros Hm%bool_decide_eq_true Ha.
  set (p := λ m, let mt := meta_of m in
    implb (m_pathAlias mt) (negb (m_path mt) && negb (m_pathOptional mt) && negb (m_value mt)
                            && m_from mt && m_to mt && m_keepOrigin mt)).
  assert (forallb p OPERATION_MODE_VALUES = true) as Hp by (vm_compute; reflexivity).
  rewrite forallb_Forall, Forall_forall in Hp. specialize (Hp _ Hm). unfold p in Hp. cbv zeta in Hp.
  destruct (meta_of m) as [[] [] [] [] [] [] []]; done.
Qed.

Definition stable_operation (op : ParamOverrideOperation) : Prop :=
  has OPERATION_MODE_VALUES (o_mode op) = true ∧
  Forall code_unit (o_description op) ∧ Forall code_unit (o_path op) ∧
  Forall code_unit (o_from op) ∧ Forall code_unit (o_to op) ∧
  stable_text (o_value_text op) ∧ Forall stable_condition (o_conditions op).

Lemma core_payload_ok mt op : stable_operation op → props_ok (core_payload mt op).
Proof.
  intros (Hm & Hd & Hp & Hf & Ht & Hv & _). unfold core_payload.
  repeat (apply props_ok_set_if; [|units|first [by constructor | by apply ok_str, trim_units | by apply loose_ok]]).
  apply props_ok_fold.
  - apply prop_ok_cons; [units|by apply ok_str, (mode_units OPERATION_MODE_VALUES)|constructor].
  - apply plain_keys_b. vm_compute. reflexivity.
Qed.

Lemma base_payload_ok op : stable_operation op → props_ok (base_payload op).
Proof.
  intros H. pose proof (core_payload_ok (meta_of (o_mode op)) op H). unfold base_payload, alias_payload.
  destruct H as (_ & _ & Hp & _). destruct (m_pathAlias _); [|done].
  repeat (apply props_ok_set_if; [|units|by apply ok_str, trim_units]). done.
Qed.

Lemma operation_payload_ok op : stable_operation op → json_ok (operation_payload op).
Proof.
  intros H. rewrite operation_payload_eq by apply H. pose proof (base_payload_ok op H).
  destruct (omap _ _) as [|v cs] eqn:E; apply props_ok_obj; [done|].
  apply props_ok_set; [apply props_ok_set; [done|units|]|units|].
  - constructor. rewrite <- E. apply Forall_forall. intros w Hw.
    apply list_elem_of_omap in Hw as (c & Hc & Hw). eapply condition_payload_ok; [|done].
    destruct H as (_ & _ & _ & _ & _ & _ & H). by apply (proj1 (Forall_forall _ _) H).
  - unfold and_or. destruct (str_eqb _ _); constructor; units.
Qed.
(** The properties of the payload other than the conditions. *)
Lemma payload_prop k op :
  has OPERATION_MODE_VALUES (o_mode op) = true →
  str_eqb (js "conditions") k = false → str_eqb (js "logic") k = false →
  prop k (operation_payload op) = obj_get k (base_payload op).
Proof.
  intros Hm H1 H2. rewrite operation_payload_eq by done.
  destruct (omap _ _); cbn [prop]; [done|]. by rewrite !obj_get_set, H1, H2.
Qed.

Lemma alias_get k p o :
  str_eqb (js "from") k = false → str_eqb (js "to") k = false → obj_get k (alias_payload p o) = obj_get k o.
Proof. intros H1 H2. unfold alias_payload. by rewrite !obj_get_set_if, H1, H2, !andb_false_r. Qed.

(** What the editor shows of a saved operation. *)
Record reopened (op op' : ParamOverrideOperation) : Prop := {
  re_mode : o_mode op' = o_mode op;
  re_description : o_description op' = trim (o_description op);
  re_path : o_path op' =
    if m_path (meta_of (o_mode op)) || m_pathOptional (meta_of (o_mode op)) then trim (o_path op) else [];
  re_value : o_value_text op' =
    if m_value (meta_of (o_mode op)) then toValueText (Some (parseLooseValue (o_value_text op))) else [];
  re_keep : o_keep_origin op' = m_keepOrigin (meta_of (o_mode op)) && o_keep_origin op;
  re_from : o_from op' =
    if m_from (meta_of (o_mode op)) then
      if m_pathAlias (meta_of (o_mode op)) && negb (nonempty (trim (o_from op))) then trim (o_path op)
      else trim (o_from op)
    else [];
  re_to : o_to op' =
    if m_pathAlias (meta_of (o_mode op)) && negb (nonempty (trim (o_to op))) then trim (o_path op)
    else trim (o_to op);
  re_conditions : omap buildConditionPayload (o_conditions op') = omap buildConditionPayload (o_conditions op);
  re_logic : omap buildConditionPayload (o_conditions op) ≠ [] → o_logic op' = and_or (o_logic op);
}.

Lemma base_description op : text_prop (js "description") (JObj (base_payload op)) = trim (o_description op).
Proof.
  unfold text_prop, base_payload. cbn [prop].
  destruct (m_pathAlias _); [rewrite alias_get by (vm_compute; reflexivity)|]; unfold core_payload; get_prop;
    by destruct (trim (o_description op)).
Qed.

Lemma base_mode op :
  has OPERATION_MODE_VALUES (o_mode op) = true →
  mode_prop OPERATION_MODE_VALUES (js "set") (JObj (base_payload op)) = o_mode op.
Proof.
  intros H. unfold mode_prop, base_payload. cbn [prop].
  destruct (m_pathAlias _); [rewrite alias_get by (vm_compute; reflexivity)|]; unfold core_payload; get_prop; by rewrite H.
Qed.

Lemma base_path op :
  text_prop (js "path") (JObj (base_payload op)) =
  if m_path (meta_of (o_mode op)) || m_pathOptional (meta_of (o_mode op)) then trim (o_path op) else [].
Proof.
  unfold text_prop, base_payload. cbn [prop].
  destruct (m_pathAlias _); [rewrite alias_get by (vm_compute; reflexivity)|]; unfold core_payload; get_prop;
    by destruct (m_pathOptional _), (m_path _), (trim (o_path op)).
Qed.

Lemma base_value op :
  toValueText (prop (js "value") (JObj (base_payload op))) =
  if m_value (meta_of (o_mode op)) then toValueText (Some (parseLooseValue (o_value_text op))) else [].
Proof.
  unfold base_payload. cbn [prop].
  destruct (m_pathAlias _); [rewrite alias_get by (vm_compute; reflexivity)|]; unfold core_payload; get_prop;
    by destruct (m_value _).
Qed.

Lemma base_keep op :
  is_true (js "keep_origin") (JObj (base_payload op)) = m_keepOrigin (meta_of (o_mode op)) && o_keep_origin op.
Proof.
  unfold is_true, base_payload. cbn [prop].
  destruct (m_pathAlias _); [rewrite alias_get by (vm_compute; reflexivity)|]; unfold core_payload; get_prop;
    by destruct (m_keepOrigin _), (o_keep_origin op).
Qed.

Lemma core_from mt op :
  obj_get (js "from") (core_payload mt op) = if m_from mt then Some (JStr (trim (o_from op))) else None.
Proof. unfold core_payload. by get_prop. Qed.

Lemma core_to mt op :
  obj_get (js "to") (core_payload mt op)
  = if m_to mt || nonempty (trim (o_to op)) then Some (JStr (trim (o_to op))) else None.
Proof. unfold core_payload. get_prop. by destruct (m_to mt), (nonempty _). Qed.

Lemma base_from op :
  has OPERATION_MODE_VALUES (o_mode op) = true →
  text_prop (js "from") (JObj (base_payload op)) =
  if m_from (meta_of (o_mode op)) then
    if m_pathAlias (meta_of (o_mode op)) && negb (nonempty (trim (o_from op))) then trim (o_path op)
    else trim (o_from op)
  else [].
Proof.
  intros H. unfold text_prop, base_payload. cbn [prop]. destruct (m_pathAlias _) eqn:Ha.
  - rewrite (alias_meta _ H Ha). cbn [m_from]. unfold alias_payload. get_prop. unfold lacks. rewrite core_from.
    cbn [m_from json_truthy andb]. by destruct (trim (o_from op)), (trim (o_path op)).
  - rewrite core_from. by destruct (m_from _).
Qed.

Lemma base_to op :
  has OPERATION_MODE_VALUES (o_mode op) = true →
  text_prop (js "to") (JObj (base_payload op)) =
  if m_pathAlias (meta_of (o_mode op)) && negb (nonempty (trim (o_to op))) then trim (o_path op)
  else trim (o_to op).
Proof.
  intros H. unfold text_prop, base_payload. cbn [prop]. destruct (m_pathAlias _) eqn:Ha.
  - rewrite (alias_meta _ H Ha). unfold alias_payload. get_prop. unfold lacks. get_prop. rewrite core_to.
    cbn [m_to json_truthy andb orb]. by destruct (trim (o_to op)), (trim (o_path op)).
  - rewrite core_to. by destruct (m_to _), (trim (o_to op)).
Qed.

Lemma base_no_conditions op k :
  k = js "conditions" ∨ k = js "logic" → obj_get k (base_payload op) = None.
Proof.
  intros Hk. unfold base_payload.
  destruct Hk as [-> | ->]; (destruct (m_pathAlias _); [rewrite alias_get by (vm_compute; reflexivity)|]);
    unfold core_payload; by get_prop.
Qed.
(** Opening the payload of an operation. *)
Lemma normalize_object o seed logic cs seed' :
  string_or (obj_get (js "logic") o) (js "OR") = Ret logic →
  match obj_get (js "conditions") o with
  | Some (JArr l) => mapM (normalizeCondition now) l
  | _ => mret []
  end (seed + 1)%N = (Ok cs, seed') →
  normalizeOperation now (JObj o) seed =
  (Ok {|
      o_id := local_id now seed;
      o_description := text_prop (js "description") (JObj o);
      o_path := text_prop (js "path") (JObj o);
      o_mode := mode_prop OPERATION_MODE_VALUES (js "set") (JObj o);
      o_value_text := toValueText (prop (js "value") (JObj o));
      o_keep_origin := is_true (js "keep_origin") (JObj o);
      o_from := text_prop (js "from") (JObj o);
      o_to := text_prop (js "to") (JObj o);
      o_logic := if upper_is (js "AND") logic then js "AND" else js "OR";
      o_conditions := cs |}, seed').
Proof.
  intros Hl Hc. unfold normalizeOperation.
  rewrite (idm_bind_ok (nextLocalId now) _ seed (local_id now seed) (seed + 1)%N eq_refl). cbn [prop]. rewrite Hl.
  rewrite (idm_bind_ok (lift (of_exn (Ret logic))) _ (seed + 1)%N logic (seed + 1)%N eq_refl).
  by rewrite (idm_bind_ok _ _ _ _ _ Hc).
Qed.

Lemma upper_and_or l : (if upper_is (js "AND") (and_or l) then js "AND" else js "OR") = and_or l.
Proof. unfold and_or. by destruct (str_eqb l _). Qed.

Lemma operation_reopened op seed :
  stable_operation op →
  ∃ op' seed', normalizeOperation now (operation_payload op) seed = (Ok op', seed') ∧ reopened op op'.
Proof.
  intros (Hm & _ & _ & _ & _ & _ & Hcs).
  assert (∃ o, operation_payload op = JObj o) as [o Ho].
  { rewrite operation_payload_eq by done. destruct (omap _ _); eauto. }
  assert (∀ k, str_eqb (js "conditions") k = false → str_eqb (js "logic") k = false →
    prop k (JObj o) = prop k (JObj (base_payload op))) as Hk.
  { intros k H1 H2. rewrite <- Ho. by apply payload_prop. }
  destruct (conditions_reopened (o_conditions op) (seed + 1) Hcs) as (cs' & seed' & Hc1 & Hc2).
  assert (∃ logic, string_or (obj_get (js "logic") o) (js "OR") = Ret logic ∧
    match obj_get (js "conditions") o with Some (JArr l) => mapM (normalizeCondition now) l | _ => mret [] end (seed + 1)%N
      = (Ok cs', seed') ∧
    (omap buildConditionPayload (o_conditions op) ≠ [] →
     (if upper_is (js "AND") logic then js "AND" else js "OR") = and_or (o_logic op)))
    as (logic & Hl & Hc & Hand).
  { rewrite operation_payload_eq in Ho by done. destruct (omap buildConditionPayload (o_conditions op)) as [|v cs]; simplify_eq.
    - rewrite !base_no_conditions by auto. exists (js "OR"). split; [done|]. split; [exact Hc1|done].
    - rewrite !obj_get_set. names. exists (and_or (o_logic op)). split; [|split; [exact Hc1|intros _; apply upper_and_or]].
      unfold and_or. by destruct (str_eqb _ _). }
  rewrite Ho, (normalize_object _ _ _ _ _ Hl Hc). eexists _, seed'. split; [reflexivity|].
  unfold text_prop, mode_prop, is_true. rewrite !Hk by (vm_compute; reflexivity).
  constructor; cbn [o_id o_description o_path o_mode o_from o_to o_value_text o_keep_origin o_logic o_conditions].
  - by apply base_mode.
  - apply base_description.
  - apply base_path.
  - apply base_value.
  - apply base_keep.
  - by apply base_from.
  - by apply base_to.
  - done.
  - done.
Qed.
(** *** Saving an operation that was opened *)
Lemma set_if_ext b b' k v v' o o' :
  b = b' → (b' = true → v = v') → o = o' → set_if b k v o = set_if b' k v' o'.
Proof. intros -> Hv ->. destruct b'; [by rewrite Hv|done]. Qed.

(** An overwritten header name keeps its place. *)
Lemma alias_overwrite b1 b2 (m d F T P : json) :
  let X := set_if b2 (js "keep_origin") (JBool true) (set_if b1 (js "description") d [(js "mode", m)]) in
  obj_set (obj_set (obj_set X (js "from") F) (js "to") T) (js "from") P = obj_set (obj_set X (js "from") P) (js "to") T ∧
  obj_set (obj_set (obj_set X (js "from") F) (js "to") T) (js "to") P = obj_set (obj_set X (js "from") F) (js "to") P.
Proof. destruct b1, b2; vm_compute; done. Qed.

Lemma reopened_core op op' :
  reopened op op' → stable_text (o_value_text op) → m_pathAlias (meta_of (o_mode op)) = false →
  core_payload (meta_of (o_mode op)) op' = core_payload (meta_of (o_mode op)) op.
Proof.
  intros [] Hv Ha. rewrite Ha in *. cbn [andb] in *. unfold core_payload.
  rewrite re_to0, re_description0, re_mode0, re_keep0, !trim_idemp.
  repeat apply set_if_ext; try done.
  - intros E. by rewrite re_from0, E, trim_idemp.
  - by destruct (m_keepOrigin _).
  - intros E. rewrite re_value0, E. by apply stable_shown.
  - destruct (m_pathOptional _); [|done]. by rewrite re_path0, orb_true_r, trim_idemp.
  - intros [E _]%andb_true_iff. by rewrite re_path0, E, orb_true_r, trim_idemp.
  - intros E. by rewrite re_path0, E, orb_true_l, trim_idemp.
Qed.

Lemma reopened_alias op op' :
  reopened op op' → has OPERATION_MODE_VALUES (o_mode op) = true → m_pathAlias (meta_of (o_mode op)) = true →
  alias_payload (trim (o_path op')) (core_payload (meta_of (o_mode op)) op')
  = alias_payload (trim (o_path op)) (core_payload (meta_of (o_mode op)) op).
Proof.
  intros [] Hm Ha. rewrite Ha in *. rewrite (alias_meta _ Hm Ha) in *.
  cbn [m_path m_pathOptional m_value m_from m_to m_keepOrigin m_pathAlias andb orb] in *.
  rewrite re_path0. change (trim []) with (@nil N). unfold alias_payload at 1. rewrite !andb_false_r. cbn [set_if].
  unfold alias_payload, lacks. rewrite core_from. get_prop. rewrite core_to.
  cbn [m_from m_to orb json_truthy]. unfold core_payload.
  cbn [m_path m_pathOptional m_value m_from m_to m_keepOrigin m_pathAlias andb orb negb set_if].
  rewrite re_description0, re_mode0, re_keep0, re_from0, re_to0, !trim_idemp.
  destruct (trim (o_from op)) eqn:Ef; destruct (trim (o_to op)) eqn:Et; destruct (trim (o_path op)) eqn:Ep;
    cbn [nonempty negb andb set_if]; rewrite <- ?Ef, <- ?Et, <- ?Ep, ?trim_idemp, ?Ef, ?Et, ?Ep;
    rewrite ?(proj1 (alias_overwrite _ _ _ _ _ _ _)), ?(proj2 (alias_overwrite _ _ _ _ _ _ _)); try done.
Qed.
Lemma reopened_payload op op' :
  stable_operation op → reopened op op' → operation_payload op' = operation_payload op.
Proof.
  intros Hs Hr. pose proof Hs as (Hm & _ & _ & _ & _ & Hv & _). pose proof (re_mode _ _ Hr) as Em.
  rewrite !operation_payload_eq by (rewrite ?Em; done). rewrite (re_conditions _ _ Hr).
  assert (base_payload op' = base_payload op) as ->.
  { unfold base_payload. rewrite Em. destruct (m_pathAlias _) eqn:Ha; [by apply reopened_alias|by apply reopened_core]. }
  destruct (omap buildConditionPayload (o_conditions op)) as [|v cs] eqn:E; [done|].
  rewrite (re_logic _ _ Hr) by (by rewrite E). unfold and_or. by destruct (str_eqb (o_logic op) (js "AND")).
Qed.
End reopen.

(** ** Validation *)

(** The rules for one operation. *)
Record acceptable (op : ParamOverrideOperation) : Prop := {
  acc_path : m_path (meta_of (o_mode op)) = true → trim (o_path op) ≠ [];
  acc_from : o_mode op ∈ FROM_REQUIRED_MODES →
    trim (o_from op) ≠ [] ∨ m_pathAlias (meta_of (o_mode op)) = true ∧ trim (o_path op) ≠ [];
  acc_to : o_mode op ∈ TO_REQUIRED_MODES →
    trim (o_to op) ≠ [] ∨ m_pathAlias (meta_of (o_mode op)) = true ∧ trim (o_path op) ≠ [];
  acc_value : o_mode op ∈ VALUE_REQUIRED_MODES → trim (o_value_text op) ≠ [];
  acc_message o m : o_mode op = js "return_error" → json_parse (trim (o_value_text op)) = Some (JObj o) →
    string_or (obj_get (js "message") o) [] = Ret m → trim m ≠ [];
  acc_headers : o_mode op = js "pass_headers" →
    ∃ hs, parsePassHeaderNames (parseLooseValue (o_value_text op)) = Ret hs ∧ hs ≠ [];
}.

Lemma loose_trim s : parseLooseValue (trim s) = parseLooseValue s.
Proof. unfold parseLooseValue. by rewrite trim_idemp. Qed.

Lemma nonempty_false s : nonempty s = false ↔ s = [].
Proof. by destruct s. Qed.

(** One guard of the loop body: it returns a message unless the rule [Q] holds. *)
Lemma guard_none {A} (b : bool) (key : A) (k : res (option A)) (Q R : Prop) :
  (b = false ↔ Q) → (Q → k = Ok None ↔ R) → (if b then Ok (Some key) else k) = Ok None ↔ Q ∧ R.
Proof.
  intros Hb Hk. destruct b.
  - split; [done|]. intros [HQ%Hb _]. done.
  - assert Q as HQ by by apply Hb. rewrite Hk by done. naive_solver.
Qed.

Lemma has_spec l m : has l m = true ↔ m ∈ l.
Proof. apply bool_decide_eq_true. Qed.

Lemma missing_spec b s : b && negb (nonempty s) = false ↔ (b = true → s ≠ []).
Proof. destruct b, s; naive_solver. Qed.

Lemma missing_alias_spec l m s a p :
  has l m && negb (nonempty s) && negb (a && nonempty p) = false ↔
  (m ∈ l → s ≠ [] ∨ a = true ∧ p ≠ []).
Proof. rewrite <- has_spec. destruct (has l m), a, s, p; naive_solver. Qed.

Lemma blank_spec l m s : has l m && str_eqb s [] = false ↔ (m ∈ l → s ≠ []).
Proof. rewrite <- has_spec. unfold str_eqb. destruct (has l m), s; naive_solver. Qed.

(** The loop body accepts an operation exactly when it follows the rules. *)
Lemma operation_error_none op :
  has OPERATION_MODE_VALUES (o_mode op) = true → operation_error op = Ok None ↔ acceptable op.
Proof.
  intros Hm. unfold operation_error. rewrite operation_mode_str by done. cbv zeta.
  transitivity ((m_path (meta_of (o_mode op)) = true → trim (o_path op) ≠ []) ∧
    (o_mode op ∈ FROM_REQUIRED_MODES → trim (o_from op) ≠ [] ∨ m_pathAlias (meta_of (o_mode op)) = true ∧ trim (o_path op) ≠ []) ∧
    (o_mode op ∈ TO_REQUIRED_MODES → trim (o_to op) ≠ [] ∨ m_pathAlias (meta_of (o_mode op)) = true ∧ trim (o_path op) ≠ []) ∧
    (o_mode op ∈ VALUE_REQUIRED_MODES → trim (o_value_text op) ≠ []) ∧
    (∀ o m, o_mode op = js "return_error" → json_parse (trim (o_value_text op)) = Some (JObj o) →
       string_or (obj_get (js "message") o) [] = Ret m → trim m ≠ []) ∧
    (o_mode op = js "pass_headers" →
       ∃ hs, parsePassHeaderNames (parseLooseValue (o_value_text op)) = Ret hs ∧ hs ≠ [])).
  2: { split; [intros (?&?&?&?&?&?); by constructor|by intros []]. }
  apply guard_none; [apply missing_spec|]. intros _. apply guard_none; [apply missing_alias_spec|]. intros _.
  apply guard_none; [apply missing_alias_spec|]. intros _. apply guard_none; [apply blank_spec|]. intros Hv.
  assert (∀ w, o_mode op = js w → bool_decide (js w ∈ VALUE_REQUIRED_MODES) = true →
    nonempty (trim (o_value_text op)) = true) as Hne.
  { intros w E Hw. apply nonempty_spec, Hv. rewrite E. by apply bool_decide_eq_true in Hw. }
  unfold str_eqb. case_bool_decide as H1; [rewrite (Hne _ H1) by (vm_compute; reflexivity)|
    case_bool_decide as H2; [rewrite (Hne _ H2) by (vm_compute; reflexivity)|
    case_bool_decide as H3; [rewrite (Hne _ H3) by (vm_compute; reflexivity)|]]]; cbn [negb].
  - split.
    + intros H. split; [|rewrite H1; intros E; vm_compute in E; done].
      intros o m _ Ho Hmm Hx. rewrite Ho, Hmm, Hx in H. done.
    + intros [H _]. destruct (json_parse _) as [[]|]; try done. destruct (string_or _ _) eqn:E; [|done].
      specialize (H _ _ H1 eq_refl E). apply nonempty_spec in H. by rewrite H.
  - split; [|done]. intros _. split; [congruence|]. rewrite H2. intros E; vm_compute in E; done.
  - rewrite loose_trim. split.
    + intros H. split; [congruence|]. intros _. destruct (parsePassHeaderNames _) as [hs|] eqn:E; [|done].
      exists hs. split; [done|]. by intros ->.
    + intros [_ H]. destruct (H H3) as (hs & -> & Hhs). by destruct hs.
  - split; [|done]. intros _. split; [congruence|done].
Qed.

(** The only throw of the loop body is the conversion of header names. *)
Lemma operation_error_throw op e : operation_error op = Err e → e = TypeError.
Proof.
  unfold operation_error. cbv zeta. intros H.
  repeat match type of H with
  | (if ?b then _ else _) = _ => destruct b; try discriminate H
  end.
  - destruct (json_parse _) as [[]|]; try discriminate H.
    destruct (string_or _ _); [|discriminate H]. destruct (nonempty _); discriminate H.
  - destruct (parsePassHeaderNames _) as [[]|]; cbn [of_exn mbind res_bind] in H; congruence.
Qed.

Section validation.
Context (t : jstr → option N → jstr).

Definition valid_mode (op : ParamOverrideOperation) : Prop := has OPERATION_MODE_VALUES (o_mode op) = true.

Lemma validate_accepted line ops :
  Forall valid_mode ops → Forall acceptable ops → validate_from t line ops = Ok [].
Proof.
  intros Hm. revert line. induction Hm as [|op ops Hop Hm IH]; intros line; [done|].
  intros [Ha Hops]%Forall_cons. cbn [validate_from]. rewrite (proj2 (operation_error_none op Hop) Ha).
  cbn [mbind res_bind]. by apply IH.
Qed.

Lemma validate_first line pre op post :
  Forall valid_mode pre → Forall acceptable pre →
  validate_from t line (pre ++ op :: post) =
  (e ← operation_error op;
   match e with
   | Some key => Ok (t key (Some (line + N.of_nat (length pre))%N))
   | None => validate_from t (line + N.of_nat (length pre) + 1) post
   end).
Proof.
  intros Hm. revert line. induction Hm as [|o ops Hop Hm IH]; intros line.
  - intros _. cbn [app validate_from length N.of_nat]. by rewrite N.add_0_r.
  - intros [Ha Hops]%Forall_cons. cbn [app validate_from]. rewrite (proj2 (operation_error_none o Hop) Ha).
    cbn [mbind res_bind]. rewrite IH by done. cbn [length].
    by replace (line + N.of_nat (S (length ops)))%N with (line + 1 + N.of_nat (length ops))%N by lia.
Qed.

(** What the editor saves of a list of operations. *)
Definition shown (ops : list ParamOverrideOperation) : list ParamOverrideOperation :=
  List.filter (λ o, negb (isOperationBlank o)) ops.

Lemma shown_Forall (P : ParamOverrideOperation → Prop) ops : Forall P ops → Forall P (shown ops).
Proof.
  intros H. apply Forall_forall. intros o Ho. apply list_elem_of_In, filter_In in Ho as [Ho _].
  apply (proj1 (Forall_forall _ _) H). by apply list_elem_of_In.
Qed.

Lemma build_accepted ops :
  Forall valid_mode ops → Forall acceptable (shown ops) → shown ops ≠ [] →
  buildOperationsJson t ops true
  = Ok (stringify_pretty (JObj [(js "operations", JArr (map operation_payload (shown ops)))])).
Proof.
  intros Hm Ha Hne. unfold buildOperationsJson. fold (shown ops). cbv zeta.
  pose proof (shown_Forall _ _ Hm) as Hm'.
  destruct (shown ops) as [|o l] eqn:E; [done|]. unfold validateOperations.
  rewrite validate_accepted by done. done.
Qed.

(** C6: saving with validation succeeds exactly when every operation that is not
    blank follows the rules of its mode, and then saves what an unvalidated build
    gives; otherwise it throws the translated message of the first operation that
    breaks a rule, with its line among the operations that are not blank (or the
    TypeError of a header list that cannot be converted to text). *)
Theorem save_validates ops :
  (∀ key line, t key line ≠ []) → Forall valid_mode ops →
  (Forall acceptable (shown ops) →
    buildOperationsJson t ops true = buildOperationsJson t ops false ∧
    ∃ text, buildOperationsJson t ops true = Ok text) ∧
  (∀ pre op post, shown ops = pre ++ op :: post → Forall acceptable pre → ¬ acceptable op →
    (∃ key, operation_error op = Ok (Some key) ∧
      buildOperationsJson t ops true = Err (Error (t key (Some (N.of_nat (length pre) + 1)%N)))) ∨
    operation_error op = Err TypeError ∧ buildOperationsJson t ops true = Err TypeError).
Proof.
  intros Ht Hm. pose proof (shown_Forall _ _ Hm) as Hm'.
  split.
  - intros Ha. unfold buildOperationsJson. fold (shown ops). cbv zeta. destruct (shown ops) as [|o l] eqn:E; [eauto|].
    unfold validateOperations. rewrite validate_accepted by done. eauto.
  - intros pre op post E Ha Hn. assert (Forall valid_mode pre ∧ valid_mode op) as [Hpre Hop].
    { rewrite E in Hm'. apply Forall_app in Hm' as [? [? _]%Forall_cons]. done. }
    assert (buildOperationsJson t ops true = message ← validateOperations t (shown ops);
      if nonempty message then Err (Error message) else buildOperationsJson t ops false) as ->.
    { unfold buildOperationsJson. fold (shown ops). cbv zeta. by destruct (shown ops). }
    unfold validateOperations. rewrite E, validate_first by done.
    assert (operation_error op ≠ Ok None) as Hne by by rewrite operation_error_none.
    destruct (operation_error op) as [[key|]|e] eqn:Ee; [|done|].
    + left. exists key. split; [done|]. cbn [mbind res_bind]. specialize (Ht key (Some (1 + N.of_nat (length pre))%N)).
      apply nonempty_spec in Ht. rewrite Ht. by rewrite N.add_comm.
    + right. by rewrite (operation_error_throw _ _ Ee).
Qed.
End validation.

(** ** Saving what was opened *)
Lemma shown_parse s :
  stable_text s →
  json_parse (trim (toValueText (Some (parseLooseValue s)))) =
  match json_parse (trim s) with Some (JStr _) => None | r => r end.
Proof.
  unfold stable_text. destruct (json_parse (trim s)) as [v|] eqn:E; intros H.
  - rewrite (loose_json _ _ E). destruct v as [| | |u| |].
    4: { cbn [toValueText]. by destruct H as (_ & _ & -> & ->). }
    all: rewrite value_text_other, stringify_trim by done; by apply json_parse_stringify.
  - rewrite (loose_plain s) by done. cbn [toValueText]. by rewrite trim_idemp.
Qed.

(** The table: a mode that requires a field uses it. *)
Lemma required_meta m :
  (m ∈ FROM_REQUIRED_MODES → m_from (meta_of m) = true) ∧ (m ∈ VALUE_REQUIRED_MODES → m_value (meta_of m) = true).
Proof.
  assert (forallb (λ m, m_from (meta_of m)) FROM_REQUIRED_MODES = true) as H1 by (vm_compute; reflexivity).
  assert (forallb (λ m, m_value (meta_of m)) VALUE_REQUIRED_MODES = true) as H2 by (vm_compute; reflexivity).
  rewrite forallb_Forall, Forall_forall in H1, H2. split; auto.
Qed.

Lemma reopened_acceptable op op' :
  stable_operation op → acceptable op → reopened op op' → acceptable op'.
Proof.
  intros (Hm & _ & _ & _ & _ & Hv & _) [] Hr. pose proof (required_meta (o_mode op)) as [Hf Hval].
  pose proof (alias_meta _ Hm) as Hal. destruct Hr. constructor; rewrite ?re_mode0.
  - intros H. rewrite re_path0, H. cbn [orb]. rewrite trim_idemp. auto.
  - intros H. left. rewrite re_from0, (Hf H). destruct (acc_from0 H) as [Hn|[Ha Hn]].
    + pose proof Hn as Hn'. apply nonempty_spec in Hn'. by rewrite Hn', andb_false_r, trim_idemp.
    + rewrite Ha. cbn [andb]. destruct (nonempty (trim (o_from op))) eqn:E; cbn [negb]; rewrite trim_idemp; [|done].
      by apply nonempty_spec.
  - intros H. left. rewrite re_to0. destruct (acc_to0 H) as [Hn|[Ha Hn]].
    + pose proof Hn as Hn'. apply nonempty_spec in Hn'. by rewrite Hn', andb_false_r, trim_idemp.
    + rewrite Ha. cbn [andb]. destruct (nonempty (trim (o_to op))) eqn:E; cbn [negb]; rewrite trim_idemp; [|done].
      by apply nonempty_spec.
  - intros H. rewrite re_value0, (Hval H). apply stable_nonblank; auto.
  - intros o m Hmo. rewrite re_value0, Hval by (rewrite Hmo; apply has_spec; vm_compute; reflexivity).
    rewrite shown_parse by done. intros Hp. eapply acc_message0; [done|]. by destruct (json_parse _) as [[]|].
  - intros Hmo. rewrite re_value0, Hval by (rewrite Hmo; apply has_spec; vm_compute; reflexivity).
    rewrite stable_shown by done. auto.
Qed.

(** An operation that follows the rules is never taken for a blank one. *)
Lemma acceptable_visible op : acceptable op → isOperationBlank op = false.
Proof.
  intros []. unfold isOperationBlank, str_eqb. case_bool_decide as E; [|done].
  rewrite E in acc_path0. specialize (acc_path0 eq_refl). apply nonempty_spec in acc_path0. by rewrite acc_path0.
Qed.

Section saving.
Context (now : N → N) (t : jstr → option N → jstr).

Lemma operations_reopened ops seed :
  Forall stable_operation ops →
  ∃ ops' seed', mapM (normalizeOperation now) (map operation_payload ops) seed = (Ok ops', seed') ∧
    Forall2 reopened ops ops'.
Proof.
  intros H. revert seed. induction H as [|op ops Hop H IH]; intros seed; [by exists [], seed|].
  destruct (operation_reopened now op seed Hop) as (op' & seed1 & E1 & Hr).
  destruct (IH seed1) as (ops' & seed' & E2 & Hrs). exists (op' :: ops'), seed'.
  split; [|by constructor]. cbn [map]. by eapply idm_mapM_cons.
Qed.

Lemma pretty_object_trim k v l : trim (stringify_pretty (JObj ((k, v) :: l))) = stringify_pretty (JObj ((k, v) :: l)).
Proof.
  unfold stringify_pretty. rewrite <- (app_nil_r (pretty 0 _)), pretty_obj, (app_assoc (str_join _ _)).
  apply (trim_wrap 123 _ 125); done.
Qed.
Hypothesis t_nonempty : ∀ key line, t key line ≠ [].

Lemma validate_ok_inv line ops :
  Forall valid_mode ops → validate_from t line ops = Ok [] → Forall acceptable ops.
Proof.
  intros Hm. revert line. induction Hm as [|op ops Hop Hm IH]; intros line; [done|].
  cbn [validate_from]. destruct (operation_error op) as [[key|]|e] eqn:E; cbn [mbind res_bind]; [|eauto|done].
  - intros H. simplify_eq. by destruct (t_nonempty key (Some line)).
  - constructor; [by apply operation_error_none|eauto].
Qed.

Lemma build_ok_inv ops text :
  Forall valid_mode (shown ops) → buildOperationsJson t ops true = Ok text → text ≠ [] →
  shown ops ≠ [] ∧ Forall acceptable (shown ops) ∧
  text = stringify_pretty (JObj [(js "operations", JArr (map operation_payload (shown ops)))]).
Proof.
  intros Hm. unfold buildOperationsJson. fold (shown ops). cbv zeta.
  destruct (shown ops) as [|o l] eqn:E; [by intros [= <-]|].
  destruct (validateOperations t (o :: l)) as [message|e] eqn:Ev; cbn [mbind res_bind]; [|done].
  destruct message as [|c m]; cbn [nonempty]; [|done]. intros [= <-] _.
  split; [done|]. split; [|done]. by apply (validate_ok_inv 1).
Qed.

Lemma document_ok ops :
  Forall stable_operation ops → json_ok (JObj [(js "operations", JArr (map operation_payload ops))]).
Proof.
  intros H. apply props_ok_obj, props_ok_fold; [|apply plain_keys_b; vm_compute; reflexivity].
  apply prop_ok_cons; [units| |constructor]. constructor. apply List.Forall_map.
  eapply Forall_impl; [exact H|]. apply operation_payload_ok.
Qed.

Lemma shown_id ops : Forall acceptable ops → shown ops = ops.
Proof.
  induction 1 as [|op ops Hop H IH]; [done|]. unfold shown in *. cbn [List.filter].
  by rewrite acceptable_visible, IH.
Qed.

Lemma reopen_saved ops text seed :
  Forall stable_operation (shown ops) → buildOperationsJson t ops true = Ok text → text ≠ [] →
  ∃ st seed', parseInitialState now text seed = (Ok st, seed') ∧
    e_editMode st = VisualEdit ∧ e_visualMode st = OperationsMode ∧ e_jsonText st = text ∧ e_jsonError st = [] ∧
    Forall2 reopened (shown ops) (e_operations st) ∧
    buildOperationsJson t (e_operations st) true = Ok text.
Proof.
  intros Hs Hb Hne. assert (Forall valid_mode (shown ops)) as Hm by (eapply Forall_impl; [exact Hs|]; by intros o []).
  destruct (build_ok_inv ops text Hm Hb Hne) as (Hsh & Ha & ->).
  destruct (operations_reopened (shown ops) seed Hs) as (ops' & seed' & E & Hr).
  assert (Forall acceptable ops' ∧ Forall valid_mode ops' ∧ map operation_payload ops' = map operation_payload (shown ops) ∧ ops' ≠ [])
    as (Ha' & Hm' & Hp & Hne').
  { clear -Hs Ha Hr Hsh. split_and!; [| | |by destruct Hr].
    all: clear Hsh; induction Hr as [|o o' l l' Ho Hr IH]; [done|]; apply Forall_cons in Hs as [Hso Hs], Ha as [Hao Ha].
    - constructor; [by eapply reopened_acceptable|auto].
    - constructor; [unfold valid_mode; rewrite (re_mode _ _ Ho); apply Hso|auto].
    - cbn [map]. f_equal; [by apply reopened_payload|auto]. }
  unfold parseInitialState. cbv zeta. rewrite pretty_object_trim.
  rewrite json_parse_pretty by by apply document_ok. cbn [obj_get]. names.
  destruct (pretty_nonblank 0 _ (document_ok _ Hs)) as (c & u & Ec & _). unfold stringify_pretty. rewrite Ec. cbn [nonempty negb].
  unfold operations_or_default. destruct (map operation_payload (shown ops)) as [|v vs] eqn:Ev.
  { destruct (shown ops); done. }
  rewrite (idm_bind_ok _ _ _ _ _ E). eexists _, seed'. split; [reflexivity|].
  cbn [e_editMode e_visualMode e_jsonText e_jsonError e_operations]. split_and!; try done.
  rewrite build_accepted; rewrite ?shown_id by done; try done. unfold stringify_pretty. by rewrite Hp, ?Ev, Ec.
Qed.

(** C4: the round trip of the editor.  When the operations have modes of the
    list and value texts that are not reinterpreted, opening the text that the
    validated save produced shows the visual editor with one operation per saved
    operation, whose fields are the saved ones, and saving again gives the same
    text. *)
Theorem saved_reopens ops text seed :
  Forall stable_operation (shown ops) → buildOperationsJson t ops true = Ok text → text ≠ [] →
  ∃ st seed', parseInitialState now text seed = (Ok st, seed') ∧
    e_editMode st = VisualEdit ∧ e_visualMode st = OperationsMode ∧ e_jsonText st = text ∧ e_jsonError st = [] ∧
    Forall2 reopened (shown ops) (e_operations st) ∧
    buildOperationsJson t (e_operations st) true = Ok text.
Proof. apply reopen_saved. Qed.
End saving.

(** ** A concrete document *)

Definition demo_condition : ParamOverrideCondition := {|
  c_id := js "c"; c_path := js " model "; c_mode := js "prefix"; c_value_text := js "openai/";
  c_invert := true; c_pass_missing_key := false |}.

Definition demo_set : ParamOverrideOperation := {|
  o_id := js "a"; o_description := js "temperature"; o_path := js "temperature"; o_mode := js "set";
  o_from := []; o_to := []; o_value_text := js " 0.7"; o_keep_origin := true; o_logic := js "AND";
  o_conditions := [demo_condition] |}.

Definition demo_copy : ParamOverrideOperation := {|
  o_id := js "b"; o_description := []; o_path := js "X-Auth"; o_mode := js "copy_header";
  o_from := js "Authorization"; o_to := []; o_value_text := []; o_keep_origin := false; o_logic := js "OR";
  o_conditions := [] |}.

Definition demo_blank : ParamOverrideOperation := {|
  o_id := js "d"; o_description := []; o_path := []; o_mode := js "set";
  o_from := []; o_to := []; o_value_text := js " "; o_keep_origin := false; o_logic := js "OR";
  o_conditions := [] |}.

Definition demo_operations : list ParamOverrideOperation := [demo_set; demo_blank; demo_copy].

Definition demo_t (key : jstr) (line : option N) : jstr :=
  33%N :: key ++ match line with Some n => dec n | None => [] end.

Lemma demo_stable : Forall stable_operation (shown demo_operations).
Proof.
  change (shown demo_operations) with [demo_set; demo_copy].
  assert (stable_text (js " 0.7")) as H1 by (unfold stable_text; vm_compute; constructor; vm_compute; reflexivity).
  assert (stable_text (js "openai/")) as H2.
  { apply stable_plain; [vm_compute; reflexivity|apply code_units_b; vm_compute; reflexivity]. }
  assert (stable_text []) as H3 by by apply stable_plain.
  constructor; [|constructor; [|constructor]]; (split; [vm_compute; reflexivity|]);
    (do 4 (split; [apply code_units_b; vm_compute; reflexivity|])); (split; [assumption|]); [|constructor].
  constructor; [|constructor]. split; [vm_compute; reflexivity|].
  split; [apply code_units_b; vm_compute; reflexivity|assumption].
Qed.

Lemma saved_reopens_witness :
  ∃ text, buildOperationsJson demo_t demo_operations true = Ok text ∧
    ∃ st seed', parseInitialState (λ _, 17%N) text 0%N = (Ok st, seed') ∧
    e_editMode st = VisualEdit ∧ e_visualMode st = OperationsMode ∧ e_jsonText st = text ∧ e_jsonError st = [] ∧
    Forall2 reopened (shown demo_operations) (e_operations st) ∧
    buildOperationsJson demo_t (e_operations st) true = Ok text.
Proof.
  eexists. split; [vm_compute; reflexivity|].
  apply (saved_reopens (λ _, 17%N) demo_t ltac:(done) demo_operations).
  - exact demo_stable.
  - vm_compute. reflexivity.
  - done.
Defined.

Lemma save_validates_witness :
  buildOperationsJson demo_t [demo_set; demo_copy] true = buildOperationsJson demo_t [demo_set; demo_copy] false.
Proof.
  refine (proj1 (proj1 (save_validates demo_t [demo_set; demo_copy] ltac:(done) _) _)).
  - repeat constructor.
  - change (shown _) with [demo_set; demo_copy].
    constructor; [|constructor; [|constructor]]; apply operation_error_none; vm_compute; reflexivity.
Defined.

(** A text value that is itself a JSON text does not survive: the string ["123"]
    is shown without its quotes and saved as a number the next time. *)
Definition demo_quoted : ParamOverrideOperation := {|
  o_id := js "q"; o_description := []; o_path := js "user"; o_mode := js "set";
  o_from := []; o_to := []; o_value_text := jq "'123'"; o_keep_origin := false; o_logic := js "OR";
  o_conditions := [] |}.

Theorem quoted_number_reinterpreted now seed :
  parseLooseValue (jq "'123'") = JStr (js "123") ∧
  parseLooseValue (toValueText (Some (JStr (js "123")))) = JNum (num_of_Z 123) ∧
  ∃ text1 text2 st seed', buildOperationsJson demo_t [demo_quoted] true = Ok text1 ∧
    parseInitialState now text1 seed = (Ok st, seed') ∧
    buildOperationsJson demo_t (e_operations st) true = Ok text2 ∧ text1 ≠ text2.
Proof.
  split; [vm_compute; reflexivity|]. split; [vm_compute; reflexivity|].
  eexists _, _, _, _. split; [vm_compute; reflexivity|]. split; [vm_compute; reflexivity|].
  split; [vm_compute; reflexivity|]. vm_compute. intros H. discriminate H.
Qed.
