(* ===== verification/ParamDrafts.v ===== *)
(** * The parameter override editor: structured value drafts

    The forms of [param-override-editor-dialog.tsx] that edit a value text
    through a structured draft: [return_error], [prune_objects] and the targets of
    [sync_fields].  A draft is parsed from the value text on every render and
    printed back into it on every change, so what a form shows after a change is
    the parse of what was built. *)

From S2P Require Import Prelude JsString JsNumber Json ParamOverride ParamRoundtrip.
From stdpp Require Import list.
From Stdlib Require Import NArith ZArith SpecFloat.

(** [Number(v)]. *)
Definition json_to_number (v : option json) : exn num :=
  match v with
  | None => Ret S754_nan
  | Some JNull => Ret nzero
  | Some (JBool b) => Ret (if b then num_of_Z 1 else nzero)
  | Some (JNum x) => Ret x
  | Some (JStr s) => Ret (to_number s)
  | Some v => s ← js_string v; Ret (to_number s)
  end.

(** [Number.isInteger(x) && x >= 100 && x <= 599 ? x : 400]. *)
Definition status_or_400 (x : num) : num :=
  match num_to_Z x with
  | Some z => if ((100 <=? z) && (z <=? 599))%Z then x else num_of_Z 400
  | None => num_of_Z 400
  end.

(** ** [return_error] *)

Record ReturnErrorDraft := {
  r_message : jstr;
  r_statusCode : num;
  r_code : jstr;
  r_type : jstr;
  r_skipRetry : bool;
  r_simpleMode : bool;
}.

Definition return_error_text (message : jstr) : ReturnErrorDraft := {|
  r_message := message; r_statusCode := num_of_Z 400; r_code := []; r_type := [];
  r_skipRetry := true; r_simpleMode := true |}.

(** [String(v || d).trim()]. *)
Definition trimmed_or (v : option json) (d : jstr) : exn jstr :=
  s ← string_or v d; Ret (trim s).

(** [a || b] of properties that may be undefined. *)
Definition or_prop (a b : option json) : option json :=
  match a with Some v => if json_truthy v then a else b | None => b end.

(** The body of the [try] for an object; a throw is caught. *)
Definition return_error_object (o : list (jstr * json)) : exn ReturnErrorDraft :=
  let statusRaw :=
    match obj_get (js "status_code") o with Some v => Some v | None => obj_get (js "status") o end in
  statusValue ← json_to_number statusRaw;
  message ← trimmed_or (or_prop (obj_get (js "message") o) (obj_get (js "msg") o)) [];
  code ← trimmed_or (obj_get (js "code") o) [];
  type ← trimmed_or (obj_get (js "type") o) [];
  Ret {|
    r_message := message;
    r_statusCode := status_or_400 statusValue;
    r_code := code;
    r_type := type;
    r_skipRetry := match obj_get (js "skip_retry") o with Some (JBool false) => false | _ => true end;
    r_simpleMode := false |}.

Definition parseReturnErrorDraft (valueText : jstr) : ReturnErrorDraft :=
  let raw := trim valueText in
  if negb (nonempty raw) then return_error_text []
  else
    match json_parse raw with
    | Some (JObj o) =>
      match return_error_object o with Ret d => d | Throw => return_error_text raw end
    | _ => return_error_text raw
    end.

Definition return_error_payload (draft : ReturnErrorDraft) : list (jstr * json) :=
  let code := trim (r_code draft) in
  let type := trim (r_type draft) in
  let payload := [(js "message", JStr (trim (r_message draft)));
                  (js "status_code", JNum (status_or_400 (r_statusCode draft)))] in
  let payload := set_if (nonempty code) (js "code") (JStr code) payload in
  let payload := set_if (nonempty type) (js "type") (JStr type) payload in
  set_if (negb (r_skipRetry draft)) (js "skip_retry") (JBool false) payload.

Definition buildReturnErrorValueText (draft : ReturnErrorDraft) : jstr :=
  if r_simpleMode draft then trim (r_message draft)
  else stringify (JObj (return_error_payload draft)).

Definition units_draft (d : ReturnErrorDraft) : Prop :=
  Forall code_unit (r_message d) ∧ Forall code_unit (r_code d) ∧ Forall code_unit (r_type d).

(** A draft as the form shows it: trimmed texts and a status between 100 and 599. *)
Definition shown_draft (d : ReturnErrorDraft) : ReturnErrorDraft := {|
  r_message := trim (r_message d); r_statusCode := status_or_400 (r_statusCode d);
  r_code := trim (r_code d); r_type := trim (r_type d);
  r_skipRetry := r_skipRetry d; r_simpleMode := false |}.

Lemma status_or_400_idemp x : status_or_400 (status_or_400 x) = status_or_400 x.
Proof.
  unfold status_or_400. destruct (num_to_Z x) as [z|] eqn:E; [|done].
  destruct ((100 <=? z) && (z <=? 599))%Z eqn:Ez; [by rewrite E, Ez|done].
Qed.

(** The integers of a status are printed as they are read. *)
Lemma status_num_ok z : (100 <= z <= 599)%Z → num_ok (num_of_Z z) = true.
Proof.
  intros Hz. assert (forallb (λ n, num_ok (num_of_Z (Z.of_nat n))) (seq 100 500) = true) as H by (vm_compute; reflexivity).
  rewrite forallb_forall in H. specialize (H (Z.to_nat z)). rewrite Z2Nat.id in H by lia. apply H, in_seq. lia.
Qed.

Lemma string_or_str s d : string_or (Some (JStr s)) d = Ret (str_or s d).
Proof. by destruct s. Qed.

Lemma return_error_payload_ok d :
  units_draft d → num_ok (status_or_400 (r_statusCode d)) = true → props_ok (return_error_payload d).
Proof.
  intros (Hm & Hc & Ht) Hs. unfold return_error_payload.
  repeat (apply props_ok_set_if; [|units|first [by constructor | by apply ok_str, trim_units]]).
  apply props_ok_fold; [|apply plain_keys_b; vm_compute; reflexivity].
  apply prop_ok_cons; [units|by apply ok_str, trim_units|].
  apply prop_ok_cons; [units|by constructor|constructor].
Qed.

Lemma return_error_reread d : return_error_object (return_error_payload d) = Ret (shown_draft d).
Proof.
  unfold return_error_object, return_error_payload, trimmed_or, or_prop. get_prop.
  cbn [json_to_number mbind exn_bind json_truthy].
  destruct (trim (r_message d)) as [|c m] eqn:Em; cbn [nonempty]; rewrite <- ?Em;
    rewrite ?string_or_str; cbn [mbind exn_bind string_or];
  (destruct (trim (r_code d)) as [|c' m'] eqn:Ec; cbn [nonempty]; rewrite <- ?Ec, ?string_or_str; cbn [mbind exn_bind string_or]);
  (destruct (trim (r_type d)) as [|c'' m''] eqn:Et; cbn [nonempty]; rewrite <- ?Et, ?string_or_str; cbn [mbind exn_bind string_or]);
  unfold shown_draft, str_or; rewrite ?Em, ?Ec, ?Et; cbn [nonempty]; rewrite <- ?Em, <- ?Ec, <- ?Et, ?trim_idemp, status_or_400_idemp;
  destruct (r_skipRetry d); rewrite ?Em, ?Ec, ?Et; done.
Qed.

(** The structured [return_error] form: after any change the form shows the
    draft that was built, with its texts trimmed and a status outside 100..599
    replaced by 400; in simple mode it shows the trimmed message, as long as the
    message is not itself the text of a JSON object. *)
Theorem return_error_roundtrip d :
  units_draft d → num_ok (status_or_400 (r_statusCode d)) = true →
  (r_simpleMode d = false → parseReturnErrorDraft (buildReturnErrorValueText d) = shown_draft d) ∧
  (r_simpleMode d = true → (∀ o, json_parse (trim (r_message d)) ≠ Some (JObj o)) →
    parseReturnErrorDraft (buildReturnErrorValueText d) = return_error_text (trim (r_message d))).
Proof.
  intros Hu Hs. unfold parseReturnErrorDraft, buildReturnErrorValueText. split; intros ->.
  - assert (json_ok (JObj (return_error_payload d))) as Hok by by apply props_ok_obj, return_error_payload_ok.
    rewrite stringify_trim by done. rewrite json_parse_stringify by done. rewrite return_error_reread.
    apply stringify_length in Hok. destruct (stringify _); [cbn in Hok; lia|done].
  - intros Hj. rewrite trim_idemp. destruct (nonempty _) eqn:E; [|by apply nonempty_false in E as ->].
    cbn [negb]. destruct (json_parse _) as [[]|] eqn:Ej; try done. by destruct (Hj l).
Qed.

Lemma trim_typed_space m : trim m = m → m ≠ [] → trim (m ++ [32%N]) = m.
Proof.
  intros Hm Hne. destruct m as [|c m]; [done|]. pose proof (trim_no_edge (c :: m)) as He. rewrite Hm in He.
  unfold no_edge_ws in He. apply andb_true_iff in He as [Hc _]. cbn [head] in Hc. apply negb_true_iff in Hc.
  unfold trim in *. cbn [app]. rewrite trim_start_id in Hm |- * by done. unfold trim_end in *.
  rewrite app_comm_cons, reverse_snoc. exact Hm.
Qed.

(** The form drops a space as soon as it is typed at the end of a message. *)
Theorem typed_space_is_lost m :
  trim m = m → m ≠ [] → (∀ o, json_parse m ≠ Some (JObj o)) →
  parseReturnErrorDraft (buildReturnErrorValueText (return_error_text (m ++ [32%N]))) = return_error_text m.
Proof.
  intros Hm Hne Hj. unfold buildReturnErrorValueText, parseReturnErrorDraft.
  cbn [r_simpleMode r_message return_error_text]. rewrite trim_typed_space, Hm by done.
  destruct m as [|c m]; [done|]. cbn [nonempty negb]. destruct (json_parse _) as [[]|] eqn:E; try done. by destruct (Hj l).
Qed.

(** ** [prune_objects] *)

Record PruneRule := {
  pr_id : jstr;
  pr_path : jstr;
  pr_mode : jstr;
  pr_value_text : jstr;
  pr_invert : bool;
  pr_pass_missing_key : bool;
}.

Record PruneObjectsDraft := {
  pd_simpleMode : bool;
  pd_typeText : jstr;
  pd_logic : jstr;
  pd_recursive : bool;
  pd_rules : list PruneRule;
}.

Definition prune_text (typeText : jstr) : PruneObjectsDraft := {|
  pd_simpleMode := true; pd_typeText := typeText; pd_logic := js "AND"; pd_recursive := true; pd_rules := [] |}.

Definition prune_payload_rule (rule : PruneRule) : json :=
  let payload := [(js "path", JStr (trim (pr_path rule)));
                  (js "mode", JStr (if has CONDITION_MODE_VALUES (pr_mode rule) then pr_mode rule else js "full"))] in
  let valueRaw := trim (pr_value_text rule) in
  let payload := set_if (negb (str_eqb valueRaw [])) (js "value") (parseLooseValue valueRaw) payload in
  let payload := set_if (pr_invert rule) (js "invert") (JBool true) payload in
  JObj (set_if (pr_pass_missing_key rule) (js "pass_missing_key") (JBool true) payload).

Definition prune_payload (draft : PruneObjectsDraft) : list (jstr * json) :=
  let typeText := trim (pd_typeText draft) in
  let payload := set_if (nonempty typeText) (js "type") (JStr typeText) [] in
  let payload := set_if (upper_is (js "OR") (str_or (pd_logic draft) (js "AND"))) (js "logic") (lit "OR") payload in
  let payload := set_if (negb (pd_recursive draft)) (js "recursive") (JBool false) payload in
  match map prune_payload_rule (List.filter (λ rule, nonempty (trim (pr_path rule))) (pd_rules draft)) with
  | [] => payload
  | conditions => obj_set payload (js "conditions") (JArr conditions)
  end.

Definition buildPruneObjectsValueText (draft : PruneObjectsDraft) : jstr :=
  if pd_simpleMode draft then trim (pd_typeText draft)
  else
    let payload := prune_payload draft in
    if lacks (js "type") payload && lacks (js "conditions") payload
    then stringify (JObj [(js "logic", lit "AND")])
    else stringify (JObj payload).

Section prune.
Context (now : N → N).

Definition normalizePruneRule (rule : json) : idm PruneRule :=
  id ← nextLocalId now;
  match rule with
  | JNull => lift (Err TypeError)
  | _ => mret {|
      pr_id := id;
      pr_path := text_prop (js "path") rule;
      pr_mode := mode_prop CONDITION_MODE_VALUES (js "full") rule;
      pr_value_text := toValueText (prop (js "value") rule);
      pr_invert := is_true (js "invert") rule;
      pr_pass_missing_key := is_true (js "pass_missing_key") rule |}
  end.

(** [for (const [path, value] of Object.entries(o))] *)
Definition entry_rules (o : list (jstr * json)) : idm (list PruneRule) :=
  mapM (λ kv, normalizePruneRule (JObj [(js "path", JStr kv.1); (js "mode", lit "full"); (js "value", kv.2)])) o.

Definition is_object (v : json) : bool := match v with JArr _ | JObj _ => true | _ => false end.

Definition has_prop (k : jstr) (o : list (jstr * json)) : bool :=
  match obj_get k o with Some _ => true | None => false end.

(** The body of the [try] for an object. *)
Definition prune_object (o : list (jstr * json)) : idm PruneObjectsDraft :=
  where_rules ← match obj_get (js "where") o with Some (JObj w) => entry_rules w | _ => mret [] end;
  condition_rules ←
    match obj_get (js "conditions") o with
    | Some (JArr l) => mapM normalizePruneRule (List.filter is_object l)
    | Some (JObj c) => entry_rules c
    | _ => mret []
    end;
  typeText ← lift (of_exn (match obj_get (js "type") o with
                           | None => Ret []
                           | Some v => s ← js_string v; Ret (trim s)
                           end));
  logic ← lift (of_exn (string_or (obj_get (js "logic") o) (js "AND")));
  let recursive := match obj_get (js "recursive") o with Some (JBool false) => false | _ => true end in
  let hasAdvancedFields := has_prop (js "logic") o || has_prop (js "recursive") o
                           || has_prop (js "where") o || has_prop (js "conditions") o in
  mret {|
    pd_simpleMode := negb hasAdvancedFields;
    pd_typeText := typeText;
    pd_logic := if upper_is (js "OR") logic then js "OR" else js "AND";
    pd_recursive := recursive;
    pd_rules := where_rules ++ condition_rules |}.

Definition parsePruneObjectsDraft (valueText : jstr) : idm PruneObjectsDraft :=
  let raw := trim valueText in
  if negb (nonempty raw) then mret (prune_text [])
  else
    match json_parse raw with
    | None => mret (prune_text raw)
    | Some parsed =>
      try_catch
        (match parsed with
         | JStr s => mret (prune_text (trim s))
         | JObj o => prune_object o
         | v => s ← lift (of_exn (trimmed_text v)); mret (prune_text s)
         end)
        (prune_text raw)
    end.

Definition stable_rule (r : PruneRule) : Prop :=
  has CONDITION_MODE_VALUES (pr_mode r) = true ∧ Forall code_unit (pr_path r) ∧ stable_text (pr_value_text r).

Lemma prune_rule_ok r : stable_rule r → json_ok (prune_payload_rule r).
Proof.
  intros (Hm & Hp & Hv). unfold prune_payload_rule. apply props_ok_obj. rewrite Hm, loose_trim.
  repeat (apply props_ok_set_if; [|units|first [by constructor | by apply loose_ok]]).
  apply props_ok_fold; [|apply plain_keys_b; vm_compute; reflexivity].
  apply prop_ok_cons; [units|by apply ok_str, trim_units|].
  apply prop_ok_cons; [units|by apply ok_str, (mode_units CONDITION_MODE_VALUES)|constructor].
Qed.

Lemma blank_value_text s : trim s = [] → toValueText None = trim s.
Proof. by intros ->. Qed.

Lemma prune_rule_reopened r seed :
  stable_rule r →
  ∃ r', normalizePruneRule (prune_payload_rule r) seed = (Ok r', (seed + 1)%N) ∧
    pr_path r' = trim (pr_path r) ∧ prune_payload_rule r' = prune_payload_rule r.
Proof.
  intros (Hm & Hp & Hv). eexists. split; [reflexivity|]. unfold prune_payload_rule, text_prop, mode_prop, is_true.
  cbn [pr_path pr_mode pr_value_text pr_invert pr_pass_missing_key]. get_prop. split; [done|].
  rewrite !Hm, trim_idemp, !loose_trim. unfold str_eqb.
  destruct (decide (trim (pr_value_text r) = [])) as [E|E].
  - rewrite !(bool_decide_eq_true_2 (trim (pr_value_text r) = [])) by done.
    by destruct (pr_invert r), (pr_pass_missing_key r).
  - rewrite !(bool_decide_eq_false_2 (trim (pr_value_text r) = [])) by done. cbn [negb]. rewrite stable_shown by done.
    rewrite bool_decide_eq_false_2 by by apply stable_nonblank.
    by destruct (pr_invert r), (pr_pass_missing_key r).
Qed.

(** The rules that are saved. *)
Definition kept_rules (d : PruneObjectsDraft) : list PruneRule :=
  List.filter (λ rule, nonempty (trim (pr_path rule))) (pd_rules d).

Definition is_or (d : PruneObjectsDraft) : bool := upper_is (js "OR") (str_or (pd_logic d) (js "AND")).

Definition stable_prune (d : PruneObjectsDraft) : Prop :=
  Forall code_unit (pd_typeText d) ∧ Forall stable_rule (kept_rules d).

Lemma prune_payload_ok d : stable_prune d → props_ok (prune_payload d).
Proof.
  intros [Ht Hr]. unfold prune_payload. fold (kept_rules d). cbv zeta.
  assert (props_ok []) as Hnil by (split; [constructor|apply ordered_nil]).
  assert (Forall json_ok (map prune_payload_rule (kept_rules d))) as Hj.
  { apply List.Forall_map. eapply Forall_impl; [exact Hr|]. apply prune_rule_ok. }
  destruct (map prune_payload_rule (kept_rules d)); [|apply props_ok_set; [|units|by constructor]].
  all: repeat (apply props_ok_set_if; [|units|first [by constructor | by apply ok_str, trim_units | unfold lit; constructor; units]]).
  all: done.
Qed.

Lemma rules_reopened rs seed :
  Forall stable_rule rs → Forall (λ r, nonempty (trim (pr_path r)) = true) rs →
  ∃ rs' seed', mapM normalizePruneRule (List.filter is_object (map prune_payload_rule rs)) seed = (Ok rs', seed') ∧
    map prune_payload_rule rs' = map prune_payload_rule rs ∧ Forall (λ r, nonempty (trim (pr_path r)) = true) rs'.
Proof.
  intros H Hn. revert seed. induction H as [|r rs Hr H IH]; intros seed; [by exists [], seed|].
  apply Forall_cons in Hn as [Hn Hns].
  destruct (prune_rule_reopened r seed Hr) as (r' & E1 & Ep & E2).
  destruct (IH Hns (seed + 1)%N) as (rs' & seed' & E3 & E4 & Hn').
  exists (r' :: rs'), seed'. cbn [map List.filter is_object]. split; [by eapply idm_mapM_cons|].
  rewrite E2, E4. split; [done|]. constructor; [by rewrite Ep, trim_idemp|done].
Qed.

Lemma prune_get d k :
  obj_get k (prune_payload d) =
  if str_eqb (js "conditions") k && negb (bool_decide (kept_rules d = [])) then Some (JArr (map prune_payload_rule (kept_rules d)))
  else if negb (pd_recursive d) && str_eqb (js "recursive") k then Some (JBool false)
  else if is_or d && str_eqb (js "logic") k then Some (lit "OR")
  else if nonempty (trim (pd_typeText d)) && str_eqb (js "type") k then Some (JStr (trim (pd_typeText d)))
  else None.
Proof.
  unfold prune_payload. fold (kept_rules d). fold (is_or d). cbv zeta.
  destruct (kept_rules d) as [|r rs]; cbn [map].
  - rewrite bool_decide_eq_true_2 by done. cbn [negb]. by rewrite andb_false_r, !obj_get_set_if.
  - rewrite bool_decide_eq_false_2 by done. cbn [negb]. by rewrite andb_true_r, obj_get_set, !obj_get_set_if.
Qed.

(** What the form shows after a draft was built in advanced mode. *)
Record prune_shown (d d' : PruneObjectsDraft) : Prop := {
  ps_type : pd_typeText d' = trim (pd_typeText d);
  ps_logic : pd_logic d' = if is_or d then js "OR" else js "AND";
  ps_recursive : pd_recursive d' = pd_recursive d;
  ps_rules : map prune_payload_rule (pd_rules d') = map prune_payload_rule (kept_rules d);
  ps_kept : kept_rules d' = pd_rules d';
  ps_simple : pd_simpleMode d' = negb (is_or d) && pd_recursive d && bool_decide (kept_rules d = []);
}.

Lemma filter_id {A} (p : A → bool) l : Forall (λ x, p x = true) l → List.filter p l = l.
Proof. induction 1 as [|x l Hx _ IH]; [done|]. cbn [List.filter]. by rewrite Hx, IH. Qed.

Lemma prune_reread d seed :
  stable_prune d → ∃ d' seed', prune_object (prune_payload d) seed = (Ok d', seed') ∧ prune_shown d d'.
Proof.
  intros [Ht Hr]. unfold prune_object, has_prop. rewrite !prune_get. names. rewrite !andb_true_r, !andb_false_r. cbn [andb].
  destruct (rules_reopened (kept_rules d) seed Hr) as (rs' & seed' & E & Hm & Hk).
  { apply Forall_forall. intros r Hin. apply list_elem_of_In, filter_In in Hin. tauto. }
  rewrite (idm_bind_ok (mret []) _ seed [] seed eq_refl).
  destruct (decide (kept_rules d = [])) as [En|En].
  - rewrite !bool_decide_eq_true_2 by done. cbn [negb].
    rewrite En in E, Hm. cbn in E. injection E as <- <-.
    rewrite (idm_bind_ok (mret []) _ seed [] seed eq_refl).
    destruct (nonempty (trim (pd_typeText d))) eqn:En', (is_or d) eqn:Eo, (pd_recursive d) eqn:Er;
      (eexists _, seed; split; [reflexivity|]; constructor;
       [first [apply trim_idemp | symmetry; by apply nonempty_false]
       |rewrite Eo; done|rewrite Er; done|rewrite En; done|done
       |rewrite Eo, Er, bool_decide_eq_true_2 by done; done]).
  - rewrite !bool_decide_eq_false_2 by done. cbn [negb]. rewrite (idm_bind_ok _ _ _ _ _ E).
    destruct (nonempty (trim (pd_typeText d))) eqn:En', (is_or d) eqn:Eo, (pd_recursive d) eqn:Er;
      (eexists _, seed'; split; [reflexivity|]; constructor;
       [first [apply trim_idemp | symmetry; by apply nonempty_false]
       |rewrite Eo; done|rewrite Er; done|exact Hm|by apply filter_id
       |rewrite Eo, Er, bool_decide_eq_false_2 by done; done]).
Qed.

(** The structured [prune_objects] form: in advanced mode, when the draft has
    a type or a rule with a path, the form shows after a change the type, the
    logic, the recursion and the rules with a path that were built; building what
    is shown again gives the same value text, unless the form has fallen back to
    simple mode, which happens exactly for a bare type. *)
Theorem prune_roundtrip d seed :
  stable_prune d → pd_simpleMode d = false →
  trim (pd_typeText d) ≠ [] ∨ kept_rules d ≠ [] →
  ∃ d' seed', parsePruneObjectsDraft (buildPruneObjectsValueText d) seed = (Ok d', seed') ∧ prune_shown d d' ∧
    (pd_simpleMode d' = false → buildPruneObjectsValueText d' = buildPruneObjectsValueText d).
Proof.
  intros Hs Hd Hne. assert (json_ok (JObj (prune_payload d))) as Hok by by apply props_ok_obj, prune_payload_ok.
  assert (∀ d, trim (pd_typeText d) ≠ [] ∨ kept_rules d ≠ [] →
    lacks (js "type") (prune_payload d) && lacks (js "conditions") (prune_payload d) = false) as Hl.
  { clear. intros d Hne. unfold lacks. rewrite !prune_get. names. cbn [andb]. rewrite !andb_true_r, !andb_false_r.
    destruct (decide (kept_rules d = [])) as [E|E].
    - destruct Hne as [Hne|]; [|done]. pose proof Hne as Hne'. apply nonempty_spec in Hne'.
      rewrite Hne', (bool_decide_eq_true_2 (kept_rules d = [])) by done. cbn [json_truthy]. by rewrite Hne'.
    - rewrite (bool_decide_eq_false_2 (kept_rules d = [])) by done. cbn [negb json_truthy]. by rewrite andb_false_r. }
  destruct (prune_reread d seed Hs) as (d' & seed' & E & Hsh). exists d', seed'. split; [|split; [done|]].
  - unfold parsePruneObjectsDraft, buildPruneObjectsValueText. rewrite Hd. cbv zeta. rewrite Hl by done.
    rewrite stringify_trim, json_parse_stringify by done.
    apply stringify_length in Hok. destruct (stringify _); [cbn in Hok; lia|]. cbn [nonempty negb].
    unfold try_catch. by rewrite E.
  - intros Hd'. unfold buildPruneObjectsValueText. rewrite Hd, Hd'. cbv zeta. destruct Hsh.
    assert (prune_payload d' = prune_payload d) as ->; [|done].
    unfold prune_payload. fold (kept_rules d'). fold (kept_rules d). cbv zeta. fold (is_or d'). fold (is_or d).
    rewrite ps_kept0, ps_rules0, ps_type0, ps_recursive0, trim_idemp.
    assert (is_or d' = is_or d) as ->; [|done]. unfold is_or at 1. rewrite ps_logic0. by destruct (is_or d).
Qed.

(** The advanced switch has no effect while a type is entered: the form shows
    simple mode again. *)
Theorem advanced_switch_ignored x seed :
  Forall code_unit x → trim x = x → x ≠ [] →
  parsePruneObjectsDraft
    (buildPruneObjectsValueText {| pd_simpleMode := false; pd_typeText := x; pd_logic := js "AND";
                                   pd_recursive := true; pd_rules := [] |}) seed
  = (Ok (prune_text x), seed).
Proof.
  intros Hu Ht Hne. unfold buildPruneObjectsValueText, prune_payload.
  cbn [pd_simpleMode pd_typeText pd_logic pd_recursive pd_rules List.filter map negb set_if]. rewrite Ht.
  destruct x as [|c x]; [done|]. cbn [nonempty]. change (upper_is _ _) with false. cbn [set_if].
  assert (json_ok (JObj (obj_set [] (js "type") (JStr (c :: x))))) as Hok.
  { apply props_ok_obj, props_ok_set; [split; [constructor|apply ordered_nil]|units|by constructor]. }
  unfold lacks. rewrite !obj_get_set. names. cbn [json_truthy nonempty negb andb].
  unfold parsePruneObjectsDraft. rewrite stringify_trim, json_parse_stringify by done.
  pose proof (stringify_length _ Hok) as Hlen. destruct (stringify _); [cbn in Hlen; lia|]. cbn [nonempty negb].
  unfold try_catch, prune_object, has_prop. rewrite !obj_get_set. names.
  unfold mbind, idm_bind, lift, of_exn, js_string, mret, idm_ret. cbn [coercible string_of_json exn_bind mbind string_or orb negb app].
  unfold prune_text. by rewrite Ht.
Qed.

(** Adding a rule changes nothing: a new rule has no path, and rules without a
    path are not saved. *)
Theorem added_rule_vanishes d r :
  trim (pr_path r) = [] →
  buildPruneObjectsValueText {| pd_simpleMode := false; pd_typeText := pd_typeText d; pd_logic := pd_logic d;
                                pd_recursive := pd_recursive d; pd_rules := pd_rules d ++ [r] |}
  = buildPruneObjectsValueText {| pd_simpleMode := false; pd_typeText := pd_typeText d; pd_logic := pd_logic d;
                                  pd_recursive := pd_recursive d; pd_rules := pd_rules d |}.
Proof.
  intros Hr. unfold buildPruneObjectsValueText, prune_payload.
  cbn [pd_simpleMode pd_typeText pd_logic pd_recursive pd_rules].
  rewrite List.filter_app. cbn [List.filter]. rewrite Hr. cbn [nonempty]. by rewrite app_nil_r.
Qed.

(** Without a type and without a rule the chosen logic and recursion are lost. *)
Theorem bare_options_lost logic recursive :
  buildPruneObjectsValueText {| pd_simpleMode := false; pd_typeText := []; pd_logic := logic;
                                pd_recursive := recursive; pd_rules := [] |}
  = jq "{'logic':'AND'}".
Proof.
  unfold buildPruneObjectsValueText. cbn [pd_simpleMode]. cbv zeta. unfold lacks. rewrite !prune_get.
  unfold kept_rules. cbn [pd_rules pd_typeText List.filter]. names. rewrite !andb_false_r.
  reflexivity.
Qed.
End prune.

(** ** [sync_fields] targets *)
Lemma index_of_prefix (w : jstr) c s : c ∉ w → index_of [c] (w ++ c :: s) = Some (length w).
Proof.
  induction w as [|d w IH]; intros Hc; cbn [app index_of prefixb length].
  - by rewrite N.eqb_refl.
  - rewrite (proj2 (N.eqb_neq c d)) by set_solver. cbn [andb]. rewrite IH by set_solver. done.
Qed.

(** The target of a synchronised field is read back from the text that was
    built for it: a trimmed non-empty key keeps its text and its type, whatever
    characters it has, and only an empty key is lost. *)
Theorem sync_target_roundtrip `{LowerCase} type key :
  type = js "json" ∨ type = js "header" →
  parseSyncTargetSpec (buildSyncTargetSpec type key) =
  if nonempty (trim key) then {| s_type := type; s_key := trim key |} else {| s_type := js "json"; s_key := [] |}.
Proof.
  intros Ht. unfold buildSyncTargetSpec. destruct (nonempty (trim key)) eqn:E; [|done]. cbn [negb].
  assert (toLowerCase (trim type) = type ∧ trim type = type ∧ (58%N ∉ type) ∧ (∃ c u, type = c :: u ∧ is_ws c = false) ∧
    (if str_eqb type (js "header") then js "header" else js "json") = type) as (Hl & Htt & Hn & (c & u & -> & Hc) & ->).
  { destruct Ht as [-> | ->]; (split; [rewrite toLowerCase_ascii; [done|vm_compute; repeat constructor]|]);
      (split; [done|]); (split; [vm_compute; set_solver|]); (split; [eexists _, _; split; [reflexivity|done]|done]). }
  assert (trim ((c :: u) ++ js ":" ++ trim key) = (c :: u) ++ js ":" ++ trim key) as Htr.
  { apply trim_fix. unfold no_edge_ws. cbn [app head]. rewrite Hc. cbn [negb andb].
    pose proof (trim_no_edge key) as He. destruct (trim key) as [|d k] eqn:Ek; [done|].
    unfold no_edge_ws in He. apply andb_true_iff in He as [_ He].
    replace (last (c :: u ++ js ":" ++ d :: k)) with (last (d :: k)); [done|].
    by rewrite app_assoc, app_comm_cons, last_app_cons. }
  unfold parseSyncTargetSpec. rewrite Htr. change (js ":") with [58%N]. cbn [app nonempty negb].
  rewrite (app_comm_cons u), (index_of_prefix (c :: u) 58) by done.
  rewrite take_app_length, Hl. replace (drop _ _) with (trim key).
  2: { rewrite (cons_middle 58%N), app_assoc. symmetry. apply drop_app_length'. by rewrite length_app. }
  rewrite trim_idemp. by destruct Ht as [-> | ->].
Qed.

(** ** Concrete drafts *)

Definition demo_error : ReturnErrorDraft := {|
  r_message := js " no access "; r_statusCode := num_of_Z 429; r_code := js "rate_limited"; r_type := [];
  r_skipRetry := false; r_simpleMode := false |}.

Lemma return_error_roundtrip_witness :
  parseReturnErrorDraft (buildReturnErrorValueText demo_error) = shown_draft demo_error ∧
  parseReturnErrorDraft (buildReturnErrorValueText (return_error_text (js " no access")))
  = return_error_text (js "no access").
Proof.
  split.
  - apply (return_error_roundtrip demo_error); [|vm_compute; reflexivity|reflexivity].
    split_and!; apply code_units_b; vm_compute; reflexivity.
  - apply (return_error_roundtrip (return_error_text (js " no access"))).
    + split_and!; apply code_units_b; vm_compute; reflexivity.
    + vm_compute. reflexivity.
    + reflexivity.
    + intros o. vm_compute. discriminate.
Defined.

Definition demo_prune : PruneObjectsDraft := {|
  pd_simpleMode := false; pd_typeText := js "thinking "; pd_logic := js "OR"; pd_recursive := false;
  pd_rules := [{| pr_id := js "r"; pr_path := js "content.type"; pr_mode := js "prefix"; pr_value_text := js "redacted";
                  pr_invert := true; pr_pass_missing_key := false |};
               {| pr_id := js "s"; pr_path := js " "; pr_mode := js "full"; pr_value_text := [];
                  pr_invert := false; pr_pass_missing_key := false |}] |}.

Lemma prune_roundtrip_witness :
  ∃ d' seed', parsePruneObjectsDraft (λ _, 17%N) (buildPruneObjectsValueText demo_prune) 4%N = (Ok d', seed') ∧
    prune_shown demo_prune d' ∧
    (pd_simpleMode d' = false → buildPruneObjectsValueText d' = buildPruneObjectsValueText demo_prune).
Proof.
  apply (prune_roundtrip (λ _, 17%N) demo_prune 4%N).
  - split; [apply code_units_b; vm_compute; reflexivity|]. constructor; [|constructor].
    split; [vm_compute; reflexivity|]. split; [apply code_units_b; vm_compute; reflexivity|].
    apply stable_plain; [vm_compute; reflexivity|apply code_units_b; vm_compute; reflexivity].
  - reflexivity.
  - left. vm_compute. discriminate.
Defined.

#[local] Existing Instance ascii_lower_case.

Lemma sync_target_roundtrip_witness :
  parseSyncTargetSpec (buildSyncTargetSpec (js "header") (js " X-A:b "))
  = {| s_type := js "header"; s_key := js "X-A:b" |}.
Proof. exact (sync_target_roundtrip (js "header") (js " X-A:b ") (or_intror eq_refl)). Defined.
