(* ===== verification/ParamEditor.v ===== *)
(** * The parameter override editor: the dialog as a state machine

    The state and the handlers of [ParamOverrideEditorDialog] in
    [param-override-editor-dialog.tsx].  A handler maps the state to the state
    after its [setState] calls and to what it reports ([toast.error], [onSave],
    [onOpenChange]); the counter of local identifiers is threaded by [idm], and an
    uncaught exception is its error.  [settle] is the effect that keeps the
    selection valid after every render.  Rendering itself draws identifiers (the
    argument of [useState], the parsed drafts), so the counter may also advance
    between events.  The theorems are about every reachable state. *)

From S2P Require Import Prelude JsString JsNumber Json JsonPretty ParamOverride ParamRoundtrip ParamDrafts.
From stdpp Require Import list.
From Stdlib Require Import NArith.

(** ** State *)

Record editor := mk_editor {
  editMode : edit_mode;
  visualMode : visual_mode;
  legacyValue : jstr;
  operations : list ParamOverrideOperation;
  jsonText : jstr;
  jsonError : jstr;
  operationSearch : jstr;
  selectedOperationId : jstr;
  expandedConditions : list (jstr * bool);
  draggedOperationId : jstr;
  dragOverOperationId : jstr;
  dragOverPosition : drop_position;
  templatePresetKey : jstr;
}.

Definition setEditMode (x : edit_mode) (e : editor) : editor :=
  mk_editor x (visualMode e) (legacyValue e) (operations e) (jsonText e) (jsonError e) (operationSearch e) (selectedOperationId e) (expandedConditions e) (draggedOperationId e) (dragOverOperationId e) (dragOverPosition e) (templatePresetKey e).

Definition setVisualMode (x : visual_mode) (e : editor) : editor :=
  mk_editor (editMode e) x (legacyValue e) (operations e) (jsonText e) (jsonError e) (operationSearch e) (selectedOperationId e) (expandedConditions e) (draggedOperationId e) (dragOverOperationId e) (dragOverPosition e) (templatePresetKey e).

Definition setLegacyValue (x : jstr) (e : editor) : editor :=
  mk_editor (editMode e) (visualMode e) x (operations e) (jsonText e) (jsonError e) (operationSearch e) (selectedOperationId e) (expandedConditions e) (draggedOperationId e) (dragOverOperationId e) (dragOverPosition e) (templatePresetKey e).

Definition setOperations (x : list ParamOverrideOperation) (e : editor) : editor :=
  mk_editor (editMode e) (visualMode e) (legacyValue e) x (jsonText e) (jsonError e) (operationSearch e) (selectedOperationId e) (expandedConditions e) (draggedOperationId e) (dragOverOperationId e) (dragOverPosition e) (templatePresetKey e).

Definition setJsonText (x : jstr) (e : editor) : editor :=
  mk_editor (editMode e) (visualMode e) (legacyValue e) (operations e) x (jsonError e) (operationSearch e) (selectedOperationId e) (expandedConditions e) (draggedOperationId e) (dragOverOperationId e) (dragOverPosition e) (templatePresetKey e).

Definition setJsonError (x : jstr) (e : editor) : editor :=
  mk_editor (editMode e) (visualMode e) (legacyValue e) (operations e) (jsonText e) x (operationSearch e) (selectedOperationId e) (expandedConditions e) (draggedOperationId e) (dragOverOperationId e) (dragOverPosition e) (templatePresetKey e).

Definition setOperationSearch (x : jstr) (e : editor) : editor :=
  mk_editor (editMode e) (visualMode e) (legacyValue e) (operations e) (jsonText e) (jsonError e) x (selectedOperationId e) (expandedConditions e) (draggedOperationId e) (dragOverOperationId e) (dragOverPosition e) (templatePresetKey e).

Definition setSelectedOperationId (x : jstr) (e : editor) : editor :=
  mk_editor (editMode e) (visualMode e) (legacyValue e) (operations e) (jsonText e) (jsonError e) (operationSearch e) x (expandedConditions e) (draggedOperationId e) (dragOverOperationId e) (dragOverPosition e) (templatePresetKey e).

Definition setExpandedConditions (x : list (jstr * bool)) (e : editor) : editor :=
  mk_editor (editMode e) (visualMode e) (legacyValue e) (operations e) (jsonText e) (jsonError e) (operationSearch e) (selectedOperationId e) x (draggedOperationId e) (dragOverOperationId e) (dragOverPosition e) (templatePresetKey e).

Definition setDraggedOperationId (x : jstr) (e : editor) : editor :=
  mk_editor (editMode e) (visualMode e) (legacyValue e) (operations e) (jsonText e) (jsonError e) (operationSearch e) (selectedOperationId e) (expandedConditions e) x (dragOverOperationId e) (dragOverPosition e) (templatePresetKey e).

Definition setDragOverOperationId (x : jstr) (e : editor) : editor :=
  mk_editor (editMode e) (visualMode e) (legacyValue e) (operations e) (jsonText e) (jsonError e) (operationSearch e) (selectedOperationId e) (expandedConditions e) (draggedOperationId e) x (dragOverPosition e) (templatePresetKey e).

Definition setDragOverPosition (x : drop_position) (e : editor) : editor :=
  mk_editor (editMode e) (visualMode e) (legacyValue e) (operations e) (jsonText e) (jsonError e) (operationSearch e) (selectedOperationId e) (expandedConditions e) (draggedOperationId e) (dragOverOperationId e) x (templatePresetKey e).

Definition setTemplatePresetKey (x : jstr) (e : editor) : editor :=
  mk_editor (editMode e) (visualMode e) (legacyValue e) (operations e) (jsonText e) (jsonError e) (operationSearch e) (selectedOperationId e) (expandedConditions e) (draggedOperationId e) (dragOverOperationId e) (dragOverPosition e) x.

(** What a handler reports to its environment. *)
Inductive report := Toast (message : jstr) | OnSave (text : jstr) | OnOpenChange (open : bool).

(** ** Patches: the fields that a form changes *)

Record operation_patch := {
  up_description : option jstr; up_path : option jstr; up_mode : option jstr; up_from : option jstr;
  up_to : option jstr; up_value_text : option jstr; up_keep_origin : option bool; up_logic : option jstr;
}.

Definition patch_operation (p : operation_patch) (o : ParamOverrideOperation) : ParamOverrideOperation := {|
  o_id := o_id o;
  o_description := default (o_description o) (up_description p);
  o_path := default (o_path o) (up_path p);
  o_mode := default (o_mode o) (up_mode p);
  o_from := default (o_from o) (up_from p);
  o_to := default (o_to o) (up_to p);
  o_value_text := default (o_value_text o) (up_value_text p);
  o_keep_origin := default (o_keep_origin o) (up_keep_origin p);
  o_logic := default (o_logic o) (up_logic p);
  o_conditions := o_conditions o |}.

Record condition_patch := {
  cp_path : option jstr; cp_mode : option jstr; cp_value_text : option jstr;
  cp_invert : option bool; cp_pass_missing_key : option bool;
}.

Definition patch_condition (p : condition_patch) (c : ParamOverrideCondition) : ParamOverrideCondition := {|
  c_id := c_id c;
  c_path := default (c_path c) (cp_path p);
  c_mode := default (c_mode c) (cp_mode p);
  c_value_text := default (c_value_text c) (cp_value_text p);
  c_invert := default (c_invert c) (cp_invert p);
  c_pass_missing_key := default (c_pass_missing_key c) (cp_pass_missing_key p) |}.

Definition patch_rule (p : condition_patch) (r : PruneRule) : PruneRule := {|
  pr_id := pr_id r;
  pr_path := default (pr_path r) (cp_path p);
  pr_mode := default (pr_mode r) (cp_mode p);
  pr_value_text := default (pr_value_text r) (cp_value_text p);
  pr_invert := default (pr_invert r) (cp_invert p);
  pr_pass_missing_key := default (pr_pass_missing_key r) (cp_pass_missing_key p) |}.

Definition with_conditions (f : list ParamOverrideCondition → list ParamOverrideCondition)
    (o : ParamOverrideOperation) : ParamOverrideOperation := {|
  o_id := o_id o; o_description := o_description o; o_path := o_path o; o_mode := o_mode o; o_from := o_from o;
  o_to := o_to o; o_value_text := o_value_text o; o_keep_origin := o_keep_origin o; o_logic := o_logic o;
  o_conditions := f (o_conditions o) |}.

Definition with_value_text (v : jstr) (o : ParamOverrideOperation) : ParamOverrideOperation := {|
  o_id := o_id o; o_description := o_description o; o_path := o_path o; o_mode := o_mode o; o_from := o_from o;
  o_to := o_to o; o_value_text := v; o_keep_origin := o_keep_origin o; o_logic := o_logic o;
  o_conditions := o_conditions o |}.

(** [prev.map((o) => (o.id === id ? f(o) : o))]. *)
Definition map_at (id : jstr) (f : ParamOverrideOperation → ParamOverrideOperation)
    (ops : list ParamOverrideOperation) : list ParamOverrideOperation :=
  map (λ o, if has_id id o then f o else o) ops.

(** [l[0]?.id || '']. *)
Definition first_id (ops : list ParamOverrideOperation) : jstr :=
  match ops with o :: _ => o_id o | [] => [] end.

Definition resetDragState (e : editor) : editor :=
  setDragOverPosition Before (setDragOverOperationId [] (setDraggedOperationId [] e)).

(** ** Handlers that draw no identifier *)

Definition updateOperation (operationId : jstr) (patch : operation_patch) (e : editor) : editor :=
  setOperations (map_at operationId (patch_operation patch) (operations e)) e.

Definition updateCondition (operationId conditionId : jstr) (patch : condition_patch) (e : editor) : editor :=
  setOperations
    (map_at operationId
       (with_conditions (map (λ c, if str_eqb (c_id c) conditionId then patch_condition patch c else c)))
       (operations e)) e.

Definition removeCondition (operationId conditionId : jstr) (e : editor) : editor :=
  setOperations
    (map_at operationId (with_conditions (List.filter (λ c, negb (str_eqb (c_id c) conditionId)))) (operations e)) e.

Definition updateReturnErrorDraft (operationId : jstr) (patch : ReturnErrorDraft → ReturnErrorDraft)
    (e : editor) : editor :=
  setOperations
    (map_at operationId
       (λ op, with_value_text (buildReturnErrorValueText (patch (parseReturnErrorDraft (o_value_text op)))) op)
       (operations e)) e.

Definition handleDragStart (operationId : jstr) (e : editor) : editor :=
  setSelectedOperationId operationId (setDraggedOperationId operationId e).

(** [lower_half]: the pointer is in the lower half of the row. *)
Definition handleDragOver (operationId : jstr) (lower_half : bool) (e : editor) : editor :=
  if negb (nonempty (draggedOperationId e)) || str_eqb (draggedOperationId e) operationId then e
  else setDragOverPosition (if lower_half then After else Before) (setDragOverOperationId operationId e).

(** [data]: the text that the drag event carries. *)
Definition handleDrop (operationId data : jstr) (e : editor) : editor :=
  let sourceId := str_or (draggedOperationId e) data in
  let position := if str_eqb (dragOverOperationId e) operationId then dragOverPosition e else Before in
  resetDragState
    (if nonempty sourceId && nonempty operationId && negb (str_eqb sourceId operationId) then
       setSelectedOperationId sourceId
         (setOperations (reorderOperations (operations e) sourceId operationId position) e)
     else e).

Definition selectedOperation (e : editor) : option ParamOverrideOperation :=
  List.find (has_id (selectedOperationId e)) (operations e).

(** [{...prev, ...map}] for the conditions of the selected operation. *)
Definition set_expanded (b : bool) (e : editor) : editor :=
  match selectedOperation e with
  | None => e
  | Some op =>
    setExpandedConditions (foldl (λ m c, obj_set m (c_id c) b) (expandedConditions e) (o_conditions op)) e
  end.

Definition expandAllConditions : editor → editor := set_expanded true.
Definition collapseAllConditions : editor → editor := set_expanded false.

(** The selection effect. *)
Definition settle (e : editor) : editor :=
  match operations e with
  | [] => setSelectedOperationId [] e
  | o :: _ =>
    if existsb (has_id (selectedOperationId e)) (operations e) then e
    else setSelectedOperationId (o_id o) e
  end.

(** ** Derived values *)

Definition operationCount (e : editor) : nat :=
  length (List.filter (λ o, negb (isOperationBlank o)) (operations e)).

Definition filteredOperations `{LowerCase} (e : editor) : list ParamOverrideOperation :=
  let keyword := toLowerCase (trim (operationSearch e)) in
  if negb (nonempty keyword) then operations e
  else
    List.filter (λ op,
      includes keyword
        (toLowerCase (str_join (js " ")
           (List.filter nonempty [o_description op; o_mode op; o_path op; o_from op; o_to op; o_value_text op]))))
      (operations e).

Definition topOperationModes (e : editor) : list (jstr * nat) :=
  let counts := foldl (λ m op, let mode := str_or (o_mode op) (js "set") in
                       obj_set m mode (S (default 0 (obj_get mode m)))) [] (operations e) in
  take 4 (stable_sort (λ a b, (b.2 <=? a.2)%nat) counts).

Section dialog.
Context (now : N → N) (t : jstr → option N → jstr).
(** [error.message] of a TypeError. *)
Context (type_error_message : jstr).

Definition message_of (e : thrown) : jstr :=
  match e with Error m => m | TypeError => type_error_message end.

(** ** Handlers that draw identifiers *)

Definition load_state (state : EditorState) (e : editor) : editor :=
  mk_editor (e_editMode state) (e_visualMode state) (e_legacyValue state) (e_operations state)
    (e_jsonText state) (e_jsonError state) [] (first_id (e_operations state)) [] [] [] Before
    (match e_visualMode state with LegacyMode => js "legacy_default" | OperationsMode => js "operations_default" end).

(** The effect that runs when the dialog opens. *)
Definition openDialog (value : jstr) (e : editor) : idm editor :=
  state ← parseInitialState now value;
  mret (load_state state e).

Definition addOperation (e : editor) : idm editor :=
  created ← createDefaultOperation now;
  mret (setSelectedOperationId (o_id created) (setOperations (operations e ++ [created]) e)).

(** The argument of [normalizeOperation] for a copy. *)
Definition copy_payload (source : ParamOverrideOperation) : json := JObj
  [(js "description", JStr (o_description source)); (js "path", JStr (o_path source));
   (js "mode", JStr (o_mode source)); (js "value", parseLooseValue (o_value_text source));
   (js "keep_origin", JBool (o_keep_origin source)); (js "from", JStr (o_from source));
   (js "to", JStr (o_to source)); (js "logic", JStr (o_logic source));
   (js "conditions", JArr (map (λ c, JObj
     [(js "path", JStr (c_path c)); (js "mode", JStr (c_mode c)); (js "value", parseLooseValue (c_value_text c));
      (js "invert", JBool (c_invert c)); (js "pass_missing_key", JBool (c_pass_missing_key c))])
     (o_conditions source)))].

(** [eager]: React ran the updater inside [setOperations], before the test of
    [insertedId]; otherwise it runs it when it renders. *)
Definition duplicateOperation (operationId : jstr) (eager : bool) (e : editor) : idm editor :=
  match find_index (has_id operationId) (operations e) with
  | None => mret e
  | Some idx =>
    match operations e !! idx with
    | None => mret e
    | Some source =>
      cloned ← normalizeOperation now (copy_payload source);
      let e' := setOperations (take (S idx) (operations e) ++ [cloned] ++ drop (S idx) (operations e)) e in
      mret (if eager then setSelectedOperationId (o_id cloned) e' else e')
    end
  end.

Definition removeOperation (operationId : jstr) (e : editor) : idm editor :=
  if (length (operations e) <=? 1)%nat then
    o ← createDefaultOperation now; mret (setOperations [o] e)
  else mret (setOperations (List.filter (λ o, negb (has_id operationId o)) (operations e)) e).

Definition addCondition (operationId : jstr) (e : editor) : idm editor :=
  created ← createDefaultCondition now;
  mret (setExpandedConditions (obj_set (expandedConditions e) (c_id created) true)
          (setOperations (map_at operationId (with_conditions (λ cs, cs ++ [created])) (operations e)) e)).

Definition updatePruneObjectsDraft (operationId : jstr) (updater : PruneObjectsDraft → idm PruneObjectsDraft)
    (e : editor) : idm editor :=
  ops ← mapM (λ op,
    if has_id operationId op then
      draft ← parsePruneObjectsDraft now (o_value_text op);
      nextDraft ← updater draft;
      mret (with_value_text (buildPruneObjectsValueText nextDraft) op)
    else mret op) (operations e);
  mret (setOperations ops e).

Definition with_rules (simple : bool) (rules : list PruneRule) (draft : PruneObjectsDraft) : PruneObjectsDraft := {|
  pd_simpleMode := simple; pd_typeText := pd_typeText draft; pd_logic := pd_logic draft;
  pd_recursive := pd_recursive draft; pd_rules := rules |}.

Definition addPruneRule (operationId : jstr) : editor → idm editor :=
  updatePruneObjectsDraft operationId (λ draft,
    r ← normalizePruneRule now (JObj []);
    mret (with_rules false (pd_rules draft ++ [r]) draft)).

Definition updatePruneRule (operationId ruleId : jstr) (patch : condition_patch) : editor → idm editor :=
  updatePruneObjectsDraft operationId (λ draft,
    mret (with_rules (pd_simpleMode draft)
            (map (λ r, if str_eqb (pr_id r) ruleId then patch_rule patch r else r) (pd_rules draft)) draft)).

Definition removePruneRule (operationId ruleId : jstr) : editor → idm editor :=
  updatePruneObjectsDraft operationId (λ draft,
    mret (with_rules (pd_simpleMode draft)
            (List.filter (λ r, negb (str_eqb (pr_id r) ruleId)) (pd_rules draft)) draft)).

(** ** Mode switching, templates and saving *)

(** [!v || typeof v !== 'object' || Array.isArray(v)] is false. *)
Definition as_object (v : json) : option (list (jstr * json)) :=
  match v with JObj o => Some o | _ => None end.

Definition buildVisualJson (e : editor) : res jstr :=
  match visualMode e with
  | LegacyMode =>
    let trimmed := trim (legacyValue e) in
    if negb (nonempty trimmed) then Ok []
    else
      match json_parse trimmed with
      | None => Err (Error (t (js "Parameter override must be valid JSON format") None))
      | Some parsed =>
        match as_object parsed with
        | None => Err (Error (t (js "Legacy format must be a JSON object") None))
        | Some _ => Ok (stringify_pretty parsed)
        end
      end
  | OperationsMode => buildOperationsJson t (operations e) true
  end.

Definition text_of (r : res jstr) : jstr := match r with Ok s => s | Err _ => [] end.

Definition switchToJsonMode (e : editor) : editor * list report :=
  match editMode e with
  | JsonEdit => (e, [])
  | VisualEdit =>
    match buildVisualJson e with
    | Ok text => (setEditMode JsonEdit (setJsonError [] (setJsonText text e)), [])
    | Err error =>
      let text :=
        match visualMode e with
        | LegacyMode => legacyValue e
        | OperationsMode => text_of (buildOperationsJson t (operations e) false)
        end in
      (setEditMode JsonEdit
         (setJsonError (str_or (message_of error) (t (js "Parameter configuration error") None)) (setJsonText text e)),
       [Toast (message_of error)])
    end
  end.

Definition switchToVisualMode (e : editor) : idm (editor * list report) :=
  match editMode e with
  | VisualEdit => mret (e, [])
  | JsonEdit =>
    let trimmed := trim (jsonText e) in
    if negb (nonempty trimmed) then
      fallback ← createDefaultOperation now;
      mret (setEditMode VisualEdit (setJsonError [] (setLegacyValue [] (setSelectedOperationId (o_id fallback)
             (setOperations [fallback] (setVisualMode OperationsMode e))))), [])
    else
      match json_parse trimmed with
      | None => mret (e, [Toast (t (js "Parameter override must be valid JSON format") None)])
      | Some parsed =>
        match as_object parsed with
        | None => mret (e, [Toast (t (js "Parameter override must be a valid JSON object") None)])
        | Some obj =>
          match obj_get (js "operations") obj with
          | Some (JArr l) =>
            nextOps ← operations_or_default now l;
            mret (setTemplatePresetKey (js "operations_default") (setEditMode VisualEdit (setJsonError []
                   (setLegacyValue [] (setSelectedOperationId (first_id nextOps)
                   (setOperations nextOps (setVisualMode OperationsMode e)))))), [])
          | _ =>
            fallback ← createDefaultOperation now;
            mret (setTemplatePresetKey (js "legacy_default") (setEditMode VisualEdit (setJsonError []
                   (setSelectedOperationId (o_id fallback) (setOperations [fallback]
                   (setLegacyValue (stringify_pretty parsed) (setVisualMode LegacyMode e)))))), [])
          end
        end
      end
  end.

Definition operations_default : TemplatePresetConfig :=
  preset (js "New Format Template") KOperations OPERATION_TEMPLATE.

(** The state after a legacy template was filled in. *)
Definition fill_legacy (text : jstr) (e : editor) : idm (editor * list report) :=
  o ← createDefaultOperation now;
  mret (setEditMode VisualEdit (setJsonError [] (setJsonText text (setOperations [o]
         (setLegacyValue text (setVisualMode LegacyMode e))))), []).

Definition fillTemplate (append : bool) (e : editor) : idm (editor * list report) :=
  let preset := default operations_default (obj_get (templatePresetKey e) TEMPLATE_PRESET_CONFIG) in
  let payload := p_payload preset in
  match p_kind preset with
  | KLegacy =>
    match append, visualMode e with
    | true, LegacyMode =>
      let trimmed := trim (legacyValue e) in
      let merge (current : json) :=
        fill_legacy (stringify_pretty (JObj (mk_obj (own_props payload ++ own_props current)))) e in
      if negb (nonempty trimmed) then merge (JObj [])
      else
        match json_parse trimmed with
        | None => mret (e, [Toast (t (js "Current legacy JSON is invalid, cannot append") None)])
        | Some parsedCurrent => merge parsedCurrent
        end
    | _, _ => fill_legacy (stringify_pretty payload) e
    end
  | KOperations =>
    let operationsPayload := match prop (js "operations") payload with Some (JArr l) => l | _ => [] end in
    if append then
      appended ← mapM (normalizeOperation now) operationsPayload;
      let existing :=
        match visualMode e with
        | OperationsMode => List.filter (λ o, negb (isOperationBlank o)) (operations e)
        | LegacyMode => []
        end in
      let nextOps := existing ++ appended in
      mret (setJsonText [] (setEditMode VisualEdit (setJsonError [] (setLegacyValue []
             (setSelectedOperationId (str_or (first_id nextOps) (first_id appended))
             (setOperations nextOps (setVisualMode OperationsMode e)))))), [])
    else
      finalOps ← operations_or_default now operationsPayload;
      mret (setEditMode VisualEdit (setJsonError []
             (setJsonText (stringify_pretty (JObj [(js "operations", JArr operationsPayload)]))
             (setSelectedOperationId (first_id finalOps) (setOperations finalOps (setVisualMode OperationsMode e))))), [])
  end.

Definition resetEditorState (e : editor) : idm editor :=
  fallback ← createDefaultOperation now;
  mret (setEditMode VisualEdit (setTemplatePresetKey (js "operations_default") (setJsonError [] (setJsonText []
         (setSelectedOperationId (o_id fallback) (setOperations [fallback] (setLegacyValue []
         (setVisualMode OperationsMode e)))))))).

Definition handleJsonChange (nextValue : jstr) (e : editor) : editor :=
  let trimmed := trim nextValue in
  setJsonError
    (if negb (nonempty trimmed) then []
     else if verifyJSON trimmed then [] else t (js "JSON format error") None)
    (setJsonText nextValue e).

Definition formatJson (e : editor) : editor * list report :=
  let trimmed := trim (jsonText e) in
  if negb (nonempty trimmed) then (e, [])
  else
    match json_parse trimmed with
    | None => (e, [Toast (t (js "Parameter override must be valid JSON format") None)])
    | Some v => (setJsonError [] (setJsonText (stringify_pretty v) e), [])
    end.

Definition visualValidationError (e : editor) : jstr :=
  match editMode e with
  | JsonEdit => []
  | VisualEdit =>
    match buildVisualJson e with
    | Ok _ => []
    | Err error => str_or (message_of error) (t (js "Parameter configuration error") None)
    end
  end.

(** The text that is saved, or what is thrown. *)
Definition save_text (e : editor) : res jstr :=
  match editMode e with
  | JsonEdit =>
    let trimmed := trim (jsonText e) in
    if negb (nonempty trimmed) then Ok []
    else
      match json_parse trimmed with
      | None => Err (Error (t (js "Parameter override must be valid JSON format") None))
      | Some v => Ok (stringify_pretty v)
      end
  | VisualEdit => buildVisualJson e
  end.

Definition handleSave (e : editor) : list report :=
  match save_text e with
  | Ok result => [OnSave result; OnOpenChange false]
  | Err error => [Toast (message_of error)]
  end.

(** ** Events *)

Inductive action :=
  | UpdateOperation (operationId : jstr) (patch : operation_patch)
  | AddOperation
  | DuplicateOperation (operationId : jstr) (eager : bool)
  | RemoveOperation (operationId : jstr)
  | AddCondition (operationId : jstr)
  | UpdateCondition (operationId conditionId : jstr) (patch : condition_patch)
  | RemoveCondition (operationId conditionId : jstr)
  | UpdateReturnErrorDraft (operationId : jstr) (patch : ReturnErrorDraft → ReturnErrorDraft)
  | UpdatePruneObjectsDraft (operationId : jstr) (patch : PruneObjectsDraft → PruneObjectsDraft)
  | AddPruneRule (operationId : jstr)
  | UpdatePruneRule (operationId ruleId : jstr) (patch : condition_patch)
  | RemovePruneRule (operationId ruleId : jstr)
  | DragStart (operationId : jstr)
  | DragOver (operationId : jstr) (lower_half : bool)
  | Drop (operationId data : jstr)
  | DragEnd
  | SwitchToJsonMode
  | SwitchToVisualMode
  | FillTemplate (append : bool)
  | ResetEditorState
  | JsonChange (nextValue : jstr)
  | FormatJson
  | Save
  | ChangeLegacy (value : jstr)
  | ChangeSearch (value : jstr)
  | ChangePreset (key : jstr)
  | SelectOperation (operationId : jstr)
  | ExpandAll
  | CollapseAll
  | ToggleCondition (conditionId : jstr) (expanded : bool).

Definition silent (m : idm editor) : idm (editor * list report) := e ← m; mret (e, []).

Definition handle (a : action) (e : editor) : idm (editor * list report) :=
  match a with
  | UpdateOperation id p => mret (updateOperation id p e, [])
  | AddOperation => silent (addOperation e)
  | DuplicateOperation id eager => silent (duplicateOperation id eager e)
  | RemoveOperation id => silent (removeOperation id e)
  | AddCondition id => silent (addCondition id e)
  | UpdateCondition id cid p => mret (updateCondition id cid p e, [])
  | RemoveCondition id cid => mret (removeCondition id cid e, [])
  | UpdateReturnErrorDraft id p => mret (updateReturnErrorDraft id p e, [])
  | UpdatePruneObjectsDraft id p => silent (updatePruneObjectsDraft id (λ d, mret (p d)) e)
  | AddPruneRule id => silent (addPruneRule id e)
  | UpdatePruneRule id rid p => silent (updatePruneRule id rid p e)
  | RemovePruneRule id rid => silent (removePruneRule id rid e)
  | DragStart id => mret (handleDragStart id e, [])
  | DragOver id low => mret (handleDragOver id low e, [])
  | Drop id data => mret (handleDrop id data e, [])
  | DragEnd => mret (resetDragState e, [])
  | SwitchToJsonMode => mret (switchToJsonMode e)
  | SwitchToVisualMode => switchToVisualMode e
  | FillTemplate append => fillTemplate append e
  | ResetEditorState => silent (resetEditorState e)
  | JsonChange v => mret (handleJsonChange v e, [])
  | FormatJson => mret (formatJson e)
  | Save => mret (e, handleSave e)
  | ChangeLegacy v => mret (setLegacyValue v e, [])
  | ChangeSearch v => mret (setOperationSearch v e, [])
  | ChangePreset k => mret (setTemplatePresetKey (str_or k (js "operations_default")) e, [])
  | SelectOperation id => mret (setSelectedOperationId id e, [])
  | ExpandAll => mret (expandAllConditions e, [])
  | CollapseAll => mret (collapseAllConditions e, [])
  | ToggleCondition cid expanded => mret (setExpandedConditions (obj_set (expandedConditions e) cid expanded) e, [])
  end.

(** The selects only offer the modes of their option lists. *)
Definition offered (a : action) : Prop :=
  match a with
  | UpdateOperation _ p => match up_mode p with Some m => has OPERATION_MODE_VALUES m = true | None => True end
  | UpdateCondition _ _ p => match cp_mode p with Some m => has CONDITION_MODE_VALUES m = true | None => True end
  | _ => True
  end.

(** The states of an open dialog after its effects, with the counter. *)
Inductive reach : editor → N → Prop :=
  | reach_open value e0 seed e seed' :
      openDialog value e0 seed = (Ok e, seed') → reach (settle e) seed'
  | reach_render e seed seed' : reach e seed → (seed <= seed')%N → reach e seed'
  | reach_event a e seed e' rs seed' :
      reach e seed → offered a → handle a e seed = (Ok (e', rs), seed') → reach (settle e') seed'
  | reach_throw a e seed x seed' :
      reach e seed → handle a e seed = (Err x, seed') → reach e seed'.
End dialog.
