(* ===== verification/ParamSession.v ===== *)
(** * The parameter override editor: properties of every session

    Identifiers of the rows, the invariant of the reachable states of the dialog,
    drag and drop, and what is saved. *)

From S2P Require Import Prelude JsString JsNumber Json JsonPretty ParamOverride ParamRoundtrip ParamDrafts ParamEditor.
From stdpp Require Import list.
From Stdlib Require Import NArith.

(** ** The counter never goes back *)

Definition mono {A} (m : idm A) : Prop := ∀ seed r seed', m seed = (r, seed') → (seed <= seed')%N.

Create HintDb idm_mono.

Lemma mono_ret {A} (x : A) : mono (mret x).
Proof. intros seed r seed' [= <- <-]. lia. Qed.

Lemma mono_lift {A} (m : res A) : mono (lift m).
Proof. intros seed r seed' [= <- <-]. lia. Qed.

Lemma mono_bind {A B} (m : idm A) (f : A → idm B) : mono m → (∀ x, mono (f x)) → mono (m ≫= f).
Proof.
  intros Hm Hf seed r seed'. unfold mbind, idm_bind. destruct (m seed) as [[x|e] seed1] eqn:E; intros H.
  - apply Hm in E. apply Hf in H. lia.
  - injection H as _ <-. by apply Hm in E.
Qed.

Lemma mono_mapM {A B} (f : A → idm B) l : (∀ x, mono (f x)) → mono (mapM f l).
Proof.
  intros Hf. induction l as [|x l IH]; cbn [mapM]; [apply mono_ret|].
  apply mono_bind; [done|]. intros y. apply mono_bind; [done|]. intros k. apply mono_ret.
Qed.

Lemma mono_try {A} (m : idm A) d : mono m → mono (try_catch m d).
Proof.
  intros Hm seed r seed'. unfold try_catch. destruct (m seed) as [[x|e] seed1] eqn:E; intros [= _ <-]; by apply Hm in E.
Qed.

Lemma idm_bind_ext {A B} (m m' : idm A) (f g : A → idm B) seed :
  m seed = m' seed → (∀ x seed', m seed = (Ok x, seed') → f x seed' = g x seed') → (m ≫= f) seed = (m' ≫= g) seed.
Proof.
  intros Hm Hf. unfold mbind, idm_bind. rewrite <- Hm. destruct (m seed) as [[x|e] seed1]; [by apply Hf|done].
Qed.

Lemma idm_mapM_ext {A B} (f g : A → idm B) s0 l seed :
  (∀ x seed, (s0 <= seed)%N → f x seed = g x seed) → (∀ x, mono (f x)) → (s0 <= seed)%N →
  mapM f l seed = mapM g l seed.
Proof.
  intros Hfg Hf. revert seed. induction l as [|x l IH]; intros seed Hs; [done|]. cbn [mapM].
  apply idm_bind_ext; [auto|]. intros y seed1 H%Hf. apply idm_bind_ext; [|done]. apply IH. lia.
Qed.

Lemma mono_next now : mono (nextLocalId now).
Proof. intros seed r seed' [= _ <-]. lia. Qed.

#[export] Hint Resolve mono_ret mono_lift mono_bind mono_mapM mono_try mono_next : idm_mono.

Lemma mono_condition now v : mono (normalizeCondition now v).
Proof. apply mono_bind; [auto with idm_mono|]. intros id. destruct v; auto with idm_mono. Qed.
#[export] Hint Resolve mono_condition : idm_mono.

Lemma mono_operation now v : mono (normalizeOperation now v).
Proof.
  apply mono_bind; [auto with idm_mono|]. intros id.
  destruct v; try apply mono_lift; (apply mono_bind; [apply mono_lift|]; intros logic;
    apply mono_bind; [|intros; apply mono_ret]; destruct (prop _ _) as [[]|]; auto with idm_mono).
Qed.
#[export] Hint Resolve mono_operation : idm_mono.

Lemma mono_rule now v : mono (normalizePruneRule now v).
Proof. apply mono_bind; [auto with idm_mono|]. intros id. destruct v; auto with idm_mono. Qed.
#[export] Hint Resolve mono_rule : idm_mono.

Lemma mono_prune_object now o : mono (prune_object now o).
Proof.
  unfold prune_object, entry_rules. repeat (apply mono_bind; [|intros ?]); repeat case_match; auto with idm_mono.
Qed.

Lemma mono_prune now v : mono (parsePruneObjectsDraft now v).
Proof.
  unfold parsePruneObjectsDraft. cbv zeta. repeat case_match; auto using mono_prune_object with idm_mono;
    apply mono_try; auto using mono_prune_object with idm_mono.
Qed.
#[export] Hint Resolve mono_prune : idm_mono.

Lemma mono_load now l : mono (operations_or_default now l).
Proof. unfold operations_or_default, createDefaultOperation. destruct l; auto with idm_mono. Qed.
#[export] Hint Resolve mono_load : idm_mono.

Section ids.
Context (now : N → N).

Lemma digits_no_underscore n : 95%N ∉ dec n.
Proof.
  intros H. pose proof (dec_digits n) as Hd. rewrite Forall_forall in Hd. by specialize (Hd _ H).
Qed.

Lemma local_id_inj n m : local_id now n = local_id now m → n = m.
Proof.
  assert (∀ k, split_char 95 (local_id now k) = [js "po"; dec (now k); dec k]) as Hs.
  { intros k. unfold local_id. change (js "po_" ++ dec (now k) ++ js "_" ++ dec k)
      with (js "po" ++ 95%N :: dec (now k) ++ 95%N :: dec k).
    rewrite split_char_app by (vm_compute; set_solver). rewrite split_char_app by apply digits_no_underscore.
    by rewrite split_char_none by apply digits_no_underscore. }
  intros H. apply (f_equal (split_char 95)) in H. rewrite !Hs in H. injection H as _ H. by apply dec_inj.
Qed.

(** A block of identifiers drawn between two values of the counter. *)
Definition drawn (s s' : N) (ids : list jstr) : Prop :=
  NoDup ids ∧ Forall (λ id, ∃ n, (s <= n < s')%N ∧ id = local_id now n) ids ∧ (s <= s')%N.

Lemma drawn_nil s : drawn s s [].
Proof. split_and!; [constructor|constructor|lia]. Qed.

Lemma drawn_one s : drawn s (s + 1) [local_id now s].
Proof. split_and!; [apply NoDup_singleton| |lia]. constructor; [|constructor]. exists s. split; [lia|done]. Qed.

Lemma drawn_weaken s0 s s' s1 ids : (s0 <= s)%N → (s' <= s1)%N → drawn s s' ids → drawn s0 s1 ids.
Proof.
  intros ?? (Hn & Hf & ?). split_and!; [done| |lia]. eapply Forall_impl; [exact Hf|].
  intros id (n & ? & ->). exists n. split; [lia|done].
Qed.

Lemma drawn_app s s1 s2 l1 l2 : drawn s s1 l1 → drawn s1 s2 l2 → drawn s s2 (l1 ++ l2).
Proof.
  intros (Hn1 & Hf1 & H1) (Hn2 & Hf2 & H2). split_and!; [|apply Forall_app; split|lia].
  - apply NoDup_app. split_and!; [done| |done]. intros id Hid1 Hid2. rewrite Forall_forall in Hf1, Hf2.
    destruct (Hf1 _ Hid1) as (n & ? & ->), (Hf2 _ Hid2) as (m & ? & E). apply local_id_inj in E. lia.
  - eapply Forall_impl; [exact Hf1|]. intros id (n & ? & ->). exists n. split; [lia|done].
  - eapply Forall_impl; [exact Hf2|]. intros id (n & ? & ->). exists n. split; [lia|done].
Qed.

Lemma drawn_perm s s' l l' : l ≡ₚ l' → drawn s s' l → drawn s s' l'.
Proof. intros E (Hn & Hf & ?). split_and!; [by rewrite <- E|by rewrite <- E|done]. Qed.

Lemma Forall_sublist {A} (P : A → Prop) (l l' : list A) : sublist l' l → Forall P l → Forall P l'.
Proof. induction 1; rewrite ?Forall_cons; naive_solver. Qed.

Lemma drawn_sublist s s' l l' : sublist l' l → drawn s s' l → drawn s s' l'.
Proof. intros E (Hn & Hf & ?). split_and!; [by eapply sublist_NoDup|by eapply Forall_sublist|done]. Qed.

(** ** Drawing rows *)

Definition op_ids (o : ParamOverrideOperation) : list jstr := o_id o :: map c_id (o_conditions o).
Definition all_ids (ops : list ParamOverrideOperation) : list jstr := flat_map op_ids ops.

Definition condition_wf (c : ParamOverrideCondition) : Prop := has CONDITION_MODE_VALUES (c_mode c) = true.
Definition operation_wf (o : ParamOverrideOperation) : Prop := valid_mode o ∧ Forall condition_wf (o_conditions o).

Lemma mode_prop_has s d v : has s d = true → has s (mode_prop s d v) = true.
Proof. intros Hd. unfold mode_prop. repeat case_match; done. Qed.

Lemma next_id_inv {A} (f : jstr → idm A) seed r : (nextLocalId now ≫= f) seed = r → f (local_id now seed) (seed + 1)%N = r.
Proof. done. Qed.

Lemma normalizeCondition_spec v seed c seed' :
  normalizeCondition now v seed = (Ok c, seed') → drawn seed seed' [c_id c] ∧ condition_wf c.
Proof.
  intros H%next_id_inv.
  assert (c_id c = local_id now seed ∧ seed' = (seed + 1)%N ∧ condition_wf c) as (-> & -> & ?).
  { destruct v; [done|..]; injection H as <- <-; (split; [done|]; split; [done|]; by apply mode_prop_has). }
  split; [apply drawn_one|done].
Qed.

Lemma conditions_spec l seed cs seed' :
  mapM (normalizeCondition now) l seed = (Ok cs, seed') → drawn seed seed' (map c_id cs) ∧ Forall condition_wf cs.
Proof.
  revert seed cs. induction l as [|v l IH]; intros seed cs.
  - intros [= <- <-]. split; [apply drawn_nil|constructor].
  - intros (c & seed1 & cs' & H1 & H2 & ->)%idm_mapM_inv. apply normalizeCondition_spec in H1 as [Hd Hw].
    apply IH in H2 as [Hd' Hw']. split; [by apply (drawn_app seed seed1 seed' [c_id c])|by constructor].
Qed.

Lemma normalizeOperation_spec v seed o seed' :
  normalizeOperation now v seed = (Ok o, seed') → drawn seed seed' (op_ids o) ∧ operation_wf o.
Proof.
  intros H%next_id_inv.
  assert (∃ logic cs, of_exn (string_or (prop (js "logic") v) (js "OR")) = Ok logic ∧
    (match prop (js "conditions") v with Some (JArr l) => mapM (normalizeCondition now) l | _ => mret [] end) (seed + 1)%N
      = (Ok cs, seed') ∧
    o_id o = local_id now seed ∧ o_conditions o = cs ∧ o_mode o = mode_prop OPERATION_MODE_VALUES (js "set") v)
    as (logic & cs & _ & Hc & Hi & Hcs & Hm).
  { destruct v; [done|..]; apply idm_bind_inv in H as (logic & seed1 & [= H1 <-] & H);
      apply idm_bind_inv in H as (cs & seed2 & H2 & [= <- <-]); eauto 10. }
  assert (drawn (seed + 1) seed' (map c_id cs) ∧ Forall condition_wf cs) as [Hd Hw].
  { destruct (prop (js "conditions") v) as [[]|]; try (injection Hc as <- <-; split; [apply drawn_nil|constructor]).
    by eapply conditions_spec. }
  unfold op_ids, operation_wf, valid_mode. rewrite Hi, Hcs, Hm.
  split; [apply (drawn_app _ (seed + 1) _ [local_id now seed]); [apply drawn_one|done]|].
  split; [by apply mode_prop_has|done].
Qed.

Lemma operations_spec l seed ops seed' :
  mapM (normalizeOperation now) l seed = (Ok ops, seed') →
  drawn seed seed' (all_ids ops) ∧ Forall operation_wf ops ∧ length ops = length l.
Proof.
  revert seed ops. induction l as [|v l IH]; intros seed ops.
  - intros [= <- <-]. split_and!; [apply drawn_nil|constructor|done].
  - intros (o & seed1 & ops' & H1 & H2 & ->)%idm_mapM_inv. apply normalizeOperation_spec in H1 as [Hd Hw].
    apply IH in H2 as (Hd' & Hw' & Hl). split_and!; [|by constructor|cbn; lia].
    cbn [all_ids flat_map]. by eapply drawn_app.
Qed.

Lemma default_spec seed o seed' :
  createDefaultOperation now seed = (Ok o, seed') → drawn seed seed' (all_ids [o]) ∧ Forall operation_wf [o].
Proof.
  intros [Hd Hw]%normalizeOperation_spec. cbn [all_ids flat_map]. rewrite app_nil_r. split; [done|]. constructor; [done|constructor].
Qed.

Lemma operations_or_default_spec l seed ops seed' :
  operations_or_default now l seed = (Ok ops, seed') →
  drawn seed seed' (all_ids ops) ∧ Forall operation_wf ops ∧ ops ≠ [].
Proof.
  destruct l as [|v l]; cbn [operations_or_default].
  - intros (o & seed1 & H & [= <- <-])%idm_bind_inv. apply default_spec in H as [??]. done.
  - intros (Hd & Hw & Hl)%operations_spec. split_and!; [done|done|]. by intros ->.
Qed.
End ids.

(** ** Lists of operations *)
Lemma find_index_Some {A} (p : A → bool) l i :
  find_index p l = Some i →
  ∃ l1 x l2, l = l1 ++ x :: l2 ∧ length l1 = i ∧ p x = true ∧ Forall (λ y, p y = false) l1.
Proof.
  revert i. induction l as [|x l IH]; intros i; cbn [find_index]; [done|].
  destruct (p x) eqn:E; [intros [= <-]; by exists [], x, l|].
  destruct (find_index p l) as [j|]; [|done]. intros [= <-].
  destruct (IH j eq_refl) as (l1 & y & l2 & -> & <- & Hy & H1). exists (x :: l1), y, l2. split_and!; try done. by constructor.
Qed.

Lemma find_index_hit {A} (p : A → bool) l1 x l2 :
  Forall (λ y, p y = false) l1 → p x = true → find_index p (l1 ++ x :: l2) = Some (length l1).
Proof.
  induction 1 as [|y l1 Hy _ IH]; intros Hx; cbn [app find_index length]; [by rewrite Hx|]. by rewrite Hy, IH.
Qed.

Lemma has_id_spec id o : has_id id o = true ↔ o_id o = id.
Proof. unfold has_id, str_eqb. apply bool_decide_eq_true. Qed.

Lemma has_id_false id o : has_id id o = false ↔ o_id o ≠ id.
Proof. unfold has_id, str_eqb. apply bool_decide_eq_false. Qed.

Lemma splice_out {A} (l1 : list A) x l2 :
  take (length l1) (l1 ++ x :: l2) ++ drop (S (length l1)) (l1 ++ x :: l2) = l1 ++ l2 ∧
  take 1 (drop (length l1) (l1 ++ x :: l2)) = [x].
Proof.
  rewrite take_app_length, drop_app_length. split; [|done].
  by rewrite (cons_middle x), app_assoc, drop_app_length' by (rewrite length_app; cbn; lia).
Qed.

Lemma reorder_perm ops source target position : reorderOperations ops source target position ≡ₚ ops.
Proof.
  unfold reorderOperations. destruct (_ || _); [done|].
  destruct (find_index _ ops) as [i|] eqn:E; [|done].
  apply find_index_Some in E as (l1 & x & l2 & -> & <- & _ & _). destruct (splice_out l1 x l2) as [-> ->].
  destruct (find_index _ (l1 ++ l2)) as [j|]; [|done].
  transitivity (x :: l1 ++ l2); [|by rewrite Permutation_middle].
  generalize (match position with Before => j | After => S j end). intros n. cbn [app].
  rewrite <- Permutation_middle. by rewrite take_drop.
Qed.

(** Dropping one operation onto another moves it next to the other, before or
    after it as indicated, and leaves the order of all the rest alone. *)
Theorem reorder_spec k1 source k2 l1 target l2 position :
  NoDup (map o_id (k1 ++ source :: k2)) → Forall (λ o, o_id o ≠ []) (k1 ++ source :: k2) →
  k1 ++ k2 = l1 ++ target :: l2 →
  reorderOperations (k1 ++ source :: k2) (o_id source) (o_id target) position =
  l1 ++ (match position with Before => [source; target] | After => [target; source] end) ++ l2.
Proof.
  intros Hnd Hne E.
  assert (source :: l1 ++ target :: l2 ≡ₚ k1 ++ source :: k2) as Hp by (by rewrite <- E, Permutation_middle).
  rewrite <- Hp in Hnd, Hne. cbn [map] in Hnd. rewrite map_app in Hnd. cbn [map] in Hnd.
  apply NoDup_cons in Hnd as [Hs Hnd]. apply NoDup_app in Hnd as (_ & Hd & _).
  apply Forall_cons in Hne as [Hsne Hne]. apply Forall_app in Hne as [_ [Htne _]%Forall_cons].
  unfold reorderOperations. rewrite (proj2 (nonempty_spec _) Hsne), (proj2 (nonempty_spec _) Htne). cbn [negb orb].
  assert (o_id source ≠ o_id target) as Hst by (intros Eq; apply Hs; rewrite Eq; set_solver).
  unfold str_eqb. rewrite bool_decide_eq_false_2 by done.
  rewrite find_index_hit.
  - destruct (splice_out k1 source k2) as [-> ->]. rewrite E, find_index_hit.
    + destruct position.
      * by rewrite take_app_length, drop_app_length.
      * replace (l1 ++ target :: l2) with ((l1 ++ [target]) ++ l2) by by rewrite <- app_assoc.
        assert (S (length l1) = length (l1 ++ [target])) as -> by (rewrite length_app; cbn; lia).
        by rewrite take_app_length, drop_app_length, <- app_assoc.
    + apply Forall_forall. intros o Ho. apply has_id_false. intros Eq. apply (Hd (o_id o)); [by apply list_elem_of_fmap_2|].
      rewrite Eq. by left.
    + by apply has_id_spec.
  - apply Forall_forall. intros o Ho. apply has_id_false. intros Eq. apply Hs. rewrite <- Eq.
    replace (map o_id l1 ++ o_id target :: map o_id l2) with (map o_id (k1 ++ k2)) by by rewrite E, map_app.
    apply list_elem_of_fmap_2. set_solver.
  - by apply has_id_spec.
Qed.

(** ** The invariant of the rows *)

Section session.
Context (now : N → N) (t : jstr → option N → jstr) (type_error_message : jstr).

(** There is a row; all identifiers of rows and conditions are distinct and come
    from the counter; all modes are modes of the option lists. *)
Definition rows_ok (seed : N) (ops : list ParamOverrideOperation) : Prop :=
  ops ≠ [] ∧ drawn now 0 seed (all_ids ops) ∧ Forall operation_wf ops.

Lemma rows_render seed seed' ops : (seed <= seed')%N → rows_ok seed ops → rows_ok seed' ops.
Proof. intros Hs (? & Hd & ?). split_and!; [done| |done]. eapply drawn_weaken; [| |exact Hd]; lia. Qed.

Lemma rows_new seed seed' ops :
  drawn now seed seed' (all_ids ops) → Forall operation_wf ops → ops ≠ [] → rows_ok seed' ops.
Proof. intros Hd Hw Hn. split_and!; [done| |done]. eapply drawn_weaken; [| |exact Hd]; lia. Qed.

Lemma rows_default seed o seed' : createDefaultOperation now seed = (Ok o, seed') → rows_ok seed' [o].
Proof. intros [Hd Hw]%default_spec. by eapply rows_new. Qed.

Lemma rows_loaded l seed ops seed' : operations_or_default now l seed = (Ok ops, seed') → rows_ok seed' ops.
Proof. intros (Hd & Hw & Hn)%operations_or_default_spec. by eapply rows_new. Qed.

Lemma all_ids_app l1 l2 : all_ids (l1 ++ l2) = all_ids l1 ++ all_ids l2.
Proof. apply flat_map_app. Qed.

Lemma all_ids_map_at id f ops :
  (∀ o, op_ids (f o) = op_ids o) → all_ids (map_at id f ops) = all_ids ops.
Proof.
  intros Hf. induction ops as [|o ops IH]; [done|]. cbn [map_at map all_ids flat_map] in *.
  f_equal; [destruct (has_id id o); auto|exact IH].
Qed.

Lemma wf_map_at id f ops :
  (∀ o, operation_wf o → operation_wf (f o)) → Forall operation_wf ops → Forall operation_wf (map_at id f ops).
Proof.
  intros Hf H. apply List.Forall_map. eapply Forall_impl; [exact H|]. intros o Ho. cbn beta.
  destruct (has_id id o); auto.
Qed.

Lemma rows_map_at seed id f ops :
  (∀ o, op_ids (f o) = op_ids o) → (∀ o, operation_wf o → operation_wf (f o)) →
  rows_ok seed ops → rows_ok seed (map_at id f ops).
Proof.
  intros Hi Hw (Hn & Hd & Hf). split_and!; [by destruct ops|by rewrite all_ids_map_at|by apply wf_map_at].
Qed.

Lemma rows_perm seed ops ops' : ops' ≡ₚ ops → rows_ok seed ops → rows_ok seed ops'.
Proof.
  intros Hp (Hn & Hd & Hf). split_and!.
  - intros ->. by apply Permutation_nil in Hp.
  - eapply drawn_perm; [|exact Hd]. symmetry. by apply Permutation_flat_map.
  - by rewrite Hp.
Qed.

Lemma rows_app seed seed' ops new :
  ops = [] ∨ rows_ok seed ops → (seed <= seed')%N → drawn now seed seed' (all_ids new) → Forall operation_wf new → new ≠ [] →
  rows_ok seed' (ops ++ new).
Proof.
  intros [->|(Hn & Hd & Hf)] Hs Hd' Hf' Hn'.
  - by eapply rows_new.
  - split_and!; [by destruct ops|rewrite all_ids_app; by eapply drawn_app|by apply Forall_app].
Qed.

Lemma all_ids_filter p ops : sublist (all_ids (List.filter p ops)) (all_ids ops).
Proof.
  induction ops as [|o ops IH]; [done|]. cbn [List.filter]. destruct (p o); cbn [all_ids flat_map].
  - by apply sublist_app.
  - by apply sublist_inserts_l.
Qed.

Lemma rows_filter seed p ops :
  rows_ok seed ops → List.filter p ops ≠ [] → rows_ok seed (List.filter p ops).
Proof.
  intros (Hn & Hd & Hf) Hne. split_and!; [done|eapply drawn_sublist; [apply all_ids_filter|exact Hd]|].
  apply Forall_forall. intros o Ho. apply list_elem_of_In, filter_In in Ho as [Ho _].
  apply (proj1 (Forall_forall _ _) Hf). by apply list_elem_of_In.
Qed.

Lemma ids_nodup ops : NoDup (all_ids ops) → NoDup (map o_id ops).
Proof.
  induction ops as [|o ops IH]; cbn [all_ids flat_map map]; [done|].
  intros (Ho & Hd & Hn)%NoDup_app. constructor; [|by apply IH].
  intros Hin. apply list_elem_of_fmap in Hin as (o' & E & Hin). apply (Hd (o_id o)); [by left|].
  apply list_elem_of_In, in_flat_map. exists o'. split; [by apply list_elem_of_In|]. rewrite E. by left.
Qed.

Lemma rows_nodup seed ops : rows_ok seed ops → NoDup (map o_id ops).
Proof. intros (_ & (Hn & _) & _). by apply ids_nodup. Qed.

(** Removing one of two or more rows leaves a row. *)
Lemma remove_nonempty id ops :
  NoDup (map o_id ops) → 1 < length ops → List.filter (λ o, negb (has_id id o)) ops ≠ [].
Proof.
  destruct ops as [|o1 [|o2 ops]]; cbn [length]; [lia|lia|]. intros Hn _. cbn [map] in Hn.
  apply NoDup_cons in Hn as [Hn _]. cbn [List.filter].
  destruct (has_id id o1) eqn:E1; [|done]. destruct (has_id id o2) eqn:E2; [|done].
  apply has_id_spec in E1, E2. destruct Hn. rewrite E1, E2. by left.
Qed.

(** Adding a condition adds its identifier, if the operation exists. *)
Lemma add_condition_ids id c ops :
  NoDup (map o_id ops) →
  all_ids (map_at id (with_conditions (λ cs, cs ++ [c])) ops) ≡ₚ all_ids ops ++ [c_id c] ∨
  all_ids (map_at id (with_conditions (λ cs, cs ++ [c])) ops) = all_ids ops.
Proof.
  induction ops as [|o ops IH]; [by right|]. intros [Ho Hn]%NoDup_cons. cbn [map_at map all_ids flat_map].
  destruct (has_id id o) eqn:E.
  - left. assert (map (λ o, if has_id id o then with_conditions (λ cs, cs ++ [c]) o else o) ops = ops) as ->.
    { apply has_id_spec in E. rewrite <- (map_id ops) at 2. apply map_ext_in. intros o' Ho'.
      destruct (has_id id o') eqn:E'; [|done]. apply has_id_spec in E'. destruct Ho. rewrite E, <- E'.
      apply list_elem_of_fmap_2. by apply list_elem_of_In. }
    unfold op_ids at 1. cbn [with_conditions o_id o_conditions]. rewrite map_app. cbn [map].
    fold (all_ids ops). change (o_id o :: map c_id (o_conditions o) ++ [c_id c]) with (op_ids o ++ [c_id c]).
    rewrite <- !app_assoc. apply Permutation_app; [done|]. apply Permutation_app_comm.
  - destruct (IH Hn) as [H|H]; [left|right].
    + rewrite <- app_assoc. by apply Permutation_app.
    + by f_equal.
Qed.

(** ** The handlers keep the invariant *)
Lemma silent_inv (m : idm editor) seed e rs seed' :
  silent m seed = (Ok (e, rs), seed') → m seed = (Ok e, seed') ∧ rs = [].
Proof. by intros (e1 & seed1 & H & [= <- <- <-])%idm_bind_inv. Qed.

Lemma patch_operation_wf p o :
  match up_mode p with Some m => has OPERATION_MODE_VALUES m = true | None => True end →
  operation_wf o → operation_wf (patch_operation p o).
Proof.
  intros Hp [Hm Hc]. split; [|done]. unfold valid_mode in *. cbn [patch_operation o_mode].
  by destruct (up_mode p).
Qed.

Lemma patch_condition_wf p cid o :
  match cp_mode p with Some m => has CONDITION_MODE_VALUES m = true | None => True end →
  operation_wf o →
  operation_wf (with_conditions (map (λ c, if str_eqb (c_id c) cid then patch_condition p c else c)) o).
Proof.
  intros Hp [Hm Hc]. split; [done|]. cbn [with_conditions o_conditions]. apply List.Forall_map.
  eapply Forall_impl; [exact Hc|]. intros c Hcw. cbn beta. destruct (str_eqb _ _); [|done].
  unfold condition_wf in *. cbn [patch_condition c_mode]. by destruct (cp_mode p).
Qed.

Lemma filter_sublist_ids (p : ParamOverrideCondition → bool) l : sublist (map c_id (List.filter p l)) (map c_id l).
Proof. induction l as [|c l IH]; [done|]. cbn [List.filter map]. destruct (p c); by constructor. Qed.

Lemma remove_condition_ids id p ops :
  sublist (all_ids (map_at id (with_conditions (List.filter p)) ops)) (all_ids ops).
Proof.
  induction ops as [|o ops IH]; [done|]. cbn [map_at map all_ids flat_map]. apply sublist_app; [|exact IH].
  destruct (has_id id o); [|done]. constructor. apply filter_sublist_ids.
Qed.

Lemma prune_update_inv id updater ops seed ops' seed' :
  mapM (λ op, if has_id id op then
      draft ← parsePruneObjectsDraft now (o_value_text op);
      nextDraft ← updater draft;
      mret (with_value_text (buildPruneObjectsValueText nextDraft) op)
    else mret op) ops seed = (Ok ops', seed') →
  all_ids ops' = all_ids ops ∧ (Forall operation_wf ops → Forall operation_wf ops') ∧ length ops' = length ops.
Proof.
  revert seed ops'. induction ops as [|o ops IH]; intros seed ops'.
  - by intros [= <- <-].
  - intros (o' & seed1 & l' & H1 & H2 & ->)%idm_mapM_inv. apply IH in H2 as (Hi & Hw & Hl).
    assert (op_ids o' = op_ids o ∧ (operation_wf o → operation_wf o')) as [Hi' Hw'].
    { destruct (has_id id o); [|by injection H1 as <- <-].
      apply idm_bind_inv in H1 as (d & seed2 & _ & H1). apply idm_bind_inv in H1 as (d' & seed3 & _ & [= <- _]). done. }
    cbn [all_ids flat_map length]. split_and!; [f_equal; done| |lia].
    intros [Ho Hos]%Forall_cons. constructor; auto.
Qed.

Lemma prune_update_rows id updater e seed e' seed' :
  (∀ d, mono (updater d)) → rows_ok seed (operations e) →
  updatePruneObjectsDraft now id updater e seed = (Ok e', seed') → rows_ok seed' (operations e').
Proof.
  intros Hu (Hn & Hd & Hf) (ops & seed1 & H & [= <- <-])%idm_bind_inv.
  assert ((seed <= seed1)%N).
  { revert H. apply mono_mapM. intros o. destruct (has_id id o); auto with idm_mono. }
  apply prune_update_inv in H as (Hi & Hw & Hl). cbn [setOperations operations].
  split_and!; [intros ->; by destruct (operations e)| |auto]. rewrite Hi. eapply drawn_weaken; [| |exact Hd]; lia.
Qed.

Lemma add_condition_rows id e seed e' seed' :
  rows_ok seed (operations e) → addCondition now id e seed = (Ok e', seed') → rows_ok seed' (operations e').
Proof.
  intros Hr (c & seed1 & H & [= <- <-])%idm_bind_inv. apply normalizeCondition_spec in H as [Hc Hw].
  pose proof (rows_nodup _ _ Hr) as Hnd. destruct Hr as (Hn & Hd & Hf).
  cbn [setExpandedConditions setOperations operations]. split_and!; [by destruct (operations e)| |].
  - destruct (add_condition_ids id c (operations e) Hnd) as [E|E].
    + eapply drawn_perm; [symmetry; exact E|]. by eapply drawn_app.
    + rewrite E. destruct Hc as (_ & _ & ?). eapply drawn_weaken; [| |exact Hd]; lia.
  - apply wf_map_at; [|done]. intros o [Hm Hcs]. split; [done|]. apply Forall_app. split; [done|]. by constructor.
Qed.

Lemma duplicate_rows id eager e seed e' seed' :
  rows_ok seed (operations e) → duplicateOperation now id eager e seed = (Ok e', seed') → rows_ok seed' (operations e').
Proof.
  intros Hr. unfold duplicateOperation. destruct (find_index _ _) as [i|]; [|by intros [= <- <-]].
  destruct (operations e !! i) as [source|]; [|by intros [= <- <-]].
  intros (cloned & seed1 & H & [= <- <-])%idm_bind_inv. apply normalizeOperation_spec in H as [Hd Hw].
  assert (rows_ok seed1 (operations e ++ [cloned])) as Hr'.
  { eapply rows_app; [right; exact Hr|by destruct Hd as (_ & _ & ?)| | |done].
    - cbn [all_ids flat_map]. by rewrite app_nil_r.
    - constructor; [done|constructor]. }
  assert (take (S i) (operations e) ++ [cloned] ++ drop (S i) (operations e) ≡ₚ operations e ++ [cloned]) as Hp.
  { cbn [app]. rewrite <- Permutation_middle, take_drop. apply Permutation_cons_append. }
  destruct eager; eapply rows_perm; [exact Hp|exact Hr'|exact Hp|exact Hr'].
Qed.

Lemma fill_legacy_rows text e seed e' rs seed' :
  fill_legacy now text e seed = (Ok (e', rs), seed') → rows_ok seed' (operations e').
Proof. intros (o & seed1 & H & [= <- <- <-])%idm_bind_inv. by eapply rows_default. Qed.

Lemma template_operations k p l :
  obj_get k TEMPLATE_PRESET_CONFIG = Some p → p_kind p = KOperations →
  (match prop (js "operations") (p_payload p) with Some (JArr l) => l | _ => [] end) = l → l ≠ [].
Proof.
  intros Hk Hp. apply obj_get_elem in Hk.
  set (ops := λ p, match prop (js "operations") (p_payload p) with Some (JArr l) => l | _ => [] end).
  assert (forallb (λ kv, match p_kind kv.2, ops kv.2 with KOperations, [] => false | _, _ => true end)
    TEMPLATE_PRESET_CONFIG = true) as H by (vm_compute; reflexivity).
  rewrite forallb_Forall, Forall_forall in H. specialize (H _ Hk). cbn [snd] in H. rewrite Hp in H.
  fold (ops p). intros <- E. by rewrite E in H.
Qed.

Lemma fill_template_rows append e seed e' rs seed' :
  rows_ok seed (operations e) → fillTemplate now t append e seed = (Ok (e', rs), seed') →
  rows_ok seed' (operations e').
Proof.
  intros Hr. unfold fillTemplate. cbv zeta.
  set (p := default operations_default (obj_get (templatePresetKey e) TEMPLATE_PRESET_CONFIG)).
  set (l := match prop (js "operations") (p_payload p) with Some (JArr l) => l | _ => [] end).
  assert (p_kind p = KOperations → l ≠ []) as Hl.
  { subst l p. destruct (obj_get _ _) as [p|] eqn:E; cbn [default]; [|done]. intros Hk. by eapply template_operations. }
  destruct (p_kind p).
  - specialize (Hl eq_refl). destruct append.
    + intros (new & seed1 & H & [= <- <- <-])%idm_bind_inv. cbn.
      pose proof H as Hs. apply mono_mapM in Hs; [|auto with idm_mono].
      apply operations_spec in H as (Hd & Hw & Hlen). apply (rows_app seed); try done.
      * destruct (visualMode e); [|by left].
        destruct (List.filter _ (operations e)) as [|o ops] eqn:E; [by left|right]. rewrite <- E.
        apply rows_filter; [done|by rewrite E].
      * intros ->. by destruct l.
    + intros (ops & seed1 & H & [= <- <- <-])%idm_bind_inv. by eapply rows_loaded.
  - assert (∀ text, fill_legacy now text e seed = (Ok (e', rs), seed') → rows_ok seed' (operations e'))
      as Hfill by (intros; by eapply fill_legacy_rows).
    destruct append; [destruct (visualMode e)|]; [apply Hfill| |apply Hfill].
    destruct (negb _); [apply Hfill|]. destruct (json_parse _); [apply Hfill|by intros [= <- <- <-]].
Qed.

Lemma visual_rows e seed e' rs seed' :
  rows_ok seed (operations e) → switchToVisualMode now t e seed = (Ok (e', rs), seed') → rows_ok seed' (operations e').
Proof.
  intros Hr. unfold switchToVisualMode. destruct (editMode e); [by intros [= <- <- <-]|]. cbv zeta.
  destruct (negb _).
  { intros (o & seed1 & H & [= <- <- <-])%idm_bind_inv. by eapply rows_default. }
  destruct (json_parse _) as [v|]; [|by intros [= <- <- <-]].
  destruct (as_object v) as [o|]; [|by intros [= <- <- <-]].
  destruct (obj_get _ o) as [[]|].
  all: intros (y & seed1 & H & [= <- <- <-])%idm_bind_inv; first [by eapply rows_default | by eapply rows_loaded].
Qed.

Lemma handle_rows a e seed e' rs seed' :
  rows_ok seed (operations e) → offered a →
  handle now t type_error_message a e seed = (Ok (e', rs), seed') → rows_ok seed' (operations e').
Proof.
  intros Hr Ho. destruct a; cbn [handle]; try (by intros [= <- <- <-]).
  - intros [= <- <- <-]. apply rows_map_at; [done| |done]. intros o. by apply patch_operation_wf.
  - intros [(o & seed1 & H & [= <- <-])%idm_bind_inv _]%silent_inv. cbn. pose proof H as Hs. apply mono_operation in Hs.
    apply default_spec in H as [Hd Hw]. eapply rows_app; try done. by right.
  - intros [H _]%silent_inv. by eapply duplicate_rows.
  - intros [H _]%silent_inv. unfold removeOperation in H. destruct (_ <=? 1)%nat eqn:E.
    + apply idm_bind_inv in H as (o & seed1 & H & [= <- <-]). by eapply rows_default.
    + injection H as <- <-. apply rows_filter; [done|]. apply remove_nonempty; [by eapply rows_nodup|].
      by apply Nat.leb_gt in E.
  - intros [H _]%silent_inv. by eapply add_condition_rows.
  - intros [= <- <- <-]. apply rows_map_at; [|intros o; by apply patch_condition_wf|done].
    intros o. unfold op_ids. cbn. rewrite map_map. f_equal. apply map_ext. intros c. by destruct (str_eqb _ _).
  - intros [= <- <- <-]. destruct Hr as (Hn & Hd & Hf). split_and!; cbn.
    + by destruct (operations e).
    + eapply drawn_sublist; [apply remove_condition_ids|done].
    + apply wf_map_at; [|done]. intros o [Hm Hc]. split; [done|]. cbn. apply Forall_forall. intros c Hin.
      apply list_elem_of_In, filter_In in Hin as [Hin _]. apply (proj1 (Forall_forall _ _) Hc). by apply list_elem_of_In.
  - intros [= <- <- <-]. by apply rows_map_at.
  - intros [H _]%silent_inv. eapply prune_update_rows; [|done|exact H]. intros d. apply mono_ret.
  - intros [H _]%silent_inv. eapply prune_update_rows; [|done|exact H]. intros d. apply mono_bind; auto with idm_mono.
  - intros [H _]%silent_inv. eapply prune_update_rows; [|done|exact H]. intros d. apply mono_ret.
  - intros [H _]%silent_inv. eapply prune_update_rows; [|done|exact H]. intros d. apply mono_ret.
  - intros [= <- <- <-]. unfold handleDragOver. by destruct (_ || _).
  - intros [= <- <- <-]. unfold handleDrop. cbv zeta. destruct (_ && _); [|done]. cbn.
    eapply rows_perm; [apply reorder_perm|done].
  - intros [= H <-]. revert H. unfold switchToJsonMode. destruct (editMode e); [|by intros [= <- <-]].
    destruct (buildVisualJson _ _); by intros [= <- <-].
  - by apply visual_rows.
  - by apply fill_template_rows.
  - intros [(o & seed1 & H & [= <- <-])%idm_bind_inv _]%silent_inv. by eapply rows_default.
  - intros [= H <-]. revert H. unfold formatJson. cbv zeta. destruct (negb _); [by intros [= <- <-]|].
    destruct (json_parse _); by intros [= <- <-].
  - intros [= <- <- <-]. unfold expandAllConditions, set_expanded. by destruct (selectedOperation e).
  - intros [= <- <- <-]. unfold collapseAllConditions, set_expanded. by destruct (selectedOperation e).
Qed.

Lemma mono_default : mono (createDefaultOperation now).
Proof. apply mono_operation. Qed.

Lemma mono_silent m : mono m → mono (silent m).
Proof. intros H. apply mono_bind; [done|]. intros e. apply mono_ret. Qed.

Lemma mono_update_prune id updater e : (∀ d, mono (updater d)) → mono (updatePruneObjectsDraft now id updater e).
Proof.
  intros Hu. apply mono_bind; [|intros; apply mono_ret]. apply mono_mapM. intros o.
  destruct (has_id id o); [|apply mono_ret]. apply mono_bind; [apply mono_prune|]. intros d.
  apply mono_bind; [apply Hu|]. intros d'. apply mono_ret.
Qed.

Lemma mono_fill_legacy text e : mono (fill_legacy now text e).
Proof. apply mono_bind; [apply mono_default|]. intros o. apply mono_ret. Qed.

Lemma mono_fill append e : mono (fillTemplate now t append e).
Proof.
  unfold fillTemplate. cbv zeta. destruct (p_kind _), append.
  - apply mono_bind; [apply mono_mapM, mono_operation|]. intros ops. apply mono_ret.
  - apply mono_bind; [apply mono_load|]. intros ops. apply mono_ret.
  - destruct (visualMode e); [apply mono_fill_legacy|]. destruct (negb _); [apply mono_fill_legacy|].
    destruct (json_parse _); [apply mono_fill_legacy|apply mono_ret].
  - apply mono_fill_legacy.
Qed.

Lemma mono_visual e : mono (switchToVisualMode now t e).
Proof.
  unfold switchToVisualMode. cbv zeta. destruct (editMode e); [apply mono_ret|].
  destruct (negb _); [apply mono_bind; [apply mono_default|intros; apply mono_ret]|].
  destruct (json_parse _) as [v|]; [|apply mono_ret]. destruct (as_object v) as [o|]; [|apply mono_ret].
  destruct (obj_get _ o) as [[]|]; (apply mono_bind; [first [apply mono_load | apply mono_default]|intros; apply mono_ret]).
Qed.

Lemma mono_handle a e : mono (handle now t type_error_message a e).
Proof.
  destruct a; cbn [handle]; try apply mono_ret; try (apply mono_silent); try apply mono_visual; try apply mono_fill.
  - apply mono_bind; [apply mono_default|]. intros o. apply mono_ret.
  - unfold duplicateOperation. destruct (find_index _ _) as [i|]; [|apply mono_ret].
    destruct (operations e !! i); [|apply mono_ret]. apply mono_bind; [apply mono_operation|]. intros o. apply mono_ret.
  - unfold removeOperation. destruct (_ <=? 1)%nat; [|apply mono_ret]. apply mono_bind; [apply mono_default|]. intros o. apply mono_ret.
  - apply mono_bind; [apply mono_condition|]. intros c. apply mono_ret.
  - apply mono_update_prune. intros d. apply mono_ret.
  - apply mono_update_prune. intros d. apply mono_bind; [apply mono_rule|]. intros r. apply mono_ret.
  - apply mono_update_prune. intros d. apply mono_ret.
  - apply mono_update_prune. intros d. apply mono_ret.
  - apply mono_bind; [apply mono_default|]. intros o. apply mono_ret.
Qed.

Lemma open_rows value e0 seed e seed' :
  openDialog now value e0 seed = (Ok e, seed') → rows_ok seed' (operations e).
Proof.
  intros (st & seed1 & H & [= <- <-])%idm_bind_inv. cbn [load_state operations]. revert H.
  unfold parseInitialState. cbv zeta.
  destruct (negb _); [|destruct (json_parse _) as [v|]; [destruct v as [| | | | |o]; [..|destruct (obj_get _ o) as [[]|]]|]].
  all: intros (y & seed2 & H & [= <- <-])%idm_bind_inv; first [by eapply rows_default | by eapply rows_loaded].
Qed.

Lemma settle_operations e : operations (settle e) = operations e.
Proof. unfold settle. destruct (operations e) eqn:E; [by cbn|]. by destruct (existsb _ _). Qed.

Lemma find_existsb {A} (p : A → bool) l : existsb p l = true → ∃ x, List.find p l = Some x.
Proof. induction l as [|x l IH]; cbn; [done|]. destruct (p x); [eauto|apply IH]. Qed.

Lemma settle_selected e : operations e ≠ [] → ∃ o, selectedOperation (settle e) = Some o.
Proof.
  intros Hn. unfold selectedOperation. rewrite settle_operations. unfold settle.
  destruct (operations e) as [|o ops] eqn:E; [done|]. destruct (existsb _ (o :: ops)) eqn:Ex.
  - by apply find_existsb.
  - cbn [setSelectedOperationId selectedOperationId List.find]. rewrite (proj2 (has_id_spec (o_id o) o)) by done. eauto.
Qed.

(** C5: in every state the dialog can reach, there is at least one operation, all
    rows and conditions have distinct identifiers of the counter, every operation
    and condition has a mode of its option list, and the selected operation
    exists. *)
Theorem editor_safe e seed :
  reach now t type_error_message e seed →
  operations e ≠ [] ∧ NoDup (all_ids (operations e)) ∧
  Forall (λ id, ∃ n, (n < seed)%N ∧ id = local_id now n) (all_ids (operations e)) ∧
  Forall operation_wf (operations e) ∧ ∃ o, selectedOperation e = Some o.
Proof.
  intros Hr. assert (rows_ok seed (operations e) ∧ ∃ o, selectedOperation e = Some o) as [(Hn & (Hd & Hf & _) & Hw) Hs].
  { induction Hr as [value e0 seed e seed' H|e seed seed' Hr [IH Hs] Hle|a e seed e' rs seed' Hr [IH Hs] Ho H|a e seed x seed' Hr [IH Hs] H].
    - apply open_rows in H. rewrite settle_operations. split; [done|]. apply settle_selected, H.
    - split; [by eapply rows_render|done].
    - apply handle_rows in H; [|done|done]. rewrite settle_operations. split; [done|]. apply settle_selected, H.
    - apply mono_handle in H. split; [by eapply rows_render|done]. }
  split_and!; try done. eapply Forall_impl; [exact Hf|]. intros id (n & ? & ->). exists n. split; [lia|done].
Qed.

(** ** Saving *)
Lemma build_document ops v text :
  buildOperationsJson t ops v = Ok text → text = [] ∨ ∃ o, text = stringify_pretty (JObj o).
Proof.
  unfold buildOperationsJson. cbv zeta. destruct (List.filter _ _) as [|o l]; [intros [= <-]; by left|].
  destruct (if v then _ else _) as [m|]; cbn [mbind res_bind]; [|done].
  destruct (nonempty m); [done|]. intros [= <-]. right. eauto.
Qed.

(** The dialog saves the empty text or the indented text of a JSON value, an
    object whenever it saves from a visual mode; otherwise it reports one error and
    stays open. *)
Theorem save_reports e :
  (∃ text, handleSave t type_error_message e = [OnSave text; OnOpenChange false] ∧
    (text = [] ∨ (∃ v, text = stringify_pretty v) ∧ (editMode e = VisualEdit → ∃ o, text = stringify_pretty (JObj o)))) ∨
  ∃ message, handleSave t type_error_message e = [Toast message].
Proof.
  unfold handleSave. destruct (save_text t e) as [text|err] eqn:E; [|eauto]. left. exists text. split; [done|]. revert E.
  unfold save_text. destruct (editMode e).
  - intros H. assert (text = [] ∨ ∃ o, text = stringify_pretty (JObj o)) as [->|[o ->]]; [|by left|right; eauto].
    revert H. unfold buildVisualJson. destruct (visualMode e); [apply build_document|]. cbv zeta.
    destruct (negb _); [intros [= <-]; by left|]. destruct (json_parse _) as [v|]; [|done].
    destruct v; cbn [as_object]; try done. intros [= <-]. eauto.
  - cbv zeta. destruct (negb _); [intros [= <-]; by left|]. destruct (json_parse _) as [v|]; [|done].
    intros [= <-]. right. split; [eauto|done].
Qed.

(** In the visual modes the error shown below the form is exactly the reason
    why saving would fail: it is empty when and only when the dialog saves, and
    otherwise it is the message that saving reports (or the fallback text when
    that message is empty). *)
Theorem banner_matches_save e :
  (∀ key line, t key line ≠ []) → editMode e = VisualEdit →
  (visualValidationError t type_error_message e = [] ↔
   ∃ text, handleSave t type_error_message e = [OnSave text; OnOpenChange false]) ∧
  (∀ message, handleSave t type_error_message e = [Toast message] →
   visualValidationError t type_error_message e = str_or message (t (js "Parameter configuration error") None)).
Proof.
  intros Ht He. unfold visualValidationError, handleSave, save_text. rewrite He.
  destruct (buildVisualJson t e) as [text|err]; (split; [|by intros m [= <-]]); [by split; [eauto|]|].
  split; [|by intros [text [=]]]. unfold str_or. destruct (nonempty _) eqn:E; intros H.
  - by rewrite H in E.
  - by destruct (Ht _ _ H).
Qed.

(** C7: switching a validated list of operations to the JSON text and back, with
    value texts that are not reinterpreted, changes nothing that is saved: the
    text mode shows exactly what would be saved, and so does the visual mode after
    switching back. *)
Theorem mode_switch_roundtrip e seed text :
  (∀ key line, t key line ≠ []) → editMode e = VisualEdit → visualMode e = OperationsMode →
  Forall stable_operation (shown (operations e)) →
  save_text t e = Ok text → text ≠ [] →
  let e1 := (switchToJsonMode t type_error_message e).1 in
  jsonText e1 = text ∧ save_text t e1 = Ok text ∧
  ∃ e2 rs seed', switchToVisualMode now t e1 seed = (Ok (e2, rs), seed') ∧ rs = [] ∧
    editMode e2 = VisualEdit ∧ visualMode e2 = OperationsMode ∧ save_text t e2 = Ok text.
Proof.
  intros Ht He Hv Hs Hsave Hne. unfold save_text in Hsave. rewrite He in Hsave. pose proof Hsave as Hb.
  unfold buildVisualJson in Hb. rewrite Hv in Hb.
  destruct (reopen_saved now t Ht _ _ seed Hs Hb Hne) as (st & seed' & Hp & _ & _ & _ & _ & Hr & Hb').
  assert (Forall valid_mode (shown (operations e))) as Hm by (eapply Forall_impl; [exact Hs|]; by intros o []).
  destruct (build_ok_inv t Ht _ _ Hm Hb Hne) as (Hsh & _ & ->).
  unfold switchToJsonMode. rewrite He, Hsave. cbn [fst]. cbv zeta. split; [done|].
  pose proof (document_ok _ Hs) as Hok. revert Hp. unfold parseInitialState. cbv zeta.
  unfold save_text at 1, switchToVisualMode. cbn [editMode jsonText setEditMode setJsonError setJsonText].
  rewrite pretty_object_trim, json_parse_pretty by done.
  destruct (pretty_nonblank 0 _ Hok) as (c & u & Ec & _).
  replace (nonempty (stringify_pretty _)) with true by (unfold stringify_pretty; by rewrite Ec). cbn [negb as_object obj_get]. names.
  intros (ops & seed1 & H & [= <- <-])%idm_bind_inv. split; [done|].
  rewrite (idm_bind_ok _ _ _ _ _ H). eexists _, _, _. split; [reflexivity|].
  cbn. split_and!; try done.
Qed.

(** ** Rules of the prune form *)

Definition drawn_since (seed : N) (r : PruneRule) : Prop := ∃ n, (seed <= n)%N ∧ pr_id r = local_id now n.

Lemma since_weaken seed seed' r : (seed <= seed')%N → drawn_since seed' r → drawn_since seed r.
Proof. intros ? (n & ? & ?). exists n. split; [lia|done]. Qed.

Lemma rule_since v seed r seed' : normalizePruneRule now v seed = (Ok r, seed') → drawn_since seed r.
Proof. intros H%next_id_inv. exists seed. split; [lia|]. by destruct v; [done|..]; injection H as <- <-. Qed.

Lemma rules_since {A} (f : A → json) l seed rs seed' :
  mapM (λ x, normalizePruneRule now (f x)) l seed = (Ok rs, seed') → Forall (drawn_since seed) rs.
Proof.
  revert seed rs. induction l as [|x l IH]; intros seed rs.
  - intros [= <- <-]. constructor.
  - intros (r & seed1 & rs' & H1 & H2 & ->)%idm_mapM_inv. pose proof H1 as Hs. apply mono_rule in Hs.
    apply rule_since in H1. apply IH in H2. constructor; [done|].
    eapply Forall_impl; [exact H2|]. intros r'. by apply since_weaken.
Qed.

Lemma prune_draft_since v seed d seed' :
  parsePruneObjectsDraft now v seed = (Ok d, seed') → Forall (drawn_since seed) (pd_rules d).
Proof.
  unfold parsePruneObjectsDraft. cbv zeta. destruct (negb _); [by intros [= <- <-]|].
  destruct (json_parse _) as [w|]; [|by intros [= <- <-]]. unfold try_catch.
  destruct w as [| | | | |o]; try (by intros [= <- <-]).
  - match goal with |- match ?m with _ => _ end = _ → _ => destruct m as [[x|err] seed1] eqn:E end;
      intros [= <- <-]; [|constructor].
    by apply idm_bind_inv in E as (y & seed2 & _ & [= <- <-]).
  - destruct (prune_object now o seed) as [[x|err] seed1] eqn:E; intros [= <- <-]; [|constructor].
    unfold prune_object in E. apply idm_bind_inv in E as (r1 & s1 & H1 & E). apply idm_bind_inv in E as (r2 & s2 & H2 & E).
    apply idm_bind_inv in E as (ty & s3 & _ & E). apply idm_bind_inv in E as (lg & s4 & _ & [= <- <-]).
    cbn [pd_rules]. apply Forall_app. split.
    + destruct (obj_get (js "where") o) as [[]|]; try (injection H1 as <- <-; constructor). by apply (rules_since _ _ _ _ _ H1).
    + assert ((seed <= s1)%N) as Hs.
      { revert H1. unfold entry_rules. destruct (obj_get (js "where") o) as [[]|]; first [apply mono_ret | apply mono_mapM; auto with idm_mono]. }
      assert (Forall (drawn_since s1) r2) as Hr.
      { destruct (obj_get (js "conditions") o) as [[]|]; try (injection H2 as <- <-; constructor).
        - exact (rules_since id _ _ _ _ H2).
        - by apply (rules_since _ _ _ _ _ H2). }
      eapply Forall_impl; [exact Hr|]. intros r. by apply since_weaken.
Qed.

Lemma since_other seed r n : drawn_since seed r → (n < seed)%N → str_eqb (pr_id r) (local_id now n) = false.
Proof.
  intros (m & Hm & E) Hn. unfold str_eqb. apply bool_decide_eq_false. rewrite E. intros Eq%local_id_inj. lia.
Qed.

Lemma update_prune_ext id f g e seed :
  (∀ v s d s', (seed <= s)%N → parsePruneObjectsDraft now v s = (Ok d, s') → f d = g d) → (∀ d, mono (f d)) →
  updatePruneObjectsDraft now id f e seed = updatePruneObjectsDraft now id g e seed.
Proof.
  intros Hfg Hf. unfold updatePruneObjectsDraft. apply idm_bind_ext; [|done].
  apply (idm_mapM_ext _ _ seed); [| |lia].
  - intros o s Hs. destruct (has_id id o); [|done]. apply idm_bind_ext; [done|]. intros d s' E.
    by rewrite (Hfg _ _ _ _ Hs E).
  - intros o. destruct (has_id id o); [|apply mono_ret]. apply mono_bind; [apply mono_prune|]. intros d.
    apply mono_bind; [done|]. intros d'. apply mono_ret.
Qed.

(** The rule editors and the delete buttons of the prune form have no effect: the
    handlers parse the draft again, which numbers its rules afresh, so no rule has
    the identifier of a rule that was shown before. *)
Theorem prune_rule_edits_ignored operationId n patch e seed :
  (n < seed)%N →
  updatePruneRule now operationId (local_id now n) patch e seed
  = updatePruneObjectsDraft now operationId (λ draft, mret draft) e seed ∧
  removePruneRule now operationId (local_id now n) e seed
  = updatePruneObjectsDraft now operationId (λ draft, mret draft) e seed.
Proof.
  intros Hn. split; (apply update_prune_ext; [|intros; apply mono_ret]);
    intros v s d s' Hs H%prune_draft_since; f_equal; destruct d as [sm ty lg rc rs]; cbn [with_rules pd_simpleMode pd_typeText pd_logic pd_recursive pd_rules] in *; unfold with_rules;
    cbn [pd_simpleMode pd_typeText pd_logic pd_recursive pd_rules]; f_equal.
  - rewrite <- (map_id rs) at 2. apply map_ext_in. intros r Hr%list_elem_of_In.
    rewrite (since_other s); [done| |lia]. by apply (proj1 (Forall_forall _ _) H).
  - apply filter_id. eapply Forall_impl; [exact H|]. intros r Hr. by rewrite (since_other s) by (done || lia).
Qed.
End session.

(** ** A concrete session *)

Definition demo_start : editor :=
  mk_editor VisualEdit OperationsMode [] [] [] [] [] [] [] [] [] Before (js "operations_default").

Definition demo_now (n : N) : N := (1700 + n)%N.

(** The dialog is opened on a stored text, an operation is added and the first
    one is removed. *)
Definition demo_text : jstr := stringify_pretty GEMINI_IMAGE_4K_TEMPLATE.

Definition demo_opened : editor :=
  match openDialog demo_now demo_text demo_start 3%N with (Ok e, _) => settle e | _ => demo_start end.

Definition demo_added : editor :=
  match handle demo_now demo_t [] AddOperation demo_opened 7%N with (Ok (e, _), _) => settle e | _ => demo_start end.

Definition demo_removed : editor :=
  match handle demo_now demo_t [] (RemoveOperation (local_id demo_now 3%N)) demo_added 10%N with
  | (Ok (e, _), _) => settle e | _ => demo_start end.

Lemma editor_safe_witness :
  operations demo_removed ≠ [] ∧ NoDup (all_ids (operations demo_removed)) ∧
  Forall (λ id, ∃ n, (n < 10)%N ∧ id = local_id demo_now n) (all_ids (operations demo_removed)) ∧
  Forall operation_wf (operations demo_removed) ∧ ∃ o, selectedOperation demo_removed = Some o.
Proof.
  apply (editor_safe demo_now demo_t [] demo_removed 10%N).
  refine (reach_event demo_now demo_t [] (RemoveOperation (local_id demo_now 3%N)) demo_added 10%N _ _ 10%N _ I _);
    [|vm_compute; reflexivity].
  refine (reach_render demo_now demo_t [] demo_added 8%N 10%N _ ltac:(lia)).
  refine (reach_event demo_now demo_t [] AddOperation demo_opened 7%N _ _ 8%N _ I _); [|vm_compute; reflexivity].
  refine (reach_open demo_now demo_t [] demo_text demo_start 3%N _ 7%N _). vm_compute. reflexivity.
Defined.

Lemma banner_matches_save_witness :
  visualValidationError demo_t [] demo_removed = [] ∧
  ∃ text, handleSave demo_t [] demo_removed = [OnSave text; OnOpenChange false].
Proof.
  assert (visualValidationError demo_t [] demo_removed = []) as H by (vm_compute; reflexivity).
  split; [exact H|]. refine (proj1 (proj1 (banner_matches_save demo_t [] demo_removed ltac:(done) _)) H).
  vm_compute. reflexivity.
Defined.

Definition demo_dialog : editor :=
  mk_editor VisualEdit OperationsMode [] demo_operations [] [] [] (js "a") [] [] [] Before (js "operations_default").

Lemma mode_switch_roundtrip_witness :
  ∃ text, save_text demo_t demo_dialog = Ok text ∧
  let e1 := (switchToJsonMode demo_t [] demo_dialog).1 in
  jsonText e1 = text ∧ save_text demo_t e1 = Ok text ∧
  ∃ e2 rs seed', switchToVisualMode demo_now demo_t e1 5%N = (Ok (e2, rs), seed') ∧ rs = [] ∧
    editMode e2 = VisualEdit ∧ visualMode e2 = OperationsMode ∧ save_text demo_t e2 = Ok text.
Proof.
  eexists. split; [vm_compute; reflexivity|].
  apply (mode_switch_roundtrip demo_now demo_t [] demo_dialog 5%N).
  - done.
  - reflexivity.
  - reflexivity.
  - exact demo_stable.
  - vm_compute. reflexivity.
  - done.
Defined.

Lemma reorder_spec_witness :
  reorderOperations [demo_set; demo_blank; demo_copy] (js "a") (js "b") After = [demo_blank; demo_copy; demo_set].
Proof.
  apply (reorder_spec [] demo_set [demo_blank; demo_copy] [demo_blank] demo_copy [] After).
  - refine (bool_decide_eq_true_1 _ _). vm_compute. reflexivity.
  - repeat constructor; done.
  - reflexivity.
Defined.
