(* ===== verification/ChannelForm.v ===== *)
(** * The channel form

    Model of [web/default/src/features/channels/lib/channel-form.ts]: what the form
    shows of a stored channel, the checks on its JSON fields, and the payloads that
    create and update a channel.  The values that the form takes over from a stored
    JSON text without checking their type are JSON values here too.  An optional
    text that is undefined is the empty text: the code reads every one of them
    through [|| ''], [|| null] or [?.trim()], which do not tell the two apart. *)

From S2P Require Import Prelude JsString JsNumber Json ParamRoundtrip.
From stdpp Require Import list.
From Stdlib Require Import NArith ZArith SpecFloat.

(** ** Checks of JSON fields *)

(** [None] is undefined; [Throw] the SyntaxError. *)
Definition parseOptionalJson (value : jstr) : exn (option json) :=
  if negb (nonempty (trim value)) then Ret None
  else v ← or_throw (json_parse value); Ret (Some v).

Definition isJsonObjectValue (value : json) : bool := match value with JObj _ => true | _ => false end.

(** [try { ... } catch { return false }] around a test of the parsed value. *)
Definition checked (value : jstr) (test : json → bool) : bool :=
  match parseOptionalJson value with
  | Ret None => true
  | Ret (Some parsed) => test parsed
  | Throw => false
  end.

Definition isOptionalJsonObject (value : jstr) : bool := checked value isJsonObjectValue.

Definition isOptionalModelMapping (value : jstr) : bool :=
  checked value (λ parsed,
    match parsed with
    | JObj o => forallb (λ kv, match kv.2 with JStr _ => true | _ => false end) o
    | _ => false
    end).

(** [Number.isInteger(x) && x >= 100 && x <= 599]. *)
Definition http_code (x : num) : bool :=
  match num_to_Z x with Some z => ((100 <=? z) && (z <=? 599))%Z | None => false end.

(** [every] stops at the first entry that fails, so a later conversion that would
    throw makes no difference to the result. *)
Definition isOptionalStatusCodeMapping (value : jstr) : bool :=
  checked value (λ parsed,
    match parsed with
    | JObj o =>
      forallb (λ kv, match number_of_json kv.2 with
                     | Some toCode => http_code (to_number kv.1) && http_code toCode
                     | None => false
                     end) o
    | _ => false
    end).

(** [typeof v === 'string' && v.trim().length > 0]. *)
Definition nonblank_text (v : option json) : bool :=
  match v with Some (JStr s) => nonempty (trim s) | _ => false end.

Definition isCodexCredential (value : jstr) : bool :=
  checked value (λ parsed,
    isJsonObjectValue parsed && nonblank_text (prop (js "access_token") parsed)
    && nonblank_text (prop (js "account_id") parsed)).

Definition isVertexJsonKey (value : jstr) : bool :=
  checked value (λ parsed,
    match parsed with
    | JArr l => forallb isJsonObjectValue l
    | _ => isJsonObjectValue parsed
    end).

(** The preprocessing of an optional positive integer: [None] is undefined. *)
Definition optionalPositiveIntField (value : option json) : option json :=
  match value with
  | None | Some JNull => None
  | Some (JStr s) => let trimmed := trim s in if nonempty trimmed then Some (JNum (to_number trimmed)) else None
  | Some v => Some v
  end.

(** ** Values of the form *)

Record ChannelFormValues := {
  f_name : jstr;
  f_type : num;
  f_base_url : jstr;
  f_key : jstr;
  f_openai_organization : jstr;
  f_models : jstr;
  f_group : list jstr;
  f_model_mapping : jstr;
  f_priority : option num;
  f_weight : option num;
  f_test_model : jstr;
  f_auto_ban : option num;
  f_status : num;
  f_status_code_mapping : jstr;
  f_tag : jstr;
  f_remark : jstr;
  f_setting : jstr;
  f_param_override : jstr;
  f_header_override : jstr;
  f_settings : jstr;
  f_other : jstr;
  f_multi_key_mode : jstr;
  f_multi_key_type : jstr;
  f_batch_add_set_key_prefix_2_name : bool;
  f_key_mode : jstr;
  f_force_format : json;
  f_thinking_to_content : json;
  f_proxy : json;
  f_pass_through_body_enabled : json;
  f_system_prompt : json;
  f_system_prompt_override : json;
  f_non_stream_timeout_seconds : option num;
  f_stream_first_byte_timeout_seconds : option num;
  f_aws_invoke_timeout_seconds : option num;
  f_aws_sdk_max_attempts : option num;
  f_is_enterprise_account : bool;
  f_vertex_key_type : json;
  f_aws_key_type : json;
  f_azure_responses_version : json;
  f_allow_service_tier : bool;
  f_disable_store : bool;
  f_allow_safety_identifier : bool;
  f_allow_include_obfuscation : bool;
  f_allow_inference_geo : bool;
  f_allow_speed : bool;
  f_claude_beta_query : bool;
  f_upstream_model_update_check_enabled : bool;
  f_upstream_model_update_auto_sync_enabled : bool;
  f_upstream_model_update_ignored_models : jstr;
}.

Definition CHANNEL_STATUS_ENABLED : num := num_of_Z 1.

Definition CHANNEL_FORM_DEFAULT_VALUES : ChannelFormValues := {|
  f_name := []; f_type := num_of_Z 1; f_base_url := []; f_key := []; f_openai_organization := [];
  f_models := []; f_group := [js "default"]; f_model_mapping := []; f_priority := Some nzero;
  f_weight := Some nzero; f_test_model := []; f_auto_ban := Some (num_of_Z 1); f_status := CHANNEL_STATUS_ENABLED;
  f_status_code_mapping := []; f_tag := []; f_remark := []; f_setting := []; f_param_override := [];
  f_header_override := []; f_settings := js "{}"; f_other := []; f_multi_key_mode := js "single";
  f_multi_key_type := js "random"; f_batch_add_set_key_prefix_2_name := false; f_key_mode := js "append";
  f_force_format := JBool false; f_thinking_to_content := JBool false; f_proxy := JStr [];
  f_pass_through_body_enabled := JBool false; f_system_prompt := JStr []; f_system_prompt_override := JBool false;
  f_non_stream_timeout_seconds := None; f_stream_first_byte_timeout_seconds := None;
  f_aws_invoke_timeout_seconds := None; f_aws_sdk_max_attempts := None; f_is_enterprise_account := false;
  f_vertex_key_type := JStr (js "json"); f_aws_key_type := JStr (js "ak_sk"); f_azure_responses_version := JStr [];
  f_allow_service_tier := false; f_disable_store := false; f_allow_safety_identifier := false;
  f_allow_include_obfuscation := false; f_allow_inference_geo := false; f_allow_speed := false;
  f_claude_beta_query := false; f_upstream_model_update_check_enabled := false;
  f_upstream_model_update_auto_sync_enabled := false; f_upstream_model_update_ignored_models := [] |}.

(** [type === n]. *)
Definition is_type (ty : num) (n : Z) : bool := num_eqb ty (num_of_Z n).

Definition is_type_of (ty : num) (l : list Z) : bool := existsb (is_type ty) l.

(** The cross-field checks: the issues as (path, message) pairs, in order. *)
Definition superRefine (d : ChannelFormValues) : list (jstr * jstr) :=
  let batch := nonempty (f_multi_key_mode d) && negb (str_eqb (f_multi_key_mode d) (js "single")) in
  let vertex_is m := match f_vertex_key_type d with JStr s => str_eqb s m | _ => false end in
  let has_key := nonempty (trim (f_key d)) in
  let issue (b : bool) (path message : jstr) := if b then [(path, message)] else [] in
  issue (is_type_of (f_type d) [3; 8; 36; 45]%Z && negb (nonempty (trim (f_base_url d))))
    (js "base_url") (js "Base URL is required for this channel type")
  ++ issue (is_type_of (f_type d) [3; 18; 21; 39; 41; 49]%Z && negb (nonempty (trim (f_other d))))
    (js "other") (js "This channel type requires additional configuration")
  ++ (if is_type (f_type d) 57 then
        issue batch (js "multi_key_mode") (js "Codex channels do not support batch creation")
        ++ issue (has_key && negb (isCodexCredential (f_key d)))
             (js "key") (js "Codex credential must be a JSON object with access_token and account_id")
      else [])
  ++ issue (is_type (f_type d) 41 && vertex_is (js "json") && has_key && negb (isVertexJsonKey (f_key d)))
    (js "key") (js "Vertex AI service account key must be valid JSON")
  ++ issue (is_type (f_type d) 41 && vertex_is (js "api_key") && batch)
    (js "multi_key_mode") (js "Vertex AI API Key mode does not support batch creation").

(** ** A stored channel: the fields that the form uses; [None] is null *)

Record Channel := {
  ch_name : jstr;
  ch_type : num;
  ch_base_url : option jstr;
  ch_openai_organization : option jstr;
  ch_models : jstr;
  ch_group : jstr;
  ch_model_mapping : option jstr;
  ch_priority : option num;
  ch_weight : option num;
  ch_test_model : option jstr;
  ch_auto_ban : option num;
  ch_status : num;
  ch_status_code_mapping : option jstr;
  ch_tag : option jstr;
  ch_remark : jstr;
  ch_setting : option jstr;
  ch_param_override : option jstr;
  ch_header_override : option jstr;
  ch_settings : jstr;
  ch_other : jstr;
  ch_multi_key_mode : jstr;
}.

(** [v || d]. *)
Definition json_or (v : option json) (d : json) : json :=
  match v with Some w => if json_truthy w then w else d | None => d end.

(** [typeof v === 'number' ? v : undefined]. *)
Definition number_prop (k : jstr) (v : json) : option num :=
  match prop k v with Some (JNum x) => Some x | _ => None end.

Definition true_prop (k : jstr) (v : json) : bool :=
  match prop k v with Some (JBool b) => b | _ => false end.

(** The [setting] text: [JNull] stands for the defaults, since reading a property of
    null throws and leaves them. *)
Definition parsed_or_null (text : jstr) : json :=
  match text with [] => JNull | _ => default JNull (json_parse text) end.

Definition parseGroups (groups : jstr) : list jstr :=
  if negb (nonempty groups) then []
  else List.filter nonempty (map trim (split_char 44 groups)).

Definition formatGroups (groups : list jstr) : jstr := str_join (js ",") groups.

Definition parseModels (models : jstr) : list jstr :=
  if negb (nonempty models) then []
  else List.filter nonempty (map trim (split_char 44 models)).

Definition formatModels (models : list jstr) : jstr := str_join (js ",") models.

(** [parsed.k.join(',')]; a throw is caught and leaves the empty text. *)
Definition joined_prop (k : jstr) (v : json) : jstr :=
  match prop k v with
  | Some (JArr l) => if coercible (JArr l) then string_of_json (JArr l) else []
  | _ => []
  end.

Definition num_or_zero (x : option num) : num := match x with Some x => num_or0 x | None => nzero end.

Definition transformChannelToFormDefaults (channel : Channel) : ChannelFormValues :=
  let extra := parsed_or_null (default [] (ch_setting channel)) in
  let other := parsed_or_null (ch_settings channel) in {|
  f_name := ch_name channel;
  f_type := ch_type channel;
  f_base_url := default [] (ch_base_url channel);
  f_key := [];
  f_openai_organization := default [] (ch_openai_organization channel);
  f_models := ch_models channel;
  f_group := parseGroups (str_or (ch_group channel) (js "default"));
  f_model_mapping := default [] (ch_model_mapping channel);
  f_priority := Some (num_or_zero (ch_priority channel));
  f_weight := Some (num_or_zero (ch_weight channel));
  f_test_model := default [] (ch_test_model channel);
  f_auto_ban := Some (default (num_of_Z 1) (ch_auto_ban channel));
  f_status := ch_status channel;
  f_status_code_mapping := default [] (ch_status_code_mapping channel);
  f_tag := default [] (ch_tag channel);
  f_remark := ch_remark channel;
  f_setting := default [] (ch_setting channel);
  f_param_override := default [] (ch_param_override channel);
  f_header_override := default [] (ch_header_override channel);
  f_settings := str_or (ch_settings channel) (js "{}");
  f_other := ch_other channel;
  f_multi_key_mode := js "single";
  f_multi_key_type := str_or (ch_multi_key_mode channel) (js "random");
  f_batch_add_set_key_prefix_2_name := false;
  f_key_mode := js "append";
  f_force_format := json_or (prop (js "force_format") extra) (JBool false);
  f_thinking_to_content := json_or (prop (js "thinking_to_content") extra) (JBool false);
  f_proxy := json_or (prop (js "proxy") extra) (JStr []);
  f_pass_through_body_enabled := json_or (prop (js "pass_through_body_enabled") extra) (JBool false);
  f_system_prompt := json_or (prop (js "system_prompt") extra) (JStr []);
  f_system_prompt_override := json_or (prop (js "system_prompt_override") extra) (JBool false);
  f_non_stream_timeout_seconds := number_prop (js "non_stream_timeout_seconds") extra;
  f_stream_first_byte_timeout_seconds := number_prop (js "stream_first_byte_timeout_seconds") extra;
  f_aws_invoke_timeout_seconds := number_prop (js "aws_invoke_timeout_seconds") extra;
  f_aws_sdk_max_attempts := number_prop (js "aws_sdk_max_attempts") extra;
  f_is_enterprise_account := true_prop (js "openrouter_enterprise") other;
  f_vertex_key_type := json_or (prop (js "vertex_key_type") other) (JStr (js "json"));
  f_aws_key_type := json_or (prop (js "aws_key_type") other) (JStr (js "ak_sk"));
  f_azure_responses_version := json_or (prop (js "azure_responses_version") other) (JStr []);
  f_allow_service_tier := true_prop (js "allow_service_tier") other;
  f_disable_store := true_prop (js "disable_store") other;
  f_allow_safety_identifier := true_prop (js "allow_safety_identifier") other;
  f_allow_include_obfuscation := true_prop (js "allow_include_obfuscation") other;
  f_allow_inference_geo := true_prop (js "allow_inference_geo") other;
  f_allow_speed := true_prop (js "allow_speed") other;
  f_claude_beta_query := true_prop (js "claude_beta_query") other;
  f_upstream_model_update_check_enabled := true_prop (js "upstream_model_update_check_enabled") other;
  f_upstream_model_update_auto_sync_enabled := true_prop (js "upstream_model_update_auto_sync_enabled") other;
  f_upstream_model_update_ignored_models := joined_prop (js "upstream_model_update_ignored_models") other |}.

(** ** Stored JSON texts *)

Definition buildSettingJSON (d : ChannelFormValues) : jstr :=
  stringify (JObj (fields
    [(js "force_format", Some (json_or (Some (f_force_format d)) (JBool false)));
     (js "thinking_to_content", Some (json_or (Some (f_thinking_to_content d)) (JBool false)));
     (js "proxy", Some (json_or (Some (f_proxy d)) (JStr [])));
     (js "pass_through_body_enabled", Some (json_or (Some (f_pass_through_body_enabled d)) (JBool false)));
     (js "system_prompt", Some (json_or (Some (f_system_prompt d)) (JStr [])));
     (js "system_prompt_override", Some (json_or (Some (f_system_prompt_override d)) (JBool false)));
     (js "non_stream_timeout_seconds", JNum <$> f_non_stream_timeout_seconds d);
     (js "stream_first_byte_timeout_seconds", JNum <$> f_stream_first_byte_timeout_seconds d);
     (js "aws_invoke_timeout_seconds", JNum <$> f_aws_invoke_timeout_seconds d);
     (js "aws_sdk_max_attempts", JNum <$> f_aws_sdk_max_attempts d)])).

Definition MODEL_FETCHABLE_TYPES : list Z :=
  [1; 4; 14; 17; 20; 23; 24; 25; 26; 27; 31; 34; 35; 40; 42; 43; 47; 48]%Z.

(** [if (b) o[k] = v else if (k in o) delete o[k]]. *)
Definition set_or_delete (b : bool) (k : jstr) (v : json) (o : list (jstr * json)) : list (jstr * json) :=
  if b then obj_set o k v else obj_delete k o.

(** The settings that belong to one or two channel types. *)
Definition type_settings (d : ChannelFormValues) (o : list (jstr * json)) : list (jstr * json) :=
  let t n := is_type (f_type d) n in
  let o := set_or_delete (t 41%Z) (js "vertex_key_type") (json_or (Some (f_vertex_key_type d)) (JStr (js "json"))) o in
  let o := set_or_delete (t 3%Z && json_truthy (f_azure_responses_version d))
             (js "azure_responses_version") (f_azure_responses_version d) o in
  let o := set_or_delete (t 20%Z) (js "openrouter_enterprise") (JBool (f_is_enterprise_account d)) o in
  let o := set_or_delete (t 33%Z) (js "aws_key_type") (json_or (Some (f_aws_key_type d)) (JStr (js "ak_sk"))) o in
  let o := set_or_delete (t 1%Z || t 14%Z) (js "allow_service_tier") (JBool (f_allow_service_tier d)) o in
  let o :=
    if t 1%Z then
      let o := obj_set o (js "disable_store") (JBool (f_disable_store d)) in
      let o := obj_set o (js "allow_safety_identifier") (JBool (f_allow_safety_identifier d)) in
      let o := obj_set o (js "allow_include_obfuscation") (JBool (f_allow_include_obfuscation d)) in
      obj_set o (js "allow_inference_geo") (JBool (f_allow_inference_geo d))
    else
      let o := obj_delete (js "disable_store") o in
      let o := obj_delete (js "allow_safety_identifier") o in
      let o := obj_delete (js "allow_include_obfuscation") o in
      if negb (t 14%Z) then obj_delete (js "allow_inference_geo") o else o in
  if t 14%Z then
    let o := obj_set o (js "allow_inference_geo") (JBool (f_allow_inference_geo d)) in
    let o := obj_set o (js "allow_speed") (JBool (f_allow_speed d)) in
    obj_set o (js "claude_beta_query") (JBool (f_claude_beta_query d))
  else obj_delete (js "claude_beta_query") (obj_delete (js "allow_speed") o).

Definition ignored_models (d : ChannelFormValues) : list jstr :=
  dedup (List.filter nonempty (map trim (split_char 44 (f_upstream_model_update_ignored_models d)))).

(** The settings of the check for new upstream models. *)
Definition upstream_settings (d : ChannelFormValues) (o : list (jstr * json)) : list (jstr * json) :=
  if is_type_of (f_type d) MODEL_FETCHABLE_TYPES then
    let check := f_upstream_model_update_check_enabled d in
    let o := obj_set o (js "upstream_model_update_check_enabled") (JBool check) in
    let o := obj_set o (js "upstream_model_update_auto_sync_enabled")
               (JBool (check && f_upstream_model_update_auto_sync_enabled d)) in
    let o := obj_set o (js "upstream_model_update_ignored_models") (JArr (map JStr (ignored_models d))) in
    let is_array := match obj_get (js "upstream_model_update_last_detected_models") o with Some (JArr _) => true | _ => false end in
    let o := if negb is_array || negb check then obj_set o (js "upstream_model_update_last_detected_models") (JArr []) else o in
    match obj_get (js "upstream_model_update_last_check_time") o with
    | Some (JNum _) => o
    | _ => obj_set o (js "upstream_model_update_last_check_time") (JNum nzero)
    end
  else o.

(** The settings that were stored: an unreadable text counts as no settings. *)
Definition stored_settings (d : ChannelFormValues) : json :=
  if nonempty (f_settings d) && negb (str_eqb (f_settings d) (js "{}"))
  then default (JObj []) (json_parse (f_settings d)) else JObj [].

(** The named properties of an array are not part of its text; [in] on null and
    other primitive values throws. *)
Definition buildSettingsJSON (d : ChannelFormValues) : exn jstr :=
  match stored_settings d with
  | JObj o => Ret (stringify (JObj (upstream_settings d (type_settings d o))))
  | JArr l => Ret (stringify (JArr l))
  | _ => Throw
  end.

(** ** Payloads *)

(** [.replace(/\/+$/, '')]. *)
Fixpoint drop_slashes (s : jstr) : jstr :=
  match s with
  | c :: s' => if (c =? 47)%N then drop_slashes s' else s
  | [] => []
  end.

Definition normalizeBaseUrl (value : jstr) : jstr := reverse (drop_slashes (reverse (trim value))).

(** [s || null]. *)
Definition text_or_null (s : jstr) : json := if nonempty s then JStr s else JNull.

(** [x || null]. *)
Definition num_or_null (x : option num) : json :=
  match x with Some x => if num_truthy x then JNum x else JNull | None => JNull end.

(** Empty texts are sent as null. *)
Definition clean (p : list (jstr * json)) : list (jstr * json) :=
  map (λ kv, match kv.2 with JStr [] => (kv.1, JNull) | _ => kv end) p.

Record CreatePayload := {
  cr_mode : jstr;
  cr_multi_key_mode : option jstr;
  cr_batch_add_set_key_prefix_2_name : option bool;
  cr_channel : list (jstr * json);
}.

Definition transformFormDataToCreatePayload (d : ChannelFormValues) : exn CreatePayload :=
  let mode := str_or (f_multi_key_mode d) (js "single") in
  settings ← buildSettingsJSON d;
  let channel :=
    [(js "name", JStr (f_name d)); (js "type", JNum (f_type d));
     (js "base_url", text_or_null (normalizeBaseUrl (f_base_url d))); (js "key", JStr (f_key d));
     (js "openai_organization", text_or_null (f_openai_organization d)); (js "models", JStr (f_models d));
     (js "group", JStr (formatGroups (f_group d))); (js "model_mapping", text_or_null (f_model_mapping d));
     (js "priority", num_or_null (f_priority d)); (js "weight", num_or_null (f_weight d));
     (js "test_model", text_or_null (f_test_model d)); (js "auto_ban", JNum (default (num_of_Z 1) (f_auto_ban d)));
     (js "status", JNum (f_status d)); (js "status_code_mapping", text_or_null (f_status_code_mapping d));
     (js "tag", text_or_null (f_tag d)); (js "remark", JStr (f_remark d)); (js "setting", JStr (buildSettingJSON d));
     (js "param_override", text_or_null (f_param_override d)); (js "header_override", text_or_null (f_header_override d));
     (js "settings", JStr settings); (js "other", JStr (f_other d))] in
  Ret {|
    cr_mode := mode;
    cr_multi_key_mode := if str_eqb mode (js "multi_to_single") then Some (f_multi_key_type d) else None;
    cr_batch_add_set_key_prefix_2_name :=
      if str_eqb mode (js "batch") then Some (f_batch_add_set_key_prefix_2_name d) else None;
    cr_channel := clean channel |}.

(** [payload.k = v] for each pair in turn. *)
Definition assign (l p : list (jstr * json)) : list (jstr * json) := foldl (λ o kv, obj_set o kv.1 kv.2) p l.

Definition transformFormDataToUpdatePayload (d : ChannelFormValues) (channelId : num) : exn (list (jstr * json)) :=
  settings ← buildSettingsJSON d;
  let payload :=
    [(js "id", JNum channelId); (js "name", JStr (f_name d)); (js "type", JNum (f_type d));
     (js "base_url", text_or_null (normalizeBaseUrl (f_base_url d)));
     (js "openai_organization", text_or_null (f_openai_organization d)); (js "models", JStr (f_models d));
     (js "group", JStr (formatGroups (f_group d))); (js "model_mapping", text_or_null (f_model_mapping d));
     (js "priority", JNum (default nzero (f_priority d))); (js "weight", JNum (default nzero (f_weight d)));
     (js "test_model", text_or_null (f_test_model d)); (js "auto_ban", JNum (default (num_of_Z 1) (f_auto_ban d)));
     (js "status", JNum (f_status d)); (js "status_code_mapping", text_or_null (f_status_code_mapping d));
     (js "tag", text_or_null (f_tag d)); (js "remark", JStr (f_remark d)); (js "setting", JStr (buildSettingJSON d));
     (js "param_override", text_or_null (f_param_override d)); (js "header_override", text_or_null (f_header_override d));
     (js "settings", JStr settings); (js "other", JStr (f_other d))] in
  let payload := if nonempty (trim (f_key d)) then obj_set payload (js "key") (JStr (f_key d)) else payload in
  Ret (assign
    [(js "base_url", JStr (normalizeBaseUrl (f_base_url d)));
     (js "openai_organization", JStr (f_openai_organization d)); (js "test_model", JStr (f_test_model d));
     (js "tag", JStr (f_tag d)); (js "remark", JStr (f_remark d)); (js "model_mapping", JStr (f_model_mapping d));
     (js "status_code_mapping", JStr (f_status_code_mapping d)); (js "param_override", JStr (f_param_override d));
     (js "header_override", JStr (f_header_override d))]
    (clean payload)).

(** ** Simple checks *)

Definition validateJSON (value : jstr) : bool :=
  if negb (nonempty value) || str_eqb (trim value) [] then true
  else match json_parse value with Some _ => true | None => false end.

Definition validateModelMapping (value : jstr) : bool :=
  if negb (nonempty value) || str_eqb (trim value) [] then true else validateJSON value.

(** ** Settings of the channel types *)
Lemma obj_get_set_or_delete b k v o k' :
  obj_get k' (set_or_delete b k v o) = if str_eqb k k' then (if b then Some v else None) else obj_get k' o.
Proof. unfold set_or_delete. destruct b; [rewrite obj_get_set|rewrite obj_get_delete]; by destruct (str_eqb k k'). Qed.

(** What each type-specific setting is after saving: [None] when the channel has
    another type. *)
Definition type_table (d : ChannelFormValues) : list (jstr * option json) :=
  let t n := is_type (f_type d) n in
  let own (b : bool) (v : json) := if b then Some v else None in
  [(js "vertex_key_type", own (t 41%Z) (json_or (Some (f_vertex_key_type d)) (JStr (js "json"))));
   (js "azure_responses_version", own (t 3%Z && json_truthy (f_azure_responses_version d)) (f_azure_responses_version d));
   (js "openrouter_enterprise", own (t 20%Z) (JBool (f_is_enterprise_account d)));
   (js "aws_key_type", own (t 33%Z) (json_or (Some (f_aws_key_type d)) (JStr (js "ak_sk"))));
   (js "allow_service_tier", own (t 1%Z || t 14%Z) (JBool (f_allow_service_tier d)));
   (js "disable_store", own (t 1%Z) (JBool (f_disable_store d)));
   (js "allow_safety_identifier", own (t 1%Z) (JBool (f_allow_safety_identifier d)));
   (js "allow_include_obfuscation", own (t 1%Z) (JBool (f_allow_include_obfuscation d)));
   (js "allow_inference_geo", own (t 1%Z || t 14%Z) (JBool (f_allow_inference_geo d)));
   (js "allow_speed", own (t 14%Z) (JBool (f_allow_speed d)));
   (js "claude_beta_query", own (t 14%Z) (JBool (f_claude_beta_query d)))].

Definition upstream_keys : list jstr :=
  [js "upstream_model_update_check_enabled"; js "upstream_model_update_auto_sync_enabled";
   js "upstream_model_update_ignored_models"; js "upstream_model_update_last_detected_models";
   js "upstream_model_update_last_check_time"].

(** The sequence of assignments and deletions, as one pass over the table. *)
Definition write (o : list (jstr * json)) (kv : jstr * option json) : list (jstr * json) :=
  match kv.2 with Some v => obj_set o kv.1 v | None => obj_delete kv.1 o end.

Lemma write_get o kv k : obj_get k (write o kv) = if str_eqb kv.1 k then kv.2 else obj_get k o.
Proof.
  destruct kv as [j [v|]]; unfold write; cbn [fst snd]; [rewrite obj_get_set|rewrite obj_get_delete]; done.
Qed.

Lemma writes_get l o k : NoDup (map fst l) →
  obj_get k (foldl write o l) = match obj_get k l with Some v => v | None => obj_get k o end.
Proof.
  revert o. induction l as [|[j v] l IH]; intros o; [done|]. cbn [map fst]. intros [Hj Hn]%NoDup_cons.
  cbn [foldl obj_get]. rewrite IH, write_get by done. cbn [fst snd]. unfold str_eqb. case_bool_decide as E; [|done].
  subst. by rewrite obj_get_none.
Qed.

Lemma write_nodup o kv : NoDup (map fst o) → NoDup (map fst (write o kv)).
Proof.
  intros H. destruct kv as [j [v|]]; unfold write; cbn [fst snd]; [by apply obj_set_nodup|].
  eapply sublist_NoDup; [exact H|apply obj_delete_sublist].
Qed.

Lemma writes_nodup l o : NoDup (map fst o) → NoDup (map fst (foldl write o l)).
Proof. revert o. induction l as [|kv l IH]; intros o H; [done|]. cbn [foldl]. by apply IH, write_nodup. Qed.

(** Writing what is there already. *)
Lemma writes_same l o :
  NoDup (map fst o) → Forall (λ kv, obj_get kv.1 o = kv.2) l → foldl write o l = o.
Proof.
  intros Hn. induction 1 as [|[k v] l H _ IH]; [done|]. cbn [foldl]. cbn [fst snd] in H.
  assert (write o (k, v) = o) as ->; [|done]. unfold write. cbn [fst snd].
  destruct v; [by apply obj_set_same|by apply obj_delete_none].
Qed.

Lemma is_type_eq ty n : is_type ty n = true → num_of_Z n ≠ nzero → is_nan (num_of_Z n) = false →
  is_finite (num_of_Z n) = true → (∀ s, num_of_Z n ≠ S754_zero s) → ty = num_of_Z n.
Proof.
  unfold is_type, num_eqb, SFeqb. generalize (num_of_Z n). intros x H _ _ Hf Hz.
  destruct x as [s|s| |s m e]; try done; [by destruct (Hz s)|].
  destruct ty as [s'|s'| |s' m' e']; try done; [by destruct s|by destruct s'|].
  cbn [SFcompare] in H. destruct s', s; try done; destruct (Z.compare_spec e' e); try done; subst;
    change (Pos.compare_cont Eq) with Pos.compare in H; destruct (Pos.compare_spec m' m); try done; by subst.
Qed.

Lemma openai_not_anthropic ty : is_type ty 1 = true → is_type ty 14 = false.
Proof. intros ->%is_type_eq; vm_compute; done. Qed.

Lemma type_settings_writes d o : type_settings d o = foldl write o (type_table d).
Proof.
  unfold type_settings, type_table. cbv zeta. pose proof (openai_not_anthropic (f_type d)) as Hex.
  unfold set_or_delete, write. cbn [foldl fst snd].
  destruct (is_type (f_type d) 1); [rewrite Hex by done|destruct (is_type (f_type d) 14)]; cbn [orb negb];
  destruct (is_type (f_type d) 41), (is_type (f_type d) 3 && _), (is_type (f_type d) 20), (is_type (f_type d) 33); reflexivity.
Qed.

(** The upstream settings as writes. *)
Definition upstream_table (d : ChannelFormValues) (o : list (jstr * json)) : list (jstr * option json) :=
  let check := f_upstream_model_update_check_enabled d in
  [(js "upstream_model_update_check_enabled", Some (JBool check));
   (js "upstream_model_update_auto_sync_enabled", Some (JBool (check && f_upstream_model_update_auto_sync_enabled d)));
   (js "upstream_model_update_ignored_models", Some (JArr (map JStr (ignored_models d))));
   (js "upstream_model_update_last_detected_models",
     match obj_get (js "upstream_model_update_last_detected_models") o with
     | Some (JArr l) => Some (JArr (if check then l else []))
     | _ => Some (JArr [])
     end);
   (js "upstream_model_update_last_check_time",
     match obj_get (js "upstream_model_update_last_check_time") o with
     | Some (JNum x) => Some (JNum x)
     | _ => Some (JNum nzero)
     end)].

Lemma upstream_table_keys d o : map fst (upstream_table d o) = upstream_keys.
Proof. done. Qed.

Lemma upstream_settings_writes d o :
  NoDup (map fst o) →
  upstream_settings d o =
  if is_type_of (f_type d) MODEL_FETCHABLE_TYPES then foldl write o (upstream_table d o) else o.
Proof.
  intros Hn. unfold upstream_settings. destruct (is_type_of _ _); [|done]. cbv zeta.
  unfold upstream_table, write. cbn [foldl fst snd].
  rewrite !obj_get_set. names.
  set (o3 := obj_set (obj_set (obj_set o _ _) _ _) _ _).
  assert (NoDup (map fst o3)) as Hn3 by (by repeat apply obj_set_nodup).
  assert (∀ k, k = js "upstream_model_update_last_detected_models" ∨ k = js "upstream_model_update_last_check_time" →
    obj_get k o3 = obj_get k o) as Ho3.
  { intros k Hk. unfold o3. rewrite !obj_get_set. by destruct Hk as [-> | ->]; names. }
  clearbody o3.
  set (o4 := if _ || _ then _ else _).
  assert (o4 = obj_set o3 (js "upstream_model_update_last_detected_models")
    (match obj_get (js "upstream_model_update_last_detected_models") o with
     | Some (JArr l) => JArr (if f_upstream_model_update_check_enabled d then l else []) | _ => JArr [] end)) as E4.
  { unfold o4. destruct (obj_get (js "upstream_model_update_last_detected_models") o) as [[]|] eqn:E; try done.
    destruct (f_upstream_model_update_check_enabled d); cbn [negb orb]; [|done].
    symmetry. apply obj_set_same; [done|]. rewrite (Ho3 _ (or_introl eq_refl)). exact E. }
  assert (obj_get (js "upstream_model_update_last_check_time") o4 = obj_get (js "upstream_model_update_last_check_time") o) as Et.
  { rewrite E4, obj_get_set. names. exact (Ho3 _ (or_intror eq_refl)). }
  assert (NoDup (map fst o4)) as Hn4 by (rewrite E4; by apply obj_set_nodup).
  clearbody o4. rewrite Et, E4. rewrite E4 in Hn4, Et.
  destruct (obj_get (js "upstream_model_update_last_detected_models") o) as [[]|];
    (destruct (obj_get (js "upstream_model_update_last_check_time") o) as [[]|] eqn:E5; try done;
     symmetry; by apply obj_set_same).
Qed.

(** The object that is saved. *)
Definition saved_settings (d : ChannelFormValues) (o : list (jstr * json)) : list (jstr * json) :=
  upstream_settings d (type_settings d o).

Lemma stored_nodup d o : stored_settings d = JObj o → NoDup (map fst o).
Proof.
  unfold stored_settings. destruct (_ && _); [|intros [= <-]; constructor].
  destruct (json_parse (f_settings d)) as [v|] eqn:E; simpl; [|intros [= <-]; constructor].
  intros ->. apply json_parse_wf in E. inversion E as [| | | | |? [Hn _] _]. done.
Qed.

Lemma type_table_nodup d : NoDup (map fst (type_table d)).
Proof. apply (bool_decide_eq_true_1 _). vm_compute. reflexivity. Qed.

Lemma upstream_keys_nodup : NoDup upstream_keys.
Proof. apply (bool_decide_eq_true_1 _). vm_compute. reflexivity. Qed.

Lemma keys_disjoint d k : k ∈ map fst (type_table d) → k ∉ upstream_keys.
Proof.
  assert (forallb (λ k, negb (bool_decide (k ∈ upstream_keys))) (map fst (type_table d)) = true) as H by (vm_compute; reflexivity).
  rewrite forallb_Forall, Forall_forall in H. intros Hk. specialize (H _ Hk). by apply negb_true_iff, bool_decide_eq_false in H.
Qed.

Lemma saved_get d o k :
  NoDup (map fst o) →
  obj_get k (saved_settings d o) =
  if is_type_of (f_type d) MODEL_FETCHABLE_TYPES && bool_decide (k ∈ upstream_keys)
  then match obj_get k (upstream_table d (type_settings d o)) with Some v => v | None => None end
  else match obj_get k (type_table d) with Some v => v | None => obj_get k o end.
Proof.
  intros Hn. unfold saved_settings. rewrite type_settings_writes.
  assert (NoDup (map fst (foldl write o (type_table d)))) as Hn1 by by apply writes_nodup.
  rewrite upstream_settings_writes by done. destruct (is_type_of _ _); cbn [andb].
  - rewrite writes_get by (rewrite upstream_table_keys; apply upstream_keys_nodup). case_bool_decide as Hk.
    + rewrite <- (upstream_table_keys d (foldl write o (type_table d))) in Hk.
      destruct (obj_get k (upstream_table d _)) eqn:E; [done|]. exfalso. revert Hk E. clear.
      generalize (upstream_table d (foldl write o (type_table d))). intros l. induction l as [|[j v] l IH]; cbn [map fst obj_get]; [by intros ?%elem_of_nil|].
      unfold str_eqb. case_bool_decide as E; [done|]. rewrite elem_of_cons. naive_solver.
    + rewrite obj_get_none by (by rewrite upstream_table_keys). apply writes_get, type_table_nodup.
  - apply writes_get, type_table_nodup.
Qed.

Lemma elem_obj_get_nodup {A} k (v : A) l : NoDup (map fst l) → (k, v) ∈ l → obj_get k l = Some v.
Proof. intros Hn Hin. by apply elem_obj_get. Qed.

Lemma saved_type_get d o k v :
  NoDup (map fst o) → (k, v) ∈ type_table d → obj_get k (saved_settings d o) = v.
Proof.
  intros Hn Hin. rewrite saved_get by done.
  assert (k ∈ map fst (type_table d)) as Hk by (apply list_elem_of_fmap; by exists (k, v)).
  rewrite (bool_decide_eq_false_2 _ (keys_disjoint d k Hk)), andb_false_r.
  by rewrite (elem_obj_get_nodup _ _ _ (type_table_nodup d) Hin).
Qed.

Lemma saved_upstream_get d o k v :
  NoDup (map fst o) → is_type_of (f_type d) MODEL_FETCHABLE_TYPES = true →
  (k, v) ∈ upstream_table d (type_settings d o) → obj_get k (saved_settings d o) = v.
Proof.
  intros Hn Hf Hin. assert (k ∈ upstream_keys) as Hk.
  { rewrite <- (upstream_table_keys d (type_settings d o)). apply list_elem_of_fmap. by exists (k, v). }
  rewrite saved_get, Hf, bool_decide_eq_true_2 by done. cbn [andb].
  rewrite (elem_obj_get_nodup k v); [done| |done]. rewrite upstream_table_keys. apply upstream_keys_nodup.
Qed.

Lemma ignored_normal d : NoDup (ignored_models d) ∧ Forall (λ n, trim n = n ∧ n ≠ [] ∧ 44%N ∉ n) (ignored_models d).
Proof.
  split; [apply NoDup_dedup|]. apply Forall_forall. intros n Hn.
  apply elem_of_dedup, list_elem_of_In, filter_In in Hn as [Hn Hne].
  apply in_map_iff in Hn as (w & <- & Hw). apply list_elem_of_In in Hw.
  split_and!; [apply trim_idemp|by apply nonempty_spec|]. intros Hc%trim_incl. by destruct (split_char_incl _ _ _ _ Hw Hc).
Qed.

(** The settings text that a channel is saved with: the settings that belong
    to a channel type are exactly those of the chosen type with the values of the
    form, those of other types are removed, everything else that was stored is
    kept, and the check for upstream models is consistent: automatic syncing only
    with checking, ignored models without duplicates or blanks, and detected models
    kept only while checking is on. *)
Theorem settings_saved d o :
  stored_settings d = JObj o →
  let out := saved_settings d o in
  buildSettingsJSON d = Ret (stringify (JObj out)) ∧
  (∀ k v, (k, v) ∈ type_table d → obj_get k out = v) ∧
  (∀ k, k ∉ map fst (type_table d) → k ∉ upstream_keys → obj_get k out = obj_get k o) ∧
  (is_type_of (f_type d) MODEL_FETCHABLE_TYPES = false → ∀ k, k ∈ upstream_keys → obj_get k out = obj_get k o) ∧
  (is_type_of (f_type d) MODEL_FETCHABLE_TYPES = true →
    ∃ check auto names detected time,
      obj_get (js "upstream_model_update_check_enabled") out = Some (JBool check) ∧
      obj_get (js "upstream_model_update_auto_sync_enabled") out = Some (JBool auto) ∧
      obj_get (js "upstream_model_update_ignored_models") out = Some (JArr (map JStr names)) ∧
      obj_get (js "upstream_model_update_last_detected_models") out = Some (JArr detected) ∧
      obj_get (js "upstream_model_update_last_check_time") out = Some (JNum time) ∧
      check = f_upstream_model_update_check_enabled d ∧ (auto = true → check = true) ∧
      NoDup names ∧ Forall (λ n, trim n = n ∧ n ≠ []) names ∧ (check = false → detected = [])).
Proof.
  intros Hs out. pose proof (stored_nodup _ _ Hs) as Hn.
  split; [unfold buildSettingsJSON; by rewrite Hs|]. split; [|split; [|split]].
  - intros k v Hin. by apply saved_type_get.
  - intros k Ht Hu. unfold out. rewrite saved_get by done. rewrite bool_decide_eq_false_2, andb_false_r by done.
    by rewrite (obj_get_none k (type_table d)).
  - intros Hf k Hk. unfold out. rewrite saved_get, Hf by done. cbn [andb].
    rewrite (obj_get_none k (type_table d)); [done|]. intros Ht. by apply (keys_disjoint d k Ht).
  - intros Hf.
    assert (∀ n k v, upstream_table d (type_settings d o) !! n = Some (k, v) → obj_get k out = v) as Hget.
    { intros n k v H. apply (saved_upstream_get d o k v Hn Hf). by eapply list_elem_of_lookup_2. }
    set (o1 := type_settings d o) in *.
    exists (f_upstream_model_update_check_enabled d),
      (f_upstream_model_update_check_enabled d && f_upstream_model_update_auto_sync_enabled d), (ignored_models d),
      (match obj_get (js "upstream_model_update_last_detected_models") o1 with
       | Some (JArr l) => if f_upstream_model_update_check_enabled d then l else [] | _ => [] end),
      (match obj_get (js "upstream_model_update_last_check_time") o1 with Some (JNum x) => x | _ => nzero end).
    split_and!.
    + by apply (Hget 0).
    + by apply (Hget 1).
    + by apply (Hget 2).
    + rewrite (Hget 3 _ _ eq_refl). by destruct (obj_get (js "upstream_model_update_last_detected_models") o1) as [[]|].
    + rewrite (Hget 4 _ _ eq_refl). by destruct (obj_get (js "upstream_model_update_last_check_time") o1) as [[]|].
    + done.
    + by intros [? _]%andb_true_iff.
    + apply ignored_normal.
    + eapply Forall_impl; [apply ignored_normal|]. naive_solver.
    + intros ->. by destruct (obj_get (js "upstream_model_update_last_detected_models") o1) as [[]|].
Qed.

(** ** Saving without changes *)

(** *** The server's update

    The handler decodes the payload into a struct, where null and a missing field leave the
    zero value, and hands it to [DB.Model(channel).Updates(channel)].  What GORM then writes into a column
    is a parameter; its documentation says that of a struct it updates only the fields that are
    not zero: a text or a number that is no pointer is left as it was when the
    payload empties it, a pointer only when it is null. *)
Class GormUpdates := {
  set_text : jstr → jstr → jstr;
  set_num : num → num → num;
  set_text_ptr : option jstr → option jstr → option jstr;
  set_num_ptr : option num → option num → option num;
  set_text_zero stored : set_text [] stored = stored;
  set_text_nonzero sent stored : sent ≠ [] → set_text sent stored = sent;
  set_num_zero sent stored : num_truthy sent = false → set_num sent stored = stored;
  set_num_nonzero sent stored : num_truthy sent = true → set_num sent stored = sent;
  set_text_nil stored : set_text_ptr None stored = stored;
  set_text_pointer sent stored : set_text_ptr (Some sent) stored = Some sent;
  set_num_nil stored : set_num_ptr None stored = stored;
  set_num_pointer sent stored : set_num_ptr (Some sent) stored = Some sent;
}.

Definition payload_text (k : jstr) (p : list (jstr * json)) : option jstr :=
  match obj_get k p with Some (JStr s) => Some s | _ => None end.

Definition payload_num (k : jstr) (p : list (jstr * json)) : option num :=
  match obj_get k p with Some (JNum x) => Some x | _ => None end.

(** The way of choosing keys is not part of what the form sends. *)
Definition Channel_Update `{GormUpdates} (p : list (jstr * json)) (ch : Channel) : Channel := {|
  ch_name := set_text (default [] (payload_text (js "name") p)) (ch_name ch);
  ch_type := set_num (default nzero (payload_num (js "type") p)) (ch_type ch);
  ch_base_url := set_text_ptr (payload_text (js "base_url") p) (ch_base_url ch);
  ch_openai_organization := set_text_ptr (payload_text (js "openai_organization") p) (ch_openai_organization ch);
  ch_models := set_text (default [] (payload_text (js "models") p)) (ch_models ch);
  ch_group := set_text (default [] (payload_text (js "group") p)) (ch_group ch);
  ch_model_mapping := set_text_ptr (payload_text (js "model_mapping") p) (ch_model_mapping ch);
  ch_priority := set_num_ptr (payload_num (js "priority") p) (ch_priority ch);
  ch_weight := set_num_ptr (payload_num (js "weight") p) (ch_weight ch);
  ch_test_model := set_text_ptr (payload_text (js "test_model") p) (ch_test_model ch);
  ch_auto_ban := set_num_ptr (payload_num (js "auto_ban") p) (ch_auto_ban ch);
  ch_status := set_num (default nzero (payload_num (js "status") p)) (ch_status ch);
  ch_status_code_mapping := set_text_ptr (payload_text (js "status_code_mapping") p) (ch_status_code_mapping ch);
  ch_tag := set_text_ptr (payload_text (js "tag") p) (ch_tag ch);
  ch_remark := default [] (set_text_ptr (payload_text (js "remark") p) (Some (ch_remark ch)));
  ch_setting := set_text_ptr (payload_text (js "setting") p) (ch_setting ch);
  ch_param_override := set_text_ptr (payload_text (js "param_override") p) (ch_param_override ch);
  ch_header_override := set_text_ptr (payload_text (js "header_override") p) (ch_header_override ch);
  ch_settings := set_text (default [] (payload_text (js "settings") p)) (ch_settings ch);
  ch_other := set_text (default [] (payload_text (js "other") p)) (ch_other ch);
  ch_multi_key_mode := ch_multi_key_mode ch |}.

(** No text or number that the server does not empty is emptied. *)
Record not_emptied (d : ChannelFormValues) (ch : Channel) : Prop := {
  name_kept : f_name d = [] → ch_name ch = [];
  models_kept : f_models d = [] → ch_models ch = [];
  other_kept : f_other d = [] → ch_other ch = [];
  type_kept : num_truthy (f_type d) = false → ch_type ch = f_type d;
  status_kept : num_truthy (f_status d) = false → ch_status ch = f_status d;
}.

Definition cleaned (v : json) : json := match v with JStr [] => JNull | v => v end.

Lemma obj_get_clean k p : obj_get k (clean p) = cleaned <$> obj_get k p.
Proof.
  induction p as [|[j v] p IH]; [done|]. unfold clean in *. cbn [map].
  assert ((match (j, v).2 with JStr [] => ((j, v).1, JNull) | _ => (j, v) end) = (j, cleaned v)) as ->.
  { cbn [fst snd]. destruct v as [| | |[]| |]; done. }
  cbn [obj_get]. destruct (str_eqb j k); [done|apply IH].
Qed.

Lemma obj_get_assign k l p :
  NoDup (map fst l) → obj_get k (assign l p) = match obj_get k l with Some v => Some v | None => obj_get k p end.
Proof.
  revert p. induction l as [|[j v] l IH]; intros p; [done|]. cbn [map fst]. intros [Hj Hn]%NoDup_cons.
  unfold assign in *. cbn [foldl obj_get fst snd]. rewrite IH, obj_get_set by done. unfold str_eqb.
  case_bool_decide as E; [subst; by rewrite obj_get_none|done].
Qed.

Lemma json_or_idemp v d : json_or (Some (json_or v d)) d = json_or v d.
Proof. unfold json_or. destruct v as [w|]; [destruct (json_truthy w) eqn:E; [by rewrite E|]|]; by destruct (json_truthy d). Qed.

Lemma groups_again l : Forall (λ g, trim g = g ∧ g ≠ [] ∧ 44%N ∉ g) l → l ≠ [] → parseGroups (formatGroups l) = l.
Proof.
  intros Hl Hne. unfold parseGroups, formatGroups. change (js ",") with [44%N].
  assert (nonempty (str_join [44%N] l) = true) as ->.
  { apply nonempty_spec. destruct l as [|g l]; [done|]. apply Forall_cons in Hl as [(_ & Hg & _) _].
    destruct l; [done|]. rewrite join_cons by done. by destruct g. }
  cbn [negb]. rewrite split_join; [|done|]. 2: { eapply Forall_impl; [exact Hl|]. naive_solver. }
  rewrite (map_ext_Forall trim id), map_id by (eapply Forall_impl; [exact Hl|]; naive_solver).
  apply filter_nonempty_id. eapply Forall_impl; [exact Hl|]. naive_solver.
Qed.

Lemma parseGroups_normal s : Forall (λ g, trim g = g ∧ g ≠ [] ∧ 44%N ∉ g) (parseGroups s).
Proof.
  unfold parseGroups. destruct (negb _); [constructor|]. apply Forall_forall. intros g Hg.
  apply list_elem_of_In, filter_In in Hg as [Hg Hne]. apply in_map_iff in Hg as (w & <- & Hw). apply list_elem_of_In in Hw.
  split_and!; [apply trim_idemp|by apply nonempty_spec|]. intros Hc%trim_incl. by destruct (split_char_incl _ _ _ _ Hw Hc).
Qed.

(** The extra settings of the form, as they are saved. *)
Definition setting_object (d : ChannelFormValues) : list (jstr * option json) :=
    [(js "force_format", Some (json_or (Some (f_force_format d)) (JBool false)));
     (js "thinking_to_content", Some (json_or (Some (f_thinking_to_content d)) (JBool false)));
     (js "proxy", Some (json_or (Some (f_proxy d)) (JStr [])));
     (js "pass_through_body_enabled", Some (json_or (Some (f_pass_through_body_enabled d)) (JBool false)));
     (js "system_prompt", Some (json_or (Some (f_system_prompt d)) (JStr [])));
     (js "system_prompt_override", Some (json_or (Some (f_system_prompt_override d)) (JBool false)));
     (js "non_stream_timeout_seconds", JNum <$> f_non_stream_timeout_seconds d);
     (js "stream_first_byte_timeout_seconds", JNum <$> f_stream_first_byte_timeout_seconds d);
     (js "aws_invoke_timeout_seconds", JNum <$> f_aws_invoke_timeout_seconds d);
     (js "aws_sdk_max_attempts", JNum <$> f_aws_sdk_max_attempts d)].

Lemma buildSettingJSON_eq d : buildSettingJSON d = stringify (JObj (fields (setting_object d))).
Proof. done. Qed.

Lemma setting_prop d k v :
  (k, v) ∈ setting_object d → prop k (JObj (fields (setting_object d))) = v.
Proof.
  intros H. apply obj_get_fields; [|done]. apply (bool_decide_eq_true_1 _). vm_compute. reflexivity.
Qed.

Lemma parsed_printed v : json_ok v → parsed_or_null (stringify v) = v.
Proof.
  intros H. unfold parsed_or_null. rewrite json_parse_stringify by done.
  apply stringify_length in H. destruct (stringify v); [cbn in H; lia|done].
Qed.

Lemma number_prop_same d k x :
  (k, JNum <$> x) ∈ setting_object d → number_prop k (JObj (fields (setting_object d))) = x.
Proof. intros H. unfold number_prop. rewrite (setting_prop _ _ _ H). by destruct x. Qed.

Lemma setting_again d ch :
  json_ok (JObj (fields (setting_object d))) → ch_setting ch = Some (buildSettingJSON d) →
  setting_object (transformChannelToFormDefaults ch) = setting_object d.
Proof.
  intros Hok Hs. unfold setting_object at 1, transformChannelToFormDefaults.
  cbn [f_force_format f_thinking_to_content f_proxy f_pass_through_body_enabled f_system_prompt f_system_prompt_override
       f_non_stream_timeout_seconds f_stream_first_byte_timeout_seconds f_aws_invoke_timeout_seconds f_aws_sdk_max_attempts].
  rewrite Hs. cbn [default]. unfold id. rewrite buildSettingJSON_eq, parsed_printed by done.
  assert (∀ n k v d0, setting_object d !! n = Some (k, Some (json_or (Some v) d0)) →
    json_or (Some (json_or (prop k (JObj (fields (setting_object d)))) d0)) d0 = json_or (Some v) d0) as H1.
  { intros n k v d0 H. rewrite (setting_prop _ _ _ (list_elem_of_lookup_2 _ _ _ H)). by rewrite !json_or_idemp. }
  assert (∀ n k x, setting_object d !! n = Some (k, JNum <$> x) →
    number_prop k (JObj (fields (setting_object d))) = x) as H2.
  { intros n k x H. apply number_prop_same. by eapply list_elem_of_lookup_2. }
  rewrite (H1 0 _ _ _ eq_refl), (H1 1 _ _ _ eq_refl), (H1 2 _ _ _ eq_refl), (H1 3 _ _ _ eq_refl),
    (H1 4 _ _ _ eq_refl), (H1 5 _ _ _ eq_refl), (H2 6 _ _ eq_refl), (H2 7 _ _ eq_refl),
    (H2 8 _ _ eq_refl), (H2 9 _ _ eq_refl). reflexivity.
Qed.

Lemma typed_again (b : bool) x : (if b then Some (JBool (match (if b then Some (JBool x) else None) with Some (JBool y) => y | _ => false end)) else None)
  = if b then Some (JBool x) else None.
Proof. by destruct b. Qed.

Lemma own_json_again (b : bool) x D :
  (if b then Some (json_or (Some (json_or (if b then Some (json_or (Some x) D) else None) D)) D) else None)
  = if b then Some (json_or (Some x) D) else None.
Proof. destruct b; [by rewrite !json_or_idemp|done]. Qed.

Lemma azure_again (t : bool) x :
  let f := json_or (if t && json_truthy x then Some x else None) (JStr []) in
  (if t && json_truthy f then Some f else None) = if t && json_truthy x then Some x else None.
Proof. destruct t, (json_truthy x) eqn:E; cbn [andb json_or]; rewrite ?E; cbn [json_truthy nonempty]; rewrite ?E; done. Qed.

Lemma type_table_again d d2 out :
  (∀ k v, (k, v) ∈ type_table d → obj_get k out = v) → f_type d2 = f_type d →
  f_vertex_key_type d2 = json_or (obj_get (js "vertex_key_type") out) (JStr (js "json")) →
  f_azure_responses_version d2 = json_or (obj_get (js "azure_responses_version") out) (JStr []) →
  f_aws_key_type d2 = json_or (obj_get (js "aws_key_type") out) (JStr (js "ak_sk")) →
  (f_is_enterprise_account d2, f_allow_service_tier d2, f_disable_store d2, f_allow_safety_identifier d2,
   f_allow_include_obfuscation d2, f_allow_inference_geo d2, f_allow_speed d2, f_claude_beta_query d2) =
  (true_prop (js "openrouter_enterprise") (JObj out), true_prop (js "allow_service_tier") (JObj out),
   true_prop (js "disable_store") (JObj out), true_prop (js "allow_safety_identifier") (JObj out),
   true_prop (js "allow_include_obfuscation") (JObj out), true_prop (js "allow_inference_geo") (JObj out),
   true_prop (js "allow_speed") (JObj out), true_prop (js "claude_beta_query") (JObj out)) →
  type_table d2 = type_table d.
Proof.
  intros Hget Ht Hv Ha Hw [= H1 H2 H3 H4 H5 H6 H7 H8].
  assert (∀ n k v, type_table d !! n = Some (k, v) → obj_get k out = v) as Hn.
  { intros n k v H. apply Hget. by eapply list_elem_of_lookup_2. }
  unfold true_prop in *. cbn [prop] in *.
  rewrite (Hn 0 _ _ eq_refl) in Hv. rewrite (Hn 1 _ _ eq_refl) in Ha. rewrite (Hn 2 _ _ eq_refl) in H1.
  rewrite (Hn 3 _ _ eq_refl) in Hw. rewrite (Hn 4 _ _ eq_refl) in H2. rewrite (Hn 5 _ _ eq_refl) in H3.
  rewrite (Hn 6 _ _ eq_refl) in H4. rewrite (Hn 7 _ _ eq_refl) in H5. rewrite (Hn 8 _ _ eq_refl) in H6.
  rewrite (Hn 9 _ _ eq_refl) in H7. rewrite (Hn 10 _ _ eq_refl) in H8. clear Hn Hget.
  unfold type_table. cbv zeta. rewrite Ht, Hv, Ha, Hw, H1, H2, H3, H4, H5, H6, H7, H8.
  rewrite !own_json_again, azure_again, !typed_again. reflexivity.
Qed.

Lemma string_names l : coercible (JArr (map JStr l)) = true ∧ string_of_json (JArr (map JStr l)) = str_join (js ",") l.
Proof.
  cbn [coercible string_of_json]. split; [induction l; [done|exact IHl]|]. f_equal. induction l; [done|]. by cbn [map]; rewrite IHl.
Qed.

Lemma ignored_again d d2 :
  f_upstream_model_update_ignored_models d2 = str_join (js ",") (ignored_models d) →
  ignored_models d2 = ignored_models d.
Proof.
  intros Hd. destruct (ignored_normal d) as [Hn Hf]. unfold ignored_models at 1. rewrite Hd. change (js ",") with [44%N].
  revert Hn Hf. generalize (ignored_models d). clear. intros l Hn Hf.
  destruct (decide (l = [])) as [->|Hne]; [done|].
  rewrite split_join; [|done|]. 2: { eapply Forall_impl; [exact Hf|]. naive_solver. }
  rewrite (map_ext_Forall trim id), map_id by (eapply Forall_impl; [exact Hf|]; naive_solver).
  rewrite filter_nonempty_id by (eapply Forall_impl; [exact Hf|]; naive_solver). by apply dedup_id.
Qed.

Lemma stored_again out ch :
  json_ok (JObj out) → ch_settings ch = stringify (JObj out) →
  stored_settings (transformChannelToFormDefaults ch) = JObj out.
Proof.
  intros Hok Hs. unfold stored_settings, transformChannelToFormDefaults. cbn [f_settings]. rewrite Hs.
  pose proof (json_parse_stringify _ Hok) as Hp. pose proof (stringify_length _ Hok) as Hl. unfold str_or.
  destruct (stringify (JObj out)) as [|c t] eqn:E; [cbn in Hl; lia|]. rewrite <- E in *. clear Hl.
  assert (nonempty (stringify (JObj out)) = true) as -> by (by rewrite E). cbn [andb].
  unfold str_eqb. case_bool_decide as He; cbn [negb]; [|by rewrite Hp].
  rewrite He in Hp. assert (json_parse (js "{}") = Some (JObj [])) as Hq by (vm_compute; reflexivity). rewrite Hq in Hp. injection Hp as <-. reflexivity.
Qed.

(** Saving the settings that were just read writes the same text. *)
Lemma settings_again d o ch :
  let out := saved_settings d o in
  stored_settings d = JObj o → json_ok (JObj out) →
  ch_settings ch = stringify (JObj out) → ch_type ch = f_type d →
  buildSettingsJSON (transformChannelToFormDefaults ch) = Ret (stringify (JObj out)).
Proof.
  intros out Hst Hok Hs Ht. pose proof (stored_nodup _ _ Hst) as Hno.
  set (d2 := transformChannelToFormDefaults ch).
  pose proof (stored_again _ _ Hok Hs) as Hst2. fold d2 in Hst2. pose proof (stored_nodup _ _ Hst2) as Hnout.
  unfold buildSettingsJSON. rewrite Hst2. do 3 f_equal.
  assert (f_type d2 = f_type d) as Ht2 by exact Ht.
  assert (parsed_or_null (ch_settings ch) = JObj out) as Hp by (rewrite Hs; by apply parsed_printed).
  assert (∀ k v, (k, v) ∈ type_table d → obj_get k out = v) as Htg by (intros k v; by apply saved_type_get).
  assert (type_table d2 = type_table d) as Htt.
  { apply (type_table_again d d2 out Htg Ht2); unfold d2, transformChannelToFormDefaults;
      cbn [f_vertex_key_type f_azure_responses_version f_aws_key_type f_is_enterprise_account f_allow_service_tier
           f_disable_store f_allow_safety_identifier f_allow_include_obfuscation f_allow_inference_geo f_allow_speed
           f_claude_beta_query]; rewrite Hp; reflexivity. }
  assert (type_settings d2 out = out) as ->.
  { rewrite type_settings_writes, Htt. apply writes_same; [done|]. apply Forall_forall. intros [k v] H. by apply Htg. }
  rewrite upstream_settings_writes, Ht2 by done. destruct (is_type_of (f_type d) _) eqn:Hf; [|done].
  assert (∀ n k v, upstream_table d (type_settings d o) !! n = Some (k, v) → obj_get k out = v) as Hget.
  { intros n k v H. apply (saved_upstream_get d o k v Hno Hf). by eapply list_elem_of_lookup_2. }
  apply writes_same; [done|]. unfold upstream_table. cbv zeta.
  assert (f_upstream_model_update_check_enabled d2 = f_upstream_model_update_check_enabled d) as ->.
  { unfold d2, transformChannelToFormDefaults. cbn [f_upstream_model_update_check_enabled]. rewrite Hp.
    unfold true_prop. cbn [prop]. by rewrite (Hget 0 _ _ eq_refl). }
  assert (f_upstream_model_update_auto_sync_enabled d2 =
    f_upstream_model_update_check_enabled d && f_upstream_model_update_auto_sync_enabled d) as ->.
  { unfold d2, transformChannelToFormDefaults. cbn [f_upstream_model_update_auto_sync_enabled]. rewrite Hp.
    unfold true_prop. cbn [prop]. by rewrite (Hget 1 _ _ eq_refl). }
  rewrite (ignored_again d d2).
  2: { unfold d2, transformChannelToFormDefaults. cbn [f_upstream_model_update_ignored_models]. rewrite Hp.
       unfold joined_prop. cbn [prop]. rewrite (Hget 2 _ _ eq_refl). destruct (string_names (ignored_models d)) as [-> ->]. done. }
  repeat apply Forall_cons_2; cbn [fst snd]; [| | | | |constructor].
  - exact (Hget 0 _ _ eq_refl).
  - rewrite (Hget 1 _ _ eq_refl). by destruct (f_upstream_model_update_check_enabled d).
  - exact (Hget 2 _ _ eq_refl).
  - rewrite (Hget 3 _ _ eq_refl).
    destruct (obj_get (js "upstream_model_update_last_detected_models") (type_settings d o)) as [[]|]; try done;
      by destruct (f_upstream_model_update_check_enabled d).
  - rewrite (Hget 4 _ _ eq_refl).
    by destruct (obj_get (js "upstream_model_update_last_check_time") (type_settings d o)) as [[]|].
Qed.

(** The two steps of an update payload without a key: all fields, and the texts
    that are sent even when they are empty. *)
Definition update_fields (d : ChannelFormValues) (id : num) (settings : jstr) : list (jstr * json) :=
  [(js "id", JNum id); (js "name", JStr (f_name d)); (js "type", JNum (f_type d));
   (js "base_url", text_or_null (normalizeBaseUrl (f_base_url d)));
   (js "openai_organization", text_or_null (f_openai_organization d)); (js "models", JStr (f_models d));
   (js "group", JStr (formatGroups (f_group d))); (js "model_mapping", text_or_null (f_model_mapping d));
   (js "priority", JNum (default nzero (f_priority d))); (js "weight", JNum (default nzero (f_weight d)));
   (js "test_model", text_or_null (f_test_model d)); (js "auto_ban", JNum (default (num_of_Z 1) (f_auto_ban d)));
   (js "status", JNum (f_status d)); (js "status_code_mapping", text_or_null (f_status_code_mapping d));
   (js "tag", text_or_null (f_tag d)); (js "remark", JStr (f_remark d)); (js "setting", JStr (buildSettingJSON d));
   (js "param_override", text_or_null (f_param_override d)); (js "header_override", text_or_null (f_header_override d));
   (js "settings", JStr settings); (js "other", JStr (f_other d))].

Definition update_texts (d : ChannelFormValues) : list (jstr * json) :=
  [(js "base_url", JStr (normalizeBaseUrl (f_base_url d)));
   (js "openai_organization", JStr (f_openai_organization d)); (js "test_model", JStr (f_test_model d));
   (js "tag", JStr (f_tag d)); (js "remark", JStr (f_remark d)); (js "model_mapping", JStr (f_model_mapping d));
   (js "status_code_mapping", JStr (f_status_code_mapping d)); (js "param_override", JStr (f_param_override d));
   (js "header_override", JStr (f_header_override d))].

Definition update_keys : list jstr :=
  map js ["id"; "name"; "type"; "base_url"; "openai_organization"; "models"; "group"; "model_mapping"; "priority";
          "weight"; "test_model"; "auto_ban"; "status"; "status_code_mapping"; "tag"; "remark"; "setting";
          "param_override"; "header_override"; "settings"; "other"]%string.

Definition text_keys : list jstr :=
  map js ["base_url"; "openai_organization"; "test_model"; "tag"; "remark"; "model_mapping"; "status_code_mapping";
          "param_override"; "header_override"]%string.

Lemma update_payload_eq d id :
  transformFormDataToUpdatePayload d id =
  (settings ← buildSettingsJSON d;
   let payload := update_fields d id settings in
   Ret (assign (update_texts d)
     (clean (if nonempty (trim (f_key d)) then obj_set payload (js "key") (JStr (f_key d)) else payload)))).
Proof. reflexivity. Qed.

Lemma update_fields_nodup d id settings : NoDup (map fst (update_fields d id settings)).
Proof.
  change (map fst (update_fields d id settings)) with update_keys. apply (bool_decide_eq_true_1 _). vm_compute. reflexivity.
Qed.

Lemma update_texts_nodup d : NoDup (map fst (update_texts d)).
Proof. change (map fst (update_texts d)) with text_keys. apply (bool_decide_eq_true_1 _). vm_compute. reflexivity. Qed.

Lemma update_text_get d n k v p :
  update_texts d !! n = Some (k, v) → obj_get k (assign (update_texts d) p) = Some v.
Proof.
  intros H%list_elem_of_lookup_2. rewrite obj_get_assign by apply update_texts_nodup.
  by rewrite (elem_obj_get_nodup _ _ _ (update_texts_nodup d) H).
Qed.

Lemma update_field_get d id settings n k v :
  update_fields d id settings !! n = Some (k, v) → bool_decide (k ∈ text_keys) = false →
  obj_get k (assign (update_texts d) (clean (update_fields d id settings))) = Some (cleaned v).
Proof.
  intros H%list_elem_of_lookup_2 Hk%bool_decide_eq_false. rewrite obj_get_assign by apply update_texts_nodup.
  rewrite (obj_get_none k (update_texts d)) by exact Hk. rewrite obj_get_clean.
  by rewrite (elem_obj_get_nodup _ _ _ (update_fields_nodup d id settings) H).
Qed.

Lemma text_sent `{GormUpdates} s old : (s = [] → old = []) →
  set_text (default [] (match cleaned (JStr s) with JStr t => Some t | _ => None end)) old = s.
Proof. destruct s; [|intros _; by apply set_text_nonzero]. intros Ho. rewrite (Ho eq_refl). apply set_text_zero. Qed.

Lemma num_sent `{GormUpdates} x old : (num_truthy x = false → old = x) → set_num (default nzero (Some x)) old = x.
Proof.
  intros Ho. cbn [default from_option id]. destruct (num_truthy x) eqn:E; [by apply set_num_nonzero|]. rewrite set_num_zero by done. by apply Ho.
Qed.

Lemma drop_slashes_idemp s : drop_slashes (drop_slashes s) = drop_slashes s.
Proof. induction s as [|c s IH]; [done|]. cbn [drop_slashes]. destruct (c =? 47)%N eqn:E; [done|]. cbn [drop_slashes]. by rewrite E. Qed.

Lemma base_url_again s : trim (normalizeBaseUrl s) = normalizeBaseUrl s → normalizeBaseUrl (normalizeBaseUrl s) = normalizeBaseUrl s.
Proof.
  intros H. unfold normalizeBaseUrl at 1. rewrite H. unfold normalizeBaseUrl. by rewrite reverse_involutive, drop_slashes_idemp.
Qed.

Lemma stored_update `{GormUpdates} d id settings ch :
  buildSettingJSON d ≠ [] → settings ≠ [] → formatGroups (f_group d) ≠ [] → not_emptied d ch →
  Channel_Update (assign (update_texts d) (clean (update_fields d id settings))) ch = {|
    ch_name := f_name d; ch_type := f_type d; ch_base_url := Some (normalizeBaseUrl (f_base_url d));
    ch_openai_organization := Some (f_openai_organization d); ch_models := f_models d;
    ch_group := formatGroups (f_group d); ch_model_mapping := Some (f_model_mapping d);
    ch_priority := Some (default nzero (f_priority d)); ch_weight := Some (default nzero (f_weight d));
    ch_test_model := Some (f_test_model d); ch_auto_ban := Some (default (num_of_Z 1) (f_auto_ban d));
    ch_status := f_status d; ch_status_code_mapping := Some (f_status_code_mapping d); ch_tag := Some (f_tag d);
    ch_remark := f_remark d; ch_setting := Some (buildSettingJSON d); ch_param_override := Some (f_param_override d);
    ch_header_override := Some (f_header_override d); ch_settings := settings; ch_other := f_other d;
    ch_multi_key_mode := ch_multi_key_mode ch |}.
Proof.
  intros Hs Hset Hgr [Hn Hm Ho Hty Hst]. unfold Channel_Update, payload_text, payload_num.
  assert (∀ n k v, update_fields d id settings !! n = Some (k, v) → bool_decide (k ∈ text_keys) = false →
    obj_get k (assign (update_texts d) (clean (update_fields d id settings))) = Some (cleaned v)) as Hf
    by (intros n k v; apply update_field_get).
  assert (∀ n k v, update_texts d !! n = Some (k, v) →
    obj_get k (assign (update_texts d) (clean (update_fields d id settings))) = Some v) as Ht
    by (intros n k v; apply update_text_get).
  rewrite (Hf 1 _ _ eq_refl), (Hf 2 _ _ eq_refl), (Hf 5 _ _ eq_refl), (Hf 6 _ _ eq_refl), (Hf 8 _ _ eq_refl),
    (Hf 9 _ _ eq_refl), (Hf 11 _ _ eq_refl), (Hf 12 _ _ eq_refl), (Hf 16 _ _ eq_refl), (Hf 19 _ _ eq_refl),
    (Hf 20 _ _ eq_refl) by (vm_compute; reflexivity).
  rewrite (Ht 0 _ _ eq_refl), (Ht 1 _ _ eq_refl), (Ht 2 _ _ eq_refl), (Ht 3 _ _ eq_refl), (Ht 4 _ _ eq_refl),
    (Ht 5 _ _ eq_refl), (Ht 6 _ _ eq_refl), (Ht 7 _ _ eq_refl), (Ht 8 _ _ eq_refl).
  rewrite !text_sent by (done || by intros ?). cbn [cleaned]. rewrite !num_sent by done. destruct (buildSettingJSON d) eqn:E; [done|].
  rewrite !set_text_pointer, !set_num_pointer. reflexivity.
Qed.

(** C39: what is saved is what is shown and saved again. After the server has updated the
    channel with the payload of an edit without a new key, writing the fields of the struct that
    are not zero as GORM documents it, the form opened on the updated channel yields the same payload: the texts, the groups, the numbers, the extra settings and the
    settings of the channel type survive the two transformations. Texts that are pointers for the server may be emptied; name,
    models, the other text, type and status may be empty or zero only when the stored
    ones are, since the server keeps them otherwise. Conditions: the settings of the form are a
    JSON object and all that is written is read back from its JSON text; there is a
    group, and groups are trimmed, not empty and without commas; priority and weight are neither NaN nor the negative zero;
    the base URL, without its final slashes, does not end in white space. *)
Theorem edit_reopens_same `{GormUpdates} d o id ch :
  trim (f_key d) = [] → stored_settings d = JObj o →
  json_ok (JObj (fields (setting_object d))) → json_ok (JObj (saved_settings d o)) →
  f_group d ≠ [] → Forall (λ g, trim g = g ∧ g ≠ [] ∧ 44%N ∉ g) (f_group d) →
  Forall (λ x, num_or0 x = x) [default nzero (f_priority d); default nzero (f_weight d)] →
  trim (normalizeBaseUrl (f_base_url d)) = normalizeBaseUrl (f_base_url d) → not_emptied d ch →
  ∃ p, transformFormDataToUpdatePayload d id = Ret p ∧
    transformFormDataToUpdatePayload (transformChannelToFormDefaults (Channel_Update p ch)) id = Ret p.
Proof.
  intros Hk Hst Hset Hout Hne Hg Hnum Hu Hkept.
  assert (buildSettingsJSON d = Ret (stringify (JObj (saved_settings d o)))) as Hb by (unfold buildSettingsJSON; by rewrite Hst).
  set (settings := stringify (JObj (saved_settings d o))) in *.
  exists (assign (update_texts d) (clean (update_fields d id settings))).
  split; [rewrite update_payload_eq, Hb, Hk; reflexivity|].
  assert (buildSettingJSON d ≠ []) as Hs.
  { rewrite buildSettingJSON_eq. apply stringify_length in Hset. destruct (stringify _); [cbn in Hset; lia|done]. }
  assert (formatGroups (f_group d) ≠ []) as Hgr by (intros E; apply Hne; rewrite <- (groups_again _ Hg Hne), E; done).
  assert (settings ≠ []) as Hset2.
  { unfold settings. apply stringify_length in Hout. destruct (stringify (JObj (saved_settings d o))); [cbn in Hout; lia|done]. }
  rewrite stored_update by done. set (ch2 := Build_Channel _ _ _ _ _ _ _ _ _ _ _ _ _ _ _ _ _ _ _ _ _).
  set (d2 := transformChannelToFormDefaults ch2).
  assert (buildSettingsJSON d2 = Ret settings) as Hb2 by by apply (settings_again d o ch2).
  assert (buildSettingJSON d2 = buildSettingJSON d) as Hs2 by (rewrite !buildSettingJSON_eq; f_equal; f_equal; f_equal; by apply setting_again).
  assert (f_group d2 = f_group d) as Hg2.
  { unfold d2, transformChannelToFormDefaults, str_or. cbn [f_group ch2 ch_group].
    assert (nonempty (formatGroups (f_group d)) = true) as ->; [by apply nonempty_spec|by apply groups_again]. }
  assert (normalizeBaseUrl (f_base_url d2) = normalizeBaseUrl (f_base_url d)) as Hu2 by by apply base_url_again.
  assert (default nzero (f_priority d2) = default nzero (f_priority d) ∧ default nzero (f_weight d2) = default nzero (f_weight d)) as [Hp2 Hw2].
  { apply Forall_cons in Hnum as [H1 Hnum]. apply Forall_cons in Hnum as [H2 _]. exact (conj H1 H2). }
  rewrite update_payload_eq, Hb2. change (f_key d2) with (@nil N). cbn [trim nonempty].
  change (mbind ?f (Ret settings)) with (f settings). cbv beta zeta.
  unfold update_fields, update_texts. rewrite Hs2, Hg2, Hu2, Hp2, Hw2. reflexivity.
Qed.

(** Emptying the other text has no effect: it is sent as null, and the server keeps the
    stored one. *)
Theorem other_text_not_emptied `{GormUpdates} d id ch settings :
  buildSettingsJSON d = Ret settings → trim (f_key d) = [] → f_other d = [] →
  ∃ p, transformFormDataToUpdatePayload d id = Ret p ∧ obj_get (js "other") p = Some JNull ∧
    f_other (transformChannelToFormDefaults (Channel_Update p ch)) = ch_other ch.
Proof.
  intros Hb Hk Ho. eexists. split; [rewrite update_payload_eq, Hb, Hk; reflexivity|].
  pose proof (update_field_get d id settings 20 (js "other") _ eq_refl ltac:(vm_compute; reflexivity)) as E.
  rewrite Ho in E. split; [exact E|]. unfold transformChannelToFormDefaults, Channel_Update, payload_text. cbn [f_other ch_other].
  cbv zeta. cbn [nonempty] in *. rewrite E. apply set_text_zero.
Qed.

(** ** Accepted forms *)

(** Settings that the schema accepts can be rewritten: blank ones count as none. *)
Lemma accepted_settings d : isOptionalJsonObject (f_settings d) = true → ∃ o, stored_settings d = JObj o.
Proof.
  unfold isOptionalJsonObject, checked, parseOptionalJson, stored_settings. intros H.
  destruct (_ && negb (str_eqb _ _)); [|by eexists].
  destruct (negb (nonempty (trim (f_settings d)))) eqn:Hb.
  - rewrite json_parse_blank; [by eexists|]. apply negb_true_iff in Hb. by destruct (trim (f_settings d)).
  - destruct (json_parse (f_settings d)) as [[]|]; cbn [or_throw mbind exn_bind isJsonObjectValue] in H; try done; by eexists.
Qed.

Lemma clean_no_empty p : Forall (λ kv, kv.2 ≠ JStr []) (clean p).
Proof. apply Forall_forall. intros kv (w & -> & _)%list_elem_of_fmap. destruct w as [k [| | |[]| |]]; done. Qed.

(** C40: a form whose settings pass the schema can always be sent. The create payload
    has no empty text, each such field being null; the update payload has the key
    exactly when one was typed, and each nullable text as a text even when it is empty,
    so that the stored value is cleared. *)
Theorem accepted_form_sends d id :
  isOptionalJsonObject (f_settings d) = true →
  ∃ c p, transformFormDataToCreatePayload d = Ret c ∧ transformFormDataToUpdatePayload d id = Ret p ∧
    Forall (λ kv, kv.2 ≠ JStr []) (cr_channel c) ∧
    (obj_get (js "key") p = if nonempty (trim (f_key d)) then Some (JStr (f_key d)) else None) ∧
    (∀ k v, (k, v) ∈ update_texts d → obj_get k p = Some v) ∧
    (∃ out, obj_get (js "settings") (cr_channel c) = Some (JStr (stringify (JObj out))) ∧
      obj_get (js "settings") p = Some (JStr (stringify (JObj out)))).
Proof.
  intros [o Hst]%accepted_settings.
  assert (buildSettingsJSON d = Ret (stringify (JObj (saved_settings d o)))) as Hb by (unfold buildSettingsJSON; by rewrite Hst).
  unfold transformFormDataToCreatePayload. rewrite update_payload_eq, Hb.
  set (settings := stringify _). assert (cleaned (JStr settings) = JStr settings) as Hset by done.
  assert (settings = stringify (JObj (saved_settings d o))) as Hout by done. clearbody settings.
  change (mbind ?f (Ret settings)) with (f settings). cbv beta zeta. eexists _, _. split; [reflexivity|]. split; [reflexivity|].
  cbn [cr_channel]. split; [apply clean_no_empty|].
  assert (∀ k, bool_decide (k ∈ text_keys) = false → ∀ q, obj_get k (assign (update_texts d) (clean q)) = cleaned <$> obj_get k q) as Hq.
  { intros k Hk%bool_decide_eq_false q. rewrite obj_get_assign by apply update_texts_nodup.
    rewrite (obj_get_none k (update_texts d)) by exact Hk. apply obj_get_clean. }
  split; [|split].
  - rewrite Hq by (vm_compute; reflexivity).
    assert (obj_get (js "key") (update_fields d id settings) = None) as Hn.
    { apply obj_get_none. change (map fst (update_fields d id settings)) with update_keys.
      apply (bool_decide_eq_false_1 _). vm_compute. reflexivity. }
    destruct (nonempty (trim (f_key d))) eqn:Hk; [|by rewrite Hn]. rewrite obj_get_set. names.
    destruct (f_key d); [done|reflexivity].
  - intros k v Hin. rewrite obj_get_assign by apply update_texts_nodup.
    by rewrite (elem_obj_get_nodup _ _ _ (update_texts_nodup d) Hin).
  - exists (saved_settings d o). rewrite <- Hout, obj_get_clean, Hq by (vm_compute; reflexivity).
    assert (obj_get (js "settings") (update_fields d id settings) = Some (JStr settings)) as Hs.
    { apply (elem_obj_get_nodup _ _ _ (update_fields_nodup d id settings)). by apply (list_elem_of_lookup_2 _ 19). }
    split; [cbn [obj_get]; names; cbn [fmap option_fmap option_map]; by rewrite Hset|].
    assert (∀ b v, obj_get (js "settings") (if (b : bool) then obj_set (update_fields d id settings) (js "key") v
      else update_fields d id settings) = Some (JStr settings)) as ->; [|cbn [fmap option_fmap option_map]; by rewrite Hset].
    intros [] v; [|done]. rewrite obj_get_set. names. exact Hs.
Qed.

(** ** A concrete channel: an Anthropic channel that was a Vertex channel before *)

Definition demo_stored : json :=
  JObj [(js "vertex_key_type", JStr (js "json")); (js "claude_beta_query", JBool true); (js "note", JStr (js "kept"));
        (js "upstream_model_update_check_enabled", JBool true);
        (js "upstream_model_update_ignored_models", JArr [JStr (js "a"); JStr (js " b"); JStr (js "a")])].

Definition demo_channel : Channel := {|
  ch_name := js "main"; ch_type := num_of_Z 14; ch_base_url := Some (js " https://api.example.org/ "); ch_openai_organization := None;
  ch_models := js "a,b"; ch_group := js "default, vip"; ch_model_mapping := None; ch_priority := Some (num_of_Z 5);
  ch_weight := None; ch_test_model := None; ch_auto_ban := None; ch_status := num_of_Z 1; ch_status_code_mapping := None;
  ch_tag := Some (js "x"); ch_remark := []; ch_setting := Some (stringify (JObj [(js "proxy", JStr (js "p"))]));
  ch_param_override := None; ch_header_override := None; ch_settings := stringify demo_stored; ch_other := [];
  ch_multi_key_mode := [] |}.

Definition demo_form : ChannelFormValues := transformChannelToFormDefaults demo_channel.

Definition demo_settings : list (jstr * json) := match demo_stored with JObj o => o | _ => [] end.

Lemma demo_stored_ok : stored_settings demo_form = JObj demo_settings.
Proof. vm_compute. reflexivity. Qed.

Lemma settings_saved_witness :
  stored_settings demo_form = JObj demo_settings ∧
  obj_get (js "vertex_key_type") (saved_settings demo_form demo_settings) = None ∧
  obj_get (js "note") (saved_settings demo_form demo_settings) = Some (JStr (js "kept")).
Proof.
  split; [exact demo_stored_ok|].
  destruct (settings_saved demo_form demo_settings demo_stored_ok) as (_ & Ht & Hk & _). split.
  - apply Ht. apply (list_elem_of_lookup_2 _ 0). vm_compute. reflexivity.
  - rewrite Hk; [vm_compute; reflexivity|apply (bool_decide_eq_true_1 _); vm_compute; reflexivity..].
Defined.

(** Columns that are written when the sent value is not zero. *)
Definition nonzero_updates : GormUpdates.
Proof.
  refine {| set_text sent stored := str_or sent stored; set_num sent stored := if num_truthy sent then sent else stored;
            set_text_ptr sent stored := match sent with Some s => Some s | None => stored end;
            set_num_ptr sent stored := match sent with Some s => Some s | None => stored end |}; try done.
  - by intros [].
  - by intros ? ? ->.
  - by intros ? ? ->.
Defined.

Lemma edit_reopens_same_witness :
  ∃ p, transformFormDataToUpdatePayload demo_form (num_of_Z 7) = Ret p ∧
    transformFormDataToUpdatePayload (transformChannelToFormDefaults (Channel_Update (H := nonzero_updates) p demo_channel)) (num_of_Z 7) = Ret p.
Proof.
  apply (edit_reopens_same (H := nonzero_updates) demo_form demo_settings).
  - vm_compute. reflexivity.
  - exact demo_stored_ok.
  - apply json_okb_ok. vm_compute. reflexivity.
  - apply json_okb_ok. vm_compute. reflexivity.
  - vm_compute. discriminate.
  - apply parseGroups_normal.
  - repeat constructor; vm_compute; reflexivity.
  - vm_compute. reflexivity.
  - split; intros E; (reflexivity || discriminate E).
Defined.

Lemma accepted_form_sends_witness :
  isOptionalJsonObject (f_settings demo_form) = true ∧
  ∃ p, transformFormDataToUpdatePayload demo_form (num_of_Z 7) = Ret p ∧ obj_get (js "key") p = None ∧
    obj_get (js "test_model") p = Some (JStr []).
Proof.
  assert (isOptionalJsonObject (f_settings demo_form) = true) as H by (vm_compute; reflexivity).
  split; [exact H|]. destruct (accepted_form_sends demo_form (num_of_Z 7) H) as (c & p & _ & Hp & _ & Hk & Ht & _).
  exists p. split; [exact Hp|]. split; [exact Hk|]. apply Ht. apply (list_elem_of_lookup_2 _ 2). vm_compute. reflexivity.
Defined.
