(* ===== verification/StatusCodes.v ===== *)
(** * HTTP status-code rules

    [src/web/default/src/lib/http-status-code-rules.ts]: the parser of the
    comma-separated status codes and ranges of the monitoring settings, and
    [src/web/default/src/features/channels/lib/status-code-risk-guard.ts]: the
    checks on a channel's status-code mapping. *)

From S2P Require Import Prelude JsString JsRegExp JsNumber Json.
From Stdlib Require Import NArith ZArith.

Module Rules.

(** Codes are integers: [Number.parseInt] is only applied to runs of decimal
    digits, and a run whose value is not exactly representable is far outside
    100..599, where the code rejects it whatever its rounding. *)
Record StatusCodeRange := Range { start : N; end_ : N }.

Record ParsedHttpStatusCodeRules := Parsed {
  ok : bool;
  ranges : list StatusCodeRange;
  tokens : list jstr;
  normalized : jstr;
  invalidTokens : list jstr;
}.

#[export] Instance StatusCodeRange_eq_dec : EqDecision StatusCodeRange.
Proof. solve_decision. Defined.

Definition isNumber (s : jstr) : bool := re_test digits_re s.

Definition parseInt (s : jstr) : N := digits_val s.

Definition isValidCode (code : N) : bool := ((100 <=? code) && (code <=? 599))%N.

Definition parseToken (token : jstr) : option StatusCodeRange :=
  let cleaned := re_replace (RSet is_ws) [] (trim token) in
  if negb (nonempty cleaned) then None
  else if includes (js "-") cleaned then
    match split_char 45 cleaned with
    | a :: b :: _ =>
      if negb (isNumber a) || negb (isNumber b) then None
      else
        let start := parseInt a in
        let end_ := parseInt b in
        if negb (isValidCode start) || negb (isValidCode end_) || (end_ <? start)%N then None
        else Some (Range start end_)
    | _ => None
    end
  else if negb (isNumber cleaned) then None
  else
    let code := parseInt cleaned in
    if negb (isValidCode code) then None else Some (Range code code).

(** The comparator of the sort: [a.start - b.start], then [a.end - b.end]. *)
Definition range_le (a b : StatusCodeRange) : bool :=
  if (start a =? start b)%N then (end_ a <=? end_ b)%N else (start a <=? start b)%N.

(** One step of the [reduce]: push a copy, or extend the last range. *)
Definition merge_step (merged : list StatusCodeRange) (current : StatusCodeRange)
  : list StatusCodeRange :=
  match last merged with
  | None => merged ++ [current]
  | Some l =>
    if (end_ l + 1 <? start current)%N then merged ++ [current]
    else take (length merged - 1) merged ++ [Range (start l) (N.max (end_ l) (end_ current))]
  end.

Definition mergeRanges (rs : list StatusCodeRange) : list StatusCodeRange :=
  match rs with
  | [] => []
  | _ => foldl merge_step [] (stable_sort range_le rs)
  end.

Definition token_of (r : StatusCodeRange) : jstr :=
  if (start r =? end_ r)%N then dec (start r) else dec (start r) ++ js "-" ++ dec (end_ r).

(** The segments of the input: the full-width comma is a comma too. *)
Definition segments_of (raw : jstr) : list jstr :=
  List.filter nonempty
    (map trim (split_char 44 (re_replace (RSet (one_of (js "，"))) (js ",") raw))).

(** The loop over the segments: the ranges and the rejected segments. *)
Fixpoint parse_segments (segs : list jstr) : list StatusCodeRange * list jstr :=
  match segs with
  | [] => ([], [])
  | s :: segs =>
    let '(rs, bad) := parse_segments segs in
    match parseToken s with
    | None => (rs, s :: bad)
    | Some r => (r :: rs, bad)
    end
  end.

(** [input ?? ''] is [default []]; other inputs are given by their [toString]. *)
Definition parseHttpStatusCodeRules (input : option jstr) : ParsedHttpStatusCodeRules :=
  let raw := trim (default [] input) in
  if (length raw =? 0) then Parsed true [] [] [] []
  else
    let '(rs, bad) := parse_segments (segments_of raw) in
    if (0 <? length bad) then Parsed false [] [] raw bad
    else
      let merged := mergeRanges rs in
      let tokens := map token_of merged in
      Parsed true merged tokens (str_join (js ",") tokens) [].

Example parse_ex :
  parseHttpStatusCodeRules (Some (js " 500-503, 401，402,400 ,  502-5 99"))
  = Parsed true [Range 400 402; Range 500 599] [js "400-402"; js "500-599"]
      (js "400-402,500-599") [].
Proof. vm_compute. reflexivity. Qed.

(** ** Coverage *)

Definition in_range (r : StatusCodeRange) (c : N) : Prop := (start r <= c <= end_ r)%N.
Definition covered (rs : list StatusCodeRange) (c : N) : Prop := ∃ r, r ∈ rs ∧ in_range r c.

(** A range as the parser accepts them. *)
Definition range_ok (r : StatusCodeRange) : Prop :=
  (100 <= start r)%N ∧ (start r <= end_ r)%N ∧ (end_ r <= 599)%N.

(** Apart: not even adjacent, so that the list cannot be written shorter. *)
Definition apart (a b : StatusCodeRange) : Prop := (end_ a + 1 < start b)%N.
Definition separated (rs : list StatusCodeRange) : Prop := StronglySorted apart rs.

Lemma covered_nil c : ¬ covered [] c.
Proof. intros (r & Hr & _). set_solver. Qed.

Lemma covered_cons r rs c : covered (r :: rs) c ↔ in_range r c ∨ covered rs c.
Proof. unfold covered. set_solver. Qed.

Lemma covered_app rs1 rs2 c : covered (rs1 ++ rs2) c ↔ covered rs1 c ∨ covered rs2 c.
Proof. unfold covered. set_solver. Qed.

Lemma covered_perm rs1 rs2 c : rs1 ≡ₚ rs2 → covered rs1 c ↔ covered rs2 c.
Proof. intros H. unfold covered. by setoid_rewrite H. Qed.

Lemma separated_snoc rs r :
  separated (rs ++ [r]) ↔ separated rs ∧ Forall (λ a, apart a r) rs.
Proof.
  unfold separated. induction rs as [|a rs IH]; simpl.
  - split; [split; constructor|]. intros _. repeat constructor.
  - rewrite !StronglySorted_cons, IH, Forall_app, !Forall_cons, Forall_nil. tauto.
Qed.

(** ** Merging *)
Lemma range_le_total a b : range_le a b = false → range_le b a = true.
Proof.
  unfold range_le. rewrite (N.eqb_sym (start b)).
  destruct (N.eqb_spec (start a) (start b)); rewrite N.leb_gt, N.leb_le; lia.
Qed.

Lemma range_le_trans a b c : range_le a b = true → range_le b c = true → range_le a c = true.
Proof.
  unfold range_le.
  destruct (N.eqb_spec (start a) (start b)), (N.eqb_spec (start b) (start c)),
    (N.eqb_spec (start a) (start c)); rewrite !N.leb_le; lia.
Qed.

Lemma range_le_start a b : range_le a b = true → (start a <= start b)%N.
Proof.
  unfold range_le. destruct (N.eqb_spec (start a) (start b)); rewrite N.leb_le; lia.
Qed.

(** The invariant of the [reduce] on a prefix of the sorted ranges. *)
Record merge_inv (merged : list StatusCodeRange) : Prop := {
  inv_sep : separated merged;
  inv_ok : Forall range_ok merged;
}.

Lemma merge_step_extend m l cur :
  merge_step (m ++ [l]) cur =
    if (end_ l + 1 <? start cur)%N then m ++ [l] ++ [cur]
    else m ++ [Range (start l) (N.max (end_ l) (end_ cur))].
Proof.
  unfold merge_step. rewrite last_snoc, length_app. simpl.
  rewrite Nat.add_sub, take_app_length. by rewrite <- app_assoc.
Qed.

Lemma merge_step_inv merged cur :
  merge_inv merged → range_ok cur →
  (∀ l, last merged = Some l → (start l <= start cur)%N) →
  merge_inv (merge_step merged cur)
  ∧ (∀ c, covered (merge_step merged cur) c ↔ covered merged c ∨ in_range cur c)
  ∧ (∀ l, last (merge_step merged cur) = Some l → (start l <= start cur)%N).
Proof.
  intros [Hsep Hok] Hcur Hlast. destruct (last merged) as [l|] eqn:Hl.
  2: { apply last_None in Hl as ->. change (merge_step [] cur) with [cur]. split_and!.
       - split; [apply SSorted_cons; constructor|by apply Forall_singleton].
       - intros c. rewrite covered_cons. pose proof (covered_nil c). tauto.
       - intros l [= <-]. done. }
  apply last_snoc_inv in Hl as [m ->]. specialize (Hlast l eq_refl).
  apply separated_snoc in Hsep as [Hm Hml]. apply Forall_app in Hok as [Hokm Hokl].
  rewrite Forall_singleton in Hokl. rewrite merge_step_extend.
  destruct (N.ltb_spec (end_ l + 1) (start cur)) as [Hlt|Hge].
  - rewrite app_assoc. split_and!.
    + split; [|rewrite !Forall_app, !Forall_singleton; tauto].
      apply separated_snoc. split; [by apply separated_snoc|].
      apply Forall_app. split; [|by constructor].
      eapply Forall_impl; [exact Hml|]. unfold apart, range_ok in *. intros a ?. lia.
    + intros c. rewrite covered_app, covered_cons. pose proof (covered_nil c). tauto.
    + intros l'. rewrite last_snoc. intros [= <-]. done.
  - split_and!.
    + split; [by apply separated_snoc|]. rewrite Forall_app, Forall_singleton. split; [done|].
      unfold range_ok in *. simpl. lia.
    + intros c. rewrite !covered_app, !covered_cons. unfold in_range, range_ok in *. simpl.
      pose proof (covered_nil c). intuition lia.
    + intros l'. rewrite last_snoc. intros [= <-]. done.
Qed.

Lemma merge_fold_inv rs merged :
  merge_inv merged → Forall range_ok rs →
  StronglySorted (λ a b, range_le a b = true) rs →
  (∀ l r, last merged = Some l → r ∈ rs → (start l <= start r)%N) →
  merge_inv (foldl merge_step merged rs)
  ∧ ∀ c, covered (foldl merge_step merged rs) c ↔ covered merged c ∨ covered rs c.
Proof.
  intros Hm Hok Hs. revert merged Hm.
  induction Hs as [|r rs Hs IH Hr]; intros merged Hm Hlast; simpl.
  { split; [done|]. intros c. pose proof (covered_nil c). tauto. }
  apply Forall_cons in Hok as [Hokr Hok].
  destruct (merge_step_inv merged r) as (Hm' & Hcov & Hl'); [done|done|set_solver|].
  destruct (IH Hok (merge_step merged r) Hm') as [Hinv Hc].
  { intros l x Hl Hx. rewrite Forall_forall in Hr. specialize (Hr x Hx).
    apply range_le_start in Hr. specialize (Hl' l Hl). lia. }
  split; [done|]. intros c. rewrite Hc, Hcov, covered_cons. tauto.
Qed.

Lemma mergeRanges_spec rs :
  Forall range_ok rs →
  separated (mergeRanges rs) ∧ Forall range_ok (mergeRanges rs)
  ∧ ∀ c, covered (mergeRanges rs) c ↔ covered rs c.
Proof.
  intros Hok. destruct rs as [|r rs]; [split_and!; [apply SSorted_nil|done..]|]. unfold mergeRanges.
  remember (r :: rs) as l eqn:E. clear E.
  destruct (merge_fold_inv (stable_sort range_le l) []) as [[Hs Ho] Hc].
  - split; constructor.
  - by rewrite stable_sort_perm.
  - apply stable_sort_sorted; [apply range_le_total|apply range_le_trans].
  - done.
  - split_and!; [done|done|]. intros c. rewrite Hc, (covered_perm (stable_sort range_le l) l) by apply stable_sort_perm.
    pose proof (covered_nil c). tauto.
Qed.

(** ** The normal form is unique *)
Lemma separated_head_min a rs c :
  separated (a :: rs) → Forall range_ok (a :: rs) → covered (a :: rs) c → (start a <= c)%N.
Proof.
  intros [_ Ha]%StronglySorted_inv Hok (r & Hr & Hc).
  rewrite Forall_forall in Ha, Hok. pose proof (Hok a ltac:(set_solver)).
  apply elem_of_cons in Hr as [->|Hr]; [unfold in_range in Hc; lia|].
  specialize (Ha r Hr). unfold apart, in_range, range_ok in *. lia.
Qed.

Lemma separated_gap a rs :
  separated (a :: rs) → Forall range_ok (a :: rs) → ¬ covered (a :: rs) (end_ a + 1)%N.
Proof.
  intros [_ Ha]%StronglySorted_inv Hok (r & Hr & Hc).
  rewrite Forall_forall in Ha. apply elem_of_cons in Hr as [->|Hr]; [unfold in_range in Hc; lia|].
  specialize (Ha r Hr). unfold apart, in_range in *. lia.
Qed.

Lemma separated_tail_cover a rs c :
  separated (a :: rs) → covered rs c ↔ covered (a :: rs) c ∧ (end_ a < c)%N.
Proof.
  intros [_ Ha]%StronglySorted_inv. rewrite covered_cons. unfold in_range. split.
  - intros (r & Hr & Hc). split; [right; by exists r|].
    rewrite Forall_forall in Ha. specialize (Ha r Hr). unfold apart, in_range in *. lia.
  - intros [[H|H] Hlt]; [lia|done].
Qed.

Lemma covered_head a rs c : in_range a c → covered (a :: rs) c.
Proof. intros H. exists a. set_solver. Qed.

Lemma separated_unique rs1 rs2 :
  separated rs1 → separated rs2 → Forall range_ok rs1 → Forall range_ok rs2 →
  (∀ c, covered rs1 c ↔ covered rs2 c) → rs1 = rs2.
Proof.
  revert rs2; induction rs1 as [|a rs1 IH]; intros [|b rs2] Hs1 Hs2 Ho1 Ho2 Hc; [done| | |].
  - exfalso. apply (covered_nil (start b)), Hc, covered_head.
    apply Forall_cons in Ho2 as [Hb _]. unfold in_range, range_ok in *. lia.
  - exfalso. apply (covered_nil (start a)), Hc, covered_head.
    apply Forall_cons in Ho1 as [Ha _]. unfold in_range, range_ok in *. lia.
  - assert (range_ok a ∧ range_ok b) as [Ha Hb]
      by (apply Forall_cons in Ho1 as [? _]; apply Forall_cons in Ho2 as [? _]; done).
    pose proof (separated_head_min a rs1 (start b) Hs1 Ho1) as H1. rewrite Hc in H1.
    pose proof (separated_head_min b rs2 (start a) Hs2 Ho2) as H2. rewrite <- Hc in H2.
    pose proof (separated_gap a rs1 Hs1 Ho1) as G1. rewrite Hc, covered_cons in G1.
    pose proof (separated_gap b rs2 Hs2 Ho2) as G2. rewrite <- Hc, covered_cons in G2.
    pose proof (covered_head a rs1 (start a)) as C1. pose proof (covered_head b rs2 (start b)) as C2.
    unfold in_range, range_ok in *.
    assert (start a = start b) as Es by (apply N.le_antisymm; [apply H1, C2|apply H2, C1]; lia).
    assert (end_ a = end_ b) as Ee by lia.
    destruct a, b; simpl in *; subst. f_equal. apply IH.
    + by apply StronglySorted_inv in Hs1 as [? _].
    + by apply StronglySorted_inv in Hs2 as [? _].
    + by apply Forall_cons in Ho1 as [_ ?].
    + by apply Forall_cons in Ho2 as [_ ?].
    + intros c. rewrite (separated_tail_cover _ _ c Hs1), (separated_tail_cover _ _ c Hs2). by rewrite Hc.
Qed.

(** Merging is the identity on a normal form. *)
Lemma mergeRanges_fix rs : separated rs → Forall range_ok rs → mergeRanges rs = rs.
Proof.
  intros Hs Ho. destruct (mergeRanges_spec rs Ho) as (? & ? & ?).
  by apply separated_unique.
Qed.

(** ** Tokens *)
Lemma isNumber_spec s : isNumber s = true ↔ s ≠ [] ∧ Forall (λ c, is_digit c = true) s.
Proof. apply re_test_digits. Qed.

Lemma isNumber_dec n : isNumber (dec n) = true.
Proof. apply isNumber_spec. split; [apply dec_nonnil|apply dec_digits]. Qed.

Lemma isValidCode_spec c : isValidCode c = true ↔ (100 <= c <= 599)%N.
Proof. unfold isValidCode. rewrite andb_true_iff, !N.leb_le. done. Qed.

(** The code units of a printed token. *)
Definition token_unit (c : N) : bool := is_digit c || (c =? 45)%N.

Lemma token_unit_facts c :
  token_unit c = true → is_ws c = false ∧ c ≠ 44%N ∧ one_of (js "，") c = false.
Proof.
  unfold token_unit. rewrite orb_true_iff, N.eqb_eq. intros [H| ->]; [|done].
  split; [by apply is_digit_not_ws|]. unfold is_digit in H. boolify.
  split; [lia|]. unfold one_of. apply bool_decide_eq_false. js_eval. set_unfold. lia.
Qed.

Lemma digit_token_unit s : Forall (λ c, is_digit c = true) s → Forall (λ c, token_unit c = true) s.
Proof. intros HF. eapply Forall_impl; [exact HF|]. intros c H. unfold token_unit. by rewrite H. Qed.

Lemma token_of_units r : Forall (λ c, token_unit c = true) (token_of r).
Proof.
  unfold token_of. case_match; [apply digit_token_unit, dec_digits|].
  rewrite !Forall_app. split_and!; [apply digit_token_unit, dec_digits| |apply digit_token_unit, dec_digits].
  by constructor.
Qed.

Lemma token_of_nonempty r : nonempty (token_of r) = true.
Proof.
  unfold token_of. pose proof (dec_nonnil (start r)).
  destruct (dec (start r)); [done|]. by case_match.
Qed.

Lemma units_trim s : Forall (λ c, token_unit c = true) s → trim s = s.
Proof.
  intros H. apply trim_fix. unfold no_edge_ws. rewrite Forall_forall in H.
  apply andb_true_iff; split.
  - destruct (head s) as [c|] eqn:E; [|done]. apply head_Some_elem_of, H, token_unit_facts in E.
    destruct E as [-> _]. done.
  - destruct (last s) as [c|] eqn:E; [|done]. apply last_Some_elem_of, H, token_unit_facts in E.
    destruct E as [-> _]. done.
Qed.

Lemma units_clean s :
  Forall (λ c, token_unit c = true) s → re_replace (RSet is_ws) [] (trim s) = s.
Proof.
  intros H. rewrite units_trim, re_replace_set, subst_set_none; [done| |done].
  eapply Forall_impl; [exact H|]. intros c Hc. by apply token_unit_facts in Hc as [? _].
Qed.

Lemma digits_no_dash s : Forall (λ c, is_digit c = true) s → (45 ∉ s)%N.
Proof.
  intros H Hin. rewrite Forall_forall in H. apply H in Hin. done.
Qed.

Lemma includes_elem c s : includes [c] s = bool_decide (c ∈ s).
Proof.
  apply eq_bool_prop_intro. rewrite !Is_true_true, includes_spec, bool_decide_eq_true. split.
  - intros (a & b & ->). set_solver.
  - intros (a & b & ->)%list_elem_of_split. eauto.
Qed.

Lemma parseToken_clean s :
  Forall (λ c, token_unit c = true) s → s ≠ [] →
  parseToken s =
    if includes (js "-") s then
      match split_char 45 s with
      | a :: b :: _ =>
        if negb (isNumber a) || negb (isNumber b) then None
        else if negb (isValidCode (parseInt a)) || negb (isValidCode (parseInt b))
                || (parseInt b <? parseInt a)%N then None
        else Some (Range (parseInt a) (parseInt b))
      | _ => None
      end
    else if negb (isNumber s) then None
    else if negb (isValidCode (parseInt s)) then None else Some (Range (parseInt s) (parseInt s)).
Proof.
  intros H Hne. unfold parseToken. rewrite units_clean by done. by destruct s.
Qed.

Lemma parseToken_token_of r : range_ok r → parseToken (token_of r) = Some r.
Proof.
  intros (H1 & H2 & H3).
  rewrite parseToken_clean by (apply token_of_units || (pose proof (token_of_nonempty r); by destruct (token_of r))).
  js_eval. rewrite includes_elem. unfold token_of. destruct (N.eqb_spec (start r) (end_ r)) as [E|E].
  - rewrite bool_decide_eq_false_2 by (apply digits_no_dash, dec_digits).
    rewrite isNumber_dec. unfold parseInt. rewrite digits_val_dec.
    rewrite (proj2 (isValidCode_spec _)) by lia. simpl. destruct r; simpl in *; congruence.
  - js_eval. rewrite bool_decide_eq_true_2 by set_solver. cbn [app].
    rewrite split_char_app by (apply digits_no_dash, dec_digits).
    rewrite split_char_none by (apply digits_no_dash, dec_digits).
    rewrite !isNumber_dec. unfold parseInt. rewrite !digits_val_dec.
    rewrite !(proj2 (isValidCode_spec _)) by lia.
    rewrite (proj2 (N.ltb_ge _ _)) by lia. by destruct r.
Qed.

Lemma parseToken_range_ok s r : parseToken s = Some r → range_ok r.
Proof.
  unfold parseToken. intros H.
  repeat (case_match; simplify_eq); boolify;
    repeat match goal with H : isValidCode _ = true |- _ => apply isValidCode_spec in H end;
    unfold range_ok; simpl; lia.
Qed.

(** ** The whole parser *)
Lemma parse_segments_spec segs :
  parse_segments segs =
    (omap parseToken segs, List.filter (λ s, bool_decide (parseToken s = None)) segs).
Proof.
  induction segs as [|s segs IH]; [done|]. cbn [parse_segments]. rewrite IH. simpl.
  destruct (parseToken s); done.
Qed.

(** The segments of a list of printed tokens are the tokens. *)
Lemma segments_of_tokens l :
  l ≠ [] → Forall (λ t, Forall (λ c, token_unit c = true) t ∧ nonempty t = true) l →
  segments_of (str_join (js ",") l) = l.
Proof.
  intros Hne Hl. unfold segments_of. rewrite re_replace_set, subst_set_none.
  - change (js ",") with [44%N]. rewrite split_join; [|done|].
    + clear Hne. induction Hl as [|t l [Ht Hn] Hl IH]; [done|].
      simpl. rewrite units_trim, Hn by done. by rewrite IH.
    + eapply Forall_impl; [exact Hl|]. intros t [Ht _] Hin. rewrite Forall_forall in Ht.
      by apply Ht in Hin.
  - apply Forall_forall. intros c [Hc|(t & Ht & Hc)]%elem_of_join.
    + change (js ",") with [44%N] in Hc. by apply list_elem_of_singleton in Hc as ->.
    + rewrite Forall_forall in Hl. destruct (Hl t Ht) as [HF _]. rewrite Forall_forall in HF.
      apply HF, token_unit_facts in Hc. tauto.
Qed.

Lemma join_units_trim l :
  Forall (λ t, Forall (λ c, token_unit c = true) t ∧ nonempty t = true) l →
  trim (str_join (js ",") l) = str_join (js ",") l.
Proof.
  intros Hl. apply trim_fix. unfold no_edge_ws.
  assert (∀ c, c ∈ str_join (js ",") l → is_ws c = false) as H.
  { intros c [Hc|(t & Ht & Hc)]%elem_of_join.
    - change (js ",") with [44%N] in Hc. by apply list_elem_of_singleton in Hc as ->.
    - rewrite Forall_forall in Hl. destruct (Hl t Ht) as [HF _]. rewrite Forall_forall in HF.
      apply HF, token_unit_facts in Hc. tauto. }
  apply andb_true_iff; split.
  - destruct (head _) eqn:E; [|done]. by rewrite H by (by apply head_Some_elem_of).
  - destruct (last _) eqn:E; [|done]. by rewrite H by (by apply last_Some_elem_of).
Qed.

Lemma tokens_units rs :
  Forall (λ t, Forall (λ c, token_unit c = true) t ∧ nonempty t = true) (map token_of rs).
Proof.
  apply Forall_forall. intros t (r & -> & _)%list_elem_of_fmap.
  split; [apply token_of_units|apply token_of_nonempty].
Qed.

Lemma omap_tokens rs : Forall range_ok rs → omap parseToken (map token_of rs) = rs.
Proof.
  induction 1 as [|r rs Hr _ IH]; [done|]. csimpl. by rewrite parseToken_token_of, IH.
Qed.

Lemma filter_tokens rs :
  Forall range_ok rs →
  List.filter (λ s, bool_decide (parseToken s = None)) (map token_of rs) = [].
Proof.
  induction 1 as [|r rs Hr _ IH]; [done|]. simpl. by rewrite parseToken_token_of, IH.
Qed.

Lemma join_nonempty l :
  l ≠ [] → Forall (λ t, nonempty t = true) l → str_join (js ",") l ≠ [].
Proof.
  intros Hne Hl. destruct Hl as [|t l Ht Hl]; [done|].
  destruct t as [|c t]; [done|]. by destruct l.
Qed.

(** Parsing what the parser printed. *)
Lemma parse_printed rs :
  separated rs → Forall range_ok rs →
  parseHttpStatusCodeRules (Some (str_join (js ",") (map token_of rs)))
  = Parsed true rs (map token_of rs) (str_join (js ",") (map token_of rs)) [].
Proof.
  intros Hs Ho. unfold parseHttpStatusCodeRules. simpl default.
  rewrite join_units_trim by apply tokens_units.
  destruct rs as [|r rs]; [done|]. remember (r :: rs) as l eqn:E.
  assert (l ≠ []) as Hl by (by subst).
  rewrite (proj2 (Nat.eqb_neq _ 0)).
  2: { intros H%nil_length_inv. revert H. apply join_nonempty; [by subst|].
       eapply Forall_impl; [apply tokens_units|]. intros t [_ ?]. done. }
  rewrite segments_of_tokens; [|by subst|apply tokens_units].
  rewrite parse_segments_spec, filter_tokens, omap_tokens by done.
  simpl. by rewrite mergeRanges_fix.
Qed.

Lemma parse_cases input :
  let segs := segments_of (trim (default [] input)) in
  let bad := List.filter (λ s, bool_decide (parseToken s = None)) segs in
  parseHttpStatusCodeRules input =
    if bool_decide (trim (default [] input) = []) then Parsed true [] [] [] []
    else if bool_decide (bad = []) then
      let merged := mergeRanges (omap parseToken segs) in
      Parsed true merged (map token_of merged) (str_join (js ",") (map token_of merged)) []
    else Parsed false [] [] (trim (default [] input)) bad.
Proof.
  intros segs bad. unfold parseHttpStatusCodeRules.
  destruct (trim (default [] input)) as [|c t] eqn:E; [done|].
  rewrite bool_decide_eq_false_2 by done. simpl Nat.eqb. cbv iota.
  rewrite parse_segments_spec. unfold segs, bad. by destruct (List.filter _ _).
Qed.

Lemma segment_ranges_ok segs : Forall range_ok (omap parseToken segs).
Proof.
  apply Forall_forall. intros r (s & _ & Hs)%list_elem_of_omap.
  by eapply parseToken_range_ok.
Qed.

Lemma parse_merged input :
  ok (parseHttpStatusCodeRules input) = true →
  ∃ rs, parseHttpStatusCodeRules input
        = Parsed true rs (map token_of rs) (str_join (js ",") (map token_of rs)) []
    ∧ separated rs ∧ Forall range_ok rs
    ∧ ∀ c, covered rs c ↔
        covered (omap parseToken (segments_of (trim (default [] input)))) c.
Proof.
  rewrite parse_cases. case_bool_decide as E1; [|case_bool_decide; [|done]]; intros _.
  - exists []. split_and!; [done|apply SSorted_nil|done|]. intros c. by rewrite E1.
  - eexists. split; [reflexivity|]. apply mergeRanges_spec, segment_ranges_ok.
Qed.

(** ** Properties *)

(** C10: when the parser accepts its input, the ranges it returns lie in
    100..599, are in ascending order with a gap between any two of them, and
    cover exactly the codes that the segments of the input name. *)
Theorem parse_ranges_sound (input : option jstr) (p : ParsedHttpStatusCodeRules) :
  parseHttpStatusCodeRules input = p → ok p = true →
  separated (ranges p) ∧ Forall range_ok (ranges p)
  ∧ ∀ c, covered (ranges p) c ↔
      ∃ seg r, seg ∈ segments_of (trim (default [] input)) ∧ parseToken seg = Some r ∧ in_range r c.
Proof.
  intros <- Hok. destruct (parse_merged input Hok) as (rs & -> & Hs & Ho & Hc). simpl.
  split_and!; [done|done|]. intros c. rewrite Hc. unfold covered.
  setoid_rewrite list_elem_of_omap. naive_solver.
Qed.

Lemma parse_ranges_sound_witness :
  ok (parseHttpStatusCodeRules (Some (js "500-503,401"))) = true
  ∧ covered (ranges (parseHttpStatusCodeRules (Some (js "500-503,401")))) 502.
Proof.
  split; [by vm_compute|].
  apply (parse_ranges_sound (Some (js "500-503,401")) _ eq_refl); [by vm_compute|].
  exists (js "500-503"), (Range 500 503). split_and!; [|by vm_compute|by vm_compute].
  assert (segments_of (trim (default [] (Some (js "500-503,401")))) = [js "500-503"; js "401"])
    as -> by (vm_compute; reflexivity).
  apply elem_of_cons. by left.
Defined.

(** parsing is idempotent: the normalized text of an accepted input parses
    to the very same ranges, tokens and normalized text. *)
Theorem parse_normalized_roundtrip (input : option jstr) :
  ok (parseHttpStatusCodeRules input) = true →
  parseHttpStatusCodeRules (Some (normalized (parseHttpStatusCodeRules input)))
  = parseHttpStatusCodeRules input.
Proof.
  intros Hok. destruct (parse_merged input Hok) as (rs & -> & Hs & Ho & _).
  by apply parse_printed.
Qed.

Lemma parse_normalized_roundtrip_witness :
  normalized (parseHttpStatusCodeRules (Some (js "503,500-502, 401"))) = js "401,500-503"
  ∧ parseHttpStatusCodeRules (Some (normalized (parseHttpStatusCodeRules (Some (js "503,500-502, 401")))))
    = parseHttpStatusCodeRules (Some (js "503,500-502, 401")).
Proof.
  split; [by vm_compute|]. apply (parse_normalized_roundtrip (Some (js "503,500-502, 401"))).
  by vm_compute.
Defined.

(** The normalized text is a canonical form: two accepted inputs give the
    same result exactly when they name the same set of status codes. *)
Theorem parse_canonical (input1 input2 : option jstr) :
  ok (parseHttpStatusCodeRules input1) = true → ok (parseHttpStatusCodeRules input2) = true →
  parseHttpStatusCodeRules input1 = parseHttpStatusCodeRules input2 ↔
  (∀ c, covered (ranges (parseHttpStatusCodeRules input1)) c
        ↔ covered (ranges (parseHttpStatusCodeRules input2)) c).
Proof.
  intros (rs1 & E1 & Hs1 & Ho1 & _)%parse_merged (rs2 & E2 & Hs2 & Ho2 & _)%parse_merged.
  rewrite E1, E2. simpl. split; [by intros [= -> _ _]|].
  intros Hc. by rewrite (separated_unique rs1 rs2).
Qed.

Lemma parse_canonical_witness :
  parseHttpStatusCodeRules (Some (js "401,402-403")) = parseHttpStatusCodeRules (Some (js "402 - 403，401")).
Proof.
  apply (parse_canonical (Some (js "401,402-403")) (Some (js "402 - 403，401"))).
  - by vm_compute.
  - by vm_compute.
  - intros c.
    assert (ranges (parseHttpStatusCodeRules (Some (js "401,402-403")))
      = ranges (parseHttpStatusCodeRules (Some (js "402 - 403，401")))) as -> by (vm_compute; reflexivity).
    done.
Defined.

(** The error path: the parser rejects its input exactly when some segment
    is not a valid token; then it returns no range and no token, the trimmed
    input unchanged, and the offending segments, all of them and in order. *)
Theorem parse_rejects (input : option jstr) (p : ParsedHttpStatusCodeRules) :
  parseHttpStatusCodeRules input = p →
  (ok p = false ↔ trim (default [] input) ≠ [] ∧
     ∃ seg, seg ∈ segments_of (trim (default [] input)) ∧ parseToken seg = None)
  ∧ (ok p = false →
     ranges p = [] ∧ tokens p = [] ∧ normalized p = trim (default [] input)
     ∧ invalidTokens p = List.filter (λ s, bool_decide (parseToken s = None))
                           (segments_of (trim (default [] input)))).
Proof.
  intros <-. rewrite parse_cases. case_bool_decide as E1; [|case_bool_decide as E2]; simpl.
  - split; [|done]. split; [done|]. intros [? _]. done.
  - split; [|done]. split; [done|]. intros [_ (s & Hs & Hn)]. exfalso.
    apply (elem_of_nil s). rewrite <- E2, list_elem_of_In, filter_In, <- list_elem_of_In.
    by rewrite bool_decide_eq_true.
  - split; [|done]. split; [|done]. intros _. split; [done|].
    destruct (List.filter _ _) as [|s l] eqn:E; [done|]. exists s.
    assert (In s (s :: l)) as Hin by (by left). rewrite <- E, filter_In, bool_decide_eq_true in Hin.
    by rewrite list_elem_of_In.
Qed.

Lemma parse_rejects_witness :
  invalidTokens (parseHttpStatusCodeRules (Some (js "400,abc,99,500-400"))) = [js "abc"; js "99"; js "500-400"].
Proof.
  destruct (parse_rejects (Some (js "400,abc,99,500-400")) _ eq_refl) as [_ H].
  destruct H as (_ & _ & _ & H); [by vm_compute|]. rewrite H. by vm_compute.
Defined.

(** Only the first two dash-separated parts of a range token are looked at:
    [a-b-x] is accepted as the range [a-b] whatever digits or dashes follow. *)
Theorem parse_ignores_extra_dashes (r : StatusCodeRange) (rest : jstr) :
  range_ok r → Forall (λ c, token_unit c = true) rest →
  parseToken (dec (start r) ++ js "-" ++ dec (end_ r) ++ js "-" ++ rest) = Some r.
Proof.
  intros (H1 & H2 & H3) Hrest. rewrite parseToken_clean.
  - js_eval. rewrite includes_elem, bool_decide_eq_true_2 by set_solver. cbn [app].
    rewrite !split_char_app by (apply digits_no_dash, dec_digits).
    rewrite !isNumber_dec. unfold parseInt. rewrite !digits_val_dec.
    rewrite !(proj2 (isValidCode_spec _)) by lia.
    rewrite (proj2 (N.ltb_ge _ _)) by lia. by destruct r.
  - rewrite !Forall_app. split_and!; auto using digit_token_unit, dec_digits; by constructor.
  - pose proof (dec_nonnil (start r)). by destruct (dec (start r)).
Qed.

Lemma parse_ignores_extra_dashes_witness :
  parseToken (dec 200 ++ js "-" ++ dec 300 ++ js "-" ++ js "400") = Some (Range 200 300).
Proof.
  apply (parse_ignores_extra_dashes (Range 200 300) (js "400")).
  - repeat split; simpl; lia.
  - apply forallb_Forall. by vm_compute.
Defined.

End Rules.

(** * The status-code mapping guard *)

Module Guard.

Definition NON_REDIRECTABLE_STATUS_CODES : list N := [504; 524]%N.

(** [/^[1-5]\d{2}$/]. *)
Definition code_re : regex :=
  RSeq RBol (RSeq (RSeq (RSet (λ c, (49 <=? c) && (c <=? 53))%N) (RSeq RDigit RDigit)) REol).

Definition parseStatusCodeKey (rawKey : jstr) : option N :=
  let normalized := trim rawKey in
  if negb (re_test code_re normalized) then None else Some (digits_val normalized).

Definition parseStatusCodeMappingTarget (rawValue : json) : option N :=
  match rawValue with
  | JNum x =>
    match num_to_Z x with
    | Some z => if ((100 <=? z) && (z <=? 599))%Z then Some (Z.to_N z) else None
    | None => None
    end
  | JStr s =>
    let normalized := trim s in
    if negb (re_test code_re normalized) then None
    else
      let code := digits_val normalized in
      if ((100 <=? code) && (code <=? 599))%N then Some code else None
  | _ => None
  end.

(** The guards shared by the collectors: the entries of the parsed mapping, none
    when the text is blank, is not JSON or is not a JSON object. *)
Definition mapping_entries (statusCodeMappingStr : option jstr) : list (jstr * json) :=
  match statusCodeMappingStr with
  | None => []
  | Some s =>
    if negb (nonempty (trim s)) then []
    else match json_parse s with
         | Some (JObj l) => l
         | _ => []
         end
  end.

(** The body of the loop of [collectInvalidStatusCodeEntries]. *)
Definition invalid_entry (e : jstr * json) : exn (option jstr) :=
  let '(rawKey, rawValue) := e in
  match parseStatusCodeKey rawKey, parseStatusCodeMappingTarget rawValue with
  | Some _, Some _ => Ret None
  | _, _ => text ← js_string rawValue; Ret (Some (rawKey ++ js " → " ++ text))
  end.

Fixpoint invalid_entries (l : list (jstr * json)) : exn (list jstr) :=
  match l with
  | [] => Ret []
  | e :: l => i ← invalid_entry e; invalid ← invalid_entries l; Ret (option_list i ++ invalid)
  end.

Definition collectInvalidStatusCodeEntries (s : option jstr) : exn (list jstr) :=
  invalid_entries (mapping_entries s).

(** The body of the loop of [collectDisallowedStatusCodeRedirects]. *)
Definition risky_entry (e : jstr * json) : option jstr :=
  let '(rawFrom, rawTo) := e in
  match parseStatusCodeKey rawFrom, parseStatusCodeMappingTarget rawTo with
  | Some fromCode, Some toCode =>
    if negb (bool_decide (fromCode ∈ NON_REDIRECTABLE_STATUS_CODES)) then None
    else if (fromCode =? toCode)%N then None
    else Some (dec fromCode ++ js " -> " ++ dec toCode)
  | _, _ => None
  end.

Definition collectDisallowedStatusCodeRedirects (s : option jstr) : list jstr :=
  stable_sort str_leb (dedup (omap risky_entry (mapping_entries s))).

Definition collectNewDisallowedStatusCodeRedirects (originalStr currentStr : option jstr) : list jstr :=
  let currentRisky := collectDisallowedStatusCodeRedirects currentStr in
  if (length currentRisky =? 0) then []
  else
    let originalRiskySet := collectDisallowedStatusCodeRedirects originalStr in
    List.filter (λ mapping, negb (bool_decide (mapping ∈ originalRiskySet))) currentRisky.

(** ** Properties *)

(** A mapping of a non-redirectable code to another status code. *)
Definition redirects (s : option jstr) (a b : N) : Prop :=
  ∃ k v, (k, v) ∈ mapping_entries s ∧ parseStatusCodeKey k = Some a
    ∧ parseStatusCodeMappingTarget v = Some b
    ∧ a ∈ NON_REDIRECTABLE_STATUS_CODES ∧ a ≠ b.

Definition redirect_text (a b : N) : jstr := dec a ++ js " -> " ++ dec b.

Lemma risky_entry_spec k v m :
  risky_entry (k, v) = Some m ↔
  ∃ a b, parseStatusCodeKey k = Some a ∧ parseStatusCodeMappingTarget v = Some b
    ∧ a ∈ NON_REDIRECTABLE_STATUS_CODES ∧ a ≠ b ∧ m = redirect_text a b.
Proof.
  unfold risky_entry, redirect_text. split.
  - repeat (case_match; simplify_eq/=); intros; simplify_eq/=; boolify. naive_solver.
  - intros (a & b & -> & -> & Ha & Hab & ->). rewrite bool_decide_eq_true_2 by done. simpl.
    by rewrite (proj2 (N.eqb_neq a b)).
Qed.

Lemma elem_of_disallowed s m :
  m ∈ collectDisallowedStatusCodeRedirects s ↔ ∃ a b, redirects s a b ∧ m = redirect_text a b.
Proof.
  unfold collectDisallowedStatusCodeRedirects, redirects.
  rewrite elem_of_stable_sort, elem_of_dedup, list_elem_of_omap. split.
  - intros ([k v] & Hin & (a & b & ?)%risky_entry_spec). naive_solver.
  - intros (a & b & (k & v & ?) & ->). exists (k, v). rewrite risky_entry_spec. naive_solver.
Qed.

(** The warning before saving a channel lists, in code-unit order and
    without repetition, exactly the redirections of 504 or 524 to another code
    that the edited mapping has and the stored one does not. *)
Theorem new_disallowed_redirects (original current : option jstr) :
  NoDup (collectNewDisallowedStatusCodeRedirects original current)
  ∧ StronglySorted (λ x y, str_leb x y = true) (collectNewDisallowedStatusCodeRedirects original current)
  ∧ ∀ m, m ∈ collectNewDisallowedStatusCodeRedirects original current ↔
      (∃ a b, redirects current a b ∧ m = redirect_text a b)
      ∧ ¬ (∃ a b, redirects original a b ∧ m = redirect_text a b).
Proof.
  unfold collectNewDisallowedStatusCodeRedirects.
  destruct (length _ =? 0) eqn:E.
  - apply Nat.eqb_eq, nil_length_inv in E. split_and!; [constructor|constructor|].
    intros m. rewrite <- elem_of_disallowed, E. set_solver.
  - clear E. split_and!.
    + rewrite NoDup_ListNoDup. apply List.NoDup_filter. rewrite <- NoDup_ListNoDup.
      unfold collectDisallowedStatusCodeRedirects. rewrite stable_sort_perm. apply NoDup_dedup.
    + apply StronglySorted_filter, stable_sort_sorted; [apply str_leb_total|apply str_leb_trans].
    + intros m. rewrite list_elem_of_In, filter_In, <- list_elem_of_In.
      rewrite negb_true_iff, bool_decide_eq_false. by rewrite <- !elem_of_disallowed.
Qed.

(** A mapping has no invalid entry exactly when both sides of every entry
    are status codes; no entry is reported both as invalid and as risky; and the
    check throws exactly when some entry that would be reported has an object
    with its own [toString] on its right side. *)
Theorem invalid_entries_complete (s : option jstr) :
  (collectInvalidStatusCodeEntries s = Ret [] ↔
   ∀ k v, (k, v) ∈ mapping_entries s →
     is_Some (parseStatusCodeKey k) ∧ is_Some (parseStatusCodeMappingTarget v))
  ∧ (∀ e m, invalid_entry e = Ret (Some m) → risky_entry e = None)
  ∧ (collectInvalidStatusCodeEntries s = Throw ↔
     ∃ e, e ∈ mapping_entries s ∧ invalid_entry e = Throw).
Proof.
  unfold collectInvalidStatusCodeEntries. split_and!.
  - induction (mapping_entries s) as [|[k v] l IH]; [cbn [invalid_entries]; split; [set_solver|done]|].
    cbn [invalid_entries invalid_entry].
    destruct (parseStatusCodeKey k) eqn:Ek, (parseStatusCodeMappingTarget v) eqn:Ev.
    { cbn [mbind exn_bind option_list app]. destruct (invalid_entries l) as [bad|].
      - rewrite IH. setoid_rewrite elem_of_cons. split; [|naive_solver].
        intros H k' v' [[= -> ->]|?]; [rewrite Ek, Ev; eauto|auto].
      - split; [done|]. intros H. apply IH. set_solver. }
    all: split; [unfold js_string; destruct (coercible v); [|done]; by destruct (invalid_entries l)|].
    all: intros H; destruct (H k v ltac:(set_solver)) as [[? ?] [? ?]]; congruence.
  - intros [k v] m Hm. unfold invalid_entry, risky_entry in *.
    by destruct (parseStatusCodeKey k), (parseStatusCodeMappingTarget v).
  - induction (mapping_entries s) as [|e l IH]; cbn [invalid_entries].
    { split; [done|]. by intros (e & ?%elem_of_nil & _). }
    setoid_rewrite elem_of_cons. destruct (invalid_entry e) eqn:E; cbn [mbind exn_bind].
    + destruct (invalid_entries l) as [x0|] eqn:El; cbn [mbind exn_bind]; [|naive_solver].
      split; [done|]. intros (e' & [->|Hin] & He); [congruence|]. assert (Ret x0 = Throw) by (apply IH; eauto). done.
    + split; [|done]. eauto.
Qed.

Example guard_ex :
  collectNewDisallowedStatusCodeRedirects (Some (jq "{'504':'504'}"))
    (Some (jq "{'524':429, '504':'500', '404':200, 'x':1}"))
  = [js "504 -> 500"; js "524 -> 429"].
Proof. vm_compute. reflexivity. Qed.

End Guard.
