(* ===== verification/BillingExpr.v ===== *)
(** * Billing expressions

    [src/web/default/src/features/pricing/lib/billing-expr.ts]: the registry of
    billing variables, the parser of tiered prices, the parser and the printer
    of request rules, and the functions that combine a billing expression with
    its request rules and take them apart again. *)

From S2P Require Import Prelude JsString JsRegExp JsNumber Json.
From Stdlib Require Import NArith ZArith.

(** ** Variable registry *)

Inductive Side := Input | Output | Condition.

Record BillingVar := {
  key : jstr;
  field : option jstr;
  tierField : option jstr;
  label : jstr;
  shortLabel : jstr;
  side : Side;
  isBase : bool;
  isConditionOnly : bool;
  group : option jstr;
}.

Definition billing_var key field tierField label shortLabel side group : BillingVar :=
  {| key := js key; field := Some (js field); tierField := Some (js tierField);
     label := js label; shortLabel := js shortLabel; side := side;
     isBase := match group with None => true | _ => false end;
     isConditionOnly := false; group := js <$> group |}.

Definition BILLING_VARS : list BillingVar :=
  [ billing_var "p" "inputPrice" "input_unit_cost" "Input price" "Input" Input None;
    billing_var "c" "outputPrice" "output_unit_cost" "Completion price" "Output" Output None;
    {| key := js "len"; field := None; tierField := None; label := js "Input length";
       shortLabel := js "Length"; side := Condition; isBase := false;
       isConditionOnly := true; group := None |};
    billing_var "cr" "cacheReadPrice" "cache_read_unit_cost" "Cache read price" "Cache Read"
      Input (Some "cache"%string);
    billing_var "cc" "cacheCreatePrice" "cache_create_unit_cost" "Cache create price" "Cache Write"
      Input (Some "cache"%string);
    billing_var "cc1h" "cacheCreate1hPrice" "cache_create_1h_unit_cost" "Cache create (1h) price"
      "Cache Write (1h)" Input (Some "cache"%string);
    billing_var "img" "imagePrice" "image_unit_cost" "Image input price" "Image In"
      Input (Some "media"%string);
    billing_var "img_o" "imageOutputPrice" "image_output_unit_cost" "Image output price" "Image Out"
      Output (Some "media"%string);
    billing_var "ai" "audioInputPrice" "audio_input_unit_cost" "Audio input price" "Audio In"
      Input (Some "media"%string);
    billing_var "ao" "audioOutputPrice" "audio_output_unit_cost" "Audio output price" "Audio Out"
      Output (Some "media"%string) ].

Definition BILLING_PRICING_VARS : list BillingVar :=
  List.filter (λ v, negb (isConditionOnly v)) BILLING_VARS.

Definition BILLING_CONDITION_VARS : list jstr :=
  map key (List.filter (λ v, isBase v || isConditionOnly v) BILLING_VARS).

(** Only pricing variables are listed, and each of them has a field. *)
Definition BILLING_VAR_KEY_TO_FIELD : list (jstr * jstr) :=
  map (λ v, (key v, default [] (field v))) BILLING_PRICING_VARS.

Definition BILLING_EXTRA_VARS : list BillingVar :=
  List.filter (λ v, negb (isBase v) && negb (isConditionOnly v)) BILLING_VARS.

(** The tier field and the expression variable of each extra price. *)
Definition BILLING_CACHE_VAR_MAP : list (jstr * jstr) :=
  map (λ v, (default [] (tierField v), key v)) BILLING_EXTRA_VARS.

(** [[\d.eE+-]] and [[\d.eE+]]. *)
Definition num_cls (c : N) : bool := is_digit c || one_of (js ".eE+-") c.
Definition cond_num_cls (c : N) : bool := is_digit c || one_of (js ".eE+") c.
Definition RNum : regex := RPlus (RSet num_cls).
Definition RCondNum : regex := RPlus (RSet cond_num_cls).

Definition BILLING_VAR_REGEX : regex :=
  rseq [RWordB; RGroup 1 (ralt (map (λ v, rlit (key v)) BILLING_PRICING_VARS));
        rws; rlit (js "*"); rws; RGroup 2 RNum].

(** ** Request rule constants *)

Definition SOURCE_PARAM : jstr := js "param".
Definition SOURCE_HEADER : jstr := js "header".
Definition SOURCE_TIME : jstr := js "time".

Definition MATCH_EQ : jstr := js "eq".
Definition MATCH_CONTAINS : jstr := js "contains".
Definition MATCH_GT : jstr := js "gt".
Definition MATCH_GTE : jstr := js "gte".
Definition MATCH_LT : jstr := js "lt".
Definition MATCH_LTE : jstr := js "lte".
Definition MATCH_EXISTS : jstr := js "exists".
Definition MATCH_RANGE : jstr := js "range".

Definition TIME_FUNCS : list jstr :=
  [js "hour"; js "minute"; js "weekday"; js "month"; js "day"].

(** The time zones the rule editor offers: value and label. *)
Definition COMMON_TIMEZONES : list (jstr * jstr) :=
  map (λ p : string * string, (js (fst p), js (snd p)))
  [ ("Asia/Shanghai", "UTC+8 Shanghai (Asia/Shanghai)");
    ("UTC", "UTC");
    ("America/New_York", "UTC-5 New York (America/New_York)");
    ("America/Los_Angeles", "UTC-8 Los Angeles (America/Los_Angeles)");
    ("America/Chicago", "UTC-6 Chicago (America/Chicago)");
    ("Europe/London", "UTC+0 London (Europe/London)");
    ("Europe/Berlin", "UTC+1 Berlin (Europe/Berlin)");
    ("Asia/Tokyo", "UTC+9 Tokyo (Asia/Tokyo)");
    ("Asia/Singapore", "UTC+8 Singapore (Asia/Singapore)");
    ("Asia/Seoul", "UTC+9 Seoul (Asia/Seoul)");
    ("Australia/Sydney", "UTC+10 Sydney (Australia/Sydney)") ]%string.

(** [/^-?(?:\d+\.?\d*|\.\d+)(?:[eE][+-]?\d+)?$/] *)
Definition numeric_core : regex :=
  rseq [ROpt (rlit (js "-"));
        RAlt (rseq [RPlus RDigit; ROpt (rlit (js ".")); RStar RDigit])
             (RSeq (rlit (js ".")) (RPlus RDigit));
        ROpt (rseq [RSet (one_of (js "eE")); ROpt (RSet (one_of (js "+-"))); RPlus RDigit])].
Definition NUMERIC_LITERAL_REGEX : regex := RSeq RBol (RSeq numeric_core REol).

Inductive PHSource := Param | Header.

#[export] Instance PHSource_eq_dec : EqDecision PHSource.
Proof. solve_decision. Defined.

(** [TimeCondition | ParamHeaderCondition]; a time function, a mode and a
    source are the strings of the source text. *)
Inductive RequestCondition :=
  | TimeCondition (timeFunc timezone mode value rangeStart rangeEnd : jstr)
  | ParamHeaderCondition (source : PHSource) (path mode value : jstr).

#[export] Instance RequestCondition_eq_dec : EqDecision RequestCondition.
Proof. solve_decision. Defined.

Record RequestRuleGroup := Group {
  conditions : list RequestCondition;
  multiplier : jstr;
}.

#[export] Instance RequestRuleGroup_eq_dec : EqDecision RequestRuleGroup.
Proof. solve_decision. Defined.

(** A pattern between [^] and [$]. *)
Definition anchored (l : list regex) : regex := RSeq RBol (RSeq (rseq l) REol).

Definition none_quote (c : N) : bool := negb (c =? DQ)%N.
Definition RNoQuote : regex := RPlus (RSet none_quote).

(** ** Tier parser *)

(** A condition of a tier: the variable and the operator are their texts. *)
Record TierCondition := { tc_var : jstr; tc_op : jstr; tc_value : num }.

(** The price fields (by name), the label and the conditions of a tier. *)
Record ParsedTier := {
  pt_prices : list (jstr * num);
  pt_label : jstr;
  pt_conditions : list TierCondition;
}.

Definition version_re : regex :=
  anchored [rlit (js "v"); RGroup 1 (RPlus RDigit); rlit (js ":"); RGroup 2 (RStar RAny)].

Definition stripExprVersion (exprStr : jstr) : num * jstr :=
  if negb (nonempty exprStr) then (num_of_Z 1, [])
  else match re_find version_re exprStr with
       | Some m => (to_number (capt m 1), capt m 2)
       | None => (num_of_Z 1, exprStr)
       end.

(** [r[k]] of a record of numbers. *)
Fixpoint num_get (k : jstr) (l : list (jstr * num)) : option num :=
  match l with
  | [] => None
  | (k', v) :: l => if str_eqb k' k then Some v else num_get k l
  end.

(** The loop over the matches: the first coefficient of a variable is kept. *)
Definition coeff_step (coeffs : list (jstr * num)) (m : mstate) : list (jstr * num) :=
  match num_get (capt m 1) coeffs with
  | Some _ => coeffs
  | None => coeffs ++ [(capt m 1, to_number (capt m 2))]
  end.

Definition parse_coeffs (bodyStr : jstr) : list (jstr * num) :=
  foldl coeff_step [] (map snd (fst (re_all BILLING_VAR_REGEX bodyStr))).

(** [x || 0] where [x] may be undefined. *)
Definition opt_num_or0 (o : option num) : num := match o with Some x => num_or0 x | None => nzero end.

Definition parseTierBody (bodyStr : jstr) : list (jstr * num) :=
  let coeffs := parse_coeffs bodyStr in
  map (λ vf, (snd vf, opt_num_or0 (num_get (fst vf) coeffs))) BILLING_VAR_KEY_TO_FIELD.

Definition cond_var_re : regex := ralt [rlit (js "p"); rlit (js "c"); rlit (js "len")].
Definition cond_op_re : regex := ralt [rlit (js "<"); rlit (js "<="); rlit (js ">"); rlit (js ">=")].

Definition and_sep : regex := rseq [rws; rlit (js "&&"); rws].

(** The conditions of a tier, capture 1 of a tier pattern. *)
Definition one_cond : regex := rseq [cond_var_re; rws; cond_op_re; rws; RCondNum].
Definition condGroup : regex := RGroup 1 (RSeq one_cond (RStar (RSeq and_sep one_cond))).

Definition opt_conds : regex := ROpt (rseq [condGroup; rws; rlit (js "?"); rws]).

Definition tierRe : regex :=
  rseq [opt_conds; rlit (jq "tier('"); RGroup 2 (RStar (RSet none_quote)); rlit (jq "',"); rws;
        RGroup 3 (RPlus (RSet (none_of [RPAREN]))); rlit (js ")")].

Definition cond_re : regex :=
  anchored [RGroup 1 cond_var_re; rws; RGroup 2 cond_op_re; rws; RGroup 3 RCondNum].

Definition parse_tier_cond (cp : jstr) : list TierCondition :=
  match re_find cond_re (trim cp) with
  | Some cm => [{| tc_var := capt cm 1; tc_op := capt cm 2; tc_value := to_number (capt cm 3) |}]
  | None => []
  end.

Definition parse_tier_conds (condStr : jstr) : list TierCondition :=
  if nonempty condStr then concat (map parse_tier_cond (re_split and_sep condStr)) else [].

Definition parsed_tier (m : mstate) : ParsedTier :=
  {| pt_prices := parseTierBody (capt m 3); pt_label := capt m 2;
     pt_conditions := parse_tier_conds (capt m 1) |}.

(** Nothing in the body throws, so the [catch] is never reached. *)
Definition parseTiersFromExpr (exprStr : jstr) : list ParsedTier :=
  if negb (nonempty exprStr) then []
  else map (λ bm, parsed_tier (snd bm)) (fst (re_all tierRe (snd (stripExprVersion exprStr)))).

(** [<[=＝]?|≤|＜[=＝]?] and its mirror image. *)
Definition less_re : regex :=
  ralt [RSeq (rlit (js "<")) (ROpt (RSet (one_of (js "=＝")))); rlit (js "≤");
        RSeq (rlit (js "＜")) (ROpt (RSet (one_of (js "=＝"))))].
Definition greater_re : regex :=
  ralt [RSeq (rlit (js ">")) (ROpt (RSet (one_of (js "=＝")))); rlit (js "≥");
        RSeq (rlit (js "＞")) (ROpt (RSet (one_of (js "=＝"))))].

Definition normalizeTierLabel `{LowerCase} (label : option jstr) : jstr :=
  match label with
  | Some label =>
    if negb (nonempty label) then []
    else toLowerCase
      (re_replace (RPlus (RSet is_ws)) []
        (re_replace greater_re (js ">") (re_replace less_re (js "<") label)))
  | None => []
  end.

(** ** Request rule parser *)

Definition depth_step (c : N) (depth : Z) : Z :=
  if (c =? LPAREN)%N then (depth + 1)%Z else if (c =? RPAREN)%N then (depth - 1)%Z else depth.

(** The scanning loop of [splitTopLevelMultiply] and [splitTopLevelAnd]: [cur]
    is [expr.slice(start, index)] reversed, [skip] the rest of a separator that
    the loop steps over. *)
Fixpoint split_top_go (sep : jstr) (s : jstr) (skip : nat) (depth : Z) (cur : jstr) : list jstr :=
  match s with
  | [] => [trim (reverse cur)]
  | c :: s' =>
    match skip with
    | S k => split_top_go sep s' k depth cur
    | O =>
      let depth := depth_step c depth in
      if (depth =? 0)%Z && prefixb sep s
      then trim (reverse cur) :: split_top_go sep s' (length sep - 1) depth []
      else split_top_go sep s' 0 depth (c :: cur)
    end
  end.

Definition splitTopLevelMultiply (expr : jstr) : list jstr :=
  List.filter nonempty (split_top_go (js " * ") expr 0 0 []).

Definition splitTopLevelAnd (expr : jstr) : list jstr :=
  List.filter nonempty (split_top_go (js " && ") expr 0 0 []).

(** [None] is null; a JSON null is null as well. *)
Definition parseExprLiteral (raw : jstr) : option json :=
  let text := trim raw in
  if str_eqb text (js "true") || str_eqb text (js "false") then Some (JStr text)
  else if re_test NUMERIC_LITERAL_REGEX text then Some (JStr text)
  else match json_parse text with
       | Some JNull | None => None
       | Some v => Some v
       end.

Definition time_func_re : regex := RGroup 1 (ralt (map rlit TIME_FUNCS)).

(** An overnight range: at or after a start or before an end. *)
Definition time_range_pat : list regex :=
  [time_func_re; rlit (jq "('"); RGroup 2 RNoQuote; rlit (jq "') >= "); RGroup 3 RNum;
        rlit (js " || "); RBackref 1; rlit (jq "('"); RBackref 2; rlit (jq "') < "); RGroup 4 RNum].

Definition time_cmp_pat : list regex :=
  [time_func_re; rlit (jq "('"); RGroup 2 RNoQuote; rlit (jq "') ");
        RGroup 3 (ralt [rlit (js "=="); rlit (js ">="); rlit (js "<")]); rlit (js " "); RGroup 4 RNum].

Definition time_cmp_mode (op : jstr) : jstr :=
  if str_eqb op (js "==") then MATCH_EQ
  else if str_eqb op (js ">=") then MATCH_GTE
  else if str_eqb op (js "<") then MATCH_LT
  else MATCH_EQ.

Definition tryParseTimeCondition (expr : jstr) : option RequestCondition :=
  match re_find (anchored time_range_pat) expr with
  | Some m => Some (TimeCondition (capt m 1) (capt m 2) MATCH_RANGE [] (capt m 3) (capt m 4))
  | None =>
    match re_find (anchored ([rlit (js "(")] ++ time_range_pat ++ [rlit (js ")")])) expr with
    | Some m => Some (TimeCondition (capt m 1) (capt m 2) MATCH_RANGE [] (capt m 3) (capt m 4))
    | None =>
      match re_find (anchored time_cmp_pat) expr with
      | Some m => Some (TimeCondition (capt m 1) (capt m 2) (time_cmp_mode (capt m 3)) (capt m 4) [] [])
      | None => None
      end
    end
  end.

(** A double-quoted literal with backslash escapes, as one capture. *)
Definition json_string_re (n : nat) : regex :=
  RGroup n (rseq [rlit [DQ];
    RStar (RAlt (RSet (λ c, negb (one_of [DQ; BSLASH] c))) (RSeq (rlit [BSLASH]) RDot));
    rlit [DQ]]).

Definition header_exists_pat : list regex :=
  [rlit (jq "header('"); RGroup 1 RNoQuote; rlit (jq "') != ''")].
Definition param_exists_pat : list regex :=
  [rlit (jq "param('"); RGroup 1 RNoQuote; rlit (jq "') != nil")].
Definition header_has_pat : list regex :=
  [rlit (jq "has(header('"); RGroup 1 RNoQuote; rlit (jq "'), "); json_string_re 2; rlit (js ")")].
Definition param_has_pat : list regex :=
  [rlit (jq "param('"); RGroup 1 RNoQuote; rlit (jq "') != nil && has(param('");
        RGroup 2 RNoQuote; rlit (jq "'), "); json_string_re 3; rlit (js ")")].
Definition param_cmp_pat : list regex :=
  [rlit (jq "param('"); RGroup 1 RNoQuote; rlit (jq "') != nil && param('");
        RGroup 2 RNoQuote; rlit (jq "') ");
        RGroup 3 (ralt [rlit (js ">"); rlit (js ">="); rlit (js "<"); rlit (js "<=")]);
        rlit (js " "); RGroup 4 RNum].
Definition eq_pat : list regex :=
  [RGroup 1 (RAlt (rlit (js "param")) (rlit (js "header"))); rlit (jq "('");
        RGroup 2 RNoQuote; rlit (jq "') == "); RGroup 3 (RPlus RDot)].

Definition param_cmp_mode (op : jstr) : jstr :=
  if str_eqb op (js ">") then MATCH_GT
  else if str_eqb op (js ">=") then MATCH_GTE
  else if str_eqb op (js "<") then MATCH_LT
  else MATCH_LTE.

Definition ph_source (s : jstr) : PHSource := if str_eqb s SOURCE_HEADER then Header else Param.

(** The last pattern of [tryParseRequestCondition]. *)
Definition try_eq (expr : jstr) : exn (option RequestCondition) :=
  match re_find (anchored eq_pat) expr with
  | Some m =>
    match parseExprLiteral (capt m 3) with
    | None => Ret None
    | Some parsedValue =>
      value ← js_string parsedValue;
      Ret (Some (ParamHeaderCondition (ph_source (capt m 1)) (capt m 2) MATCH_EQ value))
    end
  | None => Ret None
  end.

Definition try_param_cmp (expr : jstr) : exn (option RequestCondition) :=
  match re_find (anchored param_cmp_pat) expr with
  | Some m =>
    if str_eqb (capt m 1) (capt m 2)
    then Ret (Some (ParamHeaderCondition Param (capt m 1) (param_cmp_mode (capt m 3)) (capt m 4)))
    else try_eq expr
  | None => try_eq expr
  end.

(** The value of a [has] condition: [JSON.parse] throws on a bad escape. *)
Definition parsed_string (lit : jstr) : exn jstr :=
  v ← or_throw (json_parse lit); js_string v.

Definition try_param_has (expr : jstr) : exn (option RequestCondition) :=
  match re_find (anchored param_has_pat) expr with
  | Some m =>
    if str_eqb (capt m 1) (capt m 2)
    then v ← parsed_string (capt m 3);
         Ret (Some (ParamHeaderCondition Param (capt m 1) MATCH_CONTAINS v))
    else try_param_cmp expr
  | None => try_param_cmp expr
  end.

Definition tryParseRequestCondition (expr : jstr) : exn (option RequestCondition) :=
  match tryParseTimeCondition expr with
  | Some tc => Ret (Some tc)
  | None =>
    match re_find (anchored header_exists_pat) expr with
    | Some m => Ret (Some (ParamHeaderCondition Header (capt m 1) MATCH_EXISTS []))
    | None =>
      match re_find (anchored param_exists_pat) expr with
      | Some m => Ret (Some (ParamHeaderCondition Param (capt m 1) MATCH_EXISTS []))
      | None =>
        match re_find (anchored header_has_pat) expr with
        | Some m =>
          v ← parsed_string (capt m 2);
          Ret (Some (ParamHeaderCondition Header (capt m 1) MATCH_CONTAINS v))
        | None => try_param_has expr
        end
      end
    end
  end.

(** The loop over the [&&] parts: the first unknown one rejects the group. *)
Fixpoint parse_conditions (parts : list jstr) : exn (option (list RequestCondition)) :=
  match parts with
  | [] => Ret (Some [])
  | ap :: parts =>
    oc ← tryParseRequestCondition (trim ap);
    match oc with
    | None => Ret None
    | Some cond =>
      ol ← parse_conditions parts;
      Ret (option_map (cons cond) ol)
    end
  end.

Definition factor_re : regex :=
  anchored [rlit (js "("); RGroup 1 (RPlus RAny); rlit (js " ? "); RGroup 2 RNum; rlit (js " : 1)")].

Definition tryParseRuleGroupFactor (part : jstr) : exn (option RequestRuleGroup) :=
  match re_find factor_re part with
  | None => Ret None
  | Some m =>
    oc ← parse_conditions (splitTopLevelAnd (capt m 1));
    match oc with
    | None => Ret None
    | Some conditions =>
      if (length conditions =? 0) then Ret None else Ret (Some (Group conditions (capt m 2)))
    end
  end.

Fixpoint parse_factors (parts : list jstr) : exn (option (list RequestRuleGroup)) :=
  match parts with
  | [] => Ret (Some [])
  | part :: parts =>
    og ← tryParseRuleGroupFactor part;
    match og with
    | None => Ret None
    | Some group =>
      ol ← parse_factors parts;
      Ret (option_map (cons group) ol)
    end
  end.

Definition tryParseRequestRuleExpr (expr : jstr) : exn (option (list RequestRuleGroup)) :=
  let trimmed := trim expr in
  if negb (nonempty trimmed) then Ret (Some []) else parse_factors (splitTopLevelMultiply trimmed).

(** ** Combine and split billing expression and request rules *)

(** The loop of [hasFullOuterParens]. *)
Fixpoint full_parens_go (s : jstr) (depth : Z) : bool :=
  match s with
  | [] => (depth =? 0)%Z
  | c :: s' =>
    let depth := depth_step c depth in
    if (depth =? 0)%Z && nonempty s' then false else full_parens_go s' depth
  end.

Definition hasFullOuterParens (expr : jstr) : bool :=
  if negb (starts_with [LPAREN] expr) || negb (ends_with [RPAREN] expr) then false
  else full_parens_go expr 0.

(** [s.slice(1, -1)]. *)
Definition slice_inner (s : jstr) : jstr := take (length s - 2) (drop 1 s).

Fixpoint unwrap_go (fuel : nat) (current : jstr) : jstr :=
  match fuel with
  | O => current
  | S f => if hasFullOuterParens current then unwrap_go f (trim (slice_inner current)) else current
  end.

(** Every iteration of the loop drops two code units, so the length is enough fuel. *)
Definition unwrapOuterParens (expr : jstr) : jstr :=
  let current := trim expr in unwrap_go (length current) current.

Record SplitExpr := { billingExpr : jstr; requestRuleExpr : jstr }.

(** The [forEach] over the factors: rule parts and base parts, in order. *)
Fixpoint classify_parts (parts : list jstr) : exn (list jstr * list jstr) :=
  match parts with
  | [] => Ret ([], [])
  | part :: parts =>
    parsed ← tryParseRequestRuleExpr part;
    '(ruleParts, baseParts) ← classify_parts parts;
    match parsed with
    | Some (_ :: _) => Ret (part :: ruleParts, baseParts)
    | _ => Ret (ruleParts, part :: baseParts)
    end
  end.

Definition splitBillingExprAndRequestRules (expr : jstr) : exn SplitExpr :=
  let trimmed := trim expr in
  if negb (nonempty trimmed) then Ret {| billingExpr := []; requestRuleExpr := [] |}
  else
    let parts := splitTopLevelMultiply trimmed in
    if (length parts <=? 1) then Ret {| billingExpr := trimmed; requestRuleExpr := [] |}
    else
      '(ruleParts, baseParts) ← classify_parts parts;
      match ruleParts, baseParts with
      | _ :: _, [base] =>
        Ret {| billingExpr := unwrapOuterParens base;
               requestRuleExpr := str_join (js " * ") ruleParts |}
      | _, _ => Ret {| billingExpr := trimmed; requestRuleExpr := [] |}
      end.

Definition combineBillingExpr (baseExpr requestRuleExpr : jstr) : jstr :=
  let base := trim baseExpr in
  let rules := trim requestRuleExpr in
  if negb (nonempty base) then []
  else if negb (nonempty rules) then base
  else js "(" ++ base ++ js ") * " ++ rules.

(** ** Editor: empty constructors *)

Definition createEmptyCondition : RequestCondition := ParamHeaderCondition Param [] MATCH_EQ [].

Definition createEmptyTimeCondition : RequestCondition :=
  TimeCondition (js "hour") (js "Asia/Shanghai") MATCH_GTE [] [] [].

Definition createEmptyRuleGroup : RequestRuleGroup := Group [createEmptyCondition] [].

Definition createEmptyTimeRuleGroup : RequestRuleGroup := Group [createEmptyTimeCondition] [].

(** ** Editor: match options *)

Record MatchOption := { opt_value : jstr; labelKey : jstr }.

Definition getRequestRuleMatchOptions (source : jstr) : list MatchOption :=
  let opt v l := {| opt_value := v; labelKey := js l |} in
  if str_eqb source SOURCE_TIME then
    [opt MATCH_EQ "Equals"; opt MATCH_GTE "Greater than or equal";
     opt MATCH_LT "Less than"; opt MATCH_RANGE "Overnight range"]
  else
    let base := [opt MATCH_EQ "Equals"; opt MATCH_CONTAINS "Contains"; opt MATCH_EXISTS "Exists"] in
    if str_eqb source SOURCE_HEADER then base
    else base ++ [opt MATCH_GT "Greater than"; opt MATCH_GTE "Greater than or equal";
                  opt MATCH_LT "Less than"; opt MATCH_LTE "Less than or equal"].

(** ** Editor: normalize a condition *)

Definition isTimeFunc (value : option jstr) : bool :=
  match value with Some s => bool_decide (s ∈ TIME_FUNCS) | None => false end.

(** [Partial<RequestCondition>]: any field may be missing. *)
Record PartialCondition := {
  pc_source : option jstr;
  pc_timeFunc : option jstr;
  pc_timezone : option jstr;
  pc_path : option jstr;
  pc_mode : option jstr;
  pc_value : option jstr;
  pc_rangeStart : option jstr;
  pc_rangeEnd : option jstr;
}.

Definition empty_partial : PartialCondition := Build_PartialCondition None None None None None None None None.

Definition has_option (options : list MatchOption) (mode : option jstr) : bool :=
  existsb (λ item, bool_decide (mode = Some (opt_value item))) options.

(** [s || d] on an optional string. *)
Definition opt_or (o : option jstr) (d : jstr) : jstr := str_or (default [] o) d.

(** [cond] null or undefined is [empty_partial]: every access is optional. *)
Definition normalizeCondition (cond : PartialCondition) : RequestCondition :=
  let source :=
    if bool_decide (pc_source cond = Some SOURCE_TIME) then SOURCE_TIME
    else if bool_decide (pc_source cond = Some SOURCE_HEADER) then SOURCE_HEADER
    else SOURCE_PARAM in
  if str_eqb source SOURCE_TIME then
    let timeFunc := if isTimeFunc (pc_timeFunc cond) then default [] (pc_timeFunc cond) else js "hour" in
    let options := getRequestRuleMatchOptions SOURCE_TIME in
    let mode := if has_option options (pc_mode cond) then default [] (pc_mode cond) else MATCH_GTE in
    TimeCondition timeFunc (opt_or (pc_timezone cond) (js "Asia/Shanghai")) mode
      (default [] (pc_value cond)) (default [] (pc_rangeStart cond)) (default [] (pc_rangeEnd cond))
  else
    let options := getRequestRuleMatchOptions source in
    let mode := if has_option options (pc_mode cond) then default [] (pc_mode cond) else MATCH_EQ in
    ParamHeaderCondition (ph_source source) (opt_or (pc_path cond) []) mode (default [] (pc_value cond)).

(** A full condition seen as a partial one. *)
Definition partial_of (c : RequestCondition) : PartialCondition :=
  match c with
  | TimeCondition f tz m v rs re =>
    Build_PartialCondition (Some SOURCE_TIME) (Some f) (Some tz) None (Some m) (Some v) (Some rs) (Some re)
  | ParamHeaderCondition src path m v =>
    Build_PartialCondition (Some match src with Param => SOURCE_PARAM | Header => SOURCE_HEADER end)
      None None (Some path) (Some m) (Some v) None None
  end.

(** ** Editor: build expression strings *)

Definition is_numeric (s : jstr) : bool := re_test NUMERIC_LITERAL_REGEX s.

Definition buildExprLiteral (mode value : jstr) : jstr :=
  let text := trim value in
  if str_eqb mode MATCH_CONTAINS then quote text
  else if str_eqb text (js "true") || str_eqb text (js "false") then text
  else if is_numeric text then text
  else quote text.

Definition time_op (mode : jstr) : jstr :=
  if str_eqb mode MATCH_EQ then js "=="
  else if str_eqb mode MATCH_GTE then js ">="
  else if str_eqb mode MATCH_LT then js "<"
  else js "==".

(** The body of [buildTimeConditionExpr] on a normalized condition. *)
Definition build_time (timeFunc timezone mode value rangeStart rangeEnd : jstr) : jstr :=
  let fn := timeFunc ++ js "(" ++ quote timezone ++ js ")" in
  if str_eqb mode MATCH_RANGE then
    let s := trim rangeStart in
    let e := trim rangeEnd in
    if negb (is_numeric s) || negb (is_numeric e) then []
    else fn ++ js " >= " ++ s ++ js " || " ++ fn ++ js " < " ++ e
  else
    let v := trim value in
    if negb (is_numeric v) then []
    else fn ++ js " " ++ time_op mode ++ js " " ++ v.

Definition param_op (mode : jstr) : jstr :=
  if str_eqb mode MATCH_GT then js ">"
  else if str_eqb mode MATCH_GTE then js ">="
  else if str_eqb mode MATCH_LT then js "<"
  else js "<=".

(** The body of [buildRequestConditionExpr] on a normalized parameter or header
    condition. *)
Definition build_param_header (source : PHSource) (path0 mode value : jstr) : jstr :=
  let path := trim path0 in
  if negb (nonempty path) then []
  else
    let sourceExpr :=
      match source with
      | Header => js "header(" ++ quote path ++ js ")"
      | Param => js "param(" ++ quote path ++ js ")"
      end in
    if str_eqb mode MATCH_EXISTS then
      match source with
      | Header => sourceExpr ++ jq " != ''"
      | Param => sourceExpr ++ js " != nil"
      end
    else if str_eqb mode MATCH_CONTAINS then
      let has := js "has(" ++ sourceExpr ++ js ", " ++ buildExprLiteral mode value ++ js ")" in
      match source with
      | Header => has
      | Param => sourceExpr ++ js " != nil && " ++ has
      end
    else if bool_decide (mode ∈ [MATCH_GT; MATCH_GTE; MATCH_LT; MATCH_LTE]) then
      let numText := trim value in
      if negb (is_numeric numText) then []
      else sourceExpr ++ js " != nil && " ++ sourceExpr ++ js " " ++ param_op mode ++ js " " ++ numText
    else sourceExpr ++ js " == " ++ buildExprLiteral mode value.

Definition buildRequestConditionExpr (cond : RequestCondition) : jstr :=
  match normalizeCondition (partial_of cond) with
  | TimeCondition f tz m v rs re => build_time f tz m v rs re
  | ParamHeaderCondition src path m v => build_param_header src path m v
  end.

Definition buildRuleGroupFactor (group : RequestRuleGroup) : jstr :=
  let mult := trim (multiplier group) in
  if negb (is_numeric mult) then []
  else
    let condExprs := List.filter nonempty (map buildRequestConditionExpr (conditions group)) in
    match condExprs with
    | [] => []
    | [e] => js "(" ++ e ++ js " ? " ++ mult ++ js " : 1)"
    | _ =>
      let wrapped := map (λ e, if includes (js " || ") e then js "(" ++ e ++ js ")" else e) condExprs in
      js "(" ++ str_join (js " && ") wrapped ++ js " ? " ++ mult ++ js " : 1)"
    end.

Definition buildRequestRuleExpr (groups : list RequestRuleGroup) : jstr :=
  str_join (js " * ") (List.filter nonempty (map buildRuleGroupFactor groups)).
