(* ===== verification/BillingRules.v ===== *)
(** * Request rules: printing and parsing back

    What [tryParseRequestRuleExpr] makes of the text that
    [buildRequestRuleExpr] prints (definitions in [BillingExpr]): each kind of
    condition is executed symbolically through the parser's patterns, then the
    splitting at top-level [&&] and [*] is shown to cut the text where the
    printer joined it. *)

From S2P Require Import Prelude JsString JsRegExp JsNumber Json BillingExpr.
From Stdlib Require Import NArith ZArith.

(** ** Numeric literals *)
Lemma digit_num_cls c : is_digit c = true → num_cls c = true.
Proof. intros H. unfold num_cls. by rewrite H. Qed.

Lemma one_of_num_cls (s : jstr) c : s ⊆ js ".eE+-" → one_of s c = true → num_cls c = true.
Proof.
  unfold one_of, num_cls. intros Hs H. boolify. apply orb_true_iff. right.
  unfold one_of. apply bool_decide_eq_true. auto.
Qed.

Lemma lit_num_cls w : forallb num_cls w = true → re_chars (λ c, num_cls c = true) (rlit w).
Proof.
  induction w as [|c w IH]; simpl; [done|]. intros H. boolify. split; [|auto].
  intros d ->%N.eqb_eq. done.
Qed.

Lemma is_numeric_chars s :
  is_numeric s = true → s ≠ [] ∧ Forall (λ c, num_cls c = true) s.
Proof.
  intros H. apply (re_test_anchored_sound (λ c, num_cls c = true)) in H as [HF Hl].
  - split; [|done]. destruct s; [|done]. vm_compute in Hl. lia.
  - unfold numeric_core, ROpt, RPlus, RDigit. cbn [rseq re_chars].
    repeat split; auto using digit_num_cls, lit_num_cls;
      intros c; first [intros <-%N.eqb_eq; reflexivity|apply one_of_num_cls; js_eval; set_solver].
Qed.

Lemma num_cls_facts c :
  num_cls c = true →
  is_ws c = false ∧ c ≠ 32%N ∧ c ≠ 63%N ∧ c ≠ LPAREN ∧ c ≠ RPAREN ∧ c ≠ 38%N ∧ c ≠ 124%N ∧ c ≠ DQ.
Proof.
  unfold num_cls. rewrite orb_true_iff. intros [H|H].
  - split; [by apply is_digit_not_ws|]. unfold is_digit, LPAREN, RPAREN, DQ in *. boolify. lia.
  - unfold one_of in H. boolify. revert H. js_eval. set_unfold.
    intros H. destruct_or!; subst; done.
Qed.

Lemma numeric_trim s : is_numeric s = true → trim s = s.
Proof.
  intros [_ H]%is_numeric_chars. apply trim_fix. unfold no_edge_ws. rewrite Forall_forall in H.
  apply andb_true_iff; split.
  - destruct (head s) eqn:E; [|done]. apply head_Some_elem_of, H, num_cls_facts in E as [-> _]. done.
  - destruct (last s) eqn:E; [|done]. apply last_Some_elem_of, H, num_cls_facts in E as [-> _]. done.
Qed.

(** ** Strings of the editor fields *)

(** A code unit that [JSON.stringify] leaves as it is. *)
Definition plain_unit (c : N) : bool :=
  (32 <=? c)%N && negb (c =? DQ)%N && negb (c =? BSLASH)%N && negb (is_lead c) && negb (is_trail c).

(** Not a parenthesis, an ampersand, a vertical bar or a line separator: what the
    splitting of the parser looks at. *)
Definition safe_unit (c : N) : bool := negb (one_of [40; 41; 38; 124; 8232; 8233]%N c).

Definition path_ok (s : jstr) : bool :=
  nonempty s && str_eqb (trim s) s && forallb plain_unit s && forallb safe_unit s.

Definition value_ok (s : jstr) : bool :=
  str_eqb (trim s) s && forallb (λ c, c <? 65536)%N s && forallb safe_unit s.

Lemma escape_plain s : Forall (λ c, plain_unit c = true) s → escape s = s.
Proof.
  induction 1 as [|c s Hc Hs IH]; [done|]. unfold plain_unit in Hc. boolify.
  assert (escape_unit c = [c]) as Hu.
  { unfold escape_unit. unfold DQ, BSLASH in *.
    rewrite !(proj2 (N.eqb_neq c _)) by (done || lia). rewrite (proj2 (N.ltb_ge c 32)) by done.
    by destruct (is_lead c), (is_trail c). }
  cbn [escape]. destruct s as [|d s]; [done|].
  replace (is_lead c) with false by done. simpl andb. cbv iota. by rewrite Hu, IH.
Qed.

Lemma quote_plain s : Forall (λ c, plain_unit c = true) s → quote s = DQ :: s ++ [DQ].
Proof. intros H. unfold quote. by rewrite escape_plain. Qed.

Lemma hex4_units c x : x ∈ hex4 c → (48 <= x <= 57 ∨ 97 <= x <= 102)%N.
Proof.
  unfold hex4. rewrite list_elem_of_fmap. intros (d & -> & Hd).
  assert (d < 16)%N as Hlt by (set_unfold in Hd; destruct_or!; subst; by apply N.mod_lt).
  unfold hex_char. destruct (N.ltb_spec d 10); lia.
Qed.

(** The code units that escape sequences are made of. *)
Definition esc_out (x : N) : bool :=
  is_digit x || ((97 <=? x) && (x <=? 102))%N || one_of [34; 92; 110; 114; 116; 117]%N x.

Lemma esc_out_facts x :
  esc_out x = true → safe_unit x = true ∧ is_line_end x = false.
Proof.
  unfold esc_out, is_digit. rewrite !orb_true_iff, !andb_true_iff, !N.leb_le.
  unfold safe_unit, is_line_end, one_of. rewrite negb_true_iff, !bool_decide_eq_false.
  rewrite bool_decide_eq_true. intros H. rewrite !elem_of_cons, !elem_of_nil in *. lia.
Qed.

Lemma forallb_elem_of {A} (p : A → bool) l x : forallb p l = true → x ∈ l → p x = true.
Proof. rewrite forallb_Forall, Forall_forall. auto. Qed.

Lemma elem_of_escape_unit c x :
  x ∈ escape_unit c → x = c ∧ plain_unit c = true ∨ esc_out x = true.
Proof.
  unfold escape_unit.
  repeat match goal with
  | |- context [if (c =? ?y)%N then _ else _] =>
      destruct (N.eqb_spec c y); [intros H; right; revert H; apply forallb_elem_of; reflexivity|]
  end.
  destruct ((c <? 32)%N || is_lead c || is_trail c) eqn:E.
  - rewrite elem_of_app. intros [H|H]; right.
    + revert H. apply forallb_elem_of. reflexivity.
    + apply hex4_units in H. unfold esc_out, is_digit.
      rewrite !orb_true_iff, !andb_true_iff, !N.leb_le. lia.
  - rewrite list_elem_of_singleton. intros ->. left. split; [done|]. boolify.
    unfold plain_unit. rewrite (proj2 (N.leb_le 32 c)) by done.
    rewrite !(proj2 (N.eqb_neq c _)) by done. by destruct (is_lead c), (is_trail c).
Qed.

Lemma elem_of_escape s x :
  x ∈ escape s → (x ∈ s ∧ (32 <= x)%N) ∨ esc_out x = true.
Proof.
  remember (length s) as n eqn:Hn. revert s Hn.
  induction (lt_wf n) as [n _ IH]; intros s ->.
  assert (∀ c, x ∈ escape_unit c → x = c ∧ (32 <= x)%N ∨ esc_out x = true) as Hu.
  { intros c [[-> H]|H]%elem_of_escape_unit; [left|by right].
    unfold plain_unit in H. boolify. done. }
  destruct s as [|c s]; [by intros H%elem_of_nil|]. cbn [escape].
  destruct s as [|d s].
  { intros [[-> H]|H]%Hu; [left|by right]. rewrite elem_of_cons. auto. }
  destruct (is_lead c && is_trail d) eqn:E.
  - boolify. destruct (is_lead_plain c) as (_&_&?); [done|]. destruct (is_trail_plain d) as (_&_&?); [done|].
    rewrite !elem_of_cons. intros [->|[->|Hx]]; [by auto..|].
    destruct (IH (length s) ltac:(simpl; lia) s eq_refl Hx) as [[]|]; auto.
  - rewrite elem_of_app, elem_of_cons. intros [[[-> H]|H]%Hu|H]; [by auto..|].
    destruct (IH (length (d :: s)) ltac:(simpl; lia) (d :: s) eq_refl H) as [[]|]; auto.
Qed.

(** ** Parsing a printed time condition *)
Lemma path_ok_facts s :
  path_ok s = true →
  s ≠ [] ∧ trim s = s ∧ Forall (λ c, plain_unit c = true) s ∧ Forall (λ c, safe_unit c = true) s
  ∧ Forall (λ c, none_quote c = true) s.
Proof.
  unfold path_ok, str_eqb. intros H. boolify.
  repeat match goal with H : forallb _ _ = true |- _ => apply forallb_Forall in H end.
  split_and!; [by destruct s|done|done|done|].
  match goal with H : Forall (λ c, plain_unit c = true) s |- _ => eapply Forall_impl; [exact H|] end.
  intros c Hc. unfold plain_unit in Hc. boolify.
  unfold none_quote. apply negb_true_iff, N.eqb_neq. done.
Qed.

Lemma match_time_func {A} f p s caps (k : mstate → option A) :
  f ∈ TIME_FUNCS →
  re_match (ralt (map rlit TIME_FUNCS)) (MState p (f ++ LPAREN :: s) caps) k
  = k (MState (prev_after p f) (LPAREN :: s) caps).
Proof.
  unfold TIME_FUNCS. js_eval. rewrite !elem_of_cons, elem_of_nil.
  intros H. destruct_or!; subst; try done; cbn; by destruct (k _).
Qed.

(** The head of every time condition: function, bracket, time zone. *)
Lemma match_time_head {A} f tz u l s caps p (k : mstate → option A) :
  f ∈ TIME_FUNCS → path_ok tz = true →
  match_seq (time_func_re :: rlit (jq "('") :: RGroup 2 RNoQuote :: rlit (DQ :: u) :: l)
    (MState p (f ++ jq "('" ++ tz ++ DQ :: s) caps) k
  = match_seq (rlit (DQ :: u) :: l)
      (MState (prev_after (prev_after (prev_after p f) (jq "('")) tz) (DQ :: s)
        ((2, tz) :: (1, f) :: caps)) k.
Proof.
  intros Hf (Hne & _ & _ & _ & Hq)%path_ok_facts.
  change (jq "('") with [LPAREN; DQ]. cbn [match_seq]. unfold time_func_re.
  rewrite re_match_group. cbn [app]. rewrite match_time_func by done. cbn [m_rest m_prev m_caps].
  rewrite take_run.
  pose proof (match_seq_lit [LPAREN; DQ] (RGroup 2 RNoQuote :: rlit (DQ :: u) :: l)
    (prev_after p f) (tz ++ DQ :: s) ((1, f) :: caps) k) as H1.
  cbn [match_seq] in H1. etrans; [exact H1|].
  exact (match_seq_run 2 none_quote tz DQ u l _ s ((1, f) :: caps) k Hne Hq eq_refl).
Qed.

Lemma match_cmp_op {A} op p s caps (k : mstate → option A) :
  op ∈ [js "=="; js ">="; js "<"] →
  re_match (ralt [rlit (js "=="); rlit (js ">="); rlit (js "<")]) (MState p (op ++ js " " ++ s) caps) k
  = k (MState (prev_after p op) (js " " ++ s) caps).
Proof.
  js_eval. rewrite !elem_of_cons, elem_of_nil.
  intros H. destruct_or!; subst; try done; cbn; by destruct (k _).
Qed.

(** The text of a source call: [f("arg")]. *)
Definition call (f arg : jstr) : jstr := f ++ jq "('" ++ arg ++ jq "')".

Lemma call_text f arg s : call f arg ++ s = f ++ jq "('" ++ arg ++ DQ :: RPAREN :: s.
Proof. unfold call. rewrite <- !app_assoc. done. Qed.

Lemma time_func_head f s :
  f ∈ TIME_FUNCS → ∃ c t, f ++ s = c :: t ∧ c ≠ LPAREN ∧ is_ws c = false.
Proof.
  unfold TIME_FUNCS. js_eval. rewrite !elem_of_cons, elem_of_nil. unfold LPAREN.
  intros H. destruct_or!; subst; try done; by eexists _, _.
Qed.

Lemma num_no_space : num_cls 32 = false.
Proof. reflexivity. Qed.

Lemma find_anchored l s : re_find (anchored l) s = match_seq l (MState None s []) (k_end s).
Proof. apply re_find_anchored. Qed.

Lemma time_paren_fails f s :
  f ∈ TIME_FUNCS → re_find (anchored ([rlit (js "(")] ++ time_range_pat ++ [rlit (js ")")])) (f ++ s) = None.
Proof.
  intros Hf. rewrite find_anchored.
  destruct (time_func_head f s Hf) as (c & t & -> & Hc & _).
  apply match_seq_lit_fail. js_eval. by apply prefixb_head_ne.
Qed.

Lemma match_range_tail_fails {A} op v l p caps (k : mstate → option A) :
  op ∈ [js "=="; js ">="; js "<"] → Forall (λ c, num_cls c = true) v →
  match_seq (rlit (jq "') >= ") :: RGroup 3 RNum :: rlit (js " || ") :: l)
    (MState p (DQ :: RPAREN :: js " " ++ op ++ js " " ++ v) caps) k = None.
Proof.
  intros Hop Hv. rewrite !elem_of_cons, elem_of_nil in Hop. destruct_or!; subst; [| |by apply match_seq_lit_fail].
  - by apply match_seq_lit_fail.
  - change (DQ :: RPAREN :: js " " ++ js ">=" ++ js " " ++ v) with (jq "') >= " ++ v).
    rewrite match_seq_lit. by apply match_seq_run_stop.
Qed.

Lemma match_cmp_tail op v p caps s0 :
  op ∈ [js "=="; js ">="; js "<"] → v ≠ [] → Forall (λ c, num_cls c = true) v →
  ∃ q, match_seq [rlit (jq "') "); RGroup 3 (ralt [rlit (js "=="); rlit (js ">="); rlit (js "<")]);
         rlit (js " "); RGroup 4 RNum]
    (MState p (DQ :: RPAREN :: js " " ++ op ++ js " " ++ v) caps) (k_end s0)
  = Some (MState q [] ((0, s0) :: (4, v) :: (3, op) :: caps)).
Proof.
  intros Hop Hne Hv.
  change (DQ :: RPAREN :: js " " ++ op ++ js " " ++ v) with (jq "') " ++ op ++ js " " ++ v).
  rewrite match_seq_lit. cbn [match_seq]. rewrite re_match_group, match_cmp_op by done.
  cbn [m_rest m_prev m_caps]. rewrite take_run, re_match_lit.
  eexists. by apply (match_seq_run_end 4 num_cls v).
Qed.

Lemma parse_time_cmp f tz op v :
  f ∈ TIME_FUNCS → path_ok tz = true → op ∈ [js "=="; js ">="; js "<"] → is_numeric v = true →
  tryParseTimeCondition (call f tz ++ js " " ++ op ++ js " " ++ v)
  = Some (TimeCondition f tz (time_cmp_mode op) v [] []).
Proof.
  intros Hf Htz Hop [Hne Hv]%is_numeric_chars. unfold tryParseTimeCondition.
  rewrite call_text, time_paren_fails by done. rewrite !find_anchored.
  unfold time_range_pat, time_cmp_pat.
  rewrite (match_time_head f tz (RPAREN :: js " >= ")), match_range_tail_fails by done.
  rewrite (match_time_head f tz (RPAREN :: js " ")) by done.
  edestruct (match_cmp_tail op v) as [q Hq]; [done..|]. rewrite Hq. done.
Qed.

Lemma match_range_mid {A} f tz s t l p caps (k : mstate → option A) :
  is_numeric s = true →
  ∃ q, match_seq (rlit (jq "') >= ") :: RGroup 3 RNum :: rlit (js " || ") :: RBackref 1 ::
         rlit (jq "('") :: RBackref 2 :: rlit (jq "') < ") :: l)
    (MState p (DQ :: RPAREN :: js " >= " ++ s ++ js " || " ++ call f tz ++ js " < " ++ t)
      ((2, tz) :: (1, f) :: caps)) k
  = match_seq l (MState q t ((3, s) :: (2, tz) :: (1, f) :: caps)) k.
Proof.
  intros [Hne Hs]%is_numeric_chars. eexists.
  change (DQ :: RPAREN :: js " >= " ++ ?x) with (jq "') >= " ++ x).
  rewrite match_seq_lit. change (js " || " ++ ?x) with (32%N :: js "|| " ++ x).
  change (js " || ") with (32%N :: js "|| ").
  rewrite (match_seq_run 3 num_cls s) by done.
  change (32%N :: js "|| " ++ ?x) with ((32%N :: js "|| ") ++ x). rewrite match_seq_lit.
  rewrite call_text. rewrite (match_seq_backref 1 f) by done. rewrite match_seq_lit.
  rewrite (match_seq_backref 2 tz) by done.
  change (DQ :: RPAREN :: js " < " ++ t) with (jq "') < " ++ t). by rewrite match_seq_lit.
Qed.

Definition range_text (f tz s e : jstr) : jstr :=
  call f tz ++ js " >= " ++ s ++ js " || " ++ call f tz ++ js " < " ++ e.

Lemma match_range {A} f tz s t l p (k : mstate → option A) :
  f ∈ TIME_FUNCS → path_ok tz = true → is_numeric s = true →
  ∃ q, match_seq (time_func_re :: rlit (jq "('") :: RGroup 2 RNoQuote :: rlit (jq "') >= ") ::
         RGroup 3 RNum :: rlit (js " || ") :: RBackref 1 :: rlit (jq "('") :: RBackref 2 ::
         rlit (jq "') < ") :: l)
    (MState p (range_text f tz s t) []) k
  = match_seq l (MState q t [(3, s); (2, tz); (1, f)]) k.
Proof.
  intros Hf Htz Hs. unfold range_text. rewrite call_text.
  rewrite (match_time_head f tz (RPAREN :: js " >= ")) by done.
  by apply match_range_mid.
Qed.

Lemma parse_time_range f tz s e :
  f ∈ TIME_FUNCS → path_ok tz = true → is_numeric s = true → is_numeric e = true →
  tryParseTimeCondition (range_text f tz s e)
  = Some (TimeCondition f tz MATCH_RANGE [] s e).
Proof.
  intros Hf Htz Hs [Hne He]%is_numeric_chars. unfold tryParseTimeCondition. rewrite find_anchored.
  unfold time_range_pat. 
  destruct (match_range f tz s e [RGroup 4 RNum] None (k_end (range_text f tz s e))) as [q ->]; [done..|].
  by rewrite (match_seq_run_end 4 num_cls e q _ (k_end (range_text f tz s e)) _ Hne He eq_refl).
Qed.

Lemma range_text_app f tz s e r : range_text f tz s e ++ r = range_text f tz s (e ++ r).
Proof. unfold range_text. by rewrite <- !app_assoc. Qed.

Lemma parse_time_range_paren f tz s e :
  f ∈ TIME_FUNCS → path_ok tz = true → is_numeric s = true → is_numeric e = true →
  tryParseTimeCondition (js "(" ++ range_text f tz s e ++ js ")")
  = Some (TimeCondition f tz MATCH_RANGE [] s e).
Proof.
  intros Hf Htz Hs [Hne He]%is_numeric_chars. unfold tryParseTimeCondition. rewrite !find_anchored.
  unfold time_range_pat.
  assert (∀ x, match_seq (time_func_re :: x) (MState None (js "(" ++ range_text f tz s e ++ js ")") [])
    (k_end (js "(" ++ range_text f tz s e ++ js ")")) = None) as -> by done.
  cbn [app]. rewrite match_seq_lit, range_text_app.
  destruct (match_range f tz s (e ++ js ")") [RGroup 4 RNum; rlit (js ")")] (prev_after None (js "("))
    (k_end (js "(" ++ range_text f tz s (e ++ js ")")))) as [q ->]; [done..|].
  change (js ")") with [RPAREN]. by rewrite (match_seq_run 4 num_cls).
Qed.

(** ** Parsing a printed parameter or header condition *)

Definition src_name (src : PHSource) : jstr :=
  match src with Param => js "param" | Header => js "header" end.

Lemma not_time s :
  forallb (λ f, negb (prefixb f s)) (js "(" :: TIME_FUNCS) = true →
  tryParseTimeCondition s = None.
Proof.
  cbn [forallb]. rewrite andb_true_iff, negb_true_iff. intros [Hp Hf].
  unfold tryParseTimeCondition. rewrite !find_anchored.
  assert (∀ l, match_seq (time_func_re :: l) (MState None s []) (k_end s) = None) as Hnone.
  { intros l. cbn [match_seq]. unfold time_func_re. rewrite re_match_group.
    apply re_match_ralt_lit_none. apply forallb_Forall in Hf. eapply Forall_impl; [exact Hf|].
    intros w. apply negb_true_iff. }
  unfold time_range_pat, time_cmp_pat. rewrite !Hnone. cbn [app].
  by rewrite match_seq_lit_fail.
Qed.

(** A call pattern on the text of a call. *)
Lemma match_call {A} w n path u l p s caps (k : mstate → option A) :
  path_ok path = true →
  match_seq (rlit w :: RGroup n RNoQuote :: rlit (DQ :: u) :: l)
    (MState p (w ++ path ++ DQ :: s) caps) k
  = match_seq (rlit (DQ :: u) :: l)
      (MState (prev_after (prev_after p w) path) (DQ :: s) ((n, path) :: caps)) k.
Proof.
  intros (Hne & _ & _ & _ & Hq)%path_ok_facts. rewrite match_seq_lit.
  by apply (match_seq_run n none_quote path).
Qed.

Lemma match_src {A} src p s caps (k : mstate → option A) :
  re_match (RAlt (rlit (js "param")) (rlit (js "header"))) (MState p (src_name src ++ LPAREN :: s) caps) k
  = k (MState (prev_after p (src_name src)) (LPAREN :: s) caps).
Proof. destruct src; unfold src_name; js_eval; cbn; by destruct (k _). Qed.

Lemma match_eq_head {A} src path l p s (k : mstate → option A) :
  path_ok path = true →
  match_seq (RGroup 1 (RAlt (rlit (js "param")) (rlit (js "header"))) :: rlit (jq "('") ::
      RGroup 2 RNoQuote :: rlit (jq "') == ") :: l)
    (MState p (call (src_name src) path ++ s) []) k
  = match_seq (rlit (jq "') == ") :: l)
      (MState (prev_after (prev_after (prev_after p (src_name src)) (jq "('")) path)
        (DQ :: RPAREN :: s) [(2, path); (1, src_name src)]) k.
Proof.
  intros Hp. rewrite call_text. cbn [match_seq]. rewrite re_match_group.
  change (jq "('" ++ ?x) with (LPAREN :: DQ :: x).
  rewrite match_src. cbn [m_rest m_prev m_caps]. rewrite take_run.
  exact (match_call (jq "('") 2 path (RPAREN :: js " == ") l _ (RPAREN :: s) _ k Hp).
Qed.

(** What distinguishes the patterns is the text after the call. *)
Lemma parse_call_tail src path t :
  path_ok path = true →
  prefixb (js " != ") t = false →
  tryParseRequestCondition (call (src_name src) path ++ t) = try_eq (call (src_name src) path ++ t).
Proof.
  intros Hp Ht. unfold tryParseRequestCondition.
  rewrite not_time by (rewrite call_text; by destruct src).
  rewrite !find_anchored. unfold try_param_has, try_param_cmp. rewrite !find_anchored, call_text.
  unfold header_exists_pat, param_exists_pat, header_has_pat, param_has_pat, param_cmp_pat.
  assert (∀ u l p caps (k : mstate → option mstate),
    match_seq (rlit (jq "') != " ++ u) :: l) (MState p (DQ :: RPAREN :: t) caps) k = None) as Hneq.
  { intros. apply match_seq_lit_fail. change (jq "') != " ++ u) with (DQ :: RPAREN :: js " != " ++ u).
    cbn [prefixb]. rewrite !N.eqb_refl. cbn [andb]. destruct (prefixb (js " != " ++ u) t) eqn:E; [|done].
    apply prefixb_spec in E as [v ->]. by rewrite <- app_assoc, prefixb_app in Ht. }
  destruct src.
  - rewrite (match_seq_lit_fail (jq "header('")) by done.
    change (src_name Param ++ jq "('" ++ ?x) with (jq "param('" ++ x).
    rewrite (match_call (jq "param('") 1 path (RPAREN :: js " != nil")) by done.
    rewrite (match_call (jq "param('") 1 path (RPAREN :: jq " != nil && has(param('")) by done.
    rewrite (match_call (jq "param('") 1 path (RPAREN :: jq " != nil && param('")) by done.
    rewrite (match_seq_lit_fail (jq "has(header('")) by done.
    rewrite (Hneq (js "nil") []), (Hneq (jq "nil && has(param('")), (Hneq (jq "nil && param('")). done.
  - change (src_name Header ++ jq "('" ++ ?x) with (jq "header('" ++ x).
    rewrite (match_call (jq "header('") 1 path (RPAREN :: jq " != ''")) by done.
    rewrite !(match_seq_lit_fail (jq "param('")) by done.
    rewrite (match_seq_lit_fail (jq "has(header('")) by done.
    rewrite (Hneq (jq "''") []). done.
Qed.

Lemma parse_header_exists path :
  path_ok path = true →
  tryParseRequestCondition (call (js "header") path ++ jq " != ''")
  = Ret (Some (ParamHeaderCondition Header path MATCH_EXISTS [])).
Proof.
  intros Hp. unfold tryParseRequestCondition. rewrite not_time by (by rewrite call_text).
  rewrite find_anchored, call_text. change (js "header" ++ jq "('" ++ ?x) with (jq "header('" ++ x).
  unfold header_exists_pat.
  rewrite (match_call (jq "header('") 1 path (RPAREN :: jq " != ''")) by done.
  change (MState ?p (DQ :: RPAREN :: jq " != ''") ?c) with (MState p (jq "') != ''") c).
  by rewrite match_seq_lit_end.
Qed.

Lemma parse_param_exists path :
  path_ok path = true →
  tryParseRequestCondition (call (js "param") path ++ js " != nil")
  = Ret (Some (ParamHeaderCondition Param path MATCH_EXISTS [])).
Proof.
  intros Hp. unfold tryParseRequestCondition. rewrite not_time by (by rewrite call_text).
  rewrite !find_anchored, call_text. change (js "param" ++ jq "('" ++ ?x) with (jq "param('" ++ x).
  unfold header_exists_pat, param_exists_pat.
  rewrite (match_seq_lit_fail (jq "header('")) by done.
  rewrite (match_call (jq "param('") 1 path (RPAREN :: js " != nil")) by done.
  change (MState ?p (DQ :: RPAREN :: js " != nil") ?c) with (MState p (jq "') != nil") c).
  by rewrite match_seq_lit_end.
Qed.

(** *** Quoted literals *)

(** A text the body of a quoted-literal pattern consumes: ordinary code units
    and escape pairs. *)
Inductive lit_body : jstr → Prop :=
  | lb_nil : lit_body []
  | lb_unit c w : one_of [DQ; BSLASH] c = false → lit_body w → lit_body (c :: w)
  | lb_esc c w : is_line_end c = false → lit_body w → lit_body (BSLASH :: c :: w).

Lemma lit_body_app w1 w2 : lit_body w1 → lit_body w2 → lit_body (w1 ++ w2).
Proof. induction 1; simpl; auto using lit_body. Qed.

Lemma lit_body_units w : Forall (λ c, one_of [DQ; BSLASH] c = false) w → lit_body w.
Proof. induction 1; auto using lit_body. Qed.

Lemma hex4_lit_body c : lit_body (hex4 c).
Proof.
  apply lit_body_units, Forall_forall. intros x Hx%hex4_units.
  unfold one_of, DQ, BSLASH. apply bool_decide_eq_false. rewrite !elem_of_cons, elem_of_nil. lia.
Qed.

Lemma escape_unit_lit_body c : lit_body (escape_unit c).
Proof.
  unfold escape_unit. js_eval.
  repeat match goal with
  | |- context [if (c =? ?y)%N then _ else _] =>
      destruct (N.eqb_spec c y); [by apply lb_esc; [reflexivity|constructor]|]
  end.
  case_match.
  - apply (lb_esc 117); [reflexivity|]. apply hex4_lit_body.
  - apply lb_unit; [|constructor]. unfold one_of. apply bool_decide_eq_false.
    rewrite !elem_of_cons, elem_of_nil. naive_solver.
Qed.

Lemma escape_lit_body s : lit_body (escape s).
Proof.
  remember (length s) as n eqn:Hn. revert s Hn.
  induction (lt_wf n) as [n _ IH]; intros s ->.
  destruct s as [|c s]; [constructor|]. cbn [escape]. destruct s as [|d s].
  { apply escape_unit_lit_body. }
  destruct (is_lead c && is_trail d) eqn:E.
  - boolify. destruct (is_lead_plain c) as (?&?&_); [done|]. destruct (is_trail_plain d) as (?&?&_); [done|].
    assert (∀ x, x ≠ DQ → x ≠ BSLASH → one_of [DQ; BSLASH] x = false).
    { intros x ??. unfold one_of. apply bool_decide_eq_false. rewrite !elem_of_cons, elem_of_nil. naive_solver. }
    apply lb_unit; [auto|]. apply lb_unit; [auto|]. eapply IH; [|reflexivity]. simpl. lia.
  - apply lit_body_app; [apply escape_unit_lit_body|]. eapply IH; [|reflexivity]. simpl. lia.
Qed.

Definition lit_char_re : regex :=
  RAlt (RSet (λ c, negb (one_of [DQ; BSLASH] c))) (RSeq (rlit [BSLASH]) RDot).

Lemma star_lit_body {A} w f p t caps (k : mstate → option A) x :
  lit_body w → length w ≤ f →
  (∀ q, k (MState q (DQ :: t) caps) = Some x) →
  star_go (re_match lit_char_re) f (MState p (w ++ DQ :: t) caps) k = Some x.
Proof.
  intros Hw. revert p f. induction Hw as [|c w Hc Hw IH|c w Hc Hw IH]; intros p f Hf Hk.
  - destruct f; [apply Hk|]. simpl. apply Hk.
  - simpl in Hf. destruct f as [|f]; [lia|]. simpl. rewrite Hc. simpl.
    rewrite (proj2 (Nat.ltb_lt _ _)) by lia. rewrite IH; [done|lia|done].
  - simpl in Hf. destruct f as [|f]; [lia|]. simpl. rewrite Hc. simpl.
    rewrite (proj2 (Nat.ltb_lt _ _)) by lia. rewrite IH; [done|lia|done].
Qed.

(** The quoted-literal pattern on a printed string. *)
Lemma match_json_string n s p t caps l k (x : mstate) :
  (∀ q, match_seq l (MState q t ((n, quote s) :: caps)) k = Some x) →
  match_seq (json_string_re n :: l) (MState p (quote s ++ t) caps) k = Some x.
Proof.
  intros Hk. cbn [match_seq]. unfold json_string_re. rewrite re_match_group, re_match_rseq.
  set (K := λ st' : mstate, match_seq l _ k).
  assert (∀ q, K (MState q t caps) = Some x) as HK.
  { intros q. unfold K. cbn [m_rest m_prev m_caps]. rewrite take_run. apply Hk. }
  clearbody K. assert (quote s ++ t = [DQ] ++ escape s ++ DQ :: t) as ->
    by (unfold quote; by rewrite <- app_comm_cons, <- app_assoc).
  rewrite match_seq_lit. cbn [match_seq].
  change (star_go (re_match lit_char_re) (length (escape s ++ DQ :: t))
    (MState (prev_after p [DQ]) (escape s ++ DQ :: t) caps) (λ st', re_match (rlit [DQ]) st' K) = Some x).
  apply star_lit_body; [apply escape_lit_body|rewrite length_app; lia|].
  intros q. change (DQ :: t) with ([DQ] ++ t). by rewrite re_match_lit.
Qed.

Lemma json_parse_quote s : Forall code_unit s → json_parse (quote s) = Some (JStr s).
Proof. intros H. apply (json_parse_stringify (JStr s)). by constructor. Qed.

Lemma value_ok_facts v :
  value_ok v = true → trim v = v ∧ Forall code_unit v ∧ Forall (λ c, safe_unit c = true) v.
Proof.
  unfold value_ok, str_eqb. intros H. boolify.
  repeat match goal with H : forallb _ _ = true |- _ => apply forallb_Forall in H end.
  split_and!; [done| |done].
  match goal with H : Forall (λ c, (c <? 65536)%N = true) v |- _ => eapply Forall_impl; [exact H|] end.
  intros c Hc. by apply N.ltb_lt in Hc.
Qed.

Lemma parse_header_contains path v :
  path_ok path = true → value_ok v = true →
  tryParseRequestCondition (js "has(" ++ call (js "header") path ++ js ", " ++ quote v ++ js ")")
  = Ret (Some (ParamHeaderCondition Header path MATCH_CONTAINS v)).
Proof.
  intros Hp (_ & Hv & _)%value_ok_facts. unfold tryParseRequestCondition. rewrite not_time by done.
  rewrite !find_anchored, call_text.
  change (js "has(" ++ js "header" ++ jq "('" ++ ?x) with (jq "has(header('" ++ x).
  unfold header_exists_pat, param_exists_pat, header_has_pat.
  rewrite (match_seq_lit_fail (jq "header('")), (match_seq_lit_fail (jq "param('")) by done.
  rewrite (match_call (jq "has(header('") 1 path (RPAREN :: js ", ")) by done.
  change (DQ :: RPAREN :: js ", " ++ ?x) with (jq "'), " ++ x). rewrite match_seq_lit.
  rewrite (match_json_string 2 v _ (js ")") _ [rlit (js ")")] _ (MState (Some RPAREN) []
    [(0, jq "has(header('" ++ path ++ jq "'), " ++ quote v ++ js ")"); (2, quote v); (1, path)])).
  2: { intros q. by rewrite match_seq_lit_end. }
  change (capt _ 2) with (quote v). change (capt _ 1) with path.
  unfold parsed_string. by rewrite json_parse_quote.
Qed.

(** *** Equality *)

Definition is_literal_text (v : jstr) : bool :=
  str_eqb v (js "true") || str_eqb v (js "false") || is_numeric v.

Lemma build_literal v :
  trim v = v → buildExprLiteral MATCH_EQ v = if is_literal_text v then v else quote v.
Proof.
  intros Hv. unfold buildExprLiteral, is_literal_text. rewrite Hv.
  change (str_eqb MATCH_EQ MATCH_CONTAINS) with false. cbv iota.
  by destruct (str_eqb v (js "true")), (str_eqb v (js "false")), (is_numeric v).
Qed.

Lemma quote_trim s : trim (quote s) = quote s.
Proof. unfold quote. by apply trim_wrap. Qed.

Lemma quote_not_literal s : is_literal_text (quote s) = false.
Proof.
  unfold is_literal_text, str_eqb. rewrite !bool_decide_eq_false_2 by done.
  destruct (is_numeric (quote s)) eqn:E; [|done].
  apply is_numeric_chars in E as [_ E]. by inversion E.
Qed.

Lemma parseExprLiteral_unfold t :
  parseExprLiteral t =
    if is_literal_text (trim t) then Some (JStr (trim t))
    else match json_parse (trim t) with Some JNull | None => None | Some v => Some v end.
Proof.
  unfold parseExprLiteral, is_literal_text, is_numeric. by destruct (_ || _), (re_test _ _).
Qed.

Lemma parse_built_literal v :
  value_ok v = true →
  parseExprLiteral (buildExprLiteral MATCH_EQ v) = Some (JStr v).
Proof.
  intros (Ht & Hc & _)%value_ok_facts. rewrite build_literal, parseExprLiteral_unfold by done.
  destruct (is_literal_text v) eqn:E; [by rewrite Ht, E|].
  rewrite quote_trim, quote_not_literal. by rewrite json_parse_quote.
Qed.

(** The code units of a printed literal. *)
Lemma quote_units s x :
  Forall (λ c, safe_unit c = true) s → x ∈ quote s → safe_unit x = true ∧ is_line_end x = false.
Proof.
  intros Hs. unfold quote. rewrite elem_of_cons, elem_of_app, list_elem_of_singleton.
  intros [->|[H| ->]]; [done| |done]. apply elem_of_escape in H as [[Hx H32]|Hx].
  - rewrite Forall_forall in Hs. specialize (Hs x Hx). split; [done|]. revert Hs.
    unfold safe_unit, is_line_end, one_of. rewrite negb_true_iff, !bool_decide_eq_false.
    rewrite !elem_of_cons, !elem_of_nil. lia.
  - by apply esc_out_facts.
Qed.

Lemma num_cls_units x : num_cls x = true → safe_unit x = true ∧ is_line_end x = false.
Proof.
  unfold num_cls. rewrite orb_true_iff. intros [H|H].
  - unfold is_digit in H. boolify. unfold safe_unit, is_line_end, one_of.
    rewrite negb_true_iff, !bool_decide_eq_false, !elem_of_cons, !elem_of_nil. lia.
  - unfold one_of in H. boolify. revert H. js_eval. rewrite !elem_of_cons, elem_of_nil.
    intros H. destruct_or!; subst; done.
Qed.

Lemma literal_units v x :
  value_ok v = true → x ∈ buildExprLiteral MATCH_EQ v → safe_unit x = true ∧ is_line_end x = false.
Proof.
  intros (Ht & _ & Hs)%value_ok_facts. rewrite build_literal by done.
  destruct (is_literal_text v) eqn:E; [|by apply quote_units].
  unfold is_literal_text, str_eqb in E. rewrite !orb_true_iff, !bool_decide_eq_true in E.
  destruct E as [[-> | ->]|E].
  - intros Hx. apply (forallb_elem_of (λ c, safe_unit c && negb (is_line_end c))) in Hx; [|reflexivity].
    by boolify.
  - intros Hx. apply (forallb_elem_of (λ c, safe_unit c && negb (is_line_end c))) in Hx; [|reflexivity].
    by boolify.
  - apply is_numeric_chars in E as [_ E]. rewrite Forall_forall in E. intros Hx. by apply num_cls_units, E.
Qed.

Lemma literal_nonnil v : buildExprLiteral MATCH_EQ v ≠ [].
Proof.
  unfold buildExprLiteral. change (str_eqb MATCH_EQ MATCH_CONTAINS) with false. cbv iota.
  destruct (_ || _) eqn:E1.
  - unfold str_eqb in E1. rewrite orb_true_iff, !bool_decide_eq_true in E1. by destruct E1 as [-> | ->].
  - destruct (is_numeric _) eqn:E2; [by apply is_numeric_chars in E2 as [? _]|done].
Qed.

Lemma parse_eq src path v :
  path_ok path = true → value_ok v = true →
  tryParseRequestCondition (call (src_name src) path ++ js " == " ++ buildExprLiteral MATCH_EQ v)
  = Ret (Some (ParamHeaderCondition src path MATCH_EQ v)).
Proof.
  intros Hp Hv. rewrite parse_call_tail by done. unfold try_eq. rewrite find_anchored.
  unfold eq_pat. rewrite match_eq_head by done.
  change (DQ :: RPAREN :: js " == " ++ ?x) with (jq "') == " ++ x). rewrite match_seq_lit.
  set (lit := buildExprLiteral MATCH_EQ v). set (s0 := call (src_name src) path ++ js " == " ++ lit).
  assert (Forall (λ c, negb (is_line_end c) = true) lit) as Hl.
  { apply Forall_forall. intros x Hx. apply negb_true_iff. by eapply literal_units. }
  rewrite (match_seq_run_end 3 (λ c, negb (is_line_end c)) lit _ _ (k_end s0) _ (literal_nonnil v) Hl eq_refl).
  change (capt _ 3) with lit. change (capt _ 2) with path. change (capt _ 1) with (src_name src).
  unfold lit. rewrite parse_built_literal by done. by destruct src.
Qed.

(** ** The pieces of a comparison on a parameter

    The printer guards such a condition with [param("p") != nil && ...]. *)
Lemma parse_has_param path t :
  tryParseRequestCondition (js "has(" ++ call (js "param") path ++ t) = Ret None.
Proof.
  unfold tryParseRequestCondition. rewrite not_time by done.
  rewrite !find_anchored. unfold header_exists_pat, param_exists_pat, header_has_pat.
  rewrite (match_seq_lit_fail (jq "header('")), (match_seq_lit_fail (jq "param('")) by done.
  rewrite (match_seq_lit_fail (jq "has(header('")) by done.
  unfold try_param_has, try_param_cmp, try_eq. rewrite !find_anchored.
  unfold param_has_pat, param_cmp_pat. rewrite !(match_seq_lit_fail (jq "param('")) by done. done.
Qed.

Lemma parse_param_cmp path op t :
  path_ok path = true → op ∈ [js ">"; js ">="; js "<"; js "<="] →
  tryParseRequestCondition (call (src_name Param) path ++ js " " ++ op ++ js " " ++ t) = Ret None.
Proof.
  intros Hp Hop. rewrite !elem_of_cons, elem_of_nil in Hop.
  rewrite parse_call_tail by (destruct_or!; by subst). unfold try_eq. rewrite find_anchored.
  unfold eq_pat. rewrite match_eq_head by done.
  rewrite match_seq_lit_fail by (destruct_or!; by subst). done.
Qed.

(** ** Balanced text *)

Fixpoint bal (s : jstr) (d : nat) : option nat :=
  match s with
  | [] => Some d
  | c :: s =>
    if (c =? LPAREN)%N then bal s (S d)
    else if (c =? RPAREN)%N then match d with O => None | S d => bal s d end
    else bal s d
  end.

Definition balanced (s : jstr) : Prop := bal s 0 = Some 0.

Definition safe (s : jstr) : Prop := Forall (λ c, safe_unit c = true) s.

Lemma bal_app s t d : bal (s ++ t) d = bal s d ≫= bal t.
Proof.
  revert d; induction s as [|c s IH]; intros d; [done|]. cbn [app bal].
  destruct (c =? LPAREN)%N, (c =? RPAREN)%N, d; try apply IH. done.
Qed.

Lemma bal_shift s d e k : bal s d = Some e → bal s (d + k) = Some (e + k).
Proof.
  revert d; induction s as [|c s IH]; intros d; cbn [bal]; [by intros [= ->]|].
  destruct (c =? LPAREN)%N; [apply (IH (S d))|]. destruct (c =? RPAREN)%N; [|apply IH].
  destruct d; [done|]. apply IH.
Qed.

Lemma balanced_app s t : balanced s → balanced t → balanced (s ++ t).
Proof. unfold balanced. intros Hs Ht. by rewrite bal_app, Hs. Qed.

Lemma balanced_paren s : balanced s → balanced (LPAREN :: s ++ [RPAREN]).
Proof.
  unfold balanced. intros Hs. cbn [bal]. rewrite N.eqb_refl, bal_app.
  pose proof (bal_shift s 0 0 1 Hs) as H. simpl in H. by rewrite H.
Qed.

Lemma balanced_safe s : safe s → balanced s.
Proof.
  unfold balanced. induction 1 as [|c s Hc Hs IH]; [done|]. cbn [bal].
  assert (c ≠ LPAREN ∧ c ≠ RPAREN) as [H1 H2].
  { unfold safe_unit, one_of, LPAREN, RPAREN in *. boolify. set_solver. }
  rewrite (proj2 (N.eqb_neq c LPAREN)), (proj2 (N.eqb_neq c RPAREN)) by done. done.
Qed.

Lemma bal_depth s d e :
  bal s d = Some e → foldl (λ d c, depth_step c d) (Z.of_nat d) s = Z.of_nat e.
Proof.
  revert d; induction s as [|c s IH]; intros d; cbn [bal foldl]; [by intros [= ->]|].
  unfold depth_step at 2. destruct (c =? LPAREN)%N.
  { intros H%IH. by rewrite <- H, Nat2Z.inj_succ. }
  destruct (c =? RPAREN)%N; [|apply IH]. destruct d as [|d]; [done|].
  intros H%IH. rewrite <- H, Nat2Z.inj_succ. f_equal. lia.
Qed.

(** ** Splitting at [&&] *)
Lemma and_prefix_false c s rest :
  (38 ∉ c :: s)%N → (rest = [] ∨ head rest = Some 32%N) →
  prefixb (js " && ") ((c :: s) ++ rest) = false.
Proof.
  intros Hc Hr. js_eval. cbn [app prefixb]. destruct (32 =? c)%N; [|done]. cbn [andb].
  destruct s as [|d s]; cbn [app].
  - destruct rest as [|r rest]; [done|]. destruct Hr as [?|[= ->]]; done.
  - cbn [prefixb]. rewrite !not_elem_of_cons in Hc. destruct Hc as (_ & Hd & _).
    by rewrite (proj2 (N.eqb_neq 38 d)).
Qed.

Lemma split_and_piece s rest d cur :
  (38 ∉ s)%N → (rest = [] ∨ head rest = Some 32%N) →
  split_top_go (js " && ") (s ++ rest) 0 d cur
  = split_top_go (js " && ") rest 0 (foldl (λ d c, depth_step c d) d s) (reverse s ++ cur).
Proof.
  intros Hs Hr. revert d cur. induction s as [|c s IH]; intros d cur; [done|].
  pose proof (and_prefix_false c s rest Hs Hr) as Hp.
  cbn [app split_top_go foldl] in *. rewrite Hp, andb_false_r.
  rewrite IH by set_solver. by rewrite reverse_cons, <- app_assoc.
Qed.

(** A text that the splitting at [&&] leaves in one piece. *)
Definition piece_ok (p : jstr) : Prop :=
  balanced p ∧ (38 ∉ p)%N ∧ trim p = p ∧ p ≠ [].

Lemma split_and_join ps :
  ps ≠ [] → Forall piece_ok ps → splitTopLevelAnd (str_join (js " && ") ps) = ps.
Proof.
  intros Hne Hps. unfold splitTopLevelAnd.
  assert (split_top_go (js " && ") (str_join (js " && ") ps) 0 0 [] = ps) as ->.
  { induction Hps as [|p ps (Hb & Ha & Ht & _) Hps IH]; [done|].
    pose proof (bal_depth p 0 0 Hb) as Hd. change (Z.of_nat 0) with 0%Z in Hd. destruct ps as [|p' ps].
    - cbn [str_join]. rewrite <- (app_nil_r p) at 1. rewrite split_and_piece by auto.
      cbn [split_top_go]. by rewrite app_nil_r, reverse_involutive, Ht.
    - rewrite join_cons by done. rewrite split_and_piece by (done || by right). rewrite Hd.
      rewrite app_nil_r. js_eval. cbn [app split_top_go]. simpl andb. cbv iota.
      rewrite reverse_involutive, Ht. f_equal. apply IH. done. }
  clear Hne. induction Hps as [|p ps (_ & _ & _ & Hp) Hps IH]; [done|]. simpl.
  destruct p; [done|]. simpl. by rewrite IH.
Qed.

(** ** Splitting at [*] *)
Lemma split_deep sep s rest k k' cur :
  bal s k = Some k' →
  split_top_go sep (s ++ rest) 0 (1 + Z.of_nat k) cur
  = split_top_go sep rest 0 (1 + Z.of_nat k') (reverse s ++ cur).
Proof.
  revert k cur; induction s as [|c s IH]; intros k cur; cbn [bal]; [by intros [= ->]|].
  intros H. cbn [app split_top_go]. rewrite reverse_cons, <- app_assoc. cbn [app].
  assert (∃ k1, depth_step c (1 + Z.of_nat k) = (1 + Z.of_nat k1)%Z ∧ bal s k1 = Some k') as (k1 & -> & Hk1).
  { unfold depth_step. destruct (c =? LPAREN)%N; [exists (S k); split; [lia|done]|].
    destruct (c =? RPAREN)%N; [|by exists k].
    destruct k as [|k]; [done|]. exists k. split; [lia|done]. }
  rewrite (proj2 (Z.eqb_neq _ 0)) by lia. cbn [andb]. by apply IH.
Qed.

(** A factor: a balanced text between parentheses. *)
Definition factor_ok (f : jstr) : Prop := ∃ b, f = LPAREN :: b ++ [RPAREN] ∧ balanced b.

Lemma split_mul_factor b rest cur :
  balanced b →
  split_top_go (js " * ") ((LPAREN :: b ++ [RPAREN]) ++ rest) 0 0 cur
  = split_top_go (js " * ") rest 0 0 (reverse (LPAREN :: b ++ [RPAREN]) ++ cur).
Proof.
  intros Hb. cbn [app]. rewrite <- app_assoc. cbn [app split_top_go].
  change (depth_step LPAREN 0) with (1 + Z.of_nat 0)%Z. change (1 + Z.of_nat 0 =? 0)%Z with false.
  cbn [andb]. rewrite (split_deep _ b _ 0 0) by done. cbn [split_top_go].
  change (prefixb (js " * ") (RPAREN :: rest)) with false. rewrite andb_false_r.
  change (depth_step RPAREN (1 + Z.of_nat 0)) with 0%Z. rewrite reverse_cons, reverse_app. change (reverse [RPAREN]) with [RPAREN].
  rewrite <- !app_assoc. done.
Qed.

Lemma split_mul_join fs :
  Forall factor_ok fs → fs ≠ [] → splitTopLevelMultiply (str_join (js " * ") fs) = fs.
Proof.
  intros Hfs Hne. unfold splitTopLevelMultiply.
  assert (split_top_go (js " * ") (str_join (js " * ") fs) 0 0 [] = fs) as ->.
  { induction Hfs as [|f fs (b & -> & Hb) Hfs IH]; [done|].
    assert (trim (LPAREN :: b ++ [RPAREN]) = LPAREN :: b ++ [RPAREN]) as Ht by (by apply trim_wrap).
    destruct fs as [|f' fs].
    - cbn [str_join]. rewrite <- (app_nil_r (_ :: b ++ _)) at 1. rewrite split_mul_factor by done.
      cbn [split_top_go]. by rewrite app_nil_r, reverse_involutive, Ht.
    - rewrite join_cons by done. rewrite split_mul_factor by done. rewrite app_nil_r.
      js_eval. cbn [app split_top_go]. simpl andb. cbv iota.
      rewrite reverse_involutive, Ht. f_equal. by apply IH. }
  clear Hne. induction Hfs as [|f fs (b & -> & _) Hfs IH]; [done|]. simpl. by rewrite IH.
Qed.

(** ** The factor pattern: a greedy run of anything up to the last [?] *)
Lemma star_any_none {A} f t p caps (k : mstate → option A) :
  (∀ u t' q, t = u ++ t' → k (MState q t' caps) = None) →
  star_go (re_match RAny) f (MState p t caps) k = None.
Proof.
  unfold RAny. revert t p; induction f as [|f IH]; intros t p Hk; [by apply (Hk [])|].
  destruct t as [|c t]; [rewrite star_set_nil; by apply (Hk [])|].
  rewrite star_set_step, IH; [by apply (Hk [])|]. intros u t' q ->. by apply (Hk (c :: u)).
Qed.

Lemma star_any_last {A} f w t p caps (k : mstate → option A) x :
  length w < f →
  k (MState (prev_after p w) t caps) = Some x →
  (∀ u t' q, t = u ++ t' → u ≠ [] → k (MState q t' caps) = None) →
  star_go (re_match RAny) f (MState p (w ++ t) caps) k = Some x.
Proof.
  intros Hf Hx Hk. revert p f Hf Hx. induction w as [|c w IH]; intros p f Hf Hx.
  - simpl in Hf. destruct f as [|f]; [lia|]. rewrite prev_after_nil in Hx. cbn [app].
    unfold RAny. destruct t as [|c t]; [by rewrite star_set_nil|]. rewrite star_set_step.
    pose proof (star_any_none f t (Some c) caps k) as Hn. unfold RAny in Hn.
    rewrite Hn; [done|]. intros u t' q ->. by apply (Hk (c :: u)).
  - simpl in Hf. destruct f as [|f]; [lia|]. cbn [app]. unfold RAny in *.
    rewrite star_set_step, IH; [done|lia|]. by rewrite <- (prev_after_cons p) in Hx.
Qed.

Definition factor_text (body mult : jstr) : jstr :=
  js "(" ++ body ++ js " ? " ++ mult ++ js " : 1)".

Lemma no_question_suffix mult u t :
  Forall (λ c, num_cls c = true) mult →
  js " ? " ++ mult ++ js " : 1)" = u ++ t → u ≠ [] → prefixb (js " ? ") t = false.
Proof.
  intros Hm. change (js " ? " ++ mult ++ js " : 1)") with (32%N :: 63%N :: 32%N :: mult ++ js " : 1)").
  intros Ht Hu. destruct u as [|a u]; [done|]. injection Ht as _ Ht.
  destruct u as [|b u]; [simpl in Ht; by rewrite <- Ht|]. injection Ht as _ Ht.
  destruct (prefixb (js " ? ") t) eqn:E; [|done]. apply prefixb_spec in E as [r ->]. exfalso.
  assert (63%N ∈ u ++ js " ? " ++ r) as Hin by (js_eval; set_solver).
  rewrite <- Ht in Hin. revert Hin.
  rewrite elem_of_cons, elem_of_app. intros [?|[H|H]]; [done| |].
  - rewrite Forall_forall in Hm. apply Hm, num_cls_facts in H. naive_solver.
  - revert H. js_eval. rewrite !elem_of_cons, elem_of_nil. intros H. by destruct_or!.
Qed.

Lemma match_factor body mult :
  body ≠ [] → is_numeric mult = true →
  ∃ m, re_find factor_re (factor_text body mult) = Some m ∧ capt m 1 = body ∧ capt m 2 = mult.
Proof.
  intros Hb [Hne Hm]%is_numeric_chars. unfold factor_re. rewrite find_anchored.
  unfold factor_text at 1. rewrite match_seq_lit. cbn [match_seq]. rewrite re_match_group.
  destruct body as [|c body]; [done|]. cbn [app]. unfold RPlus, RAny. rewrite re_match_seq, re_match_set.
  eexists. split; [|split].
  - rewrite re_match_star. apply star_any_last; [cbn [m_rest]; rewrite length_app; js_eval; simpl; lia| |].
    + cbn [m_rest m_prev m_caps]. rewrite app_comm_cons, take_run, re_match_lit.
      change (js " : 1)") with (32%N :: js ": 1)").
      pose proof (match_seq_run 2 num_cls mult 32 (js ": 1)") [] (prev_after (prev_after (Some c) body) (js " ? "))
        (js ": 1)") [(1, c :: body)] (k_end (factor_text (c :: body) mult)) Hne Hm eq_refl) as Hrun.
      cbn [match_seq] in Hrun. etrans; [exact Hrun|].
      pose proof (re_match_lit (32%N :: js ": 1)") (prev_after (prev_after (prev_after (Some c) body) (js " ? ")) mult)
        [] [(2, mult); (1, c :: body)] (k_end (factor_text (c :: body) mult))) as Hlit.
      rewrite app_nil_r in Hlit. etrans; [exact Hlit|]. reflexivity.
    + intros u t q Ht Hu. cbn [m_rest m_prev m_caps]. apply re_match_lit_fail.
      by eapply no_question_suffix.
  - done.
  - done.
Qed.
