(* ===== verification/BillingRoundtrip.v ===== *)
(** * Request rules survive printing and parsing

    What the rule editor prints with [buildRequestRuleExpr] and what
    [tryParseRequestRuleExpr] makes of it, group by group and condition by
    condition; normalization of conditions; taking a combined billing
    expression apart again. *)

From S2P Require Import Prelude JsString JsRegExp JsNumber Json BillingExpr BillingRules.
From Stdlib Require Import NArith ZArith.

(** ** Normalization *)

Definition time_modes : list jstr := [MATCH_EQ; MATCH_GTE; MATCH_LT; MATCH_RANGE].
Definition header_modes : list jstr := [MATCH_EQ; MATCH_CONTAINS; MATCH_EXISTS].
Definition param_modes : list jstr := header_modes ++ [MATCH_GT; MATCH_GTE; MATCH_LT; MATCH_LTE].

(** The conditions that the editor offers: a known time function, a time zone, a
    mode of the option list of the source. *)
Definition cond_normal (c : RequestCondition) : bool :=
  match c with
  | TimeCondition f tz m _ _ _ =>
    bool_decide (f ∈ TIME_FUNCS) && nonempty tz && bool_decide (m ∈ time_modes)
  | ParamHeaderCondition Header _ m _ => bool_decide (m ∈ header_modes)
  | ParamHeaderCondition Param _ m _ => bool_decide (m ∈ param_modes)
  end.

Lemma has_option_spec options mode :
  has_option options mode = true ↔ ∃ m, mode = Some m ∧ m ∈ map opt_value options.
Proof.
  unfold has_option. rewrite existsb_exists. split.
  - intros (o & Ho & Hm). boolify. exists (opt_value o). split; [done|].
    apply list_elem_of_fmap. exists o. split; [done|]. by apply list_elem_of_In.
  - intros (m & -> & (o & -> & Ho)%list_elem_of_fmap). exists o.
    split; [by apply list_elem_of_In|]. by apply bool_decide_eq_true.
Qed.

Lemma time_options : map opt_value (getRequestRuleMatchOptions SOURCE_TIME) = time_modes.
Proof. reflexivity. Qed.
Lemma header_options : map opt_value (getRequestRuleMatchOptions SOURCE_HEADER) = header_modes.
Proof. reflexivity. Qed.
Lemma param_options : map opt_value (getRequestRuleMatchOptions SOURCE_PARAM) = param_modes.
Proof. reflexivity. Qed.

Lemma choose_mode options mode d :
  d ∈ map opt_value options →
  (if has_option options mode then default [] mode else d) ∈ map opt_value options.
Proof.
  intros Hd. destruct (has_option options mode) eqn:E; [|done].
  by apply has_option_spec in E as (m & -> & Hm).
Qed.

Lemma keep_mode options m d :
  m ∈ map opt_value options →
  (if has_option options (Some m) then m else d) = m.
Proof. intros Hm. by rewrite (proj2 (has_option_spec options (Some m))) by eauto. Qed.

Lemma normalizeCondition_cases p :
  normalizeCondition p =
    if bool_decide (pc_source p = Some SOURCE_TIME) then
      TimeCondition (if isTimeFunc (pc_timeFunc p) then default [] (pc_timeFunc p) else js "hour")
        (opt_or (pc_timezone p) (js "Asia/Shanghai"))
        (if has_option (getRequestRuleMatchOptions SOURCE_TIME) (pc_mode p)
         then default [] (pc_mode p) else MATCH_GTE)
        (default [] (pc_value p)) (default [] (pc_rangeStart p)) (default [] (pc_rangeEnd p))
    else if bool_decide (pc_source p = Some SOURCE_HEADER) then
      ParamHeaderCondition Header (opt_or (pc_path p) [])
        (if has_option (getRequestRuleMatchOptions SOURCE_HEADER) (pc_mode p)
         then default [] (pc_mode p) else MATCH_EQ) (default [] (pc_value p))
    else
      ParamHeaderCondition Param (opt_or (pc_path p) [])
        (if has_option (getRequestRuleMatchOptions SOURCE_PARAM) (pc_mode p)
         then default [] (pc_mode p) else MATCH_EQ) (default [] (pc_value p)).
Proof. unfold normalizeCondition. repeat case_bool_decide; reflexivity. Qed.

Lemma normalize_normal p : cond_normal (normalizeCondition p) = true.
Proof.
  rewrite normalizeCondition_cases. case_bool_decide; [|case_bool_decide].
  - unfold cond_normal. rewrite !andb_true_iff, !bool_decide_eq_true. split_and!.
    + destruct (isTimeFunc (pc_timeFunc p)) eqn:E; [|by vm_compute; left].
      unfold isTimeFunc in E. destruct (pc_timeFunc p); [|done]. by boolify.
    + unfold opt_or, str_or. destruct (nonempty (default [] (pc_timezone p))) eqn:E; done.
    + rewrite <- time_options. apply choose_mode. rewrite time_options. unfold time_modes. set_solver.
  - unfold cond_normal. rewrite bool_decide_eq_true, <- header_options. apply choose_mode.
    rewrite header_options. unfold header_modes. set_solver.
  - unfold cond_normal. rewrite bool_decide_eq_true, <- param_options. apply choose_mode.
    rewrite param_options. unfold param_modes, header_modes. set_solver.
Qed.

Lemma normalize_id c : cond_normal c = true → normalizeCondition (partial_of c) = c.
Proof.
  rewrite normalizeCondition_cases. destruct c as [f tz m v rs re|[|] path m v]; cbn [partial_of
    pc_source pc_timeFunc pc_timezone pc_mode pc_value pc_rangeStart pc_rangeEnd pc_path];
    unfold cond_normal; intros H; boolify.
  - rewrite bool_decide_eq_true_2 by done. unfold isTimeFunc.
    rewrite bool_decide_eq_true_2 by done. cbn [default from_option id].
    rewrite keep_mode by (by rewrite time_options). unfold opt_or, str_or. simpl.
    by destruct tz.
  - rewrite !bool_decide_eq_false_2 by done. cbn [default from_option id].
    rewrite keep_mode by (by rewrite param_options). unfold opt_or, str_or. simpl. by destruct path.
  - rewrite bool_decide_eq_false_2, bool_decide_eq_true_2 by done. cbn [default from_option id].
    rewrite keep_mode by (by rewrite header_options). unfold opt_or, str_or. simpl. by destruct path.
Qed.

(** ** The conditions that survive, and those that do not *)

(** Filled-in editor fields: trimmed, with a path, a time zone and a value free
    of the code units the splitting of the parser looks at. *)
Definition cond_ok (c : RequestCondition) : bool :=
  match c with
  | TimeCondition f tz m v rs re =>
    bool_decide (f ∈ TIME_FUNCS) && path_ok tz &&
    (bool_decide (m ∈ [MATCH_EQ; MATCH_GTE; MATCH_LT]) && is_numeric v
       && bool_decide (rs = []) && bool_decide (re = [])
     || bool_decide (m = MATCH_RANGE) && bool_decide (v = []) && is_numeric rs && is_numeric re)
  | ParamHeaderCondition src path m v =>
    path_ok path &&
    (bool_decide (m = MATCH_EXISTS) && bool_decide (v = [])
     || bool_decide (m = MATCH_EQ) && value_ok v
     || bool_decide (src = Header) && bool_decide (m = MATCH_CONTAINS) && value_ok v)
  end.

(** A containment or an order test on a request parameter. *)
Definition cond_guarded (c : RequestCondition) : bool :=
  match c with
  | ParamHeaderCondition Param path m v =>
    path_ok path &&
    (bool_decide (m = MATCH_CONTAINS) && value_ok v
     || bool_decide (m ∈ [MATCH_GT; MATCH_GTE; MATCH_LT; MATCH_LTE]) && is_numeric v)
  | _ => false
  end.

Definition wrap_or (e : jstr) : jstr := if includes (js " || ") e then js "(" ++ e ++ js ")" else e.

Lemma quote_path p : path_ok p = true → quote p = DQ :: p ++ [DQ].
Proof. intros (_ & _ & H & _)%path_ok_facts. by apply quote_plain. Qed.

Lemma fn_text f p : path_ok p = true → f ++ js "(" ++ quote p ++ js ")" = call f p.
Proof.
  intros Hp. rewrite quote_path by done. unfold call. js_eval. cbn [app]. by rewrite <- app_assoc.
Qed.

Lemma safe_app s t : safe s → safe t → safe (s ++ t).
Proof. intros. by apply Forall_app. Qed.

Lemma safe_path p : path_ok p = true → safe p.
Proof. by intros (_ & _ & _ & H & _)%path_ok_facts. Qed.

Lemma safe_numeric s : is_numeric s = true → safe s.
Proof.
  intros [_ H]%is_numeric_chars. eapply Forall_impl; [exact H|]. intros c Hc.
  by apply num_cls_units.
Qed.

Lemma safe_lit s : forallb safe_unit s = true → safe s.
Proof. apply forallb_Forall. Qed.

Lemma safe_literal v : value_ok v = true → safe (buildExprLiteral MATCH_EQ v).
Proof. intros Hv. apply Forall_forall. intros x Hx. by eapply literal_units. Qed.

Lemma safe_quote v : value_ok v = true → safe (quote v).
Proof. intros (_ & _ & Hv)%value_ok_facts. apply Forall_forall. intros x Hx. by eapply quote_units. Qed.

Lemma safe_no_unit s x : safe s → safe_unit x = false → x ∉ s.
Proof. unfold safe. rewrite Forall_forall. intros H Hx Hin. rewrite (H x Hin) in Hx. done. Qed.

Lemma call_no_unit f p x :
  safe f → safe p → safe_unit x = false → x ≠ LPAREN → x ≠ RPAREN → x ∉ call f p.
Proof.
  intros Hf Hp Hx H1 H2. unfold call.
  pose proof (safe_no_unit f x Hf Hx). pose proof (safe_no_unit p x Hp Hx).
  assert (x ≠ DQ) by (intros ->; done).
  change (jq "('") with [LPAREN; DQ]. change (jq "')") with [DQ; RPAREN].
  rewrite !elem_of_app, !elem_of_cons, !elem_of_nil. naive_solver.
Qed.

Lemma call_balanced f p : safe f → safe p → balanced (call f p).
Proof.
  intros Hf Hp. unfold call. apply balanced_app; [by apply balanced_safe|].
  replace (jq "('" ++ p ++ jq "')") with (LPAREN :: (DQ :: p ++ [DQ]) ++ [RPAREN])
    by (cbn [app]; by rewrite <- app_assoc).
  apply balanced_paren, balanced_safe. constructor; [done|]. apply safe_app; [done|by apply safe_lit].
Qed.

Lemma src_name_safe src : safe (src_name src).
Proof. destruct src; by apply safe_lit. Qed.

Lemma time_func_safe f : f ∈ TIME_FUNCS → safe f.
Proof.
  intros Hf. apply safe_lit. revert Hf. apply (forallb_elem_of (forallb safe_unit)). reflexivity.
Qed.

(** A call followed by safe text. *)
Lemma call_piece f p t c d :
  safe f → safe p → safe t → head f = Some c → is_ws c = false →
  last t = Some d → is_ws d = false →
  piece_ok (call f p ++ t) ∧ (124 ∉ call f p ++ t)%N.
Proof.
  intros Hf Hp Ht Hc Hwc Hd Hwd. split; [split_and!|].
  - apply balanced_app; [by apply call_balanced|by apply balanced_safe].
  - rewrite elem_of_app. pose proof (call_no_unit f p 38 Hf Hp). pose proof (safe_no_unit t 38 Ht).
    naive_solver.
  - apply trim_fix. unfold no_edge_ws, call. destruct f as [|c' f]; [done|]. injection Hc as ->.
    cbn [app head]. rewrite Hwc. rewrite app_comm_cons, last_app, Hd, Hwd. done.
  - destruct t; [done|]. unfold call. by destruct f.
  - rewrite elem_of_app. pose proof (call_no_unit f p 124 Hf Hp). pose proof (safe_no_unit t 124 Ht).
    naive_solver.
Qed.

Lemma numeric_last v : is_numeric v = true → ∃ d, last v = Some d ∧ is_ws d = false.
Proof.
  intros [Hne H]%is_numeric_chars. destruct (last v) as [d|] eqn:E; [|by apply last_None in E].
  exists d. split; [done|]. apply last_Some_elem_of in E. rewrite Forall_forall in H.
  by apply H, num_cls_facts in E as [? _].
Qed.

Lemma literal_last v : value_ok v = true → ∃ d, last (buildExprLiteral MATCH_EQ v) = Some d ∧ is_ws d = false.
Proof.
  intros (Ht & _ & _)%value_ok_facts. rewrite build_literal by done.
  unfold is_literal_text, str_eqb.
  destruct (decide (v = js "true")) as [->|]; [by exists 101%N|].
  destruct (decide (v = js "false")) as [->|]; [by exists 101%N|].
  rewrite !bool_decide_eq_false_2 by done. cbn [orb].
  destruct (is_numeric v) eqn:E; [by apply numeric_last|].
  exists DQ. split; [|done]. unfold quote. by rewrite app_comm_cons, last_snoc.
Qed.

Lemma no_bar_no_or e : (124 ∉ e)%N → wrap_or e = e.
Proof.
  intros H. unfold wrap_or. destruct (includes _ e) eqn:E; [|done].
  apply includes_spec in E as (a & b & ->). exfalso. apply H. js_eval. set_solver.
Qed.

(** ** One condition, as the parts that the parser sees *)

(** [text] is printed as some [&&] parts; parsing them gives the condition [c]
    back, or rejects the group. *)
Definition cond_spec (ok : bool) (c : RequestCondition) (text : jstr) : Prop :=
  ∃ ps, ps ≠ [] ∧ Forall piece_ok ps ∧ text = str_join (js " && ") ps ∧
    ∀ rest, parse_conditions (ps ++ rest)
      = if ok then ol ← parse_conditions rest; Ret (option_map (cons c) ol) else Ret None.

Lemma spec_one (ok : bool) c p :
  piece_ok p → tryParseRequestCondition p = Ret (if ok then Some c else None) → cond_spec ok c p.
Proof.
  intros Hp Hparse. exists [p]. split_and!; [done|by constructor|done|]. intros rest.
  cbn [app parse_conditions]. rewrite (proj1 (proj2 (proj2 Hp))), Hparse. by destruct ok.
Qed.

Lemma spec_two c c' p q :
  piece_ok p → piece_ok q → tryParseRequestCondition p = Ret (Some c') →
  tryParseRequestCondition q = Ret None → cond_spec false c (p ++ js " && " ++ q).
Proof.
  intros Hp Hq H1 H2. exists [p; q]. split_and!; [done|by rewrite !Forall_cons, Forall_nil|done|]. intros rest.
  cbn [app parse_conditions]. rewrite (proj1 (proj2 (proj2 Hp))), (proj1 (proj2 (proj2 Hq))), H1, H2.
  done.
Qed.

(** Printed both alone and beside other conditions. *)
Definition cond_shape (ok : bool) (c : RequestCondition) (text : jstr) : Prop :=
  cond_spec ok c text ∧ cond_spec ok c (wrap_or text).

Lemma shape_plain (ok : bool) c p :
  piece_ok p ∧ (124 ∉ p)%N → tryParseRequestCondition p = Ret (if ok then Some c else None) →
  cond_shape ok c p.
Proof. intros [Hp Hb] H. split; [|rewrite no_bar_no_or by done]; by apply spec_one. Qed.

Lemma time_head f : f ∈ TIME_FUNCS → ∃ c, head f = Some c ∧ is_ws c = false.
Proof.
  intros (c & t & E & _ & H)%(time_func_head f []). rewrite app_nil_r in E. subst. by exists c.
Qed.

Lemma cmp_piece f p op v :
  safe f → safe p → safe op → is_numeric v = true → (∃ c, head f = Some c ∧ is_ws c = false) →
  piece_ok (call f p ++ js " " ++ op ++ js " " ++ v) ∧ (124 ∉ call f p ++ js " " ++ op ++ js " " ++ v)%N.
Proof.
  intros Hf Hp Ho Hv (c & Hc & Hw). destruct (numeric_last v Hv) as (d & Hd & Hwd).
  eapply call_piece; try done.
  - repeat apply safe_app; [by apply safe_lit|done|by apply safe_lit|by apply safe_numeric].
  - by rewrite !last_app, Hd.
Qed.

Lemma parse_time c expr : tryParseTimeCondition expr = Some c → tryParseRequestCondition expr = Ret (Some c).
Proof. unfold tryParseRequestCondition. by intros ->. Qed.

Lemma time_cmp_shape f tz m v :
  f ∈ TIME_FUNCS → path_ok tz = true → m ∈ [MATCH_EQ; MATCH_GTE; MATCH_LT] → is_numeric v = true →
  cond_shape true (TimeCondition f tz m v [] []) (build_time f tz m v [] []).
Proof.
  intros Hf Htz Hm Hv. unfold build_time.
  rewrite (numeric_trim v), Hv by done. cbn [negb].
  assert (str_eqb m MATCH_RANGE = false ∧ time_op m ∈ [js "=="; js ">="; js "<"]
    ∧ time_cmp_mode (time_op m) = m ∧ safe (time_op m)) as (-> & Hop & Hmode & Hs).
  { rewrite !elem_of_cons, elem_of_nil in Hm. destruct_or!; subst; try done;
      (split_and!; [done|vm_compute; set_solver|done|by apply safe_lit]). }
  rewrite fn_text by done.
  apply shape_plain.
  - apply cmp_piece; auto using time_func_safe, safe_path, time_head.
  - apply parse_time. rewrite parse_time_cmp by done. by rewrite Hmode.
Qed.

Lemma range_piece f tz s e :
  f ∈ TIME_FUNCS → path_ok tz = true → is_numeric s = true → is_numeric e = true →
  balanced (range_text f tz s e) ∧ (38 ∉ range_text f tz s e)%N ∧ no_edge_ws (range_text f tz s e) = true
  ∧ includes (js " || ") (range_text f tz s e) = true.
Proof.
  intros Hf Htz Hs He. unfold range_text.
  pose proof (time_func_safe f Hf). pose proof (safe_path tz Htz).
  pose proof (safe_numeric s Hs). pose proof (safe_numeric e He). split_and!.
  - repeat first [by apply call_balanced|by apply balanced_safe|reflexivity|apply balanced_app].
  - rewrite !elem_of_app. pose proof (call_no_unit f tz 38). pose proof (safe_no_unit s 38).
    pose proof (safe_no_unit e 38). js_eval. rewrite !elem_of_cons, !elem_of_nil.
    intros Hin. destruct_or!; done || naive_solver.
  - destruct (time_head f Hf) as (c & Hc & Hw). destruct (numeric_last e He) as (d & Hd & Hwd).
    unfold no_edge_ws, call. rewrite !last_app, Hd, Hwd. destruct f; [done|]. simplify_eq/=.
    by rewrite Hw.
  - apply includes_spec. exists (call f tz ++ js " >= " ++ s), (call f tz ++ js " < " ++ e).
    by rewrite <- !app_assoc.
Qed.

Lemma time_range_shape f tz s e :
  f ∈ TIME_FUNCS → path_ok tz = true → is_numeric s = true → is_numeric e = true →
  cond_shape true (TimeCondition f tz MATCH_RANGE [] s e) (build_time f tz MATCH_RANGE [] s e).
Proof.
  intros Hf Htz Hs He. unfold build_time.
  change (str_eqb MATCH_RANGE MATCH_RANGE) with true. cbv iota.
  rewrite (numeric_trim s), (numeric_trim e), Hs, He by done. cbn [negb orb].
  rewrite fn_text by done.
  fold (range_text f tz s e).
  destruct (range_piece f tz s e) as (Hb & Ha & Hw & Hi); [done..|].
  split; [|unfold wrap_or; rewrite Hi]; apply spec_one.
  - split_and!; [done|done|by apply trim_fix|]. intros E. by rewrite E in Hi.
  - by apply parse_time, parse_time_range.
  - change (js "(" ++ range_text f tz s e ++ js ")") with (LPAREN :: range_text f tz s e ++ [RPAREN]).
    split_and!; [by apply balanced_paren| |by apply trim_wrap|done].
    rewrite elem_of_cons, elem_of_app, list_elem_of_singleton. naive_solver.
  - by apply parse_time, parse_time_range_paren.
Qed.

Definition src_text (src : PHSource) (path : jstr) : jstr := call (src_name src) path.

(** [build_param_header] on a path that the editor accepts. *)
Lemma build_param_header_text src path m v :
  path_ok path = true →
  build_param_header src path m v =
    if str_eqb m MATCH_EXISTS then
      src_text src path ++ match src with Header => jq " != ''" | Param => js " != nil" end
    else if str_eqb m MATCH_CONTAINS then
      match src with
      | Header => js "has(" ++ src_text src path ++ js ", " ++ buildExprLiteral m v ++ js ")"
      | Param => (src_text src path ++ js " != nil") ++ js " && "
          ++ js "has(" ++ src_text src path ++ js ", " ++ buildExprLiteral m v ++ js ")"
      end
    else if bool_decide (m ∈ [MATCH_GT; MATCH_GTE; MATCH_LT; MATCH_LTE]) then
      if negb (is_numeric (trim v)) then []
      else (src_text src path ++ js " != nil") ++ js " && "
          ++ src_text src path ++ js " " ++ param_op m ++ js " " ++ trim v
    else src_text src path ++ js " == " ++ buildExprLiteral m v.
Proof.
  intros Hp. pose proof (path_ok_facts path Hp) as (Hne & Ht & _).
  unfold build_param_header, src_text. rewrite Ht.
  destruct path as [|c path]; [done|]. cbn [nonempty negb].
  assert (∀ src : PHSource, match src with
     | Param => js "param(" ++ quote (c :: path) ++ js ")"
     | Header => js "header(" ++ quote (c :: path) ++ js ")" end = call (src_name src) (c :: path)) as ->.
  { intros []; rewrite quote_path by done; unfold call, src_name; js_eval; cbn [app];
      by rewrite <- !app_assoc. }
  destruct src; cbn [src_name]; repeat case_match; rewrite <- ?app_assoc; done.
Qed.

Lemma src_head src : ∃ c, head (src_name src) = Some c ∧ is_ws c = false.
Proof. destruct src; eexists; split; reflexivity. Qed.

Lemma src_piece src path t d :
  path_ok path = true → safe t → last t = Some d → is_ws d = false →
  piece_ok (src_text src path ++ t) ∧ (124 ∉ src_text src path ++ t)%N.
Proof.
  intros Hp Ht Hd Hw. destruct (src_head src) as (c & Hc & Hwc).
  eapply call_piece; eauto using src_name_safe, safe_path.
Qed.

Lemma exists_shape src path :
  path_ok path = true →
  cond_shape true (ParamHeaderCondition src path MATCH_EXISTS []) (build_param_header src path MATCH_EXISTS []).
Proof.
  intros Hp. rewrite build_param_header_text by done.
  change (str_eqb MATCH_EXISTS MATCH_EXISTS) with true. cbv iota. apply shape_plain.
  - destruct src; eapply src_piece; try done; by apply safe_lit.
  - destruct src; [by apply parse_param_exists|by apply parse_header_exists].
Qed.

Lemma eq_shape src path v :
  path_ok path = true → value_ok v = true →
  cond_shape true (ParamHeaderCondition src path MATCH_EQ v) (build_param_header src path MATCH_EQ v).
Proof.
  intros Hp Hv. rewrite build_param_header_text by done.
  change (str_eqb MATCH_EQ MATCH_EXISTS) with false. change (str_eqb MATCH_EQ MATCH_CONTAINS) with false.
  rewrite bool_decide_eq_false_2 by (apply (bool_decide_eq_false_1 _); reflexivity). cbv iota.
  destruct (literal_last v Hv) as (d & Hd & Hw). apply shape_plain.
  - eapply (src_piece _ _ _ d); try done.
    + apply safe_app; [by apply safe_lit|by apply safe_literal].
    + by rewrite last_app, Hd.
  - by apply parse_eq.
Qed.

Lemma has_piece src path v :
  path_ok path = true → value_ok v = true →
  piece_ok (js "has(" ++ src_text src path ++ js ", " ++ quote v ++ js ")")
  ∧ (124 ∉ js "has(" ++ src_text src path ++ js ", " ++ quote v ++ js ")")%N.
Proof.
  intros Hp Hv. pose proof (safe_quote v Hv) as Hq. pose proof (safe_path path Hp) as Hsp.
  pose proof (src_name_safe src) as Hss. unfold src_text.
  assert (∀ x, safe_unit x = false → x ≠ LPAREN → x ≠ RPAREN →
    x ∉ js "has(" ++ call (src_name src) path ++ js ", " ++ quote v ++ js ")") as Hno.
  { intros x Hx H1 H2. rewrite !elem_of_app. pose proof (call_no_unit _ _ x Hss Hsp Hx H1 H2).
    pose proof (safe_no_unit _ x Hq Hx). js_eval. rewrite !elem_of_cons, !elem_of_nil.
    intros Hin. destruct_or!; subst; done. }
  split; [|by apply Hno]. split_and!; [|by apply Hno| |done].
  - change (js "has(") with (js "has" ++ [LPAREN]). rewrite <- app_assoc.
    apply balanced_app; [reflexivity|]. change (js ")") with [RPAREN].
    replace ([LPAREN] ++ call (src_name src) path ++ js ", " ++ quote v ++ [RPAREN])
      with (LPAREN :: (call (src_name src) path ++ js ", " ++ quote v) ++ [RPAREN])
      by (cbn [app]; by rewrite <- !app_assoc).
    apply balanced_paren, balanced_app; [by apply call_balanced|].
    apply balanced_app; [reflexivity|by apply balanced_safe].
  - apply trim_fix. unfold no_edge_ws. rewrite !last_app. reflexivity.
Qed.

Lemma contains_literal v : value_ok v = true → buildExprLiteral MATCH_CONTAINS v = quote v.
Proof. intros (Ht & _)%value_ok_facts. unfold buildExprLiteral. by rewrite Ht. Qed.

Lemma header_contains_shape path v :
  path_ok path = true → value_ok v = true →
  cond_shape true (ParamHeaderCondition Header path MATCH_CONTAINS v)
    (build_param_header Header path MATCH_CONTAINS v).
Proof.
  intros Hp Hv. rewrite build_param_header_text, contains_literal by done.
  change (str_eqb MATCH_CONTAINS MATCH_EXISTS) with false.
  change (str_eqb MATCH_CONTAINS MATCH_CONTAINS) with true. cbv iota.
  apply shape_plain; [by apply has_piece|by apply parse_header_contains].
Qed.

(** The guard that is printed before a test on a parameter. *)
Lemma guard_piece path :
  path_ok path = true →
  (piece_ok (src_text Param path ++ js " != nil") ∧ (124 ∉ src_text Param path ++ js " != nil")%N)
  ∧ tryParseRequestCondition (src_text Param path ++ js " != nil")
    = Ret (Some (ParamHeaderCondition Param path MATCH_EXISTS [])).
Proof.
  intros Hp. split; [|by apply parse_param_exists].
  eapply src_piece; try done. by apply safe_lit.
Qed.

Lemma shape_guarded c path q :
  path_ok path = true → piece_ok q ∧ (124 ∉ q)%N → tryParseRequestCondition q = Ret None →
  cond_shape false c ((src_text Param path ++ js " != nil") ++ js " && " ++ q).
Proof.
  intros Hp [Hq Hb] Hn. destruct (guard_piece path Hp) as [[Hg Hgb] Hgp].
  assert (cond_spec false c ((src_text Param path ++ js " != nil") ++ js " && " ++ q))
    by (by eapply spec_two).
  split; [done|]. rewrite no_bar_no_or; [done|]. intros [?|[H'|?]%elem_of_app]%elem_of_app; [done| |done].
  revert H'. js_eval. rewrite !elem_of_cons, elem_of_nil.
  intros H'. by destruct_or!.
Qed.

Lemma param_contains_shape path v :
  path_ok path = true → value_ok v = true →
  cond_shape false (ParamHeaderCondition Param path MATCH_CONTAINS v)
    (build_param_header Param path MATCH_CONTAINS v).
Proof.
  intros Hp Hv. rewrite build_param_header_text, contains_literal by done.
  change (str_eqb MATCH_CONTAINS MATCH_EXISTS) with false.
  change (str_eqb MATCH_CONTAINS MATCH_CONTAINS) with true. cbv iota.
  apply shape_guarded; [done|by apply has_piece|by apply parse_has_param].
Qed.

Lemma param_cmp_shape path m v :
  path_ok path = true → m ∈ [MATCH_GT; MATCH_GTE; MATCH_LT; MATCH_LTE] → is_numeric v = true →
  cond_shape false (ParamHeaderCondition Param path m v) (build_param_header Param path m v).
Proof.
  intros Hp Hm Hv. rewrite build_param_header_text, (numeric_trim v), Hv by done.
  assert (str_eqb m MATCH_EXISTS = false ∧ str_eqb m MATCH_CONTAINS = false
    ∧ param_op m ∈ [js ">"; js ">="; js "<"; js "<="] ∧ safe (param_op m)) as (-> & -> & Hop & Hs).
  { rewrite !elem_of_cons, elem_of_nil in Hm. destruct_or!; subst; try done;
      (split_and!; [reflexivity|reflexivity|vm_compute; set_solver|by apply safe_lit]). }
  rewrite bool_decide_eq_true_2 by done. cbv iota. apply shape_guarded; [done| |].
  - apply cmp_piece; auto using src_name_safe, safe_path, src_head.
  - by apply parse_param_cmp.
Qed.

Lemma ok_normal c : cond_ok c || cond_guarded c = true → cond_normal c = true.
Proof.
  intros Hc. apply orb_true_iff in Hc. destruct c as [f tz m v rs re|src path m v].
  - destruct Hc as [Hc|]; [|done]. unfold cond_ok in Hc. boolify.
    pose proof (path_ok_facts tz) as Htz. unfold cond_normal.
    rewrite !andb_true_iff, !bool_decide_eq_true. split_and!; [done|destruct tz; naive_solver|].
    apply orb_true_iff in H0. unfold time_modes.
    destruct H0; boolify; set_solver.
  - unfold cond_ok, cond_guarded, cond_normal, param_modes, header_modes in *.
    destruct src; rewrite bool_decide_eq_true; destruct Hc as [Hc|Hc]; try done; boolify;
      repeat match goal with H : _ || _ = true |- _ => apply orb_true_iff in H as [H|H] end;
      boolify; subst; set_solver.
Qed.

(** Each filled-in condition, as the parser sees it. *)
Lemma build_shape c :
  cond_ok c || cond_guarded c = true → cond_shape (cond_ok c) c (buildRequestConditionExpr c).
Proof.
  intros Hc. unfold buildRequestConditionExpr. rewrite normalize_id by (by apply ok_normal).
  destruct (cond_ok c) eqn:Hok.
  - destruct c as [f tz m v rs re|src path m v]; unfold cond_ok in Hok; boolify;
      repeat match goal with H : _ || _ = true |- _ => apply orb_true_iff in H as [H|H] end;
      boolify; subst;
      auto using time_cmp_shape, time_range_shape, exists_shape, eq_shape, header_contains_shape.
  - cbn [orb] in Hc. destruct c as [|[] path m v]; try done. unfold cond_guarded in Hc. boolify.
    match goal with H : _ || _ = true |- _ => apply orb_true_iff in H as [H|H] end;
      boolify; subst; auto using param_contains_shape, param_cmp_shape.
Qed.

(** ** Groups *)
Lemma join_nonnil sep l : l ≠ [] → Forall (λ w, w ≠ []) l → str_join sep l ≠ [].
Proof.
  intros Hl H. destruct H as [|w l Hw H]; [done|]. destruct l; [done|].
  rewrite join_cons by done. by destruct w.
Qed.

Lemma join_app sep l1 l2 :
  l1 ≠ [] → l2 ≠ [] → str_join sep (l1 ++ l2) = str_join sep l1 ++ sep ++ str_join sep l2.
Proof.
  intros H1 H2. induction l1 as [|w l1 IH]; [done|]. destruct l1 as [|w' l1].
  - cbn [app]. by rewrite join_cons.
  - change ((w :: w' :: l1) ++ l2) with (w :: (w' :: l1) ++ l2).
    rewrite !join_cons, IH by done. by rewrite <- !app_assoc.
Qed.

Lemma balanced_join l : Forall piece_ok l → balanced (str_join (js " && ") l).
Proof.
  induction 1 as [|p l Hp H IH]; [reflexivity|]. destruct l as [|q l]; [apply Hp|].
  rewrite join_cons by done. apply balanced_app; [apply Hp|].
  apply balanced_app; [reflexivity|done].
Qed.

(** A list of printed conditions is cut into the parts of all of them. *)
Lemma specs_join (f : RequestCondition → jstr) cs :
  cs ≠ [] → Forall (λ c, cond_spec (cond_ok c) c (f c)) cs →
  ∃ ps, ps ≠ [] ∧ Forall piece_ok ps ∧ str_join (js " && ") (map f cs) = str_join (js " && ") ps ∧
    parse_conditions ps = Ret (if forallb cond_ok cs then Some cs else None).
Proof.
  intros Hne H. induction H as [|c cs (ps & Hps & Hok & Htext & Hparse) H IH]; [done|]. clear Hne.
  destruct cs as [|c' cs].
  - exists ps. split_and!; [done|done|done|]. specialize (Hparse []). rewrite app_nil_r in Hparse.
    rewrite Hparse. cbn. by destruct (cond_ok c).
  - destruct IH as (ps' & Hps' & Hok' & Htext' & Hparse'); [done|]. exists (ps ++ ps'). split_and!.
    + by destruct ps.
    + by apply Forall_app.
    + rewrite join_app by done. cbn [map] in *. rewrite join_cons, Htext, Htext' by done. done.
    + rewrite Hparse, Hparse'. cbn [forallb]. destruct (cond_ok c); [|done].
      cbn [mbind exn_bind andb]. by destruct (_ && _).
Qed.

(** Groups whose fields are filled in. *)
Definition group_filled (g : RequestRuleGroup) : bool :=
  is_numeric (multiplier g) && negb (bool_decide (conditions g = []))
  && forallb (λ c, cond_ok c || cond_guarded c) (conditions g).

Lemma spec_nonnil ok c text : cond_spec ok c text → text ≠ [].
Proof.
  intros (ps & Hps & Hok & -> & _). apply join_nonnil; [done|]. eapply Forall_impl; [exact Hok|].
  by intros ? (_ & _ & _ & ?).
Qed.

(** The body of a printed group: its parts, and what parsing them gives. *)
Lemma build_group g :
  group_filled g = true →
  ∃ ps, ps ≠ [] ∧ Forall piece_ok ps ∧
    buildRuleGroupFactor g = factor_text (str_join (js " && ") ps) (multiplier g) ∧
    parse_conditions ps = Ret (if forallb cond_ok (conditions g) then Some (conditions g) else None).
Proof.
  destruct g as [cs mult]. unfold group_filled, buildRuleGroupFactor. cbn [multiplier conditions].
  intros Hg. boolify. rewrite (numeric_trim mult), H by done. cbn [negb].
  assert (Forall (λ c, cond_shape (cond_ok c) c (buildRequestConditionExpr c)) cs) as Hs.
  { apply Forall_forall. intros c Hc. apply build_shape. exact (forallb_elem_of _ cs c H0 Hc). }
  rewrite filter_nonempty_id.
  2: { apply Forall_map. eapply Forall_impl; [exact Hs|]. intros c [Hc _]. by eapply spec_nonnil. }
  destruct cs as [|c [|c' cs]]; [done| |].
  - cbn [map]. destruct (specs_join buildRequestConditionExpr [c]) as (ps & ? & ? & Ht & ?); [done| |].
    { eapply Forall_impl; [exact Hs|]. by intros ? []. }
    exists ps. split_and!; [done|done| |done]. unfold factor_text. by rewrite <- Ht.
  - cbn [map]. destruct (specs_join (λ c, wrap_or (buildRequestConditionExpr c)) (c :: c' :: cs))
      as (ps & ? & ? & Ht & ?); [done| |].
    { eapply Forall_impl; [exact Hs|]. by intros ? []. }
    exists ps. split_and!; [done|done| |done]. unfold factor_text. rewrite <- Ht.
    cbn [map]. by rewrite map_map.
Qed.

Lemma balanced_factor body mult : balanced body → is_numeric mult = true → factor_ok (factor_text body mult).
Proof.
  intros Hb Hm. exists (body ++ js " ? " ++ mult ++ js " : 1"). split.
  - unfold factor_text. change (js " : 1)") with (js " : 1" ++ [RPAREN]).
    change (js "(") with [LPAREN]. cbn [app]. by rewrite <- !app_assoc.
  - repeat apply balanced_app; [done|reflexivity|by apply balanced_safe, safe_numeric|reflexivity].
Qed.

(** A filled-in group prints as one factor, which parses back or is rejected. *)
Lemma parse_built_group g :
  group_filled g = true →
  factor_ok (buildRuleGroupFactor g) ∧
  tryParseRuleGroupFactor (buildRuleGroupFactor g)
  = Ret (if forallb cond_ok (conditions g) then Some g else None).
Proof.
  intros Hg. destruct (build_group g Hg) as (ps & Hps & Hok & Htext & Hparse).
  unfold group_filled in Hg. boolify. rewrite Htext. split.
  - by apply balanced_factor; [apply balanced_join|].
  - destruct (match_factor (str_join (js " && ") ps) (multiplier g)) as (m & Hm & Hc1 & Hc2).
    + apply join_nonnil; [done|]. eapply Forall_impl; [exact Hok|]. by intros ? (_ & _ & _ & ?).
    + done.
    + unfold tryParseRuleGroupFactor. rewrite Hm, Hc1, Hc2, split_and_join, Hparse by done.
      cbn [mbind exn_bind]. destruct (forallb cond_ok _); [|done].
      destruct g as [[|c cs] mult]; [|done]. by cbn [conditions] in *.
Qed.

Lemma factor_nonnil f : factor_ok f → f ≠ [].
Proof. by intros (b & -> & _). Qed.

Lemma factor_trim f : factor_ok f → trim f = f.
Proof. intros (b & -> & _). by apply trim_wrap. Qed.

Lemma last_join sep l x : str_join sep (l ++ [x]) = (if decide (l = []) then [] else str_join sep l ++ sep) ++ x.
Proof. case_decide; [by subst|]. rewrite join_app by done. by rewrite <- app_assoc. Qed.

Lemma factors_trim fs : Forall factor_ok fs → trim (str_join (js " * ") fs) = str_join (js " * ") fs.
Proof.
  intros H. apply trim_fix. unfold no_edge_ws.
  destruct (decide (fs = [])) as [->|Hne]; [reflexivity|].
  apply andb_true_iff. split.
  - destruct H as [|f fs (b & -> & _) H]; [done|]. destruct fs; [done|]. by rewrite join_cons.
  - destruct (exists_last Hne) as (l & x & ->). rewrite last_join.
    apply Forall_app in H as [_ Hx]. rewrite Forall_singleton in Hx. destruct Hx as (b & -> & _).
    by rewrite last_app, app_comm_cons, last_snoc.
Qed.

Lemma parse_built_groups gs :
  Forall (λ g, group_filled g = true) gs →
  parse_factors (map buildRuleGroupFactor gs)
  = Ret (if forallb (λ g, forallb cond_ok (conditions g)) gs then Some gs else None).
Proof.
  induction 1 as [|g gs Hg H IH]; [done|]. cbn [map parse_factors forallb].
  rewrite (proj2 (parse_built_group g Hg)). cbn [mbind exn_bind].
  destruct (forallb cond_ok _); [|done]. rewrite IH. cbn [andb mbind exn_bind].
  by destruct (forallb _ _).
Qed.

Lemma built_factors_ok gs :
  Forall (λ g, group_filled g = true) gs → Forall factor_ok (map buildRuleGroupFactor gs).
Proof.
  intros H. apply Forall_map. eapply Forall_impl; [exact H|]. intros g Hg.
  by apply parse_built_group.
Qed.

Lemma build_rules gs :
  Forall (λ g, group_filled g = true) gs →
  buildRequestRuleExpr gs = str_join (js " * ") (map buildRuleGroupFactor gs).
Proof.
  intros H. unfold buildRequestRuleExpr. rewrite filter_nonempty_id; [done|].
  eapply Forall_impl; [by apply built_factors_ok|]. apply factor_nonnil.
Qed.

Lemma parse_rules_back gs :
  Forall (λ g, group_filled g = true) gs →
  tryParseRequestRuleExpr (buildRequestRuleExpr gs)
  = Ret (if forallb (λ g, forallb cond_ok (conditions g)) gs then Some gs else None).
Proof.
  intros H. pose proof (built_factors_ok gs H) as Hf. rewrite build_rules by done.
  unfold tryParseRequestRuleExpr. rewrite factors_trim by done.
  destruct gs as [|g gs]; [done|].
  destruct (nonempty _) eqn:E.
  - cbn [negb]. rewrite split_mul_join by done. by apply parse_built_groups.
  - exfalso. destruct (str_join _ _) eqn:Ej in E; [|done].
    revert Ej. apply join_nonnil; [done|]. eapply Forall_impl; [exact Hf|]. apply factor_nonnil.
Qed.

(** C3: Printing the rule groups of the editor and parsing the text gives the
    same groups back, or rejects the text.  Every group is assumed to have a
    numeric multiplier and at least one condition, and every condition to be of
    one of two kinds, with the fields of its kind filled in and the others empty:
    a path or time zone that is not empty, trimmed, and free of quotes,
    backslashes, control characters, surrogates, the characters ( ) & | and the
    two Unicode line separators; a numeric value for a
    test of a time function or an order test; a trimmed value free of ( ) & | and
    of the line separators for an equality or a containment.  When all conditions
    are of the first kind ([cond_ok]: a time condition, or a test of existence,
    equality, or of containment in a header) the same groups are read back; when
    one is of the second kind ([cond_guarded]: a containment or an order test on
    a request parameter) the parser rejects the text.  In no case it throws. *)
Theorem request_rules_roundtrip gs :
  Forall (λ g, group_filled g = true) gs →
  tryParseRequestRuleExpr (buildRequestRuleExpr gs)
  = Ret (if forallb (λ g, forallb cond_ok (conditions g)) gs then Some gs else None).
Proof. apply parse_rules_back. Qed.

Definition demo_groups : list RequestRuleGroup :=
  [Group [TimeCondition (js "hour") (js "Asia/Shanghai") MATCH_RANGE [] (js "21") (js "6");
          ParamHeaderCondition Header (js "anthropic-beta") MATCH_CONTAINS (js "fast-mode")] (js "0.5");
   Group [ParamHeaderCondition Param (js "service_tier") MATCH_EQ (js "fast")] (js "2")].

Definition demo_guarded : list RequestRuleGroup :=
  [Group [ParamHeaderCondition Param (js "n") MATCH_GT (js "4")] (js "2")].

Lemma request_rules_roundtrip_witness :
  tryParseRequestRuleExpr (buildRequestRuleExpr demo_groups) = Ret (Some demo_groups) ∧
  tryParseRequestRuleExpr (buildRequestRuleExpr demo_guarded) = Ret None.
Proof.
  split.
  - apply (request_rules_roundtrip demo_groups). repeat constructor.
  - apply (request_rules_roundtrip demo_guarded). repeat constructor.
Defined.

(** Normalization always yields a condition the editor offers (a known time
    function, a time zone, a mode of the option list of the source), whatever
    fields are missing or unknown, and normalizing again changes nothing. *)
Theorem normalize_sound p :
  cond_normal (normalizeCondition p) = true ∧
  normalizeCondition (partial_of (normalizeCondition p)) = normalizeCondition p.
Proof. split; [apply normalize_normal|apply normalize_id, normalize_normal]. Qed.

(** ** Outer parentheses *)
Lemma full_parens_ends e :
  hasFullOuterParens e = true → ∃ b, e = LPAREN :: b ++ [RPAREN].
Proof.
  unfold hasFullOuterParens, starts_with, ends_with. intros H.
  destruct (prefixb [LPAREN] e) eqn:E1; [|done]. apply prefixb_spec in E1 as [t ->].
  cbn [negb orb] in H. destruct (prefixb _ _) eqn:E2 in H; [|done].
  apply prefixb_spec in E2 as [r E2]. apply (f_equal reverse) in E2. rewrite reverse_involutive in E2.
  rewrite reverse_app, reverse_involutive in E2. destruct (reverse r) as [|c b]; [done|].
  injection E2 as <- ->. by exists b.
Qed.

Lemma slice_inner_wrap b c d : slice_inner (c :: b ++ [d]) = b.
Proof.
  unfold slice_inner. change (drop 1 (c :: b ++ [d])) with (b ++ [d]).
  replace (length (c :: b ++ [d]) - 2) with (length b) by (cbn [length]; rewrite length_app; simpl; lia).
  apply take_app_length.
Qed.

Lemma trim_start_length s : length (trim_start s) ≤ length s.
Proof. induction s as [|c s IH]; [done|]. cbn. case_match; cbn; lia. Qed.

Lemma trim_length s : length (trim s) ≤ length s.
Proof.
  unfold trim, trim_end. rewrite length_reverse. etrans; [apply trim_start_length|].
  rewrite length_reverse. apply trim_start_length.
Qed.

Lemma unwrap_go_done f e : length e ≤ f → hasFullOuterParens (unwrap_go f e) = false.
Proof.
  revert e; induction f as [|f IH]; intros e Hf; cbn [unwrap_go].
  - by destruct e; [|simpl in Hf; lia].
  - destruct (hasFullOuterParens e) eqn:E; [|done]. apply full_parens_ends in E as [b ->].
    apply IH. rewrite slice_inner_wrap. cbn [length] in Hf. rewrite length_app in Hf.
    pose proof (trim_length b). simpl in Hf. lia.
Qed.

Lemma unwrap_go_trimmed f e : trim e = e → trim (unwrap_go f e) = unwrap_go f e.
Proof.
  revert e; induction f as [|f IH]; intros e He; cbn [unwrap_go]; [done|].
  case_match; [|done]. apply IH, trim_idemp.
Qed.

(** Stripping outer parentheses terminates with an expression that has none
    left (the fuel of the loop, the length of the text, is always enough) and
    that is trimmed; so a second call changes nothing. *)
Theorem unwrap_complete e :
  hasFullOuterParens (unwrapOuterParens e) = false ∧
  trim (unwrapOuterParens e) = unwrapOuterParens e ∧
  unwrapOuterParens (unwrapOuterParens e) = unwrapOuterParens e.
Proof.
  assert (trim (unwrapOuterParens e) = unwrapOuterParens e) as Ht by apply unwrap_go_trimmed, trim_idemp.
  assert (hasFullOuterParens (unwrapOuterParens e) = false) as Hf by (by apply unwrap_go_done).
  split_and!; [done|done|]. unfold unwrapOuterParens at 1. rewrite Ht. cbv zeta.
  destruct (length _); cbn [unwrap_go]; [done|]. by rewrite Hf.
Qed.

Lemma full_parens_deep s rest k k' :
  bal s k = Some k' →
  full_parens_go (s ++ rest) (1 + Z.of_nat k) = full_parens_go rest (1 + Z.of_nat k').
Proof.
  revert k. induction s as [|c s IH]; intros k; cbn [bal app full_parens_go]; [by intros [= ->]|].
  intros H. unfold depth_step. destruct (c =? LPAREN)%N eqn:E1; [|destruct (c =? RPAREN)%N eqn:E2].
  - rewrite (proj2 (Z.eqb_neq _ 0)) by lia. cbn [andb]. rewrite <- (IH (S k)) by done. f_equal. lia.
  - destruct k as [|k]; [done|]. rewrite (proj2 (Z.eqb_neq _ 0)) by lia. cbn [andb].
    rewrite <- (IH k) by done. f_equal. lia.
  - rewrite (proj2 (Z.eqb_neq _ 0)) by lia. by apply IH.
Qed.

Lemma full_parens_wrap b : balanced b → hasFullOuterParens (LPAREN :: b ++ [RPAREN]) = true.
Proof.
  intros Hb. unfold hasFullOuterParens, starts_with, ends_with.
  rewrite app_comm_cons, reverse_app. cbn [app reverse rev_append prefixb negb orb].
  change (full_parens_go (b ++ [RPAREN]) (1 + Z.of_nat 0) = true).
  by rewrite (full_parens_deep b _ 0 0).
Qed.

Lemma unwrap_wrap b :
  balanced b → trim b = b → hasFullOuterParens b = false →
  unwrapOuterParens (LPAREN :: b ++ [RPAREN]) = b.
Proof.
  intros Hb Ht Hf. unfold unwrapOuterParens. rewrite trim_wrap by done. cbn [length unwrap_go].
  rewrite full_parens_wrap, slice_inner_wrap, Ht by done.
  destruct (length _); cbn [unwrap_go]; [done|]. by rewrite Hf.
Qed.

(** ** Combining and splitting *)
Lemma parse_one_factor f :
  factor_ok f → tryParseRequestRuleExpr f = parse_factors [f].
Proof.
  intros Hf. unfold tryParseRequestRuleExpr. rewrite factor_trim by done.
  pose proof (split_mul_join [f]) as Hs. cbn [str_join] in Hs.
  rewrite Hs by (by constructor || by repeat constructor).
  destruct Hf as (b & -> & _). done.
Qed.

Lemma classify_group g :
  group_filled g = true →
  tryParseRequestRuleExpr (buildRuleGroupFactor g)
  = Ret (if forallb cond_ok (conditions g) then Some [g] else None).
Proof.
  intros Hg. destruct (parse_built_group g Hg) as [Hf Hp]. rewrite parse_one_factor by done.
  cbn [parse_factors]. rewrite Hp. by destruct (forallb cond_ok _).
Qed.

Lemma classify_cons part parts :
  classify_parts (part :: parts) =
    (parsed ← tryParseRequestRuleExpr part;
     '(ruleParts, baseParts) ← classify_parts parts;
     match parsed with
     | Some (_ :: _) => Ret (part :: ruleParts, baseParts)
     | _ => Ret (ruleParts, part :: baseParts)
     end).
Proof. done. Qed.

(** The factors of printed rules: the groups that parse are rules, the others
    count as base expressions. *)
Lemma classify_built gs :
  Forall (λ g, group_filled g = true) gs →
  classify_parts (map buildRuleGroupFactor gs)
  = Ret (map buildRuleGroupFactor (List.filter (λ g, forallb cond_ok (conditions g)) gs),
         map buildRuleGroupFactor (List.filter (λ g, negb (forallb cond_ok (conditions g))) gs)).
Proof.
  induction 1 as [|g gs Hg H IH]; [done|]. cbn [map classify_parts List.filter].
  rewrite classify_group, IH by done. cbn [mbind exn_bind].
  by destruct (forallb cond_ok (conditions g)).
Qed.

Lemma filter_all {A} (p : A → bool) l :
  forallb p l = true → List.filter p l = l ∧ List.filter (λ x, negb (p x)) l = [].
Proof.
  induction l as [|x l IH]; [done|]. cbn. intros H. boolify. rewrite H. cbn.
  by destruct IH as [-> ->].
Qed.

Lemma filter_some {A} (p : A → bool) l :
  forallb p l = false → List.filter (λ x, negb (p x)) l ≠ [].
Proof. induction l as [|x l IH]; [done|]. cbn. destruct (p x); cbn; [apply IH|done]. Qed.

(** A base expression as the price editor prints it: trimmed, not empty, with
    balanced parentheses but none around the whole, and not the text of a rule
    group itself. *)
Definition base_ok (base : jstr) : Prop :=
  trim base = base ∧ base ≠ [] ∧ balanced base ∧ hasFullOuterParens base = false ∧
  tryParseRequestRuleExpr (js "(" ++ base ++ js ")") = Ret None.

Lemma combine_text base gs :
  base_ok base → gs ≠ [] → Forall (λ g, group_filled g = true) gs →
  combineBillingExpr base (buildRequestRuleExpr gs)
  = str_join (js " * ") ((LPAREN :: base ++ [RPAREN]) :: map buildRuleGroupFactor gs).
Proof.
  intros (Ht & Hne & _) Hgs H. pose proof (built_factors_ok gs H) as Hf. unfold combineBillingExpr.
  rewrite Ht, build_rules, factors_trim by done. destruct gs as [|g gs]; [done|].
  destruct base as [|c base]; [done|]. cbn [nonempty negb].
  destruct (str_join _ _) as [|c' r] eqn:E.
  - exfalso. revert E. apply join_nonnil; [done|]. eapply Forall_impl; [exact Hf|]. apply factor_nonnil.
  - cbn [nonempty negb]. rewrite join_cons, E by done. cbn [app].
    change (js ") * ") with (RPAREN :: js " * "). by rewrite <- app_assoc.
Qed.

Lemma split_combined base gs :
  base_ok base → gs ≠ [] → Forall (λ g, group_filled g = true) gs →
  splitBillingExprAndRequestRules (combineBillingExpr base (buildRequestRuleExpr gs))
  = Ret (if forallb (λ g, forallb cond_ok (conditions g)) gs
         then {| billingExpr := base; requestRuleExpr := buildRequestRuleExpr gs |}
         else {| billingExpr := combineBillingExpr base (buildRequestRuleExpr gs);
                 requestRuleExpr := [] |}).
Proof.
  intros Hb Hgs H. rewrite combine_text by done. destruct Hb as (Ht & Hne & Hbal & Hfull & Hrule).
  set (fs := (LPAREN :: base ++ [RPAREN]) :: map buildRuleGroupFactor gs).
  assert (Forall factor_ok fs) as Hf by (constructor; [by eexists|by apply built_factors_ok]).
  unfold splitBillingExprAndRequestRules. rewrite factors_trim, split_mul_join by done.
  destruct (str_join (js " * ") fs) as [|x t] eqn:E.
  { exfalso. revert E. apply join_nonnil; [done|]. eapply Forall_impl; [exact Hf|]. apply factor_nonnil. }
  cbn [nonempty negb]. destruct gs as [|g gs]; [done|]. unfold fs. cbn [length map Nat.leb].
  change (js "(" ++ base ++ js ")") with (LPAREN :: base ++ [RPAREN]) in Hrule.
  pose proof (classify_built (g :: gs) H) as Hc. cbn [map] in Hc.
  rewrite classify_cons, Hrule. cbn [mbind exn_bind]. rewrite Hc.
  destruct (forallb (λ g, forallb cond_ok (conditions g)) (g :: gs)) eqn:Hall.
  - destruct (filter_all _ _ Hall) as [-> ->]. cbn [map mbind exn_bind].
    rewrite unwrap_wrap by done. by rewrite build_rules.
  - pose proof (filter_some _ _ Hall) as Hnn.
    destruct (List.filter (λ g, negb _) (g :: gs)); [done|]. cbn [map].
    by destruct (map _ (List.filter _ _)).
Qed.

(** C2: Combining a base expression with the printed text of some rules and
    splitting the result again gives both back.  The base expression is assumed
    to be trimmed, not empty, with balanced parentheses but none around the
    whole, and not the text of a rule itself; there is at least one rule group,
    and every group has a numeric multiplier and conditions with their fields
    filled in, free of the characters ( ) & | and of the line separators
    ([group_filled]).  When a condition is a containment or an order test on a
    request parameter, the split finds no rules at all and shows the whole text
    as the base expression. *)
Theorem split_combine base gs :
  base_ok base → gs ≠ [] → Forall (λ g, group_filled g = true) gs →
  splitBillingExprAndRequestRules (combineBillingExpr base (buildRequestRuleExpr gs))
  = Ret (if forallb (λ g, forallb cond_ok (conditions g)) gs
         then {| billingExpr := base; requestRuleExpr := buildRequestRuleExpr gs |}
         else {| billingExpr := combineBillingExpr base (buildRequestRuleExpr gs);
                 requestRuleExpr := [] |}).
Proof. apply split_combined. Qed.

Definition demo_base : jstr := jq "tier('default', p * 3 + c * 15)".

Lemma split_combine_witness :
  base_ok demo_base ∧
  splitBillingExprAndRequestRules (combineBillingExpr demo_base (buildRequestRuleExpr demo_groups))
  = Ret {| billingExpr := demo_base; requestRuleExpr := buildRequestRuleExpr demo_groups |}.
Proof.
  assert (base_ok demo_base) as Hb.
  { split_and!; [reflexivity|done|reflexivity|reflexivity|vm_compute; reflexivity]. }
  split; [done|]. rewrite (split_combine demo_base demo_groups); [reflexivity|done|done|].
  repeat constructor.
Defined.

(** Outside these conditions the text is not read back as it was entered: the
    parentheses around a whole base expression are lost, and a value with the
    text of a conjunction in it is cut there, so that no rule is found. *)
Theorem billing_text_changed :
  let rules := [Group [ParamHeaderCondition Header (js "x") MATCH_EQ (js "a && b")] (js "2")] in
  splitBillingExprAndRequestRules (combineBillingExpr (js "(p * 3)") (buildRequestRuleExpr demo_groups))
  = Ret {| billingExpr := js "p * 3"; requestRuleExpr := buildRequestRuleExpr demo_groups |} ∧
  tryParseRequestRuleExpr (buildRequestRuleExpr rules) = Ret None.
Proof. split; vm_compute; reflexivity. Qed.

(** An unknown escape inside the quoted value of a [has] condition makes the
    parser throw instead of rejecting the expression. *)
Theorem parse_rules_throws :
  tryParseRequestRuleExpr (jq "(has(header('beta'), '\q') ? 2 : 1)") = Throw ∧
  splitBillingExprAndRequestRules (jq "p * 2 * (has(header('beta'), '\q') ? 2 : 1)") = Throw.
Proof. split; vm_compute; reflexivity. Qed.
