(* ===== verification/TierExpr.v ===== *)
(** * The visual tier editor

    [src/web/default/src/features/pricing/lib/tier-expr.ts]: the tiers that the
    price editor shows, their normalization, the expression generated from
    them, the parser that opens an expression in the editor, and the local
    cost estimate. *)

From S2P Require Import Prelude JsString JsRegExp JsNumber Json BillingExpr.
From Stdlib Require Import NArith ZArith SpecFloat.

Inductive CacheMode := CACHE_MODE_TIMED | CACHE_MODE_GENERIC.

#[export] Instance CacheMode_eq_dec : EqDecision CacheMode.
Proof. solve_decision. Defined.

(** [number | string]: a number once parsed, a string while it is edited. *)
Inductive CondValue := CVNum (x : num) | CVStr (s : jstr).

#[export] Instance CondValue_eq_dec : EqDecision CondValue.
Proof. solve_decision. Defined.

Record TierConditionInput := TCond { ci_var : jstr; ci_op : jstr; ci_value : option CondValue }.

#[export] Instance TierConditionInput_eq_dec : EqDecision TierConditionInput.
Proof. solve_decision. Defined.

(** The seven optional prices, in the order of [BILLING_CACHE_VAR_MAP]. *)
Record ExtraCosts (A : Type) := Extra {
  cache_read_unit_cost : A;
  cache_create_unit_cost : A;
  cache_create_1h_unit_cost : A;
  image_unit_cost : A;
  image_output_unit_cost : A;
  audio_input_unit_cost : A;
  audio_output_unit_cost : A;
}.
Arguments Extra {A}.
Arguments cache_read_unit_cost {A}.
Arguments cache_create_unit_cost {A}.
Arguments cache_create_1h_unit_cost {A}.
Arguments image_unit_cost {A}.
Arguments image_output_unit_cost {A}.
Arguments audio_input_unit_cost {A}.
Arguments audio_output_unit_cost {A}.

Definition extra_map {A B} (f : A → B) (e : ExtraCosts A) : ExtraCosts B :=
  Extra (f (cache_read_unit_cost e)) (f (cache_create_unit_cost e))
    (f (cache_create_1h_unit_cost e)) (f (image_unit_cost e)) (f (image_output_unit_cost e))
    (f (audio_input_unit_cost e)) (f (audio_output_unit_cost e)).

(** [tier[name]] of a price field. *)
Definition extra_get {A} (name : jstr) (e : ExtraCosts A) : option A :=
  if str_eqb name (js "cache_read_unit_cost") then Some (cache_read_unit_cost e)
  else if str_eqb name (js "cache_create_unit_cost") then Some (cache_create_unit_cost e)
  else if str_eqb name (js "cache_create_1h_unit_cost") then Some (cache_create_1h_unit_cost e)
  else if str_eqb name (js "image_unit_cost") then Some (image_unit_cost e)
  else if str_eqb name (js "image_output_unit_cost") then Some (image_output_unit_cost e)
  else if str_eqb name (js "audio_input_unit_cost") then Some (audio_input_unit_cost e)
  else if str_eqb name (js "audio_output_unit_cost") then Some (audio_output_unit_cost e)
  else None.

(** A tier of the editor; a normalized tier has every price. *)
Record VisualTier := {
  vt_label : jstr;
  vt_conditions : list TierConditionInput;
  input_unit_cost : num;
  output_unit_cost : num;
  cache_mode : CacheMode;
  extra_costs : ExtraCosts (option num);
}.

(** [Partial<VisualTier>]: a field that is not an own property is [None]. *)
Record PartialTier := {
  p_label : option jstr;
  p_conditions : option (list TierConditionInput);
  p_input : option num;
  p_output : option num;
  p_cache_mode : option CacheMode;
  p_extra : ExtraCosts (option num);
}.

Definition no_extra : ExtraCosts (option num) := Extra None None None None None None None.

Definition partial_of_tier (t : VisualTier) : PartialTier :=
  {| p_label := Some (vt_label t); p_conditions := Some (vt_conditions t);
     p_input := Some (input_unit_cost t); p_output := Some (output_unit_cost t);
     p_cache_mode := Some (cache_mode t); p_extra := extra_costs t |}.

Record VisualConfig := { tiers : list VisualTier }.

(** [Number(x)] of an optional number: NaN when it is undefined. *)
Definition number_of (o : option num) : num := default S754_nan o.

(** [tier] null or undefined is the partial tier with no field. *)
Definition getTierCacheMode (tier : PartialTier) : CacheMode :=
  match p_cache_mode tier with
  | Some CACHE_MODE_TIMED => CACHE_MODE_TIMED
  | Some CACHE_MODE_GENERIC => CACHE_MODE_GENERIC
  | None =>
    if nlt nzero (number_of (cache_create_1h_unit_cost (p_extra tier)))
    then CACHE_MODE_TIMED else CACHE_MODE_GENERIC
  end.

(** [{k: d, ...tier}]: the own property of [tier] wins. *)
Definition spread {A} (d : A) (own : option A) : A := default d own.

Definition normalizeVisualTier (tier : PartialTier) : VisualTier :=
  {| vt_label := spread (default [] (p_label tier)) (p_label tier);
     input_unit_cost := spread (num_or0 (number_of (p_input tier))) (p_input tier);
     output_unit_cost := spread (num_or0 (number_of (p_output tier))) (p_output tier);
     cache_mode := spread (getTierCacheMode tier) (p_cache_mode tier);
     vt_conditions := spread (default [] (p_conditions tier)) (p_conditions tier);
     extra_costs := extra_map (λ o, Some (num_or0 (number_of o))) (p_extra tier) |}.

Definition createDefaultVisualConfig : VisualConfig :=
  {| tiers := [normalizeVisualTier
       {| p_label := Some (js "base"); p_conditions := Some []; p_input := Some nzero;
          p_output := Some nzero; p_cache_mode := Some CACHE_MODE_GENERIC; p_extra := no_extra |}] |}.

Definition normalizeVisualConfig (config : option VisualConfig) : VisualConfig :=
  match config with
  | None | Some {| tiers := [] |} => createDefaultVisualConfig
  | Some config => {| tiers := map (λ t, normalizeVisualTier (partial_of_tier t)) (tiers config) |}
  end.

(** ** Printing *)

Definition cond_value_text (v : CondValue) : jstr :=
  match v with CVNum x => num_to_string x | CVStr s => s end.

(** The conditions that are complete. *)
Definition cond_complete (c : TierConditionInput) : bool :=
  nonempty (ci_var c) && nonempty (ci_op c) &&
  match ci_value c with None => false | Some (CVStr s) => nonempty s | Some (CVNum _) => true end.

Definition cond_text (c : TierConditionInput) : jstr :=
  ci_var c ++ js " " ++ ci_op c ++ js " " ++
  match ci_value c with Some v => cond_value_text v | None => js "null" end.

Definition buildConditionStr (conditions : list TierConditionInput) : jstr :=
  str_join (js " && ") (map cond_text (List.filter cond_complete conditions)).

(** The loop over [BILLING_CACHE_VAR_MAP]. *)
Definition extra_part (e : ExtraCosts (option num)) (cv : jstr * jstr) : list jstr :=
  let v := num_or0 (number_of (mjoin (extra_get (fst cv) e))) in
  if negb (num_eqb v nzero) then [snd cv ++ js " * " ++ num_to_string v] else [].

Definition buildTierBodyExpr (tier : VisualTier) : jstr :=
  let ic := num_or0 (input_unit_cost tier) in
  let oc := num_or0 (output_unit_cost tier) in
  str_join (js " + ")
    ([js "p * " ++ num_to_string ic] ++ [js "c * " ++ num_to_string oc] ++
     concat (map (extra_part (extra_costs tier)) BILLING_CACHE_VAR_MAP)).

Definition tier_call (label : jstr) (tier : VisualTier) : jstr :=
  jq "tier('" ++ label ++ jq "', " ++ buildTierBodyExpr tier ++ js ")".

(** The parts of several tiers: [i] is the index of the first one. *)
Fixpoint generate_parts (i : N) (ts : list VisualTier) : list jstr :=
  match ts with
  | [] => []
  | tier :: rest =>
    let label := str_or (vt_label tier) (js "tier_" ++ dec (i + 1)) in
    let body := tier_call label tier in
    let cond := buildConditionStr (vt_conditions tier) in
    (if match rest with [] => false | _ => nonempty cond end
     then cond ++ js " ? " ++ body else body) :: generate_parts (i + 1) rest
  end.

Definition generateExprFromVisualConfig (config : option VisualConfig) : jstr :=
  match config with
  | None | Some {| tiers := [] |} => js "p * 0 + c * 0"
  | Some {| tiers := [tier] |} =>
    let body := tier_call (str_or (vt_label tier) (js "default")) tier in
    let cond := buildConditionStr (vt_conditions tier) in
    if nonempty cond then cond ++ js " ? " ++ body ++ js " : p * 0 + c * 0" else body
  | Some config => str_join (js " : ") (generate_parts 0 (tiers config))
  end.

(** ** Opening an expression *)

Definition visual_version_re : regex :=
  anchored [rlit (js "v"); RPlus RDigit; rlit (js ":"); RGroup 1 (RStar RAny)].

(** [var * number] with optional white space. *)
Definition coeff_pat (v : jstr) (n : nat) : list regex :=
  [rlit v; rws; rlit (js "*"); rws; RGroup n RNum].

Definition opt_coeff (v : jstr) (n : nat) : regex :=
  ROpt (rseq ([rws; rlit (js "+"); rws] ++ coeff_pat v n)).

Definition cacheVarNames : list jstr := map snd BILLING_CACHE_VAR_MAP.

(** The optional prices, numbered from [n]. *)
Fixpoint opt_cache (vs : list jstr) (n : nat) : list regex :=
  match vs with
  | [] => []
  | v :: vs => opt_coeff v n :: opt_cache vs (S n)
  end.

(** The prices of a tier; the captures are numbered from [n]. *)
Definition bodyPat (n : nat) : list regex :=
  coeff_pat (js "p") n ++ [rws; rlit (js "+"); rws] ++ coeff_pat (js "c") (n + 1)
  ++ opt_cache cacheVarNames (n + 2).

Definition tier_pat (n : nat) : list regex :=
  [rlit (jq "tier('"); RGroup n (RStar (RSet none_quote)); rlit (jq "',"); rws]
  ++ bodyPat (n + 1) ++ [rlit (js ")")].

Definition singleRe : regex := anchored (tier_pat 1).

Definition visualTierRe : regex := rseq (opt_conds :: tier_pat 2).

(** The tier of a match whose label is capture [n]. *)
Definition tier_of_match (m : mstate) (n : nat) (conditions : list TierConditionInput) : PartialTier :=
  let price i := to_number <$> cap (m_caps m) (n + 3 + i) in
  {| p_label := Some (capt m n); p_conditions := Some conditions;
     p_input := Some (to_number (capt m (n + 1))); p_output := Some (to_number (capt m (n + 2)));
     p_cache_mode := None;
     p_extra := Extra (price 0) (price 1) (price 2) (price 3) (price 4) (price 5) (price 6) |}.

Definition cond_input (c : TierCondition) : TierConditionInput :=
  TCond (tc_var c) (tc_op c) (Some (CVNum (tc_value c))).

Definition strip_ws (s : jstr) : jstr := re_replace (RPlus (RSet is_ws)) [] s.

Definition version_body (exprStr : jstr) : jstr :=
  match re_find visual_version_re exprStr with Some m => capt m 1 | None => exprStr end.

Definition matched_tiers (body : jstr) : list VisualTier :=
  map (λ bm, normalizeVisualTier
         (tier_of_match (snd bm) 2 (map cond_input (parse_tier_conds (capt (snd bm) 1)))))
    (fst (re_all visualTierRe body)).

(** Nothing in the body throws, so the [catch] is never reached. *)
Definition tryParseVisualConfig (exprStr : option jstr) : option VisualConfig :=
  match exprStr with
  | None | Some [] => None
  | Some exprStr =>
    let body := version_body exprStr in
    match re_find singleRe body with
    | Some m =>
      Some (normalizeVisualConfig (Some {| tiers := [normalizeVisualTier (tier_of_match m 1 [])] |}))
    | None =>
      match matched_tiers body with
      | [] => None
      | ts =>
        let cfg := normalizeVisualConfig (Some {| tiers := ts |}) in
        let regenerated := generateExprFromVisualConfig (Some cfg) in
        if negb (str_eqb (strip_ws regenerated) (strip_ws body)) then None else Some cfg
      end
    end
  end.

(** ** The cost estimate *)

(** Expression variable and state key of the extra token counts. *)
Definition ESTIMATOR_VARS : list (jstr * jstr) :=
  map (λ p : string * string, (js (fst p), js (snd p)))
  [ ("cr", "cacheReadTokens"); ("cc", "cacheCreateTokens"); ("cc1h", "cacheCreate1hTokens");
    ("img", "imageTokens"); ("img_o", "imageOutputTokens"); ("ai", "audioInputTokens");
    ("ao", "audioOutputTokens") ]%string.

Definition ESTIMATOR_EXTRA_FIELDS := ESTIMATOR_VARS.

Record EvalResult := { cost : num; matchedTier : jstr; eval_error : option jstr }.

(** What running a generated function does: it throws with a message, or it
    returns a value (given here as the number it converts to) after calling
    [tier] with some names, in order. *)
Inductive RunResult :=
  | RunThrow (message : jstr)
  | RunReturn (value : num) (tier_calls : list jstr).

Section estimator.
(** [new Function(names, "use strict"; return (expr);)] applied to the
    environment: the JavaScript engine itself, of which nothing is assumed. *)
Context (run_function : list (jstr * num) → jstr → RunResult).

(** [extraTokenValues[key] || 0]. *)
Definition extra_tokens (values : list (jstr * num)) (k : jstr) : num :=
  opt_num_or0 (num_get k values).

(** The number bindings of [env], in the order of its keys; the functions
    [tier], [max], [min], [abs], [ceil] and [floor] are the same on every call. *)
Definition estimator_env (promptTokens completionTokens : num) (values : list (jstr * num))
  : list (jstr * num) :=
  let len := nadd (nadd (nadd promptTokens (extra_tokens values (js "cacheReadTokens")))
                     (extra_tokens values (js "cacheCreateTokens")))
                  (extra_tokens values (js "cacheCreate1hTokens")) in
  [(js "p", promptTokens); (js "c", completionTokens); (js "len", len)]
  ++ map (λ f, (fst f, extra_tokens values (snd f))) ESTIMATOR_VARS.

Definition evalExprLocally (exprStr : jstr) (promptTokens completionTokens : num)
    (extraTokenValues : list (jstr * num)) : EvalResult :=
  if negb (nonempty exprStr) || negb (nonempty (trim exprStr))
  then {| cost := nzero; matchedTier := []; eval_error := None |}
  else
    match run_function (estimator_env promptTokens completionTokens extraTokenValues) exprStr with
    | RunReturn value calls =>
      {| cost := num_or0 value; matchedTier := default [] (last calls); eval_error := None |}
    | RunThrow message => {| cost := nzero; matchedTier := []; eval_error := Some message |}
    end.
End estimator.

Definition extra_vars_re : regex :=
  rseq [RWordB; RGroup 1 (ralt (map (λ f, rlit (fst f)) ESTIMATOR_VARS)); RWordB].

Definition exprUsesExtraVars (exprStr : jstr) : bool :=
  if negb (nonempty exprStr) then false else re_test extra_vars_re exprStr.

Example try_parse_two :
  let e := jq "p <= 200000 && len > 3 ? tier('low', p * 1.5 + c * 0.1 + cc1h * 4) : tier('high', p * 3 + c * 15)" in
  match tryParseVisualConfig (Some e) with
  | Some cfg => str_eqb (generateExprFromVisualConfig (Some cfg)) e && (length (tiers cfg) =? 2)
  | None => false
  end = true.
Proof. vm_compute. reflexivity. Qed.

(** ** Normalization *)
Lemma num_or0_not_nan x : is_nan (num_or0 x) = false.
Proof. by destruct x. Qed.

Lemma extra_map_map {A B C} (f : A → B) (g : B → C) e :
  extra_map g (extra_map f e) = extra_map (λ x, g (f x)) e.
Proof. done. Qed.

Lemma extra_map_ext {A B} (f g : A → B) e : (∀ x, f x = g x) → extra_map f e = extra_map g e.
Proof. intros H. unfold extra_map. by rewrite !H. Qed.

Lemma normalize_tier_idemp p :
  normalizeVisualTier (partial_of_tier (normalizeVisualTier p)) = normalizeVisualTier p.
Proof.
  unfold normalizeVisualTier at 1. cbn [partial_of_tier p_label p_conditions p_input p_output
    p_cache_mode p_extra normalizeVisualTier spread default from_option id vt_label vt_conditions
    input_unit_cost output_unit_cost cache_mode extra_costs].
  unfold normalizeVisualTier. f_equal. rewrite extra_map_map. apply extra_map_ext.
  intros o. cbn. by rewrite num_or0_idemp.
Qed.

(** A configuration that normalization leaves alone and that has a tier. *)
Definition config_normal (cfg : VisualConfig) : Prop :=
  tiers cfg ≠ [] ∧ normalizeVisualConfig (Some cfg) = cfg.

Lemma config_of_tiers ps :
  ps ≠ [] → config_normal {| tiers := map normalizeVisualTier ps |}.
Proof.
  intros Hps. split; [by destruct ps|].
  assert (∀ l : list VisualTier, l ≠ [] → normalizeVisualConfig (Some {| tiers := l |})
    = {| tiers := map (λ t, normalizeVisualTier (partial_of_tier t)) l |}) as ->
    by (by intros []).
  - f_equal. rewrite map_map. apply map_ext, normalize_tier_idemp.
  - by destruct ps.
Qed.

Lemma normalize_config_normal config : config_normal (normalizeVisualConfig config).
Proof.
  destruct config as [[[|t ts]]|]; try apply (config_of_tiers [_]); try done.
  cbn [normalizeVisualConfig tiers]. rewrite <- map_map. by apply config_of_tiers.
Qed.

(** Normalizing a configuration (or the absence of one) gives a
    configuration with at least one tier on which normalizing again changes
    nothing, and in every tier each of the seven optional prices is present and
    is not NaN. *)
Theorem normalize_config_sound config :
  let cfg := normalizeVisualConfig config in
  tiers cfg ≠ [] ∧ normalizeVisualConfig (Some cfg) = cfg ∧
  Forall (λ t, ∀ cv, cv ∈ BILLING_CACHE_VAR_MAP →
    ∃ x, extra_get (fst cv) (extra_costs t) = Some (Some x) ∧ is_nan x = false) (tiers cfg).
Proof.
  intros cfg. destruct (normalize_config_normal config) as [Hne Hid]. split_and!; [done|done|].
  fold cfg in Hne, Hid. destruct cfg as [[|t ts]]; [done|].
  rewrite <- Hid. cbn [normalizeVisualConfig tiers].
  apply Forall_map, Forall_forall. intros t' _ cv Hcv.
  unfold BILLING_CACHE_VAR_MAP in Hcv. apply list_elem_of_fmap in Hcv as (v & -> & Hv).
  vm_compute in Hv. repeat (apply elem_of_cons in Hv as [->|Hv];
    [eexists; split; [reflexivity|apply num_or0_not_nan]|]). by apply elem_of_nil in Hv.
Qed.

(** An expression that the tier editor opens becomes a normalized
    configuration with at least one tier; and unless the expression is a single
    unconditional tier, the expression generated from the configuration is the
    opened text (without its version prefix) up to white space, so that opening
    and saving changes nothing. *)
Theorem try_parse_visual_sound e cfg :
  tryParseVisualConfig (Some e) = Some cfg →
  config_normal cfg ∧
  (re_find singleRe (version_body e) = None →
   strip_ws (generateExprFromVisualConfig (Some cfg)) = strip_ws (version_body e)).
Proof.
  unfold tryParseVisualConfig. destruct e as [|c e]; [done|].
  destruct (re_find singleRe _) as [m|] eqn:Em.
  - intros H. apply (inj Some) in H as <-. split; [apply normalize_config_normal|done].
  - destruct (matched_tiers _) as [|t ts]; [done|].
    destruct (str_eqb _ _) eqn:E; cbn [negb]; [|done]. intros H. apply (inj Some) in H as <-.
    split; [apply normalize_config_normal|]. intros _. unfold str_eqb in E. by boolify.
Qed.

Definition demo_tiers : jstr :=
  jq "v1:p <= 200000 && len > 3 ? tier('low', p * 1.5 + c * 0.1 + cc1h * 4) : tier('high', p * 3 + c * 15)".

Lemma try_parse_visual_sound_witness :
  ∃ cfg, tryParseVisualConfig (Some demo_tiers) = Some cfg ∧
    strip_ws (generateExprFromVisualConfig (Some cfg)) = strip_ws (version_body demo_tiers).
Proof.
  destruct (tryParseVisualConfig (Some demo_tiers)) as [cfg|] eqn:E.
  - exists cfg. split; [done|]. apply (try_parse_visual_sound demo_tiers cfg E). vm_compute. reflexivity.
  - vm_compute in E. discriminate E.
Defined.

(** The estimator always answers: its cost is never NaN, an error comes with
    cost zero and no tier, and the expression is run exactly when it is not blank,
    in an environment that binds [p], [c], [len] and the seven extra variables. *)
Theorem eval_total run e p c values :
  let r := evalExprLocally run e p c values in
  is_nan (cost r) = false ∧
  (eval_error r ≠ None → cost r = nzero ∧ matchedTier r = []) ∧
  (trim e = [] → r = {| cost := nzero; matchedTier := []; eval_error := None |}) ∧
  (trim e ≠ [] → eval_error r =
     match run (estimator_env p c values) e with RunThrow m => Some m | RunReturn _ _ => None end) ∧
  map fst (estimator_env p c values) = map js ["p"; "c"; "len"; "cr"; "cc"; "cc1h"; "img"; "img_o"; "ai"; "ao"]%string.
Proof.
  intros r. unfold r, evalExprLocally. destruct (trim e) as [|a t] eqn:E.
  - cbn [nonempty negb]. rewrite orb_true_r. by split_and!.
  - destruct e as [|b e]; [done|]. cbn [nonempty negb orb].
    destruct (run _ _); split_and!; try done. apply num_or0_not_nan.
Qed.

(** ** Prices of a tier *)

(** A parsed tier body has exactly the nine price fields of the registry, in
    its order, and no price is NaN, whatever the text. *)
Theorem parse_tier_body_type body :
  map fst (parseTierBody body) = map (λ v, default [] (field v)) BILLING_PRICING_VARS ∧
  Forall (λ kv, is_nan (snd kv) = false) (parseTierBody body).
Proof.
  unfold parseTierBody. split.
  - rewrite map_map. unfold BILLING_VAR_KEY_TO_FIELD. by rewrite map_map.
  - apply Forall_map, Forall_forall. intros [k f] _. cbn. destruct (num_get k _); [|done].
    apply num_or0_not_nan.
Qed.

(** The patterns accept [p*3] but swallow a plus sign that follows a number
    without white space: the two spellings of one expression give different
    prices, and the compact one shows the input price as zero. *)
Theorem compact_tier_loses_price :
  map pt_prices (parseTiersFromExpr (jq "tier('base', p * 3 + c * 15)"))
    = [parseTierBody (js "p * 3 + c * 15")] ∧
  num_get (js "inputPrice") (parseTierBody (js "p * 3 + c * 15")) = Some (num_of_Z 3) ∧
  num_get (js "inputPrice") (parseTierBody (js "p*3+c*15")) = Some nzero ∧
  map pt_prices (parseTiersFromExpr (jq "tier('base', p*3+c*15)")) = [parseTierBody (js "p*3+c*15")].
Proof. split_and!; vm_compute; reflexivity. Qed.
