(* ===== verification/Pricing.v ===== *)
(** * The model catalogue: filters, dynamic prices, seeds

    [src/web/default/src/features/pricing/]: [lib/filters.ts],
    [lib/dynamic-price.ts], [lib/model-helpers.ts], [lib/seed.ts] and the
    constants and types they use. *)

From S2P Require Import Prelude JsString JsRegExp JsNumber Json BillingExpr BillingRules BillingRoundtrip.
From Stdlib Require Import NArith ZArith SpecFloat.

(** ** Constants and data *)

Definition SORT_NAME : jstr := js "name".
Definition SORT_PRICE_LOW : jstr := js "price-low".
Definition SORT_PRICE_HIGH : jstr := js "price-high".

Definition FILTER_ALL : jstr := js "all".

Definition QUOTA_ALL : jstr := js "all".
Definition QUOTA_TOKEN : jstr := js "token".
Definition QUOTA_REQUEST : jstr := js "request".

Definition ENDPOINT_ALL : jstr := js "all".

Definition EXCLUDED_GROUPS : list jstr := [[]; js "auto"].

Definition QUOTA_VALUE_TOKEN : Z := 0.
Definition QUOTA_VALUE_REQUEST : Z := 1.

Inductive TokenUnit := UnitM | UnitK.

Definition TOKEN_UNIT_DIVISORS (u : TokenUnit) : num :=
  match u with UnitM => num_of_Z 1 | UnitK => num_of_Z 1000 end.

(** The fields of a model that these modules read. *)
Record PricingModel := {
  model_id : Z;
  model_name : jstr;
  description : option jstr;
  vendor_name : option jstr;
  quota_type : Z;
  model_ratio : num;
  model_price : option num;
  enable_groups : list jstr;
  tags : option jstr;
  supported_endpoint_types : option (list jstr);
  group_ratio : option (list (jstr * num));
  billing_mode : option jstr;
  billing_expr : option jstr;
}.

(** [localeCompare]: the order of the Intl collator, of which only the laws of a
    comparison are used. *)
Class Collation := {
  locale_le : jstr → jstr → bool;
  locale_total s t : locale_le s t = false → locale_le t s = true;
  locale_trans s t u : locale_le s t = true → locale_le t u = true → locale_le s u = true;
}.

(** The laws are those of the order by code units. *)
Definition code_unit_collation : Collation :=
  {| locale_le := str_leb; locale_total := str_leb_total; locale_trans := str_leb_trans |}.

(** [l?.includes(x)] and [s?.toLowerCase().includes(q)] used as conditions. *)
Definition opt_list_includes (l : option (list jstr)) (x : jstr) : bool :=
  match l with Some l => bool_decide (x ∈ l) | None => false end.

(** ** Filters *)

Section filters.
Context `{LowerCase} `{Collation}.

Definition opt_lower_includes (s : option jstr) (q : jstr) : bool :=
  match s with Some s => includes q (toLowerCase s) | None => false end.

Definition filterBySearch (models : list PricingModel) (query : jstr) : list PricingModel :=
  if negb (nonempty query) then models
  else
    let lowerQuery := toLowerCase query in
    List.filter (λ m, opt_lower_includes (Some (model_name m)) lowerQuery
                      || opt_lower_includes (description m) lowerQuery
                      || opt_lower_includes (tags m) lowerQuery
                      || opt_lower_includes (vendor_name m) lowerQuery) models.

Definition filterByVendor (models : list PricingModel) (vendor : jstr) : list PricingModel :=
  if str_eqb vendor FILTER_ALL then models
  else List.filter (λ m, bool_decide (vendor_name m = Some vendor)) models.

Definition filterByGroup (models : list PricingModel) (group : jstr) : list PricingModel :=
  if str_eqb group FILTER_ALL then models
  else List.filter (λ m, opt_list_includes (Some (enable_groups m)) group) models.

Definition filterByQuotaType (models : list PricingModel) (quotaType : jstr) : list PricingModel :=
  if str_eqb quotaType QUOTA_ALL then models
  else
    let targetType := if str_eqb quotaType QUOTA_TOKEN then QUOTA_VALUE_TOKEN else QUOTA_VALUE_REQUEST in
    List.filter (λ m, (quota_type m =? targetType)%Z) models.

Definition filterByEndpointType (models : list PricingModel) (endpointType : jstr) : list PricingModel :=
  if str_eqb endpointType ENDPOINT_ALL then models
  else List.filter (λ m, opt_list_includes (supported_endpoint_types m) endpointType) models.

Definition getModelPrice (model : PricingModel) : num :=
  if (quota_type model =? 0)%Z then model_ratio model else opt_num_or0 (model_price model).

(** The comparator [x - y] does not ask for a swap: it is not positive (NaN
    counts as zero). *)
Definition diff_le (x y : num) : bool := negb (nlt nzero (nsub x y)).

Definition sort_le (sortBy : jstr) (a b : PricingModel) : bool :=
  if str_eqb sortBy SORT_NAME then locale_le (model_name a) (model_name b)
  else if str_eqb sortBy SORT_PRICE_LOW then diff_le (getModelPrice a) (getModelPrice b)
  else if str_eqb sortBy SORT_PRICE_HIGH then diff_le (getModelPrice b) (getModelPrice a)
  else true.

(** An unknown option leaves the copy unsorted, as sorting by [true] does. *)
Definition sortModels (models : list PricingModel) (sortBy : jstr) : list PricingModel :=
  stable_sort (sort_le sortBy) models.

Definition tag_sep (c : N) : bool := one_of (js ",;|") c || is_ws c.

Definition parseTags (tagsString : option jstr) : list jstr :=
  match tagsString with
  | Some s => if negb (nonempty s) then []
              else List.filter nonempty (map trim (re_split (RPlus (RSet tag_sep)) s))
  | None => []
  end.

Definition extractAllTags (models : list PricingModel) : list jstr :=
  let tagSet := dedup (concat (map (λ model, map toLowerCase (parseTags (tags model))) models)) in
  stable_sort locale_le tagSet.

Definition filterByTag (models : list PricingModel) (tag : jstr) : list PricingModel :=
  if str_eqb tag FILTER_ALL then models
  else
    let tagLower := toLowerCase tag in
    List.filter (λ m,
      match tags m with
      | Some s => nonempty s && bool_decide (tagLower ∈ map toLowerCase (parseTags (Some s)))
      | None => false
      end) models.

Record Filters := {
  f_search : jstr;
  f_vendor : jstr;
  f_group : jstr;
  f_quotaType : jstr;
  f_endpointType : jstr;
  f_tag : jstr;
  f_sortBy : jstr;
}.

Definition filterAndSortModels (models : list PricingModel) (filters : Filters) : list PricingModel :=
  let result := filterBySearch models (f_search filters) in
  let result := filterByVendor result (f_vendor filters) in
  let result := filterByGroup result (f_group filters) in
  let result := filterByQuotaType result (f_quotaType filters) in
  let result := filterByEndpointType result (f_endpointType filters) in
  let result := filterByTag result (f_tag filters) in
  sortModels result (f_sortBy filters).
End filters.

(** ** Model helpers *)

(** [usableGroup] is given by its own keys, in property order. *)
Definition getAvailableGroups (model : PricingModel) (usableGroup : list jstr) : list jstr :=
  List.filter (λ g, bool_decide (g ∈ enable_groups model))
    (List.filter (λ g, negb (bool_decide (g ∈ EXCLUDED_GROUPS))) usableGroup).

(** The replacement text of [String.prototype.replace] for a pattern without
    captures: [$$], [$&], [$`] and [$'] are expanded, anything else is literal. *)
Fixpoint get_substitution (before matched after t : jstr) : jstr :=
  match t with
  | [] => []
  | c :: t' =>
    if (c =? 36)%N then
      match t' with
      | 36%N :: t'' => 36%N :: get_substitution before matched after t''
      | 38%N :: t'' => matched ++ get_substitution before matched after t''
      | 96%N :: t'' => before ++ get_substitution before matched after t''
      | 39%N :: t'' => after ++ get_substitution before matched after t''
      | _ => c :: get_substitution before matched after t'
      end
    else c :: get_substitution before matched after t'
  end.

(** The global replacement: [done_] is the text already passed over. *)
Fixpoint replace_all_go (done_ : jstr) (ms : list (jstr * mstate)) (tail t : jstr) : jstr :=
  match ms with
  | [] => tail
  | (before, m) :: ms =>
    let pre := done_ ++ before in
    before ++ get_substitution pre (capt m 0) (m_rest m) t
    ++ replace_all_go (pre ++ capt m 0) ms tail t
  end.

Definition model_re : regex := rlit (js "{model}").

Definition replaceModelInPath (path modelName : jstr) : jstr :=
  let '(ms, tail) := re_all model_re path in replace_all_go [] ms tail modelName.

Definition isTokenBasedModel (model : PricingModel) : bool :=
  (quota_type model =? QUOTA_VALUE_TOKEN)%Z.

(** ** Dynamic prices *)

Record DynamicPriceOptions := {
  tokenUnit : TokenUnit;
  showRechargePrice : option bool;
  priceRate : option num;
  usdExchangeRate : option num;
  groupRatioMultiplier : option num;
}.

Record DynamicPriceEntry := {
  e_key : jstr;
  e_field : jstr;
  e_label : jstr;
  e_shortLabel : jstr;
  e_value : num;
  e_formatted : jstr;
  e_variable : BillingVar;
}.

Record DynamicPricingSummary := {
  s_tiers : list ParsedTier;
  s_tier : option ParsedTier;
  s_tierCount : nat;
  s_hasRequestRules : bool;
  s_isSpecialExpression : bool;
  s_rawExpression : jstr;
  s_entries : list DynamicPriceEntry;
  s_primaryEntries : list DynamicPriceEntry;
  s_secondaryEntries : list DynamicPriceEntry;
}.

Definition PRIMARY_DYNAMIC_FIELDS : list jstr := [js "inputPrice"; js "outputPrice"].

Definition is_primary (e : DynamicPriceEntry) : bool := bool_decide (e_field e ∈ PRIMARY_DYNAMIC_FIELDS).

Definition isDynamicPricingModel (model : PricingModel) : bool :=
  bool_decide (billing_mode model = Some (js "tiered_expr")) && nonempty (default [] (billing_expr model)).

(** The loop of [getDynamicDisplayGroupRatio]. *)
Definition min_step (ratios : list (jstr * num)) (minRatio : num) (group : jstr) : num :=
  match num_get group ratios with
  | Some ratio => if nlt ratio minRatio then ratio else minRatio
  | None => minRatio
  end.

Definition getDynamicDisplayGroupRatio (model : PricingModel) : num :=
  let groups := enable_groups model in
  let ratios := default [] (group_ratio model) in
  match groups with
  | [] => num_of_Z 1
  | _ =>
    let minRatio := foldl (min_step ratios) ninf groups in
    if num_eqb minRatio ninf then num_of_Z 1 else minRatio
  end.

Definition applyRechargeRate (price : num) (showWithRecharge : bool) (priceRate usdExchangeRate : num) : num :=
  if negb showWithRecharge then price else ndiv (nmul price priceRate) usdExchangeRate.

Section dynamic.
(** [formatBillingCurrencyFromUSD] of [lib/currency.ts] at the options used
    here: display settings and Intl formatting are not modelled. *)
Context (formatBillingCurrencyFromUSD : num → jstr).

Definition formatDynamicUnitPrice (valuePerMillionTokens : num) (options : DynamicPriceOptions) : jstr :=
  let groupRatio := default (num_of_Z 1) (groupRatioMultiplier options) in
  let rate := default (num_of_Z 1) (priceRate options) in
  let exchange := default (num_of_Z 1) (usdExchangeRate options) in
  let priceUSD := ndiv (nmul valuePerMillionTokens groupRatio) (TOKEN_UNIT_DIVISORS (tokenUnit options)) in
  let displayPrice := applyRechargeRate priceUSD (default false (showRechargePrice options)) rate exchange in
  formatBillingCurrencyFromUSD displayPrice.

Definition getDynamicPricingTiers (model : PricingModel) : exn (list ParsedTier) :=
  if negb (isDynamicPricingModel model) then Ret []
  else
    s ← splitBillingExprAndRequestRules (default [] (billing_expr model));
    Ret (parseTiersFromExpr (billingExpr s)).

Definition hasDynamicRequestRules (model : PricingModel) : exn bool :=
  if negb (isDynamicPricingModel model) then Ret false
  else
    s ← splitBillingExprAndRequestRules (default [] (billing_expr model));
    r ← tryParseRequestRuleExpr (requestRuleExpr s);
    Ret match r with Some (_ :: _) => true | _ => false end.

(** The callback of [flatMap]: a price that is shown, or nothing. *)
Definition price_entry (tier : ParsedTier) (options : DynamicPriceOptions) (variable : BillingVar)
  : list DynamicPriceEntry :=
  match field variable with
  | None => []
  | Some f =>
    let value := default S754_nan (num_get f (pt_prices tier)) in
    if negb (nonempty f) || negb (is_finite value) || nle value nzero then []
    else [{| e_key := key variable; e_field := f; e_label := label variable;
             e_shortLabel := shortLabel variable; e_value := value;
             e_formatted := formatDynamicUnitPrice value options; e_variable := variable |}]
  end.

(** The comparator: primary entries before the others. *)
Definition entry_le (a b : DynamicPriceEntry) : bool :=
  if negb (eqb (is_primary a) (is_primary b)) then is_primary a else true.

Definition getDynamicPriceEntries (tier : option ParsedTier) (options : DynamicPriceOptions)
  : list DynamicPriceEntry :=
  match tier with
  | None => []
  | Some tier => stable_sort entry_le (concat (map (price_entry tier options) BILLING_PRICING_VARS))
  end.

Definition getDynamicPricingSummary (model : PricingModel) (options : DynamicPriceOptions)
  : exn (option DynamicPricingSummary) :=
  if negb (isDynamicPricingModel model) then Ret None
  else
    ts ← getDynamicPricingTiers model;
    let tier := head ts in
    let entries := getDynamicPriceEntries tier options in
    let rawExpression := default [] (billing_expr model) in
    hasRules ← hasDynamicRequestRules model;
    Ret (Some {| s_tiers := ts; s_tier := tier; s_tierCount := length ts;
      s_hasRequestRules := hasRules;
      s_isSpecialExpression := nonempty (trim rawExpression) && (length ts =? 0);
      s_rawExpression := rawExpression; s_entries := entries;
      s_primaryEntries := List.filter is_primary entries;
      s_secondaryEntries := List.filter (λ e, negb (is_primary e)) entries |}).
End dynamic.

(** ** Seeds *)

(** [hash * 33] is below 2^53 in absolute value, so the product is exact. *)
Definition hash_step (hash : Z) (c : N) : Z := Z.lxor (to_int32 (hash * 33)) (Z.of_N c).

Definition hashStringToSeed (input : jstr) : Z := Z.abs (to_int32 (foldl hash_step 5381%Z input)).

(** The state of a generator, and its step: the new state and the number drawn.
    [state * 1664525 + 1013904223] is below 2^53, so it is exact. *)
Definition seed_state (seed : Z) : Z := to_uint32 (if (seed =? 0)%Z then 1 else seed).

Definition next_state (state : Z) : Z := to_uint32 (state * 1664525 + 1013904223).

Definition seededRandom (state : Z) : Z * num :=
  let state := next_state state in (state, ndiv (num_of_Z state) (num_of_Z 4294967296)).

Definition randomInRange (state : Z) (min max : num) : Z * num :=
  let '(state, r) := seededRandom state in (state, nadd min (nmul r (nsub max min))).

Definition randomIntInRange (state : Z) (min max : num) : Z * num :=
  let '(state, r) := randomInRange state min (nadd max (num_of_Z 1)) in (state, num_floor r).

(** ** Filtering and sorting *)

Section filter_facts.
Context `{LowerCase} `{Collation}.
Implicit Types (m : PricingModel) (models : list PricingModel).

(** What the filters ask of one model. *)
Definition model_matches (f : Filters) (m : PricingModel) : bool :=
  (negb (nonempty (f_search f))
   || opt_lower_includes (Some (model_name m)) (toLowerCase (f_search f))
   || opt_lower_includes (description m) (toLowerCase (f_search f))
   || opt_lower_includes (tags m) (toLowerCase (f_search f))
   || opt_lower_includes (vendor_name m) (toLowerCase (f_search f)))
  && (str_eqb (f_vendor f) FILTER_ALL || bool_decide (vendor_name m = Some (f_vendor f)))
  && (str_eqb (f_group f) FILTER_ALL || bool_decide (f_group f ∈ enable_groups m))
  && (str_eqb (f_quotaType f) QUOTA_ALL
      || (quota_type m =? if str_eqb (f_quotaType f) QUOTA_TOKEN then 0 else 1)%Z)
  && (str_eqb (f_endpointType f) ENDPOINT_ALL
      || bool_decide (f_endpointType f ∈ default [] (supported_endpoint_types m)))
  && (str_eqb (f_tag f) FILTER_ALL
      || bool_decide (toLowerCase (f_tag f) ∈ map toLowerCase (parseTags (tags m)))).

Lemma filter_filter {A} (p q : A → bool) l :
  List.filter q (List.filter p l) = List.filter (λ x, p x && q x) l.
Proof.
  induction l as [|x l IH]; [done|]. cbn. destruct (p x); cbn; [|done]. by rewrite IH.
Qed.

Lemma filter_or {A} (b : bool) (p : A → bool) l :
  (if b then l else List.filter p l) = List.filter (λ x, b || p x) l.
Proof. destruct b; [|done]. cbn. induction l as [|x l IH]; [done|]. cbn. by rewrite <- IH. Qed.

Lemma filter_ext_bool {A} (p q : A → bool) l :
  (∀ x, p x = q x) → List.filter p l = List.filter q l.
Proof. intros Hpq. induction l as [|x l IH]; [done|]. cbn. by rewrite Hpq, IH. Qed.

Lemma filters_fused models f :
  filterAndSortModels models f = sortModels (List.filter (model_matches f) models) (f_sortBy f).
Proof.
  unfold filterAndSortModels. f_equal.
  unfold filterBySearch, filterByVendor, filterByGroup, filterByQuotaType, filterByEndpointType,
    filterByTag. rewrite !filter_or, !filter_filter. apply filter_ext_bool. intros m.
  unfold model_matches. rewrite <- !orb_assoc, <- !andb_assoc.
  do 4 (apply f_equal2; [reflexivity|]). apply f_equal2; apply f_equal2; try done.
  - by destruct (supported_endpoint_types m).
  - destruct (tags m) as [[|c s]|]; done.
Qed.

Lemma sort_unknown sortBy l :
  sortBy ∉ [SORT_NAME; SORT_PRICE_LOW; SORT_PRICE_HIGH] → sortModels l sortBy = l.
Proof.
  intros Hs. assert (∀ a b, sort_le sortBy a b = true) as Hle.
  { intros a b. unfold sort_le, str_eqb. rewrite !bool_decide_eq_false_2; set_solver. }
  unfold sortModels. induction l as [|x l IH]; [done|]. cbn [stable_sort]. rewrite IH.
  destruct l; [done|]. cbn [insert_stable]. by rewrite Hle.
Qed.

(** The catalogue shows exactly the models that pass every filter, each as
    often as it was listed; sorting by name orders them by the collation, an
    unknown sort option keeps the server's order, and any set of models that
    the sort option does not tell apart keeps its order. *)
Theorem filter_and_sort_spec models f :
  filterAndSortModels models f ≡ₚ List.filter (model_matches f) models ∧
  (f_sortBy f = SORT_NAME →
   StronglySorted (λ a b, locale_le (model_name a) (model_name b) = true) (filterAndSortModels models f)) ∧
  (f_sortBy f ∉ [SORT_NAME; SORT_PRICE_LOW; SORT_PRICE_HIGH] →
   filterAndSortModels models f = List.filter (model_matches f) models) ∧
  (∀ P : PricingModel → bool,
   (∀ a b, P a = true → P b = true → sort_le (f_sortBy f) a b = true) →
   List.filter P (filterAndSortModels models f) = List.filter P (List.filter (model_matches f) models)).
Proof.
  rewrite filters_fused. split_and!.
  - apply stable_sort_perm.
  - intros ->. apply (stable_sort_sorted (λ a b, locale_le (model_name a) (model_name b))).
    + intros. by apply locale_total.
    + intros. by eapply locale_trans.
  - apply sort_unknown.
  - intros P HP. by apply stable_sort_filter.
Qed.

(** The price comparator is consistent on a list: total and transitive. *)
Definition price_consistent (models : list PricingModel) : bool :=
  forallb (λ a, forallb (λ b,
    (diff_le (getModelPrice a) (getModelPrice b) || diff_le (getModelPrice b) (getModelPrice a))
    && forallb (λ c, negb (diff_le (getModelPrice a) (getModelPrice b))
                     || negb (diff_le (getModelPrice b) (getModelPrice c))
                     || diff_le (getModelPrice a) (getModelPrice c)) models) models) models.

Lemma price_consistent_spec models :
  price_consistent models = true →
  (∀ a b, a ∈ models → b ∈ models → diff_le (getModelPrice a) (getModelPrice b) = false →
    diff_le (getModelPrice b) (getModelPrice a) = true) ∧
  (∀ a b c, a ∈ models → b ∈ models → c ∈ models →
    diff_le (getModelPrice a) (getModelPrice b) = true →
    diff_le (getModelPrice b) (getModelPrice c) = true →
    diff_le (getModelPrice a) (getModelPrice c) = true).
Proof.
  unfold price_consistent. intros Hc. split.
  - intros a b Ha Hb Hab. pose proof (forallb_elem_of _ _ b (forallb_elem_of _ _ a Hc Ha) Hb) as Hx.
    cbn in Hx. boolify. by rewrite Hab in *.
  - intros a b c Ha Hb Hc' Hab Hbc.
    pose proof (forallb_elem_of _ _ b (forallb_elem_of _ _ a Hc Ha) Hb) as Hx. cbn in Hx. boolify.
    match goal with Hf : forallb _ _ = true |- _ => pose proof (forallb_elem_of _ _ c Hf Hc') as Hy end.
    cbn in Hy. by rewrite Hab, Hbc in Hy.
Qed.

(** Sorting by price puts the models in ascending (or descending) order of
    their prices, on every list of models whose price differences compare
    consistently. *)
Theorem sort_by_price models f :
  price_consistent (List.filter (model_matches f) models) = true →
  (f_sortBy f = SORT_PRICE_LOW →
   StronglySorted (λ a b, diff_le (getModelPrice a) (getModelPrice b) = true) (filterAndSortModels models f)) ∧
  (f_sortBy f = SORT_PRICE_HIGH →
   StronglySorted (λ a b, diff_le (getModelPrice b) (getModelPrice a) = true) (filterAndSortModels models f)).
Proof.
  rewrite filters_fused. intros [Htot Htr]%price_consistent_spec.
  set (l := List.filter _ models) in *.
  split; intros ->.
  - apply (stable_sort_sorted_on (λ a b, diff_le (getModelPrice a) (getModelPrice b)) (λ a, a ∈ l));
      eauto. by apply Forall_forall.
  - apply (stable_sort_sorted_on (λ a b, diff_le (getModelPrice b) (getModelPrice a)) (λ a, a ∈ l));
      eauto. by apply Forall_forall.
Qed.
End filter_facts.

(** ** Tags *)

Section tag_facts.
Context `{LowerCase} `{Collation}.

Lemma no_sep_trim w : Forall (λ c, tag_sep c = false) w → trim w = w.
Proof.
  intros Hw. apply trim_fix. unfold no_edge_ws.
  assert (∀ c, c ∈ w → is_ws c = false) as Hws.
  { intros c Hc. rewrite Forall_forall in Hw. specialize (Hw c Hc). unfold tag_sep in Hw. by boolify. }
  destruct (head w) eqn:E1; [|destruct (last w) eqn:E2];
    rewrite ?Hws by eauto using head_Some_elem_of, last_Some_elem_of; [|done..].
  destruct (last w) eqn:E2; [|done]. by rewrite Hws by eauto using last_Some_elem_of.
Qed.

(** Splitting, trimming and dropping empty strings leaves the maximal runs of
    code units that are no separators. *)
Lemma parseTags_words s : parseTags (Some s) = words tag_sep s.
Proof.
  unfold parseTags. destruct s as [|c s]; [done|]. cbn [nonempty negb].
  destruct (re_split_words tag_sep (c :: s)) as [<- Hf]. f_equal.
  induction Hf as [|w l Hw Hl IH]; [done|]. cbn [map]. by rewrite no_sep_trim, IH.
Qed.

Definition model_tags (m : PricingModel) : list jstr := map toLowerCase (parseTags (tags m)).

Lemma elem_of_tags models t :
  t ∈ extractAllTags models ↔ ∃ m, m ∈ models ∧ t ∈ model_tags m.
Proof.
  unfold extractAllTags. rewrite elem_of_stable_sort, elem_of_dedup. fold model_tags.
  rewrite list_elem_of_In, in_concat. split.
  - intros (l & (m & <- & Hm)%in_map_iff & Ht). exists m. by rewrite !list_elem_of_In.
  - intros (m & Hm & Ht). exists (model_tags m). rewrite <- !list_elem_of_In. split; [|done].
    apply list_elem_of_fmap. by exists m.
Qed.

Lemma tag_filter models t :
  t ≠ FILTER_ALL →
  filterByTag models t = List.filter (λ m, bool_decide (toLowerCase t ∈ model_tags m)) models.
Proof.
  intros Ht. unfold filterByTag, str_eqb. rewrite bool_decide_eq_false_2 by done.
  apply filter_ext_bool. intros m. unfold model_tags. by destruct (tags m) as [[|c s]|].
Qed.

(** The tag list offers every tag of every model once, in lower case and in
    collation order; tags are the maximal runs without separators; choosing an
    offered tag (other than the word that means no filter) shows exactly the
    models that carry it, and there is at least one. *)
Theorem tags_spec models :
  NoDup (extractAllTags models) ∧
  StronglySorted (λ s t, locale_le s t = true) (extractAllTags models) ∧
  (∀ s, parseTags (Some s) = words tag_sep s) ∧
  ∀ t, t ∈ extractAllTags models → t ≠ FILTER_ALL →
    filterByTag models t = List.filter (λ m, bool_decide (t ∈ model_tags m)) models ∧
    filterByTag models t ≠ [].
Proof.
  split_and!.
  - unfold extractAllTags. rewrite stable_sort_perm. apply NoDup_dedup.
  - apply stable_sort_sorted; eauto using locale_total, locale_trans.
  - apply parseTags_words.
  - intros t (m & Hm & Ht)%elem_of_tags Hall. rewrite tag_filter by done.
    assert (toLowerCase t = t) as ->.
    { unfold model_tags in Ht. apply list_elem_of_fmap in Ht as (t' & -> & _). apply toLowerCase_idemp. }
    split; [done|]. intros E.
    assert (m ∈ List.filter (λ m, bool_decide (t ∈ model_tags m)) models) as Hin.
    { apply list_elem_of_In, filter_In. rewrite bool_decide_eq_true, <- list_elem_of_In. done. }
    rewrite E in Hin. by apply elem_of_nil in Hin.
Qed.
End tag_facts.

(** ** Dynamic prices *)
Lemma insert_secondary e a b :
  is_primary e = false → Forall (λ x, is_primary x = true) a → Forall (λ x, is_primary x = false) b →
  insert_stable entry_le e (a ++ b) = a ++ e :: b.
Proof.
  intros He Ha Hb. induction Ha as [|x a Hx Ha IH]; cbn [app insert_stable].
  - destruct Hb as [|y b Hy Hb]; [done|]. cbn [insert_stable]. unfold entry_le. by rewrite He, Hy.
  - unfold entry_le at 1. rewrite He, Hx. cbn. by rewrite IH.
Qed.

Lemma Forall_filter_bool {A} (p : A → bool) l : Forall (λ x, p x = true) (List.filter p l).
Proof. apply Forall_forall. intros x. rewrite list_elem_of_In, filter_In. by intros []. Qed.

(** Sorting by the primary comparator is a partition. *)
Lemma sort_entries l :
  stable_sort entry_le l = List.filter is_primary l ++ List.filter (λ e, negb (is_primary e)) l.
Proof.
  induction l as [|e l IH]; [done|]. cbn [stable_sort List.filter]. rewrite IH.
  destruct (is_primary e) eqn:He; cbn [negb app].
  - destruct (List.filter is_primary l ++ _) as [|y l'] eqn:E; [done|].
    cbn [insert_stable]. unfold entry_le. rewrite He. by destruct (is_primary y).
  - apply insert_secondary; [done|apply Forall_filter_bool|].
    eapply Forall_impl; [apply Forall_filter_bool|]. intros x Hx. by apply negb_true_iff in Hx.
Qed.

Lemma pos_not_le x : nlt nzero x = true → nle x nzero = false.
Proof. by destruct x as [[]|[]| |[] m e]. Qed.

Lemma not_le_pos x : is_finite x = true → nle x nzero = false → nlt nzero x = true.
Proof. by destruct x as [[]|[]| |[] m e]. Qed.

Section dynamic_facts.
Context (fmt : num → jstr).

Lemma price_entry_facts tier options v e :
  e ∈ price_entry fmt tier options v →
  field v = Some (e_field e) ∧ e_variable e = v ∧ is_finite (e_value e) = true ∧
  nlt nzero (e_value e) = true ∧ num_get (e_field e) (pt_prices tier) = Some (e_value e).
Proof.
  unfold price_entry. destruct (field v) as [f|]; [|by intros ?%elem_of_nil].
  destruct (_ || _) eqn:E; [by intros ?%elem_of_nil|]. boolify. rewrite list_elem_of_singleton.
  intros ->. cbn [e_field e_variable e_value]. destruct (num_get f _) as [x|]; [|done]. cbn [default from_option id] in *.
  split_and!; try done. by apply not_le_pos.
Qed.

(** The entries of a tier are its finite positive prices: the input and
    output price first, then the others, both in the order of the registry, no
    variable twice; the primary entries followed by the secondary ones are all
    entries. *)
Theorem price_entries_spec tier options :
  let entries := getDynamicPriceEntries fmt (Some tier) options in
  let all := concat (map (price_entry fmt tier options) BILLING_PRICING_VARS) in
  entries = List.filter is_primary all ++ List.filter (λ e, negb (is_primary e)) all ∧
  entries = List.filter is_primary entries ++ List.filter (λ e, negb (is_primary e)) entries ∧
  Forall (λ e, is_finite (e_value e) = true ∧ nlt nzero (e_value e) = true ∧
    num_get (e_field e) (pt_prices tier) = Some (e_value e)) entries ∧
  (∀ v x, v ∈ BILLING_PRICING_VARS → num_get (default [] (field v)) (pt_prices tier) = Some x →
    is_finite x = true → nlt nzero x = true → ∃ e, e ∈ entries ∧ e_variable e = v ∧ e_value e = x).
Proof.
  intros entries all. assert (entries = List.filter is_primary all ++ List.filter (λ e, negb (is_primary e)) all)
    as He by apply sort_entries.
  assert (∀ e, e ∈ entries ↔ ∃ v, v ∈ BILLING_PRICING_VARS ∧ e ∈ price_entry fmt tier options v) as Hin.
  { intros e. unfold entries, getDynamicPriceEntries. rewrite elem_of_stable_sort, list_elem_of_In, in_concat.
    split.
    - intros (l & (v & <- & Hv)%in_map_iff & Hl). exists v. by rewrite !list_elem_of_In.
    - intros (v & Hv & Hl). exists (price_entry fmt tier options v). rewrite in_map_iff, <- list_elem_of_In.
      split; [|done]. exists v. by rewrite <- list_elem_of_In. }
  split_and!; [done| | |].
  - rewrite He, !List.filter_app, !filter_filter. rewrite <- (sort_entries all).
    rewrite (filter_ext_bool (λ x, is_primary x && is_primary x) is_primary) by (intros; apply andb_diag).
    rewrite (filter_ext_bool (λ x, negb (is_primary x) && is_primary x) (λ _, false))
      by (intros; apply andb_negb_l).
    rewrite (filter_ext_bool (λ x, is_primary x && negb (is_primary x)) (λ _, false))
      by (intros; apply andb_negb_r).
    rewrite (filter_ext_bool (λ x, negb (is_primary x) && negb (is_primary x)) (λ x, negb (is_primary x)))
      by (intros; apply andb_diag).
    assert (∀ l : list DynamicPriceEntry, List.filter (λ _, false) l = []) as Hnil by (by induction l).
    rewrite !Hnil, app_nil_r. apply sort_entries.
  - apply Forall_forall. intros e (v & _ & Hv)%Hin. apply price_entry_facts in Hv. naive_solver.
  - intros v x Hv Hx Hfin Hpos.
    assert (∃ f, field v = Some f ∧ nonempty f = true) as (f & Hf & Hne).
    { clear Hx. revert v Hv. apply Forall_forall. repeat constructor; eexists; split; reflexivity. }
    rewrite Hf in Hx. cbn in Hx. eexists (Build_DynamicPriceEntry _ _ _ _ x _ v).
    rewrite Hin. split; [|done]. exists v. split; [done|]. unfold price_entry. rewrite Hf, Hx, Hne.
    cbn [default from_option id negb orb]. rewrite Hfin, pos_not_le by done. cbn [negb orb].
    by apply list_elem_of_singleton.
Qed.
End dynamic_facts.

(** ** The displayed group ratio *)

(** The running minimum: it is one of the ratios seen (or the start value), and
    none of them is below it. *)
Lemma min_fold ratios groups acc :
  is_nan acc = false →
  let r := foldl (min_step ratios) acc groups in
  (r = acc ∨ ∃ g, g ∈ groups ∧ num_get g ratios = Some r) ∧
  nlt acc r = false ∧
  ∀ g x, g ∈ groups → num_get g ratios = Some x → nlt x r = false.
Proof.
  revert acc. induction groups as [|g groups IH]; intros acc Hn; cbn [foldl].
  { split_and!; [by left|apply nlt_irrefl|]. by intros ? ? ?%elem_of_nil. }
  assert (is_nan (min_step ratios acc g) = false ∧ nlt acc (min_step ratios acc g) = false
    ∧ (min_step ratios acc g = acc ∨ num_get g ratios = Some (min_step ratios acc g))
    ∧ ∀ x, num_get g ratios = Some x → nlt x (min_step ratios acc g) = false) as (Hn' & Hle & Hs & Hx).
  { unfold min_step. destruct (num_get g ratios) as [y|] eqn:Eg; [destruct (nlt y acc) eqn:Hy|].
    - split_and!; [by eapply nlt_not_nan| |by right|intros x [= ->]; apply nlt_irrefl].
      destruct (nlt acc y) eqn:E; [|done]. by rewrite <- (nlt_irrefl y), (nlt_trans y acc y) by done.
    - split_and!; [done|apply nlt_irrefl|by left|]. by intros x [= ->].
    - split_and!; [done|apply nlt_irrefl|by left|done]. }
  destruct (IH _ Hn') as (Hr & Hacc & Hmin). split_and!.
  - destruct Hr as [->|(g' & ? & ?)]; [destruct Hs as [->|]; [by left|right]|right].
    + exists g. split; [by left|done].
    + exists g'. split; [by right|done].
  - apply not_true_iff_false. intros E.
    destruct (nlt_cotrans _ (min_step ratios acc g) _ Hn' E) as [H|H]; congruence.
  - intros g' x [->|Hg]%elem_of_cons Hgx; [|eauto]. apply not_true_iff_false. intros E.
    destruct (nlt_cotrans _ (min_step ratios acc g) _ Hn' E) as [H|H]; [|congruence].
    by rewrite Hx in H.
Qed.

(** The ratio shown for a model is one of its groups' ratios and none of
    them is below it; without any known ratio below infinity it is 1. *)
Theorem display_ratio_min model :
  let r := getDynamicDisplayGroupRatio model in
  let ratios := default [] (group_ratio model) in
  (r = num_of_Z 1 ∧ ∀ g x, g ∈ enable_groups model → num_get g ratios = Some x → nlt x ninf = false) ∨
  (∃ g, g ∈ enable_groups model ∧ num_get g ratios = Some r) ∧
  (∀ g x, g ∈ enable_groups model → num_get g ratios = Some x → nlt x r = false).
Proof.
  intros r ratios. unfold r, getDynamicDisplayGroupRatio. fold ratios.
  destruct (enable_groups model) as [|g gs]; [left; split; [done|by intros ? ? ?%elem_of_nil]|].
  destruct (min_fold ratios (g :: gs) ninf) as (Hr & _ & Hmin); [done|].
  destruct (num_eqb _ ninf) eqn:E.
  - left. split; [done|].
    assert (foldl (min_step ratios) ninf (g :: gs) = ninf) as Hinf.
    { destruct (foldl _ _ _) as [[]|[]| |[] m e]; done. }
    by rewrite Hinf in Hmin.
  - right. destruct Hr as [Hr|Hr]; [by rewrite Hr in E|done].
Qed.

(** ** The summary of a model *)

Section summary.
Context (fmt : num → jstr).

Lemma tiers_of_combined model base gs :
  billing_mode model = Some (js "tiered_expr") →
  billing_expr model = Some (combineBillingExpr base (buildRequestRuleExpr gs)) →
  base_ok base → gs ≠ [] → Forall (λ g, group_filled g = true) gs →
  forallb (λ g, forallb cond_ok (conditions g)) gs = true →
  isDynamicPricingModel model = true ∧
  getDynamicPricingTiers model = Ret (parseTiersFromExpr base) ∧
  hasDynamicRequestRules model = Ret true.
Proof.
  intros Hm He Hb Hgs Hf Hok.
  assert (isDynamicPricingModel model = true) as Hd.
  { unfold isDynamicPricingModel. rewrite Hm, He, bool_decide_eq_true_2 by done. cbn [andb default from_option id].
    rewrite combine_text by done. by destruct gs. }
  pose proof (split_combined base gs Hb Hgs Hf) as Hs. rewrite Hok in Hs.
  pose proof (parse_rules_back gs Hf) as Hp. rewrite Hok in Hp.
  unfold getDynamicPricingTiers, hasDynamicRequestRules. rewrite Hd, He.
  cbn [negb default from_option id]. rewrite Hs. cbn [mbind exn_bind billingExpr requestRuleExpr].
  rewrite Hp. cbn [mbind exn_bind]. split_and!; [done|done|]. by destruct gs.
Qed.

(** For a model billed by a base expression combined with the printed rules
    of the editor, the price page finds the tiers of the base expression alone
    and reports that there are request rules. *)
Theorem summary_of_combined model options base gs :
  billing_mode model = Some (js "tiered_expr") →
  billing_expr model = Some (combineBillingExpr base (buildRequestRuleExpr gs)) →
  base_ok base → gs ≠ [] → Forall (λ g, group_filled g = true) gs →
  forallb (λ g, forallb cond_ok (conditions g)) gs = true →
  ∃ s, getDynamicPricingSummary fmt model options = Ret (Some s) ∧
    s_tiers s = parseTiersFromExpr base ∧ s_hasRequestRules s = true ∧
    s_entries s = getDynamicPriceEntries fmt (head (parseTiersFromExpr base)) options ∧
    (s_isSpecialExpression s = true ↔ parseTiersFromExpr base = []).
Proof.
  intros Hm He Hb Hgs Hf Hok.
  destruct (tiers_of_combined model base gs) as (Hd & Ht & Hr); [done..|].
  unfold getDynamicPricingSummary. rewrite Hd, Ht, Hr. cbn [negb mbind exn_bind].
  eexists. split; [done|]. cbn [s_tiers s_hasRequestRules s_entries s_isSpecialExpression].
  split_and!; [done|done|done|]. rewrite He. cbn [default from_option id].
  pose proof (combine_text base gs Hb Hgs Hf) as Hc.
  assert (Forall factor_ok ((LPAREN :: base ++ [RPAREN]) :: map buildRuleGroupFactor gs)) as Hfs.
  { constructor; [|by apply built_factors_ok]. exists base. split; [done|]. by destruct Hb as (_ & _ & ? & _). }
  rewrite Hc, factors_trim by done. rewrite join_cons by (by destruct gs). cbn [nonempty app andb].
  by destruct (parseTiersFromExpr base).
Qed.
End summary.

Definition demo_model : PricingModel :=
  {| model_id := 1; model_name := js "demo"; description := None; vendor_name := None; quota_type := 0;
     model_ratio := num_of_Z 1; model_price := None; enable_groups := [js "default"]; tags := None;
     supported_endpoint_types := None; group_ratio := None; billing_mode := Some (js "tiered_expr");
     billing_expr := Some (combineBillingExpr demo_base (buildRequestRuleExpr demo_groups)) |}.

Definition demo_options : DynamicPriceOptions :=
  {| tokenUnit := UnitM; showRechargePrice := None; priceRate := None; usdExchangeRate := None;
     groupRatioMultiplier := None |}.

Lemma summary_of_combined_witness :
  ∃ s, getDynamicPricingSummary num_to_string demo_model demo_options = Ret (Some s) ∧
    s_tiers s = parseTiersFromExpr demo_base ∧ s_hasRequestRules s = true.
Proof.
  assert (base_ok demo_base) as Hb.
  { split_and!; [vm_compute; reflexivity|intros E; discriminate E|vm_compute; reflexivity
      |vm_compute; reflexivity|vm_compute; reflexivity]. }
  assert (Forall (λ g, group_filled g = true) demo_groups) as Hf.
  { apply forallb_Forall. vm_compute. reflexivity. }
  assert (forallb (λ g, forallb cond_ok (conditions g)) demo_groups = true) as Hok
    by (vm_compute; reflexivity).
  destruct (summary_of_combined num_to_string demo_model demo_options demo_base demo_groups
    eq_refl eq_refl Hb ltac:(intros E; discriminate E) Hf Hok) as (s & H1 & H2 & H3 & _).
  exists s. split; [exact H1|split; [exact H2|exact H3]].
Defined.

(** A billing expression whose [has] condition has an unknown escape makes the
    price page throw: the summary of such a model is not computed at all. *)
Theorem summary_throws fmt options :
  let model := {| model_id := 1; model_name := js "demo"; description := None; vendor_name := None;
     quota_type := 0; model_ratio := num_of_Z 1; model_price := None; enable_groups := []; tags := None;
     supported_endpoint_types := None; group_ratio := None; billing_mode := Some (js "tiered_expr");
     billing_expr := Some (jq "p * 2 * (has(header('beta'), '\q') ? 2 : 1)") |} in
  getDynamicPricingSummary fmt model options = Throw.
Proof.
  intros model. unfold getDynamicPricingSummary.
  assert (isDynamicPricingModel model = true) as -> by reflexivity. cbn [negb].
  assert (getDynamicPricingTiers model = Throw) as -> by (vm_compute; reflexivity). done.
Qed.

(** ** Seeds *)
Lemma to_int32_bound z : (- 2 ^ 31 <= to_int32 z < 2 ^ 31)%Z.
Proof.
  unfold to_int32, to_uint32. pose proof (Z.mod_pos_bound z (2 ^ 32) ltac:(lia)).
  destruct (Z.ltb_spec (z mod 2 ^ 32) (2 ^ 31)); lia.
Qed.

(** A 32-bit integer, in bits. *)
Lemma int32_bits z : (- 2 ^ 31 <= z < 2 ^ 31)%Z ↔ ∀ n, (31 <= n)%Z → Z.testbit z n = Z.testbit z 31.
Proof.
  assert (∀ z, (0 <= z)%Z → ((z < 2 ^ 31)%Z ↔ ∀ n, (31 <= n)%Z → Z.testbit z n = false)) as Hpos.
  { intros x Hx. split.
    - intros Hlt n Hn. destruct (decide (x = 0)%Z) as [->|]; [apply Z.bits_0|].
      apply Z.bits_above_log2; [done|]. apply Z.log2_lt_pow2; [lia|].
      eapply Z.lt_le_trans; [exact Hlt|]. apply Z.pow_le_mono_r; lia.
    - intros H. destruct (decide (x = 0)%Z) as [->|]; [lia|].
      apply Z.log2_lt_pow2; [lia|]. apply Z.nle_gt. intros Hle.
      pose proof (Z.bit_log2 x ltac:(lia)) as Hb. by rewrite H in Hb. }
  destruct (decide (0 <= z)%Z) as [Hz|Hz].
  - split.
    + intros [_ Hlt] n Hn. rewrite !(proj1 (Hpos z Hz) Hlt) by lia. done.
    + intros H. split; [lia|]. apply Hpos; [done|]. intros n Hn. rewrite H by done.
      pose proof (Z.bits_above_log2 z (Z.max 31 (Z.log2 z + 1)) Hz ltac:(lia)) as Hb.
      by rewrite H in Hb by lia.
  - assert (∀ n, (0 <= n)%Z → Z.testbit z n = negb (Z.testbit (- Z.succ z) n)) as Hneg.
    { intros n Hn. rewrite <- Z.lnot_spec by done. f_equal. unfold Z.lnot. lia. }
    specialize (Hpos (- Z.succ z)%Z ltac:(lia)). split.
    + intros [Hlo _] n Hn. rewrite !Hneg by lia. f_equal.
      rewrite !(proj1 Hpos) by lia. done.
    + intros H. split; [|lia]. assert (- Z.succ z < 2 ^ 31)%Z; [|lia]. apply Hpos. intros n Hn.
      apply negb_true_iff. rewrite <- Hneg, H by lia.
      pose proof (Z.bits_above_log2 (- Z.succ z) (Z.max 31 (Z.log2 (- Z.succ z) + 1)) ltac:(lia) ltac:(lia)) as Hb.
      rewrite <- negb_true_iff, <- Hneg, H in Hb by lia. done.
Qed.

Lemma hash_step_int32 h c :
  code_unit c → (- 2 ^ 31 <= hash_step h c < 2 ^ 31)%Z.
Proof.
  intros Hc. apply int32_bits. intros n Hn. unfold hash_step. rewrite !Z.lxor_spec.
  rewrite (proj1 (int32_bits _) (to_int32_bound (h * 33)) n Hn).
  assert (- 2 ^ 31 <= Z.of_N c < 2 ^ 31)%Z as Hb by (unfold code_unit in Hc; lia).
  by rewrite (proj1 (int32_bits _) Hb n Hn).
Qed.

(** The running hash of every prefix is a 32-bit integer, so that multiplying
    it by 33 stays below 2^53 and is exact in a double; the seed is between 0 and
    2^31, and 2^31 itself is reached, so the seed is not always a 31-bit
    integer. *)
Theorem hash_bounds s :
  Forall code_unit s →
  (- 2 ^ 31 <= foldl hash_step 5381%Z s < 2 ^ 31)%Z ∧
  (Z.abs (foldl hash_step 5381%Z s * 33) < 2 ^ 53)%Z ∧
  (0 <= hashStringToSeed s <= 2 ^ 31)%Z ∧
  hashStringToSeed (js "sspraṦ") = (2 ^ 31)%Z.
Proof.
  intros Hs. assert (- 2 ^ 31 <= foldl hash_step 5381%Z s < 2 ^ 31)%Z as Hb.
  { destruct s as [|c s _] using rev_ind; [cbn; lia|]. rewrite foldl_app. cbn [foldl].
    apply hash_step_int32. apply Forall_app in Hs as [_ Hs]. by rewrite Forall_singleton in Hs. }
  split_and!; [lia|lia|lia| | |vm_compute; reflexivity];
    unfold hashStringToSeed; pose proof (to_int32_bound (foldl hash_step 5381%Z s)); lia.
Qed.

Lemma hash_bounds_witness : hashStringToSeed (js "gpt-4o") = 1400566640%Z ∧ (0 <= 1400566640 <= 2 ^ 31)%Z.
Proof.
  destruct (hash_bounds (js "gpt-4o")) as (_ & _ & H & _).
  - js_eval. repeat constructor.
  - split; [vm_compute; reflexivity|]. assert (hashStringToSeed (js "gpt-4o") = 1400566640%Z) as <-
      by (vm_compute; reflexivity). exact H.
Defined.

Lemma to_uint32_bound z : (0 <= to_uint32 z < 2 ^ 32)%Z.
Proof. apply Z.mod_pos_bound. lia. Qed.

(** The generator's state stays a 32-bit integer, the product of a step is
    below 2^53 and therefore exact in a double, and a step never maps two states
    to one: the sequence of a seed cannot collapse. *)
Theorem lcg_sound seed s t :
  (0 <= seed_state seed < 2 ^ 32)%Z ∧
  ((0 <= s < 2 ^ 32)%Z →
   (0 <= next_state s < 2 ^ 32)%Z ∧ (0 <= s * 1664525 + 1013904223 < 2 ^ 53)%Z ∧
   ((0 <= t < 2 ^ 32)%Z → next_state s = next_state t → s = t)).
Proof.
  split; [apply to_uint32_bound|]. intros Hs. split_and!; [apply to_uint32_bound..|lia|lia|].
  intros Ht E. unfold next_state, to_uint32 in E.
  assert ((s * 1664525 + 1013904223 - (t * 1664525 + 1013904223)) mod 2 ^ 32 = 0)%Z as Hm.
  { rewrite Zminus_mod, E, Z.sub_diag. done. }
  replace (s * 1664525 + 1013904223 - (t * 1664525 + 1013904223))%Z with (1664525 * (s - t))%Z in Hm by lia.
  apply Z.mod_divide in Hm; [|lia]. apply Z.gauss in Hm.
  - destruct Hm as [k Hk]. assert (k = 0)%Z; lia.
  - reflexivity.
Qed.

(** ** The model placeholder *)
Lemma get_substitution_plain before matched after t :
  (36 ∉ t)%N → get_substitution before matched after t = t.
Proof.
  induction t as [|c t IH]; [done|]. intros Hc. cbn [get_substitution].
  rewrite (proj2 (N.eqb_neq c 36)) by (intros ->; set_solver). by rewrite IH by set_solver.
Qed.

Lemma no_brace_prefix p s : (123 ∉ p)%N → p ≠ [] → prefixb (js "{model}") (p ++ s) = false.
Proof.
  intros Hp Hne. destruct p as [|c p]; [done|]. js_eval. cbn [app prefixb].
  rewrite (proj2 (N.eqb_neq 123 c)) by (intros <-; set_solver). done.
Qed.

Lemma exec_placeholder prev p s :
  (123 ∉ p)%N →
  ∃ q, re_exec model_re prev (p ++ js "{model}" ++ s) = Some (p, MState q s [(0, js "{model}")]).
Proof.
  revert prev; induction p as [|c p IH]; intros prev Hp.
  - eexists. cbn [app]. unfold model_re.
    assert (∀ s, re_exec (rlit (js "{model}")) prev (js "{model}" ++ s)
      = Some ([], MState (Some 125%N) s [(0, take (length (js "{model}" ++ s) - length s) (js "{model}" ++ s))]))
      as ->.
    { intros s'. reflexivity. }
    rewrite length_app, Nat.add_sub, take_app_length. done.
  - destruct (IH (Some c)) as [q Hq]; [set_solver|]. exists q.
    assert (re_match (RGroup 0 model_re) (MState prev ((c :: p) ++ js "{model}" ++ s) []) Some = None) as Hm.
    { rewrite re_match_group. apply re_match_lit_fail. by apply no_brace_prefix. }
    cbn [app] in *. cbn [re_exec]. by rewrite Hm, Hq.
Qed.

Lemma exec_no_placeholder prev p : (123 ∉ p)%N → re_exec model_re prev p = None.
Proof.
  revert prev; induction p as [|c p IH]; intros prev Hp; [done|].
  assert (re_match (RGroup 0 model_re) (MState prev (c :: p) []) Some = None) as Hm.
  { rewrite re_match_group. apply re_match_lit_fail. rewrite <- (app_nil_r (c :: p)). by apply no_brace_prefix. }
  cbn [re_exec]. rewrite Hm, IH by set_solver. done.
Qed.

Lemma replace_parts f prev done_ name parts :
  (36 ∉ name)%N → parts ≠ [] → Forall (λ p, 123%N ∉ p) parts → length (str_join (js "{model}") parts) < f →
  (let '(ms, tail) := re_all_go f model_re prev (str_join (js "{model}") parts) in
   replace_all_go done_ ms tail name) = str_join name parts.
Proof.
  intros Hn Hne Hp. revert f prev done_. induction Hp as [|p parts Hp Hps IH]; [done|]; intros f prev done_ Hf.
  destruct f as [|f]; [lia|]. destruct parts as [|p' parts].
  - cbn [str_join re_all_go]. by rewrite exec_no_placeholder.
  - rewrite !join_cons in * by done. cbn [re_all_go].
    destruct (exec_placeholder prev p (str_join (js "{model}") (p' :: parts)) Hp) as [q ->].
    cbn [m_rest m_prev]. rewrite !length_app in Hf.
    rewrite (proj2 (Nat.ltb_lt _ _)) by (rewrite !length_app; js_eval; cbn; lia).
    specialize (IH ltac:(done) f q (((done_ ++ p) ++ js "{model}"))).
    destruct (re_all_go f _ _ _) as [ms tail]. cbn [replace_all_go]. rewrite get_substitution_plain by done.
    change (capt _ 0) with (js "{model}").
    assert (length (js "{model}") = 7) as Hl by reflexivity. rewrite Hl in Hf. by rewrite IH by lia.
Qed.

(** In a path cut at its placeholders into parts without opening braces, every
    placeholder is replaced by the model name and nothing else changes, provided
    the name has no dollar sign (a name with one is expanded as a replacement
    pattern: the name [a$&] puts the placeholder back). *)
Theorem replace_model_in_path name parts :
  (36 ∉ name)%N → parts ≠ [] → Forall (λ p, 123%N ∉ p) parts →
  replaceModelInPath (str_join (js "{model}") parts) name = str_join name parts ∧
  replaceModelInPath (js "/v1/{model}") (js "a$&") = js "/v1/a{model}".
Proof.
  intros Hn Hne Hp. split; [|vm_compute; reflexivity]. unfold replaceModelInPath, re_all.
  pose proof (replace_parts (S (length (str_join (js "{model}") parts))) None [] name parts Hn Hne Hp) as H.
  destruct (re_all_go _ _ _ _). apply H. lia.
Qed.

Lemma replace_model_in_path_witness :
  replaceModelInPath (js "/v1/{model}:x/{model}") (js "gpt") = js "/v1/gpt:x/gpt".
Proof.
  apply (replace_model_in_path (js "gpt") [js "/v1/"; js ":x/"; []]).
  - by apply (bool_decide_eq_true_1 (36 ∉ js "gpt")%N).
  - intros E; discriminate E.
  - repeat constructor; by apply (bool_decide_eq_true_1 _).
Defined.

(** ** Sorting a concrete catalogue *)

Definition priced (name : jstr) (price : Z) : PricingModel :=
  {| model_id := price; model_name := name; description := None; vendor_name := None; quota_type := 0;
     model_ratio := num_of_Z price; model_price := None; enable_groups := [js "default"]; tags := None;
     supported_endpoint_types := None; group_ratio := None; billing_mode := None; billing_expr := None |}.

Definition demo_catalogue : list PricingModel := [priced (js "b") 3; priced (js "a") 15; priced (js "c") 1].

Definition demo_filters : Filters :=
  {| f_search := []; f_vendor := FILTER_ALL; f_group := js "default"; f_quotaType := QUOTA_TOKEN;
     f_endpointType := ENDPOINT_ALL; f_tag := FILTER_ALL; f_sortBy := SORT_PRICE_LOW |}.

Lemma sort_by_price_witness :
  let lc := ascii_lower_case in let co := code_unit_collation in
  map model_name (filterAndSortModels demo_catalogue demo_filters) = [js "c"; js "b"; js "a"] ∧
  StronglySorted (λ a b, diff_le (getModelPrice a) (getModelPrice b) = true)
    (filterAndSortModels demo_catalogue demo_filters).
Proof.
  intros lc co. split; [vm_compute; reflexivity|].
  apply (sort_by_price demo_catalogue demo_filters); [vm_compute; reflexivity|reflexivity].
Defined.

Definition tagged (name tagText : jstr) : PricingModel :=
  {| model_id := 0; model_name := name; description := None; vendor_name := None; quota_type := 0;
     model_ratio := num_of_Z 1; model_price := None; enable_groups := []; tags := Some tagText;
     supported_endpoint_types := None; group_ratio := None; billing_mode := None; billing_expr := None |}.

Definition demo_tagged : list PricingModel :=
  [tagged (js "m1") (js "Vision, chat"); tagged (js "m2") (js "chat;;Tools")].

Lemma filter_and_sort_spec_witness :
  let lc := ascii_lower_case in let co := code_unit_collation in
  filterAndSortModels demo_catalogue demo_filters ≡ₚ List.filter (model_matches demo_filters) demo_catalogue.
Proof. intros lc co. apply (filter_and_sort_spec demo_catalogue demo_filters). Defined.

Lemma tags_spec_witness :
  let lc := ascii_lower_case in let co := code_unit_collation in
  extractAllTags demo_tagged = [js "chat"; js "tools"; js "vision"] ∧
  filterByTag demo_tagged (js "chat") ≠ [].
Proof.
  intros lc co. split; [vm_compute; reflexivity|]. destruct (tags_spec demo_tagged) as (_ & _ & _ & H).
  apply (H (js "chat")); [|by intros E; discriminate E].
  assert (extractAllTags demo_tagged = [js "chat"; js "tools"; js "vision"]) as -> by (vm_compute; reflexivity).
  left.
Defined.
