(* ===== verification/Charts.v ===== *)
(** * Charts of the dashboard

    Model of [processChartData] and [processUserChartData] in
    [web/default/src/features/dashboard/lib/charts.ts], of [stats.ts] beside it and of
    [formatChartTime] in [web/default/src/lib/time.ts]: usage records are added up by time
    label and by model or user, and turned into the values of the charts.

    Amounts and counts are whole numbers; every addition of the code rounds to binary64
    ([dadd]), and amounts of money are binary64 values with four fraction digits.  Local
    calendar dates, which the library [dayjs] prints, are a parameter, as is the order of
    [localeCompare].
    What the chart library draws, colours and texts of tooltips are not modelled. *)

From S2P Require Import Prelude JsString JsNumber NumRounding NumDecimals Pricing.
From Stdlib Require Import NArith ZArith.

(** ** Time labels *)

Inductive TimeGranularity := Hour | Day | Week.

(** [dayjs(t * 1000)]: its month and day, its hour, and the time some days later. *)
Class Clock := {
  month_day : Z → jstr;
  hour : Z → jstr;
  add_days : Z → Z → Z;
}.

Definition formatChartTime `{Clock} (timestamp : Z) (granularity : TimeGranularity) : jstr :=
  let result := month_day timestamp in
  match granularity with
  | Hour => result ++ js " " ++ hour timestamp ++ js ":00"
  | Week => result ++ js " - " ++ month_day (add_days timestamp 6)
  | Day => result
  end.

(** ** Records and totals *)

(** A missing number is 0 and a missing name is empty. *)
Record QuotaDataItem := {
  username : jstr;
  model_name : jstr;
  created_at : Z;
  token_used : Z;
  count : Z;
  quota : Z;
}.

Record stats := { s_quota : Z; s_count : Z; s_tokens : Z }.

Definition no_stats : stats := {| s_quota := 0; s_count := 0; s_tokens := 0 |}.

Definition add_stats (a b : stats) : stats :=
  {| s_quota := dadd (s_quota a) (s_quota b); s_count := dadd (s_count a) (s_count b); s_tokens := dadd (s_tokens a) (s_tokens b) |}.

Definition item_stats (i : QuotaDataItem) : stats := {| s_quota := quota i; s_count := count i; s_tokens := token_used i |}.

Definition calculateDashboardStats (data : list QuotaDataItem) : stats :=
  foldl (λ acc i, add_stats acc (item_stats i)) no_stats data.

(** A [Map]: entries in the order in which their keys were first set. *)
Fixpoint map_get {A} (k : jstr) (m : list (jstr * A)) : option A :=
  match m with
  | [] => None
  | (k', v) :: m => if str_eqb k' k then Some v else map_get k m
  end.

Fixpoint map_set {A} (k : jstr) (v : A) (m : list (jstr * A)) : list (jstr * A) :=
  match m with
  | [] => [(k, v)]
  | (k', v') :: m => if str_eqb k' k then (k, v) :: m else (k', v') :: map_set k v m
  end.

(** [map.set(key, (map.get(key) || none) + amount)]. *)
Definition map_add {A} (none : A) (add : A → A → A) (m : list (jstr * A)) (k : jstr) (v : A) : list (jstr * A) :=
  map_set k (add (default none (map_get k m)) v) m.

(** [item.model_name || 'Unknown']. *)
Definition model_of (i : QuotaDataItem) : jstr := if nonempty (model_name i) then model_name i else js "Unknown".
Definition user_of (i : QuotaDataItem) : jstr := if nonempty (username i) then username i else js "unknown".

Section charts.
Context `{Clock} `{Collation}.
Variable timeGranularity : TimeGranularity.

Definition label (i : QuotaDataItem) : jstr := formatChartTime (created_at i) timeGranularity.

Abbreviation totals := (list (jstr * stats)).

Definition aggregate_item (st : list (jstr * totals) * totals) (i : QuotaDataItem) : list (jstr * totals) * totals :=
  let '(timeModelMap, modelTotalsMap) := st in
  let modelMap := default [] (map_get (label i) timeModelMap) in
  (map_set (label i) (map_add no_stats add_stats modelMap (model_of i) (item_stats i)) timeModelMap,
   map_add no_stats add_stats modelTotalsMap (model_of i) (item_stats i)).

Definition aggregate (data : list QuotaDataItem) : list (jstr * totals) * totals := foldl aggregate_item ([], []) data.

(** [timeModelMap.get(time)?.get(model)]. *)
Definition at_time (timeModelMap : list (jstr * totals)) (time model : jstr) : stats :=
  default no_stats (m ← map_get time timeModelMap; map_get model m).

(** ** Points in time *)

Definition MAX_CHART_TREND_POINTS : nat := 7.

Definition intervalSec : Z := match timeGranularity with Week => 604800 | Day => 86400 | Hour => 3600 end.

(** [times.sort()] orders by code units. *)
Definition sort_texts (l : list jstr) : list jstr := stable_sort str_leb l.

Definition fillTimePoints (data : list QuotaDataItem) (times : list jstr) : list jstr :=
  if (MAX_CHART_TREND_POINTS <=? length times) then times
  else
    let lastTime := match map created_at data with [] => 0%Z | t :: l => foldl Z.max t l end in
    map (λ i, formatChartTime (lastTime - (Z.of_nat MAX_CHART_TREND_POINTS - 1 - Z.of_nat i) * intervalSec) timeGranularity)
      (seq 0 MAX_CHART_TREND_POINTS).

Definition chartTimes (data : list QuotaDataItem) : list jstr :=
  fillTimePoints data (sort_texts (map fst (aggregate data).1)).

(** ** Values of the charts *)

(** [a.sort((x, y) => key(y) - key(x))]. *)
Definition sort_desc {A} (key : A → Z) (l : list A) : list A := stable_sort (λ x y, (key y <=? key x)%Z) l.

Record point := { Time : jstr; Series : jstr; rawQuota : Z; Usage : num; TimeSum : Z }.
Record call_point := { c_Time : jstr; c_Model : jstr; Count : Z }.

Definition by_time (l : list point) : list point := stable_sort (λ a b, locale_le (Time a) (Time b)) l.
Definition calls_by_time (l : list call_point) : list call_point := stable_sort (λ a b, locale_le (c_Time a) (c_Time b)) l.

(** [l.reduce((sum, x) => sum + f(x), 0)]. *)
Definition dsum {A} (f : A → Z) (l : list A) : Z := foldl (λ sum x, dadd sum (f x)) 0%Z l.

Variable quotaPerUnit : num.

(** [Number(usd.toFixed(4))]. *)
Definition round4 (x : num) : num := to_number (toFixed x 4).

Definition usage_of (raw : Z) : num :=
  let usd := if (raw =? 0)%Z then nzero else ndiv (num_of_Z raw) quotaPerUnit in
  if num_truthy usd then round4 usd else nzero.

Variable otherLabel : jstr.

Section data.
Variable data : list QuotaDataItem.
Let timeModelMap := (aggregate data).1.
Let modelTotalsMap := (aggregate data).2.

Definition sortedModels : list jstr := sort_texts (map fst modelTotalsMap).

Definition totalTimes : Z := dsum (λ e, s_count e.2) modelTotalsMap.
Definition totalQuotaRaw : Z := dsum (λ e, s_quota e.2) modelTotalsMap.

Definition pieValues : list (jstr * Z) := sort_desc snd (map (λ e, (e.1, s_count e.2)) modelTotalsMap).

Definition line_points (time : jstr) : list point :=
  let timeData := map (λ model,
    let raw := s_quota (at_time timeModelMap time model) in
    {| Time := time; Series := model; rawQuota := raw; Usage := usage_of raw; TimeSum := 0 |}) sortedModels in
  let timeSum := dsum rawQuota timeData in
  map (λ p, {| Time := Time p; Series := Series p; rawQuota := rawQuota p; Usage := Usage p; TimeSum := timeSum |})
    (sort_desc rawQuota timeData).

Definition lineValues : list point := by_time (concat (map line_points (chartTimes data))).

Definition MAX_AREA_MODELS : nat := 15.

Definition rankedQuotaModels : list (jstr * Z) := sort_desc snd (map (λ e, (e.1, s_quota e.2)) modelTotalsMap).

Definition topAreaModels : list jstr := map fst (take MAX_AREA_MODELS rankedQuotaModels).

Definition bucket_of (model : jstr) : jstr := if bool_decide (model ∈ topAreaModels) then model else otherLabel.

(** The buckets of a point: the top models, and the others together. *)
Definition add_bucket (time : jstr) (buckets : list (jstr * (Z * num))) (model : jstr) : list (jstr * (Z * num)) :=
  let raw := s_quota (at_time timeModelMap time model) in
  let key := bucket_of model in
  map_add (0%Z, nzero) (λ prev v, (dadd prev.1 v.1, round4 (nadd prev.2 v.2))) buckets key (raw, usage_of raw).

Definition area_points (time : jstr) : list point :=
  let timeSum := dsum (λ model, s_quota (at_time timeModelMap time model)) sortedModels in
  map (λ e, {| Time := time; Series := e.1; rawQuota := e.2.1; Usage := e.2.2; TimeSum := timeSum |})
    (foldl (add_bucket time) [] sortedModels).

Definition areaValues : list point := by_time (concat (map area_points (chartTimes data))).

Definition MAX_TREND_MODELS : nat := 20.

Definition rankedTrendModels : list (jstr * Z) := sort_desc snd (map (λ e, (e.1, s_count e.2)) modelTotalsMap).
Definition topTrendModels : list jstr := map fst (take MAX_TREND_MODELS rankedTrendModels).
Definition otherTrendModels : list jstr := map fst (drop MAX_TREND_MODELS rankedTrendModels).

Definition trend_points (time : jstr) : list call_point :=
  map (λ model, {| c_Time := time; c_Model := model; Count := s_count (at_time timeModelMap time model) |}) topTrendModels
  ++ match otherTrendModels with
     | [] => []
     | others => [{| c_Time := time; c_Model := otherLabel; Count := dsum (λ model, s_count (at_time timeModelMap time model)) others |}]
     end.

Definition modelLineValues : list call_point := calls_by_time (concat (map trend_points (chartTimes data))).

Definition MAX_RANK_MODELS : nat := 20.

Definition rankValues : list (jstr * Z) :=
  if MAX_RANK_MODELS <? length rankedTrendModels
  then take MAX_RANK_MODELS rankedTrendModels ++ [(otherLabel, dsum snd (drop MAX_RANK_MODELS rankedTrendModels))]
  else rankedTrendModels.

(** ** Users *)

Variable limit : nat.

Definition userQuotaTotal : list (jstr * Z) := foldl (λ m i, map_add 0%Z dadd m (user_of i) (quota i)) [] data.
Definition sorted_users : list (jstr * Z) := sort_desc snd userQuotaTotal.
Definition topUsers : list jstr := map fst (take limit sorted_users).
Definition totalQuota : Z := dsum snd (take limit sorted_users).

Definition time_user_step (st : list (jstr * list (jstr * Z)) * list jstr) (i : QuotaDataItem) : list (jstr * list (jstr * Z)) * list jstr :=
  let '(timeUserMap, allTimePoints) := st in
  (if bool_decide (user_of i ∈ topUsers)
   then map_set (label i) (map_add 0%Z dadd (default [] (map_get (label i) timeUserMap)) (user_of i) (quota i)) timeUserMap
   else timeUserMap,
   allTimePoints ++ [label i]).

Definition timeUsers : list (jstr * list (jstr * Z)) * list jstr := foldl time_user_step ([], []) data.

Definition sortedTimePoints : list jstr := sort_texts (dedup timeUsers.2).

Definition trendValues : list (jstr * jstr * Z) :=
  concat (map (λ time, map (λ user, (time, user, default 0%Z (m ← map_get time timeUsers.1; map_get user m))) topUsers) sortedTimePoints).

End data.
End charts.

(** ** Exact sums *)

Definition zsum {A} (f : A → Z) (l : list A) : Z := foldr (λ x s, f x + s)%Z 0%Z l.

(** Amounts that are not negative and that JavaScript adds exactly. *)
Definition fits {A} (f : A → Z) (l : list A) : Prop := (∀ x, x ∈ l → 0 <= f x)%Z ∧ (zsum f l < 2 ^ 53)%Z.

Lemma zsum_cons {A} (f : A → Z) x l : zsum f (x :: l) = (f x + zsum f l)%Z.
Proof. done. Qed.

Lemma zsum_app {A} (f : A → Z) l l' : zsum f (l ++ l') = (zsum f l + zsum f l')%Z.
Proof. unfold zsum. induction l as [|x l IH]; cbn [app foldr]; lia. Qed.

Lemma zsum_snoc {A} (f : A → Z) l x : zsum f (l ++ [x]) = (zsum f l + f x)%Z.
Proof. rewrite zsum_app. cbn. lia. Qed.

#[export] Instance zsum_proper {A} (f : A → Z) : Proper ((≡ₚ) ==> (=)) (zsum f).
Proof. intros l l' Hl. unfold zsum. induction Hl; cbn [foldr] in *; lia. Qed.

Lemma zsum_map {A B} (f : B → Z) (g : A → B) l : zsum f (map g l) = zsum (λ x, f (g x)) l.
Proof. unfold zsum. induction l as [|x l IH]; cbn [map foldr] in *; lia. Qed.

Lemma zsum_ext {A} (f g : A → Z) l : (∀ x, x ∈ l → f x = g x) → zsum f l = zsum g l.
Proof. induction l as [|x l IH]; intros Hfg; cbn; [done|]. rewrite Hfg by by left. f_equal. apply IH. intros y Hy. apply Hfg. by right. Qed.

Lemma zsum_le {A} (f g : A → Z) l : (∀ x, x ∈ l → 0 <= f x <= g x)%Z → (0 <= zsum f l <= zsum g l)%Z.
Proof.
  induction l as [|x l IH]; intros Hfg; [cbn; lia|]. rewrite !zsum_cons. specialize (IH ltac:(intros; apply Hfg; by right)).
  specialize (Hfg x ltac:(by left)). lia.
Qed.

Lemma zsum_zero {A} (l : list A) : zsum (λ _, 0%Z) l = 0%Z.
Proof. unfold zsum. induction l as [|x l IH]; cbn [map foldr] in *; lia. Qed.

Lemma zsum_plus {A} (f g : A → Z) l : zsum (λ x, f x + g x)%Z l = (zsum f l + zsum g l)%Z.
Proof. unfold zsum. induction l as [|x l IH]; cbn [map foldr] in *; lia. Qed.

Lemma zsum_concat {A B} (f : B → Z) (g : A → list B) l : zsum f (concat (map g l)) = zsum (λ x, zsum f (g x)) l.
Proof. induction l as [|x l IH]; [done|]. cbn [map concat]. rewrite zsum_app, IH. done. Qed.

Lemma zsum_sort {A} (f : A → Z) le l : zsum f (stable_sort le l) = zsum f l.
Proof. apply zsum_proper, stable_sort_perm. Qed.

Lemma zsum_filter {A} (p : A → bool) (f : A → Z) l : zsum f (List.filter p l) = zsum (λ x, if p x then f x else 0%Z) l.
Proof. induction l as [|x l IH]; [done|]. cbn [List.filter]. rewrite zsum_cons, <- IH. by destruct (p x). Qed.

(** The one element of a list that a key belongs to. *)
Lemma zsum_one {A} `{EqDecision A} (k : A) (x : Z) l :
  NoDup l → zsum (λ k', if bool_decide (k = k') then x else 0%Z) l = if bool_decide (k ∈ l) then x else 0%Z.
Proof.
  induction 1 as [|k' l Hk' Hl IH]; [done|]. rewrite zsum_cons, IH.
  repeat case_bool_decide; try (lia || set_solver).
Qed.

(** Adding up by key and then over the keys adds up everything. *)
Lemma zsum_by_key {A K} `{EqDecision K} (key : A → K) (f : A → Z) keys l :
  NoDup keys → zsum (λ k, zsum (λ x, if bool_decide (key x = k) then f x else 0%Z) l) keys =
  zsum (λ x, if bool_decide (key x ∈ keys) then f x else 0%Z) l.
Proof.
  intros Hk. induction l as [|x l IH]; [apply zsum_zero|].
  rewrite zsum_cons, <- IH, <- (zsum_one (key x) (f x) keys Hk), <- zsum_plus. done.
Qed.

Lemma fits_snoc {A} (f : A → Z) l x : fits f (l ++ [x]) → fits f l ∧ (0 <= f x)%Z ∧ (zsum f l + f x < 2 ^ 53)%Z.
Proof.
  intros [Hp Hs]. rewrite zsum_snoc in Hs. assert (0 <= f x)%Z by (apply Hp; set_solver).
  split; [|done]. split; [intros y Hy; apply Hp; set_solver|lia].
Qed.

(** A part of amounts that fit fits. *)
Lemma fits_part {A} (f g : A → Z) l : fits g l → (∀ x, x ∈ l → f x = 0 ∨ f x = g x)%Z → fits f l ∧ (0 <= zsum f l <= zsum g l)%Z.
Proof.
  intros [Hp Hs] Hf. assert (∀ x, x ∈ l → 0 <= f x <= g x)%Z as Hle by (intros x Hx; specialize (Hp x Hx); destruct (Hf x Hx); lia).
  pose proof (zsum_le f g l Hle). split; [split; [intros; by apply Hle|lia]|done].
Qed.

Lemma fits_perm {A} (f : A → Z) l l' : l ≡ₚ l' → fits f l → fits f l'.
Proof. intros Hp [H1 H2]. split; [intros x Hx; apply H1; by rewrite Hp|by rewrite <- Hp]. Qed.

Lemma dsum_exact {A} (f : A → Z) l : fits f l → dsum f l = zsum f l.
Proof.
  induction l as [|x l IH] using rev_ind; [done|]. intros (Hl & Hx & Hs)%fits_snoc. unfold dsum in *. rewrite foldl_app, zsum_snoc. cbn [foldl].
  rewrite IH by done. apply dadd_exact; [|done..]. by destruct (fits_part f f l Hl) as [_ ?]; [by right|lia].
Qed.

(** ** Maps *)
Lemma map_get_set {A} k k' (v : A) m : map_get k' (map_set k v m) = if str_eqb k k' then Some v else map_get k' m.
Proof.
  induction m as [|[j w] m IH]; cbn [map_set map_get]; [done|]. destruct (str_eqb j k) eqn:E; cbn [map_get].
  - apply bool_decide_eq_true in E as ->. by destruct (str_eqb k k').
  - rewrite IH. unfold str_eqb in *. apply bool_decide_eq_false in E. repeat case_bool_decide; congruence.
Qed.

Lemma map_add_get {A} (none : A) add m k v k' :
  default none (map_get k' (map_add none add m k v)) =
  if bool_decide (k = k') then add (default none (map_get k' m)) v else default none (map_get k' m).
Proof. unfold map_add. rewrite map_get_set. unfold str_eqb. by case_bool_decide as E; [subst|]. Qed.

Lemma map_set_keys {A} k (v : A) m : map fst (map_set k v m) = if bool_decide (k ∈ map fst m) then map fst m else map fst m ++ [k].
Proof.
  induction m as [|[j w] m IH]; cbn [map_set map fst]; [done|]. unfold str_eqb. destruct (decide (j = k)) as [->|Hj].
  - rewrite (bool_decide_eq_true_2 (k = k)), bool_decide_eq_true_2 by (done || by left). done.
  - rewrite (bool_decide_eq_false_2 (j = k)) by done. cbn [map fst]. rewrite IH. repeat case_bool_decide; try done; set_solver.
Qed.

Lemma map_set_nodup {A} k (v : A) m : NoDup (map fst m) → NoDup (map fst (map_set k v m)).
Proof.
  intros Hm. rewrite map_set_keys. case_bool_decide; [done|]. apply NoDup_app. split_and!; [done| |apply NoDup_singleton].
  intros x Hx ->%list_elem_of_singleton. done.
Qed.

Lemma map_set_in {A} k (v : A) m x : x ∈ map fst (map_set k v m) ↔ x = k ∨ x ∈ map fst m.
Proof. rewrite map_set_keys. case_bool_decide; set_solver. Qed.

Lemma map_set_length {A} k (v : A) m : length (map_set k v m) ≤ S (length m).
Proof.
  rewrite <- !(length_map fst), map_set_keys. case_bool_decide; [lia|]. rewrite length_app. cbn [length]. lia.
Qed.

Lemma map_get_elem {A} k (v : A) m : NoDup (map fst m) → (k, v) ∈ m → map_get k m = Some v.
Proof.
  induction m as [|[j w] m IH]; cbn [map map_get fst]; [set_solver|]. intros [Hj Hn]%NoDup_cons [E|Hin]%elem_of_cons.
  - injection E as -> ->. unfold str_eqb. by rewrite bool_decide_eq_true_2.
  - unfold str_eqb. rewrite bool_decide_eq_false_2; [by apply IH|]. intros ->. apply Hj, list_elem_of_fmap. by exists (k, v).
Qed.

(** The entries of a map are the values of its keys. *)
Lemma map_entries {A} (none : A) m : NoDup (map fst m) → m = map (λ k, (k, default none (map_get k m))) (map fst m).
Proof.
  intros Hn. rewrite map_map. rewrite <- (map_id m) at 1. apply map_ext_in. intros [k v] Hin%list_elem_of_In. cbn [fst].
  by rewrite (map_get_elem k v m Hn Hin).
Qed.

(** ** What is added up *)

Class Additive (g : stats → Z) := {
  additive_zero : g no_stats = 0%Z;
  additive_add a b : g (add_stats a b) = dadd (g a) (g b);
}.

#[export] Instance quota_additive : Additive s_quota.
Proof. by split. Qed.

#[export] Instance count_additive : Additive s_count.
Proof. by split. Qed.

(** Amounts of records. *)
Abbreviation amount g := (λ i, g (item_stats i)).

(** A sum that gets one more amount stays exact. *)
Lemma add_next {A} (part : A → bool) (f : A → Z) l x : fits f (l ++ [x]) → 
  let sum := zsum (λ y, if part y then f y else 0%Z) in
  sum (l ++ [x]) = if part x then dadd (sum l) (f x) else sum l.
Proof.
  intros (Hl & Hx & Hs)%fits_snoc. cbv zeta. rewrite zsum_snoc.
  destruct (fits_part (λ y, if part y then f y else 0%Z) f l Hl) as [_ Hb]; [intros y _; destruct (part y); auto|].
  destruct (part x); [rewrite dadd_exact; lia|lia].
Qed.

Section totals.
Context `{Clock}.
Variable granularity : TimeGranularity.
Implicit Types data : list QuotaDataItem.

Lemma aggregate_snoc data i : aggregate granularity (data ++ [i]) = aggregate_item granularity (aggregate granularity data) i.
Proof. unfold aggregate. by rewrite foldl_app. Qed.

Lemma aggregate_keys data :
  let '(times, models) := aggregate granularity data in
  (NoDup (map fst times) ∧ ∀ x, x ∈ map fst times ↔ ∃ i, i ∈ data ∧ label granularity i = x) ∧
  (NoDup (map fst models) ∧ ∀ x, x ∈ map fst models ↔ ∃ i, i ∈ data ∧ model_of i = x).
Proof.
  induction data as [|i data IH] using rev_ind.
  { cbn. split; (split; [constructor|set_solver]). }
  rewrite aggregate_snoc. destruct (aggregate granularity data) as [times models]. destruct IH as [[Ht1 Ht2] [Hm1 Hm2]]. cbn [aggregate_item].
  split; (split; [by apply map_set_nodup|]); intros x; unfold map_add; rewrite map_set_in, ?Ht2, ?Hm2; setoid_rewrite elem_of_app;
    setoid_rewrite list_elem_of_singleton; naive_solver.
Qed.

Lemma models_length data : length (aggregate granularity data).2 ≤ length data.
Proof.
  induction data as [|i data IH] using rev_ind; [done|]. rewrite aggregate_snoc, length_app.
  destruct (aggregate granularity data) as [times models]. cbn [aggregate_item snd length] in *. unfold map_add.
  etransitivity; [apply map_set_length|]. lia.
Qed.

(** What a model used in all, and under a label. *)
Definition model_total (g : stats → Z) data (model : jstr) : Z :=
  zsum (λ i, if bool_decide (model_of i = model) then g (item_stats i) else 0%Z) data.

Definition used (g : stats → Z) data (time model : jstr) : Z :=
  zsum (λ i, if bool_decide (model_of i = model ∧ label granularity i = time) then g (item_stats i) else 0%Z) data.

(** All that happened under a label. *)
Definition time_total (g : stats → Z) data (time : jstr) : Z :=
  zsum (λ i, if bool_decide (label granularity i = time) then g (item_stats i) else 0%Z) data.

Lemma models_get g `{Additive g} data model : fits (amount g) data →
  g (default no_stats (map_get model (aggregate granularity data).2)) = model_total g data model.
Proof.
  induction data as [|i data IH] using rev_ind; intros Hf; [apply additive_zero|].
  unfold model_total. rewrite (add_next (λ i, bool_decide (model_of i = model))) by done. cbv beta. fold (model_total g data model).
  rewrite <- IH by (by apply fits_snoc in Hf as []). rewrite aggregate_snoc.
  destruct (aggregate granularity data) as [times models]. cbn [aggregate_item snd]. rewrite map_add_get.
  case_bool_decide; [apply additive_add|done].
Qed.

Lemma at_time_get g `{Additive g} data time model : fits (amount g) data →
  g (at_time (aggregate granularity data).1 time model) = used g data time model.
Proof.
  induction data as [|i data IH] using rev_ind; intros Hf; [apply additive_zero|].
  unfold used. rewrite (add_next (λ i, bool_decide (model_of i = model ∧ label granularity i = time))) by done. cbv beta. fold (used g data time model).
  rewrite <- IH by (by apply fits_snoc in Hf as []). rewrite aggregate_snoc.
  destruct (aggregate granularity data) as [times models]. cbn [aggregate_item fst]. unfold at_time. rewrite map_get_set. unfold str_eqb.
  destruct (decide (label granularity i = time)) as [<-|Ht].
  - rewrite (bool_decide_eq_true_2 (label granularity i = label granularity i)) by done. cbn [mbind option_bind]. rewrite map_add_get.
    assert (default no_stats (m ← map_get (label granularity i) times; map_get model m) =
      default no_stats (map_get model (default [] (map_get (label granularity i) times)))) as -> by by destruct (map_get _ times).
    repeat case_bool_decide; [apply additive_add|naive_solver..|done].
  - rewrite (bool_decide_eq_false_2 (label granularity i = time)), bool_decide_eq_false_2 by naive_solver. done.
Qed.

Lemma aggregate_models data : (aggregate granularity data).2 ≡ₚ
  map (λ k, (k, default no_stats (map_get k (aggregate granularity data).2))) (map fst (aggregate granularity data).2).
Proof. pose proof (aggregate_keys data) as Hk. destruct (aggregate granularity data). rewrite <- map_entries by apply Hk. done. Qed.

Lemma models_in data i : i ∈ data → model_of i ∈ map fst (aggregate granularity data).2.
Proof. intros Hi. pose proof (aggregate_keys data) as Hk. destruct (aggregate granularity data). apply Hk. eauto. Qed.

Lemma models_nodup data : NoDup (map fst (aggregate granularity data).2).
Proof. pose proof (aggregate_keys data) as Hk. destruct (aggregate granularity data). apply Hk. Qed.

Lemma totals_sum g `{Additive g} data : fits (amount g) data →
  zsum (λ e, g e.2) (aggregate granularity data).2 = zsum (amount g) data ∧ fits (λ e, g e.2) (aggregate granularity data).2.
Proof.
  intros Hf. assert (zsum (λ e, g e.2) (aggregate granularity data).2 = zsum (amount g) data) as E.
  { rewrite (aggregate_models data) at 1. rewrite zsum_map. cbn [snd].
    rewrite (zsum_ext _ (model_total g data)) by (intros; by apply models_get). unfold model_total. rewrite zsum_by_key by apply models_nodup.
    apply zsum_ext. intros i Hi. by rewrite bool_decide_eq_true_2 by by apply models_in. }
  split; [done|]. split; [|rewrite E; apply Hf]. intros e He. rewrite (aggregate_models data) in He.
  apply list_elem_of_fmap in He as (k & -> & _). cbn [snd]. rewrite models_get by done.
  destruct (fits_part (λ i, if bool_decide (model_of i = k) then g (item_stats i) else 0%Z) (amount g) data Hf) as [_ ?];
    [intros i _; case_bool_decide; auto|unfold model_total; lia].
Qed.

Lemma used_bounds g data time model : fits (amount g) data → (0 <= used g data time model <= zsum (amount g) data)%Z.
Proof. intros Hf. apply (fits_part _ _ _ Hf). intros i _. case_bool_decide; auto. Qed.

Lemma models_sum g data time models :
  models ≡ₚ map fst (aggregate granularity data).2 → zsum (used g data time) models = time_total g data time.
Proof.
  intros Hp. rewrite Hp. unfold time_total.
  rewrite (zsum_ext _ (λ model, zsum (λ i, if bool_decide (model_of i = model) then (if bool_decide (label granularity i = time) then g (item_stats i) else 0%Z) else 0%Z) data)).
  2: { intros model _. apply zsum_ext. intros i _. repeat case_bool_decide; naive_solver. }
  rewrite zsum_by_key by apply models_nodup. apply zsum_ext. intros i Hi. by rewrite bool_decide_eq_true_2 by by apply models_in.
Qed.

Lemma time_total_bounds g data time : fits (amount g) data → (0 <= time_total g data time <= zsum (amount g) data)%Z.
Proof. intros Hf. apply (fits_part _ _ _ Hf). intros i _. case_bool_decide; auto. Qed.

Lemma used_fits g data time models : fits (amount g) data → models ≡ₚ map fst (aggregate granularity data).2 →
  fits (used g data time) models.
Proof.
  intros Hf Hp. split; [intros m _; by apply used_bounds|]. rewrite (models_sum g data time models Hp).
  pose proof (time_total_bounds g data time Hf). destruct Hf. lia.
Qed.

Lemma times_sum g data times :
  times ≡ₚ map fst (aggregate granularity data).1 → zsum (time_total g data) times = zsum (amount g) data.
Proof.
  intros Hp. rewrite Hp. pose proof (aggregate_keys data) as Hk. destruct (aggregate granularity data) as [ts ms] eqn:E.
  destruct Hk as [[Hn Hin] _]. cbn [fst]. unfold time_total. rewrite zsum_by_key by done.
  apply zsum_ext. intros i Hi. rewrite bool_decide_eq_true_2; [done|]. apply Hin. eauto.
Qed.

Lemma stats_sum g `{Additive g} data : fits (amount g) data → g (calculateDashboardStats data) = zsum (amount g) data.
Proof.
  intros Hf. rewrite <- dsum_exact by done. clear Hf. unfold calculateDashboardStats, dsum.
  induction data as [|i data IH] using rev_ind; [apply additive_zero|]. rewrite !foldl_app. cbn [foldl]. by rewrite additive_add, IH.
Qed.
End totals.

(** ** The charts *)

Section sums.
Context `{Clock} `{Collation}.
Variable granularity : TimeGranularity.
Variable otherLabel : jstr.
Implicit Types data : list QuotaDataItem.

Lemma sorted_models data : sortedModels granularity data ≡ₚ map fst (aggregate granularity data).2.
Proof. apply stable_sort_perm. Qed.

Lemma ranked_perm data (f : stats → Z) :
  map fst (sort_desc snd (map (λ e, (e.1, f e.2)) (aggregate granularity data).2)) ≡ₚ map fst (aggregate granularity data).2.
Proof. unfold sort_desc. rewrite stable_sort_perm, map_map. cbn [fst]. done. Qed.

(** *** Amounts of money *)

(** The ten-thousandths of a unit that stand for an amount. *)
Definition units (q raw : Z) : Z := units4 (ndiv (num_of_Z raw) (num_of_Z q)).

Lemma units_spec q raw : (0 < q < 2 ^ 53)%Z → (0 <= raw < 2 ^ 53)%Z → (raw <= 2 ^ 36 * q)%Z →
  usage_of (num_of_Z q) raw = dec4 (units q raw) ∧ (0 <= units q raw)%Z ∧ (Z.abs (units q raw * q - 10000 * raw) < q)%Z.
Proof.
  intros Hq Hraw Hle. unfold usage_of, units. destruct (Z.eqb_spec raw 0) as [->|Hne].
  - assert (ndiv (num_of_Z 0) (num_of_Z q) = nzero) as ->; [|split_and!; [done|done|cbn; lia]].
    destruct (num_of_Z_exact q Hq) as (m & e & -> & _). done.
  - destruct (div_fixed4 raw q) as (-> & E & Hu & Ha); [lia..|]. done.
Qed.

(** The total of the units of some models stays in the range in which they are added exactly. *)
Lemma units_total q data time models : (0 < q < 2 ^ 53)%Z → fits (amount s_quota) data →
  (zsum (amount s_quota) data <= 2 ^ 36 * q)%Z → (Z.of_nat (length data) <= 2 ^ 40)%Z →
  models ⊆+ sortedModels granularity data →
  (0 <= zsum (λ m, units q (used granularity s_quota data time m)) models <= 2 ^ 50)%Z.
Proof.
  intros Hq Hf Ht Hl Hsub.
  assert (∀ m, usage_of (num_of_Z q) (used granularity s_quota data time m) = dec4 (units q (used granularity s_quota data time m)) ∧
    0 <= units q (used granularity s_quota data time m) ∧
    units q (used granularity s_quota data time m) * q <= 10000 * used granularity s_quota data time m + q)%Z as Hu.
  { intros m. pose proof (used_bounds granularity s_quota data time m Hf). destruct Hf as [_ Hs].
    destruct (units_spec q (used granularity s_quota data time m)) as (? & ? & ?); [lia..|]. split_and!; [done..|lia]. }
  set (u := λ m, units q (used granularity s_quota data time m)) in *.
  assert (zsum u models * q <= 10000 * zsum (used granularity s_quota data time) models + Z.of_nat (length models) * q)%Z as Hb.
  { clear Hsub. induction models as [|m models IH]; [cbn; lia|]. rewrite !zsum_cons. destruct (Hu m) as (_ & _ & ?). cbn [length]. unfold u at 1. lia. }
  destruct (submseteq_Permutation _ _ Hsub) as [rest Hp].
  pose proof (models_sum granularity s_quota data time _ (sorted_models data)) as Hm. rewrite Hp, zsum_app in Hm.
  pose proof (time_total_bounds granularity s_quota data time Hf).
  assert (0 <= zsum (used granularity s_quota data time) rest)%Z by (apply (zsum_le _ (used granularity s_quota data time)); intros m _; pose proof (used_bounds granularity s_quota data time m Hf); lia).
  assert (length models ≤ length data).
  { apply submseteq_length in Hsub. rewrite (Permutation_length (sorted_models data)), length_map in Hsub. pose proof (models_length granularity data). lia. }
  split; [apply (zsum_le u u); intros m _; destruct (Hu m) as (_ & ? & _); unfold u; lia|]. nia.
Qed.

(** *** Points of the charts *)

(** The models of a bucket. *)
Definition bucket_models data (key : jstr) (models : list jstr) : list jstr :=
  List.filter (λ m, bool_decide (bucket_of granularity otherLabel data m = key)) models.

(** Records of which JavaScript computes the sums exactly, and amounts that are drawn exactly. *)
Record drawable (q : Z) data : Prop := {
  whole_unit : (0 < q < 2 ^ 53)%Z;
  quotas_fit : fits quota data;
  counts_fit : fits count data;
  money_fits : (zsum quota data <= 2 ^ 36 * q)%Z;
  records_fit : (Z.of_nat (length data) <= 2 ^ 40)%Z;
}.

Section points.
Variables (q : Z) (data : list QuotaDataItem) (time : jstr).
Hypothesis Hd : drawable q data.
Let Hq : fits (amount s_quota) data := quotas_fit q data Hd.
Let Hc : fits (amount s_count) data := counts_fit q data Hd.
Abbreviation spent := (used granularity s_quota data time).
Abbreviation drawn := (λ m, units q (used granularity s_quota data time m)).

Lemma drawn_total models : models ⊆+ sortedModels granularity data → (0 <= zsum drawn models <= 2 ^ 50)%Z.
Proof. pose proof Hd as []. by apply units_total. Qed.

Lemma spent_fits models : models ⊆+ sortedModels granularity data → fits spent models.
Proof.
  intros Hs. destruct (used_fits granularity s_quota data time _ Hq (sorted_models data)) as [Hp Ht].
  destruct (submseteq_Permutation _ _ Hs) as [rest Hr]. rewrite Hr, zsum_app in Ht.
  assert (∀ l, 0 <= zsum spent l)%Z as H1 by (intros l; apply (zsum_le spent spent); intros m _; pose proof (used_bounds granularity s_quota data time m Hq); lia).
  split; [intros m _; by apply used_bounds|]. specialize (H1 rest). lia.
Qed.

Lemma usage_spent m : usage_of (num_of_Z q) (spent m) = dec4 (drawn m).
Proof.
  pose proof Hd as [? [_ Hs] _ Hm _]. pose proof (used_bounds granularity s_quota data time m Hq).
  apply units_spec; [done|change (amount s_quota) with quota in *; lia..].
Qed.

(** A bar, or an area, of the models that it stands for. *)
Definition point_right (models : list jstr) (p : point) : Prop :=
  Time p = time ∧ rawQuota p = zsum spent models ∧ Usage p = dec4 (zsum drawn models) ∧ TimeSum p = time_total granularity s_quota data time.

Lemma line_points_right :
  map Series (line_points granularity (num_of_Z q) data time) ≡ₚ map fst (aggregate granularity data).2 ∧
  Forall (λ p, point_right [Series p] p) (line_points granularity (num_of_Z q) data time).
Proof.
  unfold line_points. set (timeData := map _ (sortedModels granularity data)).
  assert (dsum rawQuota timeData = time_total granularity s_quota data time) as Hs.
  { assert (zsum rawQuota timeData = time_total granularity s_quota data time ∧ fits rawQuota timeData) as [<- Hf].
    { assert (∀ l, zsum rawQuota (map (λ model, let raw := s_quota (at_time (aggregate granularity data).1 time model) in
        {| Time := time; Series := model; rawQuota := raw; Usage := usage_of (num_of_Z q) raw; TimeSum := 0 |}) l) = zsum spent l) as E.
      { intros l. rewrite zsum_map. apply zsum_ext. intros m _. by apply (at_time_get granularity s_quota). }
      unfold timeData, fits. rewrite E. destruct (spent_fits (sortedModels granularity data)) as [_ Ht]; [done|].
      split_and!; [apply models_sum, sorted_models| |done]. intros p (m & -> & _)%list_elem_of_fmap. cbn [rawQuota].
      rewrite (at_time_get granularity s_quota) by done. by apply used_bounds. }
    by apply dsum_exact. }
  rewrite Hs. split.
  - rewrite map_map. cbn [Series]. unfold sort_desc. rewrite stable_sort_perm. unfold timeData. rewrite map_map. cbn [Series].
    rewrite map_id. apply sorted_models.
  - apply Forall_fmap, Forall_forall. intros p Hp. unfold sort_desc in Hp. rewrite elem_of_stable_sort in Hp.
    apply list_elem_of_fmap in Hp as (m & -> & _). unfold compose, point_right. cbn [Time Series rawQuota Usage TimeSum zsum foldr].
    rewrite (at_time_get granularity s_quota), usage_spent, !Z.add_0_r by done. done.
Qed.

Abbreviation buckets := (foldl (add_bucket granularity (num_of_Z q) otherLabel data time) []).

Lemma buckets_keys models :
  NoDup (map fst (buckets models)) ∧ ∀ k, k ∈ map fst (buckets models) ↔ ∃ m, m ∈ models ∧ bucket_of granularity otherLabel data m = k.
Proof.
  induction models as [|m models [IHn IHk]] using rev_ind; [split; [constructor|set_solver]|]. rewrite foldl_app. cbn [foldl].
  split; [by apply map_set_nodup|]. intros k. unfold add_bucket at 1, map_add. rewrite map_set_in, IHk. setoid_rewrite elem_of_app.
  setoid_rewrite list_elem_of_singleton. naive_solver.
Qed.

Lemma buckets_get models key : models ⊆+ sortedModels granularity data →
  default (0%Z, nzero) (map_get key (buckets models)) = (zsum spent (bucket_models data key models), dec4 (zsum drawn (bucket_models data key models))).
Proof.
  induction models as [|m models IH] using rev_ind; intros Hs; [done|].
  assert (models ⊆+ sortedModels granularity data) as Hs' by (etransitivity; [|exact Hs]; by apply submseteq_inserts_r).
  rewrite foldl_app. cbn [foldl]. unfold add_bucket at 1. rewrite map_add_get, IH by done. unfold bucket_models.
  rewrite List.filter_app. cbn [List.filter]. destruct (bool_decide (bucket_of _ _ _ m = key)) eqn:Ek; [|by rewrite app_nil_r].
  rewrite (at_time_get granularity s_quota), usage_spent by done. cbn [fst snd].
  fold (bucket_models data key models). set (here := bucket_models data key models).
  assert (here ++ [m] ⊆+ sortedModels granularity data) as Hsub.
  { etransitivity; [|exact Hs]. apply submseteq_app; [|done]. unfold here, bucket_models. apply sublist_submseteq.
    clear. induction models as [|x l IH]; [done|]. cbn [List.filter]. case_bool_decide; by constructor. }
  pose proof (fits_snoc _ _ _ (spent_fits _ Hsub)) as (Hh & Hm & Hlt). pose proof (drawn_total _ Hsub) as Hu. rewrite zsum_snoc in Hu. cbv beta in Hu.
  rewrite !zsum_snoc. f_equal.
  - apply dadd_exact; [|done..]. destruct (fits_part spent spent here Hh) as [_ ?]; [by right|lia].
  - unfold round4. rewrite dec4_add; [done| | |lia].
    + apply drawn_total. etransitivity; [|exact Hsub]. by apply submseteq_inserts_r.
    + assert ([m] ⊆+ sortedModels granularity data) as H1 by (etransitivity; [|exact Hsub]; by apply submseteq_inserts_l).
      apply drawn_total in H1. cbn in H1. lia.
Qed.

Lemma area_points_right :
  map Series (area_points granularity (num_of_Z q) otherLabel data time) = map fst (buckets (sortedModels granularity data)) ∧
  Forall (λ p, point_right (bucket_models data (Series p) (sortedModels granularity data)) p)
    (area_points granularity (num_of_Z q) otherLabel data time).
Proof.
  unfold area_points. rewrite map_map. cbn [Series]. split; [done|].
  assert (dsum (λ model, s_quota (at_time (aggregate granularity data).1 time model)) (sortedModels granularity data) = time_total granularity s_quota data time) as ->.
  { assert (∀ l, zsum (λ model, s_quota (at_time (aggregate granularity data).1 time model)) l = zsum spent l) as E
      by (intros l; apply zsum_ext; intros m _; by apply (at_time_get granularity s_quota)).
    rewrite dsum_exact, E; [apply models_sum, sorted_models|]. unfold fits. rewrite E. split; [|by apply spent_fits].
    intros m _. rewrite (at_time_get granularity s_quota) by done. by apply used_bounds. }
  apply Forall_fmap, Forall_forall. intros [k [raw u]] Hin. unfold compose, point_right. cbn [fst snd Time Series rawQuota Usage TimeSum].
  apply map_get_elem in Hin; [|apply buckets_keys]. pose proof (buckets_get (sortedModels granularity data) k ltac:(done)) as Hg.
  rewrite Hin in Hg. cbn in Hg. by injection Hg as -> ->.
Qed.

(** Every model is in one bucket. *)
Lemma bucket_sum (f : jstr → Z) :
  zsum (λ p, zsum f (bucket_models data (Series p) (sortedModels granularity data))) (area_points granularity (num_of_Z q) otherLabel data time)
  = zsum f (sortedModels granularity data).
Proof.
  rewrite <- (zsum_map (λ k, zsum f (bucket_models data k (sortedModels granularity data))) Series).
  rewrite (proj1 area_points_right). destruct (buckets_keys (sortedModels granularity data)) as [Hn Hk].
  rewrite (zsum_ext _ (λ k, zsum (λ m, if bool_decide (bucket_of granularity otherLabel data m = k) then f m else 0%Z) (sortedModels granularity data)))
    by (intros k _; apply zsum_filter).
  rewrite zsum_by_key by done. apply zsum_ext. intros m Hm. rewrite bool_decide_eq_true_2; [done|]. apply Hk. eauto.
Qed.

Lemma line_points_sum : zsum rawQuota (line_points granularity (num_of_Z q) data time) = time_total granularity s_quota data time.
Proof.
  destruct line_points_right as [Hs Hp]. rewrite (zsum_ext _ (λ p, spent (Series p))).
  - rewrite <- (zsum_map spent Series). by apply models_sum.
  - intros p Hin. rewrite Forall_forall in Hp. destruct (Hp p Hin) as (_ & -> & _). cbn. lia.
Qed.

Lemma area_points_sum : zsum rawQuota (area_points granularity (num_of_Z q) otherLabel data time) = time_total granularity s_quota data time.
Proof.
  destruct area_points_right as [_ Hp]. rewrite (zsum_ext _ (λ p, zsum spent (bucket_models data (Series p) (sortedModels granularity data)))).
  - rewrite bucket_sum. apply models_sum, sorted_models.
  - intros p Hin. rewrite Forall_forall in Hp. by destruct (Hp p Hin) as (_ & -> & _).
Qed.

Lemma trend_points_sum : zsum Count (trend_points granularity otherLabel data time) = time_total granularity s_count data time.
Proof.
  set (counted := λ model, s_count (at_time (aggregate granularity data).1 time model)).
  assert (∀ m, counted m = used granularity s_count data time m) as Em by (intros m; by apply (at_time_get granularity s_count)).
  pose proof (ranked_perm data s_count) as Hr. fold (rankedTrendModels granularity data) in Hr.
  pose proof (used_fits granularity s_count data time _ Hc Hr) as Hf. pose proof (models_sum granularity s_count data time _ Hr) as Ht.
  rewrite (zsum_ext _ counted) in Ht by (intros; by rewrite Em).
  assert (fits counted (map fst (rankedTrendModels granularity data))) as Hf'.
  { destruct Hf as [H1 H2]. split; [intros m Hm; rewrite Em; auto|]. by rewrite (zsum_ext _ (used granularity s_count data time)). }
  unfold trend_points. fold counted. rewrite zsum_app, zsum_map. cbn [Count]. unfold topTrendModels, otherTrendModels.
  rewrite <- Ht. clear Ht Hr Hf. revert Hf'. generalize (rankedTrendModels granularity data) as l. intros l Hf.
  rewrite <- (take_drop MAX_TREND_MODELS l), map_app in Hf. rewrite <- (take_drop MAX_TREND_MODELS l) at 3. rewrite map_app, zsum_app.
  assert (fits counted (map fst (drop MAX_TREND_MODELS l))) as Hf2.
  { destruct Hf as [H1 H2]. rewrite zsum_app in H2. split; [intros m Hm; apply H1; set_solver|].
    assert (0 <= zsum counted (map fst (take MAX_TREND_MODELS l)))%Z; [|lia]. apply (zsum_le counted counted). intros m Hm. split; [|done]. apply H1. set_solver. }
  destruct (map fst (drop _ l)); [done|]. rewrite zsum_cons. cbn [Count]. rewrite dsum_exact by done. fold counted.
  change (zsum Count []) with 0%Z. lia.
Qed.
End points.

Lemma counts_sum data : fits count data →
  zsum snd (rankedTrendModels granularity data) = s_count (calculateDashboardStats data) ∧ fits snd (rankedTrendModels granularity data).
Proof.
  intros Hf. destruct (totals_sum granularity s_count data Hf) as [E Hfit].
  assert (rankedTrendModels granularity data ≡ₚ map (λ e, (e.1, s_count e.2)) (aggregate granularity data).2) as Hp by apply stable_sort_perm.
  rewrite (stats_sum s_count) by done. split.
  - rewrite Hp, zsum_map. exact E.
  - eapply fits_perm; [symmetry; exact Hp|]. destruct Hfit as [H1 H2]. split; [|by rewrite zsum_map].
    intros x (e & -> & He)%list_elem_of_fmap. by apply H1.
Qed.

Lemma rank_sum data : fits count data → zsum snd (rankValues granularity otherLabel data) = s_count (calculateDashboardStats data).
Proof.
  intros Hf. destruct (counts_sum data Hf) as [<- Hfit]. unfold rankValues. revert Hfit. generalize (rankedTrendModels granularity data) as l. intros l Hfit.
  destruct (_ <? _); [|done]. rewrite <- (take_drop MAX_RANK_MODELS l) in Hfit. rewrite zsum_app, zsum_cons. cbn [snd].
  rewrite <- (take_drop MAX_RANK_MODELS l) at 3. rewrite zsum_app. rewrite dsum_exact; [cbn [zsum foldr]; lia|].
  destruct Hfit as [H1 H2]. rewrite zsum_app in H2. split; [intros x Hx; apply H1; set_solver|].
  assert (0 <= zsum snd (take MAX_RANK_MODELS l))%Z; [|lia]. apply (zsum_le snd snd). intros x Hx. split; [|done]. apply H1. set_solver.
Qed.

Lemma label_count data : length (map fst (aggregate granularity data).1) = length (dedup (map (label granularity) data)).
Proof.
  pose proof (aggregate_keys granularity data) as Hk. destruct (aggregate granularity data) as [times ms]. destruct Hk as [[Hn Hin] _].
  apply Permutation_length, NoDup_Permutation; [done|apply NoDup_dedup|]. intros x. cbn [fst]. rewrite Hin, elem_of_dedup, list_elem_of_fmap. naive_solver.
Qed.

Lemma chart_times_all data : MAX_CHART_TREND_POINTS ≤ length (dedup (map (label granularity) data)) →
  chartTimes granularity data ≡ₚ map fst (aggregate granularity data).1.
Proof.
  intros Hl. unfold chartTimes, fillTimePoints, sort_texts. rewrite (Permutation_length (stable_sort_perm str_leb _)), label_count.
  rewrite (proj2 (Nat.leb_le _ _) Hl). apply stable_sort_perm.
Qed.

End sums.

(** ** Users *)

Section users.
Context `{Clock}.
Variable granularity : TimeGranularity.
Variable limit : nat.
Implicit Types data : list QuotaDataItem.

Definition user_total data (user : jstr) : Z := zsum (λ i, if bool_decide (user_of i = user) then quota i else 0%Z) data.

Lemma user_quota_nodup data : NoDup (map fst (userQuotaTotal data)).
Proof.
  induction data as [|i data IH] using rev_ind; [constructor|]. unfold userQuotaTotal in *. rewrite foldl_app. cbn [foldl]. by apply map_set_nodup.
Qed.

Lemma user_quota_get data user : fits quota data → default 0%Z (map_get user (userQuotaTotal data)) = user_total data user.
Proof.
  induction data as [|i data IH] using rev_ind; intros Hf; [done|]. unfold user_total.
  rewrite (add_next (λ i, bool_decide (user_of i = user))) by done. cbv beta. fold (user_total data user).
  rewrite <- IH by (by apply fits_snoc in Hf as []). unfold userQuotaTotal. rewrite foldl_app. cbn [foldl]. by rewrite map_add_get.
Qed.

Lemma time_user_get data seen user time : fits quota seen →
  let st := foldl (time_user_step granularity data limit) ([], []) seen in
  default 0%Z (m ← map_get time st.1; map_get user m) =
  zsum (λ i, if bool_decide (user_of i = user ∧ label granularity i = time ∧ user ∈ topUsers data limit) then quota i else 0%Z) seen ∧
  st.2 = map (label granularity) seen.
Proof.
  induction seen as [|i seen IH] using rev_ind; [done|]. intros Hf. destruct (fits_snoc _ _ _ Hf) as [Hf' _]. destruct (IH Hf') as [IH1 IH2].
  cbn zeta in *. rewrite foldl_app.
  rewrite (add_next (λ i, bool_decide (user_of i = user ∧ label granularity i = time ∧ user ∈ topUsers data limit))) by done. cbv beta.
  rewrite <- IH1. cbn [foldl]. destruct (foldl _ _ seen) as [m points]. cbn [time_user_step fst snd] in *. split; [|by rewrite IH2, map_app].
  destruct (decide (user_of i ∈ topUsers data limit)) as [Hin|Hin].
  - rewrite (bool_decide_eq_true_2 (user_of i ∈ _)) by done. rewrite map_get_set. unfold str_eqb. destruct (decide (label granularity i = time)) as [<-|Ht].
    + rewrite (bool_decide_eq_true_2 (label granularity i = label granularity i)) by done. cbn [mbind option_bind]. rewrite map_add_get.
      assert (default 0%Z (m0 ← map_get (label granularity i) m; map_get user m0) =
        default 0%Z (map_get user (default [] (map_get (label granularity i) m)))) as -> by by destruct (map_get _ m).
      repeat case_bool_decide; naive_solver.
    + by rewrite !bool_decide_eq_false_2 by naive_solver.
  - rewrite (bool_decide_eq_false_2 (user_of i ∈ _)) by done. rewrite bool_decide_eq_false_2 by naive_solver. done.
Qed.

(** The trend of the top users shows what their ranking does, whatever the labels. *)
Theorem user_trend_total data : fits quota data →
  zsum snd (trendValues granularity data limit) = totalQuota data limit ∧
  totalQuota data limit = zsum (user_total data) (topUsers data limit).
Proof.
  intros Hf.
  assert (∀ e, e ∈ take limit (sorted_users data) → e.2 = user_total data e.1) as He.
  { intros [u q] Hin. assert ((u, q) ∈ userQuotaTotal data) as Hin'.
    { apply (elem_of_stable_sort (λ x y, (y.2 <=? x.2)%Z)). eapply elem_of_sublist; [exact Hin|apply sublist_take]. }
    pose proof (user_quota_get data u Hf) as Hg. apply map_get_elem in Hin'; [|apply user_quota_nodup]. by rewrite Hin' in Hg. }
  assert (NoDup (topUsers data limit)) as Hnu.
  { unfold topUsers. eapply sublist_NoDup; [|apply fmap_sublist, sublist_take]. unfold sorted_users, sort_desc.
    rewrite (fmap_Permutation fst _ _ (stable_sort_perm _ (userQuotaTotal data)) : map fst _ ≡ₚ map fst _). by apply user_quota_nodup. }
  assert (zsum snd (take limit (sorted_users data)) = zsum (user_total data) (topUsers data limit)) as Ht
    by (unfold topUsers; rewrite zsum_map; by apply zsum_ext).
  assert (zsum (user_total data) (topUsers data limit) = zsum (λ i, if bool_decide (user_of i ∈ topUsers data limit) then quota i else 0%Z) data) as Hu
    by by apply zsum_by_key.
  assert (totalQuota data limit = zsum (user_total data) (topUsers data limit)) as Hq.
  { unfold totalQuota. rewrite dsum_exact; [done|]. split.
    - intros e Hin. rewrite (He e Hin). apply (fits_part _ _ _ Hf). intros i _. case_bool_decide; auto.
    - rewrite Ht, Hu. apply (fits_part _ _ _ Hf). intros i _. case_bool_decide; auto. }
  split; [|done]. rewrite Hq, Hu. unfold trendValues. rewrite zsum_concat.
  rewrite (zsum_ext _ (λ time, zsum (λ i, if bool_decide (label granularity i = time) then (if bool_decide (user_of i ∈ topUsers data limit) then quota i else 0%Z) else 0%Z) data)).
  2: { intros time _. rewrite zsum_map. cbn [snd].
       rewrite (zsum_ext _ (λ user, zsum (λ i, if bool_decide (user_of i = user) then (if bool_decide (label granularity i = time) then quota i else 0%Z) else 0%Z) data)).
       2: { intros user Huser. unfold timeUsers. rewrite (proj1 (time_user_get data data user time Hf)).
            apply zsum_ext. intros i _. repeat case_bool_decide; naive_solver. }
       rewrite zsum_by_key by done. apply zsum_ext. intros i _. by repeat case_bool_decide. }
  rewrite zsum_by_key.
  2: { unfold sortedTimePoints, sort_texts. rewrite stable_sort_perm. apply NoDup_dedup. }
  apply zsum_ext. intros i Hi. rewrite (bool_decide_eq_true_2 (label granularity i ∈ _)); [done|].
  unfold sortedTimePoints, sort_texts. rewrite elem_of_stable_sort, elem_of_dedup. unfold timeUsers.
  rewrite (proj2 (time_user_get data data [] [] Hf)). by apply list_elem_of_fmap_2.
Qed.
End users.

(** ** A calendar *)

(** The month and the day of a day number of the Gregorian calendar, counted from 1970. *)
Definition civil (day : Z) : Z * Z :=
  (let z := day + 719468 in
   let doe := z mod 146097 in
   let yoe := (doe - doe / 1460 + doe / 36524 - doe / 146096) / 365 in
   let doy := doe - (365 * yoe + yoe / 4 - yoe / 100) in
   let mp := (5 * doy + 2) / 153 in
   (if mp <? 10 then mp + 3 else mp - 9, doy - (153 * mp + 2) / 5 + 1))%Z.

Definition two_digits (n : Z) : jstr := if (n <? 10)%Z then js "0" ++ dec (Z.to_N n) else dec (Z.to_N n).

Definition utc : Clock := {|
  month_day := λ t, let '(m, d) := civil (t / 86400)%Z in two_digits m ++ js "-" ++ two_digits d;
  hour := λ t, two_digits (t mod 86400 / 3600)%Z;
  add_days := λ t n, (t + n * 86400)%Z |}.

Example utc_ex : @formatChartTime utc 1767225600 Week = js "01-01 - 01-07" ∧ @formatChartTime utc 1709210096 Hour = js "02-29 12:00".
Proof. split; vm_compute; reflexivity. Qed.

(** ** Behaviours that differ from what the charts say *)

Definition record_at (t q : Z) : QuotaDataItem :=
  {| username := js "u"; model_name := js "m"; created_at := t; token_used := 0; count := 1; quota := q |}.

Definition demo_quota : num := num_of_Z 500000.

(** A week of usage. *)
Definition demo_week : list QuotaDataItem := map (λ i, record_at (1767225600 + i * 86400) (1000000 + i))%Z [0; 1; 2; 3; 4; 5; 6]%Z.

Lemma demo_week_drawable : drawable 500000 demo_week.
Proof.
  split; [lia|split|split|vm_compute; discriminate|vm_compute; discriminate]; try (vm_compute; reflexivity);
    intros x Hx; repeat (apply elem_of_cons in Hx as [->|Hx]; [vm_compute; discriminate|]); by apply elem_of_nil in Hx.
Qed.


(** With fewer than seven labels the chart shows the seven intervals before the last record, and
    leaves out older records, although they are in the total. *)
Theorem older_records_left_out :
  let data := [record_at 1767225600 10; record_at (1767225600 - 20 * 86400) 5] in
  totalQuotaRaw (H := utc) Day data = 15%Z ∧
  zsum rawQuota (lineValues (H := utc) (H0 := code_unit_collation) Day demo_quota data) = 10%Z.
Proof. split; vm_compute; reflexivity. Qed.

(** A week starts on the day of a record: records of two days are never added up. *)
Theorem weeks_are_days :
  let data := [record_at 1767225600 10; record_at (1767225600 + 86400) 5] in
  map (label (H := utc) Week) data = [js "01-01 - 01-07"; js "01-02 - 01-08"] ∧
  zsum rawQuota (lineValues (H := utc) (H0 := code_unit_collation) Week demo_quota data) = 5%Z.
Proof. split; vm_compute; reflexivity. Qed.

(** Labels have no year, so January comes before the December that precedes it. *)
Theorem january_before_december :
  let data := [record_at (1767225600 - 86400) 10; record_at 1767225600 5] in
  head (map Time (lineValues (H := utc) (H0 := code_unit_collation) Day demo_quota data)) = Some (js "01-01") ∧
  last (map Time (lineValues (H := utc) (H0 := code_unit_collation) Day demo_quota data)) = Some (js "12-31").
Proof. split; vm_compute; reflexivity. Qed.
