(* ===== verification/DashboardPrefs.v ===== *)
(** * Preferences of the dashboard

    Model of [web/default/src/features/dashboard/lib/filters.ts]: the preferences of the
    charts in the browser's storage, with an older key for the granularity, the cleaning
    of filters, and the parameters of a query. *)

From S2P Require Import Prelude JsString JsNumber Json Charts.
From Stdlib Require Import NArith ZArith.

(** ** Preferences *)

Inductive DistributionChart := Bar | Area.
Inductive AnalyticsTab := Trend | Proportion | Top.

Record DashboardChartPreferences := {
  consumptionDistributionChart : DistributionChart;
  modelAnalyticsChart : AnalyticsTab;
  defaultTimeRangeDays : Z;
  defaultTimeGranularity : TimeGranularity;
}.

Definition DEFAULT_TIME_GRANULARITY : TimeGranularity := Hour.

Definition DEFAULT_DASHBOARD_CHART_PREFERENCES : DashboardChartPreferences := {|
  consumptionDistributionChart := Bar; modelAnalyticsChart := Trend; defaultTimeRangeDays := 1;
  defaultTimeGranularity := DEFAULT_TIME_GRANULARITY |}.

Definition TIME_RANGE_PRESETS : list Z := [1; 7; 14; 29]%Z.

Definition TIME_RANGE_BY_GRANULARITY (g : TimeGranularity) : Z := match g with Hour => 1 | Day => 7 | Week => 30 end.

(** The stored texts of the values. *)
Definition granularity_text (g : TimeGranularity) : jstr := match g with Hour => js "hour" | Day => js "day" | Week => js "week" end.
Definition chart_text (c : DistributionChart) : jstr := match c with Bar => js "bar" | Area => js "area" end.
Definition tab_text (c : AnalyticsTab) : jstr := match c with Trend => js "trend" | Proportion => js "proportion" | Top => js "top" end.

(** The value that has a text, if any: [isTimeGranularity] and its like. *)
Definition value_with_text {A} (text : A → jstr) (values : list A) (v : option json) : option A :=
  match v with
  | Some (JStr s) => List.find (λ a, str_eqb (text a) s) values
  | _ => None
  end.

Definition isTimeGranularity (v : option json) : option TimeGranularity := value_with_text granularity_text [Hour; Day; Week] v.
Definition isConsumptionDistributionChartType (v : option json) : option DistributionChart := value_with_text chart_text [Bar; Area] v.
Definition isModelAnalyticsChartTab (v : option json) : option AnalyticsTab := value_with_text tab_text [Trend; Proportion; Top] v.

Definition isTimeRangePresetDays (v : option json) : option Z :=
  match v with
  | Some (JNum x) => List.find (λ d, num_eqb (num_of_Z d) x) TIME_RANGE_PRESETS
  | _ => None
  end.

(** The two keys of the storage. *)
Record storage := { legacy_granularity : option jstr; chart_preferences : option jstr }.

Definition getLegacySavedGranularity (s : storage) : TimeGranularity :=
  default DEFAULT_TIME_GRANULARITY (isTimeGranularity (JStr <$> legacy_granularity s)).

(** A text that holds null makes the reading of a property throw, which is caught. *)
Definition getSavedChartPreferences (s : storage) : DashboardChartPreferences :=
  let fallback := {|
    consumptionDistributionChart := consumptionDistributionChart DEFAULT_DASHBOARD_CHART_PREFERENCES;
    modelAnalyticsChart := modelAnalyticsChart DEFAULT_DASHBOARD_CHART_PREFERENCES;
    defaultTimeRangeDays := defaultTimeRangeDays DEFAULT_DASHBOARD_CHART_PREFERENCES;
    defaultTimeGranularity := getLegacySavedGranularity s |} in
  match chart_preferences s with
  | None | Some [] => fallback
  | Some raw =>
    match json_parse raw with
    | None | Some JNull => fallback
    | Some parsed => {|
        consumptionDistributionChart :=
          default (consumptionDistributionChart fallback) (isConsumptionDistributionChartType (prop (js "consumptionDistributionChart") parsed));
        modelAnalyticsChart := default (modelAnalyticsChart fallback) (isModelAnalyticsChartTab (prop (js "modelAnalyticsChart") parsed));
        defaultTimeRangeDays := default (defaultTimeRangeDays fallback) (isTimeRangePresetDays (prop (js "defaultTimeRangeDays") parsed));
        defaultTimeGranularity := default (defaultTimeGranularity fallback) (isTimeGranularity (prop (js "defaultTimeGranularity") parsed)) |}
    end
  end.

Definition preferences_json (p : DashboardChartPreferences) : json := JObj [
  (js "consumptionDistributionChart", JStr (chart_text (consumptionDistributionChart p)));
  (js "modelAnalyticsChart", JStr (tab_text (modelAnalyticsChart p)));
  (js "defaultTimeRangeDays", JNum (num_of_Z (defaultTimeRangeDays p)));
  (js "defaultTimeGranularity", JStr (granularity_text (defaultTimeGranularity p)))].

Definition saveChartPreferences (p : DashboardChartPreferences) (s : storage) : storage :=
  {| legacy_granularity := legacy_granularity s; chart_preferences := Some (stringify (preferences_json p)) |}.

Definition saveGranularity (g : TimeGranularity) (s : storage) : storage :=
  let p := getSavedChartPreferences s in
  let s := saveChartPreferences {|
    consumptionDistributionChart := consumptionDistributionChart p; modelAnalyticsChart := modelAnalyticsChart p;
    defaultTimeRangeDays := defaultTimeRangeDays p; defaultTimeGranularity := g |} s in
  {| legacy_granularity := Some (granularity_text g); chart_preferences := chart_preferences s |}.

Definition getSavedGranularity (override : option TimeGranularity) (s : storage) : TimeGranularity :=
  match override with Some g => g | None => defaultTimeGranularity (getSavedChartPreferences s) end.

Definition getDefaultDays (granularity : option TimeGranularity) (s : storage) : Z :=
  match granularity with
  | None => defaultTimeRangeDays (getSavedChartPreferences s)
  | Some g => TIME_RANGE_BY_GRANULARITY (getSavedGranularity (Some g) s)
  end.

(** ** Filters *)

(** Nothing, null and blank texts are left out; texts are trimmed. *)
Definition cleanFilters (filters : list (jstr * option json)) : list (jstr * json) :=
  foldl (λ cleaned '(key, value),
    match value with
    | None | Some JNull => cleaned
    | Some (JStr s) => if nonempty (trim s) then obj_set cleaned key (JStr (trim s)) else cleaned
    | Some v => obj_set cleaned key v
    end) [] filters.

(** Milliseconds: a range that ends now. *)
Definition getRollingDateRange (days now : Z) : Z * Z := (now - days * 24 * 60 * 60 * 1000, now)%Z.

Definition buildQueryParams (s : storage) (timeRange : Z * Z) (granularity : option TimeGranularity) (username : jstr)
    : list (jstr * json) :=
  [(js "start_timestamp", JNum (num_of_Z timeRange.1)); (js "end_timestamp", JNum (num_of_Z timeRange.2));
   (js "default_time", JStr (granularity_text (getSavedGranularity granularity s)))]
  ++ (if nonempty username then [(js "username", JStr username)] else []).

(** ** Facts *)

(** Preferences with one of the offered ranges are read back as they were saved. *)
Theorem preferences_read_back p s :
  defaultTimeRangeDays p ∈ TIME_RANGE_PRESETS → getSavedChartPreferences (saveChartPreferences p s) = p.
Proof.
  intros Hd. destruct p as [c a d g]. cbn [defaultTimeRangeDays] in Hd. unfold TIME_RANGE_PRESETS in Hd.
  assert (Hd' : d = 1%Z ∨ d = 7%Z ∨ d = 14%Z ∨ d = 29%Z) by set_solver.
  destruct Hd' as [->|[->|[->| ->]]]; destruct c, a, g; vm_compute; reflexivity.
Qed.

Lemma saved_range s : defaultTimeRangeDays (getSavedChartPreferences s) ∈ TIME_RANGE_PRESETS.
Proof.
  assert (1%Z ∈ TIME_RANGE_PRESETS) as H1 by by left. unfold getSavedChartPreferences.
  destruct (chart_preferences s) as [[|c raw]|]; [done| |done]. destruct (json_parse (c :: raw)) as [[]|]; try done; cbn [defaultTimeRangeDays].
  all: destruct (isTimeRangePresetDays _) as [d|] eqn:E; [|done]; cbn [default from_option]; unfold id.
  all: unfold isTimeRangePresetDays in E; destruct (prop _ _) as [[]|]; try done; apply List.find_some in E as [E _]; by apply list_elem_of_In.
Qed.

(** Saving a granularity changes nothing else, and both keys agree on it. *)
Theorem granularity_saved g s :
  let s' := saveGranularity g s in
  getSavedGranularity None s' = g ∧ getLegacySavedGranularity s' = g ∧
  defaultTimeRangeDays (getSavedChartPreferences s') = defaultTimeRangeDays (getSavedChartPreferences s) ∧
  consumptionDistributionChart (getSavedChartPreferences s') = consumptionDistributionChart (getSavedChartPreferences s) ∧
  modelAnalyticsChart (getSavedChartPreferences s') = modelAnalyticsChart (getSavedChartPreferences s).
Proof.
  pose proof (saved_range s) as Hr. unfold saveGranularity, getSavedGranularity. set (p := getSavedChartPreferences s) in *.
  set (p' := Build_DashboardChartPreferences _ _ _ _). cbn zeta.
  assert (∀ l, getSavedChartPreferences {| legacy_granularity := l; chart_preferences := chart_preferences (saveChartPreferences p' s) |} = p') as Hb.
  { intros l. by apply (preferences_read_back p' {| legacy_granularity := l; chart_preferences := None |}). }
  rewrite !Hb. split_and!; try done. destruct g; vm_compute; reflexivity.
Qed.
