(* ===== verification/PricingSheet.v ===== *)
(** * The price sheet of a model

    Model of [web/default/src/features/system-settings/models/pricing-format.ts] and
    [model-pricing-sheet.tsx]: the price lanes of a model, the ratios that they
    stand for, and the panel as a state machine over its events.  The text fields
    that [ModelRatioData] and the form values share are a function of the name of the
    field; an undefined text is the empty one, as everywhere in the code. *)

From S2P Require Import Prelude JsString JsNumber BillingExpr.
From Stdlib Require Import NArith ZArith SpecFloat.

(** ** Numbers of prices *)

Definition DISPLAY_DECIMALS : nat := 12.
Definition SNAP_DECIMALS : nat := 8.
Definition SNAP_EPSILON : num := dec_to_num false 1 (-12).

Definition finite_or_null (x : num) : option num := if is_finite x then Some x else None.

Definition roundToDecimals (value : num) (decimals : nat) : num :=
  let factor := num_of_Z (10 ^ Z.of_nat decimals) in
  ndiv (num_round (nmul value factor)) factor.

(** The loop over the numbers of decimals that are left to try. *)
Fixpoint snap_loop (value tolerance : num) (decimals : list nat) : num :=
  match decimals with
  | d :: rest =>
    let rounded := roundToDecimals value d in
    if nle (nabs (nsub value rounded)) tolerance then rounded else snap_loop value tolerance rest
  | [] => value
  end.

Definition snapFloatDrift (value : num) : num :=
  let tolerance := nmax SNAP_EPSILON (nmul (nmul (nabs value) EPSILON) (num_of_Z 8)) in
  snap_loop value tolerance (seq 0 (S SNAP_DECIMALS)).

Definition formatPricingNumber (value : num) : jstr :=
  match finite_or_null value with
  | None => []
  | Some x => num_to_string (parseFloat (toFixed (snapFloatDrift x) DISPLAY_DECIMALS))
  end.

Example format_drift : formatPricingNumber (nadd (to_number (js "0.1")) (to_number (js "0.2"))) = js "0.3".
Proof. vm_compute. reflexivity. Qed.

Example format_third : formatPricingNumber (ndiv (num_of_Z 1) (num_of_Z 3)) = js "0.333333333333".
Proof. vm_compute. reflexivity. Qed.

(** ** Data *)

Inductive ratio_field :=
  | FPrice | FRatio | FCacheRatio | FCreateCacheRatio | FCompletionRatio | FImageRatio | FAudioRatio
  | FAudioCompletionRatio.

#[export] Instance ratio_field_eq_dec : EqDecision ratio_field.
Proof. solve_decision. Defined.

Inductive PricingMode := PerToken | PerRequest | TieredExpr.

#[export] Instance PricingMode_eq_dec : EqDecision PricingMode.
Proof. solve_decision. Defined.

Inductive LaneKey := Completion | Cache | CreateCache | Image | AudioInput | AudioOutput.

#[export] Instance LaneKey_eq_dec : EqDecision LaneKey.
Proof. solve_decision. Defined.

Record ModelRatioData := {
  md_name : jstr;
  md_value : ratio_field → jstr;
  md_billingMode : PricingMode;
  md_billingExpr : jstr;
  md_requestRuleExpr : jstr;
}.

(** [{ ...o, [k]: v }]. *)
Definition with_key {K V} `{EqDecision K} (k : K) (v : V) (f : K → V) : K → V :=
  λ k', if bool_decide (k = k') then v else f k'.

Definition EMPTY_LANE_PRICES : LaneKey → jstr := λ _, [].
Definition EMPTY_LANE_ENABLED : LaneKey → bool := λ _, false.

Definition ratioFieldByLane (lane : LaneKey) : ratio_field :=
  match lane with
  | Completion => FCompletionRatio
  | Cache => FCacheRatio
  | CreateCache => FCreateCacheRatio
  | Image => FImageRatio
  | AudioInput => FAudioRatio
  | AudioOutput => FAudioCompletionRatio
  end.

(** The keys of [laneConfigs], in order. *)
Definition lane_keys : list LaneKey := [Completion; Cache; CreateCache; Image; AudioInput; AudioOutput].

(** The test for the beginning of a decimal number: digits, or digits with a point
    before, between or after them, or nothing. *)
Definition numericDraftRegex (value : jstr) : bool :=
  match (span_digits value).2 with
  | [] => true
  | 46%N :: rest => forallb is_digit rest
  | _ => false
  end.

Definition toNumberOrNull (value : jstr) : option num :=
  if nonempty value then finite_or_null (to_number value) else None.

Definition ratioToBasePrice (ratio : jstr) : jstr :=
  match toNumberOrNull ratio with
  | None => []
  | Some x => formatPricingNumber (nmul x (num_of_Z 2))
  end.

Definition deriveLanePrice (ratio denominator : jstr) : jstr :=
  match toNumberOrNull ratio, toNumberOrNull denominator with
  | Some ratioNumber, Some denominatorNumber => formatPricingNumber (nmul ratioNumber denominatorNumber)
  | _, _ => []
  end.

Record LaneState := {
  ls_promptPrice : jstr;
  ls_prices : LaneKey → jstr;
  ls_enabled : LaneKey → bool;
}.

Definition createInitialLaneState (data : option ModelRatioData) : LaneState :=
  match data with
  | None => {| ls_promptPrice := []; ls_prices := EMPTY_LANE_PRICES; ls_enabled := EMPTY_LANE_ENABLED |}
  | Some data =>
    let promptPrice := ratioToBasePrice (md_value data FRatio) in
    let audioInputPrice := deriveLanePrice (md_value data FAudioRatio) promptPrice in
    {| ls_promptPrice := promptPrice;
       ls_prices := λ lane,
         match lane with
         | Completion => deriveLanePrice (md_value data FCompletionRatio) promptPrice
         | Cache => deriveLanePrice (md_value data FCacheRatio) promptPrice
         | CreateCache => deriveLanePrice (md_value data FCreateCacheRatio) promptPrice
         | Image => deriveLanePrice (md_value data FImageRatio) promptPrice
         | AudioInput => audioInputPrice
         | AudioOutput => deriveLanePrice (md_value data FAudioCompletionRatio) audioInputPrice
         end;
       ls_enabled := λ lane,
         match lane with
         | Completion => nonempty (md_value data FCompletionRatio)
         | Cache => nonempty (md_value data FCacheRatio)
         | CreateCache => nonempty (md_value data FCreateCacheRatio)
         | Image => nonempty (md_value data FImageRatio)
         | AudioInput => nonempty (md_value data FAudioRatio)
         | AudioOutput => nonempty (md_value data FAudioCompletionRatio)
         end |}
  end.

Definition getModeLabel (mode : PricingMode) : jstr :=
  match mode with PerRequest => js "Per-request" | TieredExpr => js "Expression" | PerToken => js "Per-token" end.

Definition getModeBadgeVariant (mode : PricingMode) : jstr :=
  match mode with PerRequest => js "secondary" | TieredExpr => js "default" | PerToken => js "outline" end.

(** ** The panel *)

Record panel := {
  p_edit : option ModelRatioData;
  p_mode : PricingMode;
  p_promptPrice : jstr;
  p_prices : LaneKey → jstr;
  p_enabled : LaneKey → bool;
  p_billingExpr : jstr;
  p_requestRuleExpr : jstr;
  p_name : jstr;
  p_values : ratio_field → jstr;
}.

(** The effect that runs when the panel gets other data. *)
Definition openPanel (editData : option ModelRatioData) : panel :=
  let lanes := createInitialLaneState editData in
  match editData with
  | Some data => {|
      p_edit := editData;
      p_mode := if bool_decide (md_billingMode data = TieredExpr) then TieredExpr
                else if nonempty (md_value data FPrice) then PerRequest else PerToken;
      p_promptPrice := ls_promptPrice lanes; p_prices := ls_prices lanes; p_enabled := ls_enabled lanes;
      p_billingExpr := md_billingExpr data; p_requestRuleExpr := md_requestRuleExpr data;
      p_name := md_name data; p_values := md_value data |}
  | None => {|
      p_edit := None; p_mode := PerToken;
      p_promptPrice := ls_promptPrice lanes; p_prices := ls_prices lanes; p_enabled := ls_enabled lanes;
      p_billingExpr := []; p_requestRuleExpr := []; p_name := []; p_values := λ _, [] |}
  end.

Definition set_lanes (p : panel) (promptPrice : jstr) (prices : LaneKey → jstr) (enabled : LaneKey → bool)
    (values : ratio_field → jstr) : panel := {|
  p_edit := p_edit p; p_mode := p_mode p; p_promptPrice := promptPrice; p_prices := prices; p_enabled := enabled;
  p_billingExpr := p_billingExpr p; p_requestRuleExpr := p_requestRuleExpr p; p_name := p_name p; p_values := values |}.

Definition deriveLaneRatio (lane : LaneKey) (price nextPromptPrice : jstr) (nextLanePrices : LaneKey → jstr) : jstr :=
  match toNumberOrNull price with
  | None => []
  | Some priceNumber =>
    let over (denominator : jstr) :=
      match toNumberOrNull denominator with
      | Some d => if num_eqb d nzero then [] else formatPricingNumber (ndiv priceNumber d)
      | None => []
      end in
    match lane with
    | AudioOutput => over (nextLanePrices AudioInput)
    | _ => over nextPromptPrice
    end
  end.

Definition syncLaneRatios (promptPrice : jstr) (prices : LaneKey → jstr) (enabled : LaneKey → bool)
    (values : ratio_field → jstr) : ratio_field → jstr :=
  let values := with_key FRatio
    (match toNumberOrNull promptPrice with
     | Some inputPrice => formatPricingNumber (ndiv inputPrice (num_of_Z 2))
     | None => []
     end) values in
  foldl (λ values key,
    with_key (ratioFieldByLane key)
      (if enabled key then deriveLaneRatio key (prices key) promptPrice prices else []) values)
    values lane_keys.

Definition handlePromptPriceChange (value : jstr) (p : panel) : panel :=
  if numericDraftRegex value
  then set_lanes p value (p_prices p) (p_enabled p) (syncLaneRatios value (p_prices p) (p_enabled p) (p_values p))
  else p.

Definition handleLanePriceChange (lane : LaneKey) (value : jstr) (p : panel) : panel :=
  if numericDraftRegex value then
    let prices := with_key lane value (p_prices p) in
    let values := if p_enabled p lane
      then with_key (ratioFieldByLane lane) (deriveLaneRatio lane value (p_promptPrice p) prices) (p_values p)
      else p_values p in
    let values := if bool_decide (lane = AudioInput) && p_enabled p AudioOutput
      then with_key FAudioCompletionRatio
             (deriveLaneRatio AudioOutput (prices AudioOutput) (p_promptPrice p) prices) values
      else values in
    set_lanes p (p_promptPrice p) prices (p_enabled p) values
  else p.

Definition handleLaneToggle (lane : LaneKey) (checked : bool) (p : panel) : panel :=
  let enabled := with_key lane checked (p_enabled p) in
  if checked then
    set_lanes p (p_promptPrice p) (p_prices p) enabled
      (with_key (ratioFieldByLane lane) (deriveLaneRatio lane (p_prices p lane) (p_promptPrice p) (p_prices p)) (p_values p))
  else
    let prices := with_key lane [] (p_prices p) in
    let values := with_key (ratioFieldByLane lane) [] (p_values p) in
    if bool_decide (lane = AudioInput) then
      set_lanes p (p_promptPrice p) (with_key AudioOutput [] prices) (with_key AudioOutput false enabled)
        (with_key FAudioCompletionRatio [] values)
    else set_lanes p (p_promptPrice p) prices enabled values.

Definition set_text (p : panel) (mode : PricingMode) (billingExpr requestRuleExpr name : jstr)
    (values : ratio_field → jstr) : panel := {|
  p_edit := p_edit p; p_mode := mode; p_promptPrice := p_promptPrice p; p_prices := p_prices p;
  p_enabled := p_enabled p; p_billingExpr := billingExpr; p_requestRuleExpr := requestRuleExpr; p_name := name;
  p_values := values |}.

Definition handleModeChange (nextMode : PricingMode) (p : panel) : panel :=
  set_text p nextMode
    (if bool_decide (nextMode = TieredExpr) && negb (nonempty (p_billingExpr p))
     then jq "tier('base', p * 0 + c * 0)" else p_billingExpr p)
    (p_requestRuleExpr p) (p_name p) (p_values p).

Definition typeName (value : jstr) (p : panel) : panel :=
  set_text p (p_mode p) (p_billingExpr p) (p_requestRuleExpr p) value (p_values p).

Definition typePrice (value : jstr) (p : panel) : panel :=
  if numericDraftRegex value
  then set_text p (p_mode p) (p_billingExpr p) (p_requestRuleExpr p) (p_name p) (with_key FPrice value (p_values p))
  else p.

(** ** Warnings, errors and submission *)

(** The dependent prices that need an input price. *)
Definition input_missing (p : panel) : bool :=
  bool_decide (p_mode p = PerToken) &&
  match toNumberOrNull (p_promptPrice p) with Some _ => false | None => true end &&
  existsb (λ key, p_enabled p key && nonempty (p_prices p key)) lane_keys.

Definition audio_missing (p : panel) : bool :=
  bool_decide (p_mode p = PerToken) && p_enabled p AudioOutput && negb (nonempty (p_prices p AudioInput)).

Definition INPUT_REQUIRED : jstr := js "Input price is required before saving dependent prices.".
Definition AUDIO_REQUIRED : jstr := js "Audio output price requires an audio input price.".

Definition warnings (t : jstr → jstr) (p : panel) : list jstr :=
  let conflict := match p_edit p with
    | Some d => nonempty (md_value d FPrice) &&
        existsb (λ f, nonempty (md_value d f))
          [FRatio; FCompletionRatio; FCacheRatio; FCreateCacheRatio; FImageRatio; FAudioRatio; FAudioCompletionRatio]
    | None => false
    end in
  (if conflict then [t (js "This model has both fixed-price and token-price settings. Saving the current mode will rewrite the conflicting fields.")] else [])
  ++ (if input_missing p then [t INPUT_REQUIRED] else [])
  ++ (if audio_missing p then [t AUDIO_REQUIRED] else []).

(** The field and message of an error, or the data that [onSave] gets. *)
Definition handleSubmit (t : jstr → jstr) (p : panel) : (ratio_field * jstr) + ModelRatioData :=
  if input_missing p then inl (FRatio, t INPUT_REQUIRED)
  else if audio_missing p then inl (FAudioRatio, t AUDIO_REQUIRED)
  else
    let tiered := bool_decide (p_mode p = TieredExpr) in
    inr {| md_name := trim (p_name p); md_value := p_values p; md_billingMode := p_mode p;
           md_billingExpr := if tiered then p_billingExpr p else [];
           md_requestRuleExpr := if tiered then p_requestRuleExpr p else [] |}.

(** [form.handleSubmit(handleSubmit)]: the schema asks for a name before the handler runs. *)
Inductive form_field := NameField | RatioField (f : ratio_field).

Definition NAME_REQUIRED : jstr := js "Model name is required".

Definition submitForm (t : jstr → jstr) (p : panel) : (form_field * jstr) + ModelRatioData :=
  if nonempty (p_name p) then
    match handleSubmit t p with
    | inl (f, message) => inl (RatioField f, message)
    | inr data => inr data
    end
  else inl (NameField, t NAME_REQUIRED).

(** ** The preview *)

Record PreviewRow := { pv_key : jstr; pv_label : jstr; pv_value : jstr; pv_multiline : bool }.

Definition buildPreviewRows (t : jstr → jstr) (p : panel) : list PreviewRow :=
  let row key label value := {| pv_key := key; pv_label := label; pv_value := value; pv_multiline := false |} in
  let lane key := if p_enabled p key && nonempty (p_prices p key) then js "$" ++ p_prices p key else t (js "Empty") in
  match p_mode p with
  | TieredExpr =>
    [row (js "mode") (js "BillingMode") (js "tiered_expr");
     {| pv_key := js "expr"; pv_label := t (js "Expression");
        pv_value := str_or (combineBillingExpr (p_billingExpr p) (p_requestRuleExpr p)) (t (js "Empty"));
        pv_multiline := true |}]
  | PerRequest => [row (js "price") (js "ModelPrice") (str_or (p_values p FPrice) (t (js "Empty")))]
  | PerToken =>
    [row (js "inputPrice") (t (js "Input price"))
       (if nonempty (p_promptPrice p) then js "$" ++ p_promptPrice p else t (js "Empty"));
     row (js "completion") (t (js "Completion price")) (lane Completion);
     row (js "cache") (t (js "Cache read price")) (lane Cache);
     row (js "createCache") (t (js "Cache write price")) (lane CreateCache);
     row (js "image") (t (js "Image input price")) (lane Image);
     row (js "audio") (t (js "Audio input price")) (lane AudioInput);
     row (js "audioCompletion") (t (js "Audio output price")) (lane AudioOutput)]
  end.

(** ** Events: what the inputs that are shown and not disabled can do *)

Definition lane_disabled (p : panel) (lane : LaneKey) : bool :=
  bool_decide (lane = AudioOutput) && (negb (p_enabled p AudioInput) || negb (nonempty (p_prices p AudioInput))).

Inductive panel_step (p : panel) : panel → Prop :=
  | step_prompt v : p_mode p = PerToken → panel_step p (handlePromptPriceChange v p)
  | step_lane lane v :
      p_mode p = PerToken → p_enabled p lane = true → lane_disabled p lane = false →
      panel_step p (handleLanePriceChange lane v p)
  | step_toggle lane b :
      p_mode p = PerToken → lane_disabled p lane = false → panel_step p (handleLaneToggle lane b p)
  | step_mode m : panel_step p (handleModeChange m p)
  | step_name v : p_edit p = None → panel_step p (typeName v p)
  | step_price v : p_mode p = PerRequest → panel_step p (typePrice v p)
  | step_expr e r :
      p_mode p = TieredExpr → panel_step p (set_text p (p_mode p) e r (p_name p) (p_values p)).

Inductive reachable (data : option ModelRatioData) : panel → Prop :=
  | reach_open : reachable data (openPanel data)
  | reach_step p p' : reachable data p → panel_step p p' → reachable data p'.

(** The ratio that the input price stands for. *)
Definition input_ratio (promptPrice : jstr) : jstr :=
  match toNumberOrNull promptPrice with
  | Some x => formatPricingNumber (ndiv x (num_of_Z 2))
  | None => []
  end.

(** Lanes that are off have no price and no ratio. *)
Definition off_lanes_empty (p : panel) : Prop :=
  ∀ lane, p_enabled p lane = false → p_values p (ratioFieldByLane lane) = [] ∧ p_prices p lane = [].

(** The ratios are those of the prices shown. *)
Definition synced (p : panel) : Prop :=
  p_values p FRatio = input_ratio (p_promptPrice p) ∧
  ∀ lane, p_values p (ratioFieldByLane lane) =
    if p_enabled p lane then deriveLaneRatio lane (p_prices p lane) (p_promptPrice p) (p_prices p) else [].

Definition audio_ordered (p : panel) : Prop := p_enabled p AudioOutput = true → p_enabled p AudioInput = true.

Lemma with_key_same {K V} `{EqDecision K} (k : K) (v : V) f : with_key k v f k = v.
Proof. unfold with_key. by rewrite bool_decide_eq_true_2. Qed.

Lemma with_key_other {K V} `{EqDecision K} (k k' : K) (v : V) f : k ≠ k' → with_key k v f k' = f k'.
Proof. intros. unfold with_key. by rewrite bool_decide_eq_false_2. Qed.

Lemma lane_field_inj : Inj (=) (=) ratioFieldByLane.
Proof. by intros [] []. Qed.

Lemma with_lane {V} lane lane' (v : V) f :
  with_key (ratioFieldByLane lane) v f (ratioFieldByLane lane') = if bool_decide (lane = lane') then v else f (ratioFieldByLane lane').
Proof. unfold with_key. by destruct lane, lane'. Qed.

Lemma sync_values promptPrice prices enabled values :
  let v := syncLaneRatios promptPrice prices enabled values in
  v FRatio = input_ratio promptPrice ∧ v FPrice = values FPrice ∧
  ∀ lane, v (ratioFieldByLane lane) = if enabled lane then deriveLaneRatio lane (prices lane) promptPrice prices else [].
Proof. split; [done|]. split; [done|]. by intros []. Qed.

(** Only the ratio of the audio output depends on another lane. *)
Lemma derive_other lane lane' v price promptPrice prices :
  lane ≠ lane' → ¬ (lane' = AudioOutput ∧ lane = AudioInput) →
  deriveLaneRatio lane' price promptPrice (with_key lane v prices) = deriveLaneRatio lane' price promptPrice prices.
Proof.
  intros Hne Ha. unfold deriveLaneRatio. destruct (toNumberOrNull price); [|done].
  destruct lane'; try done. rewrite with_key_other; [done|]. naive_solver.
Qed.

Lemma prompt_syncs v p : numericDraftRegex v = true → synced (handlePromptPriceChange v p).
Proof. intros H. unfold handlePromptPriceChange. rewrite H. destruct (sync_values v (p_prices p) (p_enabled p) (p_values p)) as (? & _ & ?). done. Qed.

Lemma lane_price_synced lane v p :
  p_enabled p lane = true → synced p → synced (handleLanePriceChange lane v p).
Proof.
  intros He [Hr Hl]. unfold handleLanePriceChange. destruct (numericDraftRegex v); [|done]. rewrite He.
  unfold synced, set_lanes. cbn [p_values p_enabled p_prices p_promptPrice]. change FAudioCompletionRatio with (ratioFieldByLane AudioOutput).
  split.
  - rewrite <- Hr. destruct (bool_decide _ && _); [rewrite with_key_other by done|]; by rewrite with_key_other by by destruct lane.
  - intros lane'. destruct (decide (lane = lane')) as [<-|Hne].
    + rewrite He, with_key_same.
      destruct (bool_decide (lane = AudioInput) && p_enabled p AudioOutput) eqn:E.
      * boolify. subst lane. rewrite with_lane, bool_decide_eq_false_2 by done. by rewrite with_key_same.
      * by rewrite with_key_same.
    + rewrite (with_key_other lane lane') by done.
      destruct (decide (lane' = AudioOutput ∧ lane = AudioInput)) as [[-> ->]|Ho].
      * rewrite (bool_decide_eq_true_2 (AudioInput = AudioInput)) by done. cbn [andb]. specialize (Hl AudioOutput).
        destruct (p_enabled p AudioOutput); [by rewrite with_key_same, with_key_other by done|].
        by rewrite with_lane, bool_decide_eq_false_2.
      * rewrite (derive_other lane lane') by done. rewrite <- Hl.
        destruct (bool_decide (lane = AudioInput) && _) eqn:E; rewrite ?with_lane;
          rewrite ?(bool_decide_eq_false_2 (lane = lane')) by done; [|done].
        boolify. rewrite bool_decide_eq_false_2; [done|]. naive_solver.
Qed.

Lemma toggle_synced lane b p : synced p → synced (handleLaneToggle lane b p).
Proof.
  intros [Hr Hl]. unfold handleLaneToggle. change FAudioCompletionRatio with (ratioFieldByLane AudioOutput).
  assert (∀ lane (v : jstr) f, with_key (ratioFieldByLane lane) v f FRatio = f FRatio) as Hf by (by intros []).
  destruct b; [|destruct (bool_decide (lane = AudioInput)) eqn:E]; (split; [unfold set_lanes; cbn [p_values p_promptPrice]; by rewrite ?Hf|]);
    intros lane'; unfold set_lanes; cbn [p_values p_enabled p_prices p_promptPrice]; rewrite !with_lane;
    specialize (Hl lane').
  - unfold with_key. case_bool_decide; [by subst|done].
  - boolify. subst lane. destruct (decide (AudioOutput = lane')) as [<-|H1]; [reflexivity|].
    destruct (decide (AudioInput = lane')) as [<-|H2]; [reflexivity|].
    rewrite !bool_decide_eq_false_2, !(with_key_other _ lane') by done.
    rewrite (derive_other AudioOutput lane'), (derive_other AudioInput lane') by naive_solver. done.
  - boolify. destruct (decide (lane = lane')) as [<-|H1]; [by rewrite with_key_same, bool_decide_eq_true_2|].
    rewrite bool_decide_eq_false_2, !(with_key_other _ lane') by done. rewrite (derive_other lane lane') by naive_solver. done.
Qed.

Lemma step_synced p p' : panel_step p p' → synced p → synced p'.
Proof.
  destruct 1; intros Hs.
  - unfold handlePromptPriceChange. destruct (numericDraftRegex v) eqn:E; [|done].
    pose proof (prompt_syncs v p E) as Hp. unfold handlePromptPriceChange in Hp. by rewrite E in Hp.
  - by apply lane_price_synced.
  - by apply toggle_synced.
  - exact Hs.
  - exact Hs.
  - unfold typePrice. destruct (numericDraftRegex v); [|done]. destruct Hs as [Hr Hl]. split; [exact Hr|].
    intros lane. unfold set_text. cbn [p_values p_enabled p_prices p_promptPrice]. rewrite <- Hl. by destruct lane.
  - exact Hs.
Qed.

Lemma step_off p p' : panel_step p p' → off_lanes_empty p → off_lanes_empty p'.
Proof.
  destruct 1; intros Hs lane'; try exact (Hs lane').
  - unfold handlePromptPriceChange. destruct (numericDraftRegex v); [|apply Hs]. unfold set_lanes. cbn [p_values p_enabled p_prices].
    intros He. destruct (sync_values v (p_prices p) (p_enabled p) (p_values p)) as (_ & _ & ->). rewrite He.
    split; [done|]. by apply Hs.
  - unfold handleLanePriceChange. destruct (numericDraftRegex v); [|apply Hs]. unfold set_lanes. cbn [p_values p_enabled p_prices].
    change FAudioCompletionRatio with (ratioFieldByLane AudioOutput). intros He. destruct (Hs lane' He) as [Hv Hp].
    assert (lane ≠ lane') as Hne by congruence. rewrite H0, (with_key_other lane lane') by done. split; [|done].
    destruct (bool_decide _ && _) eqn:E; rewrite !with_lane; rewrite ?(bool_decide_eq_false_2 (lane = lane')) by done; [|done].
    boolify. rewrite bool_decide_eq_false_2; [done|]. congruence.
  - unfold handleLaneToggle. change FAudioCompletionRatio with (ratioFieldByLane AudioOutput).
    destruct b; [|destruct (bool_decide (lane = AudioInput)) eqn:E]; unfold set_lanes; cbn [p_values p_enabled p_prices];
      rewrite !with_lane; unfold with_key; specialize (Hs lane'); repeat case_bool_decide; naive_solver.
  - unfold typePrice. destruct (numericDraftRegex v); [|apply Hs]. intros He. destruct (Hs lane' He). by destruct lane'.
Qed.

Lemma step_audio p p' : panel_step p p' → audio_ordered p → audio_ordered p'.
Proof.
  unfold audio_ordered. destruct 1 as [v| lane v| lane b Hm Hd| | |v|]; intros Hs; try exact Hs.
  - unfold handlePromptPriceChange. by destruct (numericDraftRegex v).
  - unfold handleLanePriceChange. by destruct (numericDraftRegex v).
  - unfold handleLaneToggle, lane_disabled in *.
    destruct b; [|destruct (bool_decide (lane = AudioInput)) eqn:E]; unfold set_lanes; cbn [p_enabled]; unfold with_key;
      repeat case_bool_decide; subst; try done.
    intros _. by destruct (p_enabled p AudioInput).
  - unfold typePrice. by destruct (numericDraftRegex v).
Qed.

Lemma open_off data : off_lanes_empty (openPanel data).
Proof.
  intros lane. destruct data as [d|]; [|done]. cbn [openPanel p_enabled p_values p_prices createInitialLaneState ls_enabled ls_prices].
  destruct lane; cbn [ratioFieldByLane]; by destruct (md_value d _).
Qed.

Lemma reachable_off data p : reachable data p → off_lanes_empty p.
Proof. induction 1 as [|p p' _ IH Hs]; [apply open_off|by apply (step_off p)]. Qed.

Lemma reachable_synced p : reachable None p → synced p ∧ audio_ordered p.
Proof.
  induction 1 as [|p p' _ [IH Ha] Hs]; [done|]. split; [by apply (step_synced p)|by apply (step_audio p)].
Qed.

Lemma step_edit p p' : panel_step p p' → p_edit p' = p_edit p.
Proof.
  destruct 1; try done; unfold handlePromptPriceChange, handleLanePriceChange, handleLaneToggle, typePrice;
    repeat (case_match; try done).
Qed.

Lemma reachable_edit data p : reachable data p → p_edit p = data.
Proof. induction 1 as [|p p' _ IH Hs]; [by destruct data|]. by rewrite (step_edit _ _ Hs). Qed.

(** The price that the ratio of a lane refers to. *)
Definition base_price (p : panel) (lane : LaneKey) : jstr :=
  match lane with AudioOutput => p_prices p AudioInput | _ => p_promptPrice p end.

(** The saved ratio of a lane that is on: a quotient of two prices, or nothing. *)
Definition lane_saved (p : panel) (lane : LaneKey) (saved : jstr) : Prop :=
  (∃ x d, toNumberOrNull (p_prices p lane) = Some x ∧ toNumberOrNull (base_price p lane) = Some d ∧ num_eqb d nzero = false ∧
    saved = formatPricingNumber (ndiv x d)) ∨
  (saved = [] ∧ (toNumberOrNull (p_prices p lane) = None ∨ toNumberOrNull (base_price p lane) = None ∨
    ∃ d, toNumberOrNull (base_price p lane) = Some d ∧ num_eqb d nzero = true)).

Lemma derived_saved p lane : lane_saved p lane (deriveLaneRatio lane (p_prices p lane) (p_promptPrice p) (p_prices p)).
Proof.
  assert (deriveLaneRatio lane (p_prices p lane) (p_promptPrice p) (p_prices p) =
    match toNumberOrNull (p_prices p lane), toNumberOrNull (base_price p lane) with
    | Some x, Some d => if num_eqb d nzero then [] else formatPricingNumber (ndiv x d)
    | _, _ => []
    end) as -> by (unfold deriveLaneRatio, base_price; by destruct (toNumberOrNull (p_prices p lane)), lane).
  unfold lane_saved. destruct (toNumberOrNull (p_prices p lane)) as [x|]; [|by eauto].
  destruct (toNumberOrNull (base_price p lane)) as [d|]; [|by eauto]. destruct (num_eqb d nzero) eqn:E; [right|left]; eauto 10.
Qed.

(** C38: the price sheet when a model is added. Whatever was typed and switched before,
    submitting is refused exactly when the name is empty, with the error of the name,
    or a warning is shown, with one of the warnings as its error. Otherwise the saved data has the trimmed
    name and the chosen mode; the ratio of the input is half its price (none without a
    price); the ratio of every lane that is on is its price over the price it refers to,
    audio input for audio output and input for the others, as long as both are numbers and
    the latter is not zero, and is left out otherwise; the ratio and the price of a lane that is
    off are empty; and audio output is on only together with audio input. *)
Theorem panel_saves t p :
  reachable None p →
  ((p_name p ≠ [] ∧ warnings t p = []) ↔ ∃ data, submitForm t p = inr data) ∧
  (∀ field message, submitForm t p = inl (field, message) →
    if nonempty (p_name p) then message ∈ warnings t p else field = NameField ∧ message = t NAME_REQUIRED) ∧
  ∀ data, submitForm t p = inr data →
    md_name data = trim (p_name p) ∧ md_billingMode data = p_mode p ∧
    md_value data FRatio = input_ratio (p_promptPrice p) ∧
    (∀ lane, p_enabled p lane = true → lane_saved p lane (md_value data (ratioFieldByLane lane))) ∧
    (∀ lane, p_enabled p lane = false → md_value data (ratioFieldByLane lane) = [] ∧ p_prices p lane = []) ∧
    (p_enabled p AudioOutput = true → p_enabled p AudioInput = true).
Proof.
  intros Hr. destruct (reachable_synced p Hr) as [[Hv Hl] Ha]. pose proof (reachable_off _ _ Hr) as Hoff.
  unfold warnings, submitForm, handleSubmit. rewrite (reachable_edit _ _ Hr). cbn [app].
  destruct (p_name p) as [|c n] eqn:En; cbn [nonempty]; [by split_and!; [naive_solver|intros f m [= <- <-]|]|].
  split; [destruct (input_missing p), (audio_missing p); naive_solver|].
  split; [intros f m; destruct (input_missing p), (audio_missing p); intros [= <- <-]; apply list_elem_of_here|].
  intros data. destruct (input_missing p); [done|]. destruct (audio_missing p); [done|]. intros [= <-]. cbn [md_name md_billingMode md_value].
  split_and!; [done|done|done| |exact Hoff|exact Ha]. intros lane He. rewrite Hl, He. apply derived_saved.
Qed.

Definition demo_panel : panel :=
  handleLanePriceChange Completion (js "15")
    (handleLaneToggle Completion true (handlePromptPriceChange (js "3") (typeName (js "gpt") (openPanel None)))).

Lemma demo_panel_reachable : reachable None demo_panel.
Proof.
  unfold demo_panel. do 4 (eapply reach_step; [|constructor; reflexivity]). apply reach_open.
Qed.

Lemma panel_saves_witness :
  ∃ data, submitForm id demo_panel = inr data ∧ md_name data = js "gpt" ∧ md_value data FRatio = js "1.5" ∧
    lane_saved demo_panel Completion (md_value data FCompletionRatio) ∧ md_value data FCompletionRatio = js "5" ∧ md_value data FCacheRatio = [].
Proof.
  destruct (panel_saves id demo_panel demo_panel_reachable) as (_ & _ & H).
  destruct (submitForm id demo_panel) as [e|data] eqn:E; [vm_compute in E; discriminate|].
  destruct (H data eq_refl) as (Hn & _ & Hr & Hon & Hoff & _). exists data. split; [reflexivity|].
  split; [rewrite Hn; vm_compute; reflexivity|]. split; [rewrite Hr; vm_compute; reflexivity|]. split_and!.
  - apply (Hon Completion). vm_compute. reflexivity.
  - assert (data = match submitForm id demo_panel with inr d => d | inl _ => data end) as -> by by rewrite E. vm_compute. reflexivity.
  - destruct (Hoff Cache) as [Hc _]; [vm_compute; reflexivity|exact Hc].
Defined.

(** A free input and a paid output cannot be entered: with the input price zero the
    price of the output is accepted without a warning and left out. *)
Theorem free_input_loses_output :
  let p := handlePromptPriceChange (js "0") demo_panel in
  warnings id p = [] ∧ p_prices p Completion = js "15" ∧
  ∃ data, submitForm id p = inr data ∧ md_value data FRatio = js "0" ∧ md_value data FCompletionRatio = [].
Proof. cbv zeta. split_and!; [vm_compute; reflexivity..|]. eexists. split; [reflexivity|]. split; vm_compute; reflexivity. Qed.
