(* ===== verification/TieredEditor.v ===== *)
(** * The tiered price editor

    Model of [web/default/src/features/system-settings/models/tiered-pricing-editor.tsx]:
    the number inputs with a draft, the cards for tiers and request rules, the presets,
    and the component that keeps a configuration, an expression text and rule groups,
    and reports two texts to the panel through effects.  An effect sees the values of
    the render it belongs to; the two texts are props that the panel
    ([model-pricing-sheet.tsx]) sets to what is reported, and are part of the state. *)

From S2P Require Import Prelude JsString JsRegExp JsNumber Json BillingExpr BillingRules BillingRoundtrip TierExpr.
From Stdlib Require Import NArith ZArith SpecFloat.

(** ** Numbers while they are typed *)

(** [Number(uc) || 0]. *)
Definition unitCostToPrice (uc : num) : num := num_or0 uc.
Definition priceToUnitCost (price : num) : num := num_or0 price.

Section hints.
Variable toLocaleString : num → jstr.

(** [None] is null or undefined. *)
Definition formatTokenHint (n : option CondValue) : jstr :=
  match n with
  | None | Some (CVStr []) => []
  | Some n =>
    let v := match n with CVNum x => x | CVStr s => to_number s end in
    if is_nan v then []
    else if num_eqb v nzero then js "= 0"
    else if nle (num_of_Z 1000000) v then js "= " ++ toLocaleString (ndiv v (num_of_Z 1000000)) ++ js "M tokens"
    else if nle (num_of_Z 1000) v then js "= " ++ toLocaleString (ndiv v (num_of_Z 1000)) ++ js "K tokens"
    else js "= " ++ toLocaleString v ++ js " tokens"
  end.
End hints.

Definition formatNumberDraft (value : CondValue) : jstr :=
  match value with
  | CVStr s => s
  | CVNum x => if is_finite x then num_to_string x else js "0"
  end.

Definition parseNumberDraft (value : jstr) : num :=
  if str_eqb (trim value) [] then nzero
  else if is_finite (to_number value) then to_number value else nzero.

Definition isZeroDraft (value : jstr) : bool :=
  negb (str_eqb (trim value) []) && num_eqb (parseNumberDraft value) nzero.

(** An input with its draft; the value belongs to the caller and is what was reported last. *)
Record draft_input := { di_draft : jstr; di_focused : bool; di_value : CondValue }.

Definition mount_draft (value : CondValue) : draft_input :=
  {| di_draft := formatNumberDraft value; di_focused := false; di_value := value |}.

(** The effect on the focus and the value. *)
Definition sync_draft (d : draft_input) : draft_input :=
  if di_focused d then d
  else {| di_draft := formatNumberDraft (di_value d); di_focused := false; di_value := di_value d |}.

Definition handleChange (nextDraft : jstr) (d : draft_input) : draft_input :=
  sync_draft {| di_draft := nextDraft; di_focused := di_focused d; di_value := CVNum (parseNumberDraft nextDraft) |}.

(** The flag: the text is selected. *)
Definition handleFocus (selectZeroOnFocus : bool) (d : draft_input) : draft_input * bool :=
  (sync_draft {| di_draft := di_draft d; di_focused := true; di_value := di_value d |},
   selectZeroOnFocus && isZeroDraft (di_draft d)).

Definition handleBlur (d : draft_input) : draft_input :=
  let normalized := parseNumberDraft (di_draft d) in
  sync_draft {| di_draft := num_to_string normalized; di_focused := false; di_value := CVNum normalized |}.

(** ** A tier *)

(** The fields that a price input writes. *)
Inductive price_field := FInput | FOutput | FExtra (tierField : jstr).

Definition set_extra {A} (name : jstr) (v : A) (e : ExtraCosts A) : ExtraCosts A :=
  let upd k old := if str_eqb name (js k) then v else old in
  Extra (upd "cache_read_unit_cost" (cache_read_unit_cost e)) (upd "cache_create_unit_cost" (cache_create_unit_cost e))
    (upd "cache_create_1h_unit_cost" (cache_create_1h_unit_cost e)) (upd "image_unit_cost" (image_unit_cost e))
    (upd "image_output_unit_cost" (image_output_unit_cost e)) (upd "audio_input_unit_cost" (audio_input_unit_cost e))
    (upd "audio_output_unit_cost" (audio_output_unit_cost e)).

Definition with_conditions (conds : list TierConditionInput) (tier : VisualTier) : VisualTier :=
  {| vt_label := vt_label tier; vt_conditions := conds; input_unit_cost := input_unit_cost tier;
     output_unit_cost := output_unit_cost tier; cache_mode := cache_mode tier; extra_costs := extra_costs tier |}.

(** [conditions[i] = next] for the index of a shown row. *)
Definition handleConditionChange (i : nat) (next : TierConditionInput) (tier : VisualTier) : VisualTier :=
  with_conditions (<[i := next]> (vt_conditions tier)) tier.

Definition handleConditionRemove (i : nat) (tier : VisualTier) : VisualTier :=
  with_conditions (delete i (vt_conditions tier)) tier.

Definition handlePriceChange (field : price_field) (value : num) (tier : VisualTier) : VisualTier :=
  {| vt_label := vt_label tier; vt_conditions := vt_conditions tier;
     input_unit_cost := match field with FInput => value | _ => input_unit_cost tier end;
     output_unit_cost := match field with FOutput => value | _ => output_unit_cost tier end;
     cache_mode := cache_mode tier;
     extra_costs := match field with FExtra f => set_extra f (Some value) (extra_costs tier) | _ => extra_costs tier end |}.

Definition handleCacheModeChange (mode : CacheMode) (tier : VisualTier) : VisualTier :=
  {| vt_label := vt_label tier; vt_conditions := vt_conditions tier; input_unit_cost := input_unit_cost tier;
     output_unit_cost := output_unit_cost tier; cache_mode := mode;
     extra_costs := set_extra (js "cache_create_1h_unit_cost")
       (match mode with
        | CACHE_MODE_TIMED => Some (default nzero (cache_create_1h_unit_cost (extra_costs tier)))
        | CACHE_MODE_GENERIC => Some nzero
        end) (extra_costs tier) |}.

Definition handleLabelChange (label : jstr) (tier : VisualTier) : VisualTier :=
  {| vt_label := label; vt_conditions := vt_conditions tier; input_unit_cost := input_unit_cost tier;
     output_unit_cost := output_unit_cost tier; cache_mode := cache_mode tier; extra_costs := extra_costs tier |}.

(** ** The list of tiers: [config] is the normalized configuration *)

Definition handleTierChange (index : nat) (next : VisualTier) (config : VisualConfig) : VisualConfig :=
  {| tiers := <[index := normalizeVisualTier (partial_of_tier next)]> (tiers config) |}.

Definition default_bound : TierConditionInput := TCond (js "len") (js "<") (Some (CVNum (num_of_Z 200000))).

(** The last tier gets a bound when it has no condition. *)
Definition bound_last (ts : list VisualTier) : list VisualTier :=
  match last ts with
  | Some t => match vt_conditions t with
              | [] => <[pred (length ts) := normalizeVisualTier (partial_of_tier (with_conditions [default_bound] t))]> ts
              | _ => ts
              end
  | None => ts
  end.

Definition new_tier (n : nat) : VisualTier :=
  normalizeVisualTier {| p_label := Some (js "tier_" ++ dec (N.of_nat n + 1)); p_conditions := Some []; p_input := Some nzero;
                         p_output := Some nzero; p_cache_mode := None; p_extra := no_extra |}.

Definition handleAddTier (config : VisualConfig) : VisualConfig :=
  let ts := bound_last (tiers config) in
  {| tiers := ts ++ [new_tier (length ts)] |}.

Definition handleRemoveTier (index : nat) (config : VisualConfig) : VisualConfig :=
  match delete index (tiers config) with [] => config | ts => {| tiers := ts |} end.

(** [None]: nothing is reported. *)
Definition handleAddCondition (index : nat) (config : VisualConfig) : option VisualConfig :=
  tier ← tiers config !! index;
  if (2 <=? length (vt_conditions tier))%nat then None
  else
    let nextVar := if existsb (λ c, str_eqb (ci_var c) (js "len")) (vt_conditions tier) then js "c" else js "len" in
    Some {| tiers := <[index := with_conditions (vt_conditions tier ++ [TCond nextVar (js "<") (Some (CVNum (num_of_Z 200000)))]) tier]> (tiers config) |}.

(** ** Request rules *)

Definition handleSourceChange (source : jstr) (condition : RequestCondition) : RequestCondition :=
  if str_eqb source SOURCE_TIME then createEmptyTimeCondition
  else if str_eqb source SOURCE_HEADER then ParamHeaderCondition Header [] MATCH_EQ []
  else if str_eqb source SOURCE_PARAM then createEmptyCondition
  else condition.

(** [handleModeChange] of a condition row. *)
Definition handleMatchChange (mode : jstr) (condition : RequestCondition) : RequestCondition :=
  match condition with
  | TimeCondition f tz _ v s e => TimeCondition f tz mode v s e
  | ParamHeaderCondition src path _ v => ParamHeaderCondition src path mode v
  end.

(** [handleConditionChange], [handleAddCondition] and the removal of a rule card. *)
Definition change_group_condition (i : nat) (next : RequestCondition) (g : RequestRuleGroup) : RequestRuleGroup :=
  Group (<[i := next]> (conditions g)) (multiplier g).

Definition add_group_condition (timeMode : bool) (g : RequestRuleGroup) : RequestRuleGroup :=
  Group (conditions g ++ [if timeMode then createEmptyTimeCondition else createEmptyCondition]) (multiplier g).

Definition remove_group_condition (i : nat) (g : RequestRuleGroup) : RequestRuleGroup :=
  Group (delete i (conditions g)) (multiplier g).

Definition change_multiplier (value : num) (g : RequestRuleGroup) : RequestRuleGroup := Group (conditions g) (num_to_string value).

(** ** Presets *)

Record Preset := { ps_key : jstr; ps_label : jstr; ps_expr : jstr; ps_requestRules : list RequestRuleGroup }.

Definition preset (key label : string) (expr : jstr) (rules : list RequestRuleGroup) : Preset :=
  {| ps_key := js key; ps_label := js label; ps_expr := expr; ps_requestRules := rules |}.

Definition PRESET_GROUPS : list (jstr * list Preset) := [
  (js "Fixed price",
    [
     preset "flat" "Flat" (jq "tier('base', p * 2 + c * 4)")
       [];
     preset "claude-opus" "Claude Opus 4.6" (jq "tier('base', p * 5 + c * 25 + cr * 0.5 + cc * 6.25 + cc1h * 10)")
       [];
     preset "gpt-5.4" "GPT-5.4" (jq "len <= 272000 ? tier('standard', p * 2.5 + c * 15 + cr * 0.25) : tier('long_context', p * 5 + c * 22.5 + cr * 0.5)")
       []]);
  (js "Tiered",
    [
     preset "claude-sonnet" "Claude Sonnet 4.5" (jq "len <= 200000 ? tier('standard', p * 3 + c * 15 + cr * 0.3 + cc * 3.75 + cc1h * 6) : tier('long_context', p * 6 + c * 22.5 + cr * 0.6 + cc * 7.5 + cc1h * 12)")
       [];
     preset "qwen3-max" "Qwen3 Max" (jq "len <= 32000 ? tier('short', p * 1.2 + c * 6 + cr * 0.24 + cc * 1.5) : len <= 128000 ? tier('mid', p * 2.4 + c * 12 + cr * 0.48 + cc * 3) : tier('long', p * 3 + c * 15 + cr * 0.6 + cc * 3.75)")
       [];
     preset "glm-4.5-air" "GLM-4.5 Air" (jq "len < 32000 && c < 200 ? tier('short_output', p * 0.8 + c * 2 + cr * 0.16) : len < 32000 && c >= 200 ? tier('long_output', p * 0.8 + c * 6 + cr * 0.16) : tier('mid_context', p * 1.2 + c * 8 + cr * 0.24)")
       [];
     preset "doubao-seed-1.8" "Doubao Seed 1.8" (jq "len <= 32000 && c <= 200 ? tier('discount', p * 0.8 + c * 2 + cr * 0.16 + cc * 0.17) : len <= 32000 ? tier('short', p * 0.8 + c * 8 + cr * 0.16 + cc * 0.17) : len <= 128000 ? tier('mid', p * 1.2 + c * 16 + cr * 0.16 + cc * 0.17) : tier('long', p * 2.4 + c * 24 + cr * 0.16 + cc * 0.17)")
       []]);
  (js "Multimodal",
    [
     preset "gpt-image-1-mini" "GPT Image 1 Mini" (jq "tier('base', p * 2 + c * 8 + img * 2.5)")
       [];
     preset "gemini-2.5-flash" "Gemini 2.5 Flash" (jq "tier('base', p * 0.3 + c * 2.5 + cr * 0.03 + ai * 1.0)")
       [];
     preset "gemini-3-pro-image" "Gemini 3 Pro Image" (jq "tier('base', p * 2 + c * 12 + img_o * 120)")
       [];
     preset "qwen3-omni-flash" "Qwen3 Omni Flash" (jq "tier('base', p * 0.43 + c * 3.06 + img * 0.78 + ai * 3.81 + ao * 15.11)")
       []]);
  (js "Request rule",
    [
     preset "claude-opus-fast" "Claude Opus 4.6 Fast" (jq "tier('base', p * 5 + c * 25 + cr * 0.5 + cc * 6.25 + cc1h * 10)")
       [Group [ParamHeaderCondition Header (js "anthropic-beta") MATCH_CONTAINS (js "fast-mode-2026-02-01")] (js "6")];
     preset "gpt-5.4-tiers" "GPT-5.4 Priority/Flex" (jq "len <= 272000 ? tier('standard', p * 2.5 + c * 15 + cr * 0.25) : tier('long_context', p * 5 + c * 22.5 + cr * 0.5)")
       [Group [ParamHeaderCondition Param (js "service_tier") MATCH_EQ (js "priority")] (js "2");
        Group [ParamHeaderCondition Param (js "service_tier") MATCH_EQ (js "flex")] (js "0.5")]]);
  (js "Time-based",
    [
     preset "night-discount" "Night discount (50%)" (jq "tier('base', p * 3 + c * 15)")
       [Group [TimeCondition (js "hour") (js "Asia/Shanghai") MATCH_RANGE (js "") (js "21") (js "6")] (js "0.5")];
     preset "weekend-discount" "Weekend discount (80%)" (jq "tier('base', p * 3 + c * 15)")
       [Group [TimeCondition (js "weekday") (js "Asia/Shanghai") MATCH_EQ (js "0") (js "") (js "")] (js "0.8");
        Group [TimeCondition (js "weekday") (js "Asia/Shanghai") MATCH_EQ (js "6") (js "") (js "")] (js "0.8")]])].

(** The groups that the preset section shows. *)
Definition visible_presets (expanded : bool) : list (jstr * list Preset) :=
  if expanded then PRESET_GROUPS else take 2 PRESET_GROUPS.

(** ** The component *)

Inductive EditorMode := Visual | Raw.

#[export] Instance EditorMode_eq_dec : EqDecision EditorMode.
Proof. solve_decision. Defined.

Record editor := {
  te_mode : EditorMode;
  te_visual : option VisualConfig;
  te_raw : jstr;
  te_groups : list RequestRuleGroup;
  te_init : bool;                       (** [initRef.current] *)
  te_model : jstr;                      (** the props, as the panel holds them *)
  te_expr : jstr;
  te_rules : jstr;
  te_seen : option (jstr * jstr);       (** what the first two effects depended on when *)
  te_seen_model : option jstr;          (** they ran last *)
}.

(** [tryParseRequestRuleExpr(s) || []]. *)
Definition groups_or_none (rules : jstr) : exn (list RequestRuleGroup) :=
  g ← tryParseRequestRuleExpr rules; Ret (default [] g).

(** The initial state. *)
Definition mount_editor (modelName billing rules : jstr) : exn editor :=
  groups ← groups_or_none rules;
  Ret {| te_mode := Visual; te_visual := tryParseVisualConfig (Some billing); te_raw := combineBillingExpr billing rules;
         te_groups := groups; te_init := false; te_model := modelName; te_expr := billing; te_rules := rules;
         te_seen := None; te_seen_model := None |}.

Definition canUseVisualRules (rules : jstr) : exn bool :=
  if negb (nonempty rules) then Ret true
  else g ← tryParseRequestRuleExpr rules; Ret (match g with Some _ => true | None => false end).

Definition effectiveExpr (s : editor) : exn jstr :=
  match te_mode s with
  | Visual => Ret (generateExprFromVisualConfig (te_visual s))
  | Raw => sp ← splitBillingExprAndRequestRules (te_raw s); Ret (billingExpr sp)
  end.

(** The first effect: it runs when one of the two texts differs from those it saw. *)
Definition init_effect (s : editor) : exn editor :=
  let seen := Some (te_expr s, te_rules s) in
  if bool_decide (te_seen s = seen) then Ret s
  else if te_init s then
    Ret {| te_mode := te_mode s; te_visual := te_visual s; te_raw := te_raw s; te_groups := te_groups s;
           te_init := true; te_model := te_model s; te_expr := te_expr s; te_rules := te_rules s;
           te_seen := seen; te_seen_model := te_seen_model s |}
  else
    let parsedConfig := tryParseVisualConfig (Some (te_expr s)) in
    groups ← groups_or_none (te_rules s);
    Ret {| te_mode := match parsedConfig with Some _ => Visual | None => if nonempty (te_expr s) then Raw else te_mode s end;
           te_visual := match parsedConfig with
             | Some c => Some c
             | None => if nonempty (te_expr s) then None else Some createDefaultVisualConfig
             end;
           te_raw := combineBillingExpr (te_expr s) (te_rules s); te_groups := groups;
           te_init := true; te_model := te_model s; te_expr := te_expr s; te_rules := te_rules s;
           te_seen := seen; te_seen_model := te_seen_model s |}.

(** The second effect, on the name of the model. *)
Definition model_effect (s : editor) : editor :=
  if bool_decide (te_seen_model s = Some (te_model s)) then s
  else {| te_mode := te_mode s; te_visual := te_visual s; te_raw := te_raw s; te_groups := te_groups s;
          te_init := false; te_model := te_model s; te_expr := te_expr s; te_rules := te_rules s;
          te_seen := te_seen s; te_seen_model := Some (te_model s) |}.

(** The panel stores what is reported. *)
Definition report (billing rules : jstr) (s : editor) : editor :=
  {| te_mode := te_mode s; te_visual := te_visual s; te_raw := te_raw s; te_groups := te_groups s;
     te_init := te_init s; te_model := te_model s; te_expr := billing; te_rules := rules;
     te_seen := te_seen s; te_seen_model := te_seen_model s |}.

(** One render with its effects, in their order: the last two report, when a text differs
    from the prop, what the rendered state [s] says. *)
Definition pass (s : editor) : exn editor :=
  _ ← canUseVisualRules (te_rules s);
  effective ← effectiveExpr s;
  s' ← init_effect s;
  Ret (report effective
         (match te_mode s with Visual => buildRequestRuleExpr (te_groups s) | Raw => te_rules s end) (model_effect s')).

Fixpoint passes (n : nat) (s : editor) : exn editor :=
  match n with O => Ret s | S n => s' ← pass s; passes n s' end.

(** Renders follow until nothing changes; five are enough. *)
Definition settle (s : editor) : exn editor := passes 5 s.

Definition handleVisualChange (next : VisualConfig) (s : editor) : editor :=
  {| te_mode := te_mode s; te_visual := Some next; te_raw := te_raw s; te_groups := te_groups s;
     te_init := te_init s; te_model := te_model s; te_expr := te_expr s; te_rules := te_rules s;
     te_seen := te_seen s; te_seen_model := te_seen_model s |}.

Definition handleRuleGroupsChange (next : list RequestRuleGroup) (s : editor) : editor :=
  {| te_mode := te_mode s; te_visual := te_visual s; te_raw := te_raw s; te_groups := next;
     te_init := te_init s; te_model := te_model s; te_expr := te_expr s; te_rules := te_rules s;
     te_seen := te_seen s; te_seen_model := te_seen_model s |}.

Definition handleRawChange (value : jstr) (s : editor) : exn editor :=
  sp ← splitBillingExprAndRequestRules value;
  Ret {| te_mode := te_mode s; te_visual := te_visual s; te_raw := value; te_groups := te_groups s;
         te_init := te_init s; te_model := te_model s; te_expr := te_expr s; te_rules := requestRuleExpr sp;
         te_seen := te_seen s; te_seen_model := te_seen_model s |}.

Definition handleModeChange (next : EditorMode) (s : editor) : exn editor :=
  match next with
  | Visual =>
    sp ← splitBillingExprAndRequestRules (te_raw s);
    groups ← groups_or_none (requestRuleExpr sp);
    Ret {| te_mode := Visual;
           te_visual := Some (default createDefaultVisualConfig (tryParseVisualConfig (Some (billingExpr sp))));
           te_raw := te_raw s; te_groups := groups;
           te_init := te_init s; te_model := te_model s; te_expr := te_expr s; te_rules := requestRuleExpr sp;
           te_seen := te_seen s; te_seen_model := te_seen_model s |}
  | Raw =>
    let expr := generateExprFromVisualConfig (te_visual s) in
    Ret {| te_mode := Raw; te_visual := te_visual s;
           te_raw := str_or (combineBillingExpr expr (buildRequestRuleExpr (te_groups s))) expr; te_groups := te_groups s;
           te_init := te_init s; te_model := te_model s; te_expr := te_expr s; te_rules := te_rules s;
           te_seen := te_seen s; te_seen_model := te_seen_model s |}
  end.

Definition applyPreset (preset : Preset) (s : editor) : editor :=
  let ruleExpr := buildRequestRuleExpr (ps_requestRules preset) in
  let parsed := tryParseVisualConfig (Some (ps_expr preset)) in
  {| te_mode := match parsed with Some _ => Visual | None => Raw end;
     te_visual := parsed;
     te_raw := str_or (combineBillingExpr (ps_expr preset) ruleExpr) (ps_expr preset);
     te_groups := ps_requestRules preset;
     te_init := te_init s; te_model := te_model s; te_expr := te_expr s; te_rules := ruleExpr;
     te_seen := te_seen s; te_seen_model := te_seen_model s |}.

(** The panel shows another model: all three props change. *)
Definition show_model (modelName billing rules : jstr) (s : editor) : editor :=
  {| te_mode := te_mode s; te_visual := te_visual s; te_raw := te_raw s; te_groups := te_groups s;
     te_init := te_init s; te_model := modelName; te_expr := billing; te_rules := rules;
     te_seen := te_seen s; te_seen_model := te_seen_model s |}.

(** ** Renders settle *)

(** The rule text that the fourth effect leaves. *)
Definition reported_rules (s : editor) : jstr :=
  match te_mode s with Visual => buildRequestRuleExpr (te_groups s) | Raw => te_rules s end.

(** The state that only the first effect and the user change. *)
Definition core (s : editor) := (te_mode s, te_visual s, te_raw s, te_groups s).

Lemma pass_inv s s' :
  pass s = Ret s' →
  ∃ b e s1, canUseVisualRules (te_rules s) = Ret b ∧ effectiveExpr s = Ret e ∧ init_effect s = Ret s1 ∧
    s' = report e (reported_rules s) (model_effect s1).
Proof.
  unfold pass. destruct (canUseVisualRules _) as [b|]; [|done]. destruct (effectiveExpr s) as [e|]; [|done].
  destruct (init_effect s) as [s1|]; [|done]. cbn [mbind exn_bind]. intros [= <-]. by exists b, e, s1.
Qed.

Lemma pass_intro s b e s1 :
  canUseVisualRules (te_rules s) = Ret b → effectiveExpr s = Ret e → init_effect s = Ret s1 →
  pass s = Ret (report e (reported_rules s) (model_effect s1)).
Proof. intros H1 H2 H3. unfold pass. rewrite H1, H2, H3. reflexivity. Qed.

Lemma core_effective s s' : core s = core s' → effectiveExpr s = effectiveExpr s'.
Proof. unfold core, effectiveExpr. intros [= E1 E2 E3 E4]. by rewrite E1, E2, E3. Qed.

Lemma core_rules s s' : core s = core s' → te_rules s' = reported_rules s → reported_rules s' = te_rules s'.
Proof. unfold core, reported_rules. intros [= E1 E2 E3 E4]. rewrite <- E1, <- E4. by destruct (te_mode s). Qed.

Lemma Ret_inj {A} (x y : A) : Ret x = Ret y → x = y.
Proof. congruence. Qed.

(** What the first effect does to the flag, and when it leaves the rest alone. *)
Lemma init_effect_inv s s1 :
  init_effect s = Ret s1 →
  te_seen s1 = Some (te_expr s, te_rules s) ∧ te_model s1 = te_model s ∧ te_seen_model s1 = te_seen_model s ∧
  (te_seen s = Some (te_expr s, te_rules s) → s1 = s) ∧
  (te_seen s ≠ Some (te_expr s, te_rules s) → te_init s1 = true) ∧
  (te_init s = true → te_init s1 = true ∧ core s1 = core s).
Proof.
  unfold init_effect. case_bool_decide as E; [intros [= <-]; by rewrite E|].
  destruct (te_init s) eqn:Ei; [by intros [= <-]|]. destruct (groups_or_none _); [|done]. intros H%Ret_inj. subst s1.
  split_and!; [reflexivity..|intros ?; contradiction|intros _; reflexivity|discriminate].
Qed.

(** No more initializations: the flag is set and the model has been seen. *)
Definition inert (s : editor) : Prop := te_init s = true ∧ te_seen_model s = Some (te_model s).

Lemma pass_seen_model s s' : pass s = Ret s' → te_model s' = te_model s ∧ te_seen_model s' = Some (te_model s').
Proof.
  intros (b & e & s1 & _ & _ & (_ & Hm & _)%init_effect_inv & ->)%pass_inv. unfold model_effect.
  cbn [report te_model te_seen_model]. case_bool_decide as E; cbn [te_model te_seen_model]; [|by rewrite Hm].
  by rewrite E, Hm.
Qed.

Lemma pass_inert s s' :
  inert s → pass s = Ret s' →
  inert s' ∧ core s' = core s ∧ effectiveExpr s = Ret (te_expr s') ∧ te_rules s' = reported_rules s ∧
  te_seen s' = Some (te_expr s, te_rules s).
Proof.
  intros [Hi Hm] (b & e & s1 & _ & He & (H1 & H2 & H3 & _ & _ & H6)%init_effect_inv & ->)%pass_inv.
  destruct (H6 Hi) as [Hi1 Hc]. unfold model_effect. rewrite bool_decide_eq_true_2 by congruence.
  unfold inert, core in *. cbn [report te_mode te_visual te_raw te_groups te_init te_model te_expr te_rules te_seen te_seen_model].
  split_and!; congruence.
Qed.

(** A state that shows what it reports and whose first two effects have nothing to do. *)
Definition settled (s : editor) : Prop :=
  te_seen s = Some (te_expr s, te_rules s) ∧ te_seen_model s = Some (te_model s) ∧
  effectiveExpr s = Ret (te_expr s) ∧ reported_rules s = te_rules s ∧ ∃ b, canUseVisualRules (te_rules s) = Ret b.

Lemma settled_pass s : settled s → pass s = Ret s.
Proof.
  intros (H1 & H2 & H3 & H4 & b & H5). rewrite (pass_intro s b (te_expr s) s); [|done..|].
  - unfold model_effect. rewrite bool_decide_eq_true_2 by done. rewrite H4. by destruct s.
  - unfold init_effect. by rewrite bool_decide_eq_true_2.
Qed.

Lemma inert_settles s s1 s2 : inert s → pass s = Ret s1 → pass s1 = Ret s2 → settled s2.
Proof.
  intros Hs H1 H2. destruct (pass_inert s s1 Hs H1) as (Hi1 & Hc1 & He1 & Hr1 & _).
  destruct (pass_inert s1 s2 Hi1 H2) as (Hi2 & Hc2 & He2 & Hr2 & Hseen).
  assert (reported_rules s1 = te_rules s1) as Er1 by (eapply core_rules; [symmetry; exact Hc1|done]).
  assert (te_expr s2 = te_expr s1) as Ee by (rewrite (core_effective s1 s Hc1), He1 in He2; congruence).
  assert (te_rules s2 = te_rules s1) as Er by congruence.
  assert (reported_rules s2 = te_rules s2) as Er2 by (eapply core_rules; [symmetry; exact Hc2|done]).
  destruct (pass_inv s1 s2 H2) as (b & _ & _ & Hb & _).
  split_and!; [congruence|apply Hi2| |done|exists b; congruence]. rewrite (core_effective s2 s1 Hc2). congruence.
Qed.

Lemma passes_S n s s' : passes (S n) s = Ret s' → ∃ s1, pass s = Ret s1 ∧ passes n s1 = Ret s'.
Proof. cbn [passes]. destruct (pass s) as [s1|]; [|done]. intros H. by exists s1. Qed.

Lemma passes_settled n s s' : settled s → passes n s = Ret s' → s' = s.
Proof.
  intros Hs. induction n as [|n IH]; [by intros [= <-]|]. intros (s1 & H1 & H2)%passes_S.
  rewrite settled_pass in H1 by done. injection H1 as <-. by apply IH.
Qed.

Lemma inert_passes n s s' : inert s → passes (2 + n) s = Ret s' → settled s'.
Proof.
  intros Hs (s1 & H1 & (s2 & H2 & H3)%passes_S)%passes_S. pose proof (inert_settles s s1 s2 Hs H1 H2) as Hs2.
  by rewrite (passes_settled n s2 s' Hs2 H3).
Qed.

(** Not yet initialized, but the model has been seen. *)
Lemma waiting_passes n s s' :
  te_seen_model s = Some (te_model s) → passes (4 + n) s = Ret s' → settled s'.
Proof.
  intros Hm H. destruct (te_init s) eqn:Ei; [exact (inert_passes (2 + n) s s' (conj Ei Hm) H)|].
  apply passes_S in H as (s1 & H1 & H). destruct (pass_seen_model s s1 H1) as [_ Hm1].
  destruct (te_init s1) eqn:Ei1; [exact (inert_passes (1 + n) s1 s' (conj Ei1 Hm1) H)|].
  apply passes_S in H as (s2 & H2 & H). destruct (pass_seen_model s1 s2 H2) as [_ Hm2].
  destruct (te_init s2) eqn:Ei2; [exact (inert_passes n s2 s' (conj Ei2 Hm2) H)|].
  (* neither pass has initialized, so the first has reported and the second seen it *)
  assert (∀ x y, te_seen_model x = Some (te_model x) → pass x = Ret y → te_init y = false →
    te_seen x = Some (te_expr x, te_rules x) ∧ core y = core x ∧ te_seen y = te_seen x ∧
    effectiveExpr x = Ret (te_expr y) ∧ te_rules y = reported_rules x) as Hstep.
  { intros x y Hx (b & e & x1 & _ & He & (_ & Hmx & Hsx & Heq & Hne & _)%init_effect_inv & ->)%pass_inv.
    unfold model_effect. rewrite bool_decide_eq_true_2 by congruence. cbn [report te_init]. intros Hi.
    destruct (decide (te_seen x = Some (te_expr x, te_rules x))) as [E|E]; [|by rewrite (Hne E) in Hi].
    rewrite (Heq E). done. }
  destruct (Hstep s s1 Hm H1 Ei1) as (S0 & C1 & S1 & E1 & R1). destruct (Hstep s1 s2 Hm1 H2 Ei2) as (S1' & C2 & S2 & E2 & R2).
  assert (te_expr s2 = te_expr s1) as Ee by (rewrite (core_effective s1 s C1), E1 in E2; congruence).
  assert (reported_rules s1 = te_rules s1) as Er by (eapply core_rules; [symmetry; exact C1|done]).
  destruct (pass_inv s1 s2 H2) as (b & _ & _ & Hb & _).
  assert (settled s1) as Hs1.
  { split_and!; [done|done| |done|by exists b]. by rewrite <- Ee. }
  rewrite settled_pass in H2 by done. injection H2 as <-. by rewrite (passes_settled _ s1 s' Hs1 H).
Qed.

(** C23: the renders of the price editor come to rest: whatever the state (just opened,
    after any edit, or with other props from the panel), after at most five renders
    nothing changes any more, unless one of them throws; and then the panel holds
    exactly what the editor shows: the expression of the tiers, or of the text in the
    text mode, and in the visual mode the text of the rule groups. *)
Theorem editor_settles s s' :
  settle s = Ret s' →
  pass s' = Ret s' ∧ effectiveExpr s' = Ret (te_expr s') ∧
  (te_mode s' = Visual → te_rules s' = buildRequestRuleExpr (te_groups s')).
Proof.
  intros H. assert (settled s') as Hs.
  { apply (passes_S 4) in H as (s1 & H1 & H). destruct (pass_seen_model s s1 H1) as [_ Hm]. exact (waiting_passes 0 s1 s' Hm H). }
  split_and!; [by apply settled_pass|by apply Hs|]. intros Hv. destruct Hs as (_ & _ & _ & Hr & _).
  unfold reported_rules in Hr. by rewrite Hv in Hr.
Qed.

(** ** What is shown and reported in the visual mode *)

(** Tiers and rules that their own text opens again. *)
Definition stable_config (cfg : VisualConfig) : Prop :=
  tryParseVisualConfig (Some (generateExprFromVisualConfig (Some cfg))) = Some cfg.

Definition stable_rules (gs : list RequestRuleGroup) : Prop :=
  tryParseRequestRuleExpr (buildRequestRuleExpr gs) = Ret (Some gs).

Definition shows_rules (cfg : VisualConfig) (gs : list RequestRuleGroup) (s : editor) : Prop :=
  te_mode s = Visual ∧ te_visual s = Some cfg ∧ te_groups s = gs.

Definition holds_texts (cfg : VisualConfig) (gs : list RequestRuleGroup) (s : editor) : Prop :=
  te_expr s = generateExprFromVisualConfig (Some cfg) ∧ te_rules s = buildRequestRuleExpr gs.

Lemma report_core e r s : core (report e r (model_effect s)) = core s.
Proof. unfold model_effect. by case_bool_decide. Qed.

Lemma shows_core cfg gs s s' : core s = core s' → shows_rules cfg gs s → shows_rules cfg gs s'.
Proof. unfold core, shows_rules. intros [= E1 E2 E3 E4]. by rewrite E1, E2, E4. Qed.

Lemma stable_usable gs : stable_rules gs → ∃ b, canUseVisualRules (buildRequestRuleExpr gs) = Ret b.
Proof. intros H. unfold canUseVisualRules. destruct (negb _); [by eexists|]. rewrite H. by eexists. Qed.

(** The first effect changes nothing that is shown when the texts are those of stable tiers and rules. *)
Lemma init_stable cfg gs s :
  stable_config cfg → stable_rules gs → shows_rules cfg gs s → holds_texts cfg gs s →
  ∃ s1, init_effect s = Ret s1 ∧ shows_rules cfg gs s1.
Proof.
  intros Hc Hg (E1 & E2 & E3) [E4 E5]. unfold init_effect, groups_or_none. rewrite E4, E5, Hc, Hg. cbn [mbind exn_bind].
  case_bool_decide; [by eexists|]. destruct (te_init s); by eexists.
Qed.

Lemma stable_pass cfg gs s :
  stable_config cfg → stable_rules gs → shows_rules cfg gs s → holds_texts cfg gs s →
  ∃ s', pass s = Ret s' ∧ shows_rules cfg gs s' ∧ holds_texts cfg gs s'.
Proof.
  intros Hc Hg Hs Ht. destruct (init_stable cfg gs s Hc Hg Hs Ht) as (s1 & E1 & Hs1). destruct (stable_usable gs Hg) as [b Hb].
  eexists. split; [apply (pass_intro s b (generateExprFromVisualConfig (Some cfg)) s1)|]; [| |done|].
  - destruct Ht as [_ ->]. exact Hb.
  - destruct Hs as (Em & Ev & _). unfold effectiveExpr. by rewrite Em, Ev.
  - split; [by eapply shows_core; [symmetry; apply report_core|]|]. split; [reflexivity|].
    destruct Hs as (Em & _ & Eg). cbn [report te_rules]. unfold reported_rules. by rewrite Em, Eg.
Qed.

Lemma stable_passes cfg gs n s :
  stable_config cfg → stable_rules gs → shows_rules cfg gs s → holds_texts cfg gs s →
  ∃ s', passes n s = Ret s' ∧ shows_rules cfg gs s' ∧ holds_texts cfg gs s'.
Proof.
  intros Hc Hg. revert s. induction n as [|n IH]; intros s Hs Ht; [by exists s|].
  destruct (stable_pass cfg gs s Hc Hg Hs Ht) as (s1 & E1 & Hs1 & Ht1). cbn [passes]. rewrite E1. exact (IH s1 Hs1 Ht1).
Qed.

(** A first render that reports the texts of what it leaves. *)
Lemma settles_from cfg gs s b s1 :
  stable_config cfg → stable_rules gs → canUseVisualRules (te_rules s) = Ret b → shows_rules cfg gs s →
  init_effect s = Ret s1 → shows_rules cfg gs s1 →
  ∃ s', settle s = Ret s' ∧ shows_rules cfg gs s' ∧ holds_texts cfg gs s'.
Proof.
  intros Hc Hg Hb Hs E1 Hs1. unfold settle. cbn [passes].
  rewrite (pass_intro s b (generateExprFromVisualConfig (Some cfg)) s1 Hb); [|destruct Hs as (Em & Ev & _); unfold effectiveExpr; by rewrite Em, Ev|done].
  apply (stable_passes cfg gs 4); [done..| |].
  - eapply shows_core; [symmetry; apply report_core|done].
  - split; [reflexivity|]. destruct Hs as (Em & _ & Eg). cbn [report te_rules]. unfold reported_rules. by rewrite Em, Eg.
Qed.

(** Opening a model whose expression and rules the editor can show, in tiers and groups
    that their own texts open again, shows exactly these tiers and groups, and the
    panel holds their texts: opening changes at most the spelling. *)
Theorem editor_opens m e r cfg gs :
  tryParseVisualConfig (Some e) = Some cfg → tryParseRequestRuleExpr r = Ret (Some gs) →
  stable_config cfg → stable_rules gs →
  ∃ s s', mount_editor m e r = Ret s ∧ settle s = Ret s' ∧ shows_rules cfg gs s' ∧ holds_texts cfg gs s'.
Proof.
  intros He Hr Hc Hg.
  assert (∃ s, mount_editor m e r = Ret s ∧ shows_rules cfg gs s ∧ te_expr s = e ∧ te_rules s = r ∧ te_init s = false ∧ te_seen s = None)
    as (s & Em & Hs & E1 & E2 & E3 & E4).
  { unfold mount_editor, groups_or_none. rewrite He, Hr. cbn [mbind exn_bind]. eexists. split; [reflexivity|]. done. }
  assert (∃ b, canUseVisualRules (te_rules s) = Ret b) as [b Hb].
  { rewrite E2. unfold canUseVisualRules. destruct (negb _); [by eexists|]. rewrite Hr. by eexists. }
  assert (∃ s1, init_effect s = Ret s1 ∧ shows_rules cfg gs s1) as (s1 & Hi & Hs1).
  { unfold init_effect, groups_or_none. rewrite E1, E2, E3, E4, He, Hr. rewrite bool_decide_eq_false_2 by done.
    cbn [mbind exn_bind]. eexists. split; [reflexivity|]. done. }
  destruct (settles_from cfg gs s b s1 Hc Hg Hb Hs Hi Hs1) as (s' & Es & H). exists s, s'. exact (conj Em (conj Es H)).
Qed.

(** C25: an edit of the tiers and the rule groups in the visual mode stays: from a state at
    rest, changing to tiers and groups that their texts open again ends in a state at
    rest that shows them, and the panel holds their texts. *)
Theorem visual_edit_kept s cfg gs :
  settled s → te_mode s = Visual → stable_config cfg → stable_rules gs →
  ∃ s', settle (handleRuleGroupsChange gs (handleVisualChange cfg s)) = Ret s' ∧ settled s' ∧
    shows_rules cfg gs s' ∧ holds_texts cfg gs s'.
Proof.
  intros Hset Hv Hc Hg. set (s0 := handleRuleGroupsChange gs (handleVisualChange cfg s)).
  assert (shows_rules cfg gs s0) as Hs0 by done. destruct Hset as (H1 & H2 & _ & _ & b & Hb).
  assert (init_effect s0 = Ret s0) as Hi by (unfold init_effect; rewrite bool_decide_eq_true_2 by exact H1; reflexivity).
  destruct (settles_from cfg gs s0 b s0 Hc Hg Hb Hs0 Hi Hs0) as (s' & Es & Hs' & Ht'). exists s'. split_and!; [done| |done..].
  exact (waiting_passes 1 s0 s' H2 Es).
Qed.

(** ** Switching the mode *)

(** The combined text falls apart into the two texts again. *)
Definition splits_back (e r : jstr) : Prop :=
  splitBillingExprAndRequestRules (str_or (combineBillingExpr e r) e) = Ret {| billingExpr := e; requestRuleExpr := r |}.

(** From a state at rest in the visual mode, switching to the text mode leaves the two
    texts of the panel alone and is at rest at once; switching back shows the same
    tiers and groups again, and the texts are still the same. *)
Theorem mode_switch_back s cfg gs :
  settled s → shows_rules cfg gs s → holds_texts cfg gs s → stable_config cfg → stable_rules gs →
  splits_back (te_expr s) (te_rules s) →
  ∃ s1 s2, handleModeChange Raw s = Ret s1 ∧ settled s1 ∧ te_mode s1 = Raw ∧ te_expr s1 = te_expr s ∧ te_rules s1 = te_rules s ∧
    handleModeChange Visual s1 = Ret s2 ∧ settled s2 ∧ shows_rules cfg gs s2 ∧ te_expr s2 = te_expr s ∧ te_rules s2 = te_rules s.
Proof.
  intros (H1 & H2 & _ & _ & b & Hb) (Em & Ev & Eg) [Ee Er] Hc Hg Hsp. rewrite Ee, Er in Hsp.
  unfold splits_back in Hsp.
  set (raw := str_or (combineBillingExpr (generateExprFromVisualConfig (Some cfg)) (buildRequestRuleExpr gs)) (generateExprFromVisualConfig (Some cfg))) in *.
  set (at_mode md rules := {| te_mode := md; te_visual := Some cfg; te_raw := raw; te_groups := gs; te_init := te_init s; te_model := te_model s;
    te_expr := te_expr s; te_rules := rules; te_seen := te_seen s; te_seen_model := te_seen_model s |}).
  exists (at_mode Raw (te_rules s)), (at_mode Visual (buildRequestRuleExpr gs)). split; [|split; [|split; [done|split; [done|split; [done|split; [|split]]]]]].
  - unfold handleModeChange. by rewrite Ev, Eg.
  - unfold settled, effectiveExpr, reported_rules. cbn [at_mode te_mode te_raw te_seen te_expr te_rules te_seen_model te_model].
    rewrite Hsp. cbn [mbind exn_bind billingExpr]. split_and!; [done|done|by rewrite Ee|done|by exists b].
  - unfold handleModeChange. cbn [at_mode te_raw]. rewrite Hsp. cbn [mbind exn_bind billingExpr requestRuleExpr].
    unfold groups_or_none. rewrite Hg, Hc. cbn [mbind exn_bind default from_option id]. reflexivity.
  - unfold settled, effectiveExpr, reported_rules. cbn [at_mode te_mode te_visual te_groups te_seen te_expr te_rules te_seen_model te_model].
    split_and!; [by rewrite H1, Er|done|by rewrite Ee|done|exists b; by rewrite <- Er].
  - split; [done|]. split; [done|]. by symmetry.
Qed.

#[export] Instance ExtraCosts_eq_dec {A} `{EqDecision A} : EqDecision (ExtraCosts A).
Proof. solve_decision. Defined.
#[export] Instance VisualTier_eq_dec : EqDecision VisualTier.
Proof. solve_decision. Defined.
#[export] Instance VisualConfig_eq_dec : EqDecision VisualConfig.
Proof. solve_decision. Defined.

(** ** A sample *)

Definition sample_expr : jstr := jq "tier('base', p * 2 + c * 4)".

Definition sample_tiers : VisualConfig := default createDefaultVisualConfig (tryParseVisualConfig (Some sample_expr)).

Lemma sample_stable : tryParseVisualConfig (Some sample_expr) = Some sample_tiers ∧ stable_config sample_tiers ∧ stable_rules [].
Proof. split_and!; vm_compute; reflexivity. Qed.

Definition sample_editor : editor :=
  {| te_mode := Visual; te_visual := Some sample_tiers; te_raw := sample_expr; te_groups := []; te_init := false;
     te_model := js "m"; te_expr := sample_expr; te_rules := []; te_seen := Some (sample_expr, []); te_seen_model := Some (js "m") |}.

Lemma sample_settled : settled sample_editor.
Proof. refine (conj eq_refl (conj eq_refl (conj _ (conj _ (ex_intro _ true eq_refl))))); vm_compute; reflexivity. Qed.

Lemma editor_settles_witness :
  settle sample_editor = Ret sample_editor ∧ effectiveExpr sample_editor = Ret (te_expr sample_editor).
Proof.
  assert (settle sample_editor = Ret sample_editor) as H by (vm_compute; reflexivity).
  exact (conj H (proj1 (proj2 (editor_settles _ _ H)))).
Defined.

Lemma editor_opens_witness :
  ∃ s s', mount_editor (js "m") sample_expr [] = Ret s ∧ settle s = Ret s' ∧ shows_rules sample_tiers [] s' ∧ holds_texts sample_tiers [] s'.
Proof.
  exact (editor_opens (js "m") sample_expr [] sample_tiers [] (proj1 sample_stable) (eq_refl : tryParseRequestRuleExpr [] = Ret (Some []))
    (proj1 (proj2 sample_stable)) (proj2 (proj2 sample_stable))).
Defined.

Lemma visual_edit_kept_witness :
  let cfg := handleAddTier sample_tiers in
  ∃ s', settle (handleRuleGroupsChange demo_groups (handleVisualChange cfg sample_editor)) = Ret s' ∧ settled s' ∧
    shows_rules cfg demo_groups s' ∧ holds_texts cfg demo_groups s'.
Proof. intros cfg. apply visual_edit_kept; [exact sample_settled|reflexivity|vm_compute; reflexivity..]. Defined.

Lemma mode_switch_back_witness :
  ∃ s1 s2, handleModeChange Raw sample_editor = Ret s1 ∧ settled s1 ∧ te_mode s1 = Raw ∧
    te_expr s1 = te_expr sample_editor ∧ te_rules s1 = te_rules sample_editor ∧
    handleModeChange Visual s1 = Ret s2 ∧ settled s2 ∧ shows_rules sample_tiers [] s2 ∧
    te_expr s2 = te_expr sample_editor ∧ te_rules s2 = te_rules sample_editor.
Proof.
  assert (holds_texts sample_tiers [] sample_editor) as H by (split; vm_compute; reflexivity).
  assert (splits_back (te_expr sample_editor) (te_rules sample_editor)) as Hs by (vm_compute; reflexivity).
  exact (mode_switch_back sample_editor sample_tiers [] sample_settled (conj eq_refl (conj eq_refl eq_refl)) H
    (proj1 (proj2 sample_stable)) (proj2 (proj2 sample_stable)) Hs).
Defined.

(** ** Presets *)

Definition all_presets : list Preset := concat (map snd PRESET_GROUPS).

(** A preset opens as tiers that its expression stands for, up to the spelling of numbers. *)
Definition preset_opens (p : Preset) : bool :=
  match tryParseVisualConfig (Some (ps_expr p)) with
  | Some cfg =>
    bool_decide (tryParseVisualConfig (Some (generateExprFromVisualConfig (Some cfg))) = Some cfg) &&
    match tryParseRequestRuleExpr (buildRequestRuleExpr (ps_requestRules p)) with
    | Ret (Some gs) => bool_decide (gs = ps_requestRules p)
    | _ => false
    end
  | None => false
  end.


Lemma presets_open : forallb preset_opens all_presets = true.
Proof. vm_compute. reflexivity. Qed.

(** every preset that the editor offers can be applied: once the editor is initialized,
    applying it comes to rest in the visual mode with the tiers and the rule groups of
    the preset, and the panel holds their texts. *)
Theorem presets_apply p s :
  p ∈ all_presets → inert s →
  ∃ cfg s', tryParseVisualConfig (Some (ps_expr p)) = Some cfg ∧ settle (applyPreset p s) = Ret s' ∧ settled s' ∧
    shows_rules cfg (ps_requestRules p) s' ∧ holds_texts cfg (ps_requestRules p) s'.
Proof.
  intros Hp [Hi Hm]. pose proof presets_open as Ho. rewrite forallb_forall in Ho. apply list_elem_of_In in Hp. specialize (Ho p Hp).
  unfold preset_opens in Ho. destruct (tryParseVisualConfig (Some (ps_expr p))) as [cfg|] eqn:Ep; [|done].
  apply andb_true_iff in Ho as [Hc Hg]. apply bool_decide_eq_true in Hc.
  assert (stable_rules (ps_requestRules p)) as Hr.
  { unfold stable_rules. destruct (tryParseRequestRuleExpr _) as [[gs|]|]; [|done..]. apply bool_decide_eq_true in Hg. by rewrite Hg. }
  set (s0 := applyPreset p s). assert (shows_rules cfg (ps_requestRules p) s0) as Hs0.
  { unfold s0, applyPreset. rewrite Ep. exact (conj eq_refl (conj eq_refl eq_refl)). }
  destruct (stable_usable _ Hr) as [b Hb].
  assert (∃ s1, init_effect s0 = Ret s1 ∧ shows_rules cfg (ps_requestRules p) s1) as (s1 & E1 & Hs1).
  { destruct Hs0 as (Em & Ev & Eg). unfold init_effect. case_bool_decide; [by exists s0|].
    assert (te_init s0 = true) as -> by exact Hi. eexists. split; [reflexivity|]. exact (conj Em (conj Ev Eg)). }
  destruct (settles_from cfg (ps_requestRules p) s0 b s1 Hc Hr Hb Hs0 E1 Hs1) as (s' & Es & Hs' & Ht').
  exists cfg, s'. split; [done|]. split; [done|]. split; [|done]. exact (waiting_passes 1 s0 s' Hm Es).
Qed.

Lemma presets_apply_witness :
  let s := {| te_mode := Visual; te_visual := Some sample_tiers; te_raw := sample_expr; te_groups := []; te_init := true;
              te_model := js "m"; te_expr := sample_expr; te_rules := []; te_seen := Some (sample_expr, []); te_seen_model := Some (js "m") |} in
  let p := default (preset "" "" [] []) (all_presets !! 11%nat) in
  ps_key p = js "claude-opus-fast" ∧
  ∃ cfg s', tryParseVisualConfig (Some (ps_expr p)) = Some cfg ∧ settle (applyPreset p s) = Ret s' ∧ settled s' ∧
    shows_rules cfg (ps_requestRules p) s' ∧ holds_texts cfg (ps_requestRules p) s'.
Proof.
  intros s p. split; [vm_compute; reflexivity|]. apply (presets_apply p s).
  - apply (list_elem_of_lookup_2 all_presets 11). vm_compute. reflexivity.
  - exact (conj eq_refl eq_refl).
Defined.

(** ** What goes wrong *)

Definition no_price : jstr := js "p * 0 + c * 0".

(** The expression and the rules that the panel holds at rest. *)
Definition texts_at_rest (r : exn editor) : exn (jstr * jstr) := s ← r; s ← settle s; Ret (te_expr s, te_rules s).

(** Opening an expression that the visual editor cannot show replaces it by a price of
    zero: the effects of the first render report the expression of no tiers, and the
    initialization that follows takes that for the expression to edit. *)
Example raw_expression_lost :
  texts_at_rest (mount_editor (js "m") (jq "max(p * 2, 5) + tier('base', c * 4)") []) = Ret (no_price, []) ∧
  texts_at_rest (mount_editor (js "m")
    (jq "len <= 128000 ? tier('a', p * 1 + c * 4) : (len <= 1000000 ? tier('b', p * 2 + c * 8) : tier('c', p * 4 + c * 17))") [])
  = Ret (no_price, []).
Proof. split; vm_compute; reflexivity. Qed.

(** A preset with rules, applied first, leaves the old tiers in place. *)
Example preset_tiers_lost :
  texts_at_rest (Ret (applyPreset (default (preset "" "" [] []) (all_presets !! 11%nat)) sample_editor))
  = Ret (sample_expr, jq "(has(header('anthropic-beta'), 'fast-mode-2026-02-01') ? 6 : 1)").
Proof. vm_compute. reflexivity. Qed.

(** When the panel shows another model, the expression of the first replaces its own. *)
Example model_switch_overwrites :
  texts_at_rest (Ret (show_model (js "other") (jq "tier('base', p * 9 + c * 9)") [] sample_editor)) = Ret (sample_expr, []).
Proof. vm_compute. reflexivity. Qed.

(** Rules that the visual editor cannot show are dropped on opening. *)
Example hidden_rules_lost :
  texts_at_rest (mount_editor (js "m") sample_expr (jq "(param('a') == 'x' || true ? 2 : 1)")) = Ret (sample_expr, []).
Proof. vm_compute. reflexivity. Qed.

(** ** Tiers stay well-formed *)

Inductive card_edit :=
  | EditLabel (label : jstr)
  | EditCondition (i : nat) (next : TierConditionInput)
  | RemoveCondition (i : nat)
  | EditPrice (field : price_field) (value : num)
  | EditCacheMode (mode : CacheMode).

(** What a card reports for its tier. *)
Definition card_change (e : card_edit) (tier : VisualTier) : VisualTier :=
  match e with
  | EditLabel label => handleLabelChange label tier
  | EditCondition i next => handleConditionChange i next tier
  | RemoveCondition i => handleConditionRemove i tier
  | EditPrice field value => handlePriceChange field (priceToUnitCost value) tier
  | EditCacheMode mode => handleCacheModeChange mode tier
  end.

Inductive tier_edit := CardEdit (i : nat) (e : card_edit) | AddTier | RemoveTier (i : nat) | AddCondition (i : nat).

(** A card that is not there reports nothing. *)
Definition edit_tiers (e : tier_edit) (config : VisualConfig) : VisualConfig :=
  match e with
  | CardEdit i e => match tiers config !! i with Some t => handleTierChange i (card_change e t) config | None => config end
  | AddTier => handleAddTier config
  | RemoveTier i => handleRemoveTier i config
  | AddCondition i => default config (handleAddCondition i config)
  end.

Definition tier_normal (t : VisualTier) : Prop := normalizeVisualTier (partial_of_tier t) = t.
Definition two_conditions (t : VisualTier) : Prop := (length (vt_conditions t) ≤ 2)%nat.

Lemma config_normal_iff cfg : config_normal cfg ↔ tiers cfg ≠ [] ∧ Forall tier_normal (tiers cfg).
Proof.
  unfold config_normal. destruct cfg as [ts]. cbn [tiers]. split; intros [Hne H]; (split; [done|]); destruct ts as [|t ts]; try done.
  - cbn [normalizeVisualConfig tiers] in H. injection H as H1 H2. constructor; [exact H1|].
    apply Forall_forall. intros t' Ht'. apply list_elem_of_lookup in Ht' as [i Hi].
    assert (map (λ t, normalizeVisualTier (partial_of_tier t)) ts !! i = Some t') as E by (by rewrite H2).
    change (map (λ t, normalizeVisualTier (partial_of_tier t)) ts) with ((λ t, normalizeVisualTier (partial_of_tier t)) <$> ts) in E.
    rewrite list_lookup_fmap, Hi in E. unfold tier_normal. cbn [fmap option_fmap option_map] in E. congruence.
  - cbn [normalizeVisualConfig tiers]. f_equal. rewrite <- (map_id (t :: ts)) at 2. apply map_ext_in.
    intros t' Ht'%list_elem_of_In. rewrite Forall_forall in H. by apply H.
Qed.

Lemma normalized_normal p : tier_normal (normalizeVisualTier p).
Proof. apply normalize_tier_idemp. Qed.

Lemma conditions_normal t conds : tier_normal t → tier_normal (with_conditions conds t).
Proof.
  intros H. unfold tier_normal in *. destruct t as [l c i o m e]. unfold normalizeVisualTier, partial_of_tier, with_conditions in *.
  cbn [vt_label vt_conditions input_unit_cost output_unit_cost cache_mode extra_costs p_label p_conditions p_input p_output p_cache_mode
    p_extra spread default from_option id] in *. injection H as H. by rewrite H.
Qed.

Lemma bound_last_spec ts :
  ts ≠ [] → ∃ front t', bound_last ts = front ++ [t'] ∧ length (bound_last ts) = length ts ∧ front = take (pred (length ts)) ts ∧
    vt_conditions t' ≠ [] ∧ (Forall tier_normal ts → tier_normal t') ∧ (Forall two_conditions ts → two_conditions t').
Proof.
  intros Hne. destruct ts as [|t ts _] using rev_ind; [done|]. unfold bound_last. rewrite last_snoc.
  assert (take (pred (length (ts ++ [t]))) (ts ++ [t]) = ts) as Htake.
  { rewrite length_app. cbn [length]. rewrite Nat.add_1_r. cbn [pred]. by apply take_app_length. }
  rewrite Htake. destruct (vt_conditions t) as [|c cs] eqn:E.
  - assert (pred (length (ts ++ [t])) = length ts) as -> by (rewrite length_app; cbn; lia).
    exists ts. eexists. split_and!; [by rewrite insert_app_r_alt, Nat.sub_diag by done| |done|done| |].
    + by rewrite length_insert.
    + intros _. apply normalized_normal.
    + intros _. unfold two_conditions. cbn. lia.
  - exists ts, t. split_and!; [done..|by rewrite E| |]; by intros [_ [? _]%Forall_cons]%Forall_app.
Qed.

Lemma added_conditions_le t t' : vt_conditions (normalizeVisualTier (partial_of_tier t')) = vt_conditions t' ∧
  (two_conditions t → ∀ e, two_conditions (card_change e t)).
Proof.
  split; [done|]. unfold two_conditions. intros H e. destruct e; cbn [card_change handleLabelChange handleConditionChange handleConditionRemove
    handlePriceChange handleCacheModeChange with_conditions vt_conditions]; [done|by rewrite length_insert| |done..].
  destruct (decide (i < length (vt_conditions t))%nat) as [Hi|Hi]; [rewrite length_delete by (by apply lookup_lt_is_Some); lia|].
  rewrite delete_take_drop, length_app, length_take, length_drop. lia.
Qed.

(** C35: whatever the visual editor shows, every change of it (the name, a condition, a price
    or the cache mode of a tier, an added or removed tier or condition) reports a
    configuration that is normalized, has a tier, and has at most two conditions in
    every tier if that was so before; and an added tier is the last one, without a
    condition, while the tier before it has one. *)
Theorem tiers_well_formed vc e :
  let config := normalizeVisualConfig vc in
  let next := edit_tiers e config in
  config_normal next ∧ (Forall two_conditions (tiers config) → Forall two_conditions (tiers next)) ∧
  (e = AddTier → length (tiers next) = S (length (tiers config)) ∧
    (∃ t, last (tiers next) = Some t ∧ vt_conditions t = []) ∧
    ∃ t, tiers next !! (length (tiers config) - 1)%nat = Some t ∧ vt_conditions t ≠ []).
Proof.
  cbv zeta. set (config := normalizeVisualConfig vc).
  destruct (proj1 (config_normal_iff config) (normalize_config_normal vc)) as [Hne Hn]. clearbody config. rewrite config_normal_iff.
  destruct e as [i e| |i|i]; cbn [edit_tiers].
  - split_and!; [| | |done]; destruct (tiers config !! i) as [t|] eqn:Et; try done; cbn [handleTierChange tiers].
    + intros E. apply (f_equal length) in E. rewrite length_insert in E. by destruct (tiers config).
    + apply Forall_insert; [done|apply normalized_normal].
    + intros H2. apply Forall_insert; [done|]. destruct (added_conditions_le t (card_change e t)) as [E H]. unfold two_conditions. rewrite E.
      apply H. rewrite Forall_lookup in H2. by eapply H2.
  - destruct (bound_last_spec (tiers config) Hne) as (front & t' & E & El & Ef & Hc & Hnt & H2t). unfold handleAddTier. cbv zeta. cbn [tiers].
    rewrite El, E. split_and!.
    + by destruct front.
    + apply Forall_app. split; [|apply Forall_singleton, normalized_normal].
      apply Forall_app. split; [subst front; by apply Forall_take|apply Forall_singleton; by apply Hnt].
    + intros H2. apply Forall_app. split; [|apply Forall_singleton; unfold two_conditions; cbn; lia].
      apply Forall_app. split; [subst front; by apply Forall_take|apply Forall_singleton; by apply H2t].
    + intros _. rewrite <- E, length_app, El. cbn [length]. split_and!; [lia|by rewrite last_snoc; eexists|].
      exists t'. split; [|done]. rewrite E, lookup_app_l by (rewrite <- E, El; destruct (tiers config); cbn in *; [done|lia]).
      rewrite <- El, E, length_app. cbn [length]. replace (length front + 1 - 1)%nat with (length front) by lia. by apply list_lookup_middle.
  - unfold handleRemoveTier. destruct (delete i (tiers config)) as [|t ts] eqn:Ed; [done|]. cbn [tiers]. rewrite <- Ed.
    split_and!; [by rewrite Ed|by apply Forall_delete|intros; by apply Forall_delete|done].
  - unfold handleAddCondition. destruct (tiers config !! i) as [t|] eqn:Et; cbn [mbind option_bind default from_option id]; [|done].
    destruct (2 <=? length (vt_conditions t))%nat eqn:El; cbn [default from_option id tiers]; [done|]. apply Nat.leb_gt in El.
    split_and!; [|apply Forall_insert; [done|]|intros H2; apply Forall_insert; [done|]|done].
    + intros E. apply (f_equal length) in E. rewrite length_insert in E. by destruct (tiers config).
    + apply conditions_normal. rewrite Forall_lookup in Hn. by eapply Hn.
    + unfold two_conditions. cbn [with_conditions vt_conditions]. rewrite length_app. cbn. lia.
Qed.

(** ** Drafts *)

(** Whatever is typed, a number input reports a finite number; while it has the focus it
    shows what was typed, and afterwards the text of the number it reported. *)
Theorem draft_reports_finite d s :
  (∀ text, is_finite (parseNumberDraft text) = true) ∧
  (di_focused d = true → handleChange s d = {| di_draft := s; di_focused := true; di_value := CVNum (parseNumberDraft s) |}) ∧
  handleBlur d = {| di_draft := num_to_string (parseNumberDraft (di_draft d)); di_focused := false;
                    di_value := CVNum (parseNumberDraft (di_draft d)) |}.
Proof.
  assert (∀ text, is_finite (parseNumberDraft text) = true) as Hf.
  { intros text. unfold parseNumberDraft. destruct (str_eqb _ _); [done|]. by destruct (is_finite (to_number text)) eqn:E. }
  split; [exact Hf|]. split.
  - intros E. unfold handleChange, sync_draft. cbn [di_focused]. by rewrite E.
  - unfold handleBlur, sync_draft. cbn [di_focused di_value formatNumberDraft]. by rewrite Hf.
Qed.
