(* ===== verification/Channels.v ===== *)
(** * Channel utilities

    [src/web/default/src/features/channels/lib/]: model lists and model mapping
    ([model-mapping-validation.ts]), the pending upstream model changes
    ([upstream-update-utils.ts]), multi-key actions ([multi-key-utils.ts]) and
    Ollama channels ([ollama-utils.ts]). *)

From S2P Require Import Prelude JsString JsRegExp JsNumber Json.
From Stdlib Require Import NArith ZArith SpecFloat.

(** ** Model lists and model mapping *)

Module Mapping.

Definition parseModelsString (modelsStr : jstr) : list jstr :=
  if nonempty modelsStr then List.filter nonempty (map trim (split_char 44 modelsStr)) else [].

Definition formatModelsArray (models : list jstr) : jstr := str_join (js ",") (dedup models).

Definition normalizeModelName (model : jstr) : jstr := trim model.

(** [JSON.parse] inside [try]: the object it gives, or nothing. *)
Definition parsed_object (text : jstr) : option (list (jstr * json)) :=
  match json_parse text with Some (JObj o) => Some o | _ => None end.

Definition extractMappingSourceModels (modelMapping : jstr) : list jstr :=
  let trimmed := trim modelMapping in
  if negb (nonempty trimmed) then []
  else match parsed_object trimmed with
       | Some o => dedup (List.filter nonempty (map (λ kv, trim (fst kv)) o))
       | None => []
       end.

(** A string value, trimmed; anything else is undefined. *)
Definition string_value (v : json) : option jstr :=
  match v with JStr s => Some (trim s) | _ => None end.

Definition extractRedirectModels (modelMapping : jstr) : list jstr :=
  let trimmed := trim modelMapping in
  if negb (nonempty trimmed) then []
  else match parsed_object trimmed with
       | Some o => dedup (List.filter nonempty (omap (λ kv, string_value (snd kv)) o))
       | None => []
       end.

(** The loop compares index by index after the lengths were found equal. *)
Fixpoint models_differ (current initial : list jstr) : bool :=
  match current, initial with
  | c :: cs, i :: is_ => negb (str_eqb c i) || models_differ cs is_
  | _, _ => false
  end.

Definition hasModelConfigChanged (currentModels : list jstr) (currentModelMapping : jstr)
    (initialModels : list jstr) (initialModelMapping : jstr) : bool :=
  if (length initialModels =? 0) && negb (nonempty initialModelMapping) then true
  else if negb (length currentModels =? length initialModels) then true
  else if models_differ currentModels initialModels then true
  else negb (str_eqb (trim currentModelMapping) (trim initialModelMapping)).

Definition findMissingModelsInMapping (modelMapping : jstr) (currentModels : list jstr) : list jstr :=
  if negb (nonempty modelMapping) || str_eqb (trim modelMapping) [] then []
  else match parsed_object modelMapping with
       | None => []
       | Some o =>
         let modelSet := map normalizeModelName currentModels in
         dedup (List.filter (λ key, nonempty key && negb (bool_decide (key ∈ modelSet)))
           (map (λ kv, normalizeModelName (fst kv)) o))
       end.

Record Validation := { valid : bool; error : option jstr }.

Definition is_string (v : json) : bool := match v with JStr _ => true | _ => false end.

Definition validateModelMappingJson (modelMapping : jstr) : Validation :=
  if negb (nonempty modelMapping) || str_eqb (trim modelMapping) []
  then {| valid := true; error := None |}
  else match json_parse modelMapping with
       | Some (JObj o) =>
         if existsb (λ kv, negb (is_string (snd kv))) o
         then {| valid := false; error := Some (js "Model mapping values must be strings") |}
         else {| valid := true; error := None |}
       | Some _ => {| valid := false; error := Some (js "Model mapping must be a valid JSON object") |}
       | None => {| valid := false; error := Some (js "Model mapping must be valid JSON format") |}
       end.

Definition findExposedTargetModels (modelMapping : jstr) (currentModels : list jstr) : list jstr :=
  let redirectModels := extractRedirectModels modelMapping in
  match redirectModels with
  | [] => []
  | _ =>
    let modelSet := map normalizeModelName currentModels in
    List.filter (λ model, bool_decide (normalizeModelName model ∈ modelSet)) redirectModels
  end.

(** The sets, each as the list of its elements in insertion order. *)
Record Categories := {
  normalizedCurrentModels : list jstr;
  normalizedRedirectModels : list jstr;
  classificationSet : list jstr;
  redirectOnlySet : list jstr;
}.

Definition categorizeModelsWithRedirect (currentModels redirectModels : list jstr) : Categories :=
  let current := dedup (List.filter nonempty (map normalizeModelName currentModels)) in
  let redirect := dedup (List.filter nonempty (map normalizeModelName redirectModels)) in
  {| normalizedCurrentModels := current;
     normalizedRedirectModels := redirect;
     classificationSet := dedup (current ++ redirect);
     redirectOnlySet := dedup (List.filter (λ m, negb (bool_decide (m ∈ current))) redirect) |}.

(** *** Properties *)

(** A name as the editor keeps it: trimmed, not empty, without commas. *)
Definition name_ok (s : jstr) : Prop := trim s = s ∧ s ≠ [] ∧ 44%N ∉ s.

Lemma map_trim_id l : Forall (λ s, trim s = s) l → map trim l = l.
Proof. induction 1 as [|s l Hs H IH]; [done|]. cbn [map]. by rewrite Hs, IH. Qed.

Lemma parse_join l : Forall name_ok l → parseModelsString (str_join (js ",") l) = l.
Proof.
  intros H. unfold parseModelsString. change (js ",") with [44%N].
  destruct (nonempty (str_join [44%N] l)) eqn:E.
  - destruct l as [|s l]; [done|].
    rewrite (split_join 44 (s :: l)); [|done|by eapply Forall_impl; [exact H|intros ? (_ & _ & ?)]].
    rewrite map_trim_id by (eapply Forall_impl; [exact H|by intros ? (? & _)]).
    apply filter_nonempty_id. eapply Forall_impl; [exact H|by intros ? (_ & ? & _)].
  - destruct H as [|s l (_ & Hs & _) H]; [done|]. destruct l; destruct s; done.
Qed.

Lemma elem_of_split_trim s w : w ∈ List.filter nonempty (map trim (split_char 44 s)) → name_ok w.
Proof.
  rewrite list_elem_of_In, filter_In, <- list_elem_of_In. intros [(v & -> & Hv)%list_elem_of_fmap Hne].
  apply nonempty_spec in Hne. split_and!; [apply trim_idemp|done|].
  intros Hin%trim_incl. apply (split_char_incl 44 s v 44) in Hin as [_ ?]; done.
Qed.

Lemma parse_names_ok s : Forall name_ok (parseModelsString s).
Proof.
  unfold parseModelsString. destruct (nonempty s); [|constructor].
  apply Forall_forall. apply elem_of_split_trim.
Qed.

(** Formatting a list of model names and parsing the text gives the names
    back, the first occurrence of each in order; parsing any text gives trimmed
    non-empty names without commas, so a text that was parsed and formatted once
    no longer changes. *)
Theorem models_roundtrip l s :
  Forall name_ok l →
  parseModelsString (formatModelsArray l) = dedup l ∧
  Forall name_ok (parseModelsString s) ∧
  (let t := formatModelsArray (parseModelsString s) in formatModelsArray (parseModelsString t) = t).
Proof.
  assert (∀ l, Forall name_ok l → Forall name_ok (dedup l)) as Hd.
  { intros l' Hl'. rewrite Forall_forall in *. intros x. rewrite elem_of_dedup. apply Hl'. }
  intros Hl. split_and!.
  - unfold formatModelsArray. apply parse_join. auto.
  - apply parse_names_ok.
  - cbv zeta. unfold formatModelsArray at 2 3. rewrite parse_join by (apply Hd, parse_names_ok).
    unfold formatModelsArray. by rewrite dedup_idemp.
Qed.

Lemma models_roundtrip_witness :
  parseModelsString (formatModelsArray [js "gpt-4o"; js "o1"; js "gpt-4o"]) = [js "gpt-4o"; js "o1"].
Proof.
  apply (models_roundtrip [js "gpt-4o"; js "o1"; js "gpt-4o"] []).
  repeat constructor; try reflexivity; try (intros E; discriminate E);
    apply (bool_decide_eq_true_1 _); vm_compute; reflexivity.
Defined.

Lemma elem_of_missing mapping models o x :
  parsed_object mapping = Some o → trim mapping ≠ [] →
  (x ∈ findMissingModelsInMapping mapping models ↔
    x ≠ [] ∧ (x ∉ map normalizeModelName models) ∧ ∃ kv, kv ∈ o ∧ x = trim (fst kv)).
Proof.
  intros Ho Ht. unfold findMissingModelsInMapping.
  destruct mapping as [|c mapping]; [done|]. unfold str_eqb. rewrite bool_decide_eq_false_2 by done.
  cbn [nonempty negb orb]. rewrite Ho, elem_of_dedup.
  rewrite list_elem_of_In, filter_In, <- list_elem_of_In, andb_true_iff, negb_true_iff, bool_decide_eq_false.
  rewrite nonempty_spec. split.
  - intros [(kv & -> & Hkv)%list_elem_of_fmap [Hne Hin]]. eauto.
  - intros (Hne & Hin & kv & Hkv & ->). split_and!; [|done|done].
    apply list_elem_of_fmap. by exists kv.
Qed.

(** The models reported missing are exactly the non-empty trimmed keys of the
    mapping that no listed model has; adding them to the list leaves nothing
    missing, and text that is no JSON object reports nothing. *)
Theorem missing_models_spec mapping models :
  (∀ o x, parsed_object mapping = Some o → trim mapping ≠ [] →
    (x ∈ findMissingModelsInMapping mapping models ↔
      x ≠ [] ∧ (x ∉ map normalizeModelName models) ∧ ∃ kv, kv ∈ o ∧ x = trim (fst kv))) ∧
  (parsed_object mapping = None → findMissingModelsInMapping mapping models = []) ∧
  findMissingModelsInMapping mapping (models ++ findMissingModelsInMapping mapping models) = [].
Proof.
  split_and!.
  - intros o x. apply elem_of_missing.
  - intros Hn. unfold findMissingModelsInMapping. rewrite Hn. by destruct (_ || _).
  - destruct (parsed_object mapping) as [o|] eqn:Ho.
    2: { unfold findMissingModelsInMapping at 1. rewrite Ho. by destruct (_ || _). }
    destruct (decide (trim mapping = [])) as [Ht|Ht].
    { unfold findMissingModelsInMapping at 1, str_eqb. rewrite bool_decide_eq_true_2 by done.
      by rewrite orb_true_r. }
    apply elem_of_nil_inv. intros x Hx. apply (elem_of_missing _ _ o) in Hx as (Hne & Hin & Hkv); [|done..].
    apply Hin. rewrite map_app, elem_of_app. right.
    assert (x ∈ findMissingModelsInMapping mapping models) as Hm.
    { apply (elem_of_missing _ _ o); [done..|]. split_and!; [done| |done].
      intros Hx. apply Hin. rewrite map_app. set_solver. }
    apply list_elem_of_fmap. exists x. split; [|done]. unfold normalizeModelName.
    destruct Hkv as (kv & _ & ->). by rewrite trim_idemp.
Qed.

Lemma redirect_trimmed mapping x : x ∈ extractRedirectModels mapping → trim x = x ∧ x ≠ [].
Proof.
  unfold extractRedirectModels. destruct (nonempty _); [|by intros ?%elem_of_nil]. cbn [negb].
  destruct (parsed_object _) as [o|]; [|by intros ?%elem_of_nil].
  rewrite elem_of_dedup, list_elem_of_In, filter_In, <- list_elem_of_In, list_elem_of_omap.
  intros [(kv & _ & Hs) Hne]. apply nonempty_spec in Hne.
  destruct (snd kv); simplify_eq/=. split; [apply trim_idemp|done].
Qed.

(** The exposed targets are exactly the redirect targets that are listed as
    models; once they are taken off the list, no target is exposed. *)
Theorem exposed_targets_spec mapping models :
  (∀ x, x ∈ findExposedTargetModels mapping models ↔
    x ∈ extractRedirectModels mapping ∧ x ∈ map normalizeModelName models) ∧
  findExposedTargetModels mapping
    (List.filter (λ m, negb (bool_decide (normalizeModelName m ∈ findExposedTargetModels mapping models))) models)
  = [].
Proof.
  assert (∀ models x, x ∈ findExposedTargetModels mapping models ↔
    x ∈ extractRedirectModels mapping ∧ x ∈ map normalizeModelName models) as Hspec.
  { intros ms x. unfold findExposedTargetModels.
    destruct (extractRedirectModels mapping) as [|r rs] eqn:E; [set_solver|]. rewrite <- E.
    rewrite list_elem_of_In, filter_In, <- list_elem_of_In, bool_decide_eq_true.
    split; intros [Hx Hin]; (split; [done|]);
      [change (trim x ∈ map normalizeModelName ms) in Hin|change (trim x ∈ map normalizeModelName ms)];
      by rewrite (proj1 (redirect_trimmed mapping x Hx)) in *. }
  split; [done|]. apply elem_of_nil_inv. intros x [Hr Hx]%Hspec.
  apply list_elem_of_fmap in Hx as (m & -> & Hm). rewrite list_elem_of_In, filter_In, <- list_elem_of_In in Hm.
  destruct Hm as [Hm Hn]. apply negb_true_iff, bool_decide_eq_false in Hn. apply Hn, Hspec.
  split; [done|]. apply list_elem_of_fmap. by exists m.
Qed.

(** A mapping passes validation exactly when it is blank or a JSON object
    whose values are all strings; the error tells a syntax error, a value that is
    no object and a value that is no string apart. *)
Theorem validate_mapping_spec mapping :
  let r := validateModelMappingJson mapping in
  (valid r = true ↔ trim mapping = [] ∨
    ∃ o, json_parse mapping = Some (JObj o) ∧ Forall (λ kv, is_string (snd kv) = true) o) ∧
  (valid r = true ↔ error r = None) ∧
  (error r = Some (js "Model mapping must be valid JSON format") ↔
    trim mapping ≠ [] ∧ json_parse mapping = None).
Proof.
  intros r. unfold r, validateModelMappingJson.
  assert (js "Model mapping must be a valid JSON object" ≠ js "Model mapping must be valid JSON format"
    ∧ js "Model mapping values must be strings" ≠ js "Model mapping must be valid JSON format") as [He1 He2]
    by (split; apply (bool_decide_eq_true_1 (_ ≠ _)); vm_compute; reflexivity).
  generalize dependent (js "Model mapping must be a valid JSON object"). intros e1 He1.
  generalize dependent (js "Model mapping values must be strings"). intros e2 He2.
  revert He1 He2. generalize (js "Model mapping must be valid JSON format"). intros e3 He1 He2.
  destruct (decide (trim mapping = [])) as [Ht|Ht].
  { unfold str_eqb. rewrite (bool_decide_eq_true_2 (trim mapping = [])), orb_true_r by done.
    split_and!; naive_solver. }
  destruct mapping as [|c mapping]; [done|]. unfold str_eqb. rewrite bool_decide_eq_false_2 by done.
  cbn [nonempty negb orb]. destruct (json_parse (c :: mapping)) as [[| | | | |o]|] eqn:E;
    try (split_and!; naive_solver).
  assert (existsb (λ kv, negb (is_string (snd kv))) o = false ↔ Forall (λ kv, is_string (snd kv) = true) o) as Hs.
  { rewrite existsb_false. apply Forall_iff. intros kv. apply negb_false_iff. }
  destruct (existsb _ o); split_and!; split; intros H; naive_solver.
Qed.

(** The classification shows every current and every redirect model once;
    the redirect-only models are the redirect models that are not current, so the
    current and the redirect-only models partition it. *)
Theorem categories_partition current redirect :
  let c := categorizeModelsWithRedirect current redirect in
  NoDup (classificationSet c) ∧ NoDup (normalizedCurrentModels c) ∧ NoDup (redirectOnlySet c) ∧
  classificationSet c ≡ₚ normalizedCurrentModels c ++ redirectOnlySet c ∧
  (∀ x, x ∈ redirectOnlySet c ↔ x ∈ normalizedRedirectModels c ∧ x ∉ normalizedCurrentModels c).
Proof.
  intros c. assert (∀ x, x ∈ redirectOnlySet c ↔ x ∈ normalizedRedirectModels c ∧ x ∉ normalizedCurrentModels c) as Hr.
  { intros x. unfold c. cbn [redirectOnlySet normalizedRedirectModels normalizedCurrentModels categorizeModelsWithRedirect].
    rewrite elem_of_dedup, list_elem_of_In, filter_In, <- list_elem_of_In.
    by rewrite negb_true_iff, bool_decide_eq_false. }
  split_and!; [apply NoDup_dedup..| |done].
  apply NoDup_Permutation.
  - apply NoDup_dedup.
  - apply NoDup_app. split_and!; [apply NoDup_dedup|intros x Hx [_ Hx']%Hr; done|apply NoDup_dedup].
  - intros x. rewrite elem_of_app, Hr. unfold c at 1.
    cbn [classificationSet categorizeModelsWithRedirect]. rewrite elem_of_dedup, elem_of_app.
    change (dedup (List.filter nonempty (map normalizeModelName current))) with (normalizedCurrentModels c).
    change (dedup (List.filter nonempty (map normalizeModelName redirect))) with (normalizedRedirectModels c).
    destruct (decide (x ∈ normalizedCurrentModels c)); naive_solver.
Qed.

(** A change is reported for a new channel and whenever the model list or the
    trimmed mapping differs, and not otherwise. *)
Theorem config_changed_spec current mapping initial imapping :
  hasModelConfigChanged current mapping initial imapping = false ↔
  (initial ≠ [] ∨ imapping ≠ []) ∧ current = initial ∧ trim mapping = trim imapping.
Proof.
  assert (∀ a b : list jstr, length a = length b → models_differ a b = false ↔ a = b) as Hd.
  { induction a as [|x a IH]; intros [|y b] Hl; try done. cbn [models_differ].
    rewrite orb_false_iff, negb_false_iff, IH by (injection Hl; done).
    unfold str_eqb. rewrite bool_decide_eq_true. naive_solver. }
  unfold hasModelConfigChanged, str_eqb.
  destruct (Nat.eqb_spec (length current) (length initial)) as [Hl|Hl]; cbn [negb].
  - destruct (models_differ current initial) eqn:E.
    + assert (current ≠ initial) by (intros H; apply Hd in H; [congruence|done]).
      destruct (_ && _); naive_solver.
    + apply Hd in E as ->; [|done].
      assert ((length initial =? 0) && negb (nonempty imapping) = false ↔ initial ≠ [] ∨ imapping ≠ []) as Hn
        by (destruct initial, imapping; naive_solver).
      destruct (decide (trim mapping = trim imapping)) as [Et|Et];
        [rewrite (bool_decide_eq_true_2 _ Et)|rewrite (bool_decide_eq_false_2 _ Et)];
        destruct (_ && _); naive_solver.
  - assert (current ≠ initial) by (by intros ->). destruct (_ && _); naive_solver.
Qed.

End Mapping.

(** ** Pending upstream model changes *)

Module Upstream.

(** [String(model || '')] of every element. *)
Fixpoint model_texts (l : list json) : exn (list jstr) :=
  match l with
  | [] => Ret []
  | model :: l =>
    text ← (if json_truthy model then js_string model else Ret []);
    texts ← model_texts l;
    Ret (text :: texts)
  end.

(** A list that is no array (nor falsy) has no [map]: the call throws. *)
Definition normalizeModelList (models : json) : exn (list jstr) :=
  if negb (json_truthy models) then Ret []
  else match models with
       | JArr l => texts ← model_texts l; Ret (dedup (List.filter nonempty (map trim texts)))
       | _ => Throw
       end.

Record UpdateMeta := {
  enabled : bool;
  pendingAddModels : list jstr;
  pendingRemoveModels : list jstr;
}.

Definition no_update : UpdateMeta :=
  {| enabled := false; pendingAddModels := []; pendingRemoveModels := [] |}.

(** [v || []] of an optional property. *)
Definition or_empty (v : option json) : json :=
  match v with Some v => if json_truthy v then v else JArr [] | None => JArr [] end.

(** [None] is undefined. *)
Definition settings_value (settings : option json) : json :=
  match settings with
  | Some (JObj o) => JObj o
  | Some (JStr s) => default JNull (json_parse s)
  | _ => JNull
  end.

Definition parseUpstreamUpdateMeta (settings : option json) : exn UpdateMeta :=
  let parsed := settings_value settings in
  match parsed with
  | JObj _ | JArr _ =>
    adds ← normalizeModelList (or_empty (prop (js "upstream_model_update_last_detected_models") parsed));
    removes ← normalizeModelList (or_empty (prop (js "upstream_model_update_last_removed_models") parsed));
    Ret {| enabled := match prop (js "upstream_model_update_check_enabled") parsed with
                      | Some (JBool true) => true | _ => false end;
           pendingAddModels := adds; pendingRemoveModels := removes |}
  | _ => Ret no_update
  end.

(** *** Properties *)

Definition names_normal (l : list jstr) : Prop := NoDup l ∧ Forall (λ s, trim s = s ∧ s ≠ []) l.

Lemma normalize_list_normal v l : normalizeModelList v = Ret l → names_normal l.
Proof.
  unfold normalizeModelList, names_normal. destruct (json_truthy v); cbn [negb].
  - destruct v as [| | | |l'|]; try done. destruct (model_texts l') as [ts|]; [|done]. intros [= <-]. split; [apply NoDup_dedup|].
    apply Forall_forall. intros x. rewrite elem_of_dedup, list_elem_of_In, filter_In, <- list_elem_of_In.
    intros [(m & -> & _)%list_elem_of_fmap Hne%nonempty_spec]. split; [apply trim_idemp|done].
  - intros [= <-]. split; constructor.
Qed.

(** A list that cannot be read: a truthy value that is no array, or an array with
    an element that has no text. *)
Definition unreadable (v : json) : bool :=
  json_truthy v &&
  match v with JArr l => existsb (λ m, json_truthy m && negb (coercible m)) l | _ => true end.

Lemma model_texts_throw l :
  model_texts l = Throw ↔ existsb (λ m, json_truthy m && negb (coercible m)) l = true.
Proof.
  induction l as [|m l IH]; [done|]. cbn [model_texts existsb]. rewrite orb_true_iff, <- IH. clear IH.
  unfold js_string. destruct (json_truthy m), (coercible m), (model_texts l); cbn; naive_solver.
Qed.

Lemma normalize_list_throw o : normalizeModelList (or_empty o) = Throw ↔
  ∃ v, o = Some v ∧ unreadable v = true.
Proof.
  unfold normalizeModelList, or_empty, unreadable. destruct o as [v|].
  - assert ((∃ w, Some v = Some w ∧ json_truthy w && match w with
      | JArr l => existsb (λ m, json_truthy m && negb (coercible m)) l | _ => true end = true)
      ↔ json_truthy v && match v with
      | JArr l => existsb (λ m, json_truthy m && negb (coercible m)) l | _ => true end = true) as -> by naive_solver.
    destruct (json_truthy v) eqn:E; cbn [negb json_truthy andb]; [rewrite E; cbn [negb]|done].
    destruct v as [| | | |l|]; try done. rewrite <- model_texts_throw. by destruct (model_texts l).
  - split; [done|]. by intros (v' & ? & _).
Qed.

(** The pending changes of a channel are lists of distinct trimmed non-empty
    names; settings that are missing, no object or no JSON mean no update check.
    Reading them throws exactly when the settings are an object in which one of
    the two lists is a truthy value other than an array, or an array that holds an
    object whose own [toString] hides the inherited one. *)
Theorem upstream_meta_spec settings :
  let adds := prop (js "upstream_model_update_last_detected_models") (settings_value settings) in
  let removes := prop (js "upstream_model_update_last_removed_models") (settings_value settings) in
  (∀ m, parseUpstreamUpdateMeta settings = Ret m →
    names_normal (pendingAddModels m) ∧ names_normal (pendingRemoveModels m)) ∧
  (parseUpstreamUpdateMeta settings = Throw ↔
    ∃ v, (adds = Some v ∨ removes = Some v) ∧ unreadable v = true) ∧
  parseUpstreamUpdateMeta
    (Some (JStr (jq "{'upstream_model_update_last_detected_models':'gpt'}"))) = Throw.
Proof.
  intros adds removes. split_and!; [| |vm_compute; reflexivity].
  - intros m. unfold parseUpstreamUpdateMeta. fold adds removes.
    assert (names_normal []) by (split; constructor).
    destruct (settings_value settings) as [| | | |l|o]; try (by intros [= <-]);
      (destruct (normalizeModelList (or_empty adds)) as [la|] eqn:E1; [|done];
       destruct (normalizeModelList (or_empty removes)) as [lr|] eqn:E2; [|done];
       intros [= <-]; eauto using normalize_list_normal).
  - assert ((normalizeModelList (or_empty adds) = Throw ∨ normalizeModelList (or_empty removes) = Throw) ↔
      ∃ v, (adds = Some v ∨ removes = Some v) ∧ unreadable v = true) as <-
      by (rewrite !normalize_list_throw; clearbody adds removes; split; [intros [(v & ?)|(v & ?)]; exists v|intros (v & [?|?] & ?); [left|right]; exists v]; tauto).
    unfold parseUpstreamUpdateMeta. fold adds removes.
    assert (∀ A (x y : exn (list jstr)) (f : list jstr → list jstr → exn A),
      (∀ a b, f a b ≠ Throw) → (a ← x; b ← y; f a b) = Throw ↔ x = Throw ∨ y = Throw) as Hbind.
    { intros A [a|] [b|] f Hf; cbn; split; intros H; try done; try (by left); try (by right).
      - by apply Hf in H.
      - by destruct H. }
    destruct (settings_value settings) as [| | | |l|o] eqn:Es; try (by apply Hbind);
      unfold adds, removes; try (rewrite Es); split; intros H; try done; by destruct H.
Qed.

End Upstream.

(** ** Multi-key actions *)

Module MultiKey.

Inductive Variant := Success | Neutral | Danger.

Record StatusConfig := { variant : Variant; status_label : jstr }.

Definition MULTI_KEY_STATUS_CONFIG : list (Z * StatusConfig) :=
  [(1%Z, {| variant := Success; status_label := js "Enabled" |});
   (2%Z, {| variant := Neutral; status_label := js "Manual Disabled" |});
   (3%Z, {| variant := Danger; status_label := js "Auto Disabled" |})].

Fixpoint status_get (status : Z) (l : list (Z * StatusConfig)) : option StatusConfig :=
  match l with
  | [] => None
  | (k, c) :: l => if (k =? status)%Z then Some c else status_get status l
  end.

Definition getMultiKeyStatusConfig (status : Z) : StatusConfig :=
  default {| variant := Neutral; status_label := js "Unknown" |} (status_get status MULTI_KEY_STATUS_CONFIG).

Inductive ActionType := Enable | Disable | Delete | EnableAll | DisableAll | DeleteDisabled.

Record MultiKeyConfirmAction := { action_type : ActionType; keyIndex : option Z }.

Definition getMultiKeyConfirmMessage (action : option MultiKeyConfirmAction) : jstr :=
  match action with
  | None => []
  | Some a =>
    match action_type a with
    | Delete => js "Are you sure you want to delete this key? This action cannot be undone."
    | Enable => js "Enable this key?"
    | Disable => js "Disable this key?"
    | EnableAll => js "Are you sure you want to enable all keys?"
    | DisableAll => js "Are you sure you want to disable all enabled keys?"
    | DeleteDisabled =>
      js "Are you sure you want to delete all auto-disabled keys? This action cannot be undone."
    end
  end.

Definition isDestructiveAction (action : option MultiKeyConfirmAction) : bool :=
  match action with
  | None => false
  | Some a => match action_type a with Delete | DeleteDisabled | DisableAll => true | _ => false end
  end.

End MultiKey.

(** ** Ollama channels *)

Module Ollama.

Definition getString (v : option json) : option jstr :=
  match v with Some (JStr s) => Some s | _ => None end.

Definition getNumber (v : option json) : option num :=
  match v with Some (JNum x) => Some x | _ => None end.

(** [typeof value === 'object' && value !== null], with the properties that are
    read: an array is a record without any of the names used here. *)
Definition isRecord (v : json) : option (list (jstr * json)) :=
  match v with JObj o => Some o | JArr _ => Some [] | _ => None end.

(** [null] when there is nothing to parse or the text does not parse. *)
Definition parseMaybeJSON (value : json) : json :=
  match value with
  | JObj _ | JArr _ => value
  | JStr s => if nonempty s then default JNull (json_parse s) else JNull
  | _ => JNull
  end.

(** The fields of a channel that are read; [JNull] stands for null and undefined. *)
Record Channel := { base_url : json; ollama_base_url : json; other_info : json }.

Definition trimmed_string (v : option json) : jstr :=
  match getString v with Some s => trim s | None => [] end.

Definition resolveOllamaBaseUrl (channel : option Channel) : jstr :=
  match channel with
  | None => []
  | Some channel =>
    let direct := trimmed_string (Some (base_url channel)) in
    if nonempty direct then direct
    else
      let alt := trimmed_string (Some (ollama_base_url channel)) in
      if nonempty alt then alt
      else match isRecord (parseMaybeJSON (other_info channel)) with
           | Some parsed =>
             let baseUrl := trimmed_string (obj_get (js "base_url") parsed) in
             if nonempty baseUrl then baseUrl
             else
               let publicUrl := trimmed_string (obj_get (js "public_url") parsed) in
               if nonempty publicUrl then publicUrl
               else trimmed_string (obj_get (js "api_url") parsed)
           | None => []
           end
  end.

(** [getString(a) || b], where the strings may be undefined. *)
Definition or_string (a b : option jstr) : option jstr :=
  match a with Some (_ :: _) => a | _ => b end.

Definition truthy_prop (k : jstr) (o : list (jstr * json)) : bool :=
  match obj_get k o with Some v => json_truthy v | None => false end.

Definition candidate_id (item : list (jstr * json)) : option jstr :=
  or_string (getString (obj_get (js "id") item))
    (or_string (getString (obj_get (js "ID") item))
      (or_string (getString (obj_get (js "name") item))
        (or_string (getString (obj_get (js "model") item))
          (getString (obj_get (js "Model") item))))).

(** [item.metadata ?? item.Metadata]. *)
Definition metadata_of (item : list (jstr * json)) : json :=
  match obj_get (js "metadata") item with
  | Some JNull | None => default JNull (obj_get (js "Metadata") item)
  | Some v => v
  end.

(** [normalized.k = v] when [normalized.k] is falsy. *)
Definition fill (k : jstr) (v : option json) (o : list (jstr * json)) : list (jstr * json) :=
  match v with
  | Some v => if truthy_prop k o then o else obj_set o k v
  | None => o
  end.

(** A non-empty string property. *)
Definition string_prop (k : jstr) (o : list (jstr * json)) : option json :=
  match getString (obj_get k o) with Some (c :: s) => Some (JStr (c :: s)) | _ => None end.

Definition fill_from_metadata (metadata : json) (normalized : list (jstr * json)) : list (jstr * json) :=
  match isRecord metadata with
  | None => normalized
  | Some m =>
    let normalized := fill (js "size") (JNum <$> getNumber (obj_get (js "size") m)) normalized in
    let normalized := fill (js "digest") (string_prop (js "digest") m) normalized in
    let normalized := fill (js "modified_at") (string_prop (js "modified_at") m) normalized in
    fill (js "details") (if truthy_prop (js "details") m then obj_get (js "details") m else None) normalized
  end.

(** One element of the list: the normalized model, or nothing. *)
Definition normalize_item (item : json) : option (list (jstr * json)) :=
  match item with
  | JStr (c :: s) => Some [(js "id", JStr (c :: s)); (js "owned_by", JStr (js "ollama"))]
  | JObj o =>
    match candidate_id o with
    | Some (c :: s) =>
      let owned := default (js "ollama")
        (or_string (getString (obj_get (js "owned_by") o))
          (or_string (getString (obj_get (js "ownedBy") o)) (Some (js "ollama")))) in
      let normalized := obj_set (obj_set o (js "id") (JStr (c :: s))) (js "owned_by") (JStr owned) in
      let normalized := fill (js "size") (JNum <$> getNumber (obj_get (js "size") o)) normalized in
      Some (fill_from_metadata (metadata_of o) normalized)
    | _ => None
    end
  | _ => None
  end.

Definition normalizeOllamaModels (items : json) : list (list (jstr * json)) :=
  match items with JArr l => omap normalize_item l | _ => [] end.

Definition formatBytes (bytes : option num) : jstr :=
  match bytes with
  | None => js "-"
  | Some bytes =>
    if is_nan bytes then js "-"
    else if nlt bytes (num_of_Z 1024) then num_to_string bytes ++ js " B"
    else
      let kb := ndiv bytes (num_of_Z 1024) in
      if nlt kb (num_of_Z 1024) then toFixed kb 1 ++ js " KB"
      else
        let mb := ndiv kb (num_of_Z 1024) in
        if nlt mb (num_of_Z 1024) then toFixed mb 1 ++ js " MB"
        else toFixed (ndiv mb (num_of_Z 1024)) 2 ++ js " GB"
  end.

(** *** Properties *)
Lemma trimmed_string_trim v : trim (trimmed_string v) = trimmed_string v.
Proof. unfold trimmed_string. destruct (getString v); [apply trim_idemp|done]. Qed.

(** The base URL of an Ollama channel is always trimmed; it is the first
    non-blank string of the channel's own URL, its alternate field and the three
    fields of the extra information, and empty only when all of them are blank. *)
Theorem resolve_base_url_spec c :
  let url := resolveOllamaBaseUrl (Some c) in
  let info := default [] (isRecord (parseMaybeJSON (other_info c))) in
  let candidates := map trimmed_string
    [Some (base_url c); Some (ollama_base_url c); obj_get (js "base_url") info;
     obj_get (js "public_url") info; obj_get (js "api_url") info] in
  trim url = url ∧ url = default [] (head (List.filter nonempty candidates)).
Proof.
  intros url info candidates.
  assert (url = default [] (head (List.filter nonempty candidates))) as Hu.
  { unfold url, candidates, info, resolveOllamaBaseUrl. cbn [map List.filter].
    destruct (nonempty (trimmed_string (Some (base_url c)))); [done|].
    destruct (nonempty (trimmed_string (Some (ollama_base_url c)))); [done|].
    destruct (isRecord _) as [o|]; cbn [default from_option id]; [|done].
    destruct (nonempty (trimmed_string (obj_get (js "base_url") o))); [done|].
    destruct (nonempty (trimmed_string (obj_get (js "public_url") o))); [done|].
    by destruct (trimmed_string (obj_get (js "api_url") o)). }
  split; [|done]. rewrite Hu. destruct (head _) as [s|] eqn:E; [|done]. apply head_Some_elem_of in E.
  rewrite list_elem_of_In, filter_In, <- list_elem_of_In in E. destruct E as [E _].
  unfold candidates in E. apply list_elem_of_fmap in E as (v & -> & _). apply trimmed_string_trim.
Qed.

(** The state a fill leaves: truthy, or already the value it would write. *)
Definition filled (k : jstr) (v : option json) (o : list (jstr * json)) : Prop :=
  v = None ∨ truthy_prop k o = true ∨ obj_get k o = v.

Lemma truthy_prop_get k o o' : obj_get k o = obj_get k o' → truthy_prop k o = truthy_prop k o'.
Proof. unfold truthy_prop. by intros ->. Qed.

Lemma fill_get k k' v o : k ≠ k' → obj_get k' (fill k v o) = obj_get k' o.
Proof.
  intros Hk. unfold fill. destruct v; [|done]. destruct (truthy_prop k o); [done|].
  rewrite obj_get_set. unfold str_eqb. by rewrite bool_decide_eq_false_2.
Qed.

Lemma fill_filled k v o : filled k v (fill k v o).
Proof.
  unfold filled, fill. destruct v as [v|]; [|by left]. right.
  destruct (truthy_prop k o) eqn:E; [by left|]. right. rewrite obj_get_set. unfold str_eqb.
  by rewrite bool_decide_eq_true_2.
Qed.

Lemma filled_get k v o o' : obj_get k o = obj_get k o' → filled k v o → filled k v o'.
Proof. unfold filled. intros Hk. rewrite (truthy_prop_get k o o' Hk), Hk. done. Qed.

Lemma fill_id k v o : NoDup (map fst o) → filled k v o → fill k v o = o.
Proof.
  unfold fill, filled. intros Hnd H. destruct v as [v|]; [|done].
  destruct (truthy_prop k o) eqn:E; [done|]. apply obj_set_same; naive_solver.
Qed.

Lemma fill_nodup k v o : NoDup (map fst o) → NoDup (map fst (fill k v o)).
Proof. unfold fill. destruct v; [|done]. destruct (truthy_prop k o); [done|]. apply obj_set_nodup. Qed.

(** Distinct literal property names. *)
Ltac keys_differ := apply (bool_decide_eq_true_1 (_ ≠ _)); vm_compute; reflexivity.

Lemma fill_metadata_get md o k :
  k ≠ js "size" → k ≠ js "digest" → k ≠ js "modified_at" → k ≠ js "details" →
  obj_get k (fill_from_metadata md o) = obj_get k o.
Proof. intros. unfold fill_from_metadata. destruct (isRecord md); [|done]. by rewrite !fill_get by done. Qed.

Lemma fill_metadata_nodup md o : NoDup (map fst o) → NoDup (map fst (fill_from_metadata md o)).
Proof. intros. unfold fill_from_metadata. destruct (isRecord md); [|done]. by repeat apply fill_nodup. Qed.

Lemma fill_metadata_idemp md o :
  NoDup (map fst o) → fill_from_metadata md (fill_from_metadata md o) = fill_from_metadata md o.
Proof.
  intros Hnd. pose proof (fill_metadata_nodup md o Hnd) as Hnd'. revert Hnd'.
  unfold fill_from_metadata. destruct (isRecord md) as [m|]; [|done].
  set (v1 := JNum <$> _). set (v2 := string_prop (js "digest") m). set (v3 := string_prop (js "modified_at") m).
  set (v4 := if truthy_prop _ m then _ else _). intros Hnd'.
  assert (js "size" ≠ js "digest" ∧ js "size" ≠ js "modified_at" ∧ js "size" ≠ js "details"
    ∧ js "digest" ≠ js "modified_at" ∧ js "digest" ≠ js "details" ∧ js "modified_at" ≠ js "details")
    as (H12 & H13 & H14 & H23 & H24 & H34) by (split_and!; keys_differ).
  set (n := fill (js "details") v4 _) in *.
  assert (filled (js "size") v1 n ∧ filled (js "digest") v2 n ∧ filled (js "modified_at") v3 n
    ∧ filled (js "details") v4 n) as (F1 & F2 & F3 & F4).
  { unfold n. split_and!.
    - eapply filled_get; [symmetry; rewrite !fill_get by done; reflexivity|apply fill_filled].
    - eapply filled_get; [symmetry; rewrite !fill_get by done; reflexivity|apply fill_filled].
    - eapply filled_get; [symmetry; rewrite !fill_get by done; reflexivity|apply fill_filled].
    - apply fill_filled. }
  rewrite (fill_id _ v1), (fill_id _ v2), (fill_id _ v3), (fill_id _ v4); done.
Qed.

(** A normalized model: an id, an owner, nothing left to fill in. *)
Definition normal_model (n : list (jstr * json)) : Prop :=
  NoDup (map fst n) ∧
  (∃ c s, obj_get (js "id") n = Some (JStr (c :: s))) ∧
  (∃ d t, obj_get (js "owned_by") n = Some (JStr (d :: t))) ∧
  fill_from_metadata (metadata_of n) n = n.

Lemma normal_fixed n : normal_model n → normalize_item (JObj n) = Some n.
Proof.
  intros (Hnd & (c & s & Hid) & (d & t & Hown) & Hmeta). unfold normalize_item, candidate_id.
  rewrite Hid. cbn [getString or_string]. rewrite Hown. cbn [getString or_string default from_option id].
  rewrite (obj_set_same n (js "id")), (obj_set_same n (js "owned_by")) by done.
  rewrite fill_id; [by rewrite Hmeta|done|].
  unfold filled, getNumber. destruct (obj_get (js "size") n) as [[]|]; cbn; auto.
Qed.

Lemma owner_nonempty a b :
  ∃ d t, default (js "ollama") (or_string a (or_string b (Some (js "ollama")))) = d :: t.
Proof. destruct a as [[|? ?]|]; destruct b as [[|? ?]|]; cbn; eauto. Qed.

Lemma metadata_of_get o o' :
  obj_get (js "metadata") o = obj_get (js "metadata") o' →
  obj_get (js "Metadata") o = obj_get (js "Metadata") o' → metadata_of o = metadata_of o'.
Proof. unfold metadata_of. by intros -> ->. Qed.

Lemma normalize_item_normal v n :
  match v with JObj o => NoDup (map fst o) | _ => True end →
  normalize_item v = Some n → normal_model n.
Proof.
  destruct v as [| | |[|c s]| |o]; try done; intros Hnd Hn.
  - injection Hn as <-. split_and!.
    + apply (bool_decide_eq_true_1 (NoDup _)). vm_compute. reflexivity.
    + by exists c, s.
    + eexists _, _. reflexivity.
    + reflexivity.
  - unfold normalize_item in Hn. destruct (candidate_id o) as [[|c s]|]; [done| |done]. cbv zeta in Hn.
    destruct (owner_nonempty (getString (obj_get (js "owned_by") o)) (getString (obj_get (js "ownedBy") o)))
      as (d & t & Hown). rewrite Hown in Hn.
    set (n0 := fill (js "size") _ _) in Hn. injection Hn as <-.
    assert (NoDup (map fst n0)) as Hnd0 by (by apply fill_nodup, obj_set_nodup, obj_set_nodup).
    assert (∀ k, k ≠ js "size" → k ≠ js "id" → k ≠ js "owned_by" → obj_get k n0 = obj_get k o) as Hget.
    { intros k H1 H2 H3. unfold n0. rewrite fill_get by done. rewrite !obj_get_set. unfold str_eqb.
      by rewrite !bool_decide_eq_false_2. }
    assert (metadata_of (fill_from_metadata (metadata_of o) n0) = metadata_of o) as Hmd.
    { apply metadata_of_get; rewrite fill_metadata_get by keys_differ; apply Hget; keys_differ. }
    split_and!.
    + by apply fill_metadata_nodup.
    + exists c, s. rewrite fill_metadata_get by keys_differ. unfold n0. rewrite fill_get by keys_differ.
      rewrite !obj_get_set. reflexivity.
    + exists d, t. rewrite fill_metadata_get by keys_differ. unfold n0. rewrite fill_get by keys_differ.
      rewrite !obj_get_set. reflexivity.
    + rewrite Hmd. by apply fill_metadata_idemp.
Qed.

Definition objects_ok (l : list json) : Prop :=
  Forall (λ v, match v with JObj o => NoDup (map fst o) | _ => True end) l.

(** Every normalized Ollama model has a non-empty string id and a non-empty
    owner, and normalizing the normalized models again gives the same models
    (on items whose objects have distinct property names, as parsed JSON has). *)
Theorem ollama_models_spec l :
  objects_ok l →
  Forall (λ n, (∃ c s, obj_get (js "id") n = Some (JStr (c :: s))) ∧
               (∃ d t, obj_get (js "owned_by") n = Some (JStr (d :: t))))
    (normalizeOllamaModels (JArr l)) ∧
  normalizeOllamaModels (JArr (map JObj (normalizeOllamaModels (JArr l)))) = normalizeOllamaModels (JArr l).
Proof.
  intros Hl. assert (Forall normal_model (normalizeOllamaModels (JArr l))) as Hn.
  { unfold normalizeOllamaModels. apply Forall_forall. intros n (v & Hv & Hn)%list_elem_of_omap.
    unfold objects_ok in Hl. rewrite Forall_forall in Hl. by eapply normalize_item_normal; [apply Hl|]. }
  split.
  - eapply Forall_impl; [exact Hn|]. by intros n (_ & ? & ? & _).
  - set (ns := normalizeOllamaModels (JArr l)) in *. clearbody ns. cbn [normalizeOllamaModels].
    induction Hn as [|n ns Hn Hns IH]; [done|]. cbn [map omap list_omap].
    rewrite normal_fixed by done. by rewrite IH.
Qed.

Lemma ollama_models_spec_witness :
  let items := [JStr (js "llama3"); JNull;
    JObj [(js "name", JStr (js "qwen")); (js "metadata", JObj [(js "size", JNum (num_of_Z 7))])]] in
  normalizeOllamaModels (JArr (map JObj (normalizeOllamaModels (JArr items)))) = normalizeOllamaModels (JArr items).
Proof.
  intros items. apply (ollama_models_spec items).
  repeat constructor; apply (bool_decide_eq_true_1 _); vm_compute; reflexivity.
Defined.

Lemma small_bytes :
  forallb (λ n, str_eqb (formatBytes (Some (num_of_Z (Z.of_nat n)))) (dec (N.of_nat n) ++ js " B")) (seq 0 1024) = true.
Proof. vm_compute. reflexivity. Qed.

(** A size below 1024 bytes prints as its decimal digits; the largest size
    that still counts in kilobytes rounds up to a printed 1024.0 KB; no size
    prints as a dash. *)
Theorem format_bytes_spec n :
  ((n < 1024)%N → formatBytes (Some (num_of_Z (Z.of_N n))) = dec n ++ js " B") ∧
  formatBytes (Some (num_of_Z 1536)) = js "1.5 KB" ∧
  formatBytes (Some (num_of_Z (1024 * 1024 - 1))) = js "1024.0 KB" ∧
  formatBytes (Some (num_of_Z (5 * 1024 ^ 3))) = js "5.00 GB" ∧
  formatBytes None = js "-".
Proof.
  split_and!; [|vm_compute; reflexivity..]. intros Hn.
  pose proof (proj1 (forallb_forall _ _) small_bytes (N.to_nat n)) as H. cbv beta in H.
  rewrite N2Nat.id in H. assert (Z.of_nat (N.to_nat n) = Z.of_N n) as E by lia. rewrite E in H.
  unfold str_eqb in H. rewrite bool_decide_eq_true in H. apply H. apply in_seq. lia.
Qed.

End Ollama.
