(* ===== verification/Messages.v ===== *)
(** * Playground messages

    [src/web/default/src/features/playground/]: the message types ([types.ts]),
    the constants ([constants.ts]), the message functions
    ([lib/message-utils.ts]) and the request payload ([lib/payload-builder.ts]).
    Identifiers drawn from [nanoid] are arguments. *)

From S2P Require Import Prelude JsString JsRegExp JsNumber Json.
From Stdlib Require Import NArith ZArith.

(** ** Data *)

Inductive MessageRole := User | Assistant | System.
Inductive MessageStatus := Loading | Streaming | Complete | Error.

#[export] Instance MessageRole_eq_dec : EqDecision MessageRole.
Proof. solve_decision. Defined.
#[export] Instance MessageStatus_eq_dec : EqDecision MessageStatus.
Proof. solve_decision. Defined.

Record MessageVersion := Version { v_id : jstr; content : jstr }.

Record Source := { href : jstr; title : jstr }.

Record Reasoning := MkReasoning { r_content : jstr; duration : num }.

(** An optional property that is absent is [None]; [errorCode] may also be null,
    [Some None]. *)
Record Message := MkMessage {
  key : jstr;
  from : MessageRole;
  versions : list MessageVersion;
  sources : option (list Source);
  reasoning : option Reasoning;
  isReasoningStreaming : option bool;
  isReasoningComplete : option bool;
  isContentComplete : option bool;
  status : option MessageStatus;
  errorCode : option (option jstr);
}.

(** [{...m, versions}] and the like. *)
Definition with_versions (vs : list MessageVersion) (m : Message) : Message :=
  MkMessage (key m) (from m) vs (sources m) (reasoning m) (isReasoningStreaming m)
    (isReasoningComplete m) (isContentComplete m) (status m) (errorCode m).
Definition with_reasoning (r : option Reasoning) (m : Message) : Message :=
  MkMessage (key m) (from m) (versions m) (sources m) r (isReasoningStreaming m)
    (isReasoningComplete m) (isContentComplete m) (status m) (errorCode m).
Definition with_streaming (b : bool) (m : Message) : Message :=
  MkMessage (key m) (from m) (versions m) (sources m) (reasoning m) (Some b)
    (isReasoningComplete m) (isContentComplete m) (status m) (errorCode m).
Definition with_status (s : MessageStatus) (m : Message) : Message :=
  MkMessage (key m) (from m) (versions m) (sources m) (reasoning m) (isReasoningStreaming m)
    (isReasoningComplete m) (isContentComplete m) (Some s) (errorCode m).
Definition with_errorCode (e : option jstr) (m : Message) : Message :=
  MkMessage (key m) (from m) (versions m) (sources m) (reasoning m) (isReasoningStreaming m)
    (isReasoningComplete m) (isContentComplete m) (status m) (Some e).

Inductive ContentPart :=
  | TextPart (text : jstr)
  | ImagePart (url : jstr).

(** [string | ContentPart[]]. *)
Inductive MessageContent := TextContent (s : jstr) | PartsContent (l : list ContentPart).

Record ChatCompletionMessage := { role : MessageRole; api_content : MessageContent }.

Record PlaygroundConfig := {
  model : jstr;
  group : jstr;
  temperature : num;
  top_p : num;
  max_tokens : num;
  frequency_penalty : num;
  presence_penalty : num;
  seed : option num;
  stream : bool;
}.

Record ParameterEnabled := {
  temperature_on : bool;
  top_p_on : bool;
  max_tokens_on : bool;
  frequency_penalty_on : bool;
  presence_penalty_on : bool;
  seed_on : bool;
}.

(** An optional parameter that is not sent is [None]. *)
Record ChatCompletionRequest := {
  req_model : jstr;
  req_group : jstr;
  req_messages : list ChatCompletionMessage;
  req_stream : bool;
  req_temperature : option num;
  req_top_p : option num;
  req_max_tokens : option num;
  req_frequency_penalty : option num;
  req_presence_penalty : option num;
  req_seed : option num;
}.

Record ModelOption := { mo_label : jstr; mo_value : jstr }.
Record GroupOption := { go_label : jstr; go_value : jstr; go_ratio : num; go_desc : option jstr }.

(** ** Constants *)

Definition DEFAULT_GROUP : jstr := js "default".

Definition DEFAULT_CONFIG : PlaygroundConfig :=
  {| model := js "gpt-4o"; group := DEFAULT_GROUP; temperature := dec_to_num false 7 (-1);
     top_p := num_of_Z 1; max_tokens := num_of_Z 4096; frequency_penalty := nzero;
     presence_penalty := nzero; seed := None; stream := true |}.

Definition DEFAULT_PARAMETER_ENABLED : ParameterEnabled :=
  {| temperature_on := true; top_p_on := true; max_tokens_on := false;
     frequency_penalty_on := true; presence_penalty_on := true; seed_on := false |}.

Definition STORAGE_CONFIG : jstr := js "playground_config".
Definition STORAGE_MESSAGES : jstr := js "playground_messages".
Definition STORAGE_PARAMETER_ENABLED : jstr := js "playground_parameter_enabled".

Definition API_REQUEST_ERROR : jstr := js "Request error occurred".
Definition NETWORK_ERROR : jstr := js "Network connection failed or server not responding".
Definition PARSE_ERROR : jstr := js "Error parsing response data".
Definition STREAM_START_ERROR : jstr := js "Error establishing connection".
Definition CONNECTION_CLOSED : jstr := js "Connection closed".
Definition INTERRUPTED : jstr := js "Generation was interrupted".

(** ** Creating messages *)

Definition createMessageVersion (nanoid content : jstr) : MessageVersion := Version nanoid content.

Definition getCurrentVersion (message : Message) : MessageVersion :=
  match versions message with v :: _ => v | [] => Version (js "default") [] end.

Definition updateCurrentVersionContent (message : Message) (content : jstr) : Message :=
  let currentVersion := getCurrentVersion message in
  with_versions [Version (v_id currentVersion) content] message.

Definition createUserMessage (keyId versionId content : jstr) : Message :=
  MkMessage keyId User [createMessageVersion versionId content] None None None None None None None.

Definition createLoadingAssistantMessage (keyId versionId : jstr) : Message :=
  MkMessage keyId Assistant [createMessageVersion versionId []] None None (Some false) (Some false)
    (Some false) (Some Loading) None.

(** ** Content *)

Definition buildMessageContent (text : jstr) (imageUrls : list jstr) : MessageContent :=
  let validImages := List.filter (λ url, negb (str_eqb (trim url) [])) imageUrls in
  match validImages with
  | [] => TextContent text
  | _ => PartsContent (TextPart text :: map (λ url, ImagePart (trim url)) validImages)
  end.

Fixpoint first_text (l : list ContentPart) : option jstr :=
  match l with
  | [] => None
  | TextPart t :: _ => Some t
  | ImagePart _ :: l => first_text l
  end.

Definition getTextContent (c : MessageContent) : jstr :=
  match c with
  | TextContent s => s
  | PartsContent l => default [] (first_text l)
  end.

Definition formatMessageForAPI (message : Message) : ChatCompletionMessage :=
  {| role := from message; api_content := TextContent (content (getCurrentVersion message)) |}.

Definition isValidMessage (message : Message) : bool :=
  match versions message with
  | [] => false
  | v :: _ =>
    if bool_decide (from message = Assistant) && negb (nonempty (trim (content v))) then false else true
  end.

(** ** Thinking tags *)

Definition THINK_OPEN : jstr := js "<think>".
Definition THINK_CLOSE : jstr := js "</think>".

Record ThinkParse := Think { visibleContent : jstr; think_reasoning : jstr; hasUnclosedTag : bool }.

(** [content.substring(i)] and [content.substring(i, j)] with [i <= j]. *)
Definition substring_from (i : nat) (s : jstr) : jstr := drop i s.

(** The loop: [currentPos] and the two lists of parts, in order. *)
Fixpoint think_loop (fuel : nat) (content : jstr) (currentPos : nat)
    (visibleParts reasoningParts : list jstr) : list jstr * list jstr * bool :=
  match fuel with
  | O => (visibleParts, reasoningParts, false)
  | S f =>
    match index_of_from THINK_OPEN content currentPos with
    | None =>
      let visibleParts := if currentPos <? length content
        then visibleParts ++ [substring_from currentPos content] else visibleParts in
      (visibleParts, reasoningParts, false)
    | Some openPos =>
      let visibleParts := if currentPos <? openPos
        then visibleParts ++ [slice currentPos openPos content] else visibleParts in
      match index_of_from THINK_CLOSE content (openPos + 7) with
      | None => (visibleParts, reasoningParts ++ [substring_from (openPos + 7) content], true)
      | Some closePos =>
        think_loop f content (closePos + 8) visibleParts
          (reasoningParts ++ [slice (openPos + 7) closePos content])
      end
    end
  end.

(** Every iteration advances by at least fifteen code units, so the length of the
    content is enough fuel. *)
Definition parseThinkTags (content : jstr) : ThinkParse :=
  if negb (includes THINK_OPEN content) then Think content [] false
  else
    let '(visibleParts, reasoningParts, unclosed) :=
      think_loop (S (length content)) content 0 [] [] in
    Think (trim (concat visibleParts)) (trim (str_join [10; 10]%N reasoningParts)) unclosed.

(** ** Updating messages *)

Definition updateLastAssistantMessage (messages : list Message) (updater : Message → Message)
  : list Message :=
  match last messages with
  | None => messages
  | Some m =>
    if negb (bool_decide (from m = Assistant)) then messages
    else <[length messages - 1 := updater m]> messages
  end.

Definition updateAssistantMessageWithError (messages : list Message) (errorMessage : jstr)
    (code : option jstr) : list Message :=
  updateLastAssistantMessage messages (λ message,
    let updatedMessage := updateCurrentVersionContent message (API_REQUEST_ERROR ++ js ": " ++ errorMessage) in
    with_errorCode (match code with Some (c :: s) => Some (c :: s) | _ => None end)
      (with_streaming false (with_status Error updatedMessage))).

Definition processStreamingContent (message : Message) (contentChunk : option jstr) : Message :=
  let currentVersion := getCurrentVersion message in
  let fullContent :=
    match contentChunk with
    | Some (c :: s) => content currentVersion ++ c :: s
    | _ => content currentVersion
    end in
  let p := parseThinkTags fullContent in
  let finalReasoning :=
    if nonempty (think_reasoning p) then Some (MkReasoning (think_reasoning p) nzero)
    else reasoning message in
  with_streaming (hasUnclosedTag p)
    (with_reasoning finalReasoning (updateCurrentVersionContent message fullContent)).

Definition finalizeMessage (message : Message) (apiReasoningContent : option jstr) : Message :=
  let currentVersion := getCurrentVersion message in
  let p := parseThinkTags (content currentVersion) in
  let finalReasoning :=
    str_or (default [] apiReasoningContent)
      (str_or (default [] (r_content <$> reasoning message)) (think_reasoning p)) in
  with_streaming false
    (with_reasoning
      (if nonempty finalReasoning
       then Some (MkReasoning finalReasoning (num_or0 (default nzero (duration <$> reasoning message))))
       else None)
      (updateCurrentVersionContent message (visibleContent p))).

(** A message that the last session left unfinished. *)
Definition is_stuck (m : Message) : bool :=
  bool_decide (from m = Assistant) &&
  (bool_decide (status m = Some Loading) || bool_decide (status m = Some Streaming)).

(** The loop from the end: the largest index that satisfies [p]. *)
Fixpoint find_last {A} (p : A → bool) (l : list A) : option nat :=
  match l with
  | [] => None
  | x :: l =>
    match find_last p l with
    | Some i => Some (S i)
    | None => if p x then Some 0 else None
    end
  end.

Definition sanitize_one (m : Message) : Message :=
  let finalized := finalizeMessage m None in
  let hasContent := nonempty (trim (content (getCurrentVersion finalized))) in
  let hasReasoning :=
    match reasoning finalized with Some r => nonempty (trim (r_content r)) | None => false end in
  if hasContent || hasReasoning
  then with_streaming false (with_status Complete finalized)
  else with_streaming false (with_status Error
         (updateCurrentVersionContent finalized (API_REQUEST_ERROR ++ js ": " ++ INTERRUPTED))).

(** The new list, or [None] when the very same array is returned. *)
Definition sanitizeMessagesOnLoad (messages : list Message) : option (list Message) :=
  match find_last is_stuck messages with
  | None => None
  | Some targetIndex =>
    match messages !! targetIndex with
    | Some m => Some (<[targetIndex := sanitize_one m]> messages)
    | None => None
    end
  end.

(** ** The request payload *)

(** [payload[key] = config[key]] when the parameter is enabled and not null. *)
Definition enabled_value (on : bool) (value : option num) : option num := if on then value else None.

Definition buildChatCompletionPayload (messages : list Message) (config : PlaygroundConfig)
    (parameterEnabled : ParameterEnabled) : ChatCompletionRequest :=
  let processedMessages := map formatMessageForAPI (List.filter isValidMessage messages) in
  {| req_model := model config; req_group := group config; req_messages := processedMessages;
     req_stream := stream config;
     req_temperature := enabled_value (temperature_on parameterEnabled) (Some (temperature config));
     req_top_p := enabled_value (top_p_on parameterEnabled) (Some (top_p config));
     req_max_tokens := enabled_value (max_tokens_on parameterEnabled) (Some (max_tokens config));
     req_frequency_penalty :=
       enabled_value (frequency_penalty_on parameterEnabled) (Some (frequency_penalty config));
     req_presence_penalty :=
       enabled_value (presence_penalty_on parameterEnabled) (Some (presence_penalty config));
     req_seed := enabled_value (seed_on parameterEnabled) (seed config) |}.

(** ** Thinking tags: what the loop computes *)

(** A text cut at its tags: closed segments (visible text, reasoning), the text
    after the last of them, and the reasoning of a tag that is never closed. *)
Definition seg_text (seg : jstr * jstr) : jstr := fst seg ++ THINK_OPEN ++ snd seg ++ THINK_CLOSE.

Definition think_text (segs : list (jstr * jstr)) (tail : jstr) (unclosed : option jstr) : jstr :=
  concat (map seg_text segs) ++ tail ++ match unclosed with Some r => THINK_OPEN ++ r | None => [] end.

Definition segs_ok (segs : list (jstr * jstr)) (tail : jstr) (unclosed : option jstr) : Prop :=
  Forall (λ s, includes THINK_OPEN (fst s) = false ∧ includes THINK_CLOSE (snd s) = false) segs ∧
  includes THINK_OPEN tail = false ∧
  match unclosed with Some r => includes THINK_CLOSE r = false | None => True end.

Lemma prefix_before (h : N) u v x : h ∉ u → prefixb u (v ++ h :: x) = true → ∃ y, v = u ++ y.
Proof.
  revert v; induction u as [|c u IH]; intros v Hh; [by exists v|].
  destruct v as [|d v]; cbn [app prefixb].
  - intros H. boolify. subst. set_solver.
  - intros H. boolify. subst. destruct (IH v) as [y ->]; [set_solver|done|]. by exists y.
Qed.

Lemma index_of_cons p c s :
  index_of p (c :: s) = if prefixb p (c :: s) then Some 0 else S <$> index_of p s.
Proof. done. Qed.

(** A word whose first unit occurs nowhere else in it is found at its first
    occurrence: no overlap with the text before it is possible. *)
Lemma index_of_first h t v s :
  h ∉ t → includes (h :: t) v = false → index_of (h :: t) (v ++ (h :: t) ++ s) = Some (length v).
Proof.
  intros Hh. induction v as [|c v IH]; intros Hv.
  - cbn [app]. unfold index_of. cbn [prefixb]. rewrite N.eqb_refl, prefixb_app. done.
  - change ((c :: v) ++ (h :: t) ++ s) with (c :: v ++ (h :: t) ++ s). rewrite index_of_cons.
    destruct (prefixb (h :: t) (c :: v ++ (h :: t) ++ s)) eqn:E.
    + exfalso. cbn [app prefixb] in E. boolify. subst.
      destruct (prefix_before c t v (t ++ s)) as [y ->]; [done|done|].
      assert (includes (c :: t) (c :: t ++ y) = true); [|congruence].
      apply includes_spec. by exists [], y.
    + rewrite IH; [done|].
      destruct (includes (h :: t) v) eqn:E'; [|done]. apply includes_spec in E' as (a & b & ->).
      assert (includes (h :: t) (c :: a ++ (h :: t) ++ b) = true); [|congruence].
      apply includes_spec. by exists (c :: a), b.
Qed.

Lemma includes_None p s : includes p s = false → index_of p s = None.
Proof. unfold includes. by destruct (index_of p s). Qed.

Lemma open_first v s : includes THINK_OPEN v = false → index_of THINK_OPEN (v ++ THINK_OPEN ++ s) = Some (length v).
Proof. apply index_of_first. by apply (bool_decide_eq_true_1 (_ ∉ _)). Qed.

Lemma close_first v s : includes THINK_CLOSE v = false → index_of THINK_CLOSE (v ++ THINK_CLOSE ++ s) = Some (length v).
Proof. apply index_of_first. by apply (bool_decide_eq_true_1 (_ ∉ _)). Qed.

Lemma index_from_app p pre s i :
  index_of p s = i → index_of_from p (pre ++ s) (length pre) = (λ i, length pre + i) <$> i.
Proof. intros <-. unfold index_of_from. by rewrite drop_app_length. Qed.

Lemma slice_mid pre v s : slice (length pre) (length pre + length v) (pre ++ v ++ s) = v.
Proof.
  unfold slice. rewrite drop_app_length. replace (length pre + length v - length pre) with (length v) by lia.
  apply take_app_length.
Qed.

Lemma nonempty_parts (v : jstr) l : (if 0 <? length v then l ++ [v] else l) = l ++ List.filter nonempty [v].
Proof. destruct v; [by rewrite app_nil_r|done]. Qed.

Lemma think_loop_segs segs tail unclosed f pre vs rs :
  segs_ok segs tail unclosed → length segs < f →
  think_loop f (pre ++ think_text segs tail unclosed) (length pre) vs rs
  = (vs ++ List.filter nonempty (map fst segs ++ [tail]),
     rs ++ map snd segs ++ match unclosed with Some r => [r] | None => [] end,
     match unclosed with Some _ => true | None => false end).
Proof.
  intros (Hs & Ht & Hu) Hf. revert f pre vs rs Hf. induction Hs as [|[v r] segs [Hv Hr] Hs IH]; intros f pre vs rs Hf.
  - destruct f as [|f]; [simpl in Hf; lia|]. unfold think_text. cbn [map concat app think_loop].
    destruct unclosed as [r|].
    + rewrite (index_from_app _ pre _ (Some (length tail))) by (by apply open_first).
      cbn [fmap option_fmap option_map].
      assert (pre ++ tail ++ THINK_OPEN ++ r = (pre ++ tail ++ THINK_OPEN) ++ r) as E by (by rewrite <- !app_assoc).
      assert (length pre + length tail + 7 = length (pre ++ tail ++ THINK_OPEN)) as El
        by (rewrite !length_app; change (length THINK_OPEN) with 7; lia).
      rewrite slice_mid. rewrite E, El, (index_from_app _ _ _ None) by (by apply includes_None).
      cbn [fmap option_fmap option_map]. unfold substring_from. rewrite drop_app_length.
      rewrite <- nonempty_parts. repeat f_equal.
      destruct (Nat.ltb_spec (length pre) (length pre + length tail)), (Nat.ltb_spec 0 (length tail)); done || lia.
    + rewrite app_nil_r, (index_from_app _ pre _ None) by (by apply includes_None).
      cbn [fmap option_fmap option_map]. unfold substring_from. rewrite drop_app_length, app_nil_r.
      rewrite <- nonempty_parts, length_app. repeat f_equal.
      destruct (Nat.ltb_spec (length pre) (length pre + length tail)), (Nat.ltb_spec 0 (length tail)); done || lia.
  - destruct f as [|f]; [simpl in Hf; lia|]. cbn [fst snd] in *.
    set (rest := think_text segs tail unclosed) in *.
    assert (think_text ((v, r) :: segs) tail unclosed = v ++ THINK_OPEN ++ r ++ THINK_CLOSE ++ rest) as Etext
      by (unfold rest, think_text, seg_text; cbn [map concat fst snd]; by rewrite <- !app_assoc).
    rewrite Etext. cbn [think_loop].
    rewrite (index_from_app _ pre _ (Some (length v))) by (by apply open_first).
    cbn [fmap option_fmap option_map]. rewrite slice_mid.
    assert (pre ++ v ++ THINK_OPEN ++ r ++ THINK_CLOSE ++ rest
      = (pre ++ v ++ THINK_OPEN) ++ r ++ THINK_CLOSE ++ rest) as E by (by rewrite <- !app_assoc).
    assert (length pre + length v + 7 = length (pre ++ v ++ THINK_OPEN)) as El
      by (rewrite !length_app; change (length THINK_OPEN) with 7; lia).
    rewrite E, El, (index_from_app _ _ _ (Some (length r))) by (by apply close_first).
    cbn [fmap option_fmap option_map]. rewrite slice_mid.
    assert ((pre ++ v ++ THINK_OPEN) ++ r ++ THINK_CLOSE ++ rest
      = ((pre ++ v ++ THINK_OPEN) ++ r ++ THINK_CLOSE) ++ rest) as E' by (by rewrite <- !app_assoc).
    assert (length (pre ++ v ++ THINK_OPEN) + length r + 8
      = length ((pre ++ v ++ THINK_OPEN) ++ r ++ THINK_CLOSE)) as El'
      by (rewrite (length_app (_ ++ _)), (length_app r); change (length THINK_CLOSE) with 8; lia).
    rewrite E', El', IH by (cbn [length] in Hf; lia). clear. cbn [map fst snd app].
    replace (length pre <? length pre + length v) with (0 <? length v)
      by (destruct (Nat.ltb_spec (length pre) (length pre + length v)), (Nat.ltb_spec 0 (length v)); done || lia).
    rewrite nonempty_parts. cbn [List.filter]. f_equal. f_equal.
    + destruct (nonempty v); [|by rewrite app_nil_r]. by rewrite <- app_assoc.
    + by rewrite <- app_assoc.
Qed.

Lemma index_of_split p s i :
  p ≠ [] → index_of p s = Some i → ∃ a b, s = a ++ p ++ b ∧ includes p a = false.
Proof.
  intros Hp. revert i. induction s as [|c s IH]; intros i.
  - unfold index_of. destruct p; [done|]. done.
  - rewrite index_of_cons. destruct (prefixb p (c :: s)) eqn:E.
    + intros _. apply prefixb_spec in E as [b ->]. exists [], b. split; [done|]. by destruct p.
    + destruct (index_of p s) as [j|] eqn:Ej; [|done]. intros _.
      destruct (IH j eq_refl) as (a & b & -> & Ha). exists (c :: a), b. split; [done|].
      unfold includes in *. rewrite index_of_cons.
      destruct (prefixb p (c :: a)) eqn:E'.
      * exfalso. apply prefixb_spec in E' as [y Ey].
        assert (prefixb p (c :: a ++ p ++ b) = true) as Hc.
        { apply prefixb_spec. exists (y ++ p ++ b). rewrite (app_assoc p), <- Ey. done. }
        congruence.
      * destruct (index_of p a); done.
Qed.

(** Every text is cut at its tags in this way. *)
Lemma think_decompose content :
  ∃ segs tail unclosed, content = think_text segs tail unclosed ∧ segs_ok segs tail unclosed.
Proof.
  induction content as [content IH] using (induction_ltof1 _ length). unfold ltof in IH.
  destruct (index_of THINK_OPEN content) as [i|] eqn:Eo.
  - apply index_of_split in Eo as (v & s & -> & Hv); [|done].
    destruct (index_of THINK_CLOSE s) as [j|] eqn:Ec.
    + apply index_of_split in Ec as (r & rest & -> & Hr); [|done].
      destruct (IH rest) as (segs & tail & unclosed & -> & Hok & Ht & Hu).
      { rewrite !length_app. change (length THINK_OPEN) with 7. lia. }
      exists ((v, r) :: segs), tail, unclosed. split; [|split; [by constructor|done]].
      unfold think_text, seg_text. cbn [map concat fst snd]. by rewrite <- !app_assoc.
    + exists [], v, (Some s). split; [done|]. split_and!; [constructor|done|]. unfold includes. by rewrite Ec.
  - exists [], content, None. split; [by unfold think_text; rewrite app_nil_r|].
    split_and!; [constructor| |done]. unfold includes. by rewrite Eo.
Qed.

Lemma concat_filter_nonempty l : concat (List.filter nonempty l) = concat l.
Proof. induction l as [|[|c s] l IH]; [done| |]; cbn; by rewrite IH. Qed.

Lemma segs_length segs tail unclosed : length segs < S (length (think_text segs tail unclosed)).
Proof.
  unfold think_text. rewrite length_app. induction segs as [|[v r] segs IH]; [simpl; lia|].
  cbn [map concat]. rewrite length_app.
  assert (1 ≤ length (seg_text (v, r)))
    by (unfold seg_text; rewrite !length_app; change (length THINK_OPEN) with 7; lia).
  cbn [length]. lia.
Qed.

Lemma parse_think_segs segs tail unclosed :
  segs_ok segs tail unclosed →
  parseThinkTags (think_text segs tail unclosed) =
    match segs, unclosed with
    | [], None => Think tail [] false
    | _, _ => Think (trim (concat (map fst segs ++ [tail])))
                (trim (str_join [10; 10]%N (map snd segs ++ match unclosed with Some r => [r] | None => [] end)))
                (match unclosed with Some _ => true | None => false end)
    end.
Proof.
  intros Hok. unfold parseThinkTags.
  destruct (includes THINK_OPEN (think_text segs tail unclosed)) eqn:E; cbn [negb].
  - pose proof (think_loop_segs segs tail unclosed _ [] [] [] Hok (segs_length segs tail unclosed)) as H.
    cbn [app length] in H. rewrite H, concat_filter_nonempty.
    destruct segs as [|sg segs], unclosed; try done. exfalso.
    destruct Hok as (_ & Ht & _). unfold think_text in E. cbn [map concat app] in E. rewrite app_nil_r in E.
    congruence.
  - destruct segs as [|sg segs], unclosed as [j|]; try done.
    + exfalso. assert (includes THINK_OPEN (think_text [] tail (Some j)) = true); [|congruence].
      apply includes_spec. by exists tail, j.
    + by unfold think_text; cbn [map concat app]; rewrite app_nil_r.
    + exfalso. assert (includes THINK_OPEN (think_text (sg :: segs) tail (Some j)) = true); [|congruence].
      apply includes_spec. unfold think_text, seg_text. cbn [map concat].
      eexists (fst sg), _. by rewrite <- !app_assoc.
    + exfalso. assert (includes THINK_OPEN (think_text (sg :: segs) tail None) = true); [|congruence].
      apply includes_spec. unfold think_text, seg_text. cbn [map concat].
      eexists (fst sg), _. by rewrite <- !app_assoc.
Qed.

(** C31: The tag parser, on every text: the text is cut into closed segments, a
    tail and possibly an unclosed tag; the visible content is what is outside the
    tags, the reasoning is what is inside, paragraph by paragraph, both trimmed,
    and the flag tells whether a tag is left open; a text without an opening tag
    is returned as it is. In particular the loop always ends within its fuel. *)
Theorem think_tags_spec content :
  ∃ segs tail unclosed, content = think_text segs tail unclosed ∧ segs_ok segs tail unclosed ∧
    parseThinkTags content =
      match segs, unclosed with
      | [], None => Think tail [] false
      | _, _ => Think (trim (concat (map fst segs ++ [tail])))
                  (trim (str_join [10; 10]%N (map snd segs ++ match unclosed with Some r => [r] | None => [] end)))
                  (match unclosed with Some _ => true | None => false end)
      end.
Proof.
  destruct (think_decompose content) as (segs & tail & unclosed & -> & Hok).
  exists segs, tail, unclosed. split_and!; [done|done|]. by apply parse_think_segs.
Qed.

(** The parser invents no code units but the line feeds between paragraphs. *)
Lemma think_units (P : N → Prop) content :
  Forall P content → P 10%N →
  Forall P (visibleContent (parseThinkTags content)) ∧ Forall P (think_reasoning (parseThinkTags content)).
Proof.
  intros Hc H10. destruct (think_decompose content) as (segs & tail & unclosed & -> & Hok).
  rewrite parse_think_segs by done. unfold think_text in Hc. rewrite !Forall_app in Hc.
  destruct Hc as (Hs & Ht & Hu).
  assert (Forall P (concat (map fst segs ++ [tail])) ∧
    Forall P (str_join [10; 10]%N (map snd segs ++ match unclosed with Some r => [r] | None => [] end))) as [Hv Hr].
  { rewrite !Forall_forall in *. split.
    - intros x. rewrite concat_app, elem_of_app. cbn [concat]. rewrite app_nil_r. intros [Hx|Hx]; [|auto].
      apply Hs. rewrite list_elem_of_In, in_concat in Hx |- *. destruct Hx as (w & (sg & <- & Hsg)%in_map_iff & Hx).
      exists (seg_text sg). split; [apply in_map_iff; eauto|]. unfold seg_text. apply in_app_iff. by left.
    - intros x [Hx|(w & Hw & Hx)]%elem_of_join; [rewrite !elem_of_cons, elem_of_nil in Hx; naive_solver|].
      apply elem_of_app in Hw as [(sg & -> & Hsg)%list_elem_of_fmap|Hw].
      + apply Hs. rewrite list_elem_of_In, in_concat. exists (seg_text sg).
        split; [apply in_map_iff; exists sg; by rewrite <- list_elem_of_In|].
        rewrite <- list_elem_of_In. unfold seg_text. rewrite !elem_of_app. auto.
      + destruct unclosed as [r|]; [|by apply elem_of_nil in Hw]. apply list_elem_of_singleton in Hw as ->.
        apply Hu. rewrite elem_of_app. auto. }
  assert (∀ s, Forall P s → Forall P (trim s)) as Htrim.
  { intros s Hs'. rewrite Forall_forall in *. intros x Hx. apply Hs'. by apply trim_incl. }
  destruct segs, unclosed; cbn [visibleContent think_reasoning]; auto.
Qed.

(** ** Streaming *)

Definition stream_chunks (m : Message) (chunks : list jstr) : Message :=
  foldl (λ m c, processStreamingContent m (Some c)) m chunks.

Lemma process_content m c :
  content (getCurrentVersion (processStreamingContent m (Some c))) = content (getCurrentVersion m) ++ c.
Proof. destruct c as [|x c]; cbn; by rewrite ?app_nil_r. Qed.

Lemma process_version m c :
  v_id (getCurrentVersion (processStreamingContent m (Some c))) = v_id (getCurrentVersion m).
Proof. by destruct c. Qed.

Lemma process_reasoning m c :
  let p := parseThinkTags (content (getCurrentVersion m) ++ c) in
  reasoning (processStreamingContent m (Some c)) =
    if nonempty (think_reasoning p) then Some (MkReasoning (think_reasoning p) nzero) else reasoning m.
Proof. destruct c as [|x c]; cbn zeta; [by rewrite app_nil_r|done]. Qed.

(** Everything but the versions, the reasoning and the streaming flag. *)
Definition same_frame (m m' : Message) : Prop :=
  key m = key m' ∧ from m = from m' ∧ sources m = sources m' ∧
  isReasoningComplete m = isReasoningComplete m' ∧ isContentComplete m = isContentComplete m' ∧
  status m = status m' ∧ errorCode m = errorCode m'.

Lemma stream_facts m chunks :
  content (getCurrentVersion (stream_chunks m chunks)) = content (getCurrentVersion m) ++ concat chunks ∧
  v_id (getCurrentVersion (stream_chunks m chunks)) = v_id (getCurrentVersion m) ∧
  same_frame (stream_chunks m chunks) m.
Proof.
  revert m. induction chunks as [|c chunks IH]; intros m; [by rewrite app_nil_r|].
  cbn [stream_chunks foldl concat]. destruct (IH (processStreamingContent m (Some c))) as (H1 & H2 & H3).
  unfold stream_chunks in *. rewrite H1, H2, process_content, process_version, <- app_assoc. split_and!; try done;
    apply H3.
Qed.

(** C30: However a reply is cut into chunks, the raw content kept while streaming
    is the concatenation of the chunks; and when the reply as a whole has some
    reasoning in its tags, the message is the same as if the reply had come in
    one piece. *)
Theorem chunking_independent m chunks last :
  let full := content (getCurrentVersion m) ++ concat (chunks ++ [last]) in
  content (getCurrentVersion (stream_chunks m (chunks ++ [last]))) = full ∧
  (think_reasoning (parseThinkTags full) ≠ [] →
   stream_chunks m (chunks ++ [last]) = processStreamingContent m (Some (concat (chunks ++ [last])))).
Proof.
  intros full. destruct (stream_facts m (chunks ++ [last])) as (Hc & Hv & Hf). split; [done|]. intros Hr.
  assert (∀ m c, let p := parseThinkTags (content (getCurrentVersion m) ++ c) in
    processStreamingContent m (Some c) =
      with_streaming (hasUnclosedTag p)
        (with_reasoning (if nonempty (think_reasoning p) then Some (MkReasoning (think_reasoning p) nzero)
                         else reasoning m)
          (updateCurrentVersionContent m (content (getCurrentVersion m) ++ c)))) as Hp.
  { intros m' [|x c]; cbn zeta; [by rewrite app_nil_r|done]. }
  unfold stream_chunks in *. rewrite foldl_app in *. cbn [foldl] in *.
  destruct (stream_facts m chunks) as (Hc' & Hv' & Hf'). unfold stream_chunks in *.
  set (m' := foldl _ m chunks) in *. rewrite !Hp. fold full.
  assert (content (getCurrentVersion m') ++ last = full) as ->.
  { unfold full. rewrite Hc', concat_app, <- app_assoc. cbn. by rewrite app_nil_r. }
  apply nonempty_spec in Hr. rewrite Hr.
  unfold with_streaming, with_reasoning, updateCurrentVersionContent, with_versions. cbn.
  rewrite Hv'. destruct Hf' as (-> & -> & -> & -> & -> & -> & ->). done.
Qed.

(** What finalizing makes of a reply that came in chunks. *)
Lemma finalize_content m o :
  content (getCurrentVersion (finalizeMessage m o)) = visibleContent (parseThinkTags (content (getCurrentVersion m))).
Proof. done. Qed.

Lemma stream_reasoning m cs :
  cs ≠ [] → let p := parseThinkTags (content (getCurrentVersion m) ++ concat cs) in
  think_reasoning p ≠ [] → r_content <$> reasoning (stream_chunks m cs) = Some (think_reasoning p).
Proof.
  destruct cs as [|last cs _] using rev_ind; [done|]. intros _. cbv zeta. intros Hr.
  unfold stream_chunks. rewrite foldl_app. cbn [foldl]. fold (stream_chunks m cs).
  destruct (stream_facts m cs) as (Hc & _). rewrite concat_app, app_assoc, <- Hc in Hr |- *.
  cbn [concat] in *. rewrite app_nil_r in *. rewrite process_reasoning. apply nonempty_spec in Hr. by rewrite Hr.
Qed.

Lemma finalize_reasoning m cs :
  cs ≠ [] → let p := parseThinkTags (content (getCurrentVersion m) ++ concat cs) in
  think_reasoning p ≠ [] →
  r_content <$> reasoning (finalizeMessage (stream_chunks m cs) None) = Some (think_reasoning p).
Proof.
  intros Hcs p Hr. pose proof (stream_reasoning m cs Hcs Hr) as H. fold p in H.
  unfold finalizeMessage. cbn [reasoning with_streaming with_reasoning].
  rewrite H. cbn [default]. destruct (think_reasoning p) as [|c r]; [done|]. done.
Qed.

Definition blank_assistant : Message := createLoadingAssistantMessage (js "k") (js "v").

(** A closing tag that arrives in two chunks after an empty reasoning leaves a
    piece of the tag behind as reasoning, in the finished message as well; the
    same reply in one chunk has no reasoning. *)
Theorem split_closing_tag_leaks :
  r_content <$> reasoning (finalizeMessage
    (stream_chunks blank_assistant [js "<think>"; js "</thi"; js "nk>Hello"]) None) = Some (js "</thi") ∧
  reasoning (finalizeMessage (stream_chunks blank_assistant [js "<think></think>Hello"]) None) = None.
Proof. split; vm_compute; reflexivity. Qed.

(** ** Unfinished messages *)
Lemma find_last_Some {A} (p : A → bool) l i :
  find_last p l = Some i →
  ∃ x, l !! i = Some x ∧ p x = true ∧ ∀ j y, i < j → l !! j = Some y → p y = false.
Proof.
  revert i. induction l as [|x l IH]; intros i; cbn [find_last]; [done|].
  destruct (find_last p l) as [k|] eqn:E.
  - intros [= <-]. destruct (IH k eq_refl) as (y & Hy & Hp & Hafter). exists y. split_and!; [done|done|].
    intros [|j] z Hj Hz; [lia|]. apply (Hafter j z); [lia|done].
  - destruct (p x) eqn:Hp; [|done]. intros [= <-]. exists x. split_and!; [done|done|].
    intros [|j] z Hj Hz; [lia|]. cbn in Hz. clear IH. revert j Hj Hz. induction l as [|w l IHl]; [done|].
    cbn [find_last] in E. destruct (find_last p l) eqn:E'; [done|]. destruct (p w) eqn:Hw; [done|].
    intros [|j] Hj Hz; [by simplify_eq/=|]. apply (IHl eq_refl j); [lia|done].
Qed.

Lemma find_last_None {A} (p : A → bool) l : find_last p l = None ↔ Forall (λ x, p x = false) l.
Proof.
  induction l as [|x l IH]; cbn [find_last]; [by split|]. rewrite Forall_cons, <- IH.
  destruct (find_last p l); [naive_solver|]. destruct (p x); naive_solver.
Qed.

Definition count_stuck (l : list Message) : nat := length (List.filter is_stuck l).

Lemma sanitize_one_facts m :
  from (sanitize_one m) = from m ∧ is_stuck (sanitize_one m) = false ∧
  key (sanitize_one m) = key m ∧ length (versions (sanitize_one m)) = 1 ∧
  isReasoningStreaming (sanitize_one m) = Some false ∧
  (status (sanitize_one m) = Some Complete →
    trim (content (getCurrentVersion (sanitize_one m))) ≠ [] ∨
    ∃ r, reasoning (sanitize_one m) = Some r ∧ trim (r_content r) ≠ []) ∧
  (status (sanitize_one m) = Some Complete ∨ status (sanitize_one m) = Some Error).
Proof.
  unfold sanitize_one. set (f := finalizeMessage m None).
  destruct (_ || _) eqn:E.
  - split_and!; try done.
    + unfold is_stuck. cbn. by rewrite andb_false_r.
    + intros _. apply orb_true_iff in E as [E|E].
      * left. by apply nonempty_spec.
      * right. cbn. destruct (reasoning f) as [r|] eqn:Hr; [|done]. exists r. split; [done|]. by apply nonempty_spec.
    + by left.
  - split_and!; try done; [|by right]. unfold is_stuck. cbn. by rewrite andb_false_r.
Qed.

Lemma count_stuck_insert l i m m' :
  l !! i = Some m → is_stuck m = true → is_stuck m' = false →
  S (count_stuck (<[i := m']> l)) = count_stuck l.
Proof.
  unfold count_stuck. revert i. induction l as [|x l IH]; intros [|i] Hi Hm Hm'; [done|done| |].
  - simplify_eq/=. by rewrite Hm, Hm'.
  - cbn in Hi |- *. destruct (is_stuck x); cbn; rewrite <- (IH i); done.
Qed.

(** Loading messages repairs the last unfinished reply and nothing else: the
    list keeps its length, every other message is untouched, the repaired one
    keeps its key and role, is complete or an error, and a complete one has some
    content or reasoning; one unfinished reply fewer is left. Without unfinished
    replies the array is returned as it is, so with at most one of them a second
    load changes nothing. *)
Theorem sanitize_spec l :
  match sanitizeMessagesOnLoad l with
  | None => count_stuck l = 0
  | Some l' => ∃ i m, l !! i = Some m ∧ is_stuck m = true ∧ l' = <[i := sanitize_one m]> l ∧
      (∀ j m', i < j → l !! j = Some m' → is_stuck m' = false) ∧
      length l' = length l ∧ (∀ j, j ≠ i → l' !! j = l !! j) ∧
      S (count_stuck l') = count_stuck l ∧
      (count_stuck l = 1 → sanitizeMessagesOnLoad l' = None) ∧
      key (sanitize_one m) = key m ∧ from (sanitize_one m) = Assistant ∧
      (status (sanitize_one m) = Some Complete ∨ status (sanitize_one m) = Some Error) ∧
      (status (sanitize_one m) = Some Complete →
        trim (content (getCurrentVersion (sanitize_one m))) ≠ [] ∨
        ∃ r, reasoning (sanitize_one m) = Some r ∧ trim (r_content r) ≠ [])
  end.
Proof.
  assert (∀ l, count_stuck l = 0 ↔ find_last is_stuck l = None) as Hz.
  { intros l'. rewrite find_last_None. unfold count_stuck.
    induction l' as [|x l' IH]; [by split|]. cbn. rewrite Forall_cons, <- IH.
    destruct (is_stuck x); cbn; naive_solver. }
  unfold sanitizeMessagesOnLoad. destruct (find_last is_stuck l) as [i|] eqn:E; [|by apply Hz].
  destruct (find_last_Some is_stuck l i E) as (m & Hm & Hs & Hafter). rewrite Hm.
  destruct (sanitize_one_facts m) as (Hfrom & Hns & Hkey & _ & _ & Hcont & Hst).
  pose proof (count_stuck_insert l i m (sanitize_one m) Hm Hs Hns) as Hcount.
  exists i, m. split_and!; try done.
  - by apply length_insert.
  - intros j Hj. by apply list_lookup_insert_ne.
  - intros H1. assert (find_last is_stuck (<[i:=sanitize_one m]> l) = None) as -> by (apply Hz; lia). done.
  - rewrite Hfrom. unfold is_stuck in Hs. by boolify.
Qed.

(** ** The last assistant message *)
Lemma update_last_snoc l m f :
  updateLastAssistantMessage (l ++ [m]) f =
    l ++ [if bool_decide (from m = Assistant) then f m else m].
Proof.
  unfold updateLastAssistantMessage. rewrite last_snoc.
  destruct (bool_decide (from m = Assistant)); cbn [negb]; [|done].
  rewrite length_app, Nat.add_sub. rewrite insert_app_r_alt, Nat.sub_diag by lia. done.
Qed.

Lemma update_last_nil f : updateLastAssistantMessage [] f = [].
Proof. done. Qed.

(** ** The payload *)

Definition pair_of (m : ChatCompletionMessage) : MessageRole * MessageContent := (role m, api_content m).

(** The request carries, in order, the current text of every message that has
    one, except assistant messages that are blank; in particular the placeholder
    that [handleSendMessage] appends is never sent and the user's new message is
    the last one. A parameter is sent exactly when it is enabled (and the seed
    only when it is set). *)
Theorem payload_spec l config enabled keyId versionId text keyId' versionId' :
  let messages := l ++ [createUserMessage keyId versionId text; createLoadingAssistantMessage keyId' versionId'] in
  let p := buildChatCompletionPayload messages config enabled in
  req_messages p = map formatMessageForAPI (List.filter isValidMessage l)
                   ++ [{| role := User; api_content := TextContent text |}] ∧
  Forall (λ m, role m = Assistant → ∃ s, api_content m = TextContent s ∧ trim s ≠ []) (req_messages p) ∧
  (req_temperature p = Some (temperature config) ↔ temperature_on enabled = true) ∧
  (req_max_tokens p = None ↔ max_tokens_on enabled = false) ∧
  (req_seed p ≠ None ↔ seed_on enabled = true ∧ seed config ≠ None) ∧
  req_stream p = stream config ∧ req_model p = model config.
Proof.
  intros messages p.
  assert (req_messages p = map formatMessageForAPI (List.filter isValidMessage l)
                   ++ [{| role := User; api_content := TextContent text |}]) as Hm.
  { unfold p, messages, buildChatCompletionPayload. cbn [req_messages].
    rewrite List.filter_app, map_app. done. }
  split_and!; try done.
  - rewrite Hm. apply Forall_app. split; [|by constructor].
    apply Forall_map, Forall_forall. intros m. rewrite list_elem_of_In, filter_In. intros [_ Hv] Hr.
    cbn in Hr. unfold isValidMessage in Hv. unfold formatMessageForAPI, getCurrentVersion.
    destruct (versions m) as [|v vs]; [done|]. rewrite bool_decide_eq_true_2 in Hv by done.
    exists (content v). split; [done|]. apply nonempty_spec. by destruct (nonempty (trim (content v))).
  - cbn. unfold enabled_value. by destruct (temperature_on enabled).
  - cbn. unfold enabled_value. by destruct (max_tokens_on enabled).
  - cbn. unfold enabled_value. destruct (seed_on enabled); naive_solver.
Qed.

(** Attaching images keeps the text: reading the text of built content gives
    it back; blank image addresses are dropped and, when none is left, the content
    is the plain text. *)
Theorem message_content_roundtrip text urls :
  getTextContent (buildMessageContent text urls) = text ∧
  (Forall (λ u, trim u = []) urls ↔ buildMessageContent text urls = TextContent text) ∧
  (∀ l, buildMessageContent text urls = PartsContent l →
    Forall (λ c, match c with ImagePart u => trim u = u ∧ u ≠ [] | TextPart t => t = text end) l).
Proof.
  unfold buildMessageContent.
  assert (Forall (λ u, trim u = []) urls ↔ List.filter (λ url, negb (str_eqb (trim url) [])) urls = []) as Hnil.
  { induction urls as [|u urls IH]; [by split|]. rewrite Forall_cons, IH. cbn. unfold str_eqb.
    destruct (decide (trim u = [])) as [E|E];
      [rewrite bool_decide_eq_true_2 by done|rewrite bool_decide_eq_false_2 by done]; naive_solver. }
  assert (Forall (λ u, trim u ≠ []) (List.filter (λ url, negb (str_eqb (trim url) [])) urls)) as Hv.
  { apply Forall_forall. intros u. rewrite list_elem_of_In, filter_In. intros [_ H]. unfold str_eqb in H. by boolify. }
  destruct (List.filter _ urls) as [|v vs].
  - split_and!; [done|naive_solver|done].
  - split_and!; [done|naive_solver|]. intros l [= <-]. constructor; [done|].
    change (ImagePart (trim v) :: map (λ url, ImagePart (trim url)) vs)
      with (map (λ url, ImagePart (trim url)) (v :: vs)).
    apply Forall_map. eapply Forall_impl; [exact Hv|]. intros u Hu. split; [apply trim_idemp|done].
Qed.
