(* ===== verification/Storage.v ===== *)
(** * Playground storage and state

    [src/web/default/src/features/playground/lib/storage.ts] (the browser's
    [localStorage]) and [hooks/use-playground-state.ts] (the React state that is
    saved on every change).  The store is a finite map from keys to texts;
    writing may be refused (a full or disabled store), which the code catches.
    Saved objects list their properties in the order in which the code creates
    them. *)

From S2P Require Import Prelude JsString JsRegExp JsNumber Json Messages.
From stdpp Require Import gmap.
From Stdlib Require Import NArith ZArith.

Abbreviation store := (gmap (list N) (list N)).

(** ** Messages as JSON *)

Definition role_text (r : MessageRole) : jstr :=
  match r with User => js "user" | Assistant => js "assistant" | System => js "system" end.

Definition status_text (s : MessageStatus) : jstr :=
  match s with
  | Loading => js "loading" | Streaming => js "streaming" | Complete => js "complete" | Error => js "error"
  end.

Definition version_json (v : MessageVersion) : json :=
  JObj (fields [(js "id", Some (JStr (v_id v))); (js "content", Some (JStr (content v)))]).

Definition source_json (s : Source) : json :=
  JObj (fields [(js "href", Some (JStr (href s))); (js "title", Some (JStr (title s)))]).

Definition reasoning_json (r : Reasoning) : json :=
  JObj (fields [(js "content", Some (JStr (r_content r))); (js "duration", Some (JNum (duration r)))]).

Definition message_fields (m : Message) : list (jstr * option json) :=
  [(js "key", Some (JStr (key m)));
   (js "from", Some (JStr (role_text (from m))));
   (js "versions", Some (JArr (map version_json (versions m))));
   (js "sources", (λ l, JArr (map source_json l)) <$> sources m);
   (js "reasoning", reasoning_json <$> reasoning m);
   (js "isReasoningComplete", JBool <$> isReasoningComplete m);
   (js "isContentComplete", JBool <$> isContentComplete m);
   (js "isReasoningStreaming", JBool <$> isReasoningStreaming m);
   (js "status", (λ s, JStr (status_text s)) <$> status m);
   (js "errorCode", (λ e, match e with Some c => JStr c | None => JNull end) <$> errorCode m)].

Definition message_json (m : Message) : json := JObj (fields (message_fields m)).

Definition messages_text (l : list Message) : jstr := stringify (JArr (map message_json l)).

(** ** Reading messages *)

Definition get_str (k : jstr) (o : list (jstr * json)) : option jstr :=
  match obj_get k o with Some (JStr s) => Some s | _ => None end.

Definition role_of (s : jstr) : option MessageRole :=
  if str_eqb s (js "user") then Some User
  else if str_eqb s (js "assistant") then Some Assistant
  else if str_eqb s (js "system") then Some System else None.

Definition status_of (s : jstr) : option MessageStatus :=
  if str_eqb s (js "loading") then Some Loading
  else if str_eqb s (js "streaming") then Some Streaming
  else if str_eqb s (js "complete") then Some Complete
  else if str_eqb s (js "error") then Some Error else None.

(** An optional property: absent, or present and of the expected type. *)
Definition get_opt {A} (decode : json → option A) (k : jstr) (o : list (jstr * json)) : option (option A) :=
  match obj_get k o with
  | None => Some None
  | Some v => Some <$> decode v
  end.

Definition decode_bool (v : json) : option bool := match v with JBool b => Some b | _ => None end.

(** Only the named properties. *)
Definition known_keys (ks : list jstr) (o : list (jstr * json)) : bool :=
  forallb (λ kv, bool_decide (fst kv ∈ ks)) o.

Definition decode_version (v : json) : option MessageVersion :=
  match v with
  | JObj o =>
    if known_keys [js "id"; js "content"] o
    then i ← get_str (js "id") o; c ← get_str (js "content") o; Some (Version i c) else None
  | _ => None
  end.

Definition decode_source (v : json) : option Source :=
  match v with
  | JObj o =>
    if known_keys [js "href"; js "title"] o
    then h ← get_str (js "href") o; t ← get_str (js "title") o; Some {| href := h; title := t |} else None
  | _ => None
  end.

Definition decode_reasoning (v : json) : option Reasoning :=
  match v with
  | JObj o =>
    if known_keys [js "content"; js "duration"] o
    then c ← get_str (js "content") o;
         match obj_get (js "duration") o with Some (JNum d) => Some (MkReasoning c d) | _ => None end
    else None
  | _ => None
  end.

Definition decode_list {A} (decode : json → option A) (v : json) : option (list A) :=
  match v with JArr l => mapM decode l | _ => None end.

Definition decode_status (v : json) : option MessageStatus :=
  match v with JStr s => status_of s | _ => None end.

Definition decode_code (v : json) : option (option jstr) :=
  match v with JStr s => Some (Some s) | JNull => Some None | _ => None end.

Definition message_keys : list jstr :=
  [js "key"; js "from"; js "versions"; js "sources"; js "reasoning"; js "isReasoningComplete";
   js "isContentComplete"; js "isReasoningStreaming"; js "status"; js "errorCode"].

(** A JSON value that is a message of the type the code casts it to. *)
Definition decode_message (v : json) : option Message :=
  match v with
  | JObj o =>
    if known_keys message_keys o then
      k ← get_str (js "key") o;
      r ← get_str (js "from") o ≫= role_of;
      vs ← obj_get (js "versions") o ≫= decode_list decode_version;
      src ← get_opt (decode_list decode_source) (js "sources") o;
      rs ← get_opt decode_reasoning (js "reasoning") o;
      rc ← get_opt decode_bool (js "isReasoningComplete") o;
      cc ← get_opt decode_bool (js "isContentComplete") o;
      st ← get_opt decode_bool (js "isReasoningStreaming") o;
      status ← get_opt decode_status (js "status") o;
      code ← get_opt decode_code (js "errorCode") o;
      Some (MkMessage k r vs src rs st rc cc status code)
    else None
  | _ => None
  end.

(** ** Loading and saving *)

(** The result of loading messages.  The code casts whatever array it finds; an
    array of anything but messages is not followed further ([Foreign]). *)
Inductive LoadedMessages := Loaded (l : list Message) | NoMessages | Foreign.

Section storage.
(** Whether [localStorage.setItem] accepts a value. *)
Context (accepts : store → jstr → jstr → bool).

(** [try { localStorage.setItem(k, text) } catch {}] *)
Definition set_item (s : store) (k text : jstr) : store :=
  if accepts s k text then <[k := text]> s else s.

(** [if (saved) return JSON.parse(saved)] inside [try], else an empty object. *)
Definition load_object (s : store) (k : jstr) : json :=
  match s !! k with
  | Some (c :: saved) => default (JObj []) (json_parse (c :: saved))
  | _ => JObj []
  end.

Definition loadConfig (s : store) : json := load_object s STORAGE_CONFIG.

Definition saveConfig (s : store) (config : list (jstr * json)) : store :=
  set_item s STORAGE_CONFIG (stringify (JObj config)).

Definition loadParameterEnabled (s : store) : json := load_object s STORAGE_PARAMETER_ENABLED.

Definition saveParameterEnabled (s : store) (enabled : list (jstr * json)) : store :=
  set_item s STORAGE_PARAMETER_ENABLED (stringify (JObj enabled)).

Definition saveMessages (s : store) (messages : list Message) : store :=
  set_item s STORAGE_MESSAGES (messages_text messages).

Definition loadMessages (s : store) : store * LoadedMessages :=
  match s !! STORAGE_MESSAGES with
  | Some (c :: saved) =>
    match json_parse (c :: saved) with
    | Some (JArr l) =>
      match mapM decode_message l with
      | None => (s, Foreign)
      | Some parsed =>
        match sanitizeMessagesOnLoad parsed with
        | None => (s, Loaded parsed)
        | Some sanitized => (saveMessages s sanitized, Loaded sanitized)
        end
      end
    | _ => (s, NoMessages)
    end
  | _ => (s, NoMessages)
  end.

Definition clearPlaygroundData (s : store) : store :=
  delete STORAGE_MESSAGES (delete STORAGE_PARAMETER_ENABLED (delete STORAGE_CONFIG s)).

(** ** The React state *)

Definition config_json (c : PlaygroundConfig) : list (jstr * json) :=
  [(js "model", JStr (model c)); (js "group", JStr (group c)); (js "temperature", JNum (temperature c));
   (js "top_p", JNum (top_p c)); (js "max_tokens", JNum (max_tokens c));
   (js "frequency_penalty", JNum (frequency_penalty c)); (js "presence_penalty", JNum (presence_penalty c));
   (js "seed", match seed c with Some x => JNum x | None => JNull end); (js "stream", JBool (stream c))].

Definition enabled_json (e : ParameterEnabled) : list (jstr * json) :=
  [(js "temperature", JBool (temperature_on e)); (js "top_p", JBool (top_p_on e));
   (js "max_tokens", JBool (max_tokens_on e)); (js "frequency_penalty", JBool (frequency_penalty_on e));
   (js "presence_penalty", JBool (presence_penalty_on e)); (js "seed", JBool (seed_on e))].

(** [{...defaults, ...saved}] *)
Definition spread_over (defaults : list (jstr * json)) (saved : json) : list (jstr * json) :=
  foldl (λ o kv, obj_set o kv.1 kv.2) defaults (own_props saved).

(** Configurations are kept as objects, since stored ones are not checked. *)
Record PlaygroundState := {
  ps_store : store;
  ps_config : list (jstr * json);
  ps_enabled : list (jstr * json);
  ps_messages : list Message;
  ps_models : list ModelOption;
  ps_groups : list GroupOption;
}.

(** The initial state; [None] when the stored messages are foreign. *)
Definition usePlaygroundState (s : store) : option PlaygroundState :=
  let '(s', loaded) := loadMessages s in
  messages ← match loaded with Loaded l => Some l | NoMessages => Some [] | Foreign => None end;
  Some {| ps_store := s';
          ps_config := spread_over (config_json DEFAULT_CONFIG) (loadConfig s);
          ps_enabled := spread_over (enabled_json DEFAULT_PARAMETER_ENABLED) (loadParameterEnabled s);
          ps_messages := messages;
          ps_models := []; ps_groups := [] |}.

Definition updateConfig (st : PlaygroundState) (k : jstr) (v : json) : PlaygroundState :=
  let updated := obj_set (ps_config st) k v in
  {| ps_store := saveConfig (ps_store st) updated; ps_config := updated; ps_enabled := ps_enabled st;
     ps_messages := ps_messages st; ps_models := ps_models st; ps_groups := ps_groups st |}.

Definition updateParameterEnabled (st : PlaygroundState) (k : jstr) (v : bool) : PlaygroundState :=
  let updated := obj_set (ps_enabled st) k (JBool v) in
  {| ps_store := saveParameterEnabled (ps_store st) updated; ps_config := ps_config st;
     ps_enabled := updated; ps_messages := ps_messages st; ps_models := ps_models st;
     ps_groups := ps_groups st |}.

Definition updateMessages (st : PlaygroundState) (updater : list Message → list Message) : PlaygroundState :=
  let newMessages := updater (ps_messages st) in
  {| ps_store := saveMessages (ps_store st) newMessages; ps_config := ps_config st;
     ps_enabled := ps_enabled st; ps_messages := newMessages; ps_models := ps_models st;
     ps_groups := ps_groups st |}.

Definition clearMessages (st : PlaygroundState) : PlaygroundState := updateMessages st (λ _, []).

Definition resetConfig (st : PlaygroundState) : PlaygroundState :=
  let config := config_json DEFAULT_CONFIG in
  let enabled := enabled_json DEFAULT_PARAMETER_ENABLED in
  {| ps_store := saveParameterEnabled (saveConfig (ps_store st) config) enabled; ps_config := config;
     ps_enabled := enabled; ps_messages := ps_messages st; ps_models := ps_models st;
     ps_groups := ps_groups st |}.
End storage.

(** ** Messages survive saving *)
Lemma obj_get_at l i k o : NoDup (map fst l) → l !! i = Some (k, o) → obj_get k (fields l) = o.
Proof. intros Hnd Hi. apply obj_get_fields; [done|]. by eapply list_elem_of_lookup_2. Qed.

Lemma known_fields l ks : map fst l ⊆ ks → known_keys ks (fields l) = true.
Proof.
  intros Hs. unfold known_keys. apply forallb_forall. intros [k v] Hin%list_elem_of_In.
  apply bool_decide_eq_true, Hs, fields_keys, list_elem_of_fmap. by exists (k, v).
Qed.

Ltac nodup_keys := apply (bool_decide_eq_true_1 (NoDup _)); vm_compute; reflexivity.

Lemma nodup_id_content : NoDup [js "id"; js "content"].
Proof. nodup_keys. Qed.
Lemma nodup_href_title : NoDup [js "href"; js "title"].
Proof. nodup_keys. Qed.
Lemma nodup_content_duration : NoDup [js "content"; js "duration"].
Proof. nodup_keys. Qed.
Lemma nodup_message : NoDup message_keys.
Proof. nodup_keys. Qed.

Lemma decode_version_json v : decode_version (version_json v) = Some v.
Proof.
  unfold decode_version, version_json. set (l := [(js "id", _); (js "content", _)]).
  rewrite known_fields by done. unfold get_str.
  rewrite (obj_get_at l 0 (js "id") _ nodup_id_content eq_refl),
    (obj_get_at l 1 (js "content") _ nodup_id_content eq_refl). by destruct v.
Qed.

Lemma decode_source_json v : decode_source (source_json v) = Some v.
Proof.
  unfold decode_source, source_json. set (l := [(js "href", _); (js "title", _)]).
  rewrite known_fields by done. unfold get_str.
  rewrite (obj_get_at l 0 (js "href") _ nodup_href_title eq_refl),
    (obj_get_at l 1 (js "title") _ nodup_href_title eq_refl). by destruct v.
Qed.

Lemma decode_reasoning_json v : decode_reasoning (reasoning_json v) = Some v.
Proof.
  unfold decode_reasoning, reasoning_json. set (l := [(js "content", _); (js "duration", _)]).
  rewrite known_fields by done. unfold get_str.
  rewrite (obj_get_at l 0 (js "content") _ nodup_content_duration eq_refl),
    (obj_get_at l 1 (js "duration") _ nodup_content_duration eq_refl). by destruct v.
Qed.

Lemma mapM_map {A B} (f : A → B) (g : B → option A) l :
  (∀ x, g (f x) = Some x) → mapM g (map f l) = Some l.
Proof. intros Hg. induction l as [|x l IH]; [done|]. cbn. by rewrite Hg, IH. Qed.

Lemma get_opt_some {A} (decode : json → option A) (enc : A → json) k o (x : option A) :
  obj_get k o = enc <$> x → (∀ a, decode (enc a) = Some a) → get_opt decode k o = Some x.
Proof. intros Hk Hd. unfold get_opt. rewrite Hk. destruct x; cbn; [by rewrite Hd|done]. Qed.

Lemma role_of_text r : role_of (role_text r) = Some r.
Proof. by destruct r. Qed.
Lemma status_of_text s : status_of (status_text s) = Some s.
Proof. by destruct s. Qed.

Lemma decode_message_json m : decode_message (message_json m) = Some m.
Proof.
  unfold decode_message, message_json. rewrite known_fields by done.
  pose proof (λ i k o, obj_get_at (message_fields m) i k o nodup_message) as Hg.
  unfold get_str.
  rewrite (Hg 0 (js "key") _ eq_refl), (Hg 1 (js "from") _ eq_refl), (Hg 2 (js "versions") _ eq_refl).
  cbn [mbind option_bind decode_list]. rewrite role_of_text. cbn [mbind option_bind].
  rewrite (mapM_map _ _ _ decode_version_json). cbn [mbind option_bind].
  rewrite (get_opt_some _ _ _ _ (sources m) (Hg 3 (js "sources") _ eq_refl))
    by (intros; by apply mapM_map, decode_source_json).
  cbn [mbind option_bind].
  rewrite (get_opt_some _ _ _ _ (reasoning m) (Hg 4 (js "reasoning") _ eq_refl)) by apply decode_reasoning_json.
  cbn [mbind option_bind].
  rewrite (get_opt_some _ _ _ _ (isReasoningComplete m) (Hg 5 (js "isReasoningComplete") _ eq_refl)) by done.
  cbn [mbind option_bind].
  rewrite (get_opt_some _ _ _ _ (isContentComplete m) (Hg 6 (js "isContentComplete") _ eq_refl)) by done.
  cbn [mbind option_bind].
  rewrite (get_opt_some _ _ _ _ (isReasoningStreaming m) (Hg 7 (js "isReasoningStreaming") _ eq_refl)) by done.
  cbn [mbind option_bind].
  rewrite (get_opt_some _ _ _ _ (status m) (Hg 8 (js "status") _ eq_refl)) by (intros; apply status_of_text).
  cbn [mbind option_bind].
  rewrite (get_opt_some _ _ _ _ (errorCode m) (Hg 9 (js "errorCode") _ eq_refl)) by (by intros []).
  by destruct m.
Qed.

(** Messages that JSON can carry: code units, and durations that print exactly. *)
Definition str_ok (s : jstr) : Prop := Forall code_unit s.

Definition message_ok (m : Message) : Prop :=
  str_ok (key m) ∧ Forall (λ v, str_ok (v_id v) ∧ str_ok (content v)) (versions m) ∧
  match sources m with Some l => Forall (λ s, str_ok (href s) ∧ str_ok (title s)) l | None => True end ∧
  match reasoning m with Some r => str_ok (r_content r) ∧ num_ok (duration r) = true | None => True end ∧
  match errorCode m with Some (Some c) => str_ok c | _ => True end.

Definition plain_keysb (ks : list jstr) : bool :=
  bool_decide (NoDup ks) && forallb (λ k, match array_index k with None => true | _ => false end) ks
  && forallb (forallb (λ c, c <? 65536)%N) ks.

Lemma plain_keysb_spec ks : plain_keysb ks = true → plain_keys ks ∧ Forall (λ k, Forall code_unit k) ks.
Proof.
  unfold plain_keysb. rewrite !andb_true_iff, bool_decide_eq_true. intros [[Hnd Hi] Hu].
  apply forallb_Forall in Hi. apply forallb_Forall in Hu. split; [split; [done|]|].
  - eapply Forall_impl; [exact Hi|]. intros k. cbv beta. by destruct (array_index k).
  - eapply Forall_impl; [exact Hu|]. intros k Hk. apply forallb_Forall in Hk.
    eapply Forall_impl; [exact Hk|]. intros c Hc. by apply N.ltb_lt in Hc.
Qed.

Lemma ok_fields_of l :
  plain_keysb (map fst l) = true →
  Forall (λ kv, match snd kv with Some v => json_ok v | None => True end) l → json_ok (JObj (fields l)).
Proof. intros [? ?]%plain_keysb_spec ?. by apply json_ok_fields. Qed.

Lemma lit_ok s : forallb (λ c, c <? 65536)%N s = true → str_ok s.
Proof. intros H%forallb_Forall. eapply Forall_impl; [exact H|]. intros c Hc. by apply N.ltb_lt in Hc. Qed.

Lemma message_json_ok m : message_ok m → json_ok (message_json m).
Proof.
  intros (Hk & Hv & Hs & Hr & He). apply ok_fields_of; [vm_compute; reflexivity|].
  unfold message_fields. repeat apply Forall_cons_2; cbn [snd]; [| | | | | | | | | |constructor].
  - by constructor.
  - constructor. destruct (from m); apply lit_ok; reflexivity.
  - constructor. apply Forall_map. eapply Forall_impl; [exact Hv|]. intros v [? ?].
    apply ok_fields_of; [vm_compute; reflexivity|]. by repeat constructor.
  - destruct (sources m) as [l|]; [|done]. constructor. apply Forall_map. eapply Forall_impl; [exact Hs|].
    intros v [? ?]. apply ok_fields_of; [vm_compute; reflexivity|]. by repeat constructor.
  - destruct (reasoning m) as [r|]; [|done]. destruct Hr.
    apply ok_fields_of; [vm_compute; reflexivity|]. by repeat constructor.
  - destruct (isReasoningComplete m); [constructor|done].
  - destruct (isContentComplete m); [constructor|done].
  - destruct (isReasoningStreaming m); [constructor|done].
  - destruct (status m) as [[]|]; [constructor; apply lit_ok; reflexivity..|done].
  - destruct (errorCode m) as [[c|]|]; [by constructor|constructor|done].
Qed.

Lemma messages_parse l :
  Forall message_ok l → json_parse (messages_text l) = Some (JArr (map message_json l)).
Proof.
  intros Hl. apply json_parse_stringify. constructor. apply Forall_map.
  eapply Forall_impl; [exact Hl|]. apply message_json_ok.
Qed.

Lemma load_saved accepts s l :
  Forall message_ok l → s !! STORAGE_MESSAGES = Some (messages_text l) →
  loadMessages accepts s =
    match sanitizeMessagesOnLoad l with
    | None => (s, Loaded l)
    | Some l' => (saveMessages accepts s l', Loaded l')
    end.
Proof.
  intros Hl Hs. unfold loadMessages. rewrite Hs. pose proof (messages_parse l Hl) as Hp.
  destruct (messages_text l) as [|c t]; [by vm_compute in Hp|]. rewrite Hp.
  by rewrite (mapM_map _ _ _ decode_message_json).
Qed.

Lemma finalize_ok m : message_ok m → message_ok (finalizeMessage m None).
Proof.
  intros (Hk & Hv & Hs & Hr & He).
  assert (str_ok (v_id (getCurrentVersion m)) ∧ str_ok (content (getCurrentVersion m))) as [Hi Hc].
  { unfold getCurrentVersion. destruct Hv as [|v vs [? ?] _]; [|done]. split; [by apply lit_ok|constructor]. }
  destruct (think_units code_unit _ Hc) as [Hvis Hrea]; [done|].
  split_and!; try done.
  - cbn [finalizeMessage versions with_streaming with_reasoning updateCurrentVersionContent with_versions].
    by repeat constructor.
  - cbn [finalizeMessage reasoning with_streaming with_reasoning].
    destruct (nonempty _); [|done]. cbn [r_content duration]. split.
    + unfold str_or. cbn [default from_option id nonempty]. destruct (reasoning m) as [r|]; [|done].
      cbn. destruct (nonempty (r_content r)); [apply Hr|done].
    + destruct (reasoning m) as [r|]; cbn; [|reflexivity]. unfold num_or0.
      destruct (num_truthy (duration r)); [apply Hr|reflexivity].
Qed.

Lemma update_content_ok m c : message_ok m → str_ok c → message_ok (updateCurrentVersionContent m c).
Proof.
  intros (Hk & Hv & Hs & Hr & He) Hc. split_and!; try done. cbn. repeat constructor; [|done].
  unfold getCurrentVersion. destruct Hv as [|v vs [? ?] _]; [by apply lit_ok|done].
Qed.

Lemma sanitize_one_ok m : message_ok m → message_ok (sanitize_one m).
Proof.
  intros Hm%finalize_ok. unfold sanitize_one. destruct (_ || _).
  - exact Hm.
  - apply (update_content_ok (finalizeMessage m None)); [done|]. by apply lit_ok.
Qed.

Lemma sanitize_ok l l' : Forall message_ok l → sanitizeMessagesOnLoad l = Some l' → Forall message_ok l'.
Proof.
  intros Hl. unfold sanitizeMessagesOnLoad. destruct (find_last is_stuck l) as [i|]; [|done].
  destruct (l !! i) as [m|] eqn:Hm; [|done]. intros [= <-]. apply Forall_insert; [done|].
  apply sanitize_one_ok. rewrite Forall_lookup in Hl. eauto.
Qed.

Lemma sanitize_once l l' : sanitizeMessagesOnLoad l = Some l' → count_stuck l ≤ 1 → sanitizeMessagesOnLoad l' = None.
Proof.
  unfold sanitizeMessagesOnLoad at 1. destruct (find_last is_stuck l) as [i|] eqn:E; [|done].
  destruct (find_last_Some is_stuck l i E) as (m & Hm & Hs & _). rewrite Hm. intros [= <-] Hc.
  pose proof (count_stuck_insert l i m (sanitize_one m) Hm Hs) as Hcount.
  destruct (sanitize_one_facts m) as (_ & Hns & _). specialize (Hcount Hns).
  unfold sanitizeMessagesOnLoad. assert (find_last is_stuck (<[i:=sanitize_one m]> l) = None) as ->; [|done].
  apply find_last_None, Forall_forall. intros x Hx. destruct (is_stuck x) eqn:Ex; [|done].
  assert (x ∈ List.filter is_stuck (<[i:=sanitize_one m]> l)) as Hin
    by (rewrite list_elem_of_In, filter_In, <- list_elem_of_In; done).
  unfold count_stuck in *. destruct (List.filter is_stuck (<[i:=_]> l)); [by apply elem_of_nil in Hin|].
  simpl in Hcount. lia.
Qed.

(** Messages that are saved and loaded again come back as they were, except
    that the last unfinished reply is repaired; when at most one reply was
    unfinished, a second load returns the same messages and writes nothing. *)
Theorem messages_storage_roundtrip accepts s l :
  (∀ s k t, accepts s k t = true) → Forall message_ok l →
  let r := loadMessages accepts (saveMessages accepts s l) in
  snd r = Loaded (default l (sanitizeMessagesOnLoad l)) ∧
  (count_stuck l ≤ 1 → loadMessages accepts (fst r) = (fst r, snd r)).
Proof.
  intros Ha Hl. cbv zeta.
  assert (∀ s l, saveMessages accepts s l !! STORAGE_MESSAGES = Some (messages_text l)) as Hsave.
  { intros s' l'. unfold saveMessages, set_item. rewrite Ha. apply lookup_insert_eq. }
  rewrite (load_saved accepts _ l Hl (Hsave s l)).
  destruct (sanitizeMessagesOnLoad l) as [l'|] eqn:E; cbn [fst snd default from_option id].
  - split; [done|]. intros Hc. rewrite (load_saved accepts _ l'); [|by eapply sanitize_ok|apply Hsave].
    by rewrite (sanitize_once l l').
  - split; [done|]. intros _. rewrite (load_saved accepts _ l Hl (Hsave s l)). by rewrite E.
Qed.

Definition demo_messages : list Message :=
  [createUserMessage (js "k1") (js "v1") (js "hi"); createLoadingAssistantMessage (js "k2") (js "v2")].

Lemma messages_storage_roundtrip_witness :
  snd (loadMessages (λ _ _ _, true) (saveMessages (λ _ _ _, true) ∅ demo_messages))
  = Loaded (default demo_messages (sanitizeMessagesOnLoad demo_messages)).
Proof.
  apply (messages_storage_roundtrip (λ _ _ _, true) ∅ demo_messages); [done|].
  repeat constructor; cbn; repeat constructor; apply lit_ok; vm_compute; reflexivity.
Defined.

(** ** What is shown is what a reload shows *)

(** An object that extends [defaults]: its properties first, in their order. *)
Definition extends (defaults o : list (jstr * json)) : Prop :=
  (∃ ext, map fst o = map fst defaults ++ ext) ∧ plain_keys (map fst o) ∧ json_ok (JObj o).

Lemma obj_set_mid pre k (w v : json) d :
  k ∉ map fst pre → k ∉ map fst d → obj_set (pre ++ (k, w) :: d) k v = pre ++ (k, v) :: d.
Proof.
  intros Hp Hd. unfold obj_set. rewrite (proj2 (existsb_key k (pre ++ (k, w) :: d))).
  2: { rewrite map_app, elem_of_app. right. cbn. left. }
  assert (∀ l, k ∉ map fst l → (λ kv : jstr * json, if str_eqb kv.1 k then (k, v) else kv) <$> l = l) as Hid.
  { induction l as [|[j u] l IH]; [done|]. cbn [map fst fmap list_fmap]. intros Hj. unfold str_eqb.
    rewrite bool_decide_eq_false_2 by set_solver. f_equal. apply IH. set_solver. }
  rewrite fmap_app. cbn [fmap list_fmap fst]. rewrite Hid by done. unfold str_eqb.
  rewrite bool_decide_eq_true_2 by done. f_equal. f_equal. by apply Hid.
Qed.

Lemma foldl_overwrite (pre d o : list (jstr * json)) :
  map fst o = map fst d → NoDup (map fst (pre ++ d)) →
  foldl (λ o kv, obj_set o kv.1 kv.2) (pre ++ d) o = pre ++ o.
Proof.
  revert pre o. induction d as [|[k w] d IH]; intros pre [|[k' v] o] Hk Hnd; try done.
  cbn [map fst] in Hk. injection Hk as -> Hk. cbn [foldl fst snd].
  rewrite map_app in Hnd. cbn [map fst] in Hnd. pose proof Hnd as Hnd'.
  apply NoDup_app in Hnd as (_ & Hdis & [Hkd Hnd]%NoDup_cons).
  rewrite obj_set_mid; [|by intros Hin; apply (Hdis k Hin); left|done].
  replace (pre ++ (k, v) :: d) with ((pre ++ [(k, v)]) ++ d) by (by rewrite <- app_assoc).
  rewrite IH; [by rewrite <- app_assoc|done|]. rewrite <- app_assoc, map_app. done.
Qed.

Lemma spread_extends d o : extends d o → spread_over d (JObj o) = o.
Proof.
  intros ([ext Hk] & [Hnd Hi] & _). unfold spread_over. cbn [own_props].
  destruct (map_eq_app fst o _ _ Hk) as (o1 & o2 & -> & H1 & H2).
  rewrite map_app in *. apply NoDup_app in Hnd as (Hn1 & Hdis & Hn2). apply Forall_app in Hi as [Hi1 Hi2].
  rewrite foldl_app. rewrite <- (app_nil_l d), foldl_overwrite; [|done|cbn [app]; by rewrite <- H1].
  cbn [app]. apply foldl_obj_set; [done|]. intros k Hk2 Hk1. by apply (Hdis k Hk1).
Qed.

Lemma load_stringify s k o :
  json_ok (JObj o) → s !! k = Some (stringify (JObj o)) → load_object s k = JObj o.
Proof.
  intros Ho Hs. unfold load_object. rewrite Hs. pose proof (json_parse_stringify _ Ho) as Hp.
  destruct (stringify (JObj o)) as [|c t]; [by vm_compute in Hp|]. by rewrite Hp.
Qed.

Lemma extends_set d o k v : extends d o → k ∈ map fst o → json_ok v → extends d (obj_set o k v).
Proof.
  intros ([ext Hk] & Hp & Ho) Hin Hv.
  assert (map fst (obj_set o k v) = map fst o) as Hkeys.
  { unfold obj_set. rewrite (proj2 (existsb_key k o)) by done. clear. induction o as [|[j u] o IH]; [done|].
    cbn [fmap list_fmap map fst]. rewrite IH. unfold str_eqb. case_bool_decide; by subst. }
  split_and!; [exists ext; by rewrite Hkeys|by rewrite Hkeys|].
  inversion Ho as [| | | | |? Hu Hvs Hm]; subst. constructor.
  - apply Forall_forall. intros [j u] Hj. rewrite Forall_forall in Hu.
    assert (j ∈ map fst o) as (kv & -> & Hkv)%list_elem_of_fmap
      by (rewrite <- Hkeys; apply list_elem_of_fmap; by exists (j, u)). exact (Hu kv Hkv).
  - unfold obj_set. rewrite (proj2 (existsb_key k o)) by done. apply Forall_fmap, Forall_forall.
    intros kv Hkv. cbn. rewrite Forall_forall in Hvs. unfold str_eqb. case_bool_decide; [done|]. exact (Hvs kv Hkv).
  - apply mk_obj_plain. by rewrite Hkeys.
Qed.

Lemma extends_self (d : list (jstr * json)) :
  plain_keysb (map fst d) = true → Forall (λ kv, json_ok kv.2) d → extends d d.
Proof.
  intros [Hp Hu]%plain_keysb_spec Hv. split_and!; [exists []; by rewrite app_nil_r|done|].
  constructor; [|done|by apply mk_obj_plain]. by apply (Forall_map fst).
Qed.

Lemma default_config_ok : extends (config_json DEFAULT_CONFIG) (config_json DEFAULT_CONFIG).
Proof.
  apply extends_self; [vm_compute; reflexivity|].
  repeat constructor; try (apply lit_ok); vm_compute; reflexivity.
Qed.

Lemma default_enabled_ok :
  extends (enabled_json DEFAULT_PARAMETER_ENABLED) (enabled_json DEFAULT_PARAMETER_ENABLED).
Proof. apply extends_self; [vm_compute; reflexivity|]. repeat constructor. Qed.

Section sessions.
Context (accepts : store → jstr → jstr → bool).

(** The actions of the playground on its state. *)
Inductive pstep : PlaygroundState → PlaygroundState → Prop :=
  | step_config st k v :
      k ∈ map fst (config_json DEFAULT_CONFIG) → json_ok v → pstep st (updateConfig accepts st k v)
  | step_enabled st k b :
      k ∈ map fst (enabled_json DEFAULT_PARAMETER_ENABLED) → pstep st (updateParameterEnabled accepts st k b)
  | step_messages st f : Forall message_ok (f (ps_messages st)) → pstep st (updateMessages accepts st f)
  | step_clear st : pstep st (clearMessages accepts st)
  | step_reset st : pstep st (resetConfig accepts st).

(** The store holds the state, or nothing where nothing was changed yet. *)
Definition saved_object (s : store) (k : jstr) (d o : list (jstr * json)) : Prop :=
  extends d o ∧ (s !! k = Some (stringify (JObj o)) ∨ s !! k = None ∧ o = d).

Definition synced (st : PlaygroundState) : Prop :=
  saved_object (ps_store st) STORAGE_CONFIG (config_json DEFAULT_CONFIG) (ps_config st) ∧
  saved_object (ps_store st) STORAGE_PARAMETER_ENABLED (enabled_json DEFAULT_PARAMETER_ENABLED) (ps_enabled st) ∧
  Forall message_ok (ps_messages st) ∧
  (ps_store st !! STORAGE_MESSAGES = Some (messages_text (ps_messages st))
   ∨ ps_store st !! STORAGE_MESSAGES = None ∧ ps_messages st = []).

Lemma saved_object_load s k d o : saved_object s k d o → spread_over d (load_object s k) = o.
Proof.
  intros [He [Hs|[Hs ->]]].
  - rewrite (load_stringify s k o); [by apply spread_extends|apply He|done].
  - unfold load_object. by rewrite Hs.
Qed.

Lemma saved_object_other s k k' d o t :
  k ≠ k' → saved_object s k d o → saved_object (<[k' := t]> s) k d o.
Proof. intros Hk [He Hs]. split; [done|]. by rewrite !lookup_insert_ne by done. Qed.

Hypothesis always : ∀ s k t, accepts s k t = true.

Lemma set_item_insert s k t : set_item accepts s k t = <[k := t]> s.
Proof. unfold set_item. by rewrite always. Qed.

Lemma saved_object_set s k d o o' t :
  saved_object s k d o → extends d o' → t = stringify (JObj o') → saved_object (<[k := t]> s) k d o'.
Proof. intros _ He ->. split; [done|]. left. apply lookup_insert_eq. Qed.

Lemma keys_of_extends d o k : extends d o → k ∈ map fst d → k ∈ map fst o.
Proof. intros ([ext ->] & _) Hk. set_solver. Qed.

Lemma storage_keys_distinct :
  STORAGE_CONFIG ≠ STORAGE_PARAMETER_ENABLED ∧ STORAGE_CONFIG ≠ STORAGE_MESSAGES
  ∧ STORAGE_PARAMETER_ENABLED ≠ STORAGE_MESSAGES ∧ STORAGE_PARAMETER_ENABLED ≠ STORAGE_CONFIG
  ∧ STORAGE_MESSAGES ≠ STORAGE_CONFIG ∧ STORAGE_MESSAGES ≠ STORAGE_PARAMETER_ENABLED.
Proof. split_and!; apply (bool_decide_eq_true_1 (_ ≠ _)); vm_compute; reflexivity. Qed.

Lemma pstep_synced st st' : synced st → pstep st st' → synced st'.
Proof.
  destruct storage_keys_distinct as (K1 & K2 & K3 & K4 & K5 & K6).
  intros (Hc & He & Hm & Hs) Hstep. destruct Hstep; unfold synced;
    cbn [updateConfig updateParameterEnabled updateMessages clearMessages resetConfig
         ps_store ps_config ps_enabled ps_messages];
    unfold saveConfig, saveParameterEnabled, saveMessages; rewrite ?set_item_insert.
  - split_and!; [|auto using saved_object_other|assumption|rewrite !lookup_insert_ne by assumption; assumption].
    eapply saved_object_set; [exact Hc| |reflexivity]. apply extends_set; [apply Hc| |assumption].
    eapply keys_of_extends; [apply Hc|assumption].
  - split_and!; [auto using saved_object_other| |assumption|rewrite !lookup_insert_ne by assumption; assumption].
    eapply saved_object_set; [exact He| |reflexivity]. apply extends_set; [apply He| |constructor].
    eapply keys_of_extends; [apply He|assumption].
  - split_and!; [auto using saved_object_other|auto using saved_object_other|assumption|].
    left. apply lookup_insert_eq.
  - split_and!; [auto using saved_object_other|auto using saved_object_other|constructor|].
    left. apply lookup_insert_eq.
  - split_and!; [| |assumption|rewrite !lookup_insert_ne by assumption; assumption].
    + apply saved_object_other; [assumption|].
      eapply saved_object_set; [exact Hc|apply default_config_ok|reflexivity].
    + eapply saved_object_set; [|apply default_enabled_ok|reflexivity].
      apply saved_object_other; [assumption|exact He].
Qed.

Lemma synced_start st : usePlaygroundState accepts ∅ = Some st → synced st.
Proof.
  assert (∀ k, load_object ∅ k = JObj []) as Hl by (intros k; unfold load_object; by rewrite lookup_empty).
  unfold usePlaygroundState, loadMessages, loadConfig, loadParameterEnabled. rewrite lookup_empty, !Hl.
  cbn [mbind option_bind]. intros H. apply (inj Some) in H as <-. unfold synced.
  cbn [ps_store ps_config ps_enabled ps_messages].
  split_and!; [split; [apply default_config_ok|]|split; [apply default_enabled_ok|]|constructor|];
    right; (split; [apply lookup_empty|reflexivity]).
Qed.

Lemma synced_reload st :
  synced st →
  ∃ st', usePlaygroundState accepts (ps_store st) = Some st' ∧
    ps_config st' = ps_config st ∧ ps_enabled st' = ps_enabled st ∧
    ps_messages st' = default (ps_messages st) (sanitizeMessagesOnLoad (ps_messages st)).
Proof.
  intros (Hc & He & Hm & Hs). unfold usePlaygroundState.
  assert (∃ s', loadMessages accepts (ps_store st)
    = (s', Loaded (default (ps_messages st) (sanitizeMessagesOnLoad (ps_messages st)))) ∨
    loadMessages accepts (ps_store st) = (s', NoMessages) ∧ ps_messages st = []) as (s' & [Hl|[Hl Hn]]).
  { destruct Hs as [Hs|[Hs Hn]].
    - rewrite (load_saved accepts _ _ Hm Hs). destruct (sanitizeMessagesOnLoad _); eauto.
    - exists (ps_store st). right. split; [|done]. unfold loadMessages. by rewrite Hs. }
  - rewrite Hl. cbn [mbind option_bind]. eexists. split; [done|]. cbn [ps_config ps_enabled ps_messages].
    split_and!; [by apply saved_object_load|by apply saved_object_load|done].
  - rewrite Hl. cbn [mbind option_bind]. eexists. split; [done|]. cbn [ps_config ps_enabled ps_messages].
    split_and!; [by apply saved_object_load|by apply saved_object_load|]. by rewrite Hn.
Qed.
End sessions.

(** C8: Starting from an empty store, after any sequence of configuration,
    parameter and message updates, clearing and resetting, reloading the page
    shows the same configuration, the same enabled parameters and the same
    messages with the last unfinished reply repaired (as long as the browser
    accepts the writes and values are JSON values). *)
Theorem reload_shows_state accepts st0 st :
  (∀ s k t, accepts s k t = true) →
  usePlaygroundState accepts ∅ = Some st0 → rtc (pstep accepts) st0 st →
  ∃ st', usePlaygroundState accepts (ps_store st) = Some st' ∧
    ps_config st' = ps_config st ∧ ps_enabled st' = ps_enabled st ∧
    ps_messages st' = default (ps_messages st) (sanitizeMessagesOnLoad (ps_messages st)).
Proof.
  intros Ha H0 Hsteps. apply (synced_reload accepts). apply (synced_start accepts) in H0.
  induction Hsteps; eauto using pstep_synced.
Qed.

Lemma reload_shows_state_witness :
  ∃ st0 st', usePlaygroundState (λ _ _ _, true) ∅ = Some st0 ∧
    usePlaygroundState (λ _ _ _, true)
      (ps_store (updateConfig (λ _ _ _, true) st0 (js "model") (JStr (js "o1")))) = Some st' ∧
    obj_get (js "model") (ps_config st') = Some (JStr (js "o1")).
Proof.
  destruct (usePlaygroundState (λ _ _ _, true) ∅) as [st0|] eqn:E; [|vm_compute in E; discriminate E].
  destruct (reload_shows_state (λ _ _ _, true) st0
    (updateConfig (λ _ _ _, true) st0 (js "model") (JStr (js "o1"))) (λ _ _ _, eq_refl) E) as (st' & H & Hc & _).
  - apply rtc_once. constructor; [left|]. constructor. apply lit_ok. vm_compute. reflexivity.
  - exists st0, st'. split; [done|]. split; [done|]. rewrite Hc. cbn [updateConfig ps_config].
    rewrite obj_get_set. reflexivity.
Defined.
