(* ===== verification/Stream.v ===== *)
(** * Chat sessions: streaming and stopping

    [src/web/default/src/features/playground/hooks/use-stream-request.ts] and
    [hooks/use-chat-handler.ts]: the event handlers of a streaming request, the
    handlers they call, non-streaming requests, stopping; and the actions of
    [index.tsx] that start a request.  The event source (package sse.js) is the
    environment: it may deliver any sequence of events; the only thing assumed of
    it where a property says so is that a closed source delivers no messages.
    State updates are applied in the order in which the code queues them. *)

From S2P Require Import Prelude JsString JsRegExp JsNumber Json Messages.
From stdpp Require Import relations.
From Stdlib Require Import NArith ZArith.

(** ** State *)

(** The sources created so far (by number: is it still open), the current one
    ([sseSourceRef]), the completion flag ([isStreamCompleteRef]) and the
    messages of the page. *)
Record Session := MkSession {
  opened : list bool;
  sseSource : option nat;
  isStreamComplete : bool;
  msgs : list Message;
}.

Definition update_msgs (f : list Message → list Message) (st : Session) : Session :=
  MkSession (opened st) (sseSource st) (isStreamComplete st) (f (msgs st)).

Definition isStreaming (st : Session) : bool := match sseSource st with Some _ => true | None => false end.

(** [source.readyState !== 2]. *)
Definition is_open (src : nat) (st : Session) : bool := default false (opened st !! src).

(** [source.close()]. *)
Definition close (src : nat) (st : Session) : Session :=
  MkSession (<[src := false]> (opened st)) (sseSource st) (isStreamComplete st) (msgs st).

(** ** Handlers of the chat hook *)

Inductive UpdateType := UReasoning | UContent.

(** The updater of [handleStreamUpdate]. *)
Definition stream_update (type : UpdateType) (chunk : jstr) (message : Message) : Message :=
  if bool_decide (status message = Some Error) then message
  else match type with
       | UReasoning =>
         with_status Streaming (with_streaming true
           (with_reasoning
             (Some (MkReasoning (default [] (r_content <$> reasoning message) ++ chunk) nzero)) message))
       | UContent => with_status Streaming (processStreamingContent message (Some chunk))
       end.

Definition handleStreamUpdate (type : UpdateType) (chunk : jstr) (st : Session) : Session :=
  update_msgs (λ prev, updateLastAssistantMessage prev (stream_update type chunk)) st.

Definition stream_complete (message : Message) : Message :=
  if bool_decide (status message = Some Complete) || bool_decide (status message = Some Error)
  then message else with_status Complete (finalizeMessage message None).

Definition handleStreamComplete (st : Session) : Session :=
  update_msgs (λ prev, updateLastAssistantMessage prev stream_complete) st.

Definition handleStreamError (error : jstr) (code : option jstr) (st : Session) : Session :=
  update_msgs (λ prev, updateAssistantMessageWithError prev error code) st.

(** ** Handlers of the stream hook *)

(** [closeSource]: closes this source and forgets the current one. *)
Definition closeSource (src : nat) (st : Session) : Session :=
  let st := close src st in MkSession (opened st) None (isStreamComplete st) (msgs st).

Definition handleError (src : nat) (errorMessage : jstr) (code : option jstr) (st : Session) : Session :=
  if negb (isStreamComplete st) then closeSource src (handleStreamError errorMessage code st) else st.

(** [v?.[0]] of arrays, objects and strings. *)
Definition first_elem (v : json) : option json :=
  match v with
  | JArr l => head l
  | JObj o => obj_get (js "0") o
  | JStr (c :: _) => Some (JStr [c])
  | _ => None
  end.

(** [v?.k]. *)
Definition opt_prop (k : jstr) (v : option json) : option json := v ≫= prop k.

(** [chunk.choices?.[0]?.delta]; reading a property of null throws. *)
Definition delta_of (chunk : json) : exn (option json) :=
  match chunk with
  | JNull => Throw
  | _ =>
    let first := prop (js "choices") chunk ≫= first_elem in
    Ret (opt_prop (js "delta") first)
  end.

(** A truthy property, as the text it is appended as. *)
Definition truthy_text (k : jstr) (v : json) : option jstr :=
  match prop k v with
  | Some w => if json_truthy w then Some (string_of_json w) else None
  | None => None
  end.

Definition apply_delta (delta : option json) (st : Session) : Session :=
  match delta with
  | Some d =>
    if json_truthy d then
      let st := match truthy_text (js "reasoning_content") d with
                | Some r => handleStreamUpdate UReasoning r st | None => st end in
      match truthy_text (js "content") d with
      | Some c => handleStreamUpdate UContent c st | None => st
      end
    else st
  | None => st
  end.

Definition on_message (src : nat) (data : jstr) (st : Session) : Session :=
  if str_eqb data (js "[DONE]") then
    let st := MkSession (opened st) (sseSource st) true (msgs st) in
    handleStreamComplete (closeSource src st)
  else
    match or_throw (json_parse data) ≫= delta_of with
    | Ret delta => apply_delta delta st
    | Throw => handleError src PARSE_ERROR None st
    end.

(** [a || b] of a JSON property and a text; the result is used as text. *)
Definition prop_or (v : option json) (d : jstr) : jstr :=
  match v with Some w => if json_truthy w then string_of_json w else d | None => d end.

Definition prop_code (v : option json) : option jstr :=
  match v with Some w => if json_truthy w then Some (string_of_json w) else None | None => None end.

(** The message and the code of an error event. *)
Definition error_info (data : option jstr) : jstr * option jstr :=
  let raw := str_or (default [] data) API_REQUEST_ERROR in
  match data with
  | Some (c :: s) =>
    match json_parse (c :: s) with
    | Some parsed =>
      match prop (js "error") parsed with
      | Some e => if json_truthy e
                  then (prop_or (prop (js "message") e) raw, prop_code (prop (js "code") e))
                  else (raw, None)
      | None => (raw, None)
      end
    | None => (raw, None)
    end
  | _ => (raw, None)
  end.

Definition on_error (src : nat) (data : option jstr) (st : Session) : Session :=
  if is_open src st then
    let '(errorMessage, code) := error_info data in handleError src errorMessage code st
  else st.

(** [readyState] and [status] are what the event and the source report. *)
Definition on_readystatechange (src : nat) (readyState status : option Z) (st : Session) : Session :=
  match readyState, status with
  | Some r, Some code =>
    if (2 <=? r)%Z && negb (code =? 200)%Z
    then handleError src (js "HTTP " ++ num_to_string (num_of_Z code) ++ js ": " ++ CONNECTION_CLOSED) None st
    else st
  | _, _ => st
  end.

(** [sendStreamRequest]: a new source becomes the current one; [starts] tells
    whether [source.stream()] returns or throws.  The payload goes to the
    server. *)
Definition sendStreamRequest (starts : bool) (st : Session) : Session :=
  let st := MkSession (opened st ++ [true]) (Some (length (opened st))) false (msgs st) in
  if starts then st
  else
    let st := handleStreamError STREAM_START_ERROR None st in
    MkSession (opened st) None (isStreamComplete st) (msgs st).

Definition stopStream (st : Session) : Session :=
  match sseSource st with
  | Some src => let st := close src st in MkSession (opened st) None (isStreamComplete st) (msgs st)
  | None => st
  end.

(** ** The chat hook *)

(** The answer to a non-streaming request: the first choice's text and reasoning
    (when there is a choice), or a rejection with its message and code. *)
Inductive Response :=
  | Choice (text : option jstr) (reasoning_content : option jstr)
  | NoChoice
  | Rejected (data_message err_message : option jstr) (code : option jstr).

(** The updater of [sendNonStreamingChat]. *)
Definition non_stream_update (text reasoning_content : option jstr) (message : Message) : Message :=
  let v := match versions message with v :: _ => v_id v | [] => [] end in
  with_status Complete
    (finalizeMessage (with_versions [Version v (default [] text)] message) reasoning_content).

Definition on_response (r : Response) (st : Session) : Session :=
  match r with
  | Choice text rc => update_msgs (λ prev, updateLastAssistantMessage prev (non_stream_update text rc)) st
  | NoChoice => st
  | Rejected dm em code =>
    handleStreamError (str_or (default [] dm) (str_or (default [] em) API_REQUEST_ERROR))
      (match code with Some (c :: s) => Some (c :: s) | _ => None end) st
  end.

(** [sendChat]: the streaming request opens a source, the other one only awaits. *)
Definition sendChat (config_stream starts : bool) (st : Session) : Session :=
  if config_stream then sendStreamRequest starts st else st.

Definition stop_update (message : Message) : Message :=
  if bool_decide (status message = Some Loading) || bool_decide (status message = Some Streaming)
  then with_status Complete (finalizeMessage message None) else message.

Definition stopGeneration (st : Session) : Session :=
  update_msgs (λ prev, updateLastAssistantMessage prev stop_update) (stopStream st).

(** ** Actions of the page *)

(** The identifiers a new message draws. *)
Record Ids := { id_key : jstr; id_version : jstr }.

Definition handleSendMessage (text : jstr) (u a : Ids) (config_stream starts : bool) (st : Session) : Session :=
  let userMessage := createUserMessage (id_key u) (id_version u) text in
  let assistantMessage := createLoadingAssistantMessage (id_key a) (id_version a) in
  sendChat config_stream starts (update_msgs (λ _, msgs st ++ [userMessage; assistantMessage]) st).

(** [messages.findIndex(m => m.key === k)]. *)
Fixpoint find_key (k : jstr) (l : list Message) : option nat :=
  match l with
  | [] => None
  | m :: l => if str_eqb (key m) k then Some 0 else S <$> find_key k l
  end.

Definition handleRegenerateMessage (k : jstr) (a : Ids) (config_stream starts : bool) (st : Session) : Session :=
  match find_key k (msgs st) with
  | None => st
  | Some i =>
    let loadingMessage := createLoadingAssistantMessage (id_key a) (id_version a) in
    sendChat config_stream starts (update_msgs (λ _, take i (msgs st) ++ [loadingMessage]) st)
  end.

Definition edit_message (k newContent : jstr) (m : Message) : Message :=
  if str_eqb (key m) k
  then with_versions [Version match versions m with v :: _ => v_id v | [] => [] end newContent] m else m.

Definition applyEdit (k newContent : jstr) (submit : bool) (a : Ids) (config_stream starts : bool)
    (st : Session) : Session :=
  match find_key k (msgs st) with
  | None => st
  | Some i =>
    let updated := map (edit_message k newContent) (msgs st) in
    if negb submit || negb (bool_decide (from <$> updated !! i = Some User))
    then update_msgs (λ _, updated) st
    else
      let toSubmit := take (i + 1) updated ++ [createLoadingAssistantMessage (id_key a) (id_version a)] in
      sendChat config_stream starts (update_msgs (λ _, toSubmit) st)
  end.

Definition handleDeleteMessage (k : jstr) (st : Session) : Session :=
  update_msgs (List.filter (λ m, negb (str_eqb (key m) k))) st.

(** ** Steps *)

(** What a source can report, and what a request can answer. *)
Inductive Event :=
  | EvMessage (src : nat) (data : jstr)
  | EvError (src : nat) (data : option jstr)
  | EvReady (src : nat) (readyState status : option Z)
  | EvResponse (r : Response)
  | EvStop.

Definition handle (e : Event) (st : Session) : Session :=
  match e with
  | EvMessage src data => on_message src data st
  | EvError src data => on_error src data st
  | EvReady src r s => on_readystatechange src r s st
  | EvResponse r => on_response r st
  | EvStop => stopGeneration st
  end.

Definition run (es : list Event) (st : Session) : Session := foldl (λ st e, handle e st) st es.

Lemma run_cons e es st : run (e :: es) st = run es (handle e st).
Proof. done. Qed.

(** ** Frames: what events can change *)

(** [m'] may replace the last message [m]. *)
Definition same_identity (m m' : Message) : Prop :=
  key m' = key m ∧ from m' = from m ∧ (from m ≠ Assistant → m' = m).

Lemma same_identity_refl m : same_identity m m.
Proof. done. Qed.

Lemma same_identity_trans m1 m2 m3 : same_identity m1 m2 → same_identity m2 m3 → same_identity m1 m3.
Proof. unfold same_identity. intros (H1 & H2 & H3) (H4 & H5 & H6). rewrite H4, H5, H1, H2. naive_solver. Qed.

(** An update of the messages that at most replaces the last one. *)
Definition touches_last (f : list Message → list Message) : Prop :=
  ∀ l m, ∃ m', f (l ++ [m]) = l ++ [m'] ∧ same_identity m m'.

Lemma update_last_touches f :
  (∀ m, key (f m) = key m ∧ from (f m) = from m) → touches_last (λ l, updateLastAssistantMessage l f).
Proof.
  intros Hf l m. rewrite update_last_snoc. eexists. split; [done|]. destruct (Hf m) as [H1 H2].
  case_bool_decide; unfold same_identity; naive_solver.
Qed.

Lemma finalize_identity m o : key (finalizeMessage m o) = key m ∧ from (finalizeMessage m o) = from m.
Proof. done. Qed.

Lemma stream_update_identity t c m : key (stream_update t c m) = key m ∧ from (stream_update t c m) = from m.
Proof. unfold stream_update. case_bool_decide; [done|]. by destruct t. Qed.

Lemma stream_complete_identity m : key (stream_complete m) = key m ∧ from (stream_complete m) = from m.
Proof. unfold stream_complete. by destruct (_ || _). Qed.

Lemma stop_update_identity m : key (stop_update m) = key m ∧ from (stop_update m) = from m.
Proof. unfold stop_update. by destruct (_ || _). Qed.

Lemma error_touches e c : touches_last (λ l, updateAssistantMessageWithError l e c).
Proof. by apply update_last_touches. Qed.

(** A session change that at most replaces the last message. *)
Definition local (st st' : Session) : Prop :=
  ∀ l m, msgs st = l ++ [m] → ∃ m', msgs st' = l ++ [m'] ∧ same_identity m m'.

Lemma local_refl st st' : msgs st' = msgs st → local st st'.
Proof. intros H l m E. exists m. rewrite H, E. done. Qed.

Lemma local_trans st1 st2 st3 : local st1 st2 → local st2 st3 → local st1 st3.
Proof.
  intros H1 H2 l m E. destruct (H1 l m E) as (m2 & E2 & I2). destruct (H2 l m2 E2) as (m3 & E3 & I3).
  exists m3. split; [done|]. by eapply same_identity_trans.
Qed.

Lemma local_update st f : touches_last f → local st (update_msgs f st).
Proof. intros Hf l m E. cbn. rewrite E. apply Hf. Qed.

Lemma handleError_local src e c st : local st (handleError src e c st).
Proof.
  unfold handleError. destruct (isStreamComplete st); cbn [negb]; [by apply local_refl|].
  eapply local_trans; [apply (local_update st _ (error_touches e c))|by apply local_refl].
Qed.

Lemma handleStreamUpdate_local t c st : local st (handleStreamUpdate t c st).
Proof. apply local_update, update_last_touches. intros. apply stream_update_identity. Qed.

Lemma handleStreamComplete_local st : local st (handleStreamComplete st).
Proof. apply local_update, update_last_touches, stream_complete_identity. Qed.

Lemma apply_delta_local d st : local st (apply_delta d st).
Proof.
  unfold apply_delta. destruct d as [d|]; [|by apply local_refl].
  destruct (json_truthy d); [|by apply local_refl].
  eapply local_trans.
  - instantiate (1 := match truthy_text (js "reasoning_content") d with
                      | Some r => handleStreamUpdate UReasoning r st | None => st end).
    destruct (truthy_text _ d); [apply handleStreamUpdate_local|by apply local_refl].
  - cbv zeta. destruct (truthy_text (js "content") d); [apply handleStreamUpdate_local|by apply local_refl].
Qed.

Lemma on_message_local src data st : local st (on_message src data st).
Proof.
  unfold on_message. destruct (str_eqb _ _).
  - eapply local_trans; [|apply handleStreamComplete_local]. by apply local_refl.
  - destruct (_ ≫= _); [apply apply_delta_local|apply handleError_local].
Qed.

Lemma on_error_local src data st : local st (on_error src data st).
Proof.
  unfold on_error. destruct (is_open src st); [|by apply local_refl].
  destruct (error_info data). apply handleError_local.
Qed.

Lemma on_ready_local src r s st : local st (on_readystatechange src r s st).
Proof.
  unfold on_readystatechange. destruct r, s; try by apply local_refl.
  destruct (_ && _); [apply handleError_local|by apply local_refl].
Qed.

Lemma stopStream_msgs st : msgs (stopStream st) = msgs st.
Proof. unfold stopStream. by destruct (sseSource st). Qed.

Lemma stopGeneration_local st : local st (stopGeneration st).
Proof.
  unfold stopGeneration. eapply local_trans; [apply (local_refl st (stopStream st)), stopStream_msgs|].
  apply local_update, update_last_touches, stop_update_identity.
Qed.

Lemma on_response_local r st : local st (on_response r st).
Proof.
  destruct r as [t rc| |dm em c]; cbn [on_response].
  - by apply local_update, update_last_touches.
  - by apply local_refl.
  - apply local_update, error_touches.
Qed.

Lemma handle_local e st : local st (handle e st).
Proof.
  destruct e; cbn [handle]; auto using on_message_local, on_error_local, on_ready_local,
    on_response_local, stopGeneration_local.
Qed.

Lemma run_local es st : local st (run es st).
Proof.
  revert st. induction es as [|e es IH]; intros st; [by apply local_refl|].
  rewrite run_cons. eapply local_trans; [apply handle_local|apply IH].
Qed.

(** Whatever events a request delivers, in whatever order and from whatever
    source, they can only change the last message, only when it is an assistant
    message, and never its key or its role; the number of messages stays the
    same. *)
Theorem events_touch_last_only es st l m :
  msgs st = l ++ [m] →
  ∃ m', msgs (run es st) = l ++ [m'] ∧ key m' = key m ∧ from m' = from m ∧ (from m ≠ Assistant → m' = m).
Proof. apply run_local. Qed.

Definition demo_ids : Ids := {| id_key := js "k"; id_version := js "v" |}.

Definition empty_session : Session := MkSession [] None false [].

Definition demo_session : Session := handleSendMessage (js "hi") demo_ids demo_ids true true empty_session.

Definition delta_text (field text : jstr) : jstr :=
  stringify (JObj [(js "choices", JArr [JObj [(js "delta", JObj [(field, JStr text)])]])]).

Lemma events_touch_last_only_witness :
  ∃ m', msgs (run [EvMessage 0 (delta_text (js "content") (js "Hello")); EvStop; EvError 3 None] demo_session)
        = [createUserMessage (js "k") (js "v") (js "hi")] ++ [m'] ∧ key m' = js "k" ∧ from m' = Assistant.
Proof.
  destruct (events_touch_last_only
    [EvMessage 0 (delta_text (js "content") (js "Hello")); EvStop; EvError 3 None] demo_session
    [createUserMessage (js "k") (js "v") (js "hi")] blank_assistant eq_refl) as (m' & H1 & H2 & H3 & _).
  exists m'. split; [exact H1|]. split; [exact H2|exact H3].
Defined.

Lemma close_closed src st : is_open src (close src st) = false.
Proof.
  unfold is_open. cbn [close opened]. destruct (<[src:=false]> (opened st) !! src) as [b|] eqn:E; [|done].
  apply list_lookup_insert_Some in E as [(_ & <- & _)|(? & _)]; done.
Qed.

(** ** A complete stream *)

(** A text whose delta carries some reasoning and some content. *)
Definition carries (data : jstr) (r c : option jstr) : Prop :=
  ∃ d, (or_throw (json_parse data) ≫= delta_of) = Ret (Some d) ∧ json_truthy d = true ∧
    truthy_text (js "reasoning_content") d = r ∧ truthy_text (js "content") d = c.

Lemma carries_not_done data r c : carries data r c → str_eqb data (js "[DONE]") = false.
Proof.
  intros (d & Hd & _). unfold str_eqb. apply bool_decide_eq_false. intros ->. vm_compute in Hd. discriminate Hd.
Qed.

Lemma on_carries src data r c st :
  carries data r c →
  on_message src data st =
    let st := match r with Some r => handleStreamUpdate UReasoning r st | None => st end in
    match c with Some c => handleStreamUpdate UContent c st | None => st end.
Proof.
  intros Hc. unfold on_message. rewrite (carries_not_done _ _ _ Hc).
  destruct Hc as (d & -> & Ht & <- & <-). cbn [apply_delta]. by rewrite Ht.
Qed.

Lemma process_status s m c :
  processStreamingContent (with_status s m) c = with_status s (processStreamingContent m c).
Proof. done. Qed.

Lemma finalize_status s m o : finalizeMessage (with_status s m) o = with_status s (finalizeMessage m o).
Proof. done. Qed.

Lemma with_status_twice s s' m : with_status s (with_status s' m) = with_status s m.
Proof. done. Qed.

Lemma with_status_self m s : status m = Some s → with_status s m = m.
Proof. destruct m. cbn. by intros ->. Qed.

Lemma stream_update_content c m :
  status m ≠ Some Error → stream_update UContent c m = with_status Streaming (processStreamingContent m (Some c)).
Proof. intros H. unfold stream_update. by rewrite bool_decide_eq_false_2. Qed.

Lemma stream_chunks_status s m cs : stream_chunks (with_status s m) cs = with_status s (stream_chunks m cs).
Proof.
  unfold stream_chunks. revert m. induction cs as [|c cs IH]; intros m; [done|].
  cbn [foldl]. rewrite process_status. apply IH.
Qed.

(** The state after some content chunks of one source. *)
Lemma run_chunks src datas cs st l m :
  Forall2 (λ data c, carries data None (Some c)) datas cs →
  msgs st = l ++ [m] → from m = Assistant → status m ≠ Some Error →
  run (map (EvMessage src) datas) st =
    MkSession (opened st) (sseSource st) (isStreamComplete st)
      (l ++ [match cs with [] => m | _ => with_status Streaming (stream_chunks m cs) end]).
Proof.
  intros H. revert st m. induction H as [|data c datas cs Hd H IH]; intros st m E Hf Hs.
  - destruct st. cbn in *. by rewrite E.
  - cbn [map]. rewrite run_cons. cbn [handle]. rewrite (on_carries _ _ _ _ _ Hd). cbv zeta.
    assert (msgs (handleStreamUpdate UContent c st)
      = l ++ [with_status Streaming (processStreamingContent m (Some c))]) as E'.
    { cbn. rewrite E, update_last_snoc, bool_decide_eq_true_2 by done. by rewrite stream_update_content. }
    rewrite (IH _ _ E'); [|done|done]. f_equal. f_equal. f_equal.
    destruct cs as [|c' cs]; [done|]. rewrite stream_chunks_status, with_status_twice. done.
Qed.

(** C29: A stream that delivers its reply in content chunks and then the end mark
    completes the reply: it is the message that adding the chunks one after the
    other and finalizing gives.  Its text is the visible part of all chunks
    together, and its reasoning is the one of all chunks together whenever that
    is not empty.  Every earlier message is untouched, the source is closed and
    the page is no longer generating. *)
Theorem stream_completes src datas cs st l m :
  Forall2 (λ data c, carries data None (Some c)) datas cs →
  msgs st = l ++ [m] → from m = Assistant → status m = Some Loading →
  let st' := run (map (EvMessage src) datas ++ [EvMessage src (js "[DONE]")]) st in
  let reply := with_status Complete (finalizeMessage (stream_chunks m cs) None) in
  let full := parseThinkTags (content (getCurrentVersion m) ++ concat cs) in
  msgs st' = l ++ [reply] ∧
  content (getCurrentVersion reply) = visibleContent full ∧
  (cs ≠ [] → think_reasoning full ≠ [] → r_content <$> reasoning reply = Some (think_reasoning full)) ∧
  isStreaming st' = false ∧ isStreamComplete st' = true ∧ is_open src st' = false.
Proof.
  intros Hd E Hf Hs. cbv zeta. unfold run. rewrite foldl_app. fold (run (map (EvMessage src) datas) st).
  rewrite (run_chunks src datas cs st l m) by (done || by rewrite Hs). cbn [foldl handle].
  assert (∀ st, on_message src (js "[DONE]") st =
    handleStreamComplete (closeSource src (MkSession (opened st) (sseSource st) true (msgs st)))) as ->
    by (intros; reflexivity).
  cbn [handleStreamComplete closeSource close update_msgs opened sseSource isStreamComplete msgs isStreaming].
  split_and!; [| | |done|done|].
  2: { destruct (stream_facts m cs) as (<- & _). apply (finalize_content _ None). }
  2: { intros Hcs Hr. by apply finalize_reasoning. }
  - rewrite update_last_snoc. f_equal. f_equal. destruct cs as [|c cs].
    + cbn [stream_chunks foldl]. rewrite bool_decide_eq_true_2 by done. unfold stream_complete. by rewrite Hs.
    + rewrite bool_decide_eq_true_2; [by unfold stream_complete|].
      change (from (stream_chunks m (c :: cs)) = Assistant).
      by destruct (stream_facts m (c :: cs)) as (_ & _ & _ & -> & _).
  - apply (close_closed src st).
Qed.

Lemma stream_completes_witness :
  msgs (run [EvMessage 0 (delta_text (js "content") (js "<think>a</think>Hel"));
             EvMessage 0 (delta_text (js "content") (js "lo"));
             EvMessage 0 (js "[DONE]")] demo_session)
  = [createUserMessage (js "k") (js "v") (js "hi")] ++
    [with_status Complete
      (finalizeMessage (stream_chunks blank_assistant [js "<think>a</think>Hel"; js "lo"]) None)].
Proof.
  apply (stream_completes 0
    [delta_text (js "content") (js "<think>a</think>Hel"); delta_text (js "content") (js "lo")]
    [js "<think>a</think>Hel"; js "lo"] demo_session [createUserMessage (js "k") (js "v") (js "hi")] blank_assistant).
  - repeat constructor; (eexists; split; [vm_compute; reflexivity|split_and!; vm_compute; reflexivity]).
  - reflexivity.
  - reflexivity.
  - reflexivity.
Defined.

(** ** After the end *)

Definition quiet (e : Event) : bool :=
  match e with EvMessage _ _ | EvResponse _ => false | _ => true end.

Lemma quiet_complete e st l m :
  quiet e = true → isStreamComplete st = true → msgs st = l ++ [m] →
  (status m = Some Complete ∨ status m = Some Error) →
  isStreamComplete (handle e st) = true ∧ msgs (handle e st) = msgs st.
Proof.
  intros Hq Hc E Hs. destruct e as [|src data|src r s| |]; try done; cbn [handle].
  - unfold on_error. destruct (is_open src st); [|done]. destruct (error_info data). unfold handleError.
    by rewrite Hc.
  - unfold on_readystatechange. destruct r, s; try done. destruct (_ && _); [|done]. unfold handleError. by rewrite Hc.
  - split; [unfold stopGeneration, stopStream; by destruct (sseSource st)|].
    unfold stopGeneration. cbn [update_msgs msgs]. rewrite stopStream_msgs, E, update_last_snoc.
    f_equal. f_equal. case_bool_decide; [|done]. unfold stop_update.
    destruct Hs as [Hs|Hs]; by rewrite Hs.
Qed.

(** Once the end mark has been handled, error events, state changes and
    pressing stop no longer change any message: a finished reply cannot turn into
    an error afterwards. *)
Theorem finished_reply_stable src st es l m :
  msgs st = l ++ [m] → from m = Assistant → Forall (λ e, quiet e = true) es →
  msgs (run es (on_message src (js "[DONE]") st)) = msgs (on_message src (js "[DONE]") st).
Proof.
  intros E Hf Hes. set (st1 := on_message src (js "[DONE]") st).
  assert (isStreamComplete st1 = true) as Hc by reflexivity.
  assert (msgs st1 = l ++ [stream_complete m]) as E1.
  { change (msgs st1) with (updateLastAssistantMessage (msgs st) stream_complete).
    by rewrite E, update_last_snoc, bool_decide_eq_true_2. }
  assert (status (stream_complete m) = Some Complete ∨ status (stream_complete m) = Some Error) as Hs.
  { unfold stream_complete. destruct (_ || _) eqn:H; [|by left]. apply orb_true_iff in H as [H|H]; boolify; auto. }
  clearbody st1. clear E. revert st1 Hc E1. induction Hes as [|e es He Hes IH]; intros st1 Hc E1; [done|].
  rewrite run_cons. destruct (quiet_complete e st1 l (stream_complete m)) as [Hc' Hm]; [done..|].
  etrans; [apply (IH (handle e st1)); [done|by rewrite Hm]|done].
Qed.

Lemma finished_reply_stable_witness :
  msgs (run [EvError 0 None; EvReady 0 (Some 2%Z) (Some 500%Z); EvStop] (on_message 0 (js "[DONE]") demo_session))
  = msgs (on_message 0 (js "[DONE]") demo_session).
Proof.
  apply (finished_reply_stable 0 demo_session _ [createUserMessage (js "k") (js "v") (js "hi")] blank_assistant).
  - reflexivity.
  - reflexivity.
  - repeat constructor.
Defined.

(** A reply that has failed keeps its error text: content and reasoning chunks
    that still arrive, the end mark and pressing stop leave it as it is. *)
Theorem failed_reply_sticky st l m type chunk src :
  msgs st = l ++ [m] → status m = Some Error →
  msgs (handleStreamUpdate type chunk st) = msgs st ∧
  msgs (on_message src (js "[DONE]") st) = msgs st ∧
  msgs (stopGeneration st) = msgs st ∧
  (∀ data r c, carries data r c → msgs (on_message src data st) = msgs st).
Proof.
  intros E Hs.
  assert (∀ t c st, msgs st = l ++ [m] → msgs (handleStreamUpdate t c st) = msgs st) as Hu.
  { intros t c st' E'. cbn. rewrite E', update_last_snoc. f_equal. f_equal. case_bool_decide; [|done].
    unfold stream_update. by rewrite bool_decide_eq_true_2. }
  split_and!.
  - by apply Hu.
  - change (updateLastAssistantMessage (msgs st) stream_complete = msgs st). rewrite E, update_last_snoc.
    f_equal. f_equal. case_bool_decide; [|done]. unfold stream_complete. by rewrite Hs.
  - unfold stopGeneration. cbn [update_msgs msgs]. rewrite stopStream_msgs, E, update_last_snoc.
    f_equal. f_equal. case_bool_decide; [|done]. unfold stop_update. by rewrite Hs.
  - intros data r c Hc. rewrite (on_carries _ _ _ _ _ Hc). cbv zeta.
    destruct r as [r|], c as [c|]; rewrite ?Hu; try done. by rewrite Hu.
Qed.

Lemma failed_reply_sticky_witness :
  let st := handleError 0 (js "boom") None demo_session in
  msgs (on_message 0 (js "[DONE]") st) = msgs st.
Proof.
  intros st. apply (failed_reply_sticky st [createUserMessage (js "k") (js "v") (js "hi")]
    (with_errorCode None (with_streaming false (with_status Error
      (updateCurrentVersionContent blank_assistant (API_REQUEST_ERROR ++ js ": boom"))))) UContent [] 0).
  - vm_compute. reflexivity.
  - reflexivity.
Defined.

(** ** Streaming sessions *)

Definition settled (l : list Message) : Prop := Forall (λ m, is_stuck m = false) l.

(** The page: the session, and the sources whose [stream()] returned (one that
    throws at the start never delivers anything). *)
Record Page := MkPage { session : Session; started : list nat }.

(** What the user can do, and what the sources report. *)
Inductive Action :=
  | ASend (text : jstr) (u a : Ids) (starts : bool)
  | ASuggest (text : jstr) (u a : Ids) (starts : bool)
  | ARegenerate (k : jstr) (a : Ids) (starts : bool)
  | ASave (k c : jstr) (submit : bool) (a : Ids) (starts : bool)
  | ADelete (k : jstr)
  | AStop
  | AMessage (src : nat) (data : jstr)
  | AError (src : nat) (data : option jstr)
  | AReady (src : nat) (readyState status : option Z).

(** The page after a handler: a request that it made has started or not. *)
Definition after (starts : bool) (p : Page) (st : Session) : Page :=
  let n := length (opened (session p)) in
  MkPage st (if starts && (n <? length (opened st))%nat then n :: started p else started p).

(** A source that can still deliver: it has started and is not closed. *)
Definition live (p : Page) (src : nat) : Prop :=
  src ∈ started p ∧ is_open src (session p) = true.

(** The steps of a page whose requests are streamed, with the conditions that the
    components impose.  The input, regenerating and deleting are disabled while
    the page is generating; the suggestions under the input, and saving an edit
    that is open, are not.  Messages and errors come from any source that is
    live; a state change comes from a live source too, or from the last one,
    which reports that it was closed. *)
Inductive sstep (p : Page) : Action → Page → Prop :=
  | s_send text u a starts :
      isStreaming (session p) = false →
      sstep p (ASend text u a starts) (after starts p (handleSendMessage text u a true starts (session p)))
  | s_suggest text u a starts :
      sstep p (ASuggest text u a starts) (after starts p (handleSendMessage text u a true starts (session p)))
  | s_regenerate k a starts :
      isStreaming (session p) = false →
      sstep p (ARegenerate k a starts) (after starts p (handleRegenerateMessage k a true starts (session p)))
  | s_save k c submit a starts :
      sstep p (ASave k c submit a starts) (after starts p (applyEdit k c submit a true starts (session p)))
  | s_delete k :
      isStreaming (session p) = false →
      sstep p (ADelete k) (MkPage (handleDeleteMessage k (session p)) (started p))
  | s_stop : sstep p AStop (MkPage (stopGeneration (session p)) (started p))
  | s_message src data :
      live p src → sstep p (AMessage src data) (MkPage (on_message src data (session p)) (started p))
  | s_error src data :
      live p src → sstep p (AError src data) (MkPage (on_error src data (session p)) (started p))
  | s_ready src r c :
      live p src ∨ S src = length (opened (session p)) →
      sstep p (AReady src r c) (MkPage (on_readystatechange src r c (session p)) (started p)).

(** Nothing is sent while the page is generating: no suggestion is pressed, and
    no edit is saved and submitted. *)
Definition calm (p : Page) (a : Action) : Prop :=
  match a with
  | ASuggest _ _ _ _ | ASave _ _ true _ _ => isStreaming (session p) = false
  | _ => True
  end.

Definition calm_step (p p' : Page) : Prop := ∃ a, calm p a ∧ sstep p a p'.

Definition any_step (p p' : Page) : Prop := ∃ a, sstep p a p'.

(** A page that was opened with some messages. *)
Definition start_page (l : list Message) : Page := MkPage (MkSession [] None false l) [].

(** Idle: nothing is unfinished.  Generating: the last source is current, the last
    message is the reply, nothing before it is unfinished. *)
Definition session_inv (st : Session) : Prop :=
  match sseSource st with
  | None => settled (msgs st)
  | Some i => S i = length (opened st) ∧ ∃ l m, msgs st = l ++ [m] ∧ settled l ∧ from m = Assistant
  end.

Lemma not_stuck_status m s : status m = Some s → s ≠ Loading → s ≠ Streaming → is_stuck m = false.
Proof.
  intros Hs H1 H2. unfold is_stuck. rewrite Hs.
  rewrite (bool_decide_eq_false_2 (Some s = Some Loading)), (bool_decide_eq_false_2 (Some s = Some Streaming)) by congruence.
  by rewrite andb_false_r.
Qed.

Lemma settled_snoc l m : settled (l ++ [m]) ↔ settled l ∧ is_stuck m = false.
Proof. unfold settled. rewrite Forall_app, Forall_singleton. done. Qed.

Lemma error_settles l m e c :
  settled l → from m = Assistant → settled (updateAssistantMessageWithError (l ++ [m]) e c).
Proof.
  intros Hl Hf. unfold updateAssistantMessageWithError. rewrite update_last_snoc, bool_decide_eq_true_2 by done.
  apply settled_snoc. split; [done|]. by apply (not_stuck_status _ Error).
Qed.

(** On settled messages an error leaves settled messages. *)
Lemma error_keeps_settled l e c : settled l → settled (updateAssistantMessageWithError l e c).
Proof.
  intros Hl. destruct l as [|m l _] using rev_ind; [done|].
  apply settled_snoc in Hl as [Hl Hm]. destruct (decide (from m = Assistant)) as [Hf|Hf]; [by apply error_settles|].
  unfold updateAssistantMessageWithError. rewrite update_last_snoc, bool_decide_eq_false_2 by done.
  by apply settled_snoc.
Qed.

Lemma handleError_inv src e c st :
  session_inv st → S src = length (opened st) → session_inv (handleError src e c st).
Proof.
  intros Hinv Hsrc. unfold handleError. destruct (isStreamComplete st); cbn [negb]; [done|].
  unfold session_inv in *. cbn [closeSource sseSource msgs close handleStreamError update_msgs].
  destruct (sseSource st) as [i|]; [|by apply error_keeps_settled].
  destruct Hinv as (_ & l & m & -> & Hl & Hf). by apply error_settles.
Qed.

Lemma stop_settles st : session_inv st → settled (msgs (stopGeneration st)).
Proof.
  intros Hinv. unfold stopGeneration. cbn [update_msgs msgs]. rewrite stopStream_msgs.
  assert (∀ m, is_stuck (stop_update m) = false ∨ from m ≠ Assistant) as Hstop.
  { intros m. destruct (decide (from m = Assistant)); [left|by right]. unfold stop_update, is_stuck.
    destruct (_ || _) eqn:E; cbn; [by rewrite andb_false_r|]. by rewrite E, andb_false_r. }
  unfold session_inv in Hinv. destruct (sseSource st).
  - destruct Hinv as (_ & l & m & -> & Hl & Hf). rewrite update_last_snoc, bool_decide_eq_true_2 by done.
    apply settled_snoc. split; [done|]. by destruct (Hstop m).
  - destruct (msgs st) as [|m l _] using rev_ind; [done|]. apply settled_snoc in Hinv as [Hl Hm].
    rewrite update_last_snoc. apply settled_snoc. split; [done|].
    case_bool_decide; [|done]. by destruct (Hstop m).
Qed.

Lemma done_settles l m :
  settled l → from m = Assistant → settled (updateLastAssistantMessage (l ++ [m]) stream_complete).
Proof.
  intros Hl Hf. rewrite update_last_snoc, bool_decide_eq_true_2 by done. apply settled_snoc. split; [done|].
  unfold stream_complete. destruct (_ || _) eqn:E; [|by apply (not_stuck_status _ Complete)].
  apply orb_true_iff in E as [E|E]; boolify; by eapply not_stuck_status.
Qed.

Lemma generating_local st st' :
  local st st' → sseSource st' = sseSource st → opened st' = opened st → sseSource st ≠ None →
  session_inv st → session_inv st'.
Proof.
  intros Hl Hs Ho Hn. unfold session_inv. rewrite Hs, Ho. destruct (sseSource st); [|done].
  intros (Hi & l & m & E & Hset & Hf). split; [done|]. destruct (Hl l m E) as (m' & E' & _ & Hf' & _).
  exists l, m'. split_and!; [done|done|]. by rewrite Hf'.
Qed.

Lemma apply_delta_frame d st :
  sseSource (apply_delta d st) = sseSource st ∧ opened (apply_delta d st) = opened st.
Proof.
  unfold apply_delta. destruct d as [d|]; [|done]. destruct (json_truthy d); [|done].
  by destruct (truthy_text _ d), (truthy_text _ d).
Qed.

Lemma send_inv starts st l m :
  msgs st = l ++ [m] → settled l → from m = Assistant → session_inv (sendStreamRequest starts st).
Proof.
  intros E Hl Hf. unfold sendStreamRequest, session_inv. destruct starts; cbn [sseSource opened msgs].
  - rewrite length_app. split; [simpl; lia|]. by exists l, m.
  - cbn [handleStreamError handleStreamComplete closeSource close update_msgs sseSource msgs opened isStreamComplete handleDeleteMessage]. rewrite E.
    by apply error_settles.
Qed.

Lemma settled_sublist l l' : (∀ m, m ∈ l' → m ∈ l) → settled l → settled l'.
Proof. unfold settled. rewrite !Forall_forall. auto. Qed.

Lemma edit_settled k c l : settled l → settled (map (edit_message k c) l).
Proof.
  unfold settled. intros H. apply Forall_map. eapply Forall_impl; [exact H|]. intros m Hm.
  unfold edit_message. by destruct (str_eqb _ _).
Qed.

Lemma idle_settled st : isStreaming st = false → session_inv st → settled (msgs st).
Proof. unfold isStreaming, session_inv. by destruct (sseSource st). Qed.

Lemma take_settled n l : settled l → settled (take n l).
Proof. by apply Forall_take. Qed.

Lemma handleSendMessage_inv text u a starts st :
  settled (msgs st) → session_inv (handleSendMessage text u a true starts st).
Proof.
  intros Hset. unfold handleSendMessage. cbn [sendChat].
  apply (send_inv starts _ (msgs st ++ [createUserMessage (id_key u) (id_version u) text])
    (createLoadingAssistantMessage (id_key a) (id_version a))); [cbn [update_msgs msgs]; by rewrite <- app_assoc| |done].
  by apply settled_snoc.
Qed.

Lemma handleRegenerateMessage_inv k a starts st :
  session_inv st → settled (msgs st) → session_inv (handleRegenerateMessage k a true starts st).
Proof.
  intros Hinv Hset. unfold handleRegenerateMessage. destruct (find_key k (msgs st)) as [i|]; [|done].
  eapply send_inv; [done| |done]. by apply take_settled.
Qed.

Lemma edit_inv k c st : session_inv st → session_inv (update_msgs (λ _, map (edit_message k c) (msgs st)) st).
Proof.
  unfold session_inv. cbn [update_msgs sseSource msgs opened]. destruct (sseSource st); [|apply edit_settled].
  intros (Hi & l & m & E & Hset & Hf). split; [done|]. exists (map (edit_message k c) l), (edit_message k c m).
  rewrite E, map_app. split_and!; [done|by apply edit_settled|]. unfold edit_message. by destruct (str_eqb _ _).
Qed.

Lemma applyEdit_inv k c submit a starts st :
  session_inv st → (submit = true → settled (msgs st)) → session_inv (applyEdit k c submit a true starts st).
Proof.
  intros Hinv Hset. unfold applyEdit. destruct (find_key k (msgs st)) as [i|]; [|done].
  destruct submit; cbn [negb orb]; [destruct (negb _)|]; [by apply edit_inv| |by apply edit_inv].
  eapply send_inv; [done| |done]. apply take_settled, edit_settled. auto.
Qed.

Lemma on_message_inv src data st : sseSource st = Some src → session_inv st → session_inv (on_message src data st).
Proof.
  intros Hs Hinv. pose proof Hinv as Hinv'. unfold session_inv in Hinv'. rewrite Hs in Hinv'.
  destruct Hinv' as (Hi & l & m & E & Hset & Hf). unfold on_message. destruct (str_eqb _ _).
  - unfold session_inv.
    cbn [handleStreamComplete closeSource close update_msgs sseSource msgs opened isStreamComplete].
    rewrite E. by apply done_settles.
  - destruct (_ ≫= _) as [d|]; [|by apply handleError_inv].
    destruct (apply_delta_frame d st). apply (generating_local st); [apply apply_delta_local|done|done| |done].
    by rewrite Hs.
Qed.

Lemma stop_inv st : session_inv st → session_inv (stopGeneration st).
Proof.
  intros Hinv. pose proof (stop_settles st Hinv) as Hset. unfold session_inv.
  assert (sseSource (stopGeneration st) = None) as ->; [|done].
  unfold stopGeneration, stopStream. by destruct (sseSource st) eqn:E.
Qed.

(** ** The sources that are live *)

(** Only the current source is live. *)
Definition page_inv (p : Page) : Prop :=
  session_inv (session p) ∧
  Forall (λ src, src < length (opened (session p))) (started p) ∧
  (∀ src, live p src → sseSource (session p) = Some src).

(** Which sources a handler leaves open. *)
Definition keeps_sources (st st' : Session) : Prop :=
  length (opened st') = length (opened st) ∧
  (∀ src, is_open src st' = true → is_open src st = true) ∧
  (sseSource st' = sseSource st ∨
   sseSource st' = None ∧ ∀ src, sseSource st = Some src → is_open src st' = false).

Lemma keeps_same st st' : opened st' = opened st → sseSource st' = sseSource st → keeps_sources st st'.
Proof. intros Ho Hs. unfold keeps_sources, is_open. rewrite Ho, Hs. auto. Qed.

Lemma is_open_close src src' st : is_open src' (close src st) = true → is_open src' st = true ∧ src' ≠ src.
Proof.
  intros H. split; [|intros ->; by rewrite close_closed in H].
  unfold is_open in *. cbn [close opened] in H.
  destruct (<[src:=false]> (opened st) !! src') as [b|] eqn:E; [|done].
  apply list_lookup_insert_Some in E as [(_ & <- & _)|(_ & ->)]; done.
Qed.

Lemma keeps_close src st st' :
  opened st' = opened (close src st) → sseSource st' = None →
  (∀ i, sseSource st = Some i → i = src) → keeps_sources st st'.
Proof.
  intros Ho Hs Hi. unfold keeps_sources.
  assert (∀ j, is_open j st' = is_open j (close src st)) as Hopen by (intros; unfold is_open; by rewrite Ho).
  split_and!; [rewrite Ho; cbn; by rewrite length_insert| |right].
  - intros j. rewrite Hopen. intros []%is_open_close. done.
  - split; [done|]. intros j ->%Hi. rewrite Hopen. apply close_closed.
Qed.

Lemma handleError_keeps src e c st :
  (∀ i, sseSource st = Some i → i = src) → keeps_sources st (handleError src e c st).
Proof.
  intros Hi. unfold handleError. destruct (isStreamComplete st); cbn [negb]; [by apply keeps_same|].
  by apply (keeps_close src).
Qed.

Lemma on_message_keeps src data st : sseSource st = Some src → keeps_sources st (on_message src data st).
Proof.
  intros Hs. unfold on_message. destruct (str_eqb _ _); [apply (keeps_close src); [done..|congruence]|].
  destruct (_ ≫= _) as [d|]; [|apply handleError_keeps; congruence].
  destruct (apply_delta_frame d st). by apply keeps_same.
Qed.

Lemma stop_keeps st : keeps_sources st (stopGeneration st).
Proof.
  unfold stopGeneration, stopStream. destruct (sseSource st) as [i|] eqn:E; [|by apply keeps_same].
  apply (keeps_close i); [done..|congruence].
Qed.

Lemma page_keeps p st' :
  page_inv p → keeps_sources (session p) st' → session_inv st' → page_inv (MkPage st' (started p)).
Proof.
  intros (_ & Hb & Hl) (Hlen & Hopen & Hs) Hinv. split_and!; [done|cbn; by rewrite Hlen|].
  intros src [Hin Ho]. cbn in *. assert (sseSource (session p) = Some src) as Hcur by (apply Hl; split; auto).
  destruct Hs as [->|[_ Hc]]; [done|]. rewrite (Hc src Hcur) in Ho. done.
Qed.

(** A request that is made when no source is live. *)
Lemma page_sends p starts st st' :
  page_inv p → isStreaming (session p) = false → opened st = opened (session p) →
  st' = sendStreamRequest starts st → session_inv st' → page_inv (after starts p st').
Proof.
  intros (_ & Hb & Hl) Hi Ho -> Hinv. rewrite Forall_forall in Hb.
  assert (opened (sendStreamRequest starts st) = opened (session p) ++ [true]) as Hopen
    by (rewrite <- Ho; by destruct starts).
  assert (∀ src, src ∈ started p → is_open src (sendStreamRequest starts st) = true → False) as Hold.
  { intros src Hin H. unfold isStreaming in Hi. unfold is_open in H. rewrite Hopen, lookup_app_l in H by auto.
    rewrite (Hl src) in Hi by done. done. }
  unfold after, page_inv, live. cbn [session started]. split; [done|].
  rewrite Hopen, length_app. cbn [length].
  assert ((length (opened (session p)) <? length (opened (session p)) + 1)%nat = true) as ->
    by (apply Nat.ltb_lt; lia).
  rewrite andb_true_r. split.
  - apply Forall_forall. intros src Hin.
    assert (src = length (opened (session p)) ∨ src ∈ started p) as [->|Hin'%Hb]; [|lia..].
    destruct starts; [by apply elem_of_cons in Hin|auto].
  - intros src [Hin H]. destruct starts; [|by destruct (Hold src)].
    apply elem_of_cons in Hin as [->|Hin]; [by rewrite <- Ho|by destruct (Hold src)].
Qed.

Lemma page_same starts p st :
  page_inv p → opened st = opened (session p) → sseSource st = sseSource (session p) → session_inv st →
  page_inv (after starts p st).
Proof.
  intros Hp Ho Hs Hinv. unfold after. rewrite Ho.
  assert ((length (opened (session p)) <? length (opened (session p)))%nat = false) as -> by (apply Nat.ltb_ge; lia).
  rewrite andb_false_r. apply page_keeps; [done|by apply keeps_same|done].
Qed.

Lemma live_current p src : page_inv p → live p src → sseSource (session p) = Some src.
Proof. intros (_ & _ & H). apply H. Qed.

Lemma current_last p src : page_inv p → sseSource (session p) = Some src → S src = length (opened (session p)).
Proof. intros [Hinv _] Hs. unfold session_inv in Hinv. rewrite Hs in Hinv. by destruct Hinv. Qed.

Lemma reporter_last p src :
  page_inv p → live p src ∨ S src = length (opened (session p)) → S src = length (opened (session p)).
Proof. intros Hp [H|H]; [by eapply current_last, live_current|done]. Qed.

Lemma last_reporter p src :
  page_inv p → S src = length (opened (session p)) → ∀ i, sseSource (session p) = Some i → i = src.
Proof. intros Hp Hs i Hi%current_last; [lia|done]. Qed.

Lemma calm_send_inv p text u a starts :
  page_inv p → isStreaming (session p) = false →
  page_inv (after starts p (handleSendMessage text u a true starts (session p))).
Proof.
  intros Hp Hi. eapply page_sends; [done|done| |done|]; [done|].
  apply handleSendMessage_inv, idle_settled; [done|apply Hp].
Qed.

Lemma calm_regenerate_inv p k a starts :
  page_inv p → isStreaming (session p) = false →
  page_inv (after starts p (handleRegenerateMessage k a true starts (session p))).
Proof.
  intros Hp Hi. assert (settled (msgs (session p))) as Hset by (apply idle_settled; [done|apply Hp]).
  pose proof (handleRegenerateMessage_inv k a starts (session p) (proj1 Hp) Hset) as Hinv.
  unfold handleRegenerateMessage in *. destruct (find_key k _) as [i|]; [|by apply page_same].
  by eapply page_sends; [done|done| |done|].
Qed.

Lemma calm_save_inv p k c submit a starts :
  page_inv p → (submit = true → isStreaming (session p) = false) →
  page_inv (after starts p (applyEdit k c submit a true starts (session p))).
Proof.
  intros Hp Hi. assert (submit = true → settled (msgs (session p))) as Hset
    by (intros ->; apply idle_settled; [auto|apply Hp]).
  pose proof (applyEdit_inv k c submit a starts (session p) (proj1 Hp) Hset) as Hinv.
  unfold applyEdit in *. destruct (find_key k _) as [i|]; [|by apply page_same].
  destruct submit; cbn [negb orb] in *; [destruct (negb _)|]; [by apply page_same| |by apply page_same].
  by eapply page_sends; [done|auto| |done|].
Qed.

Lemma calm_step_inv p p' : page_inv p → calm_step p p' → page_inv p'.
Proof.
  intros Hp (ac & Hcalm & Hstep). destruct Hstep as [text u a starts Hi|text u a starts|k a starts Hi|k c submit a starts
    |k Hi| |src data Hl|src data Hl|src r c Hl]; cbn [calm] in Hcalm.
  - by apply calm_send_inv.
  - by apply calm_send_inv.
  - by apply calm_regenerate_inv.
  - apply calm_save_inv; [done|]. by intros ->.
  - apply page_keeps; [done|by apply keeps_same|]. pose proof (idle_settled _ Hi (proj1 Hp)) as Hset.
    unfold session_inv, isStreaming in *. cbn [handleDeleteMessage update_msgs sseSource msgs].
    destruct (sseSource (session p)); [done|]. eapply settled_sublist; [|exact Hset]. intros m.
    rewrite list_elem_of_In, filter_In, <- list_elem_of_In. by intros [].
  - apply page_keeps; [done|apply stop_keeps|apply stop_inv, Hp].
  - pose proof (live_current p src Hp Hl) as Hs.
    apply page_keeps; [done|by apply on_message_keeps|apply on_message_inv; [done|apply Hp]].
  - pose proof (live_current p src Hp Hl) as Hs. unfold on_error.
    destruct (is_open src (session p)); [|by destruct p]. destruct (error_info data).
    apply page_keeps; [done|apply handleError_keeps; congruence|].
    apply handleError_inv; [apply Hp|by apply current_last].
  - apply (reporter_last p src Hp) in Hl. unfold on_readystatechange. destruct r, c; try by destruct p.
    destruct (_ && _); [|by destruct p].
    apply page_keeps; [done|by apply handleError_keeps, last_reporter|apply handleError_inv; [apply Hp|done]].
Qed.

Lemma calm_reachable l p : settled l → rtc calm_step (start_page l) p → page_inv p.
Proof.
  intros Hl. assert (page_inv (start_page l)) as H0 by (split_and!; [done|constructor|by intros ? [?%elem_of_nil]]).
  intros H. revert H0. induction H; eauto using calm_step_inv.
Qed.

Lemma settled_lookup l i m : settled l → l !! i = Some m → is_stuck m = false.
Proof. intros H Hi. exact (Forall_lookup_1 _ _ _ _ H Hi). Qed.

Lemma stop_idle st : isStreaming (stopGeneration st) = false.
Proof. unfold isStreaming, stopGeneration, stopStream. by destruct (sseSource st) eqn:E; cbn [update_msgs sseSource]; rewrite ?E. Qed.

(** C1: A session of streamed requests, started with messages of which none is
    unfinished, in which nothing is sent while the page is generating (no
    suggestion is pressed then, and no edit is submitted).  In every state that
    it reaches, only the last message can be unfinished, and only while the page
    is generating; the only source that can still deliver anything is the current
    one; and pressing stop, or the end mark of the current source, leads to a
    state that is not generating, in which no source can deliver anything and
    nothing is unfinished. *)
Theorem session_safe l p :
  settled l → rtc calm_step (start_page l) p →
  let st := session p in
  (∀ i m, msgs st !! i = Some m → is_stuck m = true → S i = length (msgs st) ∧ isStreaming st = true) ∧
  (∀ src, live p src → sseSource st = Some src) ∧
  (∀ p', sstep p AStop p' ∨ (∃ src, sstep p (AMessage src (js "[DONE]")) p') →
    isStreaming (session p') = false ∧ (∀ src, ¬ live p' src) ∧ settled (msgs (session p'))).
Proof.
  intros Hl Hr. pose proof (calm_reachable l p Hl Hr) as Hp. cbv zeta. split_and!.
  - intros i m Hi Hm. destruct (isStreaming (session p)) eqn:E;
      [|rewrite (settled_lookup _ _ _ (idle_settled _ E (proj1 Hp)) Hi) in Hm; done].
    split; [|done]. destruct Hp as [Hinv _]. unfold session_inv, isStreaming in *.
    destruct (sseSource (session p)); [|done]. destruct Hinv as (_ & l' & m' & El & Hset & _).
    rewrite El in Hi |- *. apply lookup_app_Some in Hi as [Hi|[Hle Hi]]; [rewrite (settled_lookup _ _ _ Hset Hi) in Hm; done|].
    apply list_lookup_singleton_Some in Hi as [Hi _]. rewrite length_app. cbn. lia.
  - intros src. by apply live_current.
  - intros p' Hstep. assert (page_inv p') as Hp'.
    { apply (calm_step_inv p); [done|]. destruct Hstep as [H|[src H]]; [by exists AStop|by exists (AMessage src (js "[DONE]"))]. }
    assert (isStreaming (session p') = false) as Hi.
    { destruct Hstep as [H|[src H]]; inversion H; subst; [apply stop_idle|done]. }
    split_and!; [done| |apply idle_settled; [done|apply Hp']].
    intros src H%live_current; [|done]. unfold isStreaming in Hi. by rewrite H in Hi.
Qed.

Definition demo_page : Page := after true (start_page []) demo_session.

Lemma demo_page_reached : rtc calm_step (start_page []) demo_page.
Proof. apply rtc_once. exists (ASend (js "hi") demo_ids demo_ids true). split; [done|]. by apply s_send. Qed.

Lemma session_safe_witness :
  live demo_page 0 ∧ count_stuck (msgs (session demo_page)) = 1 ∧ settled (msgs (stopGeneration demo_session)).
Proof.
  destruct (session_safe [] demo_page) as (_ & _ & H).
  - constructor.
  - exact demo_page_reached.
  - split; [split; [by constructor|reflexivity]|]. split; [vm_compute; reflexivity|].
    destruct (H (MkPage (stopGeneration demo_session) [0])) as (_ & _ & Hs); [left; exact (s_stop demo_page)|exact Hs].
Defined.

(** ** What goes wrong *)

(** Requests that are not streamed do not count as generating, so a second one
    can be sent while the first is pending: the first answer then lands in the
    second reply and the first reply stays loading; an answer without choices
    leaves its reply loading as well; and a stream that ends with status 200 but
    without the end mark changes nothing, so its reply stays unfinished. *)
Theorem unfinished_replies :
  let first := handleSendMessage (js "one") demo_ids demo_ids false true empty_session in
  let second := handleSendMessage (js "two") demo_ids demo_ids false true first in
  isStreaming first = false ∧
  map status (msgs (on_response (Choice (Some (js "answer one")) None) second))
    = [None; Some Loading; None; Some Complete] ∧
  (content ∘ getCurrentVersion) <$> last (msgs (on_response (Choice (Some (js "answer one")) None) second))
    = Some (js "answer one") ∧
  map status (msgs (on_response NoChoice first)) = [None; Some Loading] ∧
  (∀ src st, on_readystatechange src (Some 2%Z) (Some 200%Z) st = st).
Proof. split_and!; [vm_compute; reflexivity..|done]. Qed.

(** The suggestions under the input, and saving an edit, are not disabled while
    the page is generating.  A suggestion pressed during a reply opens a second
    source while the first one stays live: two replies are unfinished, the chunks
    of the first answer are added to the second reply, and stopping closes only
    the second source and leaves the first reply unfinished. *)
Theorem suggestion_during_reply :
  let p := after true demo_page (handleSendMessage (js "Code") demo_ids demo_ids true true demo_session) in
  let late := on_message 0 (delta_text (js "content") (js "old answer")) (session p) in
  rtc any_step (start_page []) p ∧
  live p 0 ∧ live p 1 ∧ count_stuck (msgs (session p)) = 2 ∧
  (content ∘ getCurrentVersion) <$> last (msgs late) = Some (js "old answer") ∧
  map status (msgs (stopGeneration (session p))) = [None; Some Loading; None; Some Complete] ∧
  is_open 0 (stopGeneration (session p)) = true.
Proof.
  intros p late. split.
  { eapply rtc_l; [|apply rtc_once].
    - exists (ASend (js "hi") demo_ids demo_ids true). by apply s_send.
    - exists (ASuggest (js "Code") demo_ids demo_ids true). apply (s_suggest demo_page). }
  assert (∀ src, src ∈ [1; 0] → is_open src (session p) = true → live p src) as Hlive by done.
  split_and!; [apply Hlive; [set_solver|reflexivity]..| | | |]; vm_compute; reflexivity.
Qed.
