(* ===== verification/Maintenance.v ===== *)
(** * Navigation settings: features/system-settings/maintenance/config.ts

    The administrator's settings page edits two stored texts: the header
    navigation and the sidebar modules.  This file models how the page reads
    and prints them.  A configuration is a JavaScript object, kept as the list of
    its own properties in order; where the code reads or writes a name that every
    object inherits from [Object.prototype] this is written out, and such names
    are excluded from the well-formed configurations ([regular]). *)

From S2P Require Import Prelude JsString JsRegExp JsNumber Json.
From stdpp Require Import list.
From Stdlib Require Import NArith ZArith.

(** ** Data *)

Record HeaderNavAccessConfig := { enabled : bool; requireAuth : bool }.

(** A property of the header configuration: [boolean | HeaderNavAccessConfig]. *)
Inductive nav_value :=
  | NavFlag (b : bool)
  | NavAccess (a : HeaderNavAccessConfig).

Definition HeaderNavModulesConfig : Type := list (jstr * nav_value).

Definition SidebarSectionConfig : Type := list (jstr * bool).

Definition SidebarModulesAdminConfig : Type := list (jstr * SidebarSectionConfig).

Definition OPEN_ACCESS : HeaderNavAccessConfig := {| enabled := true; requireAuth := false |}.

Definition HEADER_NAV_DEFAULT : HeaderNavModulesConfig :=
  [(js "home", NavFlag true); (js "console", NavFlag true);
   (js "pricing", NavAccess OPEN_ACCESS); (js "rankings", NavAccess OPEN_ACCESS);
   (js "docs", NavFlag true); (js "about", NavFlag true)].

Definition SIDEBAR_MODULES_DEFAULT : SidebarModulesAdminConfig :=
  [(js "chat", [(js "enabled", true); (js "playground", true); (js "chat", true)]);
   (js "console", [(js "enabled", true); (js "detail", true); (js "token", true);
                   (js "log", true); (js "midjourney", true); (js "task", true)]);
   (js "personal", [(js "enabled", true); (js "topup", true); (js "personal", true)]);
   (js "admin", [(js "enabled", true); (js "channel", true); (js "models", true);
                 (js "redemption", true); (js "user", true); (js "setting", true);
                 (js "subscription", true)])].

(** Assigning a boolean to [__proto__] has no effect. *)
Definition is_proto (k : jstr) : bool := str_eqb k (js "__proto__").

(** The two modules that carry an access record. *)
Definition access_key (k : jstr) : bool := str_eqb k (js "pricing") || str_eqb k (js "rankings").

(** [result.pricing], [result.rankings]. *)
Definition access_or_open (v : option nav_value) : HeaderNavAccessConfig :=
  match v with Some (NavAccess a) => a | _ => OPEN_ACCESS end.

Section parsers.
Context {LC : LowerCase}.

Definition toBoolean (value : option json) (fallback : bool) : bool :=
  match value with
  | Some (JBool b) => b
  | Some (JNum x) => num_eqb x (num_of_Z 1)
  | Some (JStr s) =>
    let normalized := toLowerCase (trim s) in
    if str_eqb normalized (js "true") || str_eqb normalized (js "1") then true
    else if str_eqb normalized (js "false") || str_eqb normalized (js "0") then false
    else fallback
  | _ => fallback
  end.

Definition parseAccessModule (raw : json) (fallback : HeaderNavAccessConfig) : HeaderNavAccessConfig :=
  match raw with
  | JBool _ | JStr _ | JNum _ =>
    {| enabled := toBoolean (Some raw) (enabled fallback); requireAuth := requireAuth fallback |}
  | JArr _ | JObj _ =>
    {| enabled := toBoolean (prop (js "enabled") raw) (enabled fallback);
       requireAuth := toBoolean (prop (js "requireAuth") raw) (requireAuth fallback) |}
  | JNull => fallback
  end.

(** [Boolean(base[key])]: an inherited property is a function or an object. *)
Definition base_truthy (base : HeaderNavModulesConfig) (key : jstr) : bool :=
  match obj_get key base with
  | Some (NavFlag b) => b
  | Some (NavAccess _) => true
  | None => bool_decide (key ∈ object_prototype)
  end.

(** The value that one entry of the stored object writes to its key, if any. *)
Definition header_nav_entry (base : HeaderNavModulesConfig) (key : jstr)
    (_ : option nav_value) (raw : json) : option nav_value :=
  if access_key key then Some (NavAccess (parseAccessModule raw (access_or_open (obj_get key base))))
  else if is_proto key then None
  else match raw with
  | JBool b => Some (NavFlag b)
  | JStr _ | JNum _ => Some (NavFlag (toBoolean (Some raw) (base_truthy base key)))
  | _ => None
  end.

(** [Object.entries(null)] throws inside the [try]. *)
Definition parseHeaderNavModules (value : option jstr) : HeaderNavModulesConfig :=
  let base := HEADER_NAV_DEFAULT in
  match value with
  | None | Some [] => base
  | Some v =>
    match json_parse v with
    | None | Some JNull => base
    | Some parsed => foldl (obj_update (header_nav_entry base)) base (own_props parsed)
    end
  end.

(** *** The sidebar *)

Definition cloneSidebarDefault : SidebarModulesAdminConfig :=
  foldl (λ acc sc, obj_set acc sc.1 sc.2) [] SIDEBAR_MODULES_DEFAULT.

(** The body of the loop over the modules of one stored section. *)
Definition module_entry (defaultSection : SidebarSectionConfig) (moduleKey : jstr)
    (_ : option bool) (moduleValue : json) : option bool :=
  if str_eqb moduleKey (js "enabled") || is_proto moduleKey then None
  else Some (toBoolean (Some moduleValue) (default true (obj_get moduleKey defaultSection))).

Definition parse_section (defaultSection : SidebarSectionConfig) (raw : json) : SidebarSectionConfig :=
  foldl (obj_update (module_entry defaultSection))
    [(js "enabled",
      toBoolean (prop (js "enabled") raw) (default true (obj_get (js "enabled") defaultSection)))]
    (own_props raw).

(** The body of the loop over the stored sections. *)
Definition section_entry (defaults : SidebarModulesAdminConfig) (sectionKey : jstr)
    (_ : option SidebarSectionConfig) (raw : json) : option SidebarSectionConfig :=
  if is_proto sectionKey then None
  else match raw with
  | JArr _ | JObj _ =>
    Some (parse_section (default [(js "enabled", true)] (obj_get sectionKey defaults)) raw)
  | _ => None
  end.

(** A stored section named [__proto__] becomes the prototype of the result. *)
Definition inherited_section (parsed : json) : SidebarSectionConfig :=
  match obj_get (js "__proto__") (own_props parsed) with
  | Some ((JArr _ | JObj _) as raw) => parse_section [(js "enabled", true)] raw
  | _ => []
  end.

(** [moduleKey in result[sectionKey]] throws when that is an inherited [true]. *)
Definition reads_inherited (inherited : SidebarSectionConfig) (result defaults : SidebarModulesAdminConfig) : bool :=
  existsb (λ sc, match obj_get sc.1 result, obj_get sc.1 inherited with
                 | None, Some true => true
                 | _, _ => false
                 end) defaults.

(** The modules of a default section that the stored one does not have. *)
Definition fill_module (_ : jstr) (current : option bool) (moduleValue : bool) : option bool :=
  match current with None => Some moduleValue | Some _ => None end.

Definition fill_section (_ : jstr) (current : option SidebarSectionConfig)
    (config : SidebarSectionConfig) : option SidebarSectionConfig :=
  match current with
  | None => Some config
  | Some section => Some (foldl (obj_update fill_module) section config)
  end.

Definition parseSidebarModulesAdmin (value : option jstr) : SidebarModulesAdminConfig :=
  let defaults := cloneSidebarDefault in
  match value with
  | None => defaults
  | Some v =>
    if str_eqb (trim v) [] then defaults
    else match json_parse v with
    | None | Some JNull => defaults
    | Some parsed =>
      let result := foldl (obj_update (section_entry defaults)) [] (own_props parsed) in
      if reads_inherited (inherited_section parsed) result defaults then defaults
      else foldl (obj_update fill_section) result defaults
    end
  end.
End parsers.

(** ** Printing *)

Definition access_json (a : HeaderNavAccessConfig) : json :=
  JObj [(js "enabled", JBool (enabled a)); (js "requireAuth", JBool (requireAuth a))].

Definition nav_value_json (v : nav_value) : json :=
  match v with NavFlag b => JBool b | NavAccess a => access_json a end.

Definition serializeHeaderNavModules (config : HeaderNavModulesConfig) : jstr :=
  stringify (JObj (prod_map id nav_value_json <$> config)).

Definition section_json (s : SidebarSectionConfig) : json := JObj (prod_map id JBool <$> s).

Definition serializeSidebarModulesAdmin (config : SidebarModulesAdminConfig) : jstr :=
  stringify (JObj (prod_map id section_json <$> config)).

(** ** Well-formed configurations *)

(** Access records sit at the two access keys, booleans everywhere else. *)
Definition typed_entry (kv : jstr * nav_value) : Prop :=
  match kv.2 with NavAccess _ => access_key kv.1 = true | NavFlag _ => access_key kv.1 = false end.

(** The TypeScript type of a header configuration: every default key is there. *)
Definition header_typed (c : HeaderNavModulesConfig) : Prop :=
  Forall typed_entry c ∧ ∀ k, k ∈ map fst HEADER_NAV_DEFAULT → k ∈ map fst c.

Definition header_ok (c : HeaderNavModulesConfig) : Prop :=
  ordered c ∧ Forall regular (map fst c) ∧ header_typed c.

Definition section_ok (s : SidebarSectionConfig) : Prop :=
  ordered s ∧ Forall regular (map fst s) ∧ js "enabled" ∈ map fst s.

(** Every section and module that [d] names is in [c]. *)
Definition covers (d c : SidebarModulesAdminConfig) : Prop :=
  ∀ s ds, obj_get s d = Some ds → ∃ cs, obj_get s c = Some cs ∧ ∀ m, m ∈ map fst ds → m ∈ map fst cs.

Definition sidebar_ok (c : SidebarModulesAdminConfig) : Prop :=
  ordered c ∧ Forall regular (map fst c) ∧ Forall (λ kv, section_ok kv.2) c ∧
  covers SIDEBAR_MODULES_DEFAULT c.

(** Equality of objects up to the order of their properties. *)
Definition same_flags (x y : SidebarSectionConfig) : Prop := ∀ m, obj_get m x = obj_get m y.

Definition same_sections (c c' : SidebarModulesAdminConfig) : Prop :=
  ∀ s, option_Forall2 same_flags (obj_get s c) (obj_get s c').

#[export] Instance same_flags_equiv : Equivalence same_flags.
Proof. split; [by intros x m|by intros x y H m|intros x y z H H' m; by rewrite H, H']. Qed.

(** What a stored text says about a module: on unless the section is an object
    whose flag reads as false. *)
Definition stored_flag {LC : LowerCase} (parsed : json) (s m : jstr) : bool :=
  match prop s parsed with
  | Some (JObj o) => toBoolean (obj_get m o) true
  | _ => true
  end.

(** A configuration with one section switched off, one module switched off, one
    section of a plugin and a numeric section name. *)
Definition demo_sidebar : SidebarModulesAdminConfig :=
  [(js "7", [(js "enabled", true)]);
   (js "chat", [(js "enabled", false); (js "playground", true); (js "chat", true)]);
   (js "console", [(js "enabled", true); (js "detail", true); (js "token", true);
                   (js "log", false); (js "midjourney", true); (js "task", true)]);
   (js "personal", [(js "enabled", true); (js "topup", true); (js "personal", true)]);
   (js "admin", [(js "enabled", true); (js "channel", true); (js "models", true);
                 (js "redemption", true); (js "user", true); (js "setting", true);
                 (js "subscription", true)]);
   (js "plugin", [(js "enabled", true); (js "x y", false)])].

Definition demo_header : HeaderNavModulesConfig :=
  [(js "home", NavFlag true); (js "console", NavFlag false);
   (js "pricing", NavAccess {| enabled := true; requireAuth := true |});
   (js "rankings", NavAccess {| enabled := false; requireAuth := false |});
   (js "docs", NavFlag true); (js "about", NavFlag true); (js "blog", NavFlag false)].

(** ** Helper lemmas *)
Lemma obj_get_in {A} k (l : list (jstr * A)) : k ∈ map fst l → is_Some (obj_get k l).
Proof.
  intros ([j v] & -> & H)%list_elem_of_fmap. induction l as [|[i w] l IH]; [by apply elem_of_nil in H|].
  cbn [obj_get fst]. destruct (str_eqb i j) eqn:E; [done|].
  apply elem_of_cons in H as [[= -> ->]|H]; [|by apply IH]. unfold str_eqb in E. by case_bool_decide.
Qed.

Lemma in_obj_get {A} k (l : list (jstr * A)) v : obj_get k l = Some v → k ∈ map fst l.
Proof. intros H%obj_get_elem. apply list_elem_of_fmap. by exists (k, v). Qed.

Lemma obj_set_in {A} (l : list (jstr * A)) k v j : j ∈ map fst l → j ∈ map fst (obj_set l k v).
Proof.
  intros Hj. destruct (decide (k ∈ map fst l)); [by rewrite obj_set_keys|].
  rewrite obj_set_new, obj_place_keys by done. by right.
Qed.

Lemma regular_proto k : regular k → is_proto k = false.
Proof.
  intros [_ Hk]. unfold is_proto, str_eqb. apply bool_decide_eq_false_2. intros ->. apply Hk.
  apply (bool_decide_eq_true_1 _). by vm_compute.
Qed.

(** A name that is not a numeral is looked up among object properties only. *)
Lemma own_props_get k v : forallb is_digit k = false → obj_get k (own_props v) = prop k v.
Proof.
  intros Hk. assert (∀ A (f : A → json) l, obj_get k (indexed f l) = None) as Hi.
  { intros A f l. apply obj_get_none. intros (kv & -> & Hin)%list_elem_of_fmap. revert Hk. unfold indexed in Hin.
    apply elem_of_lookup_imap in Hin as (i & x & -> & _). cbn [fst].
    pose proof (dec_digits (N.of_nat i)) as H. apply forallb_Forall in H. congruence. }
  destruct v; cbn [own_props prop]; done || apply Hi.
Qed.

(** A blank text is no JSON text. *)
Lemma json_wf_prop k v w : json_wf v → prop k v = Some w → json_wf w.
Proof.
  destruct 1 as [| | | | |l _ Hl]; cbn [prop]; try done. intros H%obj_get_elem.
  rewrite Forall_forall in Hl. exact (Hl _ H).
Qed.

(** Decision procedures for the conditions on concrete configurations. *)
Definition key_beforeb (k k' : jstr) : bool :=
  match array_index k, array_index k' with
  | Some i, Some j => (i <? j)%N
  | None, Some _ => false
  | _, None => true
  end.

Fixpoint sortedb (ks : list jstr) : bool :=
  match ks with [] => true | k :: ks => forallb (key_beforeb k) ks && sortedb ks end.

Lemma ordered_dec {A} (l : list (jstr * A)) :
  bool_decide (NoDup (map fst l)) && sortedb (map fst l) = true → ordered l.
Proof.
  intros [H1 H2]%andb_true_iff. boolify. split; [done|]. clear H1. induction (map fst l) as [|k ks IH]; [constructor|].
  cbn [sortedb] in H2. boolify. constructor; [by apply IH|]. apply forallb_Forall in H.
  eapply Forall_impl; [exact H|]. intros j. unfold key_before, key_beforeb.
  destruct (array_index k), (array_index j); try done. apply N.ltb_lt.
Qed.

Lemma regular_dec ks :
  forallb (λ k, forallb (λ c, c <? 65536)%N k && bool_decide (k ∉ object_prototype)) ks = true →
  Forall regular ks.
Proof.
  intros H%forallb_Forall. eapply Forall_impl; [exact H|]. intros k Hk. cbv beta in Hk. boolify.
  split; [by apply code_units_b|done].
Qed.

Lemma incl_dec (ks ks' : list jstr) k :
  forallb (λ k, bool_decide (k ∈ ks')) ks = true → k ∈ ks → k ∈ ks'.
Proof. intros H%forallb_Forall Hk. rewrite Forall_forall in H. apply H in Hk. by boolify. Qed.

(** The printed object of a mapped property list reads back. *)
Lemma json_ok_map {A} (f : A → json) (c : list (jstr * A)) :
  ordered c → Forall regular (map fst c) → Forall (λ kv, json_ok (f kv.2)) c →
  json_ok (JObj (prod_map id f <$> c)).
Proof.
  intros Ho Hr Hv. constructor.
  - rewrite Forall_fmap. apply Forall_forall. intros [k v] Hin. cbn. rewrite Forall_forall in Hr.
    apply Hr, list_elem_of_fmap. by exists (k, v).
  - by rewrite Forall_fmap.
  - apply mk_obj_ordered. unfold ordered. by rewrite map_fst_prod_map.
Qed.

Lemma stringify_obj_cons l : ∃ t, stringify (JObj l) = 123%N :: t.
Proof. eexists. rewrite <- (app_nil_r (stringify _)), stringify_obj. done. Qed.

Lemma demo_header_ok : header_ok demo_header.
Proof.
  split; [by apply ordered_dec|]. split; [by apply regular_dec|]. split; [by repeat constructor|].
  intros k. apply incl_dec. by vm_compute.
Qed.

Lemma demo_sidebar_ok : sidebar_ok demo_sidebar.
Proof.
  split; [by apply ordered_dec|]. split; [by apply regular_dec|]. split.
  - apply Forall_forall. intros [k s] Hs.
    assert (forallb (λ ks : jstr * SidebarSectionConfig, bool_decide (NoDup (map fst ks.2)) && sortedb (map fst ks.2) &&
      forallb (λ k, forallb (λ c, c <? 65536)%N k && bool_decide (k ∉ object_prototype)) (map fst ks.2) &&
      bool_decide (js "enabled" ∈ map fst ks.2)) demo_sidebar = true) as H by by vm_compute.
    apply forallb_Forall in H. rewrite Forall_forall in H. specialize (H _ Hs). cbn [snd] in *. boolify.
    split; [apply ordered_dec; by rewrite bool_decide_eq_true_2|]. split; [by apply regular_dec|done].
  - intros s ds Hs.
    assert (forallb (λ sd : jstr * SidebarSectionConfig, match obj_get sd.1 demo_sidebar with
      | Some cs => forallb (λ k, bool_decide (k ∈ map fst cs)) (map fst sd.2) | None => false end)
      SIDEBAR_MODULES_DEFAULT = true) as H by by vm_compute.
    apply forallb_Forall in H. rewrite Forall_forall in H. apply obj_get_elem, H in Hs. cbn [fst snd] in Hs.
    destruct (obj_get s demo_sidebar) as [cs|]; [|done]. exists cs. split; [done|].
    intros m. by apply incl_dec.
Qed.

Section theorems.
Context {LC : LowerCase}.

Lemma parse_access_printed a fb : parseAccessModule (access_json a) fb = a.
Proof. destruct a. cbn [access_json parseAccessModule]. by vm_compute. Qed.

Lemma header_entry_printed base k o v :
  regular k → typed_entry (k, v) → header_nav_entry base k o (nav_value_json v) = Some v.
Proof.
  intros Hr%regular_proto. unfold header_nav_entry, typed_entry. rewrite Hr. cbn [fst snd].
  destruct v as [b|a]; intros ->; [done|]. cbn [nav_value_json]. by rewrite parse_access_printed.
Qed.

Lemma header_nav_json_ok c : header_ok c → json_ok (JObj (prod_map id nav_value_json <$> c)).
Proof.
  intros (Ho & Hr & _). apply json_ok_map; [done|done|]. apply Forall_forall. intros [k [b|a]] _; [constructor|].
  cbn [snd nav_value_json]. constructor; [|by repeat constructor|by vm_compute].
  apply (bool_decide_unpack _). by vm_compute.
Qed.

(** The object a printed configuration is read from. *)
Lemma header_nav_printed c :
  header_ok c → json_parse (serializeHeaderNavModules c) = Some (JObj (prod_map id nav_value_json <$> c)).
Proof. intros. by apply json_parse_stringify, header_nav_json_ok. Qed.

Lemma header_fold_get g c base k :
  header_ok c → (∀ k o v, regular k → typed_entry (k, v) → g k o (nav_value_json v) = Some v) →
  map fst base = map fst HEADER_NAV_DEFAULT →
  obj_get k (foldl (obj_update g) base (prod_map id nav_value_json <$> c)) = obj_get k c.
Proof.
  intros ([Hnd _] & Hr & Ht & Hd) Hg Hb. rewrite obj_get_update by by rewrite map_fst_prod_map.
  rewrite obj_get_map. destruct (obj_get k c) as [v|] eqn:E; cbn [fmap option_fmap option_map mbind option_bind].
  - rewrite Forall_forall in Ht. pose proof (proj1 (Forall_forall _ _) Hr k (in_obj_get _ _ _ E)) as Hk.
    rewrite Hg; [done|done|by apply Ht, obj_get_elem].
  - apply obj_get_none. rewrite Hb. intros [v Hv]%Hd%obj_get_in. congruence.
Qed.

(** Saving the header navigation and opening the settings page again shows
    the configuration that was saved: for every configuration of the declared
    type, reading the printed text gives every module its saved value. *)
Theorem header_nav_saved c k :
  header_ok c →
  obj_get k (parseHeaderNavModules (Some (serializeHeaderNavModules c))) = obj_get k c.
Proof.
  intros Hc. pose proof (header_nav_printed c Hc) as Hp. unfold parseHeaderNavModules.
  destruct (stringify_obj_cons (prod_map id nav_value_json <$> c)) as [t Ht].
  unfold serializeHeaderNavModules in *. rewrite Ht in *. rewrite Hp. cbn [own_props].
  apply header_fold_get; [done| |done]. apply header_entry_printed.
Qed.

(** Whatever text is stored, blank, broken or with entries of any kind, the
    settings page works on a header configuration of the declared type: all six
    default modules are there, [pricing] and [rankings] as access records and
    every other entry as a boolean. *)
Theorem header_nav_typed value : header_typed (parseHeaderNavModules value).
Proof.
  assert (header_typed HEADER_NAV_DEFAULT) as Hd by (split; [by repeat constructor|done]).
  unfold parseHeaderNavModules. destruct value as [[|c v]|]; [done| |done].
  destruct (json_parse (c :: v)) as [parsed|]; [|done].
  assert (∀ l base, header_typed base → header_typed (foldl (obj_update (header_nav_entry HEADER_NAV_DEFAULT)) base l)) as Hf.
  { induction l as [|[k raw] l IH]; intros base Hb; [done|]. apply IH. unfold obj_update. cbn [fst snd].
    destruct (header_nav_entry _ _ _ raw) as [v'|] eqn:E; [|done]. destruct Hb as [Ht Hk].
    assert (typed_entry (k, v')) as Hv'.
    { unfold header_nav_entry in E. unfold typed_entry. cbn [fst snd].
      destruct (access_key k) eqn:Ek; [by simplify_eq|]. destruct (is_proto k); [done|].
      by destruct raw; simplify_eq. }
    split; [by apply obj_set_Forall|]. intros j Hj%Hk. by apply obj_set_in. }
  destruct parsed; [done|by apply Hf..].
Qed.

(** *** The sidebar *)
Lemma clone_default : cloneSidebarDefault = SIDEBAR_MODULES_DEFAULT.
Proof. by vm_compute. Qed.

Lemma parse_section_printed d s : section_ok s → same_flags (parse_section d (section_json s)) s.
Proof.
  intros ([Hnd _] & Hr & He) m. unfold parse_section, section_json. cbn [own_props prop].
  rewrite obj_get_update by by rewrite map_fst_prod_map. rewrite !obj_get_map.
  apply obj_get_in in He as [e He]. rewrite He. cbn [fmap option_fmap option_map toBoolean obj_get].
  unfold module_entry. destruct (str_eqb m (js "enabled")) eqn:E.
  - unfold str_eqb in *. boolify. subst m. rewrite He. cbn [fmap option_fmap option_map mbind option_bind].
    by rewrite bool_decide_eq_true_2.
  - destruct (obj_get m s) as [b|] eqn:Em; cbn [fmap option_fmap option_map mbind option_bind orb].
    { by rewrite regular_proto by by (rewrite Forall_forall in Hr; eapply Hr, in_obj_get). }
    unfold str_eqb in *. boolify. by rewrite bool_decide_eq_false_2 by congruence.
Qed.

Lemma section_entry_printed defaults s o x :
  regular s →
  section_entry defaults s o (section_json x)
  = Some (parse_section (default [(js "enabled", true)] (obj_get s defaults)) (section_json x)).
Proof. intros Hs. unfold section_entry. by rewrite regular_proto. Qed.

Lemma sidebar_json_ok c : sidebar_ok c → json_ok (JObj (prod_map id section_json <$> c)).
Proof.
  intros (Ho & Hr & Hs & _). apply json_ok_map; [done|done|]. eapply Forall_impl; [exact Hs|].
  intros [k s] (Hos & Hrs & _). apply json_ok_map; [done|done|]. apply Forall_forall. intros. constructor.
Qed.

Lemma default_nodup s d : obj_get s SIDEBAR_MODULES_DEFAULT = Some d → NoDup (map fst d).
Proof.
  intros H%obj_get_elem.
  assert (Forall (λ sd, NoDup (map fst sd.2)) SIDEBAR_MODULES_DEFAULT) as Hd
    by (apply (bool_decide_unpack _); by vm_compute).
  rewrite Forall_forall in Hd. exact (Hd _ H).
Qed.

(** Filling in the defaults keeps what the section already has. *)
Lemma fill_modules_get d s m :
  NoDup (map fst d) →
  obj_get m (foldl (obj_update fill_module) s d)
  = match obj_get m s with Some b => Some b | None => obj_get m d end.
Proof.
  intros Hd. rewrite obj_get_update by done. unfold fill_module.
  destruct (obj_get m s), (obj_get m d); done.
Qed.

Lemma fill_sections_get c s :
  obj_get s (foldl (obj_update fill_section) c SIDEBAR_MODULES_DEFAULT)
  = match obj_get s SIDEBAR_MODULES_DEFAULT with
    | Some d => Some (match obj_get s c with
                      | Some x => foldl (obj_update fill_module) x d
                      | None => d
                      end)
    | None => obj_get s c
    end.
Proof.
  rewrite obj_get_update by (apply (bool_decide_unpack _); by vm_compute). unfold fill_section.
  destruct (obj_get s SIDEBAR_MODULES_DEFAULT); [|done]. cbn [mbind option_bind].
  by destruct (obj_get s c).
Qed.

Lemma reads_inherited_nil c d : reads_inherited [] c d = false.
Proof. apply existsb_false, Forall_forall. intros [s x] _. cbn [obj_get fst]. by destruct (obj_get s c). Qed.

Lemma sidebar_read_text v parsed :
  json_parse v = Some parsed → parsed ≠ JNull → prop (js "__proto__") parsed = None →
  parseSidebarModulesAdmin (Some v)
  = foldl (obj_update fill_section)
      (foldl (obj_update (section_entry SIDEBAR_MODULES_DEFAULT)) [] (own_props parsed))
      SIDEBAR_MODULES_DEFAULT.
Proof.
  intros Hp Hn Hproto. unfold parseSidebarModulesAdmin. rewrite clone_default, Hp.
  assert (inherited_section parsed = []) as Hi.
  { unfold inherited_section. by rewrite own_props_get, Hproto. }
  destruct (str_eqb (trim v) []) eqn:E.
  { exfalso. unfold str_eqb in E. boolify. by rewrite (json_parse_blank v) in Hp. }
  destruct parsed; [done|cbv zeta; by rewrite Hi, reads_inherited_nil..].
Qed.

(** Saving the sidebar modules and opening the settings page again shows the
    configuration that was saved: reading the printed text gives every section
    and every module its saved flag, and nothing else appears. *)
Theorem sidebar_saved c :
  sidebar_ok c →
  same_sections (parseSidebarModulesAdmin (Some (serializeSidebarModulesAdmin c))) c.
Proof.
  intros Hc s. unfold serializeSidebarModulesAdmin.
  erewrite sidebar_read_text; [|by apply json_parse_stringify, sidebar_json_ok|done|].
  2: { cbn [prop]. rewrite obj_get_map. destruct Hc as (_ & Hr & _).
       destruct (obj_get (js "__proto__") c) eqn:Ep; [|done]. exfalso.
       by pose proof (regular_proto _ (proj1 (Forall_forall _ _) Hr _ (in_obj_get _ _ _ Ep))). }
  rewrite fill_sections_get. cbn [own_props]. destruct Hc as ([Hnd _] & Hr & Hs & Hcov).
  rewrite obj_get_update by by rewrite map_fst_prod_map. rewrite obj_get_map.
  destruct (obj_get s c) as [x|] eqn:E; cbn [fmap option_fmap option_map mbind option_bind obj_get].
  - assert (section_ok x) as Hx by (rewrite Forall_forall in Hs; by eapply (Hs (s, x)), obj_get_elem).
    rewrite section_entry_printed by exact (proj1 (Forall_forall _ _) Hr _ (in_obj_get _ _ _ E)).
    destruct (obj_get s SIDEBAR_MODULES_DEFAULT) as [d|] eqn:Ed; [|constructor; by apply parse_section_printed].
    constructor. intros m. rewrite fill_modules_get by by eapply default_nodup.
    rewrite (parse_section_printed _ x Hx m). destruct (obj_get m x) eqn:Em; [done|].
    apply obj_get_none. intros Hm. destruct (Hcov s d Ed) as (x' & Hx' & Hin).
    simplify_eq. apply Hin, obj_get_in in Hm as [? ?]. congruence.
  - destruct (obj_get s SIDEBAR_MODULES_DEFAULT) as [d|] eqn:Ed; [|constructor].
    destruct (Hcov s d Ed) as (x & Hx & _). congruence.
Qed.

Lemma default_flags s d m b :
  obj_get s SIDEBAR_MODULES_DEFAULT = Some d → obj_get m d = Some b →
  b = true ∧ forallb is_digit s = false ∧ forallb is_digit m = false ∧ is_proto s = false ∧ is_proto m = false.
Proof.
  intros H1%obj_get_elem H2%obj_get_elem.
  assert (Forall (λ sd : jstr * SidebarSectionConfig, Forall (λ mb : jstr * bool, mb.2 = true ∧
    forallb is_digit sd.1 = false ∧ forallb is_digit mb.1 = false ∧ is_proto sd.1 = false ∧ is_proto mb.1 = false) sd.2) SIDEBAR_MODULES_DEFAULT) as Hd
    by (apply (bool_decide_unpack _); by vm_compute).
  rewrite Forall_forall in Hd. specialize (Hd _ H1). rewrite Forall_forall in Hd. exact (Hd _ H2).
Qed.

Lemma parse_section_get s d m b raw :
  obj_get s SIDEBAR_MODULES_DEFAULT = Some d → obj_get m d = Some b → json_wf raw →
  default true (obj_get m (parse_section d raw)) = toBoolean (prop m raw) true ∧
  (obj_get m (parse_section d raw) = None → toBoolean (prop m raw) true = true).
Proof.
  intros Hs Hm Hw. destruct (default_flags s d m b Hs Hm) as (-> & _ & Hmd & _ & Hmp).
  unfold parse_section. rewrite obj_get_update, own_props_get by first [done|by apply own_props_nodup].
  unfold module_entry. cbn [obj_get]. destruct (str_eqb m (js "enabled")) eqn:E.
  - unfold str_eqb in *. boolify. subst m. rewrite Hm.
    destruct (prop (js "enabled") raw) eqn:Ep; cbn [mbind option_bind]; rewrite bool_decide_eq_true_2 by done; done.
  - assert (str_eqb (js "enabled") m = false) as -> by (unfold str_eqb in *; boolify; by rewrite bool_decide_eq_false_2 by congruence).
    rewrite Hm, Hmp. destruct (prop m raw); done.
Qed.

(** Whatever JSON text is stored, the settings page shows every default
    section with every default module, each one switched off exactly when the
    text has an object for the section whose entry for the module reads as
    false (unless the text has an entry named [__proto__], which the language
    treats specially); a blank text or one that is not JSON gives the default
    configuration. *)
Theorem sidebar_settings_read v :
  match json_parse v with
  | None | Some JNull => parseSidebarModulesAdmin (Some v) = SIDEBAR_MODULES_DEFAULT
  | Some parsed => prop (js "__proto__") parsed = None → ∀ s d m b,
      obj_get s SIDEBAR_MODULES_DEFAULT = Some d → obj_get m d = Some b →
      ∃ x, obj_get s (parseSidebarModulesAdmin (Some v)) = Some x ∧
           obj_get m x = Some (stored_flag parsed s m)
  end.
Proof.
  destruct (json_parse v) as [parsed|] eqn:Hp.
  2: { unfold parseSidebarModulesAdmin. rewrite Hp, clone_default. by destruct (str_eqb _ _). }
  destruct (match parsed with JNull => true | _ => false end) eqn:Hnull.
  { destruct parsed; try done. unfold parseSidebarModulesAdmin. rewrite Hp, clone_default. by destruct (str_eqb _ _). }
  assert (prop (js "__proto__") parsed = None → ∀ s d m b,
      obj_get s SIDEBAR_MODULES_DEFAULT = Some d → obj_get m d = Some b →
      ∃ x, obj_get s (parseSidebarModulesAdmin (Some v)) = Some x ∧
           obj_get m x = Some (stored_flag parsed s m)) as H; [|by destruct parsed].
  assert (parsed ≠ JNull) as Hn by by intros ->. intros Hpr s d m b Hs Hm. destruct (default_flags s d m b Hs Hm) as (-> & Hsd & Hmd & Hsp & _).
  pose proof (json_parse_wf _ _ Hp) as Hw. rewrite (sidebar_read_text _ _ Hp Hn Hpr), fill_sections_get, Hs.
  eexists. split; [done|]. rewrite obj_get_update, own_props_get by first [done|by apply own_props_nodup].
  unfold stored_flag. destruct (prop s parsed) as [raw|] eqn:Er; cbn [mbind option_bind obj_get]; [|done].
  assert (json_wf raw) as Hwr by by eapply json_wf_prop.
  unfold section_entry. rewrite Hs, Hsp. cbn [default].
  destruct (parse_section_get s d m true raw Hs Hm Hwr) as [Hg Hg'].
  assert (obj_get m (foldl (obj_update fill_module) (parse_section d raw) d)
          = Some (toBoolean (prop m raw) true)) as Hf.
  { rewrite fill_modules_get by by eapply default_nodup.
    destruct (obj_get m (parse_section d raw)); [by rewrite <- Hg|].
    by rewrite Hg' by done. }
  destruct raw; try exact Hm; exact Hf.
Qed.
End theorems.

(** ** Instances of the theorems on concrete data *)

#[local] Existing Instance ascii_lower_case.

Theorem header_nav_saved_witness :
  obj_get (js "pricing") (parseHeaderNavModules (Some (serializeHeaderNavModules demo_header)))
  = Some (NavAccess {| enabled := true; requireAuth := true |}).
Proof. rewrite (header_nav_saved demo_header _ demo_header_ok). by vm_compute. Defined.

Theorem sidebar_saved_witness :
  same_sections (parseSidebarModulesAdmin (Some (serializeSidebarModulesAdmin demo_sidebar))) demo_sidebar.
Proof. exact (sidebar_saved demo_sidebar demo_sidebar_ok). Defined.

Theorem sidebar_settings_read_witness :
  ∃ x, obj_get (js "chat") (parseSidebarModulesAdmin (Some (jq "{'chat':{'playground':0},'x':[1]}"))) = Some x ∧
       obj_get (js "playground") x = Some false.
Proof.
  pose proof (sidebar_settings_read (jq "{'chat':{'playground':0},'x':[1]}")) as H.
  destruct (json_parse _) as [parsed|] eqn:E; [|vm_compute in E; discriminate E].
  vm_compute in E. injection E as <-.
  exact (H eq_refl (js "chat") _ (js "playground") _ eq_refl eq_refl).
Defined.
