(* ===== verification/ModelPricing.v ===== *)
(** * The table of model prices

    Model of [model-ratio-visual-editor.tsx] in
    [web/default/src/features/system-settings/models]: ten stored JSON texts, one per
    setting, shown as one row per model, and the handlers that rewrite all ten texts
    when the prices of a model are saved, copied or deleted.

    A stored text is expected to hold an object; [read_maps] is [None] when one of
    them is another JSON value, for which the behaviour is not modelled. *)

From S2P Require Import Prelude JsString JsNumber Json JsonPretty SettingsJson BillingExpr BillingRules BillingRoundtrip Pricing.
From S2P Require Import PricingSheet Maintenance.
From Stdlib Require Import NArith ZArith SpecFloat.

(** ** Stored texts *)

(** The ten settings, in the order in which they are read and written. *)
Inductive setting := SField (f : ratio_field) | SBillingMode | SBillingExpr.

Definition ratio_fields : list ratio_field :=
  [FPrice; FRatio; FCacheRatio; FCreateCacheRatio; FCompletionRatio; FImageRatio; FAudioRatio; FAudioCompletionRatio].

Definition all_settings : list setting := map SField ratio_fields ++ [SBillingMode; SBillingExpr].

Definition texts : Type := setting → jstr.
Definition maps : Type := setting → list (jstr * json).

Definition read_maps (t : texts) : option maps :=
  if forallb (λ s, match map_of (t s) with Some _ => true | None => false end) all_settings
  then Some (λ s, default [] (map_of (t s))) else None.

(** The ten calls of [onChange]. *)
Definition write_maps (m : maps) : texts := λ s, stringify_pretty (JObj (m s)).

(** ** Rows *)

Record ModelRow := {
  r_name : jstr;
  r_value : ratio_field → jstr;
  r_billingMode : PricingMode;
  r_billingExpr : jstr;
  r_requestRuleExpr : jstr;
  r_hasConflict : bool;
}.

(** Rows and the data of the sheet are compared field by field. *)
#[export] Instance row_equiv : Equiv ModelRow := λ a b,
  r_name a = r_name b ∧ (∀ f, r_value a f = r_value b f) ∧ r_billingMode a = r_billingMode b ∧
  r_billingExpr a = r_billingExpr b ∧ r_requestRuleExpr a = r_requestRuleExpr b ∧ r_hasConflict a = r_hasConflict b.

#[export] Instance row_equivalence : Equivalence (≡@{ModelRow}).
Proof.
  split.
  - intros a. split_and!; done.
  - intros a b (? & Hv & ? & ? & ? & ?). split_and!; try done.
  - intros a b c (? & Hv & ? & ? & ? & ?) (? & Hw & ? & ? & ? & ?). split_and!; try congruence.
Qed.

#[export] Instance exn_equiv {A} `{Equiv A} : Equiv (exn A) := λ a b,
  match a, b with Ret x, Ret y => x ≡ y | Throw, Throw => True | _, _ => False end.

(** Whether any price other than the fixed one is set. *)
Definition token_priced (v : ratio_field → jstr) : bool :=
  existsb (λ f, nonempty (v f))
    [FRatio; FCompletionRatio; FCacheRatio; FCreateCacheRatio; FImageRatio; FAudioRatio; FAudioCompletionRatio].

Definition plain_row (name : jstr) (v : ratio_field → jstr) : ModelRow := {|
  r_name := name; r_value := v;
  r_billingMode := if nonempty (v FPrice) then PerRequest else PerToken;
  r_billingExpr := []; r_requestRuleExpr := [];
  r_hasConflict := nonempty (v FPrice) && token_priced v |}.

Definition tiered_row (name : jstr) (v : ratio_field → jstr) (e : SplitExpr) : ModelRow := {|
  r_name := name; r_value := v; r_billingMode := TieredExpr;
  r_billingExpr := billingExpr e; r_requestRuleExpr := requestRuleExpr e; r_hasConflict := false |}.

Section rows.
Context `{Collation}.
(** The text of a method that every object inherits, such as [toString]. *)
Variable native : jstr → jstr.

(** [map[name]?.toString() || '']. *)
Definition read_text (o : list (jstr * json)) (name : jstr) : exn jstr :=
  match obj_get name o with
  | Some JNull => Ret []
  | Some v => js_string v
  | None => Ret (if inherited name then native name else [])
  end.

Definition read_values (m : maps) (name : jstr) : exn (ratio_field → jstr) :=
  if forallb (λ f, match read_text (m (SField f)) name with Ret _ => true | Throw => false end) ratio_fields
  then Ret (λ f, match read_text (m (SField f)) name with Ret s => s | Throw => [] end) else Throw.

Definition is_tiered (m : maps) (name : jstr) : bool :=
  match obj_get name (m SBillingMode) with Some (JStr s) => str_eqb s (js "tiered_expr") | _ => false end.

(** [splitBillingExprAndRequestRules(map[name] || '')]: only a text has [trim]. *)
Definition split_stored (m : maps) (name : jstr) : exn SplitExpr :=
  match obj_get name (m SBillingExpr) with
  | Some (JStr s) => splitBillingExprAndRequestRules s
  | Some v => if json_truthy v then Throw else splitBillingExprAndRequestRules []
  | None => if inherited name then Throw else splitBillingExprAndRequestRules []
  end.

Definition row_of (m : maps) (name : jstr) : exn ModelRow :=
  v ← read_values m name;
  if is_tiered m name then e ← split_stored m name; Ret (tiered_row name v e) else Ret (plain_row name v).

Definition model_names (m : maps) : list jstr := dedup (concat (map (λ s, map fst (m s)) all_settings)).

Definition models (m : maps) : exn (list ModelRow) :=
  rows ← mapM (row_of m) (model_names m);
  Ret (stable_sort (λ a b, locale_le (r_name a) (r_name b)) rows).

End rows.

(** The number of models of each mode: per token, per request, tiered. *)
Definition modeCounts (rows : list ModelRow) : nat * nat * nat :=
  foldl (λ '(token, request, tiered) row,
    match r_billingMode row with
    | PerRequest => (token, S request, tiered)
    | TieredExpr => (token, request, S tiered)
    | PerToken => (S token, request, tiered)
    end) (0, 0, 0) rows.

(** ** Handlers *)

Definition handleEdit (row : ModelRow) : ModelRatioData := {|
  md_name := r_name row; md_value := r_value row;
  md_billingMode :=
    if bool_decide (r_billingMode row = TieredExpr) then TieredExpr
    else if nonempty (r_value row FPrice) then PerRequest else PerToken;
  md_billingExpr := r_billingExpr row; md_requestRuleExpr := r_requestRuleExpr row |}.

Definition handleDelete (m : maps) (name : jstr) : maps := λ s, obj_delete name (m s).

(** [o[k] = v] with a number or text: [__proto__] keeps its value. *)
Definition assign_prop (o : list (jstr * json)) (k : jstr) (v : json) : list (jstr * json) :=
  if is_proto k then o else obj_set o k v.

Definition setIfPresent (o : list (jstr * json)) (name value : jstr) : list (jstr * json) :=
  if negb (nonempty value) then o
  else let parsed := parseFloat value in
       if is_finite parsed then assign_prop o name (JNum parsed) else o.

Definition persist_name (data : ModelRatioData) (m : maps) (name : jstr) : maps :=
  let m s := obj_delete name (m s) in
  match md_billingMode data with
  | TieredExpr =>
    let combined := combineBillingExpr (md_billingExpr data) (md_requestRuleExpr data) in
    λ s, match s with
         | SField f => setIfPresent (m s) name (md_value data f)
         | SBillingMode => if nonempty combined then assign_prop (m s) name (JStr (js "tiered_expr")) else m s
         | SBillingExpr => if nonempty combined then assign_prop (m s) name (JStr combined) else m s
         end
  | _ =>
    if nonempty (md_value data FPrice) then
      λ s, match s with SField FPrice => setIfPresent (m s) name (md_value data FPrice) | _ => m s end
    else
      λ s, match s with
           | SField FPrice => m s
           | SField f => setIfPresent (m s) name (md_value data f)
           | _ => m s
           end
  end.

Definition persistPricingData (data : ModelRatioData) (targetNames : list jstr) (m : maps) : maps :=
  foldl (persist_name data) m targetNames.

Definition handleSave (data : ModelRatioData) (m : maps) : maps := persistPricingData data [md_name data] m.

(** The message of the notification, and the maps that are written. *)
Definition handleBatchCopy (t : jstr → jstr) (editData : option ModelRatioData) (targetNames : list jstr) (m : maps) : jstr + maps :=
  match editData with
  | None => inl (t (js "Open a source model first"))
  | Some data =>
    match targetNames with
    | [] => inl (t (js "Select at least one target model"))
    | _ => inr (persistPricingData data targetNames m)
    end
  end.

(** ** Summaries *)

Definition ratioToPrice (ratio denominator : jstr) : jstr :=
  match toNumberOrNull ratio, (if nonempty denominator then toNumberOrNull denominator else Some (num_of_Z 2)) with
  | Some ratioNumber, Some denominatorNumber => formatPricingNumber (nmul ratioNumber denominatorNumber)
  | _, _ => []
  end.

(** [(text.match(/tier\(/g) || []).length]. *)
Fixpoint tier_count (text : jstr) : nat :=
  match text with
  | [] => 0
  | _ :: rest => (if prefixb (js "tier(") text then 1 else 0) + tier_count rest
  end.

Section summaries.
Variable t : jstr → jstr.

Definition getExpressionSummary (row : ModelRow) : jstr :=
  let tierCount := tier_count (r_billingExpr row) in
  if (0 <? tierCount) then t (js "Tiered pricing") ++ js " · " ++ dec (N.of_nat tierCount) ++ js " " ++ t (js "tiers")
  else t (js "Expression pricing").

Definition getPriceSummary (row : ModelRow) : jstr :=
  match r_billingMode row with
  | TieredExpr => getExpressionSummary row
  | PerRequest =>
    if nonempty (r_value row FPrice) then js "$" ++ r_value row FPrice ++ js " / " ++ t (js "request")
    else t (js "Unset price")
  | PerToken =>
    let inputPrice := ratioToPrice (r_value row FRatio) [] in
    if negb (nonempty inputPrice) then t (js "Unset price")
    else
      let extraCount := length (List.filter (λ f, nonempty (r_value row f))
        [FCompletionRatio; FCacheRatio; FCreateCacheRatio; FImageRatio; FAudioRatio; FAudioCompletionRatio]) in
      if (0 <? extraCount) then
        t (js "Input") ++ js " $" ++ inputPrice ++ js " · " ++ dec (N.of_nat extraCount) ++ js " " ++ t (js "extras")
      else t (js "Input") ++ js " $" ++ inputPrice
  end.

Definition getPriceDetail (row : ModelRow) : jstr :=
  match r_billingMode row with
  | TieredExpr =>
    if nonempty (r_requestRuleExpr row) then t (js "Includes request rules") else t (js "Expression based")
  | PerRequest => t (js "Fixed request price")
  | PerToken =>
    let inputPrice := ratioToPrice (r_value row FRatio) [] in
    if negb (nonempty inputPrice) then t (js "No base input price")
    else
      let detail label f :=
        if nonempty (r_value row f) then [t (js label) ++ js " $" ++ ratioToPrice (r_value row f) inputPrice] else [] in
      let details := detail "Output" FCompletionRatio ++ detail "Cache" FCacheRatio ++ detail "Cache write" FCreateCacheRatio in
      match details with [] => t (js "Base input price only") | _ => str_join (js " · ") details end
  end.
End summaries.

(** ** Reading what was written *)
Lemma in_all_settings s : s ∈ all_settings.
Proof. destruct s as [[]| |]; unfold all_settings, ratio_fields; cbn [map app]; set_solver. Qed.

Lemma read_written m : (∀ s, json_ok (JObj (m s))) → ∃ m', read_maps (write_maps m) = Some m' ∧ ∀ s, m' s = m s.
Proof.
  intros Hok. unfold read_maps, write_maps.
  rewrite (proj2 (forallb_Forall _ _)); [|apply Forall_forall; intros s _; by rewrite map_of_printed].
  eexists. split; [done|]. intros s. cbn beta. by rewrite map_of_printed.
Qed.

(** ** The entries of a saved model *)

(** A number as it is stored and shown again. *)
Definition canonical (value : jstr) : jstr :=
  if nonempty value && is_finite (parseFloat value) then num_to_string (parseFloat value) else [].

Definition saved_entry (data : ModelRatioData) (s : setting) : option json :=
  let number f :=
    if nonempty (md_value data f) && is_finite (parseFloat (md_value data f))
    then Some (JNum (parseFloat (md_value data f))) else None in
  let combined := combineBillingExpr (md_billingExpr data) (md_requestRuleExpr data) in
  match md_billingMode data, s with
  | TieredExpr, SField f => number f
  | TieredExpr, SBillingMode => if nonempty combined then Some (JStr (js "tiered_expr")) else None
  | TieredExpr, SBillingExpr => if nonempty combined then Some (JStr combined) else None
  | _, SField f => if Bool.eqb (nonempty (md_value data FPrice)) (bool_decide (f = FPrice)) then number f else None
  | _, _ => None
  end.

Lemma set_deleted o n v k :
  is_proto n = false →
  obj_get k (setIfPresent (obj_delete n o) n v) =
  if str_eqb n k then (if nonempty v && is_finite (parseFloat v) then Some (JNum (parseFloat v)) else None) else obj_get k o.
Proof.
  intros Hp. unfold setIfPresent, assign_prop. rewrite Hp. destruct (nonempty v); cbn [negb andb].
  - destruct (is_finite (parseFloat v)); rewrite ?obj_get_set, obj_get_delete; by destruct (str_eqb n k).
  - rewrite obj_get_delete. by destruct (str_eqb n k).
Qed.

Lemma persist_name_get data m n s k :
  is_proto n = false →
  obj_get k (persist_name data m n s) = if str_eqb n k then saved_entry data s else obj_get k (m s).
Proof.
  intros Hp. unfold persist_name, saved_entry, assign_prop. rewrite Hp.
  destruct (md_billingMode data), (nonempty (md_value data FPrice)) eqn:Ef;
    destruct s as [[]| |]; cbn [Bool.eqb bool_decide]; rewrite ?set_deleted by done;
    repeat match goal with |- context[if nonempty ?c then obj_set _ _ _ else _] => destruct (nonempty c) end;
    rewrite ?obj_get_set, ?obj_get_delete; try rewrite Ef; by destruct (str_eqb n k).
Qed.

Lemma persist_get data names m s k :
  Forall (λ n, is_proto n = false) names →
  obj_get k (persistPricingData data names m s) = if bool_decide (k ∈ names) then saved_entry data s else obj_get k (m s).
Proof.
  intros Hn. unfold persistPricingData. revert m. induction Hn as [|n names Hp Hn IH]; intros m; cbn [foldl].
  { by rewrite bool_decide_eq_false_2 by set_solver. }
  rewrite IH, persist_name_get by done. unfold str_eqb. repeat case_bool_decide; set_solver.
Qed.

(** ** Rows depend on the entries of their model only *)

Section saved.
Context `{Collation}.
Variable native : jstr → jstr.

Lemma read_text_ext o o' n : obj_get n o = obj_get n o' → read_text native o n = read_text native o' n.
Proof. unfold read_text. by intros ->. Qed.

Lemma token_priced_ext v v' : (∀ f, v f = v' f) → token_priced v = token_priced v'.
Proof. intros Hv. unfold token_priced. cbn [existsb]. by rewrite !Hv. Qed.

#[local] Instance plain_row_proper n : Proper (pointwise_relation _ (=) ==> (≡)) (plain_row n).
Proof. intros v v' Hv. unfold pointwise_relation in Hv. unfold plain_row.
  split_and!; cbn [r_name r_value r_billingMode r_billingExpr r_requestRuleExpr r_hasConflict]; try done; by rewrite ?(token_priced_ext v v' Hv), Hv.
Qed.

Lemma row_of_ext m m' n : (∀ s, obj_get n (m s) = obj_get n (m' s)) → row_of native m n ≡ row_of native m' n.
Proof.
  intros Hg. unfold row_of, read_values, is_tiered, split_stored.
  assert (∀ f, read_text native (m (SField f)) n = read_text native (m' (SField f)) n) as Hr by (intros f; apply read_text_ext, Hg).
  assert (forallb (λ f, match read_text native (m (SField f)) n with Ret _ => true | Throw => false end) ratio_fields =
    forallb (λ f, match read_text native (m' (SField f)) n with Ret _ => true | Throw => false end) ratio_fields) as ->.
  { unfold ratio_fields. cbn [forallb]. by rewrite !Hr. }
  destruct (forallb _ _); [|done]. cbn [mbind exn_bind]. rewrite !Hg.
  assert (∀ f, match read_text native (m (SField f)) n with Ret s => s | Throw => [] end =
    match read_text native (m' (SField f)) n with Ret s => s | Throw => [] end) as Hv by (intros f; by rewrite Hr).
  destruct (match obj_get n (m' SBillingMode) with Some (JStr s) => _ | _ => _ end).
  - destruct (match obj_get n (m' SBillingExpr) with Some (JStr s) => _ | Some _ => _ | None => _ end) as [e|]; [|done].
    split_and!; done.
  - change (plain_row n (λ f, match read_text native (m (SField f)) n with Ret s => s | Throw => [] end) ≡
      plain_row n (λ f, match read_text native (m' (SField f)) n with Ret s => s | Throw => [] end)). f_equiv. exact Hv.
Qed.

(** The row of a model that was just saved. *)
Definition saved_row (data : ModelRatioData) (name : jstr) : exn ModelRow :=
  let all f := canonical (md_value data f) in
  let combined := combineBillingExpr (md_billingExpr data) (md_requestRuleExpr data) in
  match md_billingMode data with
  | TieredExpr =>
    if nonempty combined
    then e ← splitBillingExprAndRequestRules combined; Ret (tiered_row name all e)
    else Ret (plain_row name all)
  | _ =>
    if nonempty (md_value data FPrice)
    then Ret (plain_row name (λ f, if bool_decide (f = FPrice) then all f else []))
    else Ret (plain_row name (λ f, if bool_decide (f = FPrice) then [] else all f))
  end.

Definition entry_text (v : option json) : jstr := match v with Some (JNum x) => num_to_string x | _ => [] end.

Lemma saved_number data f : saved_entry data (SField f) = None ∨ ∃ x, saved_entry data (SField f) = Some (JNum x).
Proof.
  unfold saved_entry. destruct (md_billingMode data); repeat case_match; eauto.
Qed.

Lemma read_saved m data n f :
  inherited n = false → obj_get n (m (SField f)) = saved_entry data (SField f) →
  read_text native (m (SField f)) n = Ret (entry_text (saved_entry data (SField f))).
Proof.
  intros Hi Hg. unfold read_text. rewrite Hg, Hi. by destruct (saved_number data f) as [-> | [x ->]].
Qed.

Lemma row_of_saved m data n :
  inherited n = false → (∀ s, obj_get n (m s) = saved_entry data s) → row_of native m n ≡ saved_row data n.
Proof.
  intros Hi Hg. unfold row_of, read_values.
  assert (∀ f, read_text native (m (SField f)) n = Ret (entry_text (saved_entry data (SField f)))) as Hr by (intros f; by apply read_saved).
  rewrite (proj2 (forallb_Forall _ _)) by (apply Forall_forall; intros f _; by rewrite Hr). cbn [mbind exn_bind].
  set (v := λ f, match read_text native (m (SField f)) n with Ret s => s | Throw => [] end).
  assert (∀ f, v f = entry_text (saved_entry data (SField f))) as Hv by (intros f; unfold v; by rewrite Hr). clearbody v.
  unfold is_tiered, split_stored. rewrite !Hg, Hi. unfold saved_row.
  assert (∀ (f : ratio_field) x, entry_text (if nonempty x && is_finite (parseFloat x) then Some (JNum (parseFloat x)) else None) = canonical x) as Hc.
  { intros f x. unfold canonical. by destruct (_ && _). }
  destruct (md_billingMode data) eqn:Em.
  1, 2: assert (∀ s, s = SBillingMode ∨ s = SBillingExpr → saved_entry data s = None) as Hn
    by (intros s [-> | ->]; unfold saved_entry; by rewrite Em).
  1, 2: rewrite !Hn by (by left || by right); destruct (nonempty (md_value data FPrice)) eqn:Ef;
    apply plain_row_proper; intros f; rewrite Hv; unfold saved_entry; rewrite Em, Ef; case_bool_decide; cbn [Bool.eqb]; by rewrite ?Hc.
  assert (∀ f, v f = canonical (md_value data f)) as Hv' by (intros f; rewrite Hv; unfold saved_entry; rewrite Em; by apply Hc).
  unfold saved_entry. rewrite Em. destruct (nonempty (combineBillingExpr _ _)); [|by apply plain_row_proper].
  change (str_eqb (js "tiered_expr") (js "tiered_expr")) with true. cbn iota.
  destruct (splitBillingExprAndRequestRules _) as [e|]; [|done]. split_and!; done.
Qed.

Lemma mapM_rows m names rows : mapM (row_of native m) names = Ret rows → map r_name rows = names.
Proof.
  revert rows. induction names as [|n names IH]; intros rows; cbn [mapM]; [by intros [= <-]|].
  assert (∀ row, row_of native m n = Ret row → r_name row = n) as Hn.
  { intros row. unfold row_of. destruct (read_values native m n) as [v|]; cbn [mbind exn_bind]; [|done].
    destruct (is_tiered m n); [destruct (split_stored m n); [|done]|]; cbn [mbind exn_bind]; by intros [= <-]. }
  destruct (row_of native m n) as [row|]; cbn [mbind exn_bind]; [|done].
  destruct (mapM (row_of native m) names) as [rs|] eqn:Em; cbn [mbind exn_bind]; [|done].
  intros [= <-]. cbn [map]. by rewrite (IH rs eq_refl), (Hn row eq_refl).
Qed.

Lemma models_names m rows n :
  models native m = Ret rows → n ∈ map r_name rows ↔ ∃ s, obj_get n (m s) ≠ None.
Proof.
  unfold models. destruct (mapM _ _) as [rs|] eqn:E; [|done]. intros [= <-]. apply mapM_rows in E.
  rewrite (fmap_Permutation r_name _ _ (stable_sort_perm _ rs) : map r_name _ ≡ₚ map r_name rs), E.
  unfold model_names. rewrite elem_of_dedup. setoid_rewrite list_elem_of_In. rewrite in_concat. split.
  - intros (l & Hl & Hn). apply in_map_iff in Hl as (s & <- & _). exists s. intros Hg.
    apply list_elem_of_In, obj_get_in in Hn as [v Hv]. congruence.
  - intros (s & Hs). exists (map fst (m s)). split; [apply (in_map (λ s, map fst (m s))), list_elem_of_In, in_all_settings|].
    apply list_elem_of_In. apply dec_stable. intros Hn. by apply Hs, obj_get_none.
Qed.

(** A row of a model that is priced by request or by token, whatever mode was chosen:
    a price that is given decides, and is all that is kept. *)
Definition plain_shown (data : ModelRatioData) (row : ModelRow) : Prop :=
  r_hasConflict row = false ∧
  if nonempty (md_value data FPrice)
  then r_value row FPrice = canonical (md_value data FPrice) ∧ (∀ f, f ≠ FPrice → r_value row f = []) ∧
       r_billingMode row = (if nonempty (canonical (md_value data FPrice)) then PerRequest else PerToken)
  else r_value row FPrice = [] ∧ (∀ f, f ≠ FPrice → r_value row f = canonical (md_value data f)) ∧ r_billingMode row = PerToken.

Lemma plain_saved data n : md_billingMode data ≠ TieredExpr → ∃ row, saved_row data n = Ret row ∧ plain_shown data row.
Proof.
  intros Ht. unfold saved_row, plain_shown. destruct (md_billingMode data); [..|done].
  all: destruct (nonempty (md_value data FPrice)); eexists; (split; [reflexivity|]); cbn [plain_row r_hasConflict r_value r_billingMode];
    rewrite ?(bool_decide_eq_true_2 (FPrice = FPrice)) by done; split_and!; try done; try apply andb_false_r;
    intros f Hf; by rewrite bool_decide_eq_false_2.
Qed.

(** C37: what the price table shows after a save, for model names that are no inherited property
    names and entries that JSON prints and reads back. The ten texts that are written can be read
    again. Every model that was not saved keeps its row, and the table, when all its rows can be computed,
    lists it exactly when it had an entry before. A model saved with the mode per
    token or per request has no conflict, and the choice between these two modes is ignored:
    with a price in the data only the price is kept, and the row is one per request (per
    token, with nothing set, when the price is no number); without a price the ratios are kept, and the
    row is one per token; numbers appear in their canonical form. Without any
    text, the model leaves the list. A model saved with tiers is listed and shows the base
    expression and the request rules that were entered, for a base expression that is
    trimmed, balanced, without outer parentheses and not itself a rule, and at least one group of
    rules, all of them filled and with values that the parser of rules reads back. *)
Theorem pricing_saved_shows data names m :
  Forall regular names → (∀ s, json_ok (JObj (persistPricingData data names m s))) →
  ∃ m', read_maps (write_maps (persistPricingData data names m)) = Some m' ∧
    (∀ n, n ∉ names → row_of native m' n ≡ row_of native m n ∧
      ∀ rows, models native m' = Ret rows → n ∈ map r_name rows ↔ ∃ s, obj_get n (m s) ≠ None) ∧
    (md_billingMode data ≠ TieredExpr → ∀ n, n ∈ names →
      (∃ row, row_of native m' n = Ret row ∧ plain_shown data row) ∧
      ∀ rows, models native m' = Ret rows → (∀ f, md_value data f = []) → n ∉ map r_name rows) ∧
    (∀ base gs, md_billingMode data = TieredExpr → md_billingExpr data = base →
      md_requestRuleExpr data = buildRequestRuleExpr gs → base_ok base → gs ≠ [] →
      Forall (λ g, group_filled g = true) gs → forallb (λ g, forallb cond_ok (conditions g)) gs = true →
      ∀ n, n ∈ names →
      (∃ row, row_of native m' n = Ret row ∧ r_billingMode row = TieredExpr ∧
        r_billingExpr row = base ∧ r_requestRuleExpr row = buildRequestRuleExpr gs) ∧
      ∀ rows, models native m' = Ret rows → n ∈ map r_name rows).
Proof.
  intros Hreg Hok. destruct (read_written _ Hok) as (m' & Hr & Hm). exists m'. split; [done|].
  assert (Forall (λ n, is_proto n = false) names) as Hp by (eapply Forall_impl; [exact Hreg|apply regular_proto]).
  assert (∀ n s, obj_get n (m' s) = if bool_decide (n ∈ names) then saved_entry data s else obj_get n (m s)) as Hg
    by (intros n s; rewrite Hm; by apply persist_get).
  assert (∀ n row, n ∈ names → saved_row data n = Ret row → ∃ row', row_of native m' n = Ret row' ∧ row' ≡ row) as Hrow.
  { intros n row Hn E. assert (row_of native m' n ≡ saved_row data n) as Hsave.
    { apply row_of_saved; [|intros s; by rewrite Hg, bool_decide_eq_true_2].
      rewrite Forall_forall in Hreg. destruct (Hreg n Hn) as [_ ?]. by apply bool_decide_eq_false_2. }
    rewrite E in Hsave. destruct (row_of native m' n) as [row'|]; [|done]. by exists row'. }
  assert (∀ n rows, n ∈ names → models native m' = Ret rows → n ∈ map r_name rows ↔ ∃ s, saved_entry data s ≠ None) as Hlist.
  { intros n rows Hn Hrows. rewrite (models_names m' rows n Hrows). setoid_rewrite Hg. by rewrite bool_decide_eq_true_2. }
  split_and!.
  - intros n Hn. split; [apply row_of_ext; intros s; by rewrite Hg, bool_decide_eq_false_2|].
    intros rows Hrows. rewrite (models_names m' rows n Hrows). setoid_rewrite Hg. by rewrite bool_decide_eq_false_2.
  - intros Ht n Hn. split.
    + destruct (plain_saved data n Ht) as (row & E & Hs). destruct (Hrow n row Hn E) as (row' & E' & (_ & Hv & Hm1 & _ & _ & Hc)).
      exists row'. split; [done|]. unfold plain_shown in *. rewrite Hc, Hm1, Hv. destruct Hs as [? Hs]. split; [done|].
      destruct (nonempty _); destruct Hs as (? & Hf & ?); split_and!; try done; intros f Hne; rewrite Hv; by apply Hf.
    + intros rows Hrows Hnone. rewrite (Hlist n rows Hn Hrows). intros (s & Hs). apply Hs. unfold saved_entry.
      destruct (md_billingMode data); [..|done]; destruct s; try done; by rewrite !Hnone; case_match.
  - intros base gs Ht Hb Hrules Hbase Hgs Hf Hcond n Hn.
    pose proof (split_combined base gs Hbase Hgs Hf) as Hs. rewrite Hcond in Hs.
    assert (nonempty (combineBillingExpr base (buildRequestRuleExpr gs)) = true) as Hne.
    { apply nonempty_spec. intros Ec. rewrite combine_text in Ec by done. by destruct gs. }
    assert (saved_row data n = Ret (tiered_row n (λ f, canonical (md_value data f)) {| billingExpr := base; requestRuleExpr := buildRequestRuleExpr gs |})) as E
      by (unfold saved_row; by rewrite Ht, Hb, Hrules, Hne, Hs).
    destruct (Hrow n _ Hn E) as (row' & E' & (_ & _ & Hm1 & He1 & Hr1 & _)). split; [by exists row'|].
    intros rows Hrows. apply (Hlist n rows Hn Hrows). exists SBillingMode. unfold saved_entry. by rewrite Ht, Hb, Hrules, Hne.
Qed.
End saved.

(** ** Examples *)

Definition demo_maps : maps := λ s,
  match s with
  | SField FPrice => [(js "gpt", JNum (num_of_Z 2))]
  | SField FRatio => [(js "claude", JNum (dec_to_num false 15 (-1)))]
  | _ => []
  end.

Definition demo_tiered : ModelRatioData := {|
  md_name := js "gpt"; md_value := λ f, match f with FRatio => js "1.50" | _ => [] end; md_billingMode := TieredExpr;
  md_billingExpr := demo_base; md_requestRuleExpr := buildRequestRuleExpr demo_groups |}.

Lemma demo_names_regular : Forall regular [js "gpt"].
Proof. apply regular_dec. vm_compute. reflexivity. Qed.

Lemma demo_saved_ok s : json_ok (JObj (persistPricingData demo_tiered [js "gpt"] demo_maps s)).
Proof. apply json_okb_ok. destruct s as [[]| |]; vm_compute; reflexivity. Qed.

Lemma pricing_saved_shows_witness :
  let native (_ : jstr) : jstr := [] in
  ∃ m', read_maps (write_maps (persistPricingData demo_tiered [js "gpt"] demo_maps)) = Some m' ∧
    row_of native m' (js "claude") ≡ row_of native demo_maps (js "claude") ∧
    ∃ row, row_of native m' (js "gpt") = Ret row ∧ r_billingMode row = TieredExpr ∧ r_billingExpr row = demo_base.
Proof.
  intros native.
  destruct (@pricing_saved_shows code_unit_collation native demo_tiered [js "gpt"] demo_maps demo_names_regular demo_saved_ok)
    as (m' & Hr & Hother & _ & Htier).
  exists m'. split; [exact Hr|]. split.
  - apply Hother. apply (bool_decide_eq_false_1 _). vm_compute. reflexivity.
  - destruct (Htier demo_base demo_groups) with (n := js "gpt") as [(row & H1 & H2 & H3 & _) _].
    + reflexivity.
    + reflexivity.
    + reflexivity.
    + split_and!; [reflexivity|discriminate|reflexivity|reflexivity|vm_compute; reflexivity].
    + discriminate.
    + repeat constructor.
    + vm_compute. reflexivity.
    + by left.
    + exists row. split; [exact H1|]. split; [exact H2|exact H3].
Defined.

(** The mode that is chosen in the sheet does not decide: a model with a fixed price
    that is switched to prices per token, with an input price typed, is saved with
    the fixed price only. *)
Theorem per_token_choice_ignored :
  let native (_ : jstr) : jstr := [] in
  ∃ row data, row_of native demo_maps (js "gpt") = Ret row ∧
    submitForm id (handlePromptPriceChange (js "3") (handleModeChange PerToken (openPanel (Some (handleEdit row))))) = inr data ∧
    md_billingMode data = PerToken ∧ md_value data FRatio = js "1.5" ∧
    match row_of native (handleSave data demo_maps) (js "gpt") with
    | Ret row' => r_billingMode row' = PerRequest ∧ r_value row' FPrice = js "2" ∧ r_value row' FRatio = []
    | Throw => False
    end.
Proof.
  cbv zeta. do 2 eexists. split; [reflexivity|].
  split.
  { unfold submitForm, handleSubmit. set (p := handlePromptPriceChange _ _).
    assert (nonempty (p_name p) = true) as -> by (vm_compute; reflexivity). assert (input_missing p = false) as -> by (vm_compute; reflexivity).
    assert (audio_missing p = false) as -> by (vm_compute; reflexivity). reflexivity. }
  split; [reflexivity|]. split; [vm_compute; reflexivity|]. vm_compute. done.
Qed.
