(* ===== verification/RatioSync.v ===== *)
(** * Prices taken over from other servers

    Model of [upstream-ratio-sync.tsx], [upstream-ratio-sync-helpers.ts],
    [upstream-ratio-sync-table.tsx], the selection logic of
    [upstream-ratio-sync-columns.tsx] and [channel-selector-dialog.tsx] in
    [web/default/src/features/system-settings/models].  The server compares the stored
    prices with those of the chosen channels; an administrator picks values from the
    differences, and one sync rewrites the ten stored texts of [ModelPricing].

    Records are lists of entries in the order of their insertion.  Names of models and
    channels are not names that every object inherits.  While a request runs every
    control is disabled, so a sync is one step whose answers come from the server. *)

From S2P Require Import Prelude JsString JsNumber Json JsonPretty SettingsJson PricingSheet ModelPricing.
From Stdlib Require Import NArith ZArith.

(** ** Fields *)

Definition RATIO_SYNC_FIELDS : list jstr :=
  [js "model_ratio"; js "completion_ratio"; js "cache_ratio"; js "create_cache_ratio"; js "image_ratio";
   js "audio_ratio"; js "audio_completion_ratio"].

Definition SYNC_FIELD_ORDER : list jstr :=
  RATIO_SYNC_FIELDS ++ [js "model_price"; js "billing_mode"; js "billing_expr"].

Definition NUMERIC_SYNC_FIELDS : list jstr := RATIO_SYNC_FIELDS ++ [js "model_price"].

(** [l.includes(s)]. *)
Definition has (l : list jstr) (s : jstr) : bool := existsb (str_eqb s) l.

Definition RATIO_TYPE_OPTIONS : list (jstr * jstr) :=
  [(js "Model ratio", js "model_ratio"); (js "Completion ratio", js "completion_ratio");
   (js "Cache ratio", js "cache_ratio"); (js "Create cache ratio", js "create_cache_ratio");
   (js "Image ratio", js "image_ratio"); (js "Audio ratio", js "audio_ratio");
   (js "Audio completion ratio", js "audio_completion_ratio"); (js "Fixed price", js "model_price");
   (js "Expression billing", js "billing_expr")].

Definition getSyncFieldLabel (ratioType : jstr) (t : jstr → jstr) : jstr :=
  match List.find (λ o, str_eqb o.2 ratioType) RATIO_TYPE_OPTIONS with
  | Some o => t o.1
  | None => ratioType
  end.

Inductive category := Price | Ratio | Tiered.
#[export] Instance category_eq_dec : EqDecision category.
Proof. solve_decision. Defined.

Definition getBillingCategory (ratioType : jstr) : category :=
  if str_eqb ratioType (js "model_price") then Price
  else if str_eqb ratioType (js "billing_mode") || str_eqb ratioType (js "billing_expr") then Tiered
  else Ratio.

(** ** Differences and selections *)

(** The stored value, and the values of the channels by name; a value is a number, a
    text, null or the text [same]. *)
Record RatioDifference := {
  current : json;
  upstreams : list (jstr * json);
  confidence : list (jstr * bool);
}.

Abbreviation ModelDiffs := (list (jstr * RatioDifference)).
Abbreviation DifferencesMap := (list (jstr * ModelDiffs)).
Abbreviation ModelResolutions := (list (jstr * json)).
Abbreviation ResolutionsMap := (list (jstr * ModelResolutions)).

(** [ratioTypes[field]?.upstreams?.[source]]. *)
Definition upstream_value (ratioTypes : ModelDiffs) (field source : jstr) : option json :=
  d ← obj_get field ratioTypes; obj_get source (upstreams d).

Definition isSelectableUpstreamValue (value : option json) : bool :=
  match value with
  | None | Some JNull => false
  | Some (JStr s) => negb (str_eqb s (js "same"))
  | Some _ => true
  end.

Definition getPreferredSyncField (ratioTypes : ModelDiffs) (ratioType sourceName : jstr) : jstr :=
  if negb (str_eqb ratioType (js "billing_expr"))
     && isSelectableUpstreamValue (upstream_value ratioTypes (js "billing_expr") sourceName)
  then js "billing_expr" else ratioType.

Definition getOrderedRatioTypes (ratioTypes : ModelDiffs) (filter : jstr) : list jstr :=
  let keys := map fst ratioTypes in
  let ordered := List.filter (has keys) SYNC_FIELD_ORDER
                 ++ List.filter (λ f, negb (has SYNC_FIELD_ORDER f)) keys in
  if negb (nonempty filter) || str_eqb filter (js "__all__") then ordered
  else List.filter (λ f, str_eqb f filter) ordered.

(** A selection of a price and one of a ratio exclude each other. *)
Definition conflicting (c : category) (rt : jstr) : bool :=
  negb (bool_decide (c = Tiered)) && negb (bool_decide (getBillingCategory rt = Tiered))
  && negb (bool_decide (getBillingCategory rt = c)).

(** The new selections of the model. *)
Definition select_field (modelDiffs : option ModelDiffs) (ratioType : jstr) (value : json) (sourceName : jstr)
    (old : ModelResolutions) : ModelResolutions :=
  let finalType :=
    if nonempty sourceName then getPreferredSyncField (default [] modelDiffs) ratioType sourceName else ratioType in
  let finalValue :=
    if str_eqb finalType ratioType then value
    else match upstream_value (default [] modelDiffs) finalType sourceName with
         | None | Some JNull => value
         | Some v => v
         end in
  let category := getBillingCategory finalType in
  let newModelRes := List.filter (λ e, negb (conflicting category e.1)) old in
  let newModelRes := obj_set newModelRes finalType finalValue in
  match modelDiffs with
  | Some diffs =>
    if bool_decide (category = Tiered) && nonempty sourceName then
      let modeVal := upstream_value diffs (js "billing_mode") sourceName in
      let exprVal := upstream_value diffs (js "billing_expr") sourceName in
      let newModelRes :=
        if isSelectableUpstreamValue modeVal then obj_set newModelRes (js "billing_mode") (default JNull modeVal)
        else if str_eqb finalType (js "billing_expr") then obj_set newModelRes (js "billing_mode") (JStr (js "tiered_expr"))
        else newModelRes in
      if isSelectableUpstreamValue exprVal then obj_set newModelRes (js "billing_expr") (default JNull exprVal) else newModelRes
    else newModelRes
  | None => newModelRes
  end.

Definition handleSelectValue (differences : DifferencesMap) (model ratioType : jstr) (value : json) (sourceName : jstr)
    (prev : ResolutionsMap) : ResolutionsMap :=
  obj_set prev model
    (select_field (obj_get model differences) ratioType value sourceName (default [] (obj_get model prev))).

(** [billing_mode] and [billing_expr] are dropped together. *)
Definition unselect_field (ratioType : jstr) (old : ModelResolutions) : ModelResolutions :=
  let newModelRes := obj_delete ratioType old in
  let newModelRes :=
    if str_eqb ratioType (js "billing_expr") then obj_delete (js "billing_mode") newModelRes else newModelRes in
  if str_eqb ratioType (js "billing_mode") then obj_delete (js "billing_expr") newModelRes else newModelRes.

Definition deleteResolutionField (res : ResolutionsMap) (model ratioType : jstr) : ResolutionsMap :=
  match obj_get model res with
  | None => res
  | Some old =>
    match unselect_field ratioType old with
    | [] => obj_delete model res
    | newModelRes => obj_set res model newModelRes
    end
  end.

(** ** The table *)

(** [a === b] for numbers, texts, null and undefined. *)
Definition same_value (a b : option json) : bool :=
  match a, b with
  | None, None | Some JNull, Some JNull => true
  | Some (JNum x), Some (JNum y) => num_eqb x y
  | Some (JStr s), Some (JStr s') => str_eqb s s'
  | Some (JBool x), Some (JBool y) => Bool.eqb x y
  | _, _ => false
  end.

Record DiffRow := { row_model : jstr; row_types : ModelDiffs; billingConflict : bool }.

Definition present {A} (k : jstr) (o : list (jstr * A)) : bool := match obj_get k o with Some _ => true | None => false end.

Definition dataSource (differences : DifferencesMap) : list DiffRow :=
  map (λ '(model, ratioTypes),
    let hasPrice := present (js "model_price") ratioTypes in
    let hasOtherRatio := existsb (λ rt, present rt ratioTypes) RATIO_SYNC_FIELDS in
    {| row_model := model; row_types := ratioTypes; billingConflict := hasPrice && hasOtherRatio |}) differences.

Definition filteredData `{LowerCase} (search ratioTypeFilter : jstr) (data : list DiffRow) : list DiffRow :=
  let data :=
    if nonempty (trim search)
    then List.filter (λ row, includes (toLowerCase search) (toLowerCase (row_model row))) data else data in
  if nonempty ratioTypeFilter && negb (str_eqb ratioTypeFilter (js "__all__"))
  then List.filter (λ row, present ratioTypeFilter (row_types row)) data else data.

Definition upstreamNames (ratioTypeFilter : jstr) (rows : list DiffRow) : list jstr :=
  dedup (concat (map (λ row,
    concat (map (λ f, match obj_get f (row_types row) with Some d => map fst (upstreams d) | None => [] end)
      (getOrderedRatioTypes (row_types row) ratioTypeFilter))) rows)).

(** The values of a channel that a row offers: the expression hides the other fields. *)
Definition offered (filter upstream : jstr) (row : DiffRow) : list (jstr * json) :=
  omap (λ f,
    match upstream_value (row_types row) f upstream with
    | Some v =>
      if str_eqb (getPreferredSyncField (row_types row) f upstream) f && isSelectableUpstreamValue (Some v)
      then Some (f, v) else None
    | None => None
    end) (getOrderedRatioTypes (row_types row) filter).

Definition handleBulkSelect (differences : DifferencesMap) (filter upstream : jstr) (rows : list DiffRow)
    (res : ResolutionsMap) : ResolutionsMap :=
  foldl (λ res row,
    foldl (λ res '(f, v), handleSelectValue differences (row_model row) f v upstream res) res (offered filter upstream row))
    res rows.

Definition handleBulkUnselect (filter upstream : jstr) (rows : list DiffRow) (res : ResolutionsMap) : ResolutionsMap :=
  foldl (λ res row,
    foldl (λ res f,
      match upstream_value (row_types row) f upstream with
      | Some _ => deleteResolutionField res (row_model row) f
      | None => res
      end) res (getOrderedRatioTypes (row_types row) filter))
    res rows.

Definition selection (res : ResolutionsMap) (model f : jstr) : option json := r ← obj_get model res; obj_get f r.

(** The numbers of values in a column that can be and that are selected. *)
Definition header_counts (filter upstream : jstr) (rows : list DiffRow) (res : ResolutionsMap) : nat * nat :=
  let cells := concat (map (λ row, map (pair (row_model row)) (offered filter upstream row)) rows) in
  (length cells, length (List.filter (λ '(model, (f, v)), same_value (selection res model f) (Some v)) cells)).

(** The checkbox of a column: checked, and partly checked. *)
Definition allSelected (filter upstream : jstr) (rows : list DiffRow) (res : ResolutionsMap) : bool :=
  let '(selectable, selected) := header_counts filter upstream rows res in
  (0 <? selectable) && (selected =? selectable).

Definition someSelected (filter upstream : jstr) (rows : list DiffRow) (res : ResolutionsMap) : bool :=
  let '(selectable, selected) := header_counts filter upstream rows res in
  (0 <? selected) && (selected <? selectable).

(** The fields that the cell of a channel shows. *)
Definition cell_fields (filter upstream : jstr) (row : DiffRow) : list jstr :=
  List.filter (λ f, str_eqb (getPreferredSyncField (row_types row) f upstream) f) (getOrderedRatioTypes (row_types row) filter).

Inductive cell_view := NotSet | SameAsLocal | Choice (text : jstr) (checked reliable : bool).

Definition renderUpstreamValue (upstream : jstr) (row : DiffRow) (f : jstr) (res : ResolutionsMap) : cell_view :=
  let upstreamVal := upstream_value (row_types row) f upstream in
  let isConfident :=
    match obj_get f (row_types row) with
    | Some d => match obj_get upstream (confidence d) with Some b => b | None => true end
    | None => true
    end in
  match upstreamVal with
  | None | Some JNull => NotSet
  | Some v =>
    if negb (isSelectableUpstreamValue (Some v)) then SameAsLocal
    else Choice (string_of_json v) (same_value (selection res (row_model row) f) upstreamVal) isConfident
  end.

(** ** The sync *)

Definition ascii_upper (c : N) : N := if ((97 <=? c) && (c <=? 122))%N then (c - 32)%N else c.

(** The words of a field's name are ASCII. *)
Definition optionKeyBySyncField (ratioType : jstr) : jstr :=
  if str_eqb ratioType (js "billing_mode") then js "billing_setting.billing_mode"
  else if str_eqb ratioType (js "billing_expr") then js "billing_setting.billing_expr"
  else concat (map (λ word, match word with [] => [] | c :: w => ascii_upper c :: w end) (split_char 95 ratioType)).

Definition parseJsonRecord (raw : jstr) : json :=
  default (JObj []) (json_parse (if nonempty raw then raw else js "{}")).

(** The ten records, in the order in which they are written. *)
Definition sync_settings : list setting :=
  [SField FRatio; SField FCompletionRatio; SField FCacheRatio; SField FCreateCacheRatio; SField FImageRatio;
   SField FAudioRatio; SField FAudioCompletionRatio; SField FPrice; SBillingMode; SBillingExpr].

Definition option_key (s : setting) : jstr :=
  match s with
  | SField FRatio => js "ModelRatio"
  | SField FCompletionRatio => js "CompletionRatio"
  | SField FCacheRatio => js "CacheRatio"
  | SField FCreateCacheRatio => js "CreateCacheRatio"
  | SField FImageRatio => js "ImageRatio"
  | SField FAudioRatio => js "AudioRatio"
  | SField FAudioCompletionRatio => js "AudioCompletionRatio"
  | SField FPrice => js "ModelPrice"
  | SBillingMode => js "billing_setting.billing_mode"
  | SBillingExpr => js "billing_setting.billing_expr"
  end.

(** [parsedRatios]; [None] when a text holds something else than an object. *)
Definition parsedRatios (t : texts) : option maps :=
  if forallb (λ s, isObjectRecord (parseJsonRecord (t s))) sync_settings
  then Some (λ s, own_props (parseJsonRecord (t s))) else None.

#[export] Instance setting_eq_dec : EqDecision setting.
Proof. solve_decision. Defined.

Definition is_ratio_setting (s : setting) : bool :=
  match s with SField FPrice | SBillingMode | SBillingExpr => false | SField _ => true end.

(** [finalRatios[key][model] = v] throws when there is no such record. *)
Definition set_option (m : maps) (key model : jstr) (v : json) : exn maps :=
  match List.find (λ s, str_eqb (option_key s) key) sync_settings with
  | Some s => Ret (λ s', if decide (s' = s) then assign_prop (m s') model v else m s')
  | None => Throw
  end.

(** [Number(value)] of a numeric field. *)
Definition stored_value (ratioType : jstr) (value : json) : exn json :=
  if has NUMERIC_SYNC_FIELDS ratioType then x ← or_throw (number_of_json value); Ret (JNum x) else Ret value.

Definition set_field (model : jstr) (m : maps) (entry : jstr * json) : exn maps :=
  let '(ratioType, value) := entry in
  v ← stored_value ratioType value; set_option m (optionKeyBySyncField ratioType) model v.

(** [l.forEach] with a state. *)
Fixpoint for_each {A S} (f : S → A → exn S) (s : S) (l : list A) : exn S :=
  match l with
  | [] => Ret s
  | a :: l => s' ← f s a; for_each f s' l
  end.

Definition clear_conflicts (model : jstr) (ratios : ModelResolutions) (m : maps) : maps :=
  let selectedTypes := map fst ratios in
  let hasPrice := has selectedTypes (js "model_price") in
  let hasRatio := existsb (has RATIO_SYNC_FIELDS) selectedTypes in
  λ s, if (hasPrice && is_ratio_setting s) || (hasRatio && bool_decide (s = SField FPrice))
       then obj_delete model (m s) else m s.

Definition sync_model (m : maps) (entry : jstr * ModelResolutions) : exn maps :=
  let '(model, ratios) := entry in for_each (set_field model) (clear_conflicts model ratios m) ratios.

Definition performSync (resolutions : ResolutionsMap) (currentRatios : maps) : exn maps :=
  for_each sync_model currentRatios resolutions.

(** The requests, under the keys [option_key]. *)
Definition updates (finalRatios : maps) : list (setting * jstr) :=
  map (λ s, (s, stringify_pretty (JObj (finalRatios s)))) sync_settings.

(** What the server does with a request: the value is stored, refused in the answer's body,
    or there is an error. *)
Inductive answer := Accepted | Refused | Failed.

(** The requests are sent one after the other; the body of an answer is not looked at. *)
Fixpoint send_updates (reply : setting → answer) (l : list (setting * jstr)) (stored : texts) : texts * bool :=
  match l with
  | [] => (stored, true)
  | (s, text) :: l =>
    match reply s with
    | Accepted => send_updates reply l (λ s', if decide (s' = s) then text else stored s')
    | Refused => send_updates reply l stored
    | Failed => (stored, false)
    end
  end.

(** [delete newDiffs[model][ratioType]]: the record of a model is shared with the previous
    state; the first component is that state, the second the new one. *)
Definition remove_resolved (model : jstr) (st : DifferencesMap * DifferencesMap) (ratioType : jstr) : DifferencesMap * DifferencesMap :=
  let '(prevDiffs, newDiffs) := st in
  match obj_get model newDiffs with
  | Some types =>
    if present ratioType types then
      let types := obj_delete ratioType types in
      (obj_set prevDiffs model types,
       match types with [] => obj_delete model newDiffs | _ => obj_set newDiffs model types end)
    else st
  | None => st
  end.

Definition drop_resolved (resolutions : ResolutionsMap) (prevDiffs : DifferencesMap) : DifferencesMap * DifferencesMap :=
  foldl (λ st '(model, ratios), foldl (remove_resolved model) st (map fst ratios)) (prevDiffs, prevDiffs) resolutions.

(** ** Conflicts *)

Record ConflictItem := { channel : jstr; model : jstr; currentDesc : jstr; newDesc : jstr }.

Definition getLocalBillingCategory (name : jstr) (currentRatios : maps) : option category :=
  if present name (currentRatios (SField FPrice)) then Some Price
  else if existsb (λ s, present name (currentRatios s)) (List.filter is_ratio_setting sync_settings) then Some Ratio
  else None.

Definition new_category (ratios : ModelResolutions) : category :=
  if present (js "model_price") ratios then Price
  else if existsb (has (map fst ratios)) RATIO_SYNC_FIELDS then Ratio
  else Tiered.

Definition findSourceChannel (differences : DifferencesMap) (name ratioType : jstr) (value : json) : jstr :=
  match d ← obj_get name differences; obj_get ratioType d with
  | None => js "Unknown"
  | Some d =>
    match List.find (λ e, same_value (Some e.2) (Some value)) (upstreams d) with
    | Some e => e.1
    | None => js "Unknown"
    end
  end.

(** [v ?? '-'] in a template. *)
Definition or_dash (v : option json) : jstr :=
  match v with None | Some JNull => js "-" | Some v => string_of_json v end.

Definition in_template (v : option json) : jstr :=
  match v with None => js "undefined" | Some v => string_of_json v end.

Definition conflict_of (t : jstr → jstr) (differences : DifferencesMap) (currentRatios : maps) (entry : jstr * ModelResolutions)
    : option ConflictItem :=
  let '(name, ratios) := entry in
  let newCat := new_category ratios in
  match getLocalBillingCategory name currentRatios with
  | Some localCat =>
    if negb (bool_decide (newCat = Tiered)) && negb (bool_decide (localCat = newCat)) then
      Some {|
        channel := str_join (js ", ") (dedup (map (λ '(rt, v), findSourceChannel differences name rt v) ratios));
        model := name;
        currentDesc :=
          if bool_decide (localCat = Price)
          then t (js "Fixed price") ++ js ": " ++ in_template (obj_get name (currentRatios (SField FPrice)))
          else t (js "Model ratio") ++ js ": " ++ or_dash (obj_get name (currentRatios (SField FRatio))) ++ [10%N]
               ++ t (js "Completion ratio") ++ js ": " ++ or_dash (obj_get name (currentRatios (SField FCompletionRatio)));
        newDesc :=
          if bool_decide (newCat = Price)
          then t (js "Fixed price") ++ js ": " ++ in_template (obj_get (js "model_price") ratios)
          else t (js "Model ratio") ++ js ": " ++ or_dash (obj_get (js "model_ratio") ratios) ++ [10%N]
               ++ t (js "Completion ratio") ++ js ": " ++ or_dash (obj_get (js "completion_ratio") ratios) |}
    else None
  | None => None
  end.

Definition conflicts (t : jstr → jstr) (differences : DifferencesMap) (currentRatios : maps) (res : ResolutionsMap) : list ConflictItem :=
  omap (conflict_of t differences currentRatios) res.

(** ** Selections of a model *)

Abbreviation f_price := (js "model_price").
Abbreviation f_mode := (js "billing_mode").
Abbreviation f_expr := (js "billing_expr").

Lemma str_eqb_spec' (a b : jstr) : str_eqb a b = true ↔ a = b.
Proof. apply bool_decide_eq_true. Qed.

Lemma obj_get_filter {A} (p : jstr → bool) k (l : list (jstr * A)) :
  obj_get k (List.filter (λ e, p e.1) l) = if p k then obj_get k l else None.
Proof.
  induction l as [|[j v] l IH]; cbn [List.filter obj_get fst]; [by destruct (p k)|].
  destruct (str_eqb j k) eqn:E.
  - apply str_eqb_spec' in E as ->. destruct (p k) eqn:Ep; [|exact IH].
    cbn [obj_get]. by rewrite (proj2 (str_eqb_spec' k k)).
  - destruct (p j); [|done]. cbn [obj_get]. by rewrite E.
Qed.

(** What can be selected for a model: a price and ratios exclude each other, an expression
    has a mode, and every value was offered by a channel, except for the mode that an
    expression implies. *)
Record res_ok (diffs : ModelDiffs) (r : ModelResolutions) : Prop := {
  res_nodup : NoDup (map fst r);
  res_exclusive f : getBillingCategory f = Ratio → obj_get f r ≠ None → obj_get f_price r = None;
  res_paired : obj_get f_expr r ≠ None → obj_get f_mode r ≠ None;
  res_sourced f v : obj_get f r = Some v →
    (∃ source, upstream_value diffs f source = Some v ∧ isSelectableUpstreamValue (Some v) = true) ∨
    (f = f_mode ∧ v = JStr (js "tiered_expr") ∧ obj_get f_expr r ≠ None);
}.

Lemma category_cases f :
  (f = f_price ∧ getBillingCategory f = Price) ∨ (f = f_mode ∧ getBillingCategory f = Tiered) ∨
  (f = f_expr ∧ getBillingCategory f = Tiered) ∨
  (getBillingCategory f = Ratio ∧ f ≠ f_price ∧ f ≠ f_mode ∧ f ≠ f_expr).
Proof. unfold getBillingCategory, str_eqb. repeat case_bool_decide; subst; cbn [orb]; naive_solver. Qed.

(** A value that a cell offers. *)
Definition offers (diffs : ModelDiffs) (f source : jstr) (v : json) : Prop :=
  nonempty source = true ∧ upstream_value diffs f source = Some v ∧ isSelectableUpstreamValue (Some v) = true ∧
  getPreferredSyncField diffs f source = f.

(** The mode that is selected with an expression. *)
Definition paired_mode (diffs : ModelDiffs) (source : jstr) : json :=
  let modeVal := upstream_value diffs f_mode source in
  if isSelectableUpstreamValue modeVal then default JNull modeVal else JStr (js "tiered_expr").

Lemma str_eqb_refl (a : jstr) : str_eqb a a = true.
Proof. by apply str_eqb_spec'. Qed.

Lemma filter_tiered (r : ModelResolutions) : List.filter (λ e, negb (conflicting Tiered e.1)) r = r.
Proof. induction r as [|e r IH]; [done|]. cbn [List.filter]. by rewrite IH. Qed.

Lemma select_numeric diffs f source v r :
  offers diffs f source v → getBillingCategory f ≠ Tiered →
  select_field (Some diffs) f v source r = obj_set (List.filter (λ e, negb (conflicting (getBillingCategory f) e.1)) r) f v.
Proof.
  intros (Hs & Hv & Hsel & Hp) Hc. unfold select_field. rewrite Hs. cbn [default from_option id]. rewrite Hp, str_eqb_refl.
  by rewrite bool_decide_eq_false_2.
Qed.

Lemma select_mode diffs source v r k :
  offers diffs f_mode source v →
  obj_get k (select_field (Some diffs) f_mode v source r) = if str_eqb f_mode k then Some v else obj_get k r.
Proof.
  intros (Hs & Hv & Hsel & Hp). unfold select_field. rewrite Hs. cbn [default from_option id]. rewrite Hp, str_eqb_refl, Hv, Hsel.
  assert (isSelectableUpstreamValue (upstream_value diffs f_expr source) = false) as ->.
  { unfold getPreferredSyncField in Hp. destruct (isSelectableUpstreamValue (upstream_value diffs f_expr source)); [by vm_compute in Hp|done]. }
  change (getBillingCategory f_mode) with Tiered. rewrite bool_decide_eq_true_2 by done. cbn [andb default from_option id].
  rewrite filter_tiered, !obj_get_set. by destruct (str_eqb f_mode k).
Qed.

Lemma select_expr diffs source v r k :
  offers diffs f_expr source v →
  obj_get k (select_field (Some diffs) f_expr v source r) =
  if str_eqb f_expr k then Some v else if str_eqb f_mode k then Some (paired_mode diffs source) else obj_get k r.
Proof.
  intros (Hs & Hv & Hsel & Hp). unfold select_field, paired_mode. rewrite Hs. cbn [default from_option id].
  rewrite Hp, str_eqb_refl, Hv, Hsel.
  change (getBillingCategory f_expr) with Tiered. rewrite bool_decide_eq_true_2 by done. cbn [andb default from_option id].
  rewrite filter_tiered. destruct (isSelectableUpstreamValue (upstream_value diffs f_mode source));
    rewrite !obj_get_set; by destruct (str_eqb f_expr k).
Qed.

Lemma select_nodup diffs f source v r : NoDup (map fst r) → NoDup (map fst (select_field diffs f v source r)).
Proof.
  intros Hr. assert (∀ c, NoDup (map fst (List.filter (λ e : jstr * json, negb (conflicting c e.1)) r))) as Hf.
  { intros c. eapply sublist_NoDup; [exact Hr|]. clear Hr. induction r as [|e r IH]; [done|].
    cbn [List.filter]. destruct (negb _); cbn [map]; by constructor. }
  unfold select_field. destruct diffs as [diffs|]; [|apply obj_set_nodup, Hf].
  destruct (_ && _); [|apply obj_set_nodup, Hf].
  destruct (isSelectableUpstreamValue (upstream_value diffs f_mode source)), (isSelectableUpstreamValue (upstream_value diffs f_expr source));
    repeat apply obj_set_nodup; try apply Hf; destruct (str_eqb _ f_expr); repeat apply obj_set_nodup; apply Hf.
Qed.

Lemma conflicting_price k : conflicting Price k = true ↔ getBillingCategory k = Ratio.
Proof. unfold conflicting. destruct (getBillingCategory k); repeat case_bool_decide; naive_solver. Qed.

Lemma conflicting_ratio k : conflicting Ratio k = true ↔ k = f_price.
Proof.
  unfold conflicting. destruct (category_cases k) as [[-> ->]|[[-> ->]|[[-> ->]|(-> & ? & _)]]]; by vm_compute.
Qed.

(** A selection replaces the entries of some fields and keeps the others. *)
Lemma select_price_ok diffs source v r :
  offers diffs f_price source v → res_ok diffs r → res_ok diffs (select_field (Some diffs) f_price v source r).
Proof.
  intros Ho [Hn Hx Hpr Hsrc]. pose proof Ho as (_ & Hv & Hsel & _).
  assert (∀ k, obj_get k (select_field (Some diffs) f_price v source r) =
    if decide (k = f_price) then Some v else if decide (getBillingCategory k = Ratio) then None else obj_get k r) as Hg.
  { intros k. rewrite (select_numeric diffs f_price source v r Ho) by done. rewrite obj_get_set.
    rewrite (obj_get_filter (λ k, negb (conflicting _ k))). unfold str_eqb. pose proof (conflicting_price k) as Hc.
    change (getBillingCategory f_price) with Price. destruct (conflicting Price k); repeat (case_bool_decide || case_decide); naive_solver. }
  split; [by apply select_nodup|..]; setoid_rewrite Hg.
  - intros f Hf H. destruct H. rewrite decide_False by (intros ->; done). by rewrite decide_True.
  - done.
  - intros f w. destruct (decide (f = f_price)) as [->|]; [intros [= <-]; left; by exists source|].
    case_decide; [done|]. intros [?|(? & ? & ?)]%Hsrc; [by left|by right].
Qed.

Lemma select_ratio_ok diffs f source v r :
  getBillingCategory f = Ratio → offers diffs f source v → res_ok diffs r → res_ok diffs (select_field (Some diffs) f v source r).
Proof.
  intros Hf Ho [Hn Hx Hpr Hsrc]. pose proof Ho as (_ & Hv & Hsel & _).
  assert (∀ k, obj_get k (select_field (Some diffs) f v source r) =
    if decide (k = f) then Some v else if decide (k = f_price) then None else obj_get k r) as Hg.
  { intros k. rewrite (select_numeric diffs f source v r Ho) by congruence. rewrite obj_get_set.
    rewrite (obj_get_filter (λ k, negb (conflicting _ k))). unfold str_eqb. pose proof (conflicting_ratio k) as Hc.
    rewrite Hf. destruct (conflicting Ratio k); repeat (case_bool_decide || case_decide); naive_solver. }
  assert (f ≠ f_price ∧ f ≠ f_mode ∧ f ≠ f_expr) as (H1 & H2 & H3) by (split_and!; intros ->; done).
  split; [by apply select_nodup|..]; setoid_rewrite Hg.
  - intros k _ _. by rewrite decide_False, decide_True by done.
  - rewrite !(decide_False (P := _ = f)) by done. by rewrite !decide_False by done.
  - intros k w. rewrite (decide_False (P := f_expr = f)), (decide_False (P := f_expr = f_price)) by done.
    destruct (decide (k = f)) as [->|]; [intros [= <-]; left; by exists source|]. case_decide; [done|]. apply Hsrc.
Qed.

Lemma select_mode_ok diffs source v r :
  offers diffs f_mode source v → res_ok diffs r → res_ok diffs (select_field (Some diffs) f_mode v source r).
Proof.
  intros Ho [Hn Hx Hpr Hsrc]. pose proof Ho as (_ & Hv & Hsel & _).
  pose proof (λ k, select_mode diffs source v r k Ho) as Hg.
  split; [by apply select_nodup|..]; setoid_rewrite Hg.
  - intros f Hf. unfold str_eqb. rewrite (bool_decide_eq_false_2 (f_mode = f)) by (intros <-; done).
    rewrite bool_decide_eq_false_2 by done. by apply Hx.
  - by rewrite str_eqb_refl.
  - intros f w. change (str_eqb f_mode f_expr) with false. destruct (str_eqb f_mode f) eqn:E; [|apply Hsrc].
    apply str_eqb_spec' in E as <-. intros [= <-]. left. by exists source.
Qed.

Lemma paired_mode_sourced diffs source :
  (upstream_value diffs f_mode source = Some (paired_mode diffs source) ∧ isSelectableUpstreamValue (Some (paired_mode diffs source)) = true)
  ∨ paired_mode diffs source = JStr (js "tiered_expr").
Proof.
  unfold paired_mode. destruct (isSelectableUpstreamValue _) eqn:E; [|by right]. left.
  destruct (upstream_value diffs f_mode source); [done|discriminate].
Qed.

Lemma select_expr_ok diffs source v r :
  offers diffs f_expr source v → res_ok diffs r → res_ok diffs (select_field (Some diffs) f_expr v source r).
Proof.
  intros Ho [Hn Hx Hpr Hsrc]. pose proof Ho as (_ & Hv & Hsel & _).
  pose proof (λ k, select_expr diffs source v r k Ho) as Hg.
  split; [by apply select_nodup|..]; setoid_rewrite Hg.
  - intros f Hf. unfold str_eqb. rewrite (bool_decide_eq_false_2 (f_expr = f)), (bool_decide_eq_false_2 (f_mode = f)) by (intros <-; done).
    rewrite !bool_decide_eq_false_2 by done. by apply Hx.
  - by rewrite str_eqb_refl.
  - intros f w. rewrite str_eqb_refl. destruct (str_eqb f_expr f) eqn:E1.
    { apply str_eqb_spec' in E1 as <-. intros [= <-]. left. by exists source. }
    destruct (str_eqb f_mode f) eqn:E2.
    { apply str_eqb_spec' in E2 as <-. intros [= <-]. destruct (paired_mode_sourced diffs source) as [?| ->]; [left; by exists source|by right]. }
    intros [?|(-> & _)]%Hsrc; [by left|]. by rewrite str_eqb_refl in E2.
Qed.

Lemma select_ok diffs f source v r :
  offers diffs f source v → res_ok diffs r → res_ok diffs (select_field (Some diffs) f v source r).
Proof.
  destruct (category_cases f) as [[-> _]|[[-> _]|[[-> _]|[? _]]]];
    eauto using select_price_ok, select_mode_ok, select_expr_ok, select_ratio_ok.
Qed.

Lemma select_nonempty diffs f source v r : offers diffs f source v → select_field (Some diffs) f v source r ≠ [].
Proof.
  intros Ho E. assert (obj_get f (select_field (Some diffs) f v source r) = Some v) as H; [|by rewrite E in H].
  destruct (category_cases f) as [[-> Hc]|[[-> Hc]|[[-> Hc]|(Hc & _)]]].
  - rewrite (select_numeric diffs f_price source v r Ho) by congruence. by rewrite obj_get_set, str_eqb_refl.
  - by rewrite select_mode, str_eqb_refl by done.
  - by rewrite select_expr, str_eqb_refl by done.
  - rewrite select_numeric by (done || congruence). by rewrite obj_get_set, str_eqb_refl.
Qed.

Lemma unselect_get f r k :
  obj_get k (unselect_field f r) =
  if str_eqb f k || (str_eqb f f_expr && str_eqb f_mode k) || (str_eqb f f_mode && str_eqb f_expr k) then None else obj_get k r.
Proof.
  unfold unselect_field. destruct (str_eqb f f_expr), (str_eqb f f_mode); cbn [andb]; rewrite ?obj_get_delete;
    repeat destruct (str_eqb _ k); done.
Qed.

Lemma unselect_ok diffs f r : res_ok diffs r → res_ok diffs (unselect_field f r).
Proof.
  intros [Hn Hx Hpr Hsrc]. split.
  - assert (∀ k (l : ModelResolutions), NoDup (map fst l) → NoDup (map fst (obj_delete k l))) as Hd.
    { intros k l Hl. eapply sublist_NoDup; [exact Hl|apply obj_delete_sublist]. }
    unfold unselect_field. repeat case_match; eauto.
  - intros k Hk. rewrite !unselect_get. destruct (_ || _); [done|]. destruct (_ || _); [done|]. by apply Hx.
  - rewrite !unselect_get. change (str_eqb f_mode f_expr) with false. change (str_eqb f_expr f_mode) with false.
    rewrite !str_eqb_refl, !andb_true_r, !andb_false_r, !orb_false_r, orb_comm. destruct (_ || _); done.
  - intros k w. rewrite !unselect_get. change (str_eqb f_mode f_expr) with false. rewrite str_eqb_refl, andb_true_r, andb_false_r, orb_false_r.
    destruct (_ || _) eqn:E; [done|]. intros [Hl|(-> & -> & He)]%Hsrc; [by left|right].
    split_and!; [done..|]. revert E. rewrite str_eqb_refl, !andb_true_r. change (str_eqb f_expr f_mode) with false.
    rewrite ?andb_false_r, ?orb_false_r. by intros [-> ->]%orb_false_iff.
Qed.
