(* ===== verification/RatioSelections.v ===== *)
(** * Selections of the price sync

    Facts about the operations of [RatioSync]: the invariant of the selections, the effect
    of a sync on the ten stored records, the models that it is confirmed for, and the
    differences that are left. *)

From S2P Require Import Prelude JsString JsNumber Json JsonPretty SettingsJson PricingSheet Maintenance ModelPricing RatioSync.
From Stdlib Require Import NArith ZArith.

(** ** What the server sends *)

(** A value of a field: a finite number where a number is expected, null, or a text. *)
Definition value_ok (f : jstr) (v : json) : Prop :=
  match v with
  | JNull => True
  | JStr s => Forall code_unit s ∧ (has NUMERIC_SYNC_FIELDS f = true → s = js "same")
  | JNum x => num_ok x = true ∧ has NUMERIC_SYNC_FIELDS f = true
  | _ => False
  end.

(** Differences name models and fields once, and every channel has a name. *)
Record diffs_ok (d : DifferencesMap) : Prop := {
  diffs_models : NoDup (map fst d);
  diffs_regular : Forall (λ e, regular e.1) d;
  diffs_fields : Forall (λ e, NoDup (map fst e.2) ∧ Forall (λ fd, fd.1 ∈ SYNC_FIELD_ORDER) e.2) d;
  diffs_values : Forall (λ e, Forall (λ fd, Forall (λ sv, nonempty sv.1 = true ∧ value_ok fd.1 sv.2) (upstreams fd.2)) e.2) d;
}.

Lemma obj_get_Forall {A} (P : jstr * A → Prop) l k v : Forall P l → obj_get k l = Some v → P (k, v).
Proof. rewrite Forall_forall. intros Hl Hk. by apply Hl, obj_get_elem. Qed.

Lemma upstream_ok d model types f source v :
  diffs_ok d → obj_get model d = Some types → upstream_value types f source = Some v →
  regular model ∧ f ∈ SYNC_FIELD_ORDER ∧ nonempty source = true ∧ value_ok f v.
Proof.
  intros [_ Hr Hf Hv] Hm. pose proof (obj_get_Forall _ _ _ _ Hr Hm) as Hr'. pose proof (obj_get_Forall _ _ _ _ Hf Hm) as [_ Hf'].
  pose proof (obj_get_Forall _ _ _ _ Hv Hm) as Hv'. cbn [fst snd] in *.
  unfold upstream_value. destruct (obj_get f types) as [dd|] eqn:E; [|done]. cbn [mbind option_bind]. intros Hs.
  pose proof (obj_get_Forall _ _ _ _ Hf' E). pose proof (obj_get_Forall _ _ _ _ Hv' E) as Hd. cbn [fst snd] in *.
  by pose proof (obj_get_Forall _ _ _ _ Hd Hs) as [? ?].
Qed.

(** ** The selections *)

Definition resolutions_ok (d : DifferencesMap) (res : ResolutionsMap) : Prop :=
  NoDup (map fst res) ∧
  ∀ model r, obj_get model res = Some r → r ≠ [] ∧ ∃ types, obj_get model d = Some types ∧ res_ok types r.

Lemma res_ok_nil types : res_ok types [].
Proof. split; [constructor|done..]. Qed.

Lemma handle_select_ok d res model types f source v :
  obj_get model d = Some types → offers types f source v → resolutions_ok d res →
  resolutions_ok d (handleSelectValue d model f v source res).
Proof.
  intros Hm Ho [Hn Hr]. unfold handleSelectValue. rewrite Hm. split; [by apply obj_set_nodup|].
  intros model' r. rewrite obj_get_set. destruct (str_eqb model model') eqn:E; [|apply Hr].
  apply str_eqb_spec' in E as <-. intros [= <-]. split; [by apply select_nonempty|]. exists types. split; [done|].
  apply select_ok; [done|]. destruct (obj_get model res) as [r|] eqn:Er; [|apply res_ok_nil].
  destruct (Hr _ _ Er) as (_ & types' & Ht & Hok). by simplify_eq.
Qed.

Lemma obj_delete_nodup {A} k (o : list (jstr * A)) : NoDup (map fst o) → NoDup (map fst (obj_delete k o)).
Proof. intros Ho. eapply sublist_NoDup; [exact Ho|apply obj_delete_sublist]. Qed.

Lemma delete_resolution_ok d res model f : resolutions_ok d res → resolutions_ok d (deleteResolutionField res model f).
Proof.
  intros [Hn Hr]. unfold deleteResolutionField. destruct (obj_get model res) as [old|] eqn:Er; [|done].
  destruct (Hr _ _ Er) as (_ & types & Ht & Hok). apply (unselect_ok _ f) in Hok.
  destruct (unselect_field f old) as [|e l] eqn:E.
  - split; [by apply obj_delete_nodup|]. intros model' r. rewrite obj_get_delete. destruct (str_eqb model model'); [done|apply Hr].
  - split; [by apply obj_set_nodup|]. intros model' r. rewrite obj_get_set. destruct (str_eqb model model') eqn:Em; [|apply Hr].
    apply str_eqb_spec' in Em as <-. intros [= <-]. split; [done|]. by exists types.
Qed.

(** ** Whole columns *)

Definition row_in (d : DifferencesMap) (row : DiffRow) : Prop := obj_get (row_model row) d = Some (row_types row).

Lemma data_source_in d : NoDup (map fst d) → Forall (row_in d) (dataSource d).
Proof.
  intros Hn. unfold dataSource. apply Forall_fmap, Forall_forall. intros [model types] Hin. by apply elem_obj_get.
Qed.

Lemma filter_Forall {A} (P : A → Prop) (p : A → bool) l : Forall P l → Forall P (List.filter p l).
Proof. rewrite !Forall_forall. intros H x Hx. apply H. apply list_elem_of_In, filter_In in Hx as [Hx _]. by apply list_elem_of_In. Qed.

Lemma filtered_in `{LowerCase} d search filter : NoDup (map fst d) → Forall (row_in d) (filteredData search filter (dataSource d)).
Proof.
  intros Hn. unfold filteredData. pose proof (data_source_in d Hn).
  destruct (nonempty (trim search)), (_ && _); repeat apply filter_Forall; done.
Qed.

Lemma offered_offers filter upstream row f v :
  nonempty upstream = true → (f, v) ∈ offered filter upstream row → offers (row_types row) f upstream v.
Proof.
  intros Hu. unfold offered. rewrite list_elem_of_omap. intros (k & _ & Hk).
  destruct (upstream_value (row_types row) k upstream) as [w|] eqn:Ew; [|done]. destruct (_ && _) eqn:Eb; [|done].
  injection Hk as -> ->. apply andb_true_iff in Eb as [Hp Hs]. apply str_eqb_spec' in Hp. done.
Qed.

Lemma foldl_inv {A B} (P : A → Prop) (Q : B → Prop) (g : A → B → A) l a :
  (∀ a b, Q b → P a → P (g a b)) → Forall Q l → P a → P (foldl g a l).
Proof. intros Hg Hl. revert a. induction Hl as [|b l Hb Hl IH]; intros a Ha; [done|]. by apply IH, Hg. Qed.

Lemma bulk_select_ok d filter upstream rows res :
  nonempty upstream = true → Forall (row_in d) rows → resolutions_ok d res →
  resolutions_ok d (handleBulkSelect d filter upstream rows res).
Proof.
  intros Hu. unfold handleBulkSelect. apply foldl_inv. clear res. intros res row Hrow.
  apply (foldl_inv _ (λ fv, offers (row_types row) fv.1 upstream fv.2)).
  - intros res' [f v] Ho. by apply (handle_select_ok d res' _ (row_types row)).
  - apply Forall_forall. intros [f v]. by apply offered_offers.
Qed.

Lemma bulk_unselect_ok d filter upstream rows res :
  resolutions_ok d res → resolutions_ok d (handleBulkUnselect filter upstream rows res).
Proof.
  unfold handleBulkUnselect. apply (foldl_inv _ (λ _, True)); [|by apply Forall_forall]. clear res. intros res row _.
  apply (foldl_inv _ (λ _, True)); [|by apply Forall_forall]. intros res' f _ Hr. destruct (upstream_value _ _ _); [by apply delete_resolution_ok|done].
Qed.

(** ** The records that a sync writes *)

(** The field of a record. *)
Definition field_of (s : setting) : jstr :=
  match s with
  | SField FRatio => js "model_ratio"
  | SField FCompletionRatio => js "completion_ratio"
  | SField FCacheRatio => js "cache_ratio"
  | SField FCreateCacheRatio => js "create_cache_ratio"
  | SField FImageRatio => js "image_ratio"
  | SField FAudioRatio => js "audio_ratio"
  | SField FAudioCompletionRatio => js "audio_completion_ratio"
  | SField FPrice => js "model_price"
  | SBillingMode => js "billing_mode"
  | SBillingExpr => js "billing_expr"
  end.

(** The entry of a model with selections after a sync: the selected value; nothing when the
    other kind of price was selected; otherwise what was stored. *)
Definition model_entry (r : ModelResolutions) (s : setting) (old : option json) : option json :=
  match obj_get (field_of s) r with
  | Some v => Some v
  | None =>
    match new_category r with
    | Price => if is_ratio_setting s then None else old
    | Ratio => if bool_decide (s = SField FPrice) then None else old
    | Tiered => old
    end
  end.

Definition synced_entry (res : ResolutionsMap) (m : maps) (s : setting) (name : jstr) : option json :=
  match obj_get name res with
  | None => obj_get name (m s)
  | Some r => model_entry r s (obj_get name (m s))
  end.

Lemma find_setting f :
  f ∈ SYNC_FIELD_ORDER →
  ∃ s, List.find (λ s, str_eqb (option_key s) (optionKeyBySyncField f)) sync_settings = Some s ∧ field_of s = f.
Proof.
  change SYNC_FIELD_ORDER with (map field_of sync_settings). intros (s & -> & _)%list_elem_of_fmap.
  exists s. split; [|done]. destruct s as [[]| |]; vm_compute; reflexivity.
Qed.

Lemma field_of_inj s s' : field_of s = field_of s' → s = s'.
Proof. destruct s as [[]| |], s' as [[]| |]; (reflexivity || discriminate). Qed.

(** What can be stored for a field. *)
Definition storable (e : jstr * json) : Prop :=
  e.1 ∈ SYNC_FIELD_ORDER ∧ stored_value e.1 e.2 = Ret e.2 ∧ json_ok e.2.

Lemma value_storable f v :
  f ∈ SYNC_FIELD_ORDER → value_ok f v → isSelectableUpstreamValue (Some v) = true → storable (f, v).
Proof.
  intros Hf Hv Hs. unfold storable, stored_value. cbn [fst snd]. destruct v as [| |x|s| |]; try done; destruct Hv as [H1 H2].
  - rewrite H2. split_and!; [done..|by constructor].
  - destruct (has NUMERIC_SYNC_FIELDS f); [|split_and!; [done..|by constructor]].
    exfalso. rewrite (H2 eq_refl) in Hs. by vm_compute in Hs.
Qed.

Lemma selection_storable d model types r :
  diffs_ok d → obj_get model d = Some types → res_ok types r → Forall storable r.
Proof.
  intros Hd Hm Hr. apply Forall_forall. intros [f v] Hin. pose proof (elem_obj_get _ _ _ (res_nodup _ _ Hr) Hin) as Hg.
  destruct (res_sourced _ _ Hr _ _ Hg) as [(source & Hu & Hs)|(-> & -> & _)].
  - destruct (upstream_ok _ _ _ _ _ _ Hd Hm Hu) as (_ & Hf & _ & Hv). by apply value_storable.
  - split_and!; cbn [fst snd]; [|reflexivity|by constructor; apply code_units_b; vm_compute].
    apply (bool_decide_eq_true_1 _). vm_compute. reflexivity.
Qed.

Lemma set_field_ok model m f v :
  is_proto model = false → storable (f, v) → (∀ s, json_ok (JObj (m s))) → Forall code_unit model →
  ∃ m', set_field model m (f, v) = Ret m' ∧ (∀ s, json_ok (JObj (m' s))) ∧
    ∀ s k, obj_get k (m' s) = if bool_decide (field_of s = f ∧ k = model) then Some v else obj_get k (m s).
Proof.
  intros Hp (Hf & Hs & Hj) Hm Hu. cbn [fst snd] in *. unfold set_field. rewrite Hs. cbn [mbind exn_bind]. unfold set_option.
  destruct (find_setting f Hf) as (s0 & -> & <-). eexists. split; [done|]. unfold assign_prop. rewrite Hp. split.
  - intros s. destruct (decide (s = s0)); [by apply json_ok_set|done].
  - intros s k. destruct (decide (s = s0)) as [->|Hne].
    + rewrite obj_get_set. unfold str_eqb. repeat case_bool_decide; naive_solver.
    + rewrite bool_decide_eq_false_2; [done|]. intros [?%field_of_inj _]. done.
Qed.

Lemma set_fields_ok model r m :
  is_proto model = false → Forall code_unit model → NoDup (map fst r) → Forall storable r → (∀ s, json_ok (JObj (m s))) →
  ∃ m', for_each (set_field model) m r = Ret m' ∧ (∀ s, json_ok (JObj (m' s))) ∧
    ∀ s k, obj_get k (m' s) = if decide (k = model) then match obj_get (field_of s) r with Some v => Some v | None => obj_get k (m s) end
                              else obj_get k (m s).
Proof.
  intros Hp Hu Hn Hs. revert m. induction Hs as [|[f v] r Hv Hs IH]; intros m Hm; cbn [for_each].
  { exists m. split_and!; [done..|]. intros s k. by destruct (decide _). }
  apply NoDup_cons in Hn as [Hf Hn]. destruct (set_field_ok model m f v Hp Hv Hm Hu) as (m1 & -> & Hm1 & Hg1). cbn [mbind exn_bind].
  destruct (IH Hn m1 Hm1) as (m2 & -> & Hm2 & Hg2). exists m2. split_and!; [done..|]. intros s k. rewrite Hg2, Hg1. cbn [obj_get].
  destruct (decide (k = model)) as [->|Hk]; [|by rewrite bool_decide_eq_false_2 by tauto].
  unfold str_eqb. destruct (decide (f = field_of s)) as [->|Hne].
  - rewrite (bool_decide_eq_true_2 (field_of s = field_of s)) by done. rewrite obj_get_none by done. by rewrite bool_decide_eq_true_2.
  - rewrite (bool_decide_eq_false_2 (f = field_of s)) by done. by rewrite bool_decide_eq_false_2 by naive_solver.
Qed.

Lemma has_elem l f : has l f = true ↔ f ∈ l.
Proof.
  unfold has. rewrite existsb_exists. split.
  - intros (x & Hx & ->%str_eqb_spec'). by apply list_elem_of_In.
  - intros Hf. exists f. by rewrite str_eqb_refl, <- list_elem_of_In.
Qed.

Lemma has_present {A} (r : list (jstr * A)) f : has (map fst r) f = present f r.
Proof.
  unfold present. destruct (obj_get f r) as [v|] eqn:E.
  - apply has_elem, list_elem_of_fmap. apply obj_get_elem in E. by exists (f, v).
  - apply not_true_iff_false. rewrite has_elem. intros [v Hv]%obj_get_in. congruence.
Qed.

Lemma has_swap l l' : existsb (has l) l' = existsb (has l') l.
Proof.
  apply eq_true_iff_eq. rewrite !existsb_exists. setoid_rewrite has_elem. setoid_rewrite <- list_elem_of_In. naive_solver.
Qed.

Lemma price_excludes types r :
  res_ok types r → present f_price r = true → existsb (has RATIO_SYNC_FIELDS) (map fst r) = false.
Proof.
  intros Hr Hp. apply not_true_iff_false. rewrite existsb_exists. intros (f & Hf & Hin).
  apply list_elem_of_In, obj_get_in in Hf as [v Hv]. unfold present in Hp.
  rewrite (res_exclusive _ _ Hr f) in Hp; [done| |congruence].
  apply has_elem in Hin. clear Hv. revert f Hin. apply Forall_forall. unfold RATIO_SYNC_FIELDS. repeat constructor.
Qed.

Lemma sync_model_ok types model r m :
  regular model → res_ok types r → Forall storable r → (∀ s, json_ok (JObj (m s))) →
  ∃ m', sync_model m (model, r) = Ret m' ∧ (∀ s, json_ok (JObj (m' s))) ∧
    ∀ s k, obj_get k (m' s) = if decide (k = model) then model_entry r s (obj_get k (m s)) else obj_get k (m s).
Proof.
  intros Hreg Hr Hs Hm. unfold sync_model.
  destruct (set_fields_ok model r (clear_conflicts model r m)) as (m' & -> & Hm' & Hg); [by apply regular_proto|by destruct Hreg|apply Hr|done| |].
  { intros s. unfold clear_conflicts. destruct (_ || _); [by apply json_ok_delete|done]. }
  exists m'. split_and!; [done..|]. intros s k. rewrite Hg. unfold model_entry, new_category, clear_conflicts.
  rewrite (has_swap (map fst r)), has_present. pose proof (price_excludes types r Hr) as Hx.
  destruct (decide (k = model)) as [->|Hk].
  - destruct (obj_get (field_of s) r); [done|]. destruct (present f_price r); cbn [andb orb]; [rewrite Hx by done|destruct (existsb _ _)]; cbn [andb orb];
      rewrite ?orb_false_r; repeat case_match; rewrite ?obj_get_delete, ?str_eqb_refl; try done.
  - destruct (_ || _); [|done]. rewrite obj_get_delete. unfold str_eqb. by rewrite bool_decide_eq_false_2.
Qed.

(** A sync of any number of models. *)
Lemma perform_sync_ok d res m :
  diffs_ok d → resolutions_ok d res → (∀ s, json_ok (JObj (m s))) →
  ∃ m', performSync res m = Ret m' ∧ (∀ s, json_ok (JObj (m' s))) ∧ ∀ s k, obj_get k (m' s) = synced_entry res m s k.
Proof.
  intros Hd [Hn Hr]. assert (Forall (λ e, ∃ types, obj_get e.1 d = Some types ∧ res_ok types e.2) res) as Hf.
  { apply Forall_forall. intros [n r] Hin. apply elem_obj_get in Hin; [|done]. by destruct (Hr _ _ Hin) as [_ ?]. }
  clear Hr. unfold performSync, synced_entry. revert m Hn. induction Hf as [|[n r] res (types & Ht & Hok) Hf IH]; intros m Hn Hm; cbn [for_each].
  { by exists m. }
  cbn [fst snd] in *. apply NoDup_cons in Hn as [Hnot Hn].
  assert (regular n) as Hreg by exact (obj_get_Forall _ _ _ _ (diffs_regular _ Hd) Ht).
  destruct (sync_model_ok types n r m Hreg Hok (selection_storable _ _ _ _ Hd Ht Hok) Hm) as (m1 & -> & Hm1 & Hg1). cbn [mbind exn_bind].
  destruct (IH m1 Hn Hm1) as (m2 & -> & Hm2 & Hg2). exists m2. split_and!; [done..|]. intros s k. rewrite Hg2, Hg1. cbn [obj_get].
  unfold str_eqb. destruct (decide (k = n)) as [->|Hk].
  - rewrite bool_decide_eq_true_2 by done. by rewrite obj_get_none.
  - by rewrite bool_decide_eq_false_2.
Qed.

(** ** Kinds of billing *)
Lemma present_iff {A} k (o : list (jstr * A)) : present k o = true ↔ obj_get k o ≠ None.
Proof. unfold present. by destruct (obj_get k o). Qed.

Lemma local_category_ext n m m' :
  (∀ f, obj_get n (m (SField f)) = obj_get n (m' (SField f))) → getLocalBillingCategory n m = getLocalBillingCategory n m'.
Proof. intros H. unfold getLocalBillingCategory, present. cbn [List.filter is_ratio_setting sync_settings existsb]. by rewrite !H. Qed.

Lemma numeric_field s r : new_category r = Tiered → is_ratio_setting s = true ∨ s = SField FPrice → obj_get (field_of s) r = None.
Proof.
  unfold new_category. destruct (present f_price r) eqn:Ep; [done|]. destruct (existsb _ _) eqn:Ee; [done|]. intros _ [Hs| ->].
  - rewrite existsb_false in Ee. assert (field_of s ∈ RATIO_SYNC_FIELDS) as Hin.
    { apply has_elem. destruct s as [[]| |]; try done; vm_compute; reflexivity. }
    rewrite Forall_forall in Ee. apply Ee in Hin. rewrite has_present in Hin. unfold present in Hin. by destruct (obj_get _ r).
  - unfold present in Ep. cbn [field_of]. by destruct (obj_get f_price r).
Qed.

(** The kind of billing of a model after a sync. *)
Lemma synced_category res m m' n r :
  (∀ s, obj_get n (m' s) = synced_entry res m s n) → obj_get n res = Some r →
  getLocalBillingCategory n m' = if bool_decide (new_category r = Tiered) then getLocalBillingCategory n m else Some (new_category r).
Proof.
  intros Hg Hn. unfold synced_entry in Hg. rewrite Hn in Hg. destruct (new_category r) eqn:Ec.
  - rewrite bool_decide_eq_false_2 by done. unfold getLocalBillingCategory, present. rewrite Hg. unfold model_entry. cbn [field_of].
    unfold new_category, present in Ec. destruct (obj_get f_price r); [done|]. by destruct (existsb _ _) in Ec.
  - rewrite bool_decide_eq_false_2 by done. unfold getLocalBillingCategory.
    assert (present n (m' (SField FPrice)) = false) as ->.
    { unfold present. rewrite Hg. unfold model_entry. cbn [field_of]. rewrite Ec. unfold new_category, present in Ec.
      by destruct (obj_get f_price r). }
    assert (existsb (λ s, present n (m' s)) (List.filter is_ratio_setting sync_settings) = true) as ->; [|done].
    unfold new_category in Ec. destruct (present f_price r); [done|]. destruct (existsb _ _) eqn:Ee; [|done].
    apply existsb_exists in Ee as (f & Hf & Hr). rewrite has_present, present_iff in Hr.
    change RATIO_SYNC_FIELDS with (map field_of (List.filter is_ratio_setting sync_settings)) in Hf.
    apply in_map_iff in Hf as (s & <- & Hs). apply existsb_exists. exists s. split; [done|]. apply present_iff.
    rewrite Hg. unfold model_entry. by destruct (obj_get (field_of s) r).
  - rewrite bool_decide_eq_true_2 by done. apply local_category_ext. intros f. rewrite Hg. unfold model_entry.
    rewrite numeric_field, Ec; [done|done|]. destruct f; naive_solver.
Qed.

(** The dialog lists exactly the models whose kind of billing a sync changes. *)
Lemma conflicts_listed t d res m m' n :
  NoDup (map fst res) → (∀ s, obj_get n (m' s) = synced_entry res m s n) →
  n ∈ map model (conflicts t d m res) ↔
  ∃ c c', getLocalBillingCategory n m = Some c ∧ getLocalBillingCategory n m' = Some c' ∧ c ≠ c'.
Proof.
  intros Hn Hg. unfold conflicts. rewrite list_elem_of_fmap. setoid_rewrite list_elem_of_omap. split.
  - intros (item & -> & [k r] & Hin & Hc). unfold conflict_of in Hc. destruct (getLocalBillingCategory k m) as [c|] eqn:El; [|done].
    destruct (_ && _) eqn:Eb; [|done]. injection Hc as <-. cbn [model] in *. apply elem_obj_get in Hin; [|done].
    apply andb_true_iff in Eb as [Ht Hd]. apply negb_true_iff, bool_decide_eq_false in Ht, Hd.
    exists c, (new_category r). split_and!; [done| |done]. rewrite (synced_category res m m' k r Hg Hin). by rewrite bool_decide_eq_false_2.
  - intros (c & c' & Hc & Hc' & Hne). destruct (obj_get n res) as [r|] eqn:Er.
    + pose proof (synced_category res m m' n r Hg Er) as Hs. rewrite Hc' in Hs. destruct (decide (new_category r = Tiered)) as [Ht|Ht].
      { rewrite bool_decide_eq_true_2 in Hs by done. congruence. }
      rewrite bool_decide_eq_false_2 in Hs by done. injection Hs as ->.
      eexists. split; [|exists (n, r); split; [by apply obj_get_elem|]]; [|unfold conflict_of; rewrite Hc].
      2: rewrite (bool_decide_eq_false_2 (new_category r = Tiered)), (bool_decide_eq_false_2 (c = new_category r)) by done; reflexivity.
      reflexivity.
    + unfold synced_entry in Hg. rewrite Er in Hg. rewrite (local_category_ext n m' m) in Hc' by (intros f; apply Hg). congruence.
Qed.

(** ** Differences after a sync *)

Definition difference (d : DifferencesMap) (name f : jstr) : option RatioDifference := types ← obj_get name d; obj_get f types.

Definition no_empty_model (d : DifferencesMap) : Prop := ∀ n, obj_get n d ≠ Some [].

Lemma remove_resolved_get n f st :
  let d := (remove_resolved n st f).2 in
  (∀ n' f', difference d n' f' = if bool_decide (n' = n ∧ f' = f) then None else difference st.2 n' f') ∧
  (no_empty_model st.2 → no_empty_model d).
Proof.
  destruct st as [prev new]. unfold remove_resolved, difference, no_empty_model. cbn [snd].
  destruct (obj_get n new) as [types|] eqn:En.
  2: { split; [|done]. intros n' f'. case_bool_decide as Hb; [|done]. destruct Hb as [-> ->]. cbn [snd]. by rewrite En. }
  destruct (present f types) eqn:Ep; cbn [snd].
  2: { split; [|done]. intros n' f'. case_bool_decide as Hb; [|done]. destruct Hb as [-> ->]. rewrite En. cbn [mbind option_bind].
       unfold present in Ep. by destruct (obj_get f types). }
  assert (∀ f', obj_get f' (obj_delete f types) = if decide (f' = f) then None else obj_get f' types) as Hd.
  { intros f'. rewrite obj_get_delete. unfold str_eqb. repeat (case_bool_decide || case_decide); congruence. }
  destruct (obj_delete f types) as [|e l]; split.
  - intros n' f'. rewrite obj_get_delete. unfold str_eqb. destruct (decide (n = n')) as [<-|Hn].
    + rewrite (bool_decide_eq_true_2 (n = n)) by done. rewrite En. cbn [mbind option_bind]. specialize (Hd f').
      case_bool_decide; [done|]. rewrite decide_False in Hd by naive_solver. done.
    + rewrite !bool_decide_eq_false_2 by naive_solver. done.
  - intros He n'. rewrite obj_get_delete. destruct (str_eqb n n'); [done|apply He].
  - intros n' f'. rewrite obj_get_set. unfold str_eqb. destruct (decide (n = n')) as [<-|Hn].
    + rewrite (bool_decide_eq_true_2 (n = n)) by done. rewrite En. cbn [mbind option_bind]. rewrite Hd.
      repeat (case_bool_decide || case_decide); naive_solver.
    + rewrite !bool_decide_eq_false_2 by naive_solver. done.
  - intros He n'. rewrite obj_get_set. destruct (str_eqb n n'); [done|apply He].
Qed.

Lemma remove_fields_get n fs st :
  let d := (foldl (remove_resolved n) st fs).2 in
  (∀ n' f', difference d n' f' = if bool_decide (n' = n ∧ f' ∈ fs) then None else difference st.2 n' f') ∧
  (no_empty_model st.2 → no_empty_model d).
Proof.
  revert st. induction fs as [|f fs IH]; intros st; cbn [foldl].
  { split; [|done]. intros n' f'. by rewrite bool_decide_eq_false_2 by (intros [_ H]; by apply not_elem_of_nil in H). }
  destruct (remove_resolved_get n f st) as [H1 H2]. destruct (IH (remove_resolved n st f)) as [H3 H4]. split; [|by auto].
  intros n' f'. rewrite H3, H1. repeat case_bool_decide; set_solver.
Qed.

(** Exactly the resolved fields go, and no model is left without a field. *)
Lemma drop_resolved_get res d :
  NoDup (map fst res) →
  (∀ n f, difference (drop_resolved res d).2 n f =
    match selection res n f with Some _ => None | None => difference d n f end) ∧
  (no_empty_model d → no_empty_model (drop_resolved res d).2).
Proof.
  unfold drop_resolved. change (difference d) with (difference (d, d).2). change (no_empty_model d) with (no_empty_model (d, d).2).
  generalize (d, d). induction res as [|[n r] res IH]; intros st Hn; cbn [foldl]; [by split|].
  apply NoDup_cons in Hn as [Hnot Hn]. destruct (remove_fields_get n (map fst r) st) as [H1 H2].
  destruct (IH (foldl (remove_resolved n) st (map fst r)) Hn) as [H3 H4]. split; [|by auto].
  intros n' f'. rewrite H3, H1. unfold selection. cbn [obj_get fst] in *. unfold str_eqb. destruct (decide (n = n')) as [<-|Hne].
  - rewrite (bool_decide_eq_true_2 (n = n)), (obj_get_none n res) by done. cbn [mbind option_bind].
    pose proof (has_present r f') as Hp. unfold present in Hp. destruct (obj_get f' r).
    + apply has_elem in Hp. by rewrite bool_decide_eq_true_2.
    + apply not_true_iff_false in Hp. rewrite has_elem in Hp. by rewrite bool_decide_eq_false_2 by tauto.
  - rewrite !bool_decide_eq_false_2 by naive_solver. done.
Qed.

Lemma delete_Forall {A} (P : jstr * A → Prop) k l : Forall P l → Forall P (obj_delete k l).
Proof. apply filter_Forall. Qed.

Lemma remove_resolved_ok n f st : diffs_ok st.2 → diffs_ok (remove_resolved n st f).2.
Proof.
  destruct st as [prev new]. cbn [snd]. intros Hd. unfold remove_resolved. destruct (obj_get n new) as [types|] eqn:En; [|done].
  destruct (present f types); [|done]. cbn [snd]. destruct Hd as [H1 H2 H3 H4].
  pose proof (obj_get_Forall _ _ _ _ H2 En) as R2. pose proof (obj_get_Forall _ _ _ _ H3 En) as [R3 R3'].
  pose proof (obj_get_Forall _ _ _ _ H4 En) as R4. cbn [fst snd] in *.
  pose proof (obj_delete_nodup f types R3). pose proof (delete_Forall _ f _ R3'). pose proof (delete_Forall _ f _ R4).
  destruct (obj_delete f types) as [|e l]; split; eauto using obj_delete_nodup, obj_set_nodup, delete_Forall.
  all: apply obj_set_Forall; done.
Qed.

Lemma drop_resolved_ok res d : diffs_ok d → diffs_ok (drop_resolved res d).2.
Proof.
  intros Hd. unfold drop_resolved. apply (foldl_inv (λ st, diffs_ok st.2) (λ _, True)); [|by apply Forall_forall|done].
  intros st [n r] _ Hst. apply (foldl_inv (λ st, diffs_ok st.2) (λ _, True)); [|by apply Forall_forall|done].
  intros st' f _. apply remove_resolved_ok.
Qed.
