(* ===== verification/RatioPage.v ===== *)
(** * The page of the price sync

    The states that the page of [RatioSync] reaches: differences are fetched, values are
    selected one by one or by column, and the selections are written to the server, after
    a confirmation when the kind of billing of a model changes.  Components are those of
    [UpstreamRatioSync] in [upstream-ratio-sync.tsx]. *)

From S2P Require Import Prelude JsString JsNumber Json JsonPretty SettingsJson Pricing PricingSheet Maintenance ModelPricing.
From S2P Require Import RatioSync RatioSelections.
From Stdlib Require Import NArith ZArith.

(** ** States *)

(** [shown] are the texts that the page was given, [stored] those of the server. *)
Record page := {
  differences : DifferencesMap;
  resolutions : ResolutionsMap;
  conflictItems : list ConflictItem;
  conflictDialogOpen : bool;
  shown : texts;
  stored : texts;
}.

Definition open_page (t : texts) : page := {|
  differences := []; resolutions := []; conflictItems := []; conflictDialogOpen := false; shown := t; stored := t |}.

Definition set_resolutions (res : ResolutionsMap) (p : page) : page := {|
  differences := differences p; resolutions := res; conflictItems := conflictItems p;
  conflictDialogOpen := conflictDialogOpen p; shown := shown p; stored := stored p |}.

(** A successful answer of the comparison. *)
Definition on_fetched (d : DifferencesMap) (p : page) : page := {|
  differences := d; resolutions := []; conflictItems := conflictItems p;
  conflictDialogOpen := conflictDialogOpen p; shown := shown p; stored := stored p |}.

Definition show_conflicts (items : list ConflictItem) (p : page) : page := {|
  differences := differences p; resolutions := resolutions p; conflictItems := items;
  conflictDialogOpen := true; shown := shown p; stored := stored p |}.

Definition close_dialog (p : page) : page := {|
  differences := differences p; resolutions := resolutions p; conflictItems := conflictItems p;
  conflictDialogOpen := false; shown := shown p; stored := stored p |}.

Definition on_texts (shown' stored' : texts) (p : page) : page := {|
  differences := differences p; resolutions := resolutions p; conflictItems := conflictItems p;
  conflictDialogOpen := conflictDialogOpen p; shown := shown'; stored := stored' |}.

(** The requests of a sync and [onSuccess] or [onError]; a dialog is closed on success. *)
Definition finish_sync (reply : setting → answer) (finalRatios : maps) (p : page) : page :=
  let '(stored', ok) := send_updates reply (updates finalRatios) (stored p) in
  if ok then {|
    differences := (drop_resolved (resolutions p) (differences p)).2; resolutions := [];
    conflictItems := conflictItems p; conflictDialogOpen := false; shown := shown p; stored := stored' |}
  else on_texts (shown p) stored' p.

Section page.
Context `{LowerCase}.
Context (t : jstr → jstr).

(** [handleApplySync]: the button needs a selection. *)
Definition handleApplySync (reply : setting → answer) (m : maps) (p : page) : exn page :=
  match conflicts t (differences p) m (resolutions p) with
  | [] => m' ← performSync (resolutions p) m; Ret (finish_sync reply m' p)
  | items => Ret (show_conflicts items p)
  end.

Definition handleConfirmConflict (reply : setting → answer) (m : maps) (p : page) : exn page :=
  m' ← performSync (resolutions p) m; Ret (finish_sync reply m' p).

(** The controls of the table are those of the rows that the search and the filter leave;
    a dialog covers them. *)
Inductive page_step : page → page → Prop :=
  | step_fetch d p : diffs_ok d → no_empty_model d → conflictDialogOpen p = false → page_step p (on_fetched d p)
  | step_select p search filter row f source v :
      conflictDialogOpen p = false →
      row ∈ filteredData search filter (dataSource (differences p)) → f ∈ cell_fields filter source row →
      source ∈ upstreamNames filter (filteredData search filter (dataSource (differences p))) →
      upstream_value (row_types row) f source = Some v → isSelectableUpstreamValue (Some v) = true →
      page_step p (set_resolutions (handleSelectValue (differences p) (row_model row) f v source (resolutions p)) p)
  | step_unselect p name f :
      conflictDialogOpen p = false →
      page_step p (set_resolutions (deleteResolutionField (resolutions p) name f) p)
  | step_bulk_select p search filter source :
      conflictDialogOpen p = false →
      source ∈ upstreamNames filter (filteredData search filter (dataSource (differences p))) →
      page_step p (set_resolutions
        (handleBulkSelect (differences p) filter source (filteredData search filter (dataSource (differences p))) (resolutions p)) p)
  | step_bulk_unselect p search filter source :
      conflictDialogOpen p = false →
      page_step p (set_resolutions
        (handleBulkUnselect filter source (filteredData search filter (dataSource (differences p))) (resolutions p)) p)
  | step_apply p p' m reply :
      conflictDialogOpen p = false → resolutions p ≠ [] → parsedRatios (shown p) = Some m →
      handleApplySync reply m p = Ret p' → page_step p p'
  | step_confirm p p' m reply :
      conflictDialogOpen p = true → parsedRatios (shown p) = Some m →
      handleConfirmConflict reply m p = Ret p' → page_step p p'
  | step_cancel p : page_step p (close_dialog p)
  | step_reload p stored' : page_step p (on_texts stored' stored' p).

Inductive reachable (t0 : texts) : page → Prop :=
  | reach_open : reachable t0 (open_page t0)
  | reach_step p p' : reachable t0 p → page_step p p' → reachable t0 p'.

(** ** The invariant *)

Definition page_ok (p : page) : Prop :=
  diffs_ok (differences p) ∧ no_empty_model (differences p) ∧ resolutions_ok (differences p) (resolutions p) ∧
  (conflictDialogOpen p = true → resolutions p ≠ []).

Lemma no_resolutions d : resolutions_ok d [].
Proof. split; [constructor|done]. Qed.

(** The columns are channels of some difference, which have names. *)
Lemma upstream_named d filter rows source :
  diffs_ok d → Forall (row_in d) rows → source ∈ upstreamNames filter rows → nonempty source = true.
Proof.
  intros Hd Hrows. unfold upstreamNames. rewrite elem_of_dedup. setoid_rewrite list_elem_of_In. rewrite in_concat.
  intros (l & Hl & Hs). apply in_map_iff in Hl as (row & <- & Hrow). apply in_concat in Hs as (l & Hl & Hs).
  apply in_map_iff in Hl as (f & <- & _). destruct (obj_get f (row_types row)) as [dd|] eqn:E; [|done].
  rewrite Forall_forall in Hrows. apply list_elem_of_In, Hrows in Hrow.
  apply list_elem_of_In, obj_get_in in Hs as [v Hv].
  destruct (upstream_ok d _ _ f source v Hd Hrow) as (_ & _ & ? & _); [|done]. unfold upstream_value. by rewrite E.
Qed.

Lemma finish_ok reply m p : page_ok p → page_ok (finish_sync reply m p).
Proof.
  intros (Hd & He & Hr & Hc). unfold finish_sync. destruct (send_updates _ _ _) as [s []]; [|done].
  split_and!; cbn [differences resolutions conflictDialogOpen]; [by apply drop_resolved_ok| |apply no_resolutions|done].
  apply drop_resolved_get; [by destruct Hr|done].
Qed.

Lemma delete_keeps_closed p res : page_ok p → conflictDialogOpen p = false → resolutions_ok (differences p) res → page_ok (set_resolutions res p).
Proof. intros (Hd & He & _ & _) Hc Hr. split_and!; [done..|]. intros Ho. exfalso. cbn in Ho. congruence. Qed.

Lemma step_ok p p' : page_ok p → page_step p p' → page_ok p'.
Proof.
  intros Hok Hstep. pose proof Hok as (Hd & He & Hr & Hc). pose proof (λ s f, filtered_in (differences p) s f (diffs_models _ Hd)) as Hrows.
  destruct Hstep as [d p Hnd Hne Hcl|p search filter row f source v Hcl Hrow Hf Hsrc Hv Hsel|p name f Hcl|p search filter source Hcl Hs
    |p search filter source Hcl|p p' m reply Hcl Hne Hm Ha|p p' m reply Hcl Hm Ha|p|p st].
  - split_and!; [done..|apply no_resolutions|]. cbn. congruence.
  - apply delete_keeps_closed; [done..|]. assert (row_in (differences p) row) as Hin by (specialize (Hrows search filter); rewrite Forall_forall in Hrows; by apply Hrows).
    apply (handle_select_ok _ _ _ (row_types row)); [done| |done].
    split_and!; [by eapply upstream_named|done..|]. unfold cell_fields in Hf. apply list_elem_of_In, filter_In in Hf as [_ Hf]. by apply str_eqb_spec'.
  - apply delete_keeps_closed; [done..|]. by apply delete_resolution_ok.
  - apply delete_keeps_closed; [done..|]. apply bulk_select_ok; [by eapply upstream_named|done..].
  - apply delete_keeps_closed; [done..|]. by apply bulk_unselect_ok.
  - unfold handleApplySync in Ha. destruct (conflicts _ _ _ _) as [|item items].
    + destruct (performSync _ _) as [m'|]; [|done]. injection Ha as <-. by apply finish_ok.
    + injection Ha as <-. split_and!; [done..|]. done.
  - unfold handleConfirmConflict in Ha. destruct (performSync _ _) as [m'|]; [|done]. injection Ha as <-. by apply finish_ok.
  - split_and!; [done..|]. done.
  - split_and!; [done..|]. done.
Qed.

Lemma reachable_ok t0 p : reachable t0 p → page_ok p.
Proof.
  induction 1 as [|p p' _ IH Hs]; [|by eapply step_ok].
  split_and!; [|done|apply no_resolutions|done]. split; cbn [differences open_page]; constructor.
Qed.

(** C15: what is selected on the page, in every state that it reaches: a fixed price and
    ratios of one model are never selected together, an expression is never selected
    without a billing mode, no model is listed without a selection, and every
    selected value is one that a channel offers for that model and field, apart from
    the mode that an expression implies. *)
Theorem selections_consistent t0 p :
  reachable t0 p → ∀ name r, obj_get name (resolutions p) = Some r →
  r ≠ [] ∧
  (∀ f, f ∈ RATIO_SYNC_FIELDS → obj_get f r ≠ None → obj_get (js "model_price") r = None) ∧
  (obj_get (js "billing_expr") r ≠ None → obj_get (js "billing_mode") r ≠ None) ∧
  (∀ f v, obj_get f r = Some v →
    (∃ source, upstream_value (default [] (obj_get name (differences p))) f source = Some v ∧ isSelectableUpstreamValue (Some v) = true) ∨
    (f = js "billing_mode" ∧ v = JStr (js "tiered_expr") ∧ obj_get (js "billing_expr") r ≠ None)).
Proof.
  intros (_ & _ & [_ Hr] & _)%reachable_ok name r Hn. destruct (Hr _ _ Hn) as (Hne & types & -> & [_ Hx Hp Hs]).
  split_and!; [done| |done|done]. intros f Hf. apply Hx. revert f Hf. apply Forall_forall. unfold RATIO_SYNC_FIELDS. repeat constructor.
Qed.

(** ** Writing *)
Lemma send_accepted m st : let '(st', ok) := send_updates (λ _, Accepted) (updates m) st in ok = true ∧ ∀ s, st' s = write_maps m s.
Proof.
  unfold updates, sync_settings. cbn [map send_updates]. split; [done|]. intros s. unfold write_maps.
  destruct s as [[]| |]; repeat (rewrite decide_False by done); by rewrite decide_True.
Qed.

Lemma parsed_written st m :
  (∀ s, st s = write_maps m s) → (∀ s, json_ok (JObj (m s))) → ∃ m', parsedRatios st = Some m' ∧ ∀ s, m' s = m s.
Proof.
  intros Hst Hok. assert (∀ s, parseJsonRecord (st s) = JObj (m s)) as Hp.
  { intros s. rewrite Hst. unfold parseJsonRecord, write_maps. destruct (pretty_obj_trim (m s)) as [_ Hne].
    destruct (stringify_pretty (JObj (m s))) eqn:E; [done|]. cbn [nonempty]. rewrite <- E. by rewrite json_parse_pretty. }
  unfold parsedRatios. rewrite (proj2 (forallb_Forall _ _)); [|apply Forall_forall; intros s _; by rewrite Hp].
  eexists. split; [done|]. intros s. cbn beta. by rewrite Hp.
Qed.

Lemma parsed_shown st m : parsedRatios st = Some m → ∀ s, own_props (parseJsonRecord (st s)) = m s.
Proof. unfold parsedRatios. destruct (forallb _ _); [|done]. by intros [= <-]. Qed.

(** A row shows no conflict when one kind of price is missing. *)
Lemma row_no_conflict native m n row :
  inherited n = false → obj_get n (m (SField FPrice)) = None ∨ (∀ s, is_ratio_setting s = true → obj_get n (m s) = None) →
  row_of native m n = Ret row → r_hasConflict row = false.
Proof.
  intros Hi Hn. assert (∀ f, obj_get n (m (SField f)) = None → read_text native (m (SField f)) n = Ret []) as Hread.
  { intros f Hf. unfold read_text. by rewrite Hf, Hi. }
  unfold row_of, read_values. destruct (forallb _ _); [|done]. cbn [mbind exn_bind].
  destruct (is_tiered m n); [by destruct (split_stored m n); intros [= <-]|]. intros [= <-]. cbn [plain_row r_hasConflict].
  destruct Hn as [Hn|Hn]; [by rewrite Hread|]. unfold token_priced. cbn [existsb]. 
  rewrite (Hread FRatio), (Hread FCompletionRatio), (Hread FCacheRatio), (Hread FCreateCacheRatio), (Hread FImageRatio),
    (Hread FAudioRatio), (Hread FAudioCompletionRatio) by (by apply Hn). apply andb_false_r.
Qed.

(** A selected kind of price leaves no entry of the other. *)
Lemma one_kind_left types r old :
  res_ok types r → new_category r ≠ Tiered →
  model_entry r (SField FPrice) (old (SField FPrice)) = None ∨ (∀ s, is_ratio_setting s = true → model_entry r s (old s) = None).
Proof.
  intros Hr Hc. unfold model_entry. destruct (new_category r) eqn:E; [right|left|done].
  - intros s Hs. rewrite Hs. destruct (obj_get (field_of s) r) eqn:Ef; [|done]. exfalso.
    assert (getBillingCategory (field_of s) = Ratio) as Hcat by (destruct s as [[]| |]; done).
    pose proof (res_exclusive _ _ Hr _ Hcat) as Hx. rewrite Ef in Hx. unfold new_category, present in E. rewrite Hx in E by done.
    by destruct (existsb _ _).
  - cbn [field_of]. unfold new_category, present in E. by destruct (obj_get f_price r).
Qed.

(** C13: What a sync does, from every state of the page in which each text that the page was
    given holds an object, is empty or cannot be read. It starts from the records that the page
    shows and cannot fail before the requests are sent; every record that is sent is the shown
    one with the selected values, without the entries of the other kind of price of the selected
    models, and otherwise unchanged. Once the requests are accepted the stored texts hold exactly
    these records, nothing is selected, and exactly the differences that were resolved are gone;
    so when the page shows what is stored, the sync keeps every stored entry but these. In the
    table of prices the models without a selection have the rows of the shown records, and no model
    whose price or ratios were selected has a conflict. *)
Theorem sync_refines `{Collation} native t0 p m :
  reachable t0 p → parsedRatios (shown p) = Some m → (∀ s, json_ok (JObj (m s))) →
  ∃ m', performSync (resolutions p) m = Ret m' ∧
    (∀ s n, obj_get n (m' s) = synced_entry (resolutions p) m s n) ∧
    (let p' := finish_sync (λ _, Accepted) m' p in
      (∃ m2, parsedRatios (stored p') = Some m2 ∧ (∀ s, m2 s = m' s) ∧
        ((∀ s, shown p s = stored p s) → ∀ s n,
          obj_get n (m2 s) = synced_entry (resolutions p) (λ s, own_props (parseJsonRecord (stored p s))) s n)) ∧
      resolutions p' = [] ∧
      (∀ n f, difference (differences p') n f = match selection (resolutions p) n f with Some _ => None | None => difference (differences p) n f end)) ∧
    (∀ n, obj_get n (resolutions p) = None → row_of native m' n ≡ row_of native m n) ∧
    (∀ n r row, obj_get n (resolutions p) = Some r → new_category r ≠ Tiered → row_of native m' n = Ret row → r_hasConflict row = false).
Proof.
  intros (Hd & _ & Hr & _)%reachable_ok Hm Hok. destruct (perform_sync_ok _ _ m Hd Hr Hok) as (m' & Hp & Hok' & Hg).
  exists m'. split_and!; [done|done|..].
  - unfold finish_sync. pose proof (send_accepted m' (stored p)) as Hs. destruct (send_updates _ _ _) as [st' ok]. destruct Hs as [-> Hs].
    cbn [stored resolutions differences]. split_and!; [|done|apply drop_resolved_get; by destruct Hr].
    destruct (parsed_written st' m' Hs Hok') as (m2 & H2 & Heq). exists m2. split_and!; [done|done|].
    intros Hsame s n. rewrite Heq, Hg. unfold synced_entry. by rewrite <- (parsed_shown _ _ Hm), Hsame.
  - intros n Hn. apply row_of_ext. intros s. rewrite Hg. unfold synced_entry. by rewrite Hn.
  - intros n r row Hn Hc. destruct Hr as [_ Hr]. destruct (Hr _ _ Hn) as (_ & types & Ht & Hres).
    pose proof (obj_get_Forall _ _ _ _ (diffs_regular _ Hd) Ht) as [_ Hreg]. cbn [fst] in Hreg.
    apply row_no_conflict; [by apply bool_decide_eq_false_2|]. setoid_rewrite Hg. unfold synced_entry. rewrite Hn. by apply (one_kind_left types r (λ s, obj_get n (m s))).
Qed.

(** A sync never removes the last kind of billing of a model. *)
Lemma category_stays res m m' n c :
  (∀ s, obj_get n (m' s) = synced_entry res m s n) → getLocalBillingCategory n m = Some c → ∃ c', getLocalBillingCategory n m' = Some c'.
Proof.
  intros Hg Hc. destruct (obj_get n res) as [r|] eqn:Er.
  - rewrite (synced_category res m m' n r Hg Er). case_bool_decide; eauto.
  - exists c. rewrite <- Hc. apply local_category_ext. intros f. rewrite Hg. unfold synced_entry. by rewrite Er.
Qed.

(** The mode of a model changes only by a selection. *)
Lemma mode_selected res m m' :
  (∀ s n, obj_get n (m' s) = synced_entry res m s n) →
  ∀ n, is_tiered m' n ≠ is_tiered m n → selection res n (js "billing_mode") ≠ None.
Proof.
  intros Hg n Hne Hs. apply Hne. unfold is_tiered. rewrite Hg. unfold synced_entry. unfold selection in Hs.
  destruct (obj_get n res) as [r|]; [|done]. cbn [mbind option_bind] in Hs. unfold model_entry. cbn [field_of].
  rewrite Hs. cbn [is_ratio_setting]. by destruct (new_category r).
Qed.

End page.

(** ** Examples *)

Definition demo_value (z : Z) : json := JNum (num_of_Z z).

Definition demo_difference (cur : json) (ups : list (jstr * json)) : RatioDifference :=
  {| current := cur; upstreams := ups; confidence := map (λ e, (e.1, true)) ups |}.

(** Two channels: [A] has a price and a ratio for one model, [B] a ratio for another. *)
Definition demo_diffs : DifferencesMap :=
  [(js "gpt", [(js "model_ratio", demo_difference (demo_value 1) [(js "A", demo_value 2)]);
               (js "model_price", demo_difference JNull [(js "A", demo_value 5)])]);
   (js "claude", [(js "completion_ratio", demo_difference (demo_value 3) [(js "A", JStr (js "same")); (js "B", demo_value 4)]);
                  (js "model_ratio", demo_difference (demo_value 3) [(js "A", demo_value 7)])])].

Definition demo_records : maps := λ s,
  match s with
  | SField FRatio => [(js "gpt", demo_value 1); (js "claude", demo_value 3)]
  | SField FCompletionRatio => [(js "claude", demo_value 3)]
  | _ => []
  end.

Lemma demo_diffs_ok : diffs_ok demo_diffs ∧ no_empty_model demo_diffs.
Proof.
  split.
  - split.
    + apply (bool_decide_eq_true_1 _). vm_compute. reflexivity.
    + unfold demo_diffs. constructor; [|constructor; [|constructor]]; cbn [fst];
        (split; [apply code_units_b; vm_compute; reflexivity|apply (bool_decide_eq_true_1 _); vm_compute; reflexivity]).
    + unfold demo_diffs. repeat constructor; cbn [fst snd]; try (apply (bool_decide_eq_true_1 _); vm_compute; reflexivity).
    + unfold demo_diffs. repeat (constructor; cbn [fst snd upstreams demo_difference demo_value]); try reflexivity;
        try (by apply code_units_b; vm_compute); try (intros _; reflexivity).
  - intros n. unfold demo_diffs. cbn [obj_get]. repeat case_match; done.
Qed.

Definition demo_source : page := on_fetched demo_diffs (open_page (write_maps demo_records)).

(** The price of the first model is selected. *)
Definition demo_priced : page :=
  set_resolutions (handleSelectValue demo_diffs (js "gpt") (js "model_price") (demo_value 5) (js "A") []) demo_source.

Definition demo_lower : LowerCase := ascii_lower_case.

Lemma demo_priced_reachable : @reachable demo_lower id (write_maps demo_records) demo_priced.
Proof.
  apply (reach_step _ _ demo_source).
  - apply (reach_step _ _ (open_page (write_maps demo_records))); [apply reach_open|].
    destruct demo_diffs_ok. by apply step_fetch.
  - eapply (@step_select demo_lower id demo_source [] [] (List.nth 0 (dataSource demo_diffs) {| row_model := []; row_types := []; billingConflict := false |})).
    + reflexivity.
    + by left.
    + apply has_elem. vm_compute. reflexivity.
    + apply has_elem. vm_compute. reflexivity.
    + reflexivity.
    + reflexivity.
Qed.

Lemma demo_parsed : ∃ m, parsedRatios (shown demo_priced) = Some m ∧ ∀ s, m s = demo_records s.
Proof.
  apply parsed_written; [done|]. intros s. apply json_okb_ok. destruct s as [[]| |]; vm_compute; reflexivity.
Qed.

Lemma selections_consistent_witness :
  obj_get (js "gpt") (resolutions demo_priced) = Some [(js "model_price", demo_value 5)] ∧
  ([(js "model_price", demo_value 5)] : ModelResolutions) ≠ [].
Proof.
  split; [vm_compute; reflexivity|].
  apply (@selections_consistent demo_lower id (write_maps demo_records) demo_priced demo_priced_reachable (js "gpt")).
  vm_compute. reflexivity.
Defined.

Lemma sync_refines_witness :
  ∃ m m', parsedRatios (shown demo_priced) = Some m ∧ performSync (resolutions demo_priced) m = Ret m' ∧
    obj_get (js "gpt") (m' (SField FPrice)) = Some (demo_value 5) ∧ obj_get (js "gpt") (m' (SField FRatio)) = None ∧
    obj_get (js "claude") (m' (SField FRatio)) = Some (demo_value 3).
Proof.
  destruct demo_parsed as (m & Hm & Heq).
  destruct (@sync_refines demo_lower id code_unit_collation (λ _, []) (write_maps demo_records) demo_priced m demo_priced_reachable Hm)
    as (m' & Hp & Hg & _).
  - intros s. rewrite Heq. apply json_okb_ok. destruct s as [[]| |]; vm_compute; reflexivity.
  - exists m, m'. split; [exact Hm|]. split; [exact Hp|]. rewrite !Hg. unfold synced_entry. rewrite !Heq.
    split_and!; vm_compute; reflexivity.
Defined.


(** The dialog of the example. *)
Example demo_conflict :
  conflicts id demo_diffs demo_records (resolutions demo_priced) =
  [{| channel := js "A"; model := js "gpt"; currentDesc := js "Model ratio: 1" ++ [10%N] ++ js "Completion ratio: -";
      newDesc := js "Fixed price: 5" |}].
Proof. vm_compute. reflexivity. Qed.

(** ** Behaviours that differ from what the page says *)

(** Answers that refuse a value are taken for a success: nothing is stored, and the
    selections and their differences disappear all the same. *)
Theorem refused_sync_forgets m p :
  let p' := finish_sync (λ _, Refused) m p in
  stored p' = stored p ∧ resolutions p' = [] ∧ differences p' = (drop_resolved (resolutions p) (differences p)).2.
Proof. done. Qed.

(** A sync starts from the texts that the page was given. Until they are loaded again, a second
    sync writes the records of the page over those of the first one, which are lost. *)
Theorem second_sync_undoes :
  let first := obj_set [] (js "gpt") [(js "model_ratio", demo_value 2)] in
  let second := obj_set [] (js "claude") [(js "model_ratio", demo_value 7)] in
  let page res := set_resolutions res demo_source in
  ∃ m1 m2, performSync first demo_records = Ret m1 ∧ performSync second demo_records = Ret m2 ∧
    let p1 := finish_sync (λ _, Accepted) m1 (page first) in
    let p2 := finish_sync (λ _, Accepted) m2 (set_resolutions second p1) in
    parsedRatios (shown p1) = parsedRatios (shown demo_source) ∧
    obj_get (js "gpt") (own_props (parseJsonRecord (stored p1 (SField FRatio)))) = Some (demo_value 2) ∧
    obj_get (js "gpt") (own_props (parseJsonRecord (stored p2 (SField FRatio)))) = Some (demo_value 1).
Proof. cbv zeta. eexists _, _. split_and!; [reflexivity|reflexivity|reflexivity|vm_compute; reflexivity..]. Qed.

(** Selecting an expression moves a model from ratios to tiered billing without a question. *)
Theorem expression_not_asked :
  let res := [(js "gpt", [(js "billing_expr", JStr (js "p * 2")); (js "billing_mode", JStr (js "tiered_expr"))])] in
  getLocalBillingCategory (js "gpt") demo_records = Some Ratio ∧ is_tiered demo_records (js "gpt") = false ∧
  conflicts id demo_diffs demo_records res = [] ∧
  ∃ m', performSync res demo_records = Ret m' ∧ is_tiered m' (js "gpt") = true.
Proof. cbv zeta. split_and!; [vm_compute; reflexivity..|]. eexists. split; [reflexivity|vm_compute; reflexivity]. Qed.

(** Unselecting a column also drops values of other channels, where the channel of the column
    agrees with the stored value. *)
Theorem column_unselect_drops_others :
  let rows := @filteredData demo_lower (js "claude") [] (dataSource demo_diffs) in
  let res := handleBulkSelect demo_diffs [] (js "A") rows [] in
  let both := handleSelectValue demo_diffs (js "claude") (js "completion_ratio") (demo_value 4) (js "B") res in
  allSelected [] (js "A") rows both = true ∧
  selection both (js "claude") (js "completion_ratio") = Some (demo_value 4) ∧
  upstream_value (default [] (obj_get (js "claude") demo_diffs)) (js "completion_ratio") (js "A") = Some (JStr (js "same")) ∧
  selection (handleBulkUnselect [] (js "A") rows both) (js "claude") (js "completion_ratio") = None.
Proof. split_and!; vm_compute; reflexivity. Qed.

(** A channel with a price and a ratio for one model: its column is never fully selected, so
    its checkbox cannot be used to unselect. *)
Theorem column_never_full :
  let rows := dataSource demo_diffs in
  let res := handleBulkSelect demo_diffs [] (js "A") rows [] in
  allSelected [] (js "A") rows res = false ∧ someSelected [] (js "A") rows res = true ∧
  handleBulkSelect demo_diffs [] (js "A") rows res = res.
Proof. split_and!; vm_compute; reflexivity. Qed.

(** After a fixed price was written, the ratio that it removed is still shown as the current
    value of the model. *)
Theorem removed_ratio_still_shown :
  ∃ m', performSync (resolutions demo_priced) demo_records = Ret m' ∧ obj_get (js "gpt") (m' (SField FRatio)) = None ∧
    current <$> difference (differences (finish_sync (λ _, Accepted) m' demo_priced)) (js "gpt") (js "model_ratio") = Some (demo_value 1).
Proof.
  eexists. split; [reflexivity|]. split; [vm_compute; reflexivity|].
  change (current <$> difference (drop_resolved (resolutions demo_priced) demo_diffs).2 (js "gpt") (js "model_ratio") = Some (demo_value 1)).
  vm_compute. reflexivity.
Qed.

(** The function that removes the resolved differences changes the records it is given: run
    twice on the same state, as development builds of React do, it leaves a model without
    a field. *)
Theorem drop_resolved_twice :
  let d := [(js "gpt", [(js "model_price", demo_difference JNull [(js "A", demo_value 5)])])] in
  let res := [(js "gpt", [(js "model_price", demo_value 5)])] in
  let '(d', new) := drop_resolved res d in new = [] ∧ (drop_resolved res d').2 = [(js "gpt", [])].
Proof. split; vm_compute; reflexivity. Qed.

(** The records are written one after the other, ratios first: a request that fails in between
    leaves a model that moves to a fixed price without any price; the selection is kept. *)
Theorem interrupted_sync_unpriced :
  let reply s := if decide (s = SField FPrice) then Failed else Accepted in
  ∃ m', performSync (resolutions demo_priced) demo_records = Ret m' ∧
    let p' := finish_sync reply m' demo_priced in
    (∀ s, s ∈ sync_settings → present (js "gpt") (own_props (parseJsonRecord (stored p' s))) = false) ∧
    present (js "gpt") (demo_records (SField FRatio)) = true ∧ resolutions p' = resolutions demo_priced.
Proof.
  eexists. split; [reflexivity|]. split_and!; [|vm_compute; reflexivity|reflexivity].
  apply Forall_forall. unfold sync_settings. repeat constructor; vm_compute; reflexivity.
Qed.
