(* ===== verification/SyncChannels.v ===== *)
(** * Channels of the price sync

    Model of the dialog [channel-selector-dialog.tsx] in
    [web/default/src/features/system-settings/models] and of the endpoints that
    [upstream-ratio-sync.tsx] keeps for it: which channels are compared, and which address
    of each is asked.  Identifiers are integers; endpoints are kept in a finite map. *)

From S2P Require Import Prelude JsString.
From stdpp Require Import gmap.
From Stdlib Require Import NArith ZArith.

(** ** Data *)

Record UpstreamChannel := { id : Z; name : jstr; base_url : jstr; status : Z; type : option Z }.

Definition DEFAULT_ENDPOINT : jstr := js "/api/pricing".
Definition OFFICIAL_CHANNEL_ID : Z := -100.
Definition OFFICIAL_CHANNEL_ENDPOINT : jstr := js "/llm-metadata/api/newapi/ratio_config-v1-base.json".
Definition MODELS_DEV_PRESET_ID : Z := -101.
Definition MODELS_DEV_PRESET_ENDPOINT : jstr := js "https://models.dev/api.json".
Definition OPENROUTER_ENDPOINT : jstr := js "openrouter".
Definition OPENROUTER_CHANNEL_TYPE : Z := 20.

(** The values that the menu of endpoints offers. *)
Definition ENDPOINT_OPTIONS : list jstr := [js "/api/pricing"; js "/api/ratio_config"; OPENROUTER_ENDPOINT; js "custom"].

Definition isOfficialChannel (c : UpstreamChannel) : bool :=
  (id c =? OFFICIAL_CHANNEL_ID)%Z || (id c =? MODELS_DEV_PRESET_ID)%Z.

Definition getDefaultEndpointForChannel (c : UpstreamChannel) : jstr :=
  if (id c =? MODELS_DEV_PRESET_ID)%Z then MODELS_DEV_PRESET_ENDPOINT
  else if (id c =? OFFICIAL_CHANNEL_ID)%Z then OFFICIAL_CHANNEL_ENDPOINT
  else if bool_decide (type c = Some OPENROUTER_CHANNEL_TYPE) then OPENROUTER_ENDPOINT
  else DEFAULT_ENDPOINT.

(** ** Endpoints *)

Abbreviation endpoints := (gmap Z jstr).

(** The effect that runs when channels were loaded: a missing or empty endpoint is filled in. *)
Definition fill_endpoint (e : endpoints) (c : UpstreamChannel) : endpoints :=
  match e !! id c with
  | Some (_ :: _) => e
  | _ => <[id c := getDefaultEndpointForChannel c]> e
  end.

Definition fill_endpoints (channels : list UpstreamChannel) (e : endpoints) : endpoints := foldl fill_endpoint e channels.

(** [channelEndpoints[id] || DEFAULT_ENDPOINT]. *)
Definition currentEndpoint (e : endpoints) (channelId : Z) : jstr :=
  match e !! channelId with
  | Some (c :: s) => c :: s
  | _ => DEFAULT_ENDPOINT
  end.

Definition getEndpointType (endpoint : jstr) : jstr :=
  if existsb (str_eqb endpoint) ENDPOINT_OPTIONS then endpoint else js "custom".

Definition updateEndpoint (e : endpoints) (channelId : Z) (endpoint : jstr) : endpoints := <[channelId := endpoint]> e.

Definition handleTypeChange (e : endpoints) (channelId : Z) (value : jstr) : endpoints :=
  if str_eqb value (js "custom") then updateEndpoint e channelId [] else updateEndpoint e channelId value.

(** The text field of an address of one's own. *)
Definition custom_shown (e : endpoints) (channelId : Z) : bool :=
  str_eqb (getEndpointType (currentEndpoint e channelId)) (js "custom").

(** ** Channels *)

Section dialog.
Context `{LowerCase}.

Definition filteredChannels (search : jstr) (channels : list UpstreamChannel) : list UpstreamChannel :=
  if negb (nonempty (trim search)) then channels
  else List.filter (λ c, includes (toLowerCase search) (toLowerCase (name c))
                         || includes (toLowerCase search) (toLowerCase (base_url c))) channels.

(** The comparison never exceeds 0 unless only the second channel is official. *)
Definition official_first (a b : UpstreamChannel) : bool := isOfficialChannel a || negb (isOfficialChannel b).

Definition sortedChannels (channels : list UpstreamChannel) : list UpstreamChannel := stable_sort official_first channels.

(** The rows that are checked when the dialog is given channels and a selection. *)
Definition restored_selection (selectedChannelIds : list Z) (channels : list UpstreamChannel) : list Z :=
  List.filter (λ i, bool_decide (i ∈ map id channels)) selectedChannelIds.

(** The selected rows of the table, in its order. *)
Definition handleConfirm (search : jstr) (rowSelection : list Z) (channels : list UpstreamChannel) : list Z :=
  map id (List.filter (λ c, bool_decide (id c ∈ rowSelection)) (sortedChannels (filteredChannels search channels))).

End dialog.

Record UpstreamConfig := { u_id : Z; u_name : jstr; u_base_url : jstr; u_endpoint : jstr }.

(** The request, or the warning that nothing is selected. *)
Definition handleConfirmChannelSelection (channels : list UpstreamChannel) (e : endpoints) (selectedIds : list Z)
    : option (list UpstreamConfig) :=
  match List.filter (λ c, bool_decide (id c ∈ selectedIds)) channels with
  | [] => None
  | selected => Some (map (λ c, {| u_id := id c; u_name := name c; u_base_url := base_url c; u_endpoint := currentEndpoint e (id c) |}) selected)
  end.

(** ** Facts *)
Lemma default_endpoint_nonempty c : ∃ x s, getDefaultEndpointForChannel c = x :: s.
Proof.
  assert (nonempty (getDefaultEndpointForChannel c) = true) as Hn.
  { unfold getDefaultEndpointForChannel. destruct (id c =? MODELS_DEV_PRESET_ID)%Z; [vm_compute; reflexivity|].
    destruct (id c =? OFFICIAL_CHANNEL_ID)%Z; [vm_compute; reflexivity|]. case_bool_decide; vm_compute; reflexivity. }
  destruct (getDefaultEndpointForChannel c); [done|eauto].
Qed.

Lemma fill_endpoint_set e c i : (∃ x s, e !! i = Some (x :: s)) ∨ i = id c → ∃ x s, fill_endpoint e c !! i = Some (x :: s).
Proof.
  unfold fill_endpoint. destruct (default_endpoint_nonempty c) as (x & s & Hd). intros [(y & u & E)| ->].
  - destruct (decide (i = id c)) as [->|Hi]; [rewrite E; eauto|].
    destruct (e !! id c) as [[|]|]; rewrite ?lookup_insert_ne by done; eauto.
  - destruct (e !! id c) as [[|y u]|] eqn:E; rewrite ?lookup_insert_eq, ?Hd, ?E; eauto.
Qed.

Lemma fill_keeps channels e i x s : e !! i = Some (x :: s) → fill_endpoints channels e !! i = Some (x :: s).
Proof.
  unfold fill_endpoints. revert e. induction channels as [|c l IH]; intros e E; cbn [foldl]; [done|]. apply IH.
  unfold fill_endpoint. destruct (decide (i = id c)) as [->|Hi]; [by rewrite E|].
  destruct (e !! id c) as [[|]|]; rewrite ?lookup_insert_ne by done; done.
Qed.

Lemma fill_sets channels e i : i ∈ map id channels → ∃ x s, fill_endpoints channels e !! i = Some (x :: s).
Proof.
  unfold fill_endpoints. revert e. induction channels as [|c l IH]; intros e Hi; [by apply not_elem_of_nil in Hi|].
  cbn [foldl map] in *. apply elem_of_cons in Hi as [Hi|Hi]; [|by apply IH].
  destruct (fill_endpoint_set e c i (or_intror Hi)) as (x & s & E). exists x, s. by apply (fill_keeps l).
Qed.

(** Every channel of the list has an address, an address that was entered stays, and a second
    run changes nothing. *)
Theorem endpoints_filled channels e :
  (∀ c, c ∈ channels → ∃ x s, fill_endpoints channels e !! id c = Some (x :: s)) ∧
  (∀ i x s, e !! i = Some (x :: s) → fill_endpoints channels e !! i = Some (x :: s)) ∧
  fill_endpoints channels (fill_endpoints channels e) = fill_endpoints channels e.
Proof.
  split_and!.
  - intros c Hc. apply fill_sets. by apply list_elem_of_fmap_2.
  - intros i x s. apply fill_keeps.
  - assert (∀ l e', (∀ c, c ∈ l → ∃ x s, e' !! id c = Some (x :: s)) → fill_endpoints l e' = e') as Hid.
    { unfold fill_endpoints. induction l as [|c l IH]; intros e' Hl; cbn [foldl]; [done|].
      assert (fill_endpoint e' c = e') as ->; [|apply IH; set_solver].
      unfold fill_endpoint. destruct (Hl c) as (x & s & ->); [by left|done]. }
    apply Hid. intros c Hc. apply fill_sets. by apply list_elem_of_fmap_2.
Qed.

(** Choosing an address of one's own does nothing but choose the default one: its text field
    never appears. *)
Theorem custom_endpoint_unreachable e i :
  custom_shown (handleTypeChange e i (js "custom")) i = false ∧ currentEndpoint (handleTypeChange e i (js "custom")) i = DEFAULT_ENDPOINT.
Proof.
  unfold custom_shown, currentEndpoint, handleTypeChange, updateEndpoint. change (str_eqb (js "custom") (js "custom")) with true.
  cbn iota. rewrite lookup_insert_eq. split; vm_compute; reflexivity.
Qed.

Lemma insert_official c l :
  (∃ l1 l2, l = l1 ++ l2 ∧ Forall (λ c, isOfficialChannel c = true) l1 ∧ Forall (λ c, isOfficialChannel c = false) l2) →
  insert_stable official_first c l =
  if isOfficialChannel c then c :: l else List.filter isOfficialChannel l ++ c :: List.filter (λ c, negb (isOfficialChannel c)) l.
Proof.
  intros (l1 & l2 & -> & H1 & H2). induction H1 as [|d l1 Hd H1 IH]; cbn [app insert_stable List.filter].
  - destruct l2 as [|d l2]; cbn [insert_stable List.filter app]; [by destruct (isOfficialChannel c)|].
    apply Forall_cons in H2 as [Hd H2]. unfold official_first. rewrite Hd. cbn [negb]. rewrite orb_true_r.
    destruct (isOfficialChannel c); [done|]. cbn [List.filter].
    assert (List.filter isOfficialChannel l2 = [] ∧ List.filter (λ c, negb (isOfficialChannel c)) l2 = l2) as [-> ->]; [|done].
    clear Hd d. induction H2 as [|d l2 Hd H2 [IH1 IH2]]; [done|]. cbn [List.filter]. rewrite Hd. cbn [negb]. by rewrite IH1, IH2.
  - unfold official_first at 1. rewrite Hd. cbn [negb]. rewrite orb_false_r, IH. by destruct (isOfficialChannel c).
Qed.

(** The presets come first; otherwise the order is that of the server. *)
Theorem official_channels_first channels :
  sortedChannels channels =
  List.filter isOfficialChannel channels ++ List.filter (λ c, negb (isOfficialChannel c)) channels.
Proof.
  unfold sortedChannels. induction channels as [|c l IH]; [done|]. cbn [stable_sort List.filter]. rewrite IH, insert_official.
  - destruct (isOfficialChannel c) eqn:E; cbn [negb]; [done|]. rewrite !List.filter_app, <- !app_assoc.
    assert (∀ p (l : list UpstreamChannel), List.filter p (List.filter p l) = List.filter p l ∧ List.filter (λ c, negb (p c)) (List.filter p l) = []) as Hf.
    { intros p l'. induction l' as [|d l' [IH1 IH2]]; [done|]. cbn [List.filter]. destruct (p d) eqn:Ed; [|done]. cbn [List.filter]. rewrite Ed. cbn [negb]. by rewrite IH1, IH2. }
    destruct (Hf isOfficialChannel l) as [-> ->]. destruct (Hf (λ c, negb (isOfficialChannel c)) l) as [-> Hn].
    assert (List.filter isOfficialChannel (List.filter (λ c, negb (isOfficialChannel c)) l) = []) as ->; [|done].
    rewrite <- Hn at 1. apply List.filter_ext. intros d. by rewrite negb_involutive.
  - eexists _, _. split; [reflexivity|]. split; apply Forall_forall; intros d Hd; apply list_elem_of_In, filter_In in Hd as [_ Hd]; [done|by apply negb_true_iff].
Qed.

(** Confirming while a search is typed forgets the selected channels that it hides. *)
Theorem hidden_selection_dropped :
  let a := {| id := 1; name := js "alpha"; base_url := js "https://a"; status := 1; type := None |} in
  let b := {| id := 2; name := js "beta"; base_url := js "https://b"; status := 1; type := None |} in
  restored_selection [1; 2]%Z [a; b] = [1; 2]%Z ∧
  @handleConfirm ascii_lower_case (js "beta") [1; 2]%Z [a; b] = [2]%Z ∧
  @handleConfirm ascii_lower_case [] [1; 2]%Z [a; b] = [1; 2]%Z.
Proof. split_and!; vm_compute; reflexivity. Qed.
