(* ===== verification/NavModules.v ===== *)
(** * Module access: lib/nav-modules.ts

    How the pages of the site read the header navigation and the sidebar modules
    out of the status the server sends, and the copy of the status they keep in
    [localStorage].  The stored copy is the state; [None] is an absent (or
    unreadable) entry.  The HTTP request for the status is a parameter: its
    outcome is [None] when it rejects. *)

From S2P Require Import Prelude JsString JsRegExp JsNumber Json Maintenance.
From stdpp Require Import list.
From Stdlib Require Import NArith ZArith.

Definition ModuleAccess : Type := HeaderNavAccessConfig.

Inductive HeaderNavModule := Rankings | Pricing.

Definition module_key (m : HeaderNavModule) : jstr :=
  match m with Rankings => js "rankings" | Pricing => js "pricing" end.

Definition HeaderNavModules : Type := list (jstr * nav_value).

Definition DEFAULT_HEADER_NAV_MODULES : HeaderNavModules :=
  [(js "home", NavFlag true); (js "console", NavFlag true);
   (js "pricing", NavAccess {| enabled := true; requireAuth := false |});
   (js "rankings", NavAccess {| enabled := true; requireAuth := false |});
   (js "docs", NavFlag true); (js "about", NavFlag true)].

Definition DEFAULTS (m : HeaderNavModule) : ModuleAccess :=
  access_or_open (obj_get (module_key m) DEFAULT_HEADER_NAV_MODULES).

(** The access of a page whose status could not be fetched. *)
Definition LOCKED : ModuleAccess := {| enabled := false; requireAuth := true |}.

Section nav_modules.
Context {LC : LowerCase}.

Definition parseHeaderNavBoolean (raw : option json) (fallback : bool) : bool :=
  match raw with
  | Some (JBool b) => b
  | Some (JNum x) =>
    if num_eqb x (num_of_Z 1) then true
    else if num_eqb x (num_of_Z 0) then false
    else fallback
  | Some (JStr s) =>
    let normalized := toLowerCase (trim s) in
    if str_eqb normalized (js "true") || str_eqb normalized (js "1") then true
    else if str_eqb normalized (js "false") || str_eqb normalized (js "0") then false
    else fallback
  | _ => fallback
  end.

Definition parseAccess (raw : json) (fallback : ModuleAccess) : ModuleAccess :=
  match raw with
  | JBool _ | JNum _ | JStr _ =>
    {| enabled := parseHeaderNavBoolean (Some raw) (enabled fallback);
       requireAuth := requireAuth fallback |}
  | JArr _ | JObj _ =>
    {| enabled := parseHeaderNavBoolean (prop (js "enabled") raw) (enabled fallback);
       requireAuth := parseHeaderNavBoolean (prop (js "requireAuth") raw) (requireAuth fallback) |}
  | JNull => fallback
  end.

(** [None] is null; [Throw] is the TypeError of [String(raw)]. *)
Definition parseHeaderNavRecord (raw : option json) : exn (option json) :=
  match raw with
  | None => Ret None
  | Some r =>
    if negb (json_truthy r) then Ret None
    else if negb (coercible r) then Throw
    else if str_eqb (trim (string_of_json r)) [] then Ret None
    else match r with
    | JArr _ | JObj _ => Ret (Some r)
    | _ => Ret (json_parse (string_of_json r))
    end
  end.

(** What one entry writes to its key, [result[key]] being [current]. *)
Definition header_entry (key : jstr) (current : option nav_value) (value : json) : option nav_value :=
  if access_key key then Some (NavAccess (parseAccess value (access_or_open current)))
  else if is_proto key then None
  else match current, value with
  | Some (NavFlag fallback), _ => Some (NavFlag (parseHeaderNavBoolean (Some value) fallback))
  | _, (JBool _ | JNum _ | JStr _) => Some (NavFlag (parseHeaderNavBoolean (Some value) true))
  | _, _ => None
  end.

Definition parseHeaderNavModules (raw : option json) : exn HeaderNavModules :=
  parsed ← parseHeaderNavRecord raw;
  match parsed with
  | Some p =>
    if json_truthy p then Ret (foldl (obj_update header_entry) DEFAULT_HEADER_NAV_MODULES (own_props p))
    else Ret DEFAULT_HEADER_NAV_MODULES
  | None => Ret DEFAULT_HEADER_NAV_MODULES
  end.

(** The status is a JSON value; null has no properties. *)
Definition parseHeaderNavModulesFromStatus (status : json) : exn HeaderNavModules :=
  parseHeaderNavModules (prop (js "HeaderNavModules") status).

Definition getCachedStatus (storage : option jstr) : json :=
  match storage with
  | Some raw => if nonempty raw then default JNull (json_parse raw) else JNull
  | None => JNull
  end.

(** [stored] tells whether [setItem] succeeds; its exception is swallowed. *)
Definition cacheStatus (stored : bool) (status : json) (storage : option jstr) : option jstr :=
  if json_truthy status && stored then Some (stringify status) else storage.

Definition getModuleAccessFromStatus (status : json) (module : HeaderNavModule) : exn ModuleAccess :=
  modules ← parseHeaderNavModulesFromStatus status;
  Ret (match obj_get (module_key module) modules with
       | Some (NavAccess a) => a
       | _ => DEFAULTS module
       end).

Definition getModuleAccess (storage : option jstr) (module : HeaderNavModule) : exn ModuleAccess :=
  getModuleAccessFromStatus (getCachedStatus storage) module.

Definition getFreshModuleAccess (fetched : option json) (stored : bool)
    (storage : option jstr) (module : HeaderNavModule) : ModuleAccess * option jstr :=
  match fetched with
  | None => (LOCKED, storage)
  | Some status =>
    let storage' := cacheStatus stored status storage in
    match getModuleAccessFromStatus status module with
    | Ret a => (a, storage')
    | Throw => (LOCKED, storage')
    end
  end.

Definition is_false (v : option json) : bool :=
  match v with Some (JBool false) => true | _ => false end.

Definition isSidebarModuleEnabled (storage : option jstr) (section module : jstr) : exn bool :=
  let status := getCachedStatus storage in
  if negb (json_truthy status) then Ret true
  else match prop (js "SidebarModulesAdmin") status with
  | None => Ret true
  | Some raw =>
    if negb (json_truthy raw) then Ret true
    else if negb (coercible raw) then Throw
    else if str_eqb (trim (string_of_json raw)) [] then Ret true
    else match json_parse (string_of_json raw) with
    | None => Ret true
    | Some parsed =>
      match obj_get section (own_props parsed) with
      | None => Ret true
      | Some sectionConfig =>
        if negb (json_truthy sectionConfig) then Ret true
        else if is_false (prop (js "enabled") sectionConfig) then Ret false
        else Ret (negb (is_false (obj_get module (own_props sectionConfig))))
      end
    end
  end.
End nav_modules.

(** ** Theorems *)

Section theorems.
Context {LC : LowerCase}.

Lemma site_access_printed a fb : parseAccess (access_json a) fb = a.
Proof. destruct a. by vm_compute. Qed.

Lemma site_entry_printed k o v :
  regular k → typed_entry (k, v) → header_entry k o (nav_value_json v) = Some v.
Proof.
  intros Hr%regular_proto. revert Hr. unfold header_entry, typed_entry. cbn [fst snd]. destruct v as [b|a]; intros Hr ->; rewrite ?Hr; cbn [nav_value_json].
  - by destruct o as [[|]|].
  - by rewrite site_access_printed.
Qed.

(** A printed object is no blank text. *)
Lemma printed_not_blank l :
  json_ok (JObj l) → nonempty (stringify (JObj l)) = true ∧ str_eqb (trim (stringify (JObj l))) [] = false.
Proof.
  intros Hok. split; [by destruct (stringify_obj_cons l) as [t ->]|].
  destruct (str_eqb _ _) eqn:E; [|done]. unfold str_eqb in E. boolify.
  apply json_parse_blank in E. by rewrite json_parse_stringify in E.
Qed.

Lemma site_reads_printed c :
  header_ok c →
  parseHeaderNavModules (Some (JStr (serializeHeaderNavModules c)))
  = Ret (foldl (obj_update header_entry) DEFAULT_HEADER_NAV_MODULES (prod_map id nav_value_json <$> c)).
Proof.
  intros Hc. pose proof (header_nav_json_ok c Hc) as Hok.
  destruct (printed_not_blank _ Hok) as [Hn Ht]. unfold parseHeaderNavModules, parseHeaderNavRecord.
  cbn [json_truthy coercible string_of_json]. unfold serializeHeaderNavModules.
  rewrite Hn, Ht, json_parse_stringify by done. done.
Qed.

(** The header navigation that the administrator saves is the one every page
    reads out of the status: the site's own parser gives each module the value of
    the saved configuration, and in particular the access rule of the pricing and
    rankings pages. *)
Theorem saved_header_is_read c status :
  header_ok c →
  prop (js "HeaderNavModules") status = Some (JStr (serializeHeaderNavModules c)) →
  ∃ modules, parseHeaderNavModulesFromStatus status = Ret modules ∧
    (∀ k, obj_get k modules = obj_get k c) ∧
    ∀ m a, obj_get (module_key m) c = Some (NavAccess a) → getModuleAccessFromStatus status m = Ret a.
Proof.
  intros Hc Hs. eexists.
  assert (parseHeaderNavModulesFromStatus status = Ret _) as Hm
    by (unfold parseHeaderNavModulesFromStatus; rewrite Hs; by apply site_reads_printed).
  split; [exact Hm|].
  assert (∀ k, obj_get k (foldl (obj_update header_entry) DEFAULT_HEADER_NAV_MODULES
    (prod_map id nav_value_json <$> c)) = obj_get k c) as Hk.
  { intros k. apply header_fold_get; [done| |done]. apply site_entry_printed. }
  split; [done|]. intros m a Ha. unfold getModuleAccessFromStatus. rewrite Hm.
  cbn [mbind exn_bind]. by rewrite Hk, Ha.
Qed.

Lemma cached_status_read status : json_ok status → getCachedStatus (Some (stringify status)) = status.
Proof.
  intros Hok. unfold getCachedStatus. rewrite json_parse_stringify by done.
  pose proof (stringify_length status Hok) as Hl. by destruct (stringify status); [cbn in Hl; lia|].
Qed.

(** A guarded page fails closed and the cache agrees with the server: when the
    status request fails, access is refused and the cached status is kept; when it
    succeeds with a status that is stored, the answer is the one the cached copy
    will give later, except that a malformed entry on which [String] throws also
    locks the page; when storing fails the old copy stays. *)
Theorem fresh_access_cached status storage stored m :
  json_ok status → json_truthy status = true →
  getFreshModuleAccess None stored storage m = (LOCKED, storage) ∧
  match getModuleAccessFromStatus status m with
  | Ret a => (getFreshModuleAccess (Some status) stored storage m).1 = a
  | Throw => (getFreshModuleAccess (Some status) stored storage m).1 = LOCKED
  end ∧
  (getFreshModuleAccess (Some status) false storage m).2 = storage ∧
  getModuleAccess (getFreshModuleAccess (Some status) true storage m).2 m
  = getModuleAccessFromStatus status m.
Proof.
  intros Hok Ht. unfold getFreshModuleAccess, cacheStatus. rewrite Ht. cbn [andb].
  split; [done|]. unfold getModuleAccess.
  destruct (getModuleAccessFromStatus status m) eqn:E; cbn [fst snd];
    rewrite (cached_status_read status) by done; done.
Qed.

(** A flag both parsers understand: a number is 0 or 1 and a string is one of the
    words for true and false. *)
Definition plain_flag (v : json) : bool :=
  match v with
  | JNum x => num_eqb x (num_of_Z 1) || num_eqb x (num_of_Z 0)
  | JStr s => bool_decide (toLowerCase (trim s) ∈ [js "true"; js "1"; js "false"; js "0"])
  | _ => true
  end.

Definition plain_entry (v : json) : bool :=
  plain_flag v && plain_flag (default JNull (prop (js "enabled") v))
  && plain_flag (default JNull (prop (js "requireAuth") v)).

Lemma flag_parsers_agree v fb fb' :
  plain_flag v = true → (match v with JBool _ | JNum _ | JStr _ => true | _ => bool_decide (fb = fb') end) = true →
  toBoolean (Some v) fb = parseHeaderNavBoolean (Some v) fb'.
Proof.
  destruct v as [|b|x|s|l|l]; cbn [plain_flag toBoolean parseHeaderNavBoolean]; intros H H'; boolify; try done.
  - destruct (num_eqb x (num_of_Z 1)); [done|]. by rewrite orb_false_l in H; rewrite H.
  - unfold str_eqb. set_unfold. repeat case_bool_decide; naive_solver.
Qed.

Lemma opt_flag_parsers_agree o fb :
  plain_flag (default JNull o) = true → toBoolean o fb = parseHeaderNavBoolean o fb.
Proof.
  destruct o as [v|]; [|done]. intros H. apply flag_parsers_agree; [done|].
  destruct v; try done; by apply bool_decide_eq_true_2.
Qed.

Lemma access_parsers_agree v fb : plain_entry v = true → parseAccessModule v fb = parseAccess v fb.
Proof.
  unfold plain_entry. intros H. boolify.
  destruct v; cbn [parseAccessModule parseAccess]; f_equal;
    first [done|by apply opt_flag_parsers_agree|by apply (opt_flag_parsers_agree (Some _))].
Qed.

Lemma header_base_agree k : obj_get k DEFAULT_HEADER_NAV_MODULES = obj_get k HEADER_NAV_DEFAULT.
Proof. done. Qed.

(** The value of a key after its entry has been read. *)
Definition after (written : option nav_value) (current : option nav_value) : option nav_value :=
  match written with Some v => Some v | None => current end.

Lemma header_entries_agree k v :
  plain_entry v = true →
  after (header_nav_entry HEADER_NAV_DEFAULT k (obj_get k HEADER_NAV_DEFAULT) v) (obj_get k HEADER_NAV_DEFAULT)
  = after (header_entry k (obj_get k HEADER_NAV_DEFAULT) v) (obj_get k HEADER_NAV_DEFAULT).
Proof.
  intros H. unfold header_nav_entry, header_entry.
  destruct (access_key k); [by rewrite access_parsers_agree|].
  destruct (is_proto k); [done|]. unfold plain_entry in H. boolify.
  destruct (obj_get k HEADER_NAV_DEFAULT) as [[b|a]|], v; try done; cbn [after]; f_equal; f_equal;
    by apply flag_parsers_agree.
Qed.

(** C33: the settings page and the site, which parse the header navigation with two
    separate implementations, read every stored text alike, JSON or not: the site's
    parser does not throw, and both give every key the same value. The numbers among the entries of the
    text, and among the flags [enabled] and [requireAuth] of an entry, are assumed to be 0 or 1,
    and the texts to be true, false, 0 or 1 in any case and with blanks around; other values are
    not restricted. *)
Theorem header_readers_agree text :
  (∀ parsed k v, json_parse text = Some parsed → obj_get k (own_props parsed) = Some v → plain_entry v = true) →
  ∃ modules, parseHeaderNavModules (Some (JStr text)) = Ret modules ∧
    ∀ k, obj_get k modules = obj_get k (Maintenance.parseHeaderNavModules (Some text)).
Proof.
  intros Hp. unfold parseHeaderNavModules, parseHeaderNavRecord, Maintenance.parseHeaderNavModules.
  cbn [json_truthy coercible string_of_json negb]. destruct text as [|c t]; [by eexists|].
  cbn [nonempty negb]. set (text := c :: t) in *.
  destruct (str_eqb (trim text) []) eqn:E.
  { unfold str_eqb in E. boolify. rewrite (json_parse_blank text E). by eexists. }
  cbn [mbind exn_bind]. destruct (json_parse text) as [parsed|] eqn:Ep; [|by eexists].
  pose proof (own_props_nodup _ (json_parse_wf _ _ Ep)) as Hnd.
  assert (∀ k, obj_get k (foldl (obj_update header_entry) DEFAULT_HEADER_NAV_MODULES (own_props parsed))
    = obj_get k (foldl (obj_update (header_nav_entry HEADER_NAV_DEFAULT)) HEADER_NAV_DEFAULT (own_props parsed))) as Hk.
  { intros k. rewrite !obj_get_update by done. rewrite header_base_agree.
    destruct (obj_get k (own_props parsed)) as [v|] eqn:Ek; [|done]. cbn [mbind option_bind].
    symmetry. exact (header_entries_agree k v (Hp _ _ _ eq_refl Ek)). }
  destruct (json_truthy parsed) eqn:Et.
  - eexists. split; [done|]. intros k. rewrite Hk. by destruct parsed.
  - eexists. split; [done|]. intros k. destruct parsed as [|[]|x|[]|l|l]; done.
Qed.

(** Outside those texts they may differ: 2 is off for the settings page and on for
    the site. *)
Example header_readers_disagree :
  obj_get (js "home") (Maintenance.parseHeaderNavModules (Some (jq "{'home':2}"))) = Some (NavFlag false) ∧
  ∃ modules, parseHeaderNavModules (Some (JStr (jq "{'home':2}"))) = Ret modules ∧
    obj_get (js "home") modules = Some (NavFlag true).
Proof. split; [by vm_compute|]. eexists. split; [by vm_compute|]. by vm_compute. Qed.

End theorems.

(** ** Instances of the theorems on concrete data *)

#[local] Existing Instance ascii_lower_case.

Theorem saved_header_is_read_witness :
  getModuleAccessFromStatus (JObj [(js "HeaderNavModules", JStr (serializeHeaderNavModules demo_header))]) Pricing
  = Ret {| enabled := true; requireAuth := true |}.
Proof.
  destruct (saved_header_is_read demo_header
    (JObj [(js "HeaderNavModules", JStr (serializeHeaderNavModules demo_header))]) demo_header_ok)
    as (modules & _ & _ & H); [done|]. apply H. by vm_compute.
Defined.

Theorem fresh_access_cached_witness :
  getModuleAccess (getFreshModuleAccess
    (Some (JObj [(js "HeaderNavModules", JStr (jq "{'rankings':{'enabled':false}}"))])) true None Rankings).2 Rankings
  = Ret {| enabled := false; requireAuth := false |}.
Proof.
  pose proof (fresh_access_cached (JObj [(js "HeaderNavModules", JStr (jq "{'rankings':{'enabled':false}}"))])
    None true Rankings) as H.
  destruct H as (_ & _ & _ & H).
  - constructor; [| |by vm_compute].
    + constructor; [|constructor]. apply code_units_b. by vm_compute.
    + constructor; [|constructor]. constructor. apply code_units_b. by vm_compute.
  - done.
  - etransitivity; [exact H|]. by vm_compute.
Defined.

Theorem header_readers_agree_witness :
  ∃ modules, parseHeaderNavModules (Some (JStr (jq "{'home':0,'x':1,'rankings':false}"))) = Ret modules ∧
    ∀ k, obj_get k modules
      = obj_get k (Maintenance.parseHeaderNavModules (Some (jq "{'home':0,'x':1,'rankings':false}"))).
Proof.
  apply (header_readers_agree (jq "{'home':0,'x':1,'rankings':false}")).
  intros parsed k v Hp Hk.
  vm_compute in Hp. injection Hp as <-. apply obj_get_elem in Hk. cbn [own_props] in Hk.
  repeat (apply elem_of_cons in Hk as [[= -> ->]|Hk]; [by vm_compute|]). by apply elem_of_nil in Hk.
Defined.
