(* ===== verification/Sidebar.v ===== *)
(** * The sidebar: hooks/use-sidebar-config.ts

    Which navigation entries a user sees: the administrator's stored
    configuration decides first, the user's own stored configuration can only
    narrow it.  Both stored texts are read without validation, so sections and
    flags stay JSON values.  The theorems connect the three readers of the
    administrator's text: the settings page ([Maintenance]), the route guard
    ([NavModules]) and the sidebar.  The [icon] of an entry is carried along
    unread, so its type is a parameter. *)

From S2P Require Import Prelude JsString JsRegExp JsNumber Json Maintenance NavModules.
From stdpp Require Import list.
From Stdlib Require Import NArith ZArith.

(** ** Navigation entries: components/layout/types.ts *)

Record BaseNavItem {Icon : Type} := {
  title : jstr;
  badge : option jstr;
  icon : option Icon;
  activeUrls : option (list jstr);
  configUrls : option (list jstr);
}.
Arguments BaseNavItem : clear implicits.

Inductive NavItem {Icon : Type} :=
  | NavLink (base : BaseNavItem Icon) (url : jstr)
  | NavCollapsible (base : BaseNavItem Icon) (items : list (BaseNavItem Icon * jstr))
  | NavChatPresets (base : BaseNavItem Icon).
Arguments NavItem : clear implicits.

Record NavGroup {Icon : Type} := {
  group_id : option jstr;
  group_title : jstr;
  group_items : list (NavItem Icon);
}.
Arguments NavGroup : clear implicits.

(** ** Configurations *)

(** The administrator's sections as read: an object of unchecked values. *)
Definition AdminConfig : Type := list (jstr * json).

(** [None] is "do not narrow". *)
Definition SidebarModulesUserConfig : Type := option json.

Definition DEFAULT_SIDEBAR_MODULES : SidebarModulesAdminConfig :=
  [(js "chat", [(js "enabled", true); (js "playground", true); (js "chat", true)]);
   (js "console", [(js "enabled", true); (js "detail", true); (js "token", true);
                   (js "log", true); (js "midjourney", true); (js "task", true)]);
   (js "personal", [(js "enabled", true); (js "topup", true); (js "personal", true)]);
   (js "admin", [(js "enabled", true); (js "channel", true); (js "models", true);
                 (js "redemption", true); (js "user", true); (js "setting", true);
                 (js "subscription", true)])].

Definition default_admin : AdminConfig := prod_map id section_json <$> DEFAULT_SIDEBAR_MODULES.

Definition flags (d : SidebarSectionConfig) : list (jstr * json) := prod_map id JBool <$> d.

(** [{ ...defaultSection, ...existingSection }], then the defaults of the modules
    that are still undefined. *)
Definition merge_section (defaultSection : SidebarSectionConfig) (existing : json) : json :=
  let merged := foldl (λ o kv, obj_set o kv.1 kv.2) (flags defaultSection) (own_props existing) in
  JObj (foldl (obj_update (λ _ current b, match current with None => Some (JBool b) | Some _ => None end))
          merged defaultSection).

Definition merge_entry (_ : jstr) (existing : option json) (defaultSection : SidebarSectionConfig) : option json :=
  match existing with
  | Some x => if json_truthy x then Some (merge_section defaultSection x) else Some (section_json defaultSection)
  | None => Some (section_json defaultSection)
  end.

Definition mergeWithDefaultSidebarModules (config : json) : AdminConfig :=
  foldl (obj_update merge_entry) (foldl (λ o kv, obj_set o kv.1 kv.2) [] (own_props config))
    DEFAULT_SIDEBAR_MODULES.

Definition URL_TO_CONFIG_MAP : list (jstr * (jstr * jstr)) :=
  [(js "/playground", (js "chat", js "playground"));
   (js "/dashboard", (js "console", js "detail"));
   (js "/dashboard/overview", (js "console", js "detail"));
   (js "/dashboard/models", (js "console", js "detail"));
   (js "/dashboard/users", (js "console", js "detail"));
   (js "/keys", (js "console", js "token"));
   (js "/usage-logs", (js "console", js "log"));
   (js "/usage-logs/common", (js "console", js "log"));
   (js "/usage-logs/drawing", (js "console", js "midjourney"));
   (js "/usage-logs/task", (js "console", js "task"));
   (js "/wallet", (js "personal", js "topup"));
   (js "/profile", (js "personal", js "personal"));
   (js "/channels", (js "admin", js "channel"));
   (js "/models", (js "admin", js "models"));
   (js "/models/metadata", (js "admin", js "models"));
   (js "/models/deployments", (js "admin", js "models"));
   (js "/users", (js "admin", js "user"));
   (js "/redemption-codes", (js "admin", js "redemption"));
   (js "/subscriptions", (js "admin", js "subscription"));
   (js "/system-settings", (js "admin", js "setting"));
   (js "/system-settings/site", (js "admin", js "setting"))].

(** [URL_TO_CONFIG_MAP[url]]: a name inherited from [Object.prototype] gives a
    function or an object, whose [section] and [module] are undefined. *)
Definition url_config (url : jstr) : option (jstr * jstr) :=
  match obj_get url URL_TO_CONFIG_MAP with
  | Some mapping => Some mapping
  | None => if bool_decide (url ∈ object_prototype) then Some (js "undefined", js "undefined") else None
  end.

(** A text that is not JSON throws inside the [try]. *)
Definition parseSidebarConfig (value : option jstr) : AdminConfig :=
  match value with
  | None => default_admin
  | Some v =>
    if str_eqb (trim v) [] then default_admin
    else match json_parse v with
    | Some parsed => mergeWithDefaultSidebarModules parsed
    | None => default_admin
    end
  end.

Definition parseUserSidebarConfig (value : option jstr) : SidebarModulesUserConfig :=
  match value with
  | None => None
  | Some v =>
    if str_eqb (trim v) [] then None
    else match json_parse v with
    | Some (JArr _ | JObj _) as parsed => parsed
    | _ => None
    end
  end.

(** [v === true] *)
Definition is_true_json (v : option json) : bool :=
  match v with Some (JBool true) => true | _ => false end.

(** The administrator's layer: section, [enabled] and module. *)
Definition admin_allows (admin : AdminConfig) (section module : jstr) : bool :=
  match obj_get section admin with
  | Some sec =>
    json_truthy sec && match prop (js "enabled") sec with Some e => json_truthy e | None => false end
    && is_true_json (prop module sec)
  | None => false
  end.

(** The user's layer, on a configuration that is not null. *)
Definition user_allows (user : SidebarModulesUserConfig) (section module : jstr) : bool :=
  match user with
  | None => true
  | Some u =>
    match prop section u with
    | None => true
    | Some sec =>
      if negb (json_truthy sec) then true
      else if is_false (prop (js "enabled") sec) then false
      else negb (is_false (prop module sec))
    end
  end.

Definition isModuleEnabled (url : jstr) (admin : AdminConfig) (user : SidebarModulesUserConfig) : bool :=
  match url_config url with
  | None => true
  | Some (section, module) =>
    if negb (admin_allows admin section module) then false else user_allows user section module
  end.

Section hook.
Context {Icon : Type}.

Definition isNavItemVisible (item : NavItem Icon) (admin : AdminConfig) (user : SidebarModulesUserConfig) : bool :=
  match item with
  | NavChatPresets _ =>
    if negb (admin_allows admin (js "chat") (js "chat")) then false else user_allows user (js "chat") (js "chat")
  | NavLink base url =>
    if nonempty url
    then existsb (λ u, isModuleEnabled u admin user) (default [url] (configUrls base))
    else true
  | NavCollapsible _ items => existsb (λ sub, isModuleEnabled sub.2 admin user) items
  end.

Definition filterNavItems (items : list (NavItem Icon)) (admin : AdminConfig)
    (user : SidebarModulesUserConfig) : list (NavItem Icon) :=
  List.filter (λ item, isNavItemVisible item admin user)
    (map (λ item,
       match item with
       | NavCollapsible base subs =>
         NavCollapsible base (List.filter (λ sub, isModuleEnabled sub.2 admin user) subs)
       | _ => item
       end) items).

Definition user_overlay (sidebar_settings : option bool) (sidebar_modules : option jstr)
    : SidebarModulesUserConfig :=
  match sidebar_settings with
  | Some false => None
  | _ => parseUserSidebarConfig sidebar_modules
  end.

Definition useSidebarConfig (adminText : option jstr) (sidebar_settings : option bool)
    (sidebar_modules : option jstr) (navGroups : list (NavGroup Icon)) : list (NavGroup Icon) :=
  let admin := parseSidebarConfig adminText in
  let user := user_overlay sidebar_settings sidebar_modules in
  List.filter (λ group, negb (bool_decide (length (group_items group) = 0)))
    (map (λ group,
       {| group_id := group_id group; group_title := group_title group;
          group_items := filterNavItems (group_items group) admin user |}) navGroups).
End hook.

(** ** What the user sees *)

Section entries.
Context {Icon : Type}.

(** The entries a group offers: links, links of a collapsible entry under its
    header, and the list of chat presets. *)
Inductive entry :=
  | EntryLink (base : BaseNavItem Icon) (url : jstr)
  | EntrySub (header : BaseNavItem Icon) (base : BaseNavItem Icon) (url : jstr)
  | EntryPresets (base : BaseNavItem Icon).

Definition item_entries (item : NavItem Icon) : list entry :=
  match item with
  | NavLink base url => [EntryLink base url]
  | NavCollapsible base subs => map (λ sub, EntrySub base sub.1 sub.2) subs
  | NavChatPresets base => [EntryPresets base]
  end.

(** Every entry with the group it is listed in. *)
Definition entries (groups : list (NavGroup Icon)) : list (option jstr * jstr * entry) :=
  groups ≫= λ g, map (λ e, (group_id g, group_title g, e)) (group_items g ≫= item_entries).

(** When an entry is to be shown. *)
Definition shown (admin : AdminConfig) (user : SidebarModulesUserConfig) (e : entry) : bool :=
  match e with
  | EntryLink base [] => true
  | EntryLink base url => existsb (λ u, isModuleEnabled u admin user) (default [url] (configUrls base))
  | EntrySub _ _ url => isModuleEnabled url admin user
  | EntryPresets _ => admin_allows admin (js "chat") (js "chat") && user_allows user (js "chat") (js "chat")
  end.

Lemma filter_map {A B} (p : B → bool) (f : A → B) l :
  List.filter p (map f l) = map f (List.filter (λ x, p (f x)) l).
Proof. induction l as [|x l IH]; [done|]. cbn [map List.filter]. rewrite IH. by destruct (p (f x)). Qed.

Lemma filter_entries admin user items :
  filterNavItems items admin user ≫= item_entries
  = List.filter (shown admin user) (items ≫= item_entries).
Proof.
  unfold filterNavItems. induction items as [|item items IH]; [done|].
  cbn [map List.filter]. rewrite bind_cons, List.filter_app, <- IH. clear IH.
  destruct item as [base url|base subs|base]; cbn [item_entries isNavItemVisible List.filter shown].
  - destruct url as [|c url]; [done|]. cbn [nonempty]. by destruct (existsb _ _).
  - rewrite (filter_map (shown admin user)). cbn [shown].
    destruct (existsb _ (List.filter _ subs)) eqn:E; [by rewrite bind_cons|].
    rewrite existsb_false in E. destruct (List.filter _ subs) as [|sub l] eqn:Ef; [done|].
    apply Forall_cons in E as [E _].
    assert (sub ∈ List.filter (λ x, isModuleEnabled x.2 admin user) subs) as Hin by (rewrite Ef; left).
    apply list_elem_of_In, filter_In in Hin as [_ ?]. cbv beta in *. congruence.
  - destruct (admin_allows _ _ _); cbn [negb andb]; [|done]. by destruct (user_allows _ _ _).
Qed.

Lemma sidebar_entries adminText settings modules groups :
  entries (useSidebarConfig adminText settings modules groups)
  = List.filter (λ ge, shown (parseSidebarConfig adminText) (user_overlay settings modules) ge.2) (entries groups).
Proof.
  unfold useSidebarConfig, entries. induction groups as [|g groups IH]; [done|].
  rewrite bind_cons, List.filter_app, <- IH. clear IH. rewrite (filter_map (λ ge, shown _ _ ge.2)). cbn [snd].
  rewrite <- filter_entries. cbn [map List.filter group_items].
  destruct (filterNavItems (group_items g) _ _) as [|i rest] eqn:E; [done|].
  rewrite bool_decide_eq_false_2 by done. cbn [negb]. by rewrite bind_cons.
Qed.

(** The sidebar shows exactly the entries that are enabled, in their order and
    under their groups: flattening the filtered navigation gives the flattened
    navigation without the disabled entries, and no group and no collapsible
    entry is left empty. *)
Theorem sidebar_shows_exactly adminText settings modules groups :
  entries (useSidebarConfig adminText settings modules groups)
  = List.filter (λ ge, shown (parseSidebarConfig adminText) (user_overlay settings modules) ge.2) (entries groups)
  ∧ Forall (λ g, group_items g ≠ [] ∧
             Forall (λ i, match i with NavCollapsible _ subs => subs ≠ [] | _ => True end) (group_items g))
      (useSidebarConfig adminText settings modules groups).
Proof.
  split; [apply sidebar_entries|]. unfold useSidebarConfig.
  apply Forall_forall. intros g Hg. apply list_elem_of_In, filter_In in Hg as [Hg Hne].
  apply in_map_iff in Hg as (g0 & <- & _). cbn [group_items] in *. boolify.
  split; [intros E; by rewrite E in Hne|]. apply Forall_forall. intros i Hi.
  unfold filterNavItems in Hi. apply list_elem_of_In, filter_In in Hi as [_ Hv].
  destruct i as [|base [|]|]; done.
Qed.

Lemma enabled_narrows url admin user :
  isModuleEnabled url admin user = true → isModuleEnabled url admin None = true.
Proof.
  unfold isModuleEnabled. destruct (url_config url) as [[s m]|]; [|done].
  by destruct (admin_allows admin s m).
Qed.

Lemma shown_narrows admin user e : shown admin user e = true → shown admin None e = true.
Proof.
  destruct e as [base [|c url]|h base url|base]; cbn [shown]; [done| |apply enabled_narrows|].
  - rewrite !existsb_exists. intros (u & Hu & H%enabled_narrows). eauto.
  - intros H. boolify. by rewrite H.
Qed.

(** An entry the administrator's layer refuses is hidden whatever the user stores. *)
Lemma admin_decides url admin user s m :
  obj_get url URL_TO_CONFIG_MAP = Some (s, m) → admin_allows admin s m = false →
  isModuleEnabled url admin user = false.
Proof. intros Hu Ha. unfold isModuleEnabled, url_config. by rewrite Hu, Ha. Qed.

Lemma filter_sublist {A} (p q : A → bool) l :
  (∀ x, p x = true → q x = true) → List.filter p l `sublist_of` List.filter q l.
Proof.
  intros H. induction l as [|x l IH]; cbn [List.filter]; [constructor|].
  destruct (p x) eqn:Ep; [rewrite H by done; by constructor|]. destruct (q x); [by constructor|done].
Qed.

(** The user's configuration only narrows: the entries of a user's sidebar are
    a subsequence of those the administrator allows, no entry the administrator's
    layer refuses appears whatever the user stores, and the user's text is
    ignored for users who may not configure their sidebar. *)
Theorem user_overlay_narrows adminText settings modules groups :
  entries (useSidebarConfig adminText settings modules groups)
    `sublist_of` entries (useSidebarConfig adminText settings None groups) ∧
  (∀ gid gtitle h base url s m,
    (gid, gtitle, EntrySub h base url) ∈ entries (useSidebarConfig adminText settings modules groups) →
    obj_get url URL_TO_CONFIG_MAP = Some (s, m) →
    admin_allows (parseSidebarConfig adminText) s m = true) ∧
  useSidebarConfig adminText (Some false) modules groups = useSidebarConfig adminText settings None groups.
Proof.
  split_and!.
  - rewrite !sidebar_entries. apply filter_sublist. intros [g e] H. cbn [snd] in *.
    assert (user_overlay settings None = None) as -> by by destruct settings as [[]|].
    by eapply shown_narrows.
  - intros gid gtitle h base url s m. rewrite sidebar_entries, list_elem_of_In, filter_In.
    intros [_ Hs] Hu. cbn [snd shown] in Hs.
    destruct (admin_allows _ s m) eqn:Ha; [done|]. by rewrite (admin_decides url _ _ s m Hu Ha) in Hs.
  - unfold useSidebarConfig. by destruct settings as [[]|].
Qed.
End entries.

(** ** The administrator's text and its three readers *)

Section enforced.
Context {LC : LowerCase}.

Lemma obj_get_overwrite {A} (l base : list (jstr * A)) k :
  NoDup (map fst l) →
  obj_get k (foldl (λ o kv, obj_set o kv.1 kv.2) base l)
  = match obj_get k l with Some v => Some v | None => obj_get k base end.
Proof.
  intros Hnd. change (λ o kv, obj_set o kv.1 kv.2) with (obj_update (λ _ _ (v : A), Some v)).
  rewrite obj_get_update by done. by destruct (obj_get k l).
Qed.

(** A flag the section has survives the merge with the defaults. *)
Lemma merge_section_get d x m b :
  NoDup (map fst d) → NoDup (map fst x) → obj_get m x = Some b →
  prop m (merge_section d (section_json x)) = Some (JBool b).
Proof.
  intros Hd Hx Hm. cbn [merge_section prop section_json own_props].
  rewrite obj_get_update, obj_get_overwrite by by rewrite ?map_fst_prod_map.
  rewrite obj_get_map, Hm. by destruct (obj_get m d).
Qed.

Lemma sidebar_config_read c s x :
  sidebar_ok c → obj_get s c = Some x →
  ∃ sec, obj_get s (parseSidebarConfig (Some (serializeSidebarModulesAdmin c))) = Some sec ∧
    json_truthy sec = true ∧ ∀ m b, obj_get m x = Some b → prop m sec = Some (JBool b).
Proof.
  intros Hc Hx. pose proof (sidebar_json_ok c Hc) as Hok. destruct (printed_not_blank _ Hok) as [_ Ht].
  unfold parseSidebarConfig, serializeSidebarModulesAdmin. rewrite Ht, json_parse_stringify by done.
  destruct Hc as (Ho & _ & Hs & _). unfold mergeWithDefaultSidebarModules. cbn [own_props].
  rewrite obj_get_update by (apply (bool_decide_unpack _); by vm_compute).
  rewrite obj_get_overwrite by (rewrite map_fst_prod_map; apply Ho). rewrite obj_get_map, Hx.
  cbn [fmap option_fmap option_map].
  assert (NoDup (map fst x)) as Hnd
    by (apply obj_get_elem in Hx; rewrite Forall_forall in Hs; by apply (Hs (s, x))).
  destruct (obj_get s DEFAULT_SIDEBAR_MODULES) as [d|] eqn:Ed; cbn [mbind option_bind].
  - eexists. split; [done|]. split; [done|]. intros m b.
    apply merge_section_get; [|done]. by apply (default_nodup s).
  - eexists. split; [done|]. split; [done|]. intros m b Hm. unfold section_json. cbn [prop].
    by rewrite obj_get_map, Hm.
Qed.

(** The entry belongs to this module: a link or a link of a collapsible entry
    whose url is mapped to it, without other urls to decide on, or the list of
    chat presets. *)
Definition belongs {Icon} (e : @entry Icon) (s m : jstr) : Prop :=
  match e with
  | EntryLink base url => configUrls base = None ∧ obj_get url URL_TO_CONFIG_MAP = Some (s, m)
  | EntrySub _ _ url => obj_get url URL_TO_CONFIG_MAP = Some (s, m)
  | EntryPresets _ => s = js "chat" ∧ m = js "chat"
  end.

Lemma enabled_layers url admin user s m :
  obj_get url URL_TO_CONFIG_MAP = Some (s, m) →
  isModuleEnabled url admin user = admin_allows admin s m && user_allows user s m.
Proof. intros Hu. unfold isModuleEnabled, url_config. rewrite Hu. by destruct (admin_allows _ _ _). Qed.

Lemma shown_layers {Icon} (en : @entry Icon) admin user s m :
  belongs en s m → shown admin user en = admin_allows admin s m && user_allows user s m.
Proof.
  destruct en as [base url|h base url|base]; cbn [belongs shown].
  - intros [Hb Hu]. rewrite Hb. destruct url as [|c url]; [done|]. cbn [default existsb].
    by rewrite (enabled_layers _ _ _ _ _ Hu), orb_false_r.
  - apply enabled_layers.
  - by intros [-> ->].
Qed.

Lemma saved_allows c s m x e b :
  sidebar_ok c → obj_get s c = Some x → obj_get (js "enabled") x = Some e → obj_get m x = Some b →
  admin_allows (parseSidebarConfig (Some (serializeSidebarModulesAdmin c))) s m = e && b.
Proof.
  intros Hc Hx He Hm. destruct (sidebar_config_read c s x Hc Hx) as (sec & Hsec & Ht & Hf).
  unfold admin_allows. rewrite Hsec, Ht, (Hf _ _ He), (Hf _ _ Hm). by destruct e, b.
Qed.

Lemma saved_guarded c s m x e b status :
  sidebar_ok c → obj_get s c = Some x → obj_get (js "enabled") x = Some e → obj_get m x = Some b →
  json_ok status → prop (js "SidebarModulesAdmin") status = Some (JStr (serializeSidebarModulesAdmin c)) →
  isSidebarModuleEnabled (Some (stringify status)) s m = Ret (e && b).
Proof.
  intros Hc Hx He Hm Hok Hp. pose proof (sidebar_json_ok c Hc) as Hok'.
  destruct (printed_not_blank _ Hok') as [Hn Ht].
  unfold isSidebarModuleEnabled. rewrite cached_status_read by done.
  assert (json_truthy status = true) as -> by by destruct status.
  rewrite Hp. cbn [negb json_truthy coercible string_of_json].
  unfold serializeSidebarModulesAdmin. rewrite Hn, Ht, json_parse_stringify by done.
  cbn [negb own_props]. rewrite obj_get_map, Hx. cbn [fmap option_fmap option_map].
  unfold section_json. cbn [json_truthy negb prop own_props]. rewrite !obj_get_map, He, Hm.
  by destruct e, b.
Qed.


(** On a text the settings page did not write the three readers differ: with
    the module stored as the number 1 the settings page shows it on, the sidebar
    hides its entry, and the route guard lets the page through. *)
Theorem sidebar_readers_disagree :
  let text := jq "{'chat':{'playground':1}}" in
  (obj_get (js "chat") (parseSidebarModulesAdmin (Some text)) ≫= obj_get (js "playground")) = Some true ∧
  isModuleEnabled (js "/playground") (parseSidebarConfig (Some text)) None = false ∧
  isSidebarModuleEnabled (Some (stringify (JObj [(js "SidebarModulesAdmin", JStr text)])))
    (js "chat") (js "playground") = Ret true.
Proof. by vm_compute. Qed.
End enforced.

(** ** Instances of the theorems on concrete data *)

#[local] Existing Instance ascii_lower_case.

Definition demo_base : BaseNavItem unit :=
  {| title := js "Logs"; badge := None; icon := None; activeUrls := None; configUrls := None |}.

Definition demo_groups : list (NavGroup unit) :=
  [{| group_id := None; group_title := js "Console";
      group_items := [NavLink demo_base (js "/usage-logs"); NavLink demo_base (js "/keys")] |}].

