(* ===== verification/ChannelList.v ===== *)
(** * The list of channels

    Model of [web/default/src/features/channels/lib/channel-utils.ts], of the tables of
    [constants.ts] that it reads, and of what [channels-table.tsx] and
    [channel-mutate-drawer.tsx] do with it: the rows of the tag mode, the texts of the
    cells, lists of models and groups, and the keys of a channel.

    Numbers that are added or divided are JavaScript numbers; identifiers, states, priorities
    and weights are integers, which the code only compares.  [None] is null or missing. *)

From Stdlib Require Import NArith ZArith SpecFloat Reals Lra.
From S2P Require Import Prelude JsString JsNumber NumRounding Json Pricing.

#[local] Open Scope Z_scope.

(** ** Data: the fields that the list uses *)

Record ChannelInfo := {
  is_multi_key : bool;
  multi_key_size : Z;
  multi_key_status_list : option (list (jstr * Z));
}.

Record Channel := {
  id : Z;
  type : Z;
  key : jstr;
  status : Z;
  name : jstr;
  weight : option Z;
  created_time : Z;
  test_time : Z;
  response_time : num;
  balance : num;
  balance_updated_time : Z;
  models : jstr;
  group : jstr;
  used_quota : num;
  priority : option Z;
  tag : option jstr;
  setting : option jstr;
  channel_info : option ChannelInfo;
}.

(** ** Types of channels *)

Definition CHANNEL_TYPES : list (Z * jstr) := [
  (0, js "Unknown"); (1, js "OpenAI"); (2, js "Midjourney"); (3, js "Azure"); (4, js "Ollama"); (5, js "MidjourneyPlus");
  (6, js "OpenAIMax"); (7, js "OhMyGPT"); (8, js "Custom"); (9, js "AILS"); (10, js "AI Proxy"); (11, js "PaLM");
  (12, js "API2GPT"); (13, js "AIGC2D"); (14, js "Anthropic"); (15, js "Baidu"); (16, js "Zhipu"); (17, js "Ali");
  (18, js "Xunfei"); (19, js "360"); (20, js "OpenRouter"); (21, js "AI Proxy Library"); (22, js "FastGPT");
  (23, js "Tencent"); (24, js "Gemini"); (25, js "Moonshot"); (26, js "Zhipu V4"); (27, js "Perplexity");
  (31, js "LingYiWanWu"); (33, js "AWS"); (34, js "Cohere"); (35, js "MiniMax"); (36, js "SunoAPI"); (37, js "Dify");
  (38, js "Jina"); (39, js "Cloudflare"); (40, js "SiliconFlow"); (41, js "Vertex AI"); (42, js "Mistral");
  (43, js "DeepSeek"); (44, js "MokaAI"); (45, js "VolcEngine"); (46, js "Baidu V2"); (47, js "Xinference");
  (48, js "xAI"); (49, js "Coze"); (50, js "Kling"); (51, js "Jimeng"); (52, js "Vidu"); (53, js "Submodel");
  (54, js "DoubaoVideo"); (55, js "Sora"); (56, js "Replicate"); (57, js "Codex")].

Definition CHANNEL_TYPE_DISPLAY_ORDER : list Z := [
  1; 14; 33; 24; 43; 3; 41; 48; 42; 34; 20; 4; 40; 27; 25; 17; 26; 15; 46; 23;
  18; 45; 31; 35; 49; 19; 47; 37; 38; 39; 11; 8; 57; 22; 21; 44; 2; 5; 36; 50;
  51; 52; 53; 54; 55; 56].

(** A property of an object whose names are numbers. *)
Definition table_get {A} (t : list (Z * A)) (k : Z) : option A :=
  snd <$> List.find (λ e, fst e =? k) t.

(** The ordered types that have a label, then the others but 0. *)
Definition CHANNEL_TYPE_OPTIONS : list (Z * jstr) :=
  let ordered := omap (λ id, match table_get CHANNEL_TYPES id with
                             | Some label => if nonempty label then Some (id, label) else None
                             | None => None
                             end) CHANNEL_TYPE_DISPLAY_ORDER in
  let seen := map fst ordered in
  ordered ++ List.filter (λ e, negb (fst e =? 0) && negb (existsb (Z.eqb (fst e)) seen)) CHANNEL_TYPES.

(** [table[k] || d]. *)
Definition table_or (t : list (Z * jstr)) (k : Z) (d : jstr) : jstr :=
  match table_get t k with Some s => str_or s d | None => d end.

Definition getChannelTypeLabel (type : Z) : jstr := table_or CHANNEL_TYPES type (js "Unknown").

Definition TYPE_TO_ICON : list (Z * jstr) := [
  (1, js "OpenAI"); (6, js "OpenAI"); (7, js "OpenAI"); (8, js "OpenAI"); (3, js "Azure");
  (14, js "Claude");
  (24, js "Gemini"); (11, js "Google"); (41, js "Gemini");
  (33, js "Aws"); (39, js "Cloudflare");
  (15, js "Baidu"); (46, js "Baidu"); (16, js "Zhipu"); (26, js "Zhipu"); (17, js "Qwen"); (18, js "Spark");
  (23, js "Hunyuan"); (19, js "Ai360"); (25, js "Moonshot"); (31, js "Yi"); (35, js "Minimax"); (45, js "Volcengine");
  (4, js "Ollama"); (27, js "Perplexity"); (34, js "Cohere"); (42, js "Mistral"); (43, js "DeepSeek"); (48, js "XAI");
  (49, js "Coze"); (40, js "SiliconCloud"); (44, js "OpenAI"); (20, js "OpenRouter");
  (2, js "Midjourney"); (5, js "Midjourney"); (50, js "Kling"); (51, js "Jimeng"); (52, js "Vidu"); (36, js "Suno");
  (55, js "OpenAI"); (54, js "Doubao"); (56, js "Replicate");
  (37, js "Dify"); (38, js "Jina"); (22, js "FastGPT"); (47, js "Xinference"); (53, js "OpenAI");
  (10, js "OpenAI"); (21, js "OpenAI"); (12, js "OpenAI"); (13, js "OpenAI"); (9, js "OpenAI")].

Definition getChannelTypeIcon (type : Z) : jstr := table_or TYPE_TO_ICON type (js "OpenAI").

Definition TYPE_TO_KEY_PROMPT : list (Z * jstr) := [
  (15, js "Format: APIKey|SecretKey"); (18, js "Format: APPID|APISecret|APIKey");
  (22, js "Format: APIKey-AppId, e.g., fastgpt-0sp2gtvfdgyi4k30jwlgwf1i-64f335d84283f05518e9e041");
  (23, js "Format: AppId|SecretId|SecretKey"); (33, js "Format: Ak|Sk|Region");
  (50, js "Format: AccessKey|SecretKey (or just ApiKey if upstream is New API)");
  (51, js "Format: Access Key ID|Secret Access Key");
  (57, js "Paste Codex OAuth JSON credential (access_token / refresh_token / account_id)")].

Definition getKeyPromptForType (type : Z) : jstr := table_or TYPE_TO_KEY_PROMPT type (js "Enter API key for this channel").

(** ** States *)

Definition ENABLED : Z := 1.
Definition MANUAL_DISABLED : Z := 2.
Definition AUTO_DISABLED : Z := 3.

Definition isChannelEnabled (channel : Channel) : bool := status channel =? 1.

Definition isMultiKeyChannel (channel : Channel) : bool :=
  match channel_info channel with Some i => is_multi_key i | None => false end.

(** A badge: its colour and its label. *)
Abbreviation badge := (jstr * jstr)%type.

Definition CHANNEL_STATUS_CONFIG : list (Z * badge) := [
  (0, (js "neutral", js "Unknown")); (ENABLED, (js "success", js "Enabled"));
  (MANUAL_DISABLED, (js "danger", js "Disabled")); (AUTO_DISABLED, (js "warning", js "Auto Disabled"))].

Definition MULTI_KEY_STATUS_CONFIG : list (Z * badge) := [
  (ENABLED, (js "success", js "Enabled")); (MANUAL_DISABLED, (js "neutral", js "Manual Disabled"));
  (AUTO_DISABLED, (js "danger", js "Auto Disabled"))].

Definition getChannelStatusBadge (status : Z) : option badge :=
  match table_get CHANNEL_STATUS_CONFIG status with Some b => Some b | None => table_get CHANNEL_STATUS_CONFIG 0 end.

Definition getMultiKeyStatusBadge (status : Z) : option badge :=
  match table_get MULTI_KEY_STATUS_CONFIG status with Some b => Some b | None => table_get MULTI_KEY_STATUS_CONFIG 1 end.

(** All keys of a channel with several keys have an entry in the list of disabled ones. *)
Definition all_keys_disabled (channel : Channel) : bool :=
  match channel_info channel with
  | Some i =>
    is_multi_key i &&
    match multi_key_status_list i with Some l => multi_key_size i <=? Z.of_nat (length l) | None => false end
  | None => false
  end.

Definition low_balance (channel : Channel) : bool := nlt nzero (balance channel) && nlt (balance channel) (num_of_Z 1).

Definition channelNeedsAttention (channel : Channel) : bool :=
  if status channel =? 3 then true
  else if low_balance channel then true
  else if all_keys_disabled channel then true
  else false.

Definition getAttentionReason (channel : Channel) : option jstr :=
  if status channel =? 3 then Some (js "Auto-disabled")
  else if low_balance channel then Some (js "Low balance")
  else if all_keys_disabled channel then Some (js "All keys disabled")
  else None.

(** ** Texts of the cells *)

Definition dots : jstr := js "...".

(** [s.slice(-n)]. *)
Definition slice_last (n : nat) (s : jstr) : jstr := drop (length s - n) s.

(** [key.split('\n').filter((k) => k.trim())]. *)
Definition key_lines (key : jstr) : list jstr := List.filter (λ k, nonempty (trim k)) (split_char 10 key).

Definition formatChannelKey (key : jstr) (isMultiKey : bool) : jstr :=
  if negb (nonempty key) then []
  else if isMultiKey then dec (N.of_nat (length (key_lines key))) ++ js " keys"
  else if (length key <=? 16)%nat then take 4 key ++ dots ++ slice_last 4 key
  else take 8 key ++ dots ++ slice_last 8 key.

Definition formatKeyPreview (key : jstr) (maxLength : nat) : jstr :=
  if negb (nonempty key) then []
  else if (length key <=? maxLength)%nat then key
  else take maxLength key ++ dots.

Definition countKeys (key : jstr) : nat :=
  if negb (nonempty key) then 0%nat else length (key_lines key).

Inductive Variant := Success | Info | Warning | Danger | Neutral.

Definition getBalanceVariant (balance : num) : Variant :=
  if num_eqb balance nzero then Neutral
  else if nlt balance (num_of_Z 1) then Danger
  else if nlt balance (num_of_Z 10) then Warning
  else Success.

(** [RESPONSE_TIME_CONFIG], at the thresholds in milliseconds. *)
Definition getResponseTimeConfig (timeMs : num) : Variant * jstr :=
  if num_eqb timeMs nzero then (Neutral, js "Not tested")
  else if nle timeMs (num_of_Z 500) then (Success, js "Excellent")
  else if nle timeMs (num_of_Z 1000) then (Info, js "Good")
  else if nle timeMs (num_of_Z 2000) then (Warning, js "Fair")
  else if nle timeMs (num_of_Z 5000) then (Danger, js "Poor")
  else (Danger, js "Poor").

(** Without a translation function. *)
Definition formatResponseTime (timeMs : num) : jstr :=
  if num_eqb timeMs nzero then js "Not tested"
  else if nlt timeMs (num_of_Z 1000) then num_to_string timeMs ++ js "ms"
  else toFixed (ndiv timeMs (num_of_Z 1000)) 2 ++ js "s".

Definition getPriorityDisplay (priority : option Z) : jstr :=
  match priority with Some p => num_to_string (num_of_Z p) | None => js "0" end.

Definition getWeightDisplay (weight : option Z) : jstr :=
  match weight with Some w => num_to_string (num_of_Z w) | None => js "0" end.

(** ** Lists and settings *)

Definition comma_list (s : jstr) : list jstr := List.filter nonempty (map trim (split_char 44 s)).

Definition parseModelsList (models : jstr) : list jstr := if nonempty models then comma_list models else [].

(** The comparison of the sort is not positive. *)
Definition group_le `{Collation} (a b : jstr) : bool :=
  if str_eqb a (js "default") then true
  else if str_eqb b (js "default") then false
  else locale_le a b.

Definition parseGroupsList `{Collation} (groups : jstr) : list jstr :=
  if nonempty groups then stable_sort group_le (comma_list groups) else [].

Definition formatModelsString (models : list jstr) : jstr := str_join (js ",") models.
Definition formatGroupsString (groups : list jstr) : jstr := str_join (js ",") groups.

Definition parseChannelSettings (settingStr : option jstr) : json :=
  match settingStr with
  | Some (c :: s) => default (JObj []) (json_parse (c :: s))
  | _ => JObj []
  end.

Definition parseChannelOtherSettings (settingsStr : option jstr) : json :=
  match settingsStr with
  | Some (c :: s) => if str_eqb (c :: s) (js "{}") then JObj [] else default (JObj []) (json_parse (c :: s))
  | _ => JObj []
  end.

Definition validateChannelSettings (settings : jstr) : bool :=
  if negb (nonempty settings) || str_eqb (trim settings) [] then true
  else match json_parse settings with Some _ => true | None => false end.

Definition validateChannelName (name : jstr) : bool := nonempty (trim name).
Definition validateApiKey (key : jstr) : bool := nonempty (trim key).
Definition validateModels (models : jstr) : bool := (0 <? length (parseModelsList models))%nat.
Definition validateGroups `{Collation} (groups : jstr) : bool := (0 <? length (parseGroupsList groups))%nat.

(** ** Rows of the tag mode *)

(** A row for a tag: the fields that are not listed are those of the channel that it was
    copied from, and its identifier, key and name are the tag itself. *)
Record TagRow := {
  row_copied : Channel;
  row_id : jstr;
  row_key : jstr;
  row_tag : jstr;
  row_name : jstr;
  row_type : Z;
  row_status : option Z;
  row_group : jstr;
  row_used_quota : num;
  row_response_time : num;
  row_priority : option Z;
  row_weight : option Z;
  row_balance : num;
  row_test_time : Z;
  row_created_time : Z;
  row_balance_updated_time : Z;
  row_models : jstr;
  children : list Channel;
}.

(** [channel.tag || '']. *)
Definition channel_tag (c : Channel) : jstr := match tag c with Some t => t | None => [] end.

Definition new_row (t : jstr) (c : Channel) : TagRow := {|
  row_copied := c; row_id := t; row_key := t; row_tag := t; row_name := t; row_type := 0; row_status := None;
  row_group := []; row_used_quota := nzero; row_response_time := nzero; row_priority := Some (-1);
  row_weight := Some (-1); row_balance := nzero; row_test_time := 0; row_created_time := 0;
  row_balance_updated_time := 0; row_models := []; children := [] |}.

(** [-1] is a value that was not set yet. *)
Definition same_or_null (current new : option Z) : option Z :=
  if bool_decide (current = Some (-1)) then new
  else if negb (bool_decide (current = new)) then None
  else current.

(** [s.split(',').filter(Boolean)]. *)
Definition group_names (s : jstr) : list jstr := List.filter nonempty (split_char 44 s).

Definition merge_groups (current new : jstr) : jstr :=
  if negb (nonempty current) then new
  else
    let existingGroups := group_names current in
    foldl (λ acc g, if existsb (str_eqb g) existingGroups then acc else acc ++ [44%N] ++ g) current (group_names new).

Definition merge_status (current : option Z) (new : Z) : option Z :=
  if new =? 1 then Some 1 else match current with None => Some new | Some _ => current end.

(** The running average. *)
Definition merge_time (current : num) (childCount : nat) (new : num) : num :=
  ndiv (nadd (nmul current (num_of_Z (Z.of_nat childCount - 1))) new) (num_of_Z (Z.of_nat childCount)).

Definition add_child (r : TagRow) (c : Channel) : TagRow :=
  let kids := children r ++ [c] in
  {| row_copied := row_copied r; row_id := row_id r; row_key := row_key r; row_tag := row_tag r; row_name := row_name r;
     row_type := row_type r;
     row_status := merge_status (row_status r) (status c);
     row_group := merge_groups (row_group r) (group c);
     row_used_quota := nadd (row_used_quota r) (used_quota c);
     row_response_time := merge_time (row_response_time r) (length kids) (response_time c);
     row_priority := same_or_null (row_priority r) (priority c);
     row_weight := same_or_null (row_weight r) (weight c);
     row_balance := row_balance r; row_test_time := row_test_time r; row_created_time := row_created_time r;
     row_balance_updated_time := row_balance_updated_time r; row_models := row_models r;
     children := kids |}.

(** The rows in the order in which they were pushed.  The map from tags and the result share
    them, and a row keeps the tag that it was made for, so one list stands for both. *)
Definition has_row (t : jstr) (rows : list TagRow) : bool := existsb (λ r, str_eqb (row_tag r) t) rows.

Definition update_row (t : jstr) (f : TagRow → TagRow) (rows : list TagRow) : list TagRow :=
  map (λ r, if str_eqb (row_tag r) t then f r else r) rows.

Definition add_channel (rows : list TagRow) (c : Channel) : list TagRow :=
  let t := channel_tag c in
  let rows := if has_row t rows then rows else rows ++ [new_row t c] in
  update_row t (λ r, add_child r c) rows.

Definition aggregateChannelsByTag (channels : list Channel) : list TagRow := foldl add_channel [] channels.

(** What the table lists: channels, or rows of the tag mode. *)
Inductive Row := ChannelRow (c : Channel) | AggregateRow (r : TagRow).

Definition isTagAggregateRow (row : Row) : bool := match row with AggregateRow _ => true | ChannelRow _ => false end.

Definition isDisabledChannelRow (row : Row) : bool :=
  match row with ChannelRow c => negb (status c =? ENABLED) | AggregateRow _ => false end.

Definition table_rows (enableTagMode : bool) (rawChannels : list Channel) : list Row :=
  if enableTagMode && (0 <? length rawChannels)%nat then map AggregateRow (aggregateChannelsByTag rawChannels)
  else map ChannelRow rawChannels.

Definition getSubRows (row : Row) : list Channel := match row with AggregateRow r => children r | ChannelRow _ => [] end.

(** The channels of the table with all rows expanded: these can be selected. *)
Definition selectable (rows : list Row) : list Channel :=
  rows ≫= λ row, (match row with ChannelRow c => [c] | AggregateRow _ => [] end) ++ getSubRows row.

(** ** Duplicate keys *)

Record Deduplicated := { deduplicatedText : jstr; beforeCount : nat; afterCount : nat; removedCount : nat }.

(** The set of the loop holds the keys that were pushed. *)
Definition push_key (keys : list jstr) (line : jstr) : list jstr :=
  let trimmedLine := trim line in
  if nonempty trimmedLine && negb (existsb (str_eqb trimmedLine) keys) then keys ++ [trimmedLine] else keys.

Definition deduplicateKeys (keysText : jstr) : Deduplicated :=
  if negb (nonempty keysText) || str_eqb (trim keysText) []
  then {| deduplicatedText := []; beforeCount := 0; afterCount := 0; removedCount := 0 |}
  else
    let keyLines := split_char 10 keysText in
    let deduplicatedKeys := foldl push_key [] keyLines in
    {| deduplicatedText := str_join [10%N] deduplicatedKeys;
       beforeCount := length keyLines;
       afterCount := length deduplicatedKeys;
       removedCount := length keyLines - length deduplicatedKeys |}.

Inductive Toast := EnterKeysFirst | NoDuplicates | RemovedKeys (removed before after : nat).

(** The button of the drawer: the key field afterwards and the message. *)
Definition handleDeduplicateKeys (currentKey : jstr) : jstr * Toast :=
  if negb (nonempty currentKey) || str_eqb (trim currentKey) [] then (currentKey, EnterKeysFirst)
  else
    let result := deduplicateKeys currentKey in
    if (removedCount result =? 0)%nat then (currentKey, NoDuplicates)
    else (deduplicatedText result, RemovedKeys (removedCount result) (beforeCount result) (afterCount result)).

(** ** The loop over the channels *)

(** The channels of a tag. *)
Definition tagged (t : jstr) (channels : list Channel) : list Channel := List.filter (λ c, str_eqb (channel_tag c) t) channels.

Lemma has_row_spec t rows : has_row t rows = bool_decide (t ∈ map row_tag rows).
Proof.
  apply eq_bool_prop_intro. rewrite !Is_true_true. unfold has_row. rewrite existsb_exists, bool_decide_eq_true, list_elem_of_fmap.
  split; [intros (r & Hr & E); exists r|intros (r & -> & Hr); exists r].
  - apply bool_decide_eq_true in E. by rewrite list_elem_of_In.
  - rewrite <- list_elem_of_In. split; [done|]. by apply bool_decide_eq_true.
Qed.

Lemma update_row_tags t c rows : map row_tag (update_row t (λ r, add_child r c) rows) = map row_tag rows.
Proof. unfold update_row. rewrite map_map. apply map_ext. intros r. by destruct (str_eqb _ _). Qed.

Lemma add_children_tag r cs : row_tag (foldl add_child r cs) = row_tag r.
Proof. induction cs as [|c cs IH] using rev_ind; [done|]. by rewrite foldl_snoc. Qed.

Lemma tagged_snoc t cs c : tagged t (cs ++ [c]) = tagged t cs ++ (if str_eqb (channel_tag c) t then [c] else []).
Proof. unfold tagged. rewrite List.filter_app. cbn. by destruct (str_eqb _ _). Qed.

(** A row is made from the first channel of its tag and collects all of them. *)
Definition collects (channels : list Channel) (r : TagRow) : Prop :=
  ∃ c l, tagged (row_tag r) channels = c :: l ∧ r = foldl add_child (new_row (row_tag r) c) (c :: l).

Lemma collects_snoc cs c r : collects cs r →
  collects (cs ++ [c]) (if str_eqb (row_tag r) (channel_tag c) then add_child r c else r).
Proof.
  intros (c0 & l & Hl & Hr). exists c0. assert (str_eqb (row_tag r) (channel_tag c) = str_eqb (channel_tag c) (row_tag r)) as Esym.
  { unfold str_eqb. apply bool_decide_ext. naive_solver. }
  destruct (str_eqb (row_tag r) (channel_tag c)) eqn:E.
  - exists (l ++ [c]). change (row_tag (add_child r c)) with (row_tag r). rewrite tagged_snoc, <- Esym, Hl. split; [done|].
    rewrite app_comm_cons, foldl_snoc. by rewrite <- Hr.
  - exists l. rewrite tagged_snoc, <- Esym, Hl, app_nil_r. done.
Qed.

Lemma rows_collect channels :
  map row_tag (aggregateChannelsByTag channels) = dedup (map channel_tag channels) ∧
  Forall (collects channels) (aggregateChannelsByTag channels).
Proof.
  unfold aggregateChannelsByTag. induction channels as [|c cs [IHt IHr]] using rev_ind; [done|].
  rewrite foldl_snoc. set (rows := foldl add_channel [] cs) in *. unfold add_channel.
  rewrite has_row_spec, IHt, (bool_decide_ext _ _ (elem_of_dedup _ _)), map_app. cbn [map]. rewrite dedup_snoc.
  case_bool_decide as Hin.
  - rewrite update_row_tags, app_nil_r. split; [done|]. unfold update_row. rewrite Forall_map.
    eapply Forall_impl; [exact IHr|]. intros r. apply collects_snoc.
  - rewrite update_row_tags, map_app, IHt. split; [done|]. unfold update_row. rewrite Forall_map, Forall_app. split.
    + eapply Forall_impl; [exact IHr|]. intros r. apply collects_snoc.
    + apply Forall_singleton. cbn [new_row row_tag]. unfold str_eqb. rewrite bool_decide_eq_true_2 by done.
      exists c, []. change (row_tag (add_child (new_row (channel_tag c) c) c)) with (channel_tag c). rewrite tagged_snoc.
      unfold str_eqb at 1. rewrite bool_decide_eq_true_2 by done. split; [|done].
      replace (tagged (channel_tag c) cs) with (@nil Channel); [done|]. symmetry. unfold tagged.
      destruct (List.filter _ cs) as [|d l] eqn:E; [done|]. exfalso. apply Hin.
      assert (In d (List.filter (λ c0, str_eqb (channel_tag c0) (channel_tag c)) cs)) as Hd by (rewrite E; by left).
      apply filter_In in Hd as [Hd Ed]. apply bool_decide_eq_true in Ed. rewrite <- Ed. apply list_elem_of_fmap_2. by apply list_elem_of_In.
Qed.

(** ** What a row collects *)
Lemma add_children_fields r cs :
  children (foldl add_child r cs) = children r ++ cs ∧
  row_used_quota (foldl add_child r cs) = foldl nadd (row_used_quota r) (map used_quota cs) ∧
  row_status (foldl add_child r cs) = foldl merge_status (row_status r) (map status cs) ∧
  row_priority (foldl add_child r cs) = foldl same_or_null (row_priority r) (map priority cs) ∧
  row_weight (foldl add_child r cs) = foldl same_or_null (row_weight r) (map weight cs) ∧
  row_group (foldl add_child r cs) = foldl merge_groups (row_group r) (map group cs).
Proof.
  induction cs as [|c cs (H1 & H2 & H3 & H4 & H5 & H6)] using rev_ind; [by rewrite app_nil_r|].
  rewrite !map_app, !foldl_app. cbn [map foldl add_child children row_used_quota row_status row_priority row_weight row_group].
  rewrite H1, H2, H3, H4, H5, H6, app_assoc. done.
Qed.

Definition sum_Z (l : list Z) : Z := foldr Z.add 0 l.

(** Whole numbers of quota units are added exactly below [2^53]. *)
Lemma quota_sum_exact l a : 0 <= a → Forall (λ u, 0 <= u) l → a + sum_Z l < 2 ^ 53 →
  foldl nadd (num_of_Z a) (map num_of_Z l) = num_of_Z (a + sum_Z l).
Proof.
  revert a. induction l as [|u l IH]; intros a Ha Hl Hs; cbn [map foldl sum_Z foldr]; [by rewrite Z.add_0_r|].
  apply Forall_cons in Hl as [Hu Hl]. cbn [sum_Z foldr] in Hs. fold (sum_Z l) in *.
  assert (0 <= sum_Z l) by (clear -Hl; unfold sum_Z; induction Hl; cbn [foldr]; lia).
  rewrite add_int, IH by (done || lia). f_equal. lia.
Qed.

Lemma status_fold l s : foldl merge_status (Some s) l = Some (if existsb (Z.eqb 1) l then 1 else s).
Proof.
  revert s. induction l as [|x l IH]; intros s; cbn [foldl existsb]; [done|]. unfold merge_status at 2.
  rewrite (Z.eqb_sym 1 x). destruct (x =? 1)%Z; cbn [orb]; rewrite IH; [|done]. by destruct (existsb _ _).
Qed.

Lemma status_spec s l : foldl merge_status None (s :: l) = Some (if existsb (Z.eqb 1) (s :: l) then 1 else s).
Proof.
  cbn [foldl existsb]. unfold merge_status at 2. rewrite (Z.eqb_sym 1 s). destruct (s =? 1)%Z eqn:E; cbn [orb]; rewrite status_fold; [|done].
  by destruct (existsb _ _).
Qed.

(** The value that all have, or null. *)
Definition common (l : list (option Z)) : option Z :=
  match l with
  | [] => None
  | p :: l => if forallb (λ q, bool_decide (q = p)) l then p else None
  end.

(** Without the leading values [-1]. *)
Fixpoint after_unset (l : list (option Z)) : list (option Z) :=
  match l with
  | [] => []
  | p :: l => if bool_decide (p = Some (-1)) then after_unset l else p :: l
  end.

(** The common value of the others, or [-1] when all are [-1]. *)
Definition common_set (l : list (option Z)) : option Z :=
  match after_unset l with [] => Some (-1) | l => common l end.

Lemma null_stays l : foldl same_or_null None l = None.
Proof.
  induction l as [|q l IH]; cbn [foldl]; [done|]. unfold same_or_null at 2. rewrite bool_decide_eq_false_2 by done.
  by destruct (negb _).
Qed.

Lemma same_fold p l : p ≠ Some (-1) → foldl same_or_null p l = common (p :: l).
Proof.
  intros Hp. cbn [common]. induction l as [|q l IH]; cbn [foldl forallb]; [done|]. unfold same_or_null at 2.
  rewrite bool_decide_eq_false_2 by done. rewrite (bool_decide_ext (q = p) (p = q)) by naive_solver.
  case_bool_decide; cbn [negb andb]; [done|]. apply null_stays.
Qed.

Lemma same_or_null_spec l : foldl same_or_null (Some (-1)) l = common_set l.
Proof.
  unfold common_set.
  induction l as [|p l IH]; cbn [foldl after_unset]; [done|]. unfold same_or_null at 2. rewrite bool_decide_eq_true_2 by done.
  case_bool_decide as E; [by subst|]. by apply same_fold.
Qed.

(** Group names. *)
Lemma split_char_snoc c s g : c ∉ g → split_char c (s ++ [c] ++ g) = split_char c s ++ [g].
Proof.
  intros Hg. induction s as [|x s IH].
  - cbn [app split_char]. by rewrite N.eqb_refl, split_char_none.
  - rewrite <- app_comm_cons. cbn [split_char]. rewrite IH. destruct (x =? c)%N; [done|].
    destruct (split_char c s) eqn:E; [by apply split_char_nonnil in E|done].
Qed.

Lemma group_names_snoc s g : g ≠ [] → 44%N ∉ g → group_names (s ++ [44%N] ++ g) = group_names s ++ [g].
Proof.
  intros Hg Hc. unfold group_names. rewrite split_char_snoc, List.filter_app by done. f_equal. cbn.
  by destruct (nonempty_spec g) as [_ ->].
Qed.

Lemma group_names_ok s g : g ∈ group_names s → g ≠ [] ∧ 44%N ∉ g.
Proof.
  unfold group_names. rewrite list_elem_of_In, filter_In, <- list_elem_of_In. intros [Hs Hg%nonempty_spec].
  split; [done|]. intros Hin. by destruct (split_char_incl _ _ _ _ Hs Hin).
Qed.

Lemma merge_names ex new acc x : Forall (λ g, g ≠ [] ∧ 44%N ∉ g) new → (∀ g, g ∈ ex → g ∈ group_names acc) →
  x ∈ group_names (foldl (λ acc g, if existsb (str_eqb g) ex then acc else acc ++ [44%N] ++ g) acc new) ↔ x ∈ group_names acc ∨ x ∈ new.
Proof.
  intros Hn. revert acc. induction Hn as [|g new [Hg Hc] Hn IH]; intros acc Hex; cbn [foldl]; [set_solver|].
  destruct (existsb (str_eqb g) ex) eqn:E.
  - apply existsb_exists in E as (g' & Hg' & Eg). apply bool_decide_eq_true in Eg as <-. apply list_elem_of_In, Hex in Hg'.
    rewrite IH by done. set_solver.
  - rewrite IH; rewrite group_names_snoc by done; set_solver.
Qed.

Lemma merge_groups_spec a b x : x ∈ group_names (merge_groups a b) ↔ x ∈ group_names a ∨ x ∈ group_names b.
Proof.
  unfold merge_groups. destruct a as [|y a]; cbn [nonempty negb]; [cbn; set_solver|].
  apply merge_names; [|done]. apply Forall_forall. intros g. apply group_names_ok.
Qed.

Lemma groups_fold l a x : x ∈ group_names (foldl merge_groups a l) ↔ x ∈ group_names a ∨ ∃ g, g ∈ l ∧ x ∈ group_names g.
Proof.
  revert a. induction l as [|b l IH]; intros a; cbn [foldl]; [set_solver|]. rewrite IH, merge_groups_spec.
  setoid_rewrite elem_of_cons. naive_solver.
Qed.

(** Channels that all answer in the same time. *)
Lemma div_by_int s k : 0 <= s < 2 ^ 32 → 0 < k <= 2 ^ 20 → ndiv (num_of_Z (s * k)) (num_of_Z k) = num_of_Z s.
Proof.
  intros Hs Hk. pose proof (num_of_Z_exact k ltac:(lia)) as Hpk. destruct (decide (s = 0)) as [->|Hs0].
  - by destruct Hpk as (m & e & -> & _ & _).
  - eapply div_int; [apply num_of_Z_exact; nia|exact Hpk|lia|]. rewrite mult_IZR. field.
    apply not_0_IZR. lia.
Qed.

Lemma mul_by_int s k : 0 <= s < 2 ^ 32 → 0 <= k <= 2 ^ 20 → nmul (num_of_Z s) (num_of_Z k) = num_of_Z (s * k).
Proof.
  intros Hs Hk. destruct (decide (s = 0)) as [->|Hs0]; [|destruct (decide (k = 0)) as [->|Hk0]].
  - rewrite Z.mul_0_l. destruct (decide (k = 0)) as [->|Hk0]; [done|].
    by destruct (num_of_Z_exact k ltac:(lia)) as (m & e & -> & _ & _).
  - rewrite Z.mul_0_r. by destruct (num_of_Z_exact s ltac:(lia)) as (m & e & -> & _ & _).
  - eapply mul_int; [by apply num_of_Z_exact; lia..|nia|symmetry; apply mult_IZR].
Qed.

Lemma merge_time_same t u k : 0 <= t < 2 ^ 32 → 0 <= u < 2 ^ 32 → (0 < k)%nat → Z.of_nat k <= 2 ^ 20 → u * (Z.of_nat k - 1) = t * (Z.of_nat k - 1) →
  merge_time (num_of_Z u) k (num_of_Z t) = num_of_Z t.
Proof.
  intros Ht Hu Hk Hk' E. unfold merge_time. rewrite mul_by_int, E, add_int by nia.
  replace (t * (Z.of_nat k - 1) + t) with (t * Z.of_nat k) by ring. apply div_by_int; lia.
Qed.

Lemma same_times t c cs : 0 <= t < 2 ^ 32 → Z.of_nat (length cs) <= 2 ^ 20 → cs ≠ [] → Forall (λ d, response_time d = num_of_Z t) cs →
  row_response_time (foldl add_child (new_row (channel_tag c) c) cs) = num_of_Z t.
Proof.
  intros Ht. induction cs as [|d cs IH] using rev_ind; [done|]. intros Hl _ [Hcs Hd]%Forall_app.
  apply Forall_cons in Hd as [Hd _]. rewrite foldl_snoc. cbn [add_child row_response_time].
  destruct (add_children_fields (new_row (channel_tag c) c) cs) as [-> _]. rewrite Hd. cbn [new_row children app].
  rewrite length_app in *. cbn [length] in *. destruct cs as [|e cs].
  - apply (merge_time_same t 0); [done|done|cbn [length]; lia|cbn [length]; lia|cbn [length]; lia].
  - rewrite IH; [|lia|done..]. apply merge_time_same; [done|done|lia|lia|done].
Qed.

(** ** Properties of the rows *)

(** What a row says about the channels under it. *)
Record sums_up (channels : list Channel) (r : TagRow) : Prop := {
  su_children : children r = tagged (row_tag r) channels;
  su_some : children r ≠ [];
  su_quota us : map used_quota (children r) = map num_of_Z us → Forall (λ u, 0 <= u) us → sum_Z us < 2 ^ 53 →
    row_used_quota r = num_of_Z (sum_Z us);
  su_enabled : row_status r = Some 1 ↔ Exists (λ c, isChannelEnabled c = true) (children r);
  su_disabled : row_status r ≠ Some 1 → row_status r = status <$> head (children r);
  su_priority : row_priority r = common_set (map priority (children r));
  su_weight : row_weight r = common_set (map weight (children r));
  su_groups g : g ∈ group_names (row_group r) ↔ ∃ c, c ∈ children r ∧ g ∈ group_names (group c);
  su_time t : 0 <= t < 2 ^ 32 → Z.of_nat (length (children r)) <= 2 ^ 20 → Forall (λ c, response_time c = num_of_Z t) (children r) →
    row_response_time r = num_of_Z t;
}.

Lemma collects_sums_up channels r : collects channels r → sums_up channels r.
Proof.
  intros (c & l & Hl & Hr). pose proof (add_children_fields (new_row (row_tag r) c) (c :: l)) as (F1 & F2 & F3 & F4 & F5 & F6).
  rewrite <- Hr in *. cbn [new_row children row_used_quota row_status row_priority row_weight row_group app] in *.
  assert (channel_tag c = row_tag r) as Ht.
  { assert (In c (tagged (row_tag r) channels)) as Hc by (rewrite Hl; by left). apply filter_In in Hc as [_ Hc]. by apply bool_decide_eq_true in Hc. }
  rewrite map_cons, status_spec in F3.
  assert (existsb (Z.eqb 1) (status c :: map status l) = true ↔ Exists (λ d, isChannelEnabled d = true) (children r)) as Hen.
  { rewrite F1, existsb_exists, Exists_exists. change (status c :: map status l) with (map status (c :: l)). unfold isChannelEnabled. split.
    - intros (x & Hx%list_elem_of_In & E). apply list_elem_of_fmap in Hx as (d & -> & Hd). exists d. by rewrite Z.eqb_sym.
    - intros (d & Hd & E). exists (status d). rewrite Z.eqb_sym, <- list_elem_of_In. split; [by apply list_elem_of_fmap_2|done]. }
  split.
  - by rewrite F1.
  - by rewrite F1.
  - intros us E Hus Hs. rewrite F2, <- F1, E. apply (quota_sum_exact us 0); [done..|lia].
  - rewrite F3, <- Hen. destruct (existsb _ _) eqn:E; [done|]. split; [|done]. intros [= E1]. cbn [existsb] in E. by rewrite E1 in E.
  - rewrite F3. destruct (existsb _ _); [done|]. intros _. by rewrite F1.
  - rewrite F4, <- F1. apply same_or_null_spec.
  - rewrite F5, <- F1. apply same_or_null_spec.
  - intros g. rewrite F6, groups_fold, F1. setoid_rewrite list_elem_of_fmap. cbn. set_solver.
  - intros t Hb Hk Ht'. rewrite F1 in *. rewrite Hr, <- Ht. by apply same_times.
Qed.

Lemma kids_permutation (ts : list jstr) channels : NoDup ts → Forall (λ c, channel_tag c ∈ ts) channels →
  concat (map (λ t, tagged t channels) ts) ≡ₚ channels.
Proof.
  intros Hnd. revert channels. induction Hnd as [|t ts Ht Hnd IH]; intros cs Hcs; cbn [map concat].
  - destruct Hcs as [|c cs Hc]; [done|]. by apply elem_of_nil in Hc.
  - set (rest := List.filter (λ c, negb (str_eqb (channel_tag c) t)) cs).
    assert (∀ u, u ∈ ts → tagged u cs = tagged u rest) as Hrest.
    { intros u Hu. unfold tagged, rest. clear Hcs IH. induction cs as [|c cs IHc]; cbn; [done|]. rewrite IHc.
      unfold str_eqb. repeat case_bool_decide; cbn [negb List.filter]; try done; [congruence| |]; repeat case_bool_decide; done. }
    rewrite (map_ext_in _ (λ u, tagged u rest)) by (intros u Hu; apply Hrest; by apply list_elem_of_In).
    rewrite IH.
    + unfold tagged, rest. clear. induction cs as [|c cs IHc]; cbn; [done|]. destruct (str_eqb _ _); cbn; [by rewrite IHc|].
      rewrite <- Permutation_middle. by rewrite IHc.
    + apply Forall_forall. intros c. unfold rest. rewrite list_elem_of_In, filter_In, <- list_elem_of_In. intros [Hc E].
      rewrite Forall_forall in Hcs. apply Hcs, elem_of_cons in Hc as [Hc|Hc]; [|done].
      unfold str_eqb in E. by rewrite bool_decide_eq_true_2 in E.
Qed.


Definition demo_channel (i s : Z) (t g : string) (q p rt : Z) : Channel := {|
  id := i; type := 1; key := js "sk-1"; status := s; name := js "n"; weight := Some 0; created_time := 0; test_time := 0;
  response_time := num_of_Z rt; balance := nzero; balance_updated_time := 0; models := js "gpt"; group := js g;
  used_quota := num_of_Z q; priority := Some p; tag := Some (js t); setting := None; channel_info := None |}.

Definition demo_channels : list Channel :=
  [demo_channel 1 2 "a" "default" 10 5 300; demo_channel 2 1 "b" "vip" 7 0 500; demo_channel 3 1 "a" "vip,default,x" 20 5 600;
   demo_channel 4 3 "a" "x" 5 7 400].


(** The value [-1], which stands for a priority that was not set yet, is also one that can be
    entered: the priority of a later channel then replaces it, although the two differ. *)
Theorem priority_minus_one_lost :
  map row_priority (aggregateChannelsByTag [demo_channel 1 1 "a" "g" 0 (-1) 0; demo_channel 2 1 "a" "g" 0 5 0]) = [Some 5] ∧
  map row_priority (aggregateChannelsByTag [demo_channel 2 1 "a" "g" 0 5 0; demo_channel 1 1 "a" "g" 0 (-1) 0]) = [None].
Proof. split; vm_compute; reflexivity. Qed.

(** The average of response times is shown with all its digits. *)
Theorem average_not_rounded :
  map (λ r, formatResponseTime (row_response_time r)) (aggregateChannelsByTag demo_channels) = [js "433.3333333333333ms"; js "500ms"].
Proof. vm_compute. reflexivity. Qed.

(** ** Properties of keys *)
Lemma push_keys_dedup lines keys : foldl push_key keys lines = keys ++ dedup_go (reverse keys) (List.filter nonempty (map trim lines)).
Proof.
  revert keys. induction lines as [|l lines IH]; intros keys; cbn [foldl map List.filter dedup_go]; [by rewrite app_nil_r|].
  unfold push_key at 2. destruct (nonempty (trim l)) eqn:En; cbn [andb]; [|apply IH]. cbn [dedup_go].
  replace (existsb (str_eqb (trim l)) keys) with (bool_decide (trim l ∈ reverse keys)).
  - case_bool_decide; cbn [negb]; rewrite IH; [done|]. rewrite reverse_snoc, <- app_assoc. done.
  - apply eq_bool_prop_intro. rewrite !Is_true_true, bool_decide_eq_true, elem_of_reverse, existsb_exists.
    unfold str_eqb. setoid_rewrite bool_decide_eq_true. setoid_rewrite <- list_elem_of_In. naive_solver.
Qed.

(** The keys of a text, one per line. *)
Definition keys_of (text : jstr) : list jstr := dedup (List.filter nonempty (map trim (split_char 10 text))).

Lemma dedup_keys_spec text : deduplicateKeys text =
  if negb (nonempty text) || str_eqb (trim text) [] then {| deduplicatedText := []; beforeCount := 0; afterCount := 0; removedCount := 0 |}
  else {| deduplicatedText := str_join [10%N] (keys_of text); beforeCount := length (split_char 10 text);
          afterCount := length (keys_of text); removedCount := length (split_char 10 text) - length (keys_of text) |}.
Proof. unfold deduplicateKeys. by rewrite push_keys_dedup. Qed.

Lemma keys_of_ok text k : k ∈ keys_of text → trim k = k ∧ nonempty k = true ∧ 10%N ∉ k.
Proof.
  unfold keys_of. rewrite elem_of_dedup, list_elem_of_In, filter_In, <- list_elem_of_In. intros [Hk Hn].
  apply list_elem_of_fmap in Hk as (l & -> & Hl). split_and!; [apply trim_idemp|done|].
  intros Hin%trim_incl. by destruct (split_char_incl _ _ _ _ Hl Hin).
Qed.

Lemma dedup_go_length {A} `{EqDecision A} (seen l : list A) : (length (dedup_go seen l) <= length l)%nat.
Proof. revert seen. induction l as [|x l IH]; intros seen; cbn; [done|]. pose proof (IH seen). pose proof (IH (x :: seen)). case_bool_decide; cbn; lia. Qed.

Lemma keys_of_length text : (length (keys_of text) <= length (split_char 10 text))%nat.
Proof.
  unfold keys_of, dedup. pose proof (dedup_go_length [] (List.filter nonempty (map trim (split_char 10 text)))) as H.
  pose proof (filter_length_le nonempty (map trim (split_char 10 text))) as H'. rewrite length_map in H'. lia.
Qed.

(** Joined keys are read back. *)
Lemma keys_of_join ks : ks ≠ [] → NoDup ks → Forall (λ k, trim k = k ∧ nonempty k = true ∧ 10%N ∉ k) ks → keys_of (str_join [10%N] ks) = ks.
Proof.
  intros Hne Hnd Hks. unfold keys_of. rewrite split_join by (done || (eapply Forall_impl; [exact Hks|]; naive_solver)).
  replace (map trim ks) with ks.
  - rewrite filter_nonempty_id; [by apply dedup_id|]. eapply Forall_impl; [exact Hks|]. intros k (_ & H & _). by apply nonempty_spec.
  - clear Hne Hnd. induction Hks as [|k ks (Hk & _) Hks IH]; cbn; [done|]. by rewrite Hk, <- IH.
Qed.

Lemma trim_nil s : trim s = [] → Forall (λ c, is_ws c = true) s.
Proof.
  unfold trim, trim_end. intros H. destruct (trim_start_suffix s) as (w & Hs & Hw). rewrite Hs, Forall_app. split; [done|].
  set (u := trim_start s) in *. apply (f_equal reverse) in H. rewrite reverse_involutive in H. cbn in H.
  destruct (trim_start_suffix (reverse u)) as (v & Hv & Hvw). rewrite H, app_nil_r in Hv.
  rewrite <- (reverse_involutive u), Hv. by apply Forall_reverse.
Qed.

Lemma blank_lines s : Forall (λ w, Forall (λ c, is_ws c = true) w) (split_char 10 s) → Forall (λ c, is_ws c = true) s.
Proof.
  induction s as [|y s IH]; [done|]. cbn [split_char]. destruct (N.eqb_spec y 10) as [->|Hy].
  - intros [_ H]%Forall_cons. constructor; [done|by apply IH].
  - destruct (split_char 10 s) as [|v vs] eqn:E; [by apply split_char_nonnil in E|].
    intros [[Hy' Hv]%Forall_cons Hvs]%Forall_cons. constructor; [done|]. apply IH. by constructor.
Qed.

Lemma some_key text : trim text ≠ [] → keys_of text ≠ [].
Proof.
  intros Ht Hk. apply Ht, trim_all_ws, blank_lines, Forall_forall. intros w Hw. apply trim_nil.
  destruct (nonempty (trim w)) eqn:E; [|by destruct (trim w)]. exfalso.
  assert (trim w ∈ keys_of text) as Hin; [|rewrite Hk in Hin; by apply elem_of_nil in Hin].
  unfold keys_of. rewrite elem_of_dedup, list_elem_of_In, filter_In, <- list_elem_of_In. split; [by apply list_elem_of_fmap_2|done].
Qed.

Lemma keys_of_text ks : ks ≠ [] → NoDup ks → Forall (λ k, trim k = k ∧ nonempty k = true ∧ 10%N ∉ k) ks →
  split_char 10 (str_join [10%N] ks) = ks ∧ key_lines (str_join [10%N] ks) = ks ∧ nonempty (str_join [10%N] ks) = true.
Proof.
  intros Hne Hnd Hks. assert (split_char 10 (str_join [10%N] ks) = ks) as E by (apply split_join; [done|eapply Forall_impl; [exact Hks|]; naive_solver]).
  split_and!; [done| |].
  - unfold key_lines. rewrite E. clear -Hks. induction Hks as [|k ks (Hk & Hn & _) Hks IH]; cbn; [done|]. by rewrite Hk, Hn, IH.
  - destruct (str_join [10%N] ks) eqn:Ej; [|done]. rewrite <- E in Hks. cbn in Hks. apply Forall_cons in Hks as [(_ & H & _) _]. done.
Qed.

(** The button that removes duplicate keys. The distinct keys of the field, without the space around them, stay
    the same and in their order; pressing the button a second time changes nothing and reports no duplicates; and
    when something is removed, the field has one line for each key, the number that is reported for afterwards is
    the number of keys, and the numbers add up. *)
Theorem duplicate_keys_removed text :
  let '(text', toast) := handleDeduplicateKeys text in
  keys_of text' = keys_of text ∧
  fst (handleDeduplicateKeys text') = text' ∧
  match toast with
  | EnterKeysFirst => text' = text ∧ trim text = []
  | NoDuplicates => text' = text ∧ length (split_char 10 text) = length (keys_of text)
  | RemovedKeys removed before after =>
    snd (handleDeduplicateKeys text') = NoDuplicates ∧
    split_char 10 text' = keys_of text ∧ countKeys text' = after ∧ (0 < removed)%nat ∧ (before = removed + after)%nat
  end.
Proof.
  destruct (handleDeduplicateKeys text) as [text' toast] eqn:E. pose proof E as E0. unfold handleDeduplicateKeys in E. rewrite dedup_keys_spec in E.
  destruct (negb (nonempty text) || str_eqb (trim text) []) eqn:Eb.
  { injection E as <- <-. rewrite E0. split_and!; [done..|]. apply orb_true_iff in Eb as [Eb|Eb].
    - by destruct text.
    - by apply bool_decide_eq_true in Eb. }
  assert (trim text ≠ []) as Ht by (intros H; rewrite H in Eb; by rewrite orb_true_r in Eb).
  pose proof (some_key text Ht) as Hne. pose proof (keys_of_length text) as Hlen. cbn [removedCount deduplicatedText beforeCount afterCount] in E.
  destruct (Nat.eqb_spec (length (split_char 10 text) - length (keys_of text)) 0) as [Hr|Hr].
  { injection E as <- <-. rewrite E0. split_and!; [done..|lia]. }
  injection E as <- <-. assert (NoDup (keys_of text)) as Hnd by apply NoDup_dedup.
  assert (Forall (λ k, trim k = k ∧ nonempty k = true ∧ 10%N ∉ k) (keys_of text)) as Hok by (apply Forall_forall; apply keys_of_ok).
  destruct (keys_of_text _ Hne Hnd Hok) as (Hs & Hl & Hn). pose proof (keys_of_join _ Hne Hnd Hok) as Hj. set (text' := str_join [10%N] (keys_of text)) in *.
  assert (handleDeduplicateKeys text' = (text', NoDuplicates)) as ->.
  { unfold handleDeduplicateKeys. rewrite dedup_keys_spec, Hs, Hj, Nat.sub_diag. cbn [removedCount].
    destruct (negb (nonempty text') || str_eqb (trim text') []) eqn:Et; [|done]. exfalso. rewrite Hn in Et. cbn [negb orb] in Et.
    apply bool_decide_eq_true, trim_nil in Et. apply Hne. destruct (keys_of text) as [|k ks] eqn:Ek; [done|].
    apply Forall_cons in Hok as [(Hk & Hk' & _) _].
    assert (Forall (λ c, is_ws c = true) k) as Hw.
    { apply Forall_forall. intros x Hx. rewrite Forall_forall in Et. apply Et. unfold text'. destruct ks; cbn; set_solver. }
    by rewrite <- Hk, trim_all_ws in Hk'. }
  unfold countKeys. rewrite Hn, Hl. split_and!; [done..|lia|lia].
Qed.

(** A line break at the end is counted and reported as a duplicate key. *)
Theorem blank_line_is_a_duplicate :
  handleDeduplicateKeys (js "sk-a" ++ [10%N] ++ js "sk-b" ++ [10%N]) = (js "sk-a" ++ [10%N] ++ js "sk-b", RemovedKeys 1 3 2).
Proof. vm_compute. reflexivity. Qed.

(** ** Properties of the cells *)

(** A key of more than sixteen characters is shown by sixteen of them, one of nine to sixteen by eight. *)
Theorem long_key_masked key :
  let shown := if (length key <=? 16)%nat then 4%nat else 8%nat in
  (2 * shown < length key)%nat →
  ∃ a m b, key = a ++ m ++ b ∧ length a = shown ∧ length b = shown ∧ m ≠ [] ∧ formatChannelKey key false = a ++ dots ++ b.
Proof.
  intros shown Hl. assert (nonempty key = true) as Hn by (destruct key; [cbn in Hl; lia|done]).
  exists (take shown key), (drop shown (take (length key - shown) key)), (drop (length key - shown) key).
  split_and!.
  - rewrite app_assoc. rewrite <- (take_drop (length key - shown) key) at 1. f_equal.
    rewrite <- (take_drop shown (take (length key - shown) key)) at 1. f_equal. rewrite take_take. f_equal. lia.
  - rewrite length_take. lia.
  - rewrite length_drop. lia.
  - intros E%(f_equal length). rewrite length_drop, length_take in E. cbn in E. lia.
  - unfold formatChannelKey. rewrite Hn. cbn [negb]. unfold shown, slice_last. by destruct (length key <=? 16)%nat.
Qed.

(** A key of at most eight characters is shown completely. *)
Theorem short_key_shown : formatChannelKey (js "sk-12345") false = js "sk-1...2345" ∧ formatChannelKey (js "abc") false = js "abc...abc".
Proof. split; vm_compute; reflexivity. Qed.

(** A channel needs attention exactly when there is a reason. *)
Theorem attention_has_reason channel : channelNeedsAttention channel = true ↔ getAttentionReason channel ≠ None.
Proof.
  unfold channelNeedsAttention, getAttentionReason. destruct (_ =? _); [done|]. destruct (low_balance _); [done|].
  by destruct (all_keys_disabled _).
Qed.

(** The states of a channel, as they are shown. *)
Theorem state_two_is_manual :
  map getChannelStatusBadge [0; 1; 2; 3; 4] =
  [Some (js "neutral", js "Unknown"); Some (js "success", js "Enabled"); Some (js "danger", js "Disabled");
   Some (js "warning", js "Auto Disabled"); Some (js "neutral", js "Unknown")].
Proof. vm_compute. reflexivity. Qed.

(** Every type but 0 is offered exactly once, with its label; only Codex has no icon of its own. *)
Theorem type_options_complete :
  NoDup (map fst CHANNEL_TYPE_OPTIONS) ∧ CHANNEL_TYPE_OPTIONS ≡ₚ List.filter (λ e, negb (fst e =? 0)) CHANNEL_TYPES ∧
  Forall (λ e, snd e = getChannelTypeLabel (fst e)) CHANNEL_TYPE_OPTIONS ∧
  List.filter (λ t, match table_get TYPE_TO_ICON t with Some _ => false | None => true end) (map fst CHANNEL_TYPE_OPTIONS) = [57].
Proof.
  split_and!.
  - apply (bool_decide_unpack _). vm_compute. exact I.
  - rewrite <- (stable_sort_perm (λ a b, fst a <=? fst b) CHANNEL_TYPE_OPTIONS).
    replace (stable_sort _ _) with (List.filter (λ e, negb (fst e =? 0)) CHANNEL_TYPES) by (vm_compute; reflexivity). done.
  - apply (bool_decide_unpack _). vm_compute. exact I.
  - vm_compute. reflexivity.
Qed.

Section groups.
Context `{Collation}.

Lemma group_le_total a b : group_le a b = false → group_le b a = true.
Proof. unfold group_le. destruct (str_eqb a _); [done|]. destruct (str_eqb b _); [done|]. apply locale_total. Qed.

Lemma group_le_trans a b c : group_le a b = true → group_le b c = true → group_le a c = true.
Proof.
  unfold group_le. destruct (str_eqb a _); [done|]. destruct (str_eqb b _); [done|]. destruct (str_eqb c _); [done|]. apply locale_trans.
Qed.

(** The names of the groups, sorted, with [default] before all others. *)
Theorem groups_sorted groups :
  parseGroupsList groups ≡ₚ comma_list groups ∧
  StronglySorted (λ a b, group_le a b = true) (parseGroupsList groups) ∧
  (js "default" ∈ parseGroupsList groups → head (parseGroupsList groups) = Some (js "default")).
Proof.
  assert (parseGroupsList groups = stable_sort group_le (comma_list groups)) as -> by (by destruct groups).
  pose proof (stable_sort_sorted group_le group_le_total group_le_trans (comma_list groups)) as Hs. split_and!; [apply stable_sort_perm|done|].
  intros Hd. destruct Hs as [|g gs _ Hg]; [by apply elem_of_nil in Hd|]. apply elem_of_cons in Hd as [->|Hd]; [done|].
  rewrite Forall_forall in Hg. specialize (Hg _ Hd). unfold group_le in Hg. cbn [head]. f_equal.
  destruct (str_eqb g (js "default")) eqn:E; [by apply bool_decide_eq_true in E|]. unfold str_eqb at 1 in Hg. by rewrite bool_decide_eq_true_2 in Hg.
Qed.
End groups.

(** Names without commas and outer space are read back from the text they are joined to. *)
Theorem models_read_back l : Forall (λ m, m ≠ [] ∧ trim m = m ∧ 44%N ∉ m) l → parseModelsList (formatModelsString l) = l.
Proof.
  intros Hl. unfold parseModelsList, formatModelsString. destruct l as [|m l]; [done|].
  assert (comma_list (str_join (js ",") (m :: l)) = m :: l) as ->.
  { unfold comma_list. change (js ",") with [44%N]. rewrite split_join by (done || (eapply Forall_impl; [exact Hl|]; naive_solver)).
    replace (map trim (m :: l)) with (m :: l).
    - apply filter_nonempty_id. eapply Forall_impl; [exact Hl|]. naive_solver.
    - generalize (m :: l) Hl. intros k Hk. induction Hk as [|x k (_ & Hx & _) Hk IH]; cbn; [done|]. by rewrite Hx, <- IH. }
  apply Forall_cons in Hl as [(Hm & _) _]. destruct m; [done|]. by destruct l.
Qed.
