(* ===== verification/ContentSections.v ===== *)
(** * Lists of content in the settings

    Model of the four sections of [web/default/src/features/system-settings/content] that
    edit a list of items with a dialog: [faq-section.tsx], [announcements-section.tsx],
    [api-info-section.tsx] and [uptime-kuma-section.tsx].  Their code is the same up to the
    fields of an item; [ContentSection] has what differs.  A section is a state machine whose
    events are clicks, submitted forms, properties that the page passes in, and answers of
    the server; a save is sent and answered in two events.

    A stored text is given by what it denotes: it cannot be read, is not an array, or is a
    list of items with or without an identifier.  Identifiers are integers. *)

From S2P Require Import Prelude JsString JsRegExp.
From stdpp Require Import gmap.
From Stdlib Require Import NArith ZArith.

#[local] Open Scope Z_scope.

(** ** What differs between sections

    [F] are the fields of an item beside its identifier, [V] the values of the form. *)
Class ContentSection (F V : Type) := {
  blank : jstr → V;            (* the form of a new item, at a time *)
  shown : F → V;               (* the form of an item *)
  fresh : V → F;               (* [{ id: newId, ...values }] *)
  merged : F → V → F;          (* [{ ...item, ...values }] *)
  accepts : V → bool;          (* the schema of the form *)
  checks_answer : bool;        (* whether a save looks at [result.success] *)
}.

(** A form shows what was entered. *)
Class SectionLaws F V `{ContentSection F V} := {
  shown_fresh v : shown (fresh v) = v;
  shown_merged f v : shown (merged f v) = v;
}.

(** [z.string().url()] of the library. *)
Class UrlCheck := { is_url : jstr → bool }.

Definition between (lo hi : nat) (s : jstr) : bool := (lo <=? length s)%nat && (length s <=? hi)%nat.

(** *** Questions *)

Record FAQ := { question : jstr; answer : jstr }.

Definition faqSchema (v : FAQ) : bool := between 1 200 (question v) && between 1 1000 (answer v).

#[export] Instance faq_section : ContentSection FAQ FAQ := {|
  blank := λ _, {| question := []; answer := [] |};
  shown := λ f, {| question := question f; answer := answer f |};
  fresh := λ v, v;
  merged := λ _ v, v;
  accepts := faqSchema;
  checks_answer := false |}.

(** *** Announcements *)

Inductive AnnouncementType := TDefault | TOngoing | TSuccess | TWarning | TError.

Record Announcement := { content : jstr; publishDate : jstr; a_type : AnnouncementType; extra : option jstr }.
Record AnnouncementForm := { v_content : jstr; v_publishDate : jstr; v_type : AnnouncementType; v_extra : jstr }.

Definition announcement_of (v : AnnouncementForm) : Announcement :=
  {| content := v_content v; publishDate := v_publishDate v; a_type := v_type v; extra := Some (v_extra v) |}.

Definition announcementSchema (v : AnnouncementForm) : bool :=
  between 1 500 (v_content v) && nonempty (v_publishDate v) && between 0 100 (v_extra v).

#[export] Instance announcement_section : ContentSection Announcement AnnouncementForm := {|
  blank := λ now, {| v_content := []; v_publishDate := now; v_type := TDefault; v_extra := [] |};
  shown := λ a, {| v_content := content a; v_publishDate := publishDate a; v_type := a_type a; v_extra := default [] (extra a) |};
  fresh := announcement_of;
  merged := λ _ v, announcement_of v;
  accepts := announcementSchema;
  checks_answer := false |}.

(** *** Addresses *)

Record ApiInfo := { api_url : jstr; route : jstr; description : jstr; color : jstr }.

Definition apiInfoSchema `{UrlCheck} (v : ApiInfo) : bool :=
  is_url (api_url v) && nonempty (route v) && nonempty (description v) && nonempty (color v).

#[export] Instance api_info_section `{UrlCheck} : ContentSection ApiInfo ApiInfo := {|
  blank := λ _, {| api_url := []; route := []; description := []; color := js "blue" |};
  shown := λ f, f;
  fresh := λ v, v;
  merged := λ _ v, v;
  accepts := apiInfoSchema;
  checks_answer := true |}.

(** *** Status pages *)

Record UptimeKumaGroup := { categoryName : jstr; kuma_url : jstr; slug : jstr }.

(** [/^[a-zA-Z0-9_-]+$/]. *)
Definition slug_char (c : N) : bool :=
  (((97 <=? c) && (c <=? 122)) || ((65 <=? c) && (c <=? 90)) || ((48 <=? c) && (c <=? 57)) || (c =? 95) || (c =? 45))%N.

Definition uptimeKumaSchema `{UrlCheck} (v : UptimeKumaGroup) : bool :=
  between 1 50 (categoryName v) && is_url (kuma_url v) && between 1 100 (slug v) && forallb slug_char (slug v).

#[export] Instance uptime_kuma_section `{UrlCheck} : ContentSection UptimeKumaGroup UptimeKumaGroup := {|
  blank := λ _, {| categoryName := []; kuma_url := []; slug := [] |};
  shown := λ f, f;
  fresh := λ v, v;
  merged := λ _ v, v;
  accepts := uptimeKumaSchema;
  checks_answer := false |}.

#[export] Instance faq_laws : SectionLaws FAQ FAQ.
Proof. by split; intros; cbn; [destruct v|destruct v]. Qed.
#[export] Instance announcement_laws : SectionLaws Announcement AnnouncementForm.
Proof. by split; intros; destruct v. Qed.
#[export] Instance api_info_laws `{UrlCheck} : SectionLaws ApiInfo ApiInfo.
Proof. by split. Qed.
#[export] Instance uptime_kuma_laws `{UrlCheck} : SectionLaws UptimeKumaGroup UptimeKumaGroup.
Proof. by split. Qed.

(** ** State *)

Record Item (F : Type) := { id : Z; fields : F }.
Arguments id {F}. Arguments fields {F}.

(** An item of a stored list: its identifier may be missing. *)
Record Stored (F : Type) := { stored_id : option Z; stored_fields : F }.
Arguments stored_id {F}. Arguments stored_fields {F}.

Inductive Data (F : Type) := Unreadable | NoArray | StoredList (l : list (Stored F)).
Arguments Unreadable {F}. Arguments NoArray {F}. Arguments StoredList {F} l.

Inductive DeleteTarget := Single | Batch.

Record state (F V : Type) := {
  items : list (Item F);
  isEnabled : bool;
  hasChanges : bool;
  selectedIds : list Z;
  showDialog : bool;
  showDeleteDialog : bool;
  editing : option (Item F);
  deleteTarget : DeleteTarget;
  form : V;
}.
Arguments items {F V}. Arguments isEnabled {F V}. Arguments hasChanges {F V}. Arguments selectedIds {F V}.
Arguments showDialog {F V}. Arguments showDeleteDialog {F V}. Arguments editing {F V}. Arguments deleteTarget {F V}. Arguments form {F V}.

(** Answers of the server: a refusal is an answer too, an error is thrown. *)
Inductive Answer := Accepted | Refused | Failed.

Section section.
Context {F V : Type} `{ContentSection F V}.
Implicit Types (s : state F V).

(** ** Operations *)

(** [id: item.id || idx + 1]. *)
Definition load_item (idx : nat) (i : Stored F) : Item F :=
  {| id := match stored_id i with Some k => if k =? 0 then Z.of_nat idx + 1 else k | None => Z.of_nat idx + 1 end;
     fields := stored_fields i |}.

Definition load (l : list (Stored F)) : list (Item F) := imap load_item l.

Definition set_items (l : list (Item F)) (s : state F V) : state F V :=
  {| items := l; isEnabled := isEnabled s; hasChanges := hasChanges s; selectedIds := selectedIds s; showDialog := showDialog s;
     showDeleteDialog := showDeleteDialog s; editing := editing s; deleteTarget := deleteTarget s; form := form s |}.

Definition setHasChanges (b : bool) (s : state F V) : state F V :=
  {| items := items s; isEnabled := isEnabled s; hasChanges := b; selectedIds := selectedIds s; showDialog := showDialog s;
     showDeleteDialog := showDeleteDialog s; editing := editing s; deleteTarget := deleteTarget s; form := form s |}.

Definition setIsEnabled (b : bool) (s : state F V) : state F V :=
  {| items := items s; isEnabled := b; hasChanges := hasChanges s; selectedIds := selectedIds s; showDialog := showDialog s;
     showDeleteDialog := showDeleteDialog s; editing := editing s; deleteTarget := deleteTarget s; form := form s |}.

Definition setSelectedIds (l : list Z) (s : state F V) : state F V :=
  {| items := items s; isEnabled := isEnabled s; hasChanges := hasChanges s; selectedIds := l; showDialog := showDialog s;
     showDeleteDialog := showDeleteDialog s; editing := editing s; deleteTarget := deleteTarget s; form := form s |}.

Definition setShowDialog (b : bool) (s : state F V) : state F V :=
  {| items := items s; isEnabled := isEnabled s; hasChanges := hasChanges s; selectedIds := selectedIds s; showDialog := b;
     showDeleteDialog := showDeleteDialog s; editing := editing s; deleteTarget := deleteTarget s; form := form s |}.

Definition setShowDeleteDialog (b : bool) (s : state F V) : state F V :=
  {| items := items s; isEnabled := isEnabled s; hasChanges := hasChanges s; selectedIds := selectedIds s; showDialog := showDialog s;
     showDeleteDialog := b; editing := editing s; deleteTarget := deleteTarget s; form := form s |}.

Definition setEditing (e : option (Item F)) (s : state F V) : state F V :=
  {| items := items s; isEnabled := isEnabled s; hasChanges := hasChanges s; selectedIds := selectedIds s; showDialog := showDialog s;
     showDeleteDialog := showDeleteDialog s; editing := e; deleteTarget := deleteTarget s; form := form s |}.

Definition setDeleteTarget (t : DeleteTarget) (s : state F V) : state F V :=
  {| items := items s; isEnabled := isEnabled s; hasChanges := hasChanges s; selectedIds := selectedIds s; showDialog := showDialog s;
     showDeleteDialog := showDeleteDialog s; editing := editing s; deleteTarget := t; form := form s |}.

Definition reset_form (v : V) (s : state F V) : state F V :=
  {| items := items s; isEnabled := isEnabled s; hasChanges := hasChanges s; selectedIds := selectedIds s; showDialog := showDialog s;
     showDeleteDialog := showDeleteDialog s; editing := editing s; deleteTarget := deleteTarget s; form := v |}.

(** The effect of the property [data]: a text that is not an array changes nothing. *)
Definition data_effect (d : Data F) s : state F V :=
  match d with
  | Unreadable => set_items [] s
  | NoArray => s
  | StoredList l => set_items (load l) s
  end.

(** The switch is set whenever the request is answered. *)
Definition handleToggleEnabled (checked : bool) (a : Answer) s : state F V :=
  match a with Accepted | Refused => setIsEnabled checked s | Failed => s end.

Definition handleAdd (now : jstr) s : state F V := setShowDialog true (reset_form (blank now) (setEditing None s)).

Definition handleEdit (i : Item F) s : state F V := setShowDialog true (reset_form (shown (fields i)) (setEditing (Some i) s)).

Definition handleDelete (i : Item F) s : state F V := setShowDeleteDialog true (setDeleteTarget Single (setEditing (Some i) s)).

Definition handleBatchDelete s : state F V :=
  if (length (selectedIds s) =? 0)%nat then s else setShowDeleteDialog true (setDeleteTarget Batch s).

Definition remove_single s : state F V :=
  match editing s with
  | Some e => setHasChanges true (set_items (List.filter (λ i, negb (id i =? id e)) (items s)) s)
  | None => s
  end.

Definition remove_batch s : state F V :=
  setHasChanges true (setSelectedIds []
    (set_items (List.filter (λ i, negb (existsb (Z.eqb (id i)) (selectedIds s))) (items s)) s)).

Definition confirmDelete s : state F V :=
  setEditing None (setShowDeleteDialog false
    (match deleteTarget s with Single => remove_single s | Batch => remove_batch s end)).

(** [Math.max(...ids, 0) + 1]. *)
Definition newId (l : list (Item F)) : Z := foldr (λ i m, Z.max (id i) m) 0 l + 1.

Definition handleSubmitForm (values : V) s : state F V :=
  setShowDialog false (setHasChanges true
    (match editing s with
     | Some e => set_items (map (λ i, if id i =? id e then {| id := id i; fields := merged (fields i) values |} else i) (items s)) s
     | None => set_items (items s ++ [{| id := newId (items s); fields := fresh values |}]) s
     end)).

(** What follows the [await] of a save. *)
Definition save_answered (a : Answer) s : state F V :=
  match a with
  | Accepted => setHasChanges false s
  | Refused => if checks_answer then s else setHasChanges false s
  | Failed => s
  end.

Definition toggleSelectAll (checked : bool) s : state F V := setSelectedIds (if checked then map id (items s) else []) s.

Definition toggleSelectOne (i : Z) (checked : bool) s : state F V :=
  setSelectedIds (if checked then selectedIds s ++ [i] else List.filter (λ k, negb (k =? i)) (selectedIds s)) s.

(** ** The section as a machine

    [saved] is the list that the section last read or stored, [sent] the list of a save
    that is not answered yet. *)

Record world := { ui : state F V; saved : list (Item F); sent : option (list (Item F)) }.

Inductive event :=
  | DataProp (d : Data F) | EnabledProp (b : bool) | ToggleEnabled (checked : bool) (a : Answer)
  | Add (now : jstr) | Edit (i : Item F) | Delete (i : Item F) | BatchDelete | Confirm | CloseDelete | CloseDialog
  | Submit (values : V) | Save | SaveAnswer (a : Answer) | SelectAll (checked : bool) | SelectOne (i : Z) (checked : bool).

Definition on_ui (f : state F V → state F V) (w : world) : world := {| ui := f (ui w); saved := saved w; sent := sent w |}.

(** [None]: the event cannot happen, since its button is not there or disabled. *)
Definition step (w : world) (e : event) : option world :=
  match e with
  | DataProp d =>
    Some {| ui := data_effect d (ui w); sent := sent w;
            saved := match d with Unreadable => [] | NoArray => saved w | StoredList l => load l end |}
  | EnabledProp b => Some (on_ui (setIsEnabled b) w)
  | ToggleEnabled checked a => Some (on_ui (handleToggleEnabled checked a) w)
  | Add now => Some (on_ui (handleAdd now) w)
  | Edit i => Some (on_ui (handleEdit i) w)
  | Delete i => Some (on_ui (handleDelete i) w)
  | BatchDelete => if (length (selectedIds (ui w)) =? 0)%nat then None else Some (on_ui handleBatchDelete w)
  | Confirm => if showDeleteDialog (ui w) then Some (on_ui confirmDelete w) else None
  | CloseDelete => Some (on_ui (setShowDeleteDialog false) w)
  | CloseDialog => Some (on_ui (setShowDialog false) w)
  | Submit values => if showDialog (ui w) && accepts values then Some (on_ui (handleSubmitForm values) w) else None
  | Save =>
    match sent w with
    | None => if hasChanges (ui w) then Some {| ui := ui w; saved := saved w; sent := Some (items (ui w)) |} else None
    | Some _ => None
    end
  | SaveAnswer a =>
    match sent w with
    | Some l => Some {| ui := save_answered a (ui w); saved := (match a with Accepted => l | _ => saved w end); sent := None |}
    | None => None
    end
  | SelectAll checked => Some (on_ui (toggleSelectAll checked) w)
  | SelectOne i checked => Some (on_ui (toggleSelectOne i checked) w)
  end.

Definition opened (enabled : bool) (now : jstr) : world :=
  {| ui := {| items := []; isEnabled := enabled; hasChanges := false; selectedIds := []; showDialog := false; showDeleteDialog := false;
              editing := None; deleteTarget := Single; form := blank now |};
     saved := []; sent := None |}.

(** States that are reached by events with a property. *)
Inductive reaches (P : world → event → Prop) : world → Prop :=
  | reaches_open enabled now : reaches P (opened enabled now)
  | reaches_step w e w' : reaches P w → P w e → step w e = Some w' → reaches P w'.

(** A list is well numbered when its items have identifiers, distinct and not 0, or when none has one. *)
Definition well_numbered (l : list (Stored F)) : Prop :=
  (NoDup (map stored_id l) ∧ Forall (λ i, ∃ k, stored_id i = Some k ∧ k ≠ 0) l) ∨ Forall (λ i, stored_id i = None) l.

Definition numbered_data (_ : world) (e : event) : Prop :=
  match e with DataProp (StoredList l) => well_numbered l | _ => True end.

(** The items of a list that is saved, as they are read again. *)
Definition stored_of (i : Item F) : Stored F := {| stored_id := Some (id i); stored_fields := fields i |}.

(** Nothing is changed while a save is under way, and a refused save does not pass for an accepted one. *)
Definition calm (w : world) (e : event) : Prop :=
  match e with
  | DataProp _ | Confirm | Submit _ => sent w = None
  | SaveAnswer Refused => checks_answer = true
  | _ => True
  end.

(** ** The list as a finite map *)

Definition contents (l : list (Item F)) : gmap Z F := list_to_map (map (λ i, (id i, fields i)) l).

Lemma contents_lookup l k : contents l !! k = fields <$> List.find (λ i, id i =? k) l.
Proof.
  unfold contents. induction l as [|i l IH]; [apply lookup_empty|]. cbn [map List.find]. rewrite list_to_map_cons.
  destruct (Z.eqb_spec (id i) k) as [<-|Hk]; [by rewrite lookup_insert_eq|]. by rewrite lookup_insert_ne.
Qed.

Lemma contents_filter (p : Z → bool) l k :
  contents (List.filter (λ i, p (id i)) l) !! k = if p k then contents l !! k else None.
Proof.
  rewrite !contents_lookup. induction l as [|i l IH]; cbn [List.filter List.find fmap]; [by destruct (p k)|].
  destruct (p (id i)) eqn:Ep; cbn [List.find]; destruct (Z.eqb_spec (id i) k) as [<-|Hk]; try done; by rewrite Ep in *.
Qed.

Lemma contents_edit (g : F → F) e l k :
  contents (map (λ i, if id i =? e then {| id := id i; fields := g (fields i) |} else i) l) !! k = if k =? e then g <$> contents l !! k else contents l !! k.
Proof.
  rewrite !contents_lookup. induction l as [|i l IH]; cbn [map List.find fmap option_fmap]; [by destruct (k =? e)|].
  assert (∀ b : bool, id (if b then {| id := id i; fields := g (fields i) |} else i) = id i) as Hid by (by intros []).
  rewrite Hid. destruct (Z.eqb_spec (id i) k) as [<-|Hk]; [|done]. by destruct (id i =? e).
Qed.

Lemma contents_snoc l i k : contents (l ++ [i]) !! k = match contents l !! k with Some f => Some f | None => if id i =? k then Some (fields i) else None end.
Proof.
  rewrite !contents_lookup. induction l as [|j l IH]; cbn [app List.find]; [by destruct (id i =? k)|]. by destruct (id j =? k).
Qed.

Lemma newId_above l i : i ∈ l → id i < newId l.
Proof.
  unfold newId. induction l as [|j l IH]; cbn [foldr]; [by intros ?%elem_of_nil|]. intros [->|Hi]%elem_of_cons; [lia|].
  specialize (IH Hi). lia.
Qed.

Lemma newId_pos l : 0 < newId l.
Proof. unfold newId. induction l; cbn [foldr]; lia. Qed.

Lemma newId_fresh l : newId l ∉ map id l.
Proof. intros (i & E & Hi)%list_elem_of_fmap. pose proof (newId_above l i Hi). lia. Qed.

Lemma newId_unused l : contents l !! newId l = None.
Proof.
  rewrite contents_lookup. destruct (List.find _ l) as [i|] eqn:E; [|done]. apply find_some in E as [Hi E]. apply Z.eqb_eq in E.
  apply list_elem_of_In, newId_above in Hi. lia.
Qed.

(** The cases of a step that is possible. *)
Ltac step_cases E :=
  cbn [step] in E;
  repeat match type of E with
  | (if ?b then _ else _) = Some _ => destruct b eqn:?
  | match ?o with _ => _ end = Some _ => destruct o eqn:?
  | None = Some _ => discriminate E
  end; injection E as <-.

(** What an event does to the items. *)
Definition effect (w : world) (e : event) (m m' : gmap Z F) : Prop :=
  match e with
  | DataProp d => m' = match d with Unreadable => ∅ | NoArray => m | StoredList l => contents (load l) end
  | Confirm =>
    match deleteTarget (ui w), editing (ui w) with
    | Single, Some e => m' = delete (id e) m
    | Single, None => m' = m
    | Batch, _ => m' = filter (λ kf, kf.1 ∉ selectedIds (ui w)) m
    end
  | Submit v =>
    match editing (ui w) with
    | Some e => m' = alter (λ f, merged f v) (id e) m
    | None => ∃ k, m !! k = None ∧ m' = <[k := fresh v]> m
    end
  | _ => m' = m
  end.

Lemma selected_existsb k l : existsb (Z.eqb k) l = bool_decide (k ∈ l).
Proof.
  apply eq_bool_prop_intro. rewrite !Is_true_true, existsb_exists, bool_decide_eq_true. setoid_rewrite <- list_elem_of_In.
  split; [intros (x & Hx & ->%Z.eqb_eq); done|]. intros Hk. exists k. split; [done|]. apply Z.eqb_refl.
Qed.

Lemma confirm_effect w : effect w Confirm (contents (items (ui w))) (contents (items (confirmDelete (ui w)))).
Proof.
  unfold effect, confirmDelete. destruct (deleteTarget (ui w)).
  - unfold remove_single. destruct (editing (ui w)) as [e|]; [|done]. cbn [setEditing setShowDeleteDialog setHasChanges set_items items].
    apply map_eq. intros k. rewrite (contents_filter (λ k, negb (k =? id e))). destruct (Z.eqb_spec k (id e)) as [->|Hk]; cbn [negb].
    + by rewrite lookup_delete_eq.
    + by rewrite lookup_delete_ne.
  - cbn [remove_batch setEditing setShowDeleteDialog setHasChanges setSelectedIds set_items items].
    apply map_eq. intros k. rewrite (contents_filter (λ k, negb (existsb (Z.eqb k) (selectedIds (ui w))))), map_lookup_filter, selected_existsb.
    destruct (contents (items (ui w)) !! k) as [f|]; cbn; [|by destruct (negb _)].
    case_bool_decide; case_guard; done.
Qed.

Lemma submit_effect w v : effect w (Submit v) (contents (items (ui w))) (contents (items (handleSubmitForm v (ui w)))).
Proof.
  unfold effect, handleSubmitForm. destruct (editing (ui w)) as [e|]; cbn [setShowDialog setHasChanges set_items items].
  - apply map_eq. intros k. rewrite (contents_edit (λ f, merged f v)). destruct (Z.eqb_spec k (id e)) as [->|Hk].
    + by rewrite lookup_alter_eq.
    + by rewrite lookup_alter_ne.
  - exists (newId (items (ui w))). split; [apply newId_unused|]. apply map_eq. intros k. rewrite contents_snoc. cbn [id fields].
    destruct (Z.eqb_spec (newId (items (ui w))) k) as [<-|Hk].
    + by rewrite newId_unused, lookup_insert_eq.
    + rewrite lookup_insert_ne by done. by destruct (contents (items (ui w)) !! k).
Qed.

Lemma step_effect w e w' : step w e = Some w' → effect w e (contents (items (ui w))) (contents (items (ui w'))).
Proof.
  intros E. destruct e; step_cases E; try done.
  - by destruct d.
  - by destruct a.
  - unfold on_ui, handleBatchDelete. cbn [ui]. by destruct (_ =? _)%nat.
  - apply confirm_effect.
  - apply submit_effect.
  - cbn [ui]. by destruct a; cbn [save_answered]; [..|destruct checks_answer|].
Qed.

(** ** Invariants *)

Definition ids_ok (l : list (Item F)) : Prop := NoDup (map id l) ∧ Forall (λ i, id i ≠ 0) l.

Lemma ids_ok_nil : ids_ok [].
Proof. split; constructor. Qed.

Lemma load_nonzero l : Forall (λ i : Item F, id i ≠ 0) (load l).
Proof.
  unfold load. apply Forall_forall. intros i Hi. apply list_elem_of_lookup in Hi as [n Hn]. rewrite list_lookup_imap in Hn.
  destruct (l !! n) as [st|]; [|done]. injection Hn as <-. unfold load_item. cbn [id].
  destruct (stored_id st) as [k|]; [destruct (Z.eqb_spec k 0)|]; lia.
Qed.

Lemma ids_ok_filter p l : ids_ok l → ids_ok (List.filter p l).
Proof.
  intros [Hn H0]. split.
  - induction l as [|i l IH]; cbn; [done|]. apply NoDup_cons in Hn as [Hi Hn]. apply Forall_cons in H0 as [_ H0]. destruct (p i); [|by apply IH].
    cbn. constructor; [|by apply IH]. intros (j & E & Hj)%list_elem_of_fmap. apply Hi. rewrite E. apply list_elem_of_fmap_2.
    apply list_elem_of_In in Hj. apply filter_In in Hj as [Hj _]. by apply list_elem_of_In.
  - rewrite Forall_forall in *. intros i. rewrite list_elem_of_In, filter_In, <- list_elem_of_In. naive_solver.
Qed.

Lemma ids_ok_edit (g : Item F → F) e l : ids_ok l → ids_ok (map (λ i, if id i =? e then {| id := id i; fields := g i |} else i) l).
Proof.
  intros [Hn H0]. split.
  - rewrite map_map. erewrite map_ext; [exact Hn|]. intros i. by destruct (_ =? _).
  - apply Forall_map. eapply Forall_impl; [exact H0|]. intros i Hi. by destruct (_ =? _).
Qed.

Lemma ids_ok_snoc l f : ids_ok l → ids_ok (l ++ [{| id := newId l; fields := f |}]).
Proof.
  intros [Hn H0]. pose proof (newId_pos l) as Hp. split.
  - rewrite map_app. apply NoDup_app. split_and!; [done| |apply NoDup_singleton]. intros k Hk [->|Hk']%elem_of_cons; [by apply (newId_fresh l)|by apply elem_of_nil in Hk'].
  - apply Forall_app. split; [done|]. apply Forall_singleton. cbn. lia.
Qed.

Lemma load_ids l : map id (load l) = imap (λ n i, id (load_item n i)) l.
Proof. unfold load. change (map id ?l) with (id <$> l). by rewrite fmap_imap. Qed.

Lemma numbered_distinct l : well_numbered l → NoDup (map id (load l)).
Proof.
  intros Hl. apply NoDup_alt. intros i j k Hi Hj. rewrite load_ids, list_lookup_imap in Hi, Hj.
  destruct (l !! i) as [a|] eqn:Ea; [|done]. destruct (l !! j) as [b|] eqn:Eb; [|done].
  injection Hi as Hi. injection Hj as Hj. destruct Hl as [[Hn Hk]|Hnone].
  - rewrite NoDup_alt in Hn. apply (Hn i j (stored_id a)); [by rewrite list_lookup_fmap, Ea|rewrite list_lookup_fmap, Eb; cbn; f_equal].
    destruct (Forall_lookup_1 _ _ _ _ Hk Ea) as (ka & Hka & Ha), (Forall_lookup_1 _ _ _ _ Hk Eb) as (kb & Hkb & Hb).
    unfold load_item in *. cbn [id] in *. rewrite Hka, Hkb in *.
    apply Z.eqb_neq in Ha, Hb. rewrite Ha in Hi. rewrite Hb in Hj. congruence.
  - unfold load_item in *. cbn [id] in *.
    rewrite (Forall_lookup_1 _ _ _ _ Hnone Ea) in Hi. rewrite (Forall_lookup_1 _ _ _ _ Hnone Eb) in Hj. lia.
Qed.

(** A list of items is well numbered when it is saved, and is read back as it was. *)
Lemma saved_numbered l : ids_ok l → well_numbered (map stored_of l) ∧ load (map stored_of l) = l.
Proof.
  intros [Hn H0]. split.
  - left. split; [|apply Forall_map; eapply Forall_impl; [exact H0|]; cbn; eauto].
    rewrite map_map. cbn [stored_of stored_id]. rewrite <- (map_map id Some). by apply (NoDup_fmap_2 Some).
  - unfold load. apply list_eq. intros n. rewrite list_lookup_imap, list_lookup_fmap.
    destruct (l !! n) as [i|] eqn:E; [|done]. cbn. f_equal. unfold load_item. cbn [stored_of stored_id stored_fields].
    rewrite (proj2 (Z.eqb_neq _ _)) by by apply (Forall_lookup_1 _ _ _ _ H0 E). by destruct i.
Qed.

Lemma step_ids w e w' : ids_ok (items (ui w)) → numbered_data w e → step w e = Some w' → ids_ok (items (ui w')).
Proof.
  intros Hok Hd E. destruct e; step_cases E; try done.
  - destruct d as [| |l]; [apply ids_ok_nil|done|]. split; [by apply numbered_distinct|apply load_nonzero].
  - by destruct a.
  - unfold on_ui, handleBatchDelete. cbn [ui]. by destruct (_ =? _)%nat.
  - cbn [ui on_ui]. unfold confirmDelete, remove_single. destruct (deleteTarget (ui w)); [destruct (editing (ui w))|]; try done; by apply ids_ok_filter.
  - cbn [ui on_ui]. unfold handleSubmitForm. destruct (editing (ui w)); [by apply ids_ok_edit|by apply ids_ok_snoc].
  - cbn [ui]. by destruct a; cbn [save_answered]; [..|destruct checks_answer|].
Qed.

(** What is being saved was shown. *)
Lemma step_sent w e w' l : step w e = Some w' → sent w' = Some l → sent w = Some l ∨ items (ui w) = l.
Proof. intros E Hs. destruct e; step_cases E; cbn [sent on_ui] in *; try (by left); by simplify_eq; right. Qed.

Lemma reaches_ids w : reaches numbered_data w → ids_ok (items (ui w)) ∧ ∀ l, sent w = Some l → ids_ok l.
Proof.
  induction 1 as [|w e w' Hr [IH1 IH2] Hd E]; [by split; [apply ids_ok_nil|]|].
  split; [by apply (step_ids w e w')|]. intros l Hl. destruct (step_sent w e w' l E Hl) as [Hs|<-]; auto.
Qed.

(** What is shown is what is stored, or the save button is offered. *)
Definition in_step (w : world) : Prop :=
  (hasChanges (ui w) = false → items (ui w) = saved w) ∧ (∀ l, sent w = Some l → items (ui w) = l).

Lemma step_in_step w e w' : in_step w → calm w e → step w e = Some w' → in_step w'.
Proof.
  intros [H1 H2] Hc E. destruct e; step_cases E; try done.
  - cbn [calm] in Hc. split; cbn [sent ui saved]; [|by rewrite Hc]. by destruct d.
  - by destruct a.
  - unfold in_step, on_ui, handleBatchDelete. cbn [ui saved sent]. by destruct (_ =? _)%nat.
  - cbn [calm] in Hc. split; cbn [sent ui saved on_ui]; [|by rewrite Hc].
    unfold confirmDelete, remove_single. by destruct (deleteTarget (ui w)); [destruct (editing (ui w))|].
  - cbn [calm] in Hc. split; cbn [sent ui saved on_ui]; [done|by rewrite Hc].
  - split; cbn [sent ui saved]; [by rewrite Heqb|]. by intros l [= <-].
  - specialize (H2 _ eq_refl). split; cbn [sent ui saved]; [|done]. destruct a; cbn [save_answered calm] in *; [done| |done].
    by rewrite Hc.
Qed.

(** C17: A section that edits a list of content: questions, announcements, addresses or status pages. In every state,
    each event changes the items, seen as a map from identifiers, in exactly one way: submitting the form changes
    the item that is edited or adds one under an identifier that is not in use, confirming removes the item or the
    selected items, and everything else, the property with the stored list apart, leaves them alone; and the form
    of a submitted item shows what was submitted. When in every list that the page passed in all items have
    identifiers, distinct and not 0, or none has one, the identifiers of the items are distinct in every state that
    the section reaches, and a list that is being saved is such a list again, which is read back as it was. When
    nothing is changed during a save and no refusal is taken for a success, a section that does not offer to save
    shows what is stored. *)
Theorem section_refines `{!SectionLaws F V} w :
  (∀ e w', step w e = Some w' → effect w e (contents (items (ui w))) (contents (items (ui w')))) ∧
  (∀ v w' k f, step w (Submit v) = Some w' → contents (items (ui w')) !! k = Some f →
     shown f = v ∨ contents (items (ui w)) !! k = Some f) ∧
  (reaches numbered_data w → NoDup (map id (items (ui w))) ∧
     ∀ l, sent w = Some l → well_numbered (map stored_of l) ∧ load (map stored_of l) = l) ∧
  (reaches calm w → hasChanges (ui w) = false → items (ui w) = saved w).
Proof.
  split_and!.
  - apply step_effect.
  - intros v w' k f E Hf. apply step_effect in E. cbn [effect] in E. destruct (editing (ui w)) as [e|].
    + rewrite E in Hf. destruct (decide (k = id e)) as [->|Hk]; [|rewrite lookup_alter_ne in Hf by done; by right].
      rewrite lookup_alter_eq in Hf. destruct (contents _ !! _); [|done]. injection Hf as <-. left. apply shown_merged.
    + destruct E as (j & Hj & E). rewrite E in Hf. destruct (decide (k = j)) as [->|Hk]; [|rewrite lookup_insert_ne in Hf by done; by right].
      rewrite lookup_insert_eq in Hf. injection Hf as <-. left. apply shown_fresh.
  - intros [[Hn H0] Hs]%reaches_ids. split; [done|]. intros l Hl. by apply saved_numbered, Hs.
  - intros Hc. assert (in_step w) as [Hs _]; [|done]. induction Hc as [|w e w' Hc IH Hd E]; [by split|]. by apply (step_in_step w e w').
Qed.
End section.

(** ** Sessions *)

Section sessions.
Context {F V : Type} `{ContentSection F V}.

Fixpoint run (w : world) (es : list event) : option world :=
  match es with
  | [] => Some w
  | e :: es => match step w e with Some w' => run w' es | None => None end
  end.

Fixpoint all_ok (P : world → event → Prop) (w : world) (es : list event) : Prop :=
  match es with
  | [] => True
  | e :: es => P w e ∧ match step w e with Some w' => all_ok P w' es | None => False end
  end.

Lemma run_reaches P w es w' : reaches P w → all_ok P w es → run w es = Some w' → reaches P w'.
Proof.
  revert w. induction es as [|e es IH]; intros w Hw Hok E; cbn in *; [congruence|]. destruct Hok as [He Hok].
  destruct (step w e) as [w1|] eqn:Es; [|done]. by apply (IH w1); [eapply reaches_step|..].
Qed.
End sessions.

Definition faq (q : string) : FAQ := {| question := js q; answer := js "a" |}.
Definition faqs : Data FAQ := StoredList [{| stored_id := Some 1; stored_fields := faq "one" |}; {| stored_id := Some 2; stored_fields := faq "two" |}].
Definition faq_two : Item FAQ := {| id := 2; fields := faq "two" |}.
Definition faq_page : world (F := FAQ) (V := FAQ) := opened true [].

Definition faq_session : list (event (F := FAQ) (V := FAQ)) :=
  [DataProp faqs; Edit faq_two; Submit (faq "2"); Add []; Submit (faq "three"); SelectOne 1 true; BatchDelete; Confirm; Save; SaveAnswer Accepted].

Definition faq_ids (w : option (world (F := FAQ) (V := FAQ))) : option (list (Z * jstr)) :=
  map (λ i, (id i, question (fields i))) ∘ items ∘ ui <$> w.

Lemma section_refines_witness :
  faq_ids (run faq_page faq_session) = Some [(2, js "2"); (3, js "three")] ∧
  ∃ w, run faq_page faq_session = Some w ∧ NoDup (map id (items (ui w))) ∧ items (ui w) = saved w.
Proof.
  split; [vm_compute; reflexivity|]. destruct (run faq_page faq_session) as [w|] eqn:E; [|vm_compute in E; discriminate E].
  exists w. split; [done|]. destruct (section_refines w) as (_ & _ & Hn & Hs). split.
  - apply Hn. apply (run_reaches _ faq_page faq_session); [apply reaches_open| |done]. cbn. split_and!; try done.
    left. split; [apply (bool_decide_unpack _); vm_compute; exact I|]. repeat constructor; by eexists.
  - apply Hs; [|vm_compute in E; by injection E as <-].
    apply (run_reaches _ faq_page faq_session); [apply reaches_open| |done]. cbn. split_and!; done.
Defined.

(** A refused save: the sections for questions, announcements and status pages no longer offer to save, although
    the server kept its list; the one for addresses does. *)
Theorem refused_save_forgotten :
  (λ w, (hasChanges (ui w), length (items (ui w)), length (saved w))) <$>
    run faq_page [DataProp faqs; Delete faq_two; Confirm; Save; SaveAnswer Refused] = Some (false, 1%nat, 2%nat).
Proof. vm_compute. reflexivity. Qed.

Theorem refused_addresses_kept `{UrlCheck} (w : world (F := ApiInfo) (V := ApiInfo)) w' :
  step w (SaveAnswer Refused) = Some w' → ui w' = ui w ∧ saved w' = saved w.
Proof. intros E. cbn [step] in E. destruct (sent w); [|discriminate E]. by injection E as <-. Qed.

(** What is changed while a save is under way is shown, but no longer offered to be saved. *)
Theorem edit_during_save :
  (λ w, (hasChanges (ui w), length (items (ui w)), length (saved w))) <$>
    run faq_page [DataProp faqs; Add []; Submit (faq "three"); Save; Delete faq_two; Confirm; SaveAnswer Accepted] = Some (false, 2%nat, 3%nat).
Proof. vm_compute. reflexivity. Qed.

(** An item that is deleted alone stays selected, and its identifier is given to the next item: deleting the
    selection then deletes the new item. *)
Theorem deleted_item_stays_selected :
  faq_ids (run faq_page [DataProp faqs; SelectOne 2 true; Delete faq_two; Confirm; Add []; Submit (faq "new"); BatchDelete; Confirm]) =
  Some [(1, js "one")].
Proof. vm_compute. reflexivity. Qed.

(** An item without an identifier gets its position, which another item may have: both are then deleted together. *)
Theorem positions_collide :
  faq_ids (run faq_page [DataProp (StoredList [{| stored_id := Some 2; stored_fields := faq "one" |}; {| stored_id := None; stored_fields := faq "two" |}]);
                         Delete faq_two; Confirm]) = Some [].
Proof. vm_compute. reflexivity. Qed.
