(* ===== verification/Notifications.v ===== *)
(** * Notifications

    Model of [web/default/src/hooks/use-notifications.ts] and
    [stores/notification-store.ts]: the notice and the announcements, which of them were
    read, and the popover that shows them.  The store is kept in the browser; the notice and
    the announcements come from the server.  The announcements are those that the section
    of [ContentSections] saves.  The counts are computed anew in every render. *)

From S2P Require Import Prelude JsString JsNumber Json ContentSections.
From Stdlib Require Import NArith ZArith.

#[local] Open Scope Z_scope.

(** ** Keys of announcements *)

(** One round of the loop; [|= 0] keeps the hash at 32 bits. *)
Definition hash_round (hash : Z) (chr : N) : Z := to_int32 (to_int32 (hash * 32) - hash + Z.of_N chr).

Definition base36_digit (d : N) : N := if (d <? 10)%N then (48 + d)%N else (87 + d)%N.

Fixpoint base36_go (fuel : nat) (n : N) (acc : jstr) : jstr :=
  match fuel with
  | O => acc
  | S f =>
    let acc := base36_digit (n mod 36) :: acc in
    if (n <? 36)%N then acc else base36_go f (n / 36) acc
  end.

(** [z.toString(36)]; seven digits are enough for 32 bits. *)
Definition to_base36 (z : Z) : jstr :=
  if z <? 0 then 45%N :: base36_go 7 (Z.to_N (- z)) [] else base36_go 7 (Z.to_N z) [].

Definition hash_value (input : jstr) : Z := foldl hash_round 0 input.

Definition hashString (input : jstr) : jstr := if nonempty input then to_base36 (hash_value input) else js "0".

(** An announcement as the server sends it. *)
Record Note := {
  note_id : option Z;
  note_publishDate : option jstr;
  note_content : option jstr;
  note_extra : option jstr;
  note_type : option jstr;
  note_title : option jstr;
  note_link : option jstr;
}.

(** An integer in a template text. *)
Definition Z_text (z : Z) : jstr := if z <? 0 then 45%N :: dec (Z.to_N (- z)) else dec (Z.to_N z).

Definition fingerprint (item : Note) : jstr :=
  stringify (JObj [
    (js "publishDate", JStr (default [] (note_publishDate item)));
    (js "content", JStr (trim (default [] (note_content item))));
    (js "extra", JStr (trim (default [] (note_extra item))));
    (js "type", JStr (default [] (note_type item)));
    (js "title", JStr (trim (default [] (note_title item))));
    (js "link", JStr (trim (default [] (note_link item))))]).

(** An entry of the list that is missing has the empty key. *)
Definition getAnnouncementKey (item : option Note) : jstr :=
  match item with
  | None => []
  | Some item =>
    match note_id item with
    | Some i => js "id:" ++ Z_text i
    | None => js "hash:" ++ hashString (fingerprint item)
    end
  end.

(** ** The store *)

Record store := { lastReadNotice : jstr; readAnnouncementKeys : list jstr; closedUntilDate : option jstr }.

Definition empty_store : store := {| lastReadNotice := []; readAnnouncementKeys := []; closedUntilDate := None |}.

Definition markNoticeRead (noticeContent : jstr) (s : store) : store :=
  {| lastReadNotice := trim noticeContent; readAnnouncementKeys := readAnnouncementKeys s; closedUntilDate := closedUntilDate s |}.

Definition markAnnouncementsRead (keys : list jstr) (s : store) : store :=
  {| lastReadNotice := lastReadNotice s; readAnnouncementKeys := dedup (readAnnouncementKeys s ++ keys);
     closedUntilDate := closedUntilDate s |}.

Definition setClosedUntilDate (date : option jstr) (s : store) : store :=
  {| lastReadNotice := lastReadNotice s; readAnnouncementKeys := readAnnouncementKeys s; closedUntilDate := date |}.

Definition isAnnouncementRead (key : jstr) (s : store) : bool := existsb (str_eqb key) (readAnnouncementKeys s).

Definition isNoticeClosed (today : jstr) (s : store) : bool :=
  match closedUntilDate s with
  | Some date => if nonempty date then str_eqb date today else false
  | None => false
  end.

(** ** The hook *)

Inductive Tab := NoticeTab | AnnouncementsTab.

(** [notice] is the text of a successful answer; [feed] is whether announcements are enabled, and all of them. *)
Record page := {
  notifications : store;
  popoverOpen : bool;
  activeTab : Tab;
  notice : option jstr;
  feed : bool * list (option Note);
}.

Definition noticeContent (p : page) : jstr := trim (default [] (notice p)).

Definition announcements (p : page) : list (option Note) := if (feed p).1 then take 20 (feed p).2 else [].

Definition unread_notice (p : page) : nat :=
  if nonempty (noticeContent p) && negb (str_eqb (noticeContent p) (lastReadNotice (notifications p))) then 1 else 0.

Definition unread_items (p : page) : list (option Note) :=
  List.filter (λ item, negb (isAnnouncementRead (getAnnouncementKey item) (notifications p))) (announcements p).

Definition unreadCount (p : page) : nat := unread_notice p + length (unread_items p).

Definition with_store (f : store → store) (p : page) : page :=
  {| notifications := f (notifications p); popoverOpen := popoverOpen p; activeTab := activeTab p; notice := notice p; feed := feed p |}.

Definition with_popover (open : bool) (tab : Tab) (p : page) : page :=
  {| notifications := notifications p; popoverOpen := open; activeTab := tab; notice := notice p; feed := feed p |}.

Definition markAnnouncementsAsRead (p : page) : page :=
  if (0 <? length (announcements p))%nat then with_store (markAnnouncementsRead (map getAnnouncementKey (announcements p))) p else p.

Definition handleOpenPopover (tab : option Tab) (p : page) : page :=
  let nextTab := default (activeTab p) tab in
  let p1 := if nonempty (noticeContent p) then with_store (markNoticeRead (noticeContent p)) p else p in
  let p2 := match nextTab with AnnouncementsTab => markAnnouncementsAsRead p1 | NoticeTab => p1 end in
  with_popover true nextTab p2.

Definition handlePopoverOpenChange (open : bool) (p : page) : page :=
  if open then handleOpenPopover (Some (activeTab p)) p else with_popover false (activeTab p) p.

Definition handleTabChange (tab : Tab) (p : page) : page :=
  let p1 := with_popover (popoverOpen p) tab p in
  match tab with AnnouncementsTab => markAnnouncementsAsRead p1 | NoticeTab => p1 end.

Inductive event :=
  | Open (tab : option Tab) | OpenChange (open : bool) | TabChange (tab : Tab) | Close | Reload
  | NewNotice (n : option jstr) | NewFeed (f : bool * list (option Note)).

(** A reload keeps the store. *)
Definition step (p : page) (e : event) : page :=
  match e with
  | Open tab => handleOpenPopover tab p
  | OpenChange open => handlePopoverOpenChange open p
  | TabChange tab => handleTabChange tab p
  | Close => with_popover false (activeTab p) p
  | Reload => with_popover false NoticeTab p
  | NewNotice n => {| notifications := notifications p; popoverOpen := popoverOpen p; activeTab := activeTab p; notice := n; feed := feed p |}
  | NewFeed f => {| notifications := notifications p; popoverOpen := popoverOpen p; activeTab := activeTab p; notice := notice p; feed := f |}
  end.

Definition first_visit : page :=
  {| notifications := empty_store; popoverOpen := false; activeTab := NoticeTab; notice := None; feed := (false, []) |}.

(** ** Facts about keys *)
Lemma to_int32_bounds z : - 2 ^ 31 <= to_int32 z < 2 ^ 31.
Proof. unfold to_int32, to_uint32. pose proof (Z.mod_pos_bound z (2 ^ 32) ltac:(lia)). destruct (Z.ltb_spec (z mod 2 ^ 32) (2 ^ 31)); lia. Qed.

Lemma to_int32_mod z : to_int32 z mod 2 ^ 32 = z mod 2 ^ 32.
Proof.
  unfold to_int32, to_uint32. destruct (Z.ltb_spec (z mod 2 ^ 32) (2 ^ 31)); [by apply Z.mod_mod|].
  rewrite <- (Z.mod_add _ 1) by lia. rewrite Z.mul_1_l, Z.sub_add. by apply Z.mod_mod.
Qed.

Lemma to_int32_cong a b : a mod 2 ^ 32 = b mod 2 ^ 32 → to_int32 a = to_int32 b.
Proof. unfold to_int32, to_uint32. by intros ->. Qed.

(** The hash is the polynomial in 31, at 32 bits. *)
Theorem hash_polynomial input : hash_value input = to_int32 (foldl (λ h c, 31 * h + Z.of_N c) 0 input).
Proof.
  unfold hash_value. induction input as [|c s IH] using rev_ind; [done|]. rewrite !foldl_snoc, IH. unfold hash_round. apply to_int32_cong.
  set (h := foldl _ 0 s). rewrite Zplus_mod, Zminus_mod, to_int32_mod, <- Zminus_mod, <- Zplus_mod.
  replace (to_int32 h * 32 - to_int32 h + Z.of_N c) with (to_int32 h * 31 + Z.of_N c) by ring.
  rewrite Zplus_mod, Zmult_mod, to_int32_mod, <- Zmult_mod, <- Zplus_mod. f_equal. ring.
Qed.

(** The digits are those of the number: the fuel is enough. *)
Definition base36_val (s : jstr) : N := foldl (λ a c, a * 36 + (if (c <? 58)%N then c - 48 else c - 87))%N 0%N s.

Lemma base36_go_val f n acc : (n < 36 ^ N.of_nat f)%N →
  base36_val (base36_go f n acc) = foldl (λ a c, a * 36 + (if (c <? 58)%N then c - 48 else c - 87))%N n acc.
Proof.
  revert n acc. induction f as [|f IH]; intros n acc Hn; [cbn in Hn; by replace n with 0%N by lia|].
  assert (∀ d, (d < 36)%N → (if (base36_digit d <? 58)%N then base36_digit d - 48 else base36_digit d - 87)%N = d) as Hd.
  { intros d Hd. unfold base36_digit. destruct (N.ltb_spec d 10); [destruct (N.ltb_spec (48 + d) 58)|destruct (N.ltb_spec (87 + d) 58)]; lia. }
  pose proof (N.mod_upper_bound n 36 ltac:(done)) as Hm. cbn [base36_go]. destruct (N.ltb_spec n 36) as [Hs|Hs].
  - unfold base36_val. cbn [foldl]. by rewrite Hd, N.mod_small.
  - rewrite IH.
    + cbn [foldl]. rewrite Hd by done. f_equal. pose proof (N.div_mod n 36). lia.
    + apply N.Div0.div_lt_upper_bound. rewrite <- N.pow_succ_r'. by rewrite Nat2N.inj_succ in Hn.
Qed.

Lemma base36_digit_plain d : base36_digit d ≠ 45%N.
Proof. unfold base36_digit. destruct (d <? 10)%N; intros E; lia. Qed.

Lemma hash_text_inj a b : - 2 ^ 31 <= a < 2 ^ 31 → - 2 ^ 31 <= b < 2 ^ 31 → to_base36 a = to_base36 b → a = b.
Proof.
  intros Ha Hb. assert (∀ n, (n <= 2 ^ 31)%N → base36_val (base36_go 7 n []) = n) as Hv.
  { intros n Hn. rewrite base36_go_val; [done|]. change (36 ^ N.of_nat 7)%N with 78364164096%N. lia. }
  assert (∀ n s, (n <= 2 ^ 31)%N → base36_go 7 n [] ≠ 45%N :: s) as Hd.
  { intros n s _. assert (∀ f n acc, Forall (λ c, c ≠ 45%N) acc → Forall (λ c, c ≠ 45%N) (base36_go f n acc)) as Hg.
    { intros f. induction f as [|f IH]; intros m acc Hacc; cbn [base36_go]; [done|].
      assert (Forall (λ c, c ≠ 45%N) (base36_digit (m mod 36) :: acc)) by (constructor; [apply base36_digit_plain|done]).
      destruct (m <? 36)%N; [done|by apply IH]. }
    intros E. pose proof (Hg 7%nat n [] ltac:(constructor)) as H. rewrite E in H. by apply Forall_cons in H as [H _]. }
  unfold to_base36. destruct (Z.ltb_spec a 0), (Z.ltb_spec b 0); intros E.
  - apply (f_equal (λ s, base36_val (tail s))) in E. cbn [tail] in E. rewrite !Hv in E by lia. lia.
  - symmetry in E. apply Hd in E; [done|lia].
  - apply Hd in E; [done|lia].
  - apply (f_equal base36_val) in E. rewrite !Hv in E by lia. lia.
Qed.

Lemma Z_text_inj a b : Z_text a = Z_text b → a = b.
Proof.
  unfold Z_text. assert (∀ n s, dec n ≠ 45%N :: s) as Hd.
  { intros n s E. pose proof (dec_digits n) as H. rewrite E in H. apply Forall_cons in H as [H _]. done. }
  destruct (Z.ltb_spec a 0), (Z.ltb_spec b 0); intros E; [injection E as E; apply dec_inj in E; lia|by symmetry in E; apply Hd in E|by apply Hd in E|apply dec_inj in E; lia].
Qed.

Lemma hash_value_bounds s : - 2 ^ 31 <= hash_value s < 2 ^ 31.
Proof. unfold hash_value. destruct s as [|c s _] using rev_ind; [by cbn|]. rewrite foldl_snoc. apply to_int32_bounds. Qed.

(** When two entries count as the same announcement: by their identifiers, or by the hashes of their texts. *)
Definition same_announcement (a b : option Note) : Prop :=
  match a, b with
  | Some a, Some b =>
    match note_id a, note_id b with
    | Some i, Some j => i = j
    | None, None => hash_value (fingerprint a) = hash_value (fingerprint b)
    | _, _ => False
    end
  | None, None => True
  | _, _ => False
  end.

Lemma same_key a b : getAnnouncementKey a = getAnnouncementKey b ↔ same_announcement a b.
Proof.
  destruct a as [a|], b as [b|]; cbn [getAnnouncementKey same_announcement].
  - destruct (note_id a) as [i|], (note_id b) as [j|].
    + split; [|by intros ->]. intros E. apply Z_text_inj. by apply app_inv_head in E.
    + by split.
    + by split.
    + unfold hashString. change (nonempty (fingerprint a)) with true. change (nonempty (fingerprint b)) with true. cbv iota.
      split; [|by intros ->]. intros E. apply app_inv_head in E. apply hash_text_inj in E; [done|apply hash_value_bounds..].
  - split; [|done]. by destruct (note_id a).
  - split; [|done]. by destruct (note_id b).
  - done.
Qed.

(** ** What is read *)
Lemma is_read_spec k s : isAnnouncementRead k s = bool_decide (k ∈ readAnnouncementKeys s).
Proof.
  apply eq_bool_prop_intro. unfold isAnnouncementRead. rewrite !Is_true_true, existsb_exists, bool_decide_eq_true. unfold str_eqb.
  setoid_rewrite bool_decide_eq_true. setoid_rewrite <- list_elem_of_In. naive_solver.
Qed.

Definition keys (p : page) : list jstr := map getAnnouncementKey (announcements p).
Definition read_keys (p : page) : list jstr := readAnnouncementKeys (notifications p).

(** Which announcements are marked by an event. *)
Definition marks (p : page) (e : event) : bool :=
  match e with
  | Open tab => match default (activeTab p) tab with AnnouncementsTab => true | NoticeTab => false end
  | OpenChange true => match activeTab p with AnnouncementsTab => true | NoticeTab => false end
  | TabChange AnnouncementsTab => true
  | _ => false
  end.

Lemma mark_keys p : NoDup (read_keys p) → read_keys (markAnnouncementsAsRead p) = dedup (read_keys p ++ keys p).
Proof.
  intros Hn. unfold markAnnouncementsAsRead, read_keys, keys. destruct (announcements p) as [|a l] eqn:E; [|done]. cbn.
  rewrite app_nil_r. symmetry. by apply dedup_id.
Qed.

Lemma open_keys tab p : NoDup (read_keys p) → read_keys (handleOpenPopover tab p) =
  match default (activeTab p) tab with AnnouncementsTab => dedup (read_keys p ++ keys p) | NoticeTab => read_keys p end.
Proof.
  intros Hn. unfold handleOpenPopover. set (p1 := if nonempty (noticeContent p) then _ else _).
  assert (read_keys p1 = read_keys p ∧ keys p1 = keys p) as [E1 E2] by (unfold p1; by destruct (nonempty _)).
  destruct (default (activeTab p) tab); [done|].
  change (read_keys (with_popover true AnnouncementsTab (markAnnouncementsAsRead p1))) with (read_keys (markAnnouncementsAsRead p1)).
  rewrite mark_keys; rewrite E1; [by rewrite E2|done].
Qed.

Lemma step_keys p e : NoDup (read_keys p) → read_keys (step p e) = if marks p e then dedup (read_keys p ++ keys p) else read_keys p.
Proof.
  intros Hn. destruct e as [tab|open|tab| | |n|f]; cbn [step marks]; try done.
  - rewrite open_keys by done. by destruct (default _ _).
  - unfold handlePopoverOpenChange. destruct open; [|done]. rewrite open_keys by done. cbn [default]. by destruct (activeTab p).
  - unfold handleTabChange. destruct tab; [done|]. by rewrite mark_keys.
Qed.

Lemma marked_tab p e : marks p e = true → activeTab (step p e) = AnnouncementsTab.
Proof.
  destruct e as [tab|[]|[]| | |n|f]; cbn [marks step]; try done.
  - change (activeTab (handleOpenPopover tab p)) with (default (activeTab p) tab). by destruct (default _ _).
  - change (activeTab (handlePopoverOpenChange true p)) with (activeTab p). by destruct (activeTab p).
  - intros _. unfold handleTabChange, markAnnouncementsAsRead. by destruct (_ <? _)%nat.
Qed.

Lemma step_nodup p e : NoDup (read_keys p) → NoDup (read_keys (step p e)).
Proof. intros Hn. rewrite step_keys by done. destruct (marks p e); [apply NoDup_dedup|done]. Qed.

Lemma reads_nodup es : NoDup (read_keys (foldl step first_visit es)).
Proof. induction es as [|e es IH] using rev_ind; [constructor|]. rewrite foldl_snoc. by apply step_nodup. Qed.

Lemma step_grows p e k : NoDup (read_keys p) → k ∈ read_keys p → k ∈ read_keys (step p e).
Proof. intros Hn Hk. rewrite step_keys by done. destruct (marks p e); [|done]. rewrite elem_of_dedup. set_solver. Qed.

Definition from_server (e : event) : bool := match e with NewNotice _ | NewFeed _ => true | _ => false end.

Lemma mark_same p : notice (markAnnouncementsAsRead p) = notice p ∧ feed (markAnnouncementsAsRead p) = feed p ∧
  lastReadNotice (notifications (markAnnouncementsAsRead p)) = lastReadNotice (notifications p).
Proof. unfold markAnnouncementsAsRead. by destruct (_ <? _)%nat. Qed.

Lemma open_same tab p : notice (handleOpenPopover tab p) = notice p ∧ feed (handleOpenPopover tab p) = feed p ∧
  lastReadNotice (notifications (handleOpenPopover tab p)) = if nonempty (noticeContent p) then noticeContent p else lastReadNotice (notifications p).
Proof.
  unfold handleOpenPopover. set (p1 := if nonempty (noticeContent p) then _ else _).
  assert (notice p1 = notice p ∧ feed p1 = feed p ∧
    lastReadNotice (notifications p1) = if nonempty (noticeContent p) then noticeContent p else lastReadNotice (notifications p)) as (E1 & E2 & E3).
  { unfold p1. destruct (nonempty (noticeContent p)); [|done]. split_and!; [done..|]. apply trim_idemp. }
  destruct (default (activeTab p) tab); [done|]. destruct (mark_same p1) as (F1 & F2 & F3). cbn [with_popover notice feed notifications].
  by rewrite F1, F2, F3.
Qed.

Lemma open_settles_notice tab p : unread_notice (handleOpenPopover tab p) = 0%nat.
Proof.
  destruct (open_same tab p) as (E1 & _ & E3). unfold unread_notice.
  assert (noticeContent (handleOpenPopover tab p) = noticeContent p) as -> by (unfold noticeContent; by rewrite E1). rewrite E3.
  destruct (nonempty (noticeContent p)) eqn:En; [|done]. unfold str_eqb. by rewrite bool_decide_eq_true_2.
Qed.

(** A user's event keeps what the server sent, and the notice is not unread again. *)
Lemma user_step p e : from_server e = false →
  announcements (step p e) = announcements p ∧ (unread_notice (step p e) <= unread_notice p)%nat.
Proof.
  assert (∀ tab, announcements (handleOpenPopover tab p) = announcements p ∧ (unread_notice (handleOpenPopover tab p) <= unread_notice p)%nat) as Ho.
  { intros tab. rewrite open_settles_notice. split; [|lia]. unfold announcements. by destruct (open_same tab p) as (_ & -> & _). }
  destruct e as [tab|open|tab| | |n|f]; cbn [from_server step]; try done; intros _.
  - unfold handlePopoverOpenChange. by destruct open.
  - unfold handleTabChange. destruct tab; [done|]. set (p1 := with_popover _ _ p). destruct (mark_same p1) as (E1 & E2 & E3).
    unfold announcements, unread_notice, noticeContent. by rewrite E1, E2, E3.
Qed.

Lemma unread_keys p q : announcements q = announcements p → (∀ k, k ∈ read_keys p → k ∈ read_keys q) →
  sublist (unread_items q) (unread_items p).
Proof.
  intros Ha Hk. unfold unread_items. rewrite Ha. clear Ha. induction (announcements p) as [|a l IH]; cbn [List.filter]; [done|].
  rewrite !is_read_spec. fold (read_keys p) (read_keys q). destruct (decide (getAnnouncementKey a ∈ read_keys p)) as [Hp|Hp].
  - rewrite (bool_decide_eq_true_2 _ Hp), (bool_decide_eq_true_2 _ (Hk _ Hp)). cbn [negb]. exact IH.
  - rewrite (bool_decide_eq_false_2 _ Hp). cbn [negb]. destruct (bool_decide _); cbn [negb]; by constructor.
Qed.

Lemma all_read p : (∀ k, k ∈ keys p → k ∈ read_keys p) → unread_items p = [].
Proof.
  intros Hk. unfold unread_items, keys in *. induction (announcements p) as [|a l IH]; [done|]. cbn [List.filter].
  rewrite is_read_spec. fold (read_keys p). rewrite bool_decide_eq_true_2 by (apply Hk; by left). cbn [negb]. apply IH. intros k H. apply Hk. by right.
Qed.

(** The key of an announcement is stored exactly when it was listed at an earlier opening of the tab. *)
Lemma read_history es k :
  k ∈ read_keys (foldl step first_visit es) ↔
  ∃ es1 e es2, es = es1 ++ e :: es2 ∧ marks (foldl step first_visit es1) e = true ∧ k ∈ keys (foldl step first_visit es1).
Proof.
  induction es as [|e es IH] using rev_ind.
  { split; [by intros ?%elem_of_nil|]. intros (es1 & e & es2 & E & _). by destruct es1. }
  rewrite foldl_snoc, step_keys by apply reads_nodup. split.
  - intros Hk. assert (k ∈ read_keys (foldl step first_visit es) ∨
      marks (foldl step first_visit es) e = true ∧ k ∈ keys (foldl step first_visit es)) as [Hk'|[Hm Hk']].
    { destruct (marks _ e); [|by left]. rewrite elem_of_dedup, elem_of_app in Hk. naive_solver. }
    + apply IH in Hk' as (es1 & e1 & es2 & -> & Hk'). exists es1, e1, (es2 ++ [e]). by rewrite <- app_assoc.
    + by exists es, e, [].
  - intros (es1 & e1 & es2 & E & Hm & Hk). destruct es2 as [|e2 es2 _] using rev_ind.
    + apply app_inj_tail in E as [-> ->]. rewrite Hm, elem_of_dedup, elem_of_app. by right.
    + rewrite app_comm_cons, app_assoc in E. apply app_inj_tail in E as [-> ->].
      assert (k ∈ read_keys (foldl step first_visit (es1 ++ e1 :: es2))) as Hr by (apply IH; eauto 10).
      destruct (marks _ e2); [|done]. rewrite elem_of_dedup, elem_of_app. by left.
Qed.

(** C18: Notifications, after any visit: opening the popover, changing tabs, reloading, and new notices and
    announcements from the server in any order. An announcement counts as read exactly when one that counts as the same
    was listed at an earlier opening of the tab of the announcements: one with the same identifier, or, for
    announcements without one, with the same 32-bit hash of its texts; so it counts as read from then on. What a user
    does never makes anything unread: the number only grows by what the server sends. Opening the popover leaves no
    unread notice, and on the tab of the announcements nothing unread at all. *)
Theorem notifications_read es :
  let p := foldl step first_visit es in
  (∀ a, isAnnouncementRead (getAnnouncementKey a) (notifications p) = true ↔
     ∃ es1 e es2 b, es = es1 ++ e :: es2 ∧ marks (foldl step first_visit es1) e = true ∧
       b ∈ announcements (foldl step first_visit es1) ∧ same_announcement a b) ∧
  (∀ e, from_server e = false → sublist (unread_items (step p e)) (unread_items p) ∧ (unreadCount (step p e) <= unreadCount p)%nat) ∧
  (∀ tab, unread_notice (handleOpenPopover tab p) = 0%nat ∧
     (activeTab (handleOpenPopover tab p) = AnnouncementsTab → unreadCount (handleOpenPopover tab p) = 0%nat)).
Proof.
  intros p. pose proof (reads_nodup es) as Hn. fold p in Hn. split_and!.
  - intros a. rewrite is_read_spec, bool_decide_eq_true. etransitivity; [apply (read_history es)|]. unfold keys.
    setoid_rewrite list_elem_of_fmap. setoid_rewrite same_key. naive_solver.
  - intros e He. destruct (user_step p e He) as [Ha Hu].
    assert (sublist (unread_items (step p e)) (unread_items p)) as Hs by (apply unread_keys; [done|]; intros k; by apply step_grows).
    split; [done|]. unfold unreadCount. apply sublist_length in Hs. lia.
  - intros tab. split; [apply open_settles_notice|]. intros Ht. unfold unreadCount. rewrite open_settles_notice, all_read; [done|].
    intros k Hk. assert (keys (handleOpenPopover tab p) = keys p) as Ek.
    { unfold keys, announcements. by destruct (open_same tab p) as (_ & -> & _). }
    rewrite open_keys by done. change (activeTab (handleOpenPopover tab p)) with (default (activeTab p) tab) in Ht.
    rewrite Ht, elem_of_dedup. rewrite Ek in Hk. set_solver.
Qed.

(** ** With the announcements of the settings *)

Definition type_text (t : AnnouncementType) : jstr :=
  match t with
  | TDefault => js "default" | TOngoing => js "ongoing" | TSuccess => js "success" | TWarning => js "warning" | TError => js "error"
  end.

(** An item of the section, as it is stored and sent. *)
Definition note_of (i : Item Announcement) : option Note := Some {|
  note_id := Some (id i); note_publishDate := Some (publishDate (fields i)); note_content := Some (content (fields i));
  note_extra := extra (fields i); note_type := Some (type_text (a_type (fields i))); note_title := None; note_link := None |}.

(** Two items of a section count as the same announcement exactly when they have the same identifier. *)
Theorem unread_by_id (i j : Item Announcement) : getAnnouncementKey (note_of i) = getAnnouncementKey (note_of j) ↔ id i = id j.
Proof. apply same_key. Qed.

Definition announcement (t : string) : AnnouncementForm :=
  {| v_content := js t; v_publishDate := js "2026-01-01"; v_type := TDefault; v_extra := [] |}.

(** The administrator's page, and what it has stored. *)
Definition admin_page : world (F := Announcement) (V := AnnouncementForm) := opened true [].

Abbreviation admin_event := (ContentSections.event (F := Announcement) (V := AnnouncementForm)).

Definition stored_notes (es : list admin_event) : option (list (option Note)) := map note_of ∘ saved <$> run admin_page es.

(** A user who has read the announcements of the first session visits again after the second. *)
Definition unread_after (es1 es2 : list admin_event) : option nat :=
  match stored_notes es1, stored_notes (es1 ++ es2) with
  | Some l1, Some l2 => Some (unreadCount (foldl step first_visit [NewFeed (true, l1); Open (Some AnnouncementsTab); Close; NewFeed (true, l2)]))
  | _, _ => None
  end.

Definition first_announcement : list admin_event :=
  [Add []; Submit (announcement "Maintenance"); Save; SaveAnswer Accepted].

Definition first_item : Item Announcement := {| id := 1; fields := announcement_of (announcement "Maintenance") |}.

(** A second announcement is noticed. *)
Theorem second_announcement_unread : unread_after first_announcement [Add []; Submit (announcement "Prices"); Save; SaveAnswer Accepted] = Some 1%nat.
Proof. vm_compute. reflexivity. Qed.

(** One that takes the place of a deleted announcement has its identifier and counts as read; so does one that was
    rewritten. *)
Theorem replaced_announcement_unnoticed :
  unread_after first_announcement [Delete first_item; Confirm; Add []; Submit (announcement "Prices"); Save; SaveAnswer Accepted] = Some 0%nat ∧
  unread_after first_announcement [Edit first_item; Submit (announcement "Prices"); Save; SaveAnswer Accepted] = Some 0%nat.
Proof. split; vm_compute; reflexivity. Qed.

(** Opening the tab of the announcements also marks the notice, which that tab does not show. *)
Theorem notice_read_unseen :
  let p := foldl step first_visit [NewNotice (Some (js "Hello")); Open (Some AnnouncementsTab)] in
  activeTab p = AnnouncementsTab ∧ unread_notice p = 0%nat.
Proof. split; vm_compute; reflexivity. Qed.

Definition plain_note (t : string) : option Note :=
  Some {| note_id := None; note_publishDate := None; note_content := Some (js t); note_extra := None; note_type := None; note_title := None; note_link := None |}.

(** Announcements without identifiers are told apart by a hash of 32 bits, under which short texts collide. *)
Theorem hashes_collide : getAnnouncementKey (plain_note "Aa") = getAnnouncementKey (plain_note "BB").
Proof. vm_compute. reflexivity. Qed.
