(* ===== verification/SecureVerification.v ===== *)
(** * Secure verification

    Model of [web/default/src/features/auth/secure-verification]: the hook
    [use-secure-verification.ts], the dialog [secure-verification-dialog.tsx] and
    [verify] of [api.ts], with [lib/secure-verification.ts] and the two places that use them,
    [channel-mutate-drawer.tsx] and [passkey-card.tsx].  A protected call is run after the user
    has confirmed who they are; [withVerification] first makes it without a verification, and asks for one when the
    server refuses.

    A call is a value of a type [C]; requests are sent and answered in separate events, so
    that the user can act in between.  The options of the hook are their defaults:
    [autoReset] is true.  Messages and the texts of the dialog are not modelled. *)

From S2P Require Import Prelude JsString.
From Stdlib Require Import NArith ZArith.

(** ** Methods *)

Inductive VerificationMethod := TwoFA | Passkey.

#[export] Instance method_eq : EqDecision VerificationMethod.
Proof. solve_decision. Defined.

Record VerificationMethods := { has2FA : bool; hasPasskey : bool; passkeySupported : bool }.

Definition defaultMethods : VerificationMethods := {| has2FA := false; hasPasskey := false; passkeySupported := false |}.

(** An answer about a method: whether it succeeded and whether the method is enabled. *)
Definition checked (answer : option (bool * bool)) : bool :=
  match answer with Some (success, enabled) => success && enabled | None => false end.

(** [None]: one of the three requests threw. *)
Definition checkVerificationMethods (answers : option (option (bool * bool) * option (bool * bool) * bool)) : VerificationMethods :=
  match answers with
  | Some (twoFA, passkey, supported) => {| has2FA := checked twoFA; hasPasskey := checked passkey; passkeySupported := supported |}
  | None => defaultMethods
  end.

Definition canUseMethod (m : VerificationMethods) (method : VerificationMethod) : bool :=
  match method with TwoFA => has2FA m | Passkey => hasPasskey m && passkeySupported m end.

Definition recommendedMethod (m : VerificationMethods) : option VerificationMethod :=
  if hasPasskey m && passkeySupported m then Some Passkey else if has2FA m then Some TwoFA else None.

Definition hasAnyMethod (m : VerificationMethods) : bool := has2FA m || hasPasskey m.

(** ** Errors that ask for a verification *)

(** The status and the code of a response. *)
Definition isVerificationRequiredError (response : option (Z * option jstr)) : bool :=
  match response with
  | Some (status, Some code) =>
    (status =? 403)%Z && nonempty code &&
    existsb (str_eqb code) [js "VERIFICATION_REQUIRED"; js "VERIFICATION_EXPIRED"; js "VERIFICATION_INVALID"]
  | _ => false
  end.

Section verification.
Context {C : Type}.

(** ** The hook *)

Record InternalState := { method : option VerificationMethod; loading : bool; code : jstr; apiCall : option C }.

Definition initialState : InternalState := {| method := None; loading := false; code := []; apiCall := None |}.

(** An execution that waits for an answer: first for the one of [verify], then for the one of its call. *)
Inductive phase := Verifying | Calling.
Record execution := { e_call : C; e_method : VerificationMethod; e_code : jstr; e_phase : phase }.

(** What the hook did: requests that were sent and outcomes.  [Tried] is a call that was made before any
    verification, to see whether the server asks for one. *)
Inductive action :=
  | Tried (c : C) | SentVerify (m : VerificationMethod) (code : jstr) | Verified (m : VerificationMethod) | RanCall (c : C)
  | Succeeded (m : VerificationMethod) | Reported.

Record hook := {
  methods : VerificationMethods;
  state : InternalState;
  open : bool;
  attempts : list (C * option VerificationMethod);
  executions : list execution;
  actions : list action;
}.

Definition mounted : hook := {| methods := defaultMethods; state := initialState; open := false; attempts := []; executions := []; actions := [] |}.

Definition setState (f : InternalState → InternalState) (h : hook) : hook :=
  {| methods := methods h; state := f (state h); open := open h; attempts := attempts h; executions := executions h; actions := actions h |}.

Definition setOpen (b : bool) (h : hook) : hook :=
  {| methods := methods h; state := state h; open := b; attempts := attempts h; executions := executions h; actions := actions h |}.

Definition setMethods (m : VerificationMethods) (h : hook) : hook :=
  {| methods := m; state := state h; open := open h; attempts := attempts h; executions := executions h; actions := actions h |}.

Definition setLoading (b : bool) (s : InternalState) : InternalState :=
  {| method := method s; loading := b; code := code s; apiCall := apiCall s |}.

Definition setExecutions (l : list execution) (h : hook) : hook :=
  {| methods := methods h; state := state h; open := open h; attempts := attempts h; executions := l; actions := actions h |}.

Definition setAttempts (l : list (C * option VerificationMethod)) (h : hook) : hook :=
  {| methods := methods h; state := state h; open := open h; attempts := l; executions := executions h; actions := actions h |}.

Definition did (l : list action) (h : hook) : hook :=
  {| methods := methods h; state := state h; open := open h; attempts := attempts h; executions := executions h; actions := actions h ++ l |}.

Definition reset (h : hook) : hook := setOpen false (setState (λ _, initialState) h).

(** The method that a verification starts with. *)
Definition defaultMethod (preferred : option VerificationMethod) (m : VerificationMethods) : option VerificationMethod :=
  match preferred with Some p => Some p | None => recommendedMethod m end.

(** [available] is what the request for the methods gave. *)
Definition startVerification (call : C) (preferred : option VerificationMethod) (available : VerificationMethods) (h : hook) : hook :=
  let h := setMethods available h in
  if negb (has2FA available) && negb (hasPasskey available) then did [Reported] h
  else setOpen true (setState (λ s,
    {| method := defaultMethod preferred available; loading := loading s; code := code s; apiCall := Some call |}) h).

(** Up to the first [await]: the call and the code are those of the render in which the button was pressed. *)
Definition executeVerification (m : option VerificationMethod) (c : option jstr) (h : hook) : hook :=
  match apiCall (state h) with
  | None => did [Reported] h
  | Some call =>
    match (match m with Some m => Some m | None => method (state h) end) with
    | None => did [Reported] h
    | Some actual =>
      let c := default (code (state h)) c in
      did [SentVerify actual c]
        (setExecutions (executions h ++ [{| e_call := call; e_method := actual; e_code := c; e_phase := Verifying |}])
          (setState (setLoading true) h))
    end
  end.

(** The [catch] and [finally] blocks. *)
Definition execution_failed (h : hook) : hook := setState (setLoading false) (did [Reported] h).

(** The answer of [verify] for the execution at a position. *)
Definition verify_answered (i : nat) (ok : bool) (h : hook) : hook :=
  match executions h !! i with
  | Some e =>
    if ok then
      did [Verified (e_method e); RanCall (e_call e)]
        (setExecutions (<[i := {| e_call := e_call e; e_method := e_method e; e_code := e_code e; e_phase := Calling |}]> (executions h)) h)
    else execution_failed (setExecutions (delete i (executions h)) h)
  | None => h
  end.

(** The answer of the protected call. *)
Definition call_answered (i : nat) (ok : bool) (h : hook) : hook :=
  match executions h !! i with
  | Some e =>
    let h := setExecutions (delete i (executions h)) h in
    if ok then setState (setLoading false) (reset (did [Succeeded (e_method e)] h))
    else execution_failed h
  | None => h
  end.

Definition setCode (c : jstr) : hook → hook :=
  setState (λ s, {| method := method s; loading := loading s; code := c; apiCall := apiCall s |}).

Definition switchMethod (m : VerificationMethod) : hook → hook :=
  setState (λ s, {| method := Some m; loading := loading s; code := []; apiCall := apiCall s |}).

Definition cancel : hook → hook := reset.

(** What the attempt without a verification gave: success, a response that may ask for a verification, or another
    error. *)
Inductive attempt := AttemptOk | AttemptResponse (r : option (Z * option jstr)).

(** [withVerification] makes the call at once. *)
Definition withVerification (call : C) (preferred : option VerificationMethod) (h : hook) : hook :=
  did [Tried call] (setAttempts (attempts h ++ [(call, preferred)]) h).

(** The answer for the attempt at a position; [available] is what the request for the methods then gives. *)
Definition attempt_answered (i : nat) (a : attempt) (available : VerificationMethods) (h : hook) : hook :=
  match attempts h !! i with
  | Some (call, preferred) =>
    let h := setAttempts (delete i (attempts h)) h in
    match a with
    | AttemptOk => h
    | AttemptResponse r => if isVerificationRequiredError r then startVerification call preferred available h else h
    end
  | None => h
  end.

(** ** The dialog *)

Definition availableTabs (m : VerificationMethods) : list VerificationMethod :=
  (if has2FA m then [TwoFA] else []) ++ (if hasPasskey m && passkeySupported m then [Passkey] else []).

Definition activeMethod (h : hook) : option VerificationMethod :=
  match method (state h) with Some m => Some m | None => head (availableTabs (methods h)) end.

Definition verifyDisabled (h : hook) : bool :=
  loading (state h) ||
  (bool_decide (activeMethod h = Some TwoFA) && (negb (nonempty (trim (code (state h)))) || (length (code (state h)) <? 6))).

(** The button is disabled without a tab. *)
Definition buttonDisabled (h : hook) : bool := (length (availableTabs (methods h)) =? 0) || verifyDisabled h.

Definition handleVerify (h : hook) : hook :=
  match activeMethod h with
  | None => h
  | Some m => executeVerification (Some m) (match m with TwoFA => Some (code (state h)) | Passkey => None end) h
  end.

(** ** The machine *)

Inductive event :=
  | Methods (m : VerificationMethods)
  | Start (call : C) (preferred : option VerificationMethod) (available : VerificationMethods)
  | Attempt (call : C) (preferred : option VerificationMethod)
  | AttemptAnswer (i : nat) (a : attempt) (available : VerificationMethods)
  | Press | VerifyAnswer (i : nat) (ok : bool) | CallAnswer (i : nat) (ok : bool)
  | Code (c : jstr) | Switch (m : VerificationMethod) | CancelButton | CloseDrawer | CloseCard.

Definition phase_of (h : hook) (i : nat) : option phase := e_phase <$> executions h !! i.

(** [None]: the event cannot happen.  [CloseDrawer] is the escape key in the drawer, which cancels; [CloseCard] the
    one in the card, which only hides the dialog. *)
Definition step (h : hook) (e : event) : option hook :=
  match e with
  | Methods m => Some (setMethods m h)
  | Start call preferred available => Some (startVerification call preferred available h)
  | Attempt call preferred => Some (withVerification call preferred h)
  | AttemptAnswer i a available =>
    match attempts h !! i with Some _ => Some (attempt_answered i a available h) | None => None end
  | Press => if open h && negb (buttonDisabled h) then Some (handleVerify h) else None
  | VerifyAnswer i ok => match phase_of h i with Some Verifying => Some (verify_answered i ok h) | _ => None end
  | CallAnswer i ok => match phase_of h i with Some Calling => Some (call_answered i ok h) | _ => None end
  | Code c => if open h && negb (loading (state h)) then Some (setCode c h) else None
  | Switch m => if open h && bool_decide (m ∈ availableTabs (methods h)) then Some (switchMethod m h) else None
  | CancelButton => if open h && negb (loading (state h)) then Some (cancel h) else None
  | CloseDrawer => if open h then Some (cancel h) else None
  | CloseCard => if open h then Some (setOpen false h) else None
  end.

Fixpoint run (h : hook) (es : list event) : option hook :=
  match es with
  | [] => Some h
  | e :: es => match step h e with Some h' => run h' es | None => None end
  end.

(** ** Invariants *)

(** The calls that were to be protected. *)
Definition started (es : list event) : list C :=
  omap (λ e, match e with Start c _ _ | Attempt c _ => Some c | _ => None end) es.

(** The calls that were attempted without a verification: by the events, and by what the hook did. *)
Definition attempted (es : list event) : list C := omap (λ e, match e with Attempt c _ => Some c | _ => None end) es.
Definition tried (l : list action) : list C := omap (λ a, match a with Tried c => Some c | _ => None end) l.

Inductive reaches : list event → hook → Prop :=
  | reaches_mounted : reaches [] mounted
  | reaches_step es h e h' : reaches es h → step h e = Some h' → reaches (es ++ [e]) h'.

Lemma session_reaches es0 h0 es h : reaches es0 h0 → run h0 es = Some h → reaches (es0 ++ es) h.
Proof.
  revert es0 h0. induction es as [|e es IH]; intros es0 h0 H0 Hr; cbn in Hr; [rewrite app_nil_r; congruence|].
  destruct (step h0 e) as [h1|] eqn:E; [|done]. replace (es0 ++ e :: es) with ((es0 ++ [e]) ++ es) by (by rewrite <- app_assoc).
  apply (IH _ h1); [|done]. by eapply reaches_step.
Qed.

(** Every call that was run follows a verification that was sent and confirmed. *)
Fixpoint calls_ok (P : C → Prop) (prev l : list action) : Prop :=
  match l with
  | [] => True
  | a :: l =>
    match a with
    | RanCall c => P c ∧ ∃ l0 m code, prev = l0 ++ [Verified m] ∧ SentVerify m code ∈ l0
    | _ => True
    end ∧ calls_ok P (prev ++ [a]) l
  end.

Lemma calls_ok_app P prev a b : calls_ok P prev (a ++ b) ↔ calls_ok P prev a ∧ calls_ok P (prev ++ a) b.
Proof.
  revert prev. induction a as [|x a IH]; intros prev; cbn [app calls_ok]; [rewrite app_nil_r; tauto|].
  rewrite IH, <- app_assoc. cbn [app]. tauto.
Qed.

Lemma calls_ok_mono (P Q : C → Prop) prev l : (∀ c, P c → Q c) → calls_ok P prev l → calls_ok Q prev l.
Proof.
  intros HPQ. revert prev. induction l as [|x l IH]; intros prev; cbn [calls_ok]; [done|]. intros [Hx Hl]. split; [|by apply IH].
  destruct x; try done. destruct Hx as [Hc Hx]. split; [by apply HPQ|done].
Qed.

Definition is_ran (a : action) : bool := match a with RanCall _ => true | _ => false end.
Definition is_sent (a : action) : bool := match a with SentVerify _ _ => true | _ => false end.
Definition is_verifying (e : execution) : bool := match e_phase e with Verifying => true | Calling => false end.

Definition count {A} (p : A → bool) (l : list A) : nat := length (List.filter p l).

Lemma count_app {A} (p : A → bool) a b : count p (a ++ b) = count p a + count p b.
Proof. unfold count. by rewrite List.filter_app, length_app. Qed.

Record inv (es : list event) (h : hook) : Prop := {
  i_exec : Forall (λ e, SentVerify (e_method e) (e_code e) ∈ actions h ∧ e_call e ∈ started es) (executions h);
  i_attempts : Forall (λ a, a.1 ∈ started es) (attempts h);
  i_tried : tried (actions h) = attempted es;
  i_state c : apiCall (state h) = Some c → c ∈ started es;
  i_open : open h = true → is_Some (apiCall (state h));
  i_load : executions h = [] → loading (state h) = false;
  i_ran : calls_ok (λ c, c ∈ started es) [] (actions h);
  i_count : count is_ran (actions h) + count is_verifying (executions h) ≤ count is_sent (actions h);
}.

Lemma started_snoc es e c : c ∈ started es → c ∈ started (es ++ [e]).
Proof. unfold started. rewrite omap_app. set_solver. Qed.

(** More events keep the invariant of a state, apart from an attempt. *)
Lemma inv_more es e h : attempted [e] = [] → inv es h → inv (es ++ [e]) h.
Proof.
  intros He [H1 Ha Ht H2 H3 H4 H5 H6]. split; try done.
  - eapply Forall_impl; [exact H1|]. intros x [Hx Hc]. split; [done|by apply started_snoc].
  - eapply Forall_impl; [exact Ha|]. intros x. apply started_snoc.
  - unfold attempted in *. by rewrite omap_app, He, app_nil_r.
  - intros c Hc. by apply started_snoc, H2.
  - eapply calls_ok_mono; [|exact H5]. intros c. apply started_snoc.
Qed.

Definition is_tried (a : action) : bool := match a with Tried _ => true | _ => false end.

(** An outcome that is no call changes nothing. *)
Lemma inv_did es l h : Forall (λ a, is_ran a = false ∧ is_sent a = false ∧ is_tried a = false) l → inv es h → inv es (did l h).
Proof.
  intros Hl [H1 Hat Ht H2 H3 H4 H5 H6]. split; cbn [did attempts executions state actions open]; try done.
  - eapply Forall_impl; [exact H1|]. intros x [Hx Hc]. split; [set_solver|done].
  - unfold tried in *. rewrite omap_app, Ht. assert (omap (λ a, match a with Tried c => Some c | _ => None end) l = []) as ->; [|apply app_nil_r].
    clear -Hl. induction Hl as [|a l (_ & _ & Ha) Hl IH]; [done|]. by destruct a.
  - apply calls_ok_app. split; [done|]. cbn [app]. clear -Hl. generalize (actions h). induction Hl as [|a l [Ha _] Hl IH]; intros prev; cbn; [done|].
    split; [by destruct a|apply IH].
  - rewrite !count_app. assert (count is_ran l = 0 ∧ count is_sent l = 0) as [-> ->]; [|lia].
    clear -Hl. induction Hl as [|a l (Ha & Hb & _) Hl [IH1 IH2]]; [done|]. unfold count in *. cbn [List.filter]. by rewrite Ha, Hb.
Qed.

Lemma inv_methods es m h : inv es h → inv es (setMethods m h).
Proof. by intros [H1 Hat Htr H2 H3 H4 H5 H6]. Qed.

Lemma inv_state es f h :
  (∀ c, apiCall (f (state h)) = Some c → c ∈ started es) → (is_Some (apiCall (state h)) → is_Some (apiCall (f (state h)))) →
  (loading (state h) = false → loading (f (state h)) = false) → inv es h → inv es (setState f h).
Proof. intros Hc Ho Hl [H1 Hat Htr H2 H3 H4 H5 H6]. split; cbn [setState state open attempts executions actions]; auto. Qed.

Lemma inv_close es h : inv es h → inv es (setOpen false h).
Proof. by intros [H1 Hat Htr H2 H3 H4 H5 H6]. Qed.

Lemma inv_reset es h : inv es h → inv es (reset h).
Proof. intros [H1 Hat Htr H2 H3 H4 H5 H6]. by split. Qed.

Lemma count_cons {A} (p : A → bool) x l : count p (x :: l) = (if p x then 1 else 0) + count p l.
Proof. unfold count. cbn [List.filter]. by destruct (p x). Qed.

(** An execution that ends. *)
Lemma inv_end es i h : inv es h → inv es (setState (setLoading false) (setExecutions (delete i (executions h)) h)).
Proof.
  intros [H1 Hat Htr H2 H3 H4 H5 H6]. split; cbn [setState setExecutions state setLoading apiCall loading open attempts executions actions]; try done.
  - by apply Forall_delete.
  - rewrite delete_take_drop, count_app. rewrite <- (take_drop i (executions h)), count_app in H6.
    assert (count is_verifying (drop (S i) (executions h)) ≤ count is_verifying (drop i (executions h))); [|lia].
    destruct (executions h !! i) as [e|] eqn:E; [rewrite (drop_S _ _ _ E), count_cons; lia|].
    apply lookup_ge_None in E. by rewrite !drop_ge by lia.
Qed.

Lemma inv_start es call preferred available h : inv es h → call ∈ started es → inv es (startVerification call preferred available h).
Proof.
  intros Hi Hc. unfold startVerification. destruct (negb _ && negb _); [by apply inv_did; [repeat constructor|apply inv_methods]|].
  destruct Hi as [H1 Hat Htr H2 H3 H4 H5 H6]. split; cbn [setOpen setState setMethods state open attempts executions actions apiCall loading]; try done.
  by intros c [= <-].
Qed.

Lemma inv_execute es m c h : inv es h → inv es (executeVerification m c h).
Proof.
  intros Hi. unfold executeVerification. destruct (apiCall (state h)) as [call|] eqn:Ec; [|by apply inv_did; [repeat constructor|]].
  destruct (match m with Some _ => _ | None => _ end) as [actual|]; [|by apply inv_did; [repeat constructor|]].
  destruct Hi as [H1 Hat Htr H2 H3 H4 H5 H6]. set (k := default (code (state h)) c).
  split; cbn [did setExecutions setState setLoading state open attempts executions actions apiCall loading].
  - apply Forall_app. split.
    + eapply Forall_impl; [exact H1|]. intros x [Hx Hx']. split; [set_solver|done].
    + apply Forall_singleton. cbn [e_method e_code e_call]. split; [set_solver|by apply H2].
  - done.
  - unfold tried in *. by rewrite omap_app, Htr, app_nil_r.
  - intros c' Hc'. by apply H2.
  - intros Ho. by apply H3.
  - intros E. by destruct (executions h).
  - apply calls_ok_app. by split.
  - rewrite !count_app. cbn. lia.
Qed.

Lemma inv_verified es i ok h : inv es h → phase_of h i = Some Verifying → inv es (verify_answered i ok h).
Proof.
  intros Hi Hp. unfold phase_of in Hp. unfold verify_answered. destruct (executions h !! i) as [e|] eqn:E; [|done]. injection Hp as Hp.
  destruct ok; [|change (inv es (did [Reported] (setState (setLoading false) (setExecutions (delete i (executions h)) h))));
                 apply inv_did; [repeat constructor|by apply inv_end]].
  assert (i < length (executions h)) as Hlt by (by eapply lookup_lt_Some).
  destruct Hi as [H1 Hat Htr H2 H3 H4 H5 H6]. assert (SentVerify (e_method e) (e_code e) ∈ actions h ∧ e_call e ∈ started es) as [Hs Hc].
  { rewrite Forall_forall in H1. apply H1. by eapply list_elem_of_lookup_2. }
  split; cbn [did setExecutions state open attempts executions actions apiCall loading]; try done.
  - apply Forall_insert; [|cbn; split; [set_solver|done]]. eapply Forall_impl; [exact H1|]. intros x [Hx Hx']. split; [set_solver|done].
  - unfold tried in *. by rewrite omap_app, Htr, app_nil_r.
  - intros En. apply (f_equal length) in En. rewrite length_insert in En. cbn in En. lia.
  - apply calls_ok_app. split; [done|]. cbn [app calls_ok]. split_and!; [done|done| |done]. by exists (actions h), (e_method e), (e_code e).
  - rewrite insert_take_drop, !count_app, !count_cons by done. rewrite <- (take_drop_middle _ _ _ E), !count_app, !count_cons in H6.
    unfold is_verifying at 2. cbn [e_phase]. unfold is_verifying at 2 in H6. rewrite Hp in H6. cbn. lia.
Qed.

Lemma inv_called es i ok h : inv es h → inv es (call_answered i ok h).
Proof.
  intros Hi. unfold call_answered. destruct (executions h !! i) as [e|] eqn:E; [|done]. pose proof (inv_end es i h Hi) as He. destruct ok.
  - change (inv es (did [Succeeded (e_method e)] (reset (setState (setLoading false) (setExecutions (delete i (executions h)) h))))).
    apply inv_did; [repeat constructor|]. by apply inv_reset.
  - change (inv es (did [Reported] (setState (setLoading false) (setExecutions (delete i (executions h)) h)))).
    apply inv_did; [repeat constructor|done].
Qed.

Lemma inv_attempt es call p h : inv es h → inv (es ++ [Attempt call p]) (withVerification call p h).
Proof.
  intros [H1 Hat Htr H2 H3 H4 H5 H6]. unfold withVerification.
  assert (call ∈ started (es ++ [Attempt call p])) as Hc by (unfold started; rewrite omap_app; set_solver).
  split; cbn [did setAttempts state open attempts executions actions]; try done.
  - eapply Forall_impl; [exact H1|]. intros x [Hx Hx']. split; [set_solver|by apply started_snoc].
  - apply Forall_app. split; [eapply Forall_impl; [exact Hat|]; intros x; apply started_snoc|by apply Forall_singleton].
  - unfold tried, attempted in *. by rewrite !omap_app, Htr.
  - intros c Hs. by apply started_snoc, H2.
  - apply calls_ok_app. split; [|done]. eapply calls_ok_mono; [|exact H5]. intros c. apply started_snoc.
  - rewrite !count_app. cbn. lia.
Qed.

Lemma inv_attempted es i a av h : inv es h → inv es (attempt_answered i a av h).
Proof.
  intros Hi. unfold attempt_answered. destruct (attempts h !! i) as [[call p]|] eqn:E; [|done].
  assert (inv es (setAttempts (delete i (attempts h)) h)) as Hd.
  { destruct Hi as [H1 Hat Htr H2 H3 H4 H5 H6]. split; cbn [setAttempts attempts]; try done. by apply Forall_delete. }
  destruct a as [|r]; [done|]. destruct (isVerificationRequiredError r); [|done]. apply inv_start; [done|].
  exact (Forall_lookup_1 _ _ _ _ (i_attempts _ _ Hi) E).
Qed.

Lemma inv_step es h e h' : inv es h → step h e = Some h' → inv (es ++ [e]) h'.
Proof.
  intros Hi E. pose proof (λ He, inv_more _ e _ He Hi) as Hm.
  destruct e as [m|call p av|call p|i a av| |i ok|i ok|c|m| | |]; try specialize (Hm eq_refl); cbn [step] in E;
    repeat match type of E with
    | (if ?b then _ else _) = Some _ => destruct b eqn:?
    | match ?o with _ => _ end = Some _ => destruct o eqn:?
    end; try discriminate E; injection E as <-.
  - by apply inv_methods.
  - apply inv_start; [done|]. unfold started. rewrite omap_app. set_solver.
  - by apply inv_attempt.
  - by apply inv_attempted.
  - unfold handleVerify. destruct (activeMethod h); [by apply inv_execute|done].
  - by apply inv_verified.
  - by apply inv_called.
  - apply inv_state; try done. cbn. apply Hm.
  - apply inv_state; try done. cbn. apply Hm.
  - by apply inv_reset.
  - by apply inv_reset.
  - by apply inv_close.
Qed.

Lemma reaches_inv es h : reaches es h → inv es h.
Proof. induction 1 as [|es h e h' Hr IH E]; [by split|by eapply inv_step]. Qed.

Lemma calls_ok_at P prev l l1 c l2 : calls_ok P prev l → l = l1 ++ RanCall c :: l2 →
  P c ∧ ∃ l0 m code, prev ++ l1 = l0 ++ [Verified m] ∧ SentVerify m code ∈ l0.
Proof. intros H ->. apply calls_ok_app in H as [_ H]. by destruct H as [H _]. Qed.

(** A press of the button of the open dialog. *)
Lemma press_sends h : is_Some (apiCall (state h)) → buttonDisabled h = false →
  ∃ m k c, apiCall (state h) = Some c ∧ activeMethod h = Some m ∧
    actions (handleVerify h) = actions h ++ [SentVerify m k] ∧
    executions (handleVerify h) = executions h ++ [{| e_call := c; e_method := m; e_code := k; e_phase := Verifying |}] ∧
    (m = TwoFA → k = code (state h) ∧ trim k ≠ []).
Proof.
  intros [c Hc] Hb. unfold buttonDisabled, verifyDisabled in Hb. apply orb_false_iff in Hb as [Ht Hb]. apply orb_false_iff in Hb as [_ Hb].
  unfold handleVerify. destruct (activeMethod h) as [m|] eqn:Em.
  2: { unfold activeMethod in Em. destruct (method (state h)); [done|]. by destruct (availableTabs (methods h)). }
  unfold executeVerification. rewrite Hc. exists m, (default (code (state h)) (match m with TwoFA => Some (code (state h)) | Passkey => None end)), c.
  split_and!; try done. intros ->. split; [done|]. cbn [default]. rewrite bool_decide_eq_true_2 in Hb by done. cbn [andb] in Hb.
  apply orb_false_iff in Hb as [Hb _]. apply negb_false_iff, nonempty_spec in Hb. done.
Qed.

(** C20: When a protected call is run. After any events, the calls that were run without a verification are exactly the
    attempts that [withVerification] makes first, one for each time that it was used (there the server decides whether
    a verification is needed); every other call that the hook ran was passed to it before, and directly follows a
    confirmed verification that was sent before, and at most one such call is run for each verification that was
    sent. When no execution is under way the dialog is not waiting; an open dialog has a call that was passed to the
    hook, and pressing its button sends a verification for exactly that call, with a code that is not blank when the
    method is an authenticator. A call that succeeds after its verification closes the dialog and clears the code. *)
Theorem calls_verified es h : reaches es h →
  tried (actions h) = attempted es ∧
  (∀ l1 c l2, actions h = l1 ++ RanCall c :: l2 →
     c ∈ started es ∧ ∃ l0 m code, l1 = l0 ++ [Verified m] ∧ SentVerify m code ∈ l0) ∧
  count is_ran (actions h) ≤ count is_sent (actions h) ∧
  (executions h = [] → loading (state h) = false) ∧
  (open h = true → ∃ c, apiCall (state h) = Some c ∧ c ∈ started es) ∧
  (∀ h', step h Press = Some h' → ∃ m k c, apiCall (state h) = Some c ∧ actions h' = actions h ++ [SentVerify m k] ∧
     executions h' = executions h ++ [{| e_call := c; e_method := m; e_code := k; e_phase := Verifying |}] ∧ (m = TwoFA → trim k ≠ [])) ∧
  (∀ i h', step h (CallAnswer i true) = Some h' → state h' = initialState ∧ open h' = false).
Proof.
  intros Hr. pose proof (reaches_inv es h Hr) as Hi. split_and!.
  - apply Hi.
  - intros l1 c l2 E. by apply (calls_ok_at _ [] (actions h) l1 c l2 (i_ran _ _ Hi)).
  - pose proof (i_count _ _ Hi). lia.
  - apply Hi.
  - intros [c Hc]%(i_open _ _ Hi). exists c. split; [done|by apply (i_state _ _ Hi)].
  - intros h' E. cbn [step] in E. destruct (open h && negb (buttonDisabled h)) eqn:Eb; [|done]. apply andb_true_iff in Eb as [Ho Eb].
    injection E as <-. apply negb_true_iff in Eb. destruct (press_sends h (i_open _ _ Hi Ho) Eb) as (m & k & c & H1 & _ & H2 & H3 & H4).
    exists m, k, c. split_and!; try done. by intros [_ Hm]%H4.
  - intros i h' E. cbn [step] in E. unfold phase_of, call_answered in E. destruct (executions h !! i) as [e|]; [|done]. cbn in E.
    destruct (e_phase e); [done|]. by injection E as <-.
Qed.
End verification.

(** ** The two-factor request *)

(** [verifyTwoFA]: the code that is sent, or nothing when the function throws. *)
Definition verifyTwoFA_code (code : option jstr) : option jstr :=
  let trimmed := trim (default [] code) in if nonempty trimmed then Some trimmed else None.

(** ** Sessions *)

Definition both : VerificationMethods := {| has2FA := true; hasPasskey := true; passkeySupported := true |}.
Definition only_2fa : VerificationMethods := {| has2FA := true; hasPasskey := false; passkeySupported := true |}.
Definition foreign_passkey : VerificationMethods := {| has2FA := false; hasPasskey := true; passkeySupported := false |}.

(** The drawer asks for a key (call 1) and the server for a verification. *)
Definition reveal_key (m : VerificationMethods) (es : list (event (C := nat))) : list (event (C := nat)) :=
  [Attempt 1 (Some Passkey); AttemptAnswer 0 (AttemptResponse (Some (403%Z, Some (js "VERIFICATION_REQUIRED")))) m] ++ es.

Definition revealed : list (event (C := nat)) := reveal_key both [Press; VerifyAnswer 0 true; CallAnswer 0 true].

Lemma calls_verified_witness :
  ∃ h, run mounted revealed = Some h ∧ actions h = [Tried 1; SentVerify Passkey []; Verified Passkey; RanCall 1; Succeeded Passkey] ∧ 1 ∈ started revealed.
Proof.
  destruct (run mounted revealed) as [h|] eqn:E; [|vm_compute in E; discriminate E]. exists h.
  assert (actions h = [Tried 1; SentVerify Passkey []; Verified Passkey; RanCall 1; Succeeded Passkey]) as Ha by (vm_compute in E; by injection E as <-).
  split_and!; [done..|]. destruct (calls_verified revealed h) as (_ & H & _); [exact (session_reaches [] mounted revealed h reaches_mounted E)|].
  exact (proj1 (H [Tried 1; SentVerify Passkey []; Verified Passkey] 1 [Succeeded Passkey] Ha)).
Defined.

(** A verification that was cancelled with the escape key while it was checked still runs its call. *)
Theorem cancelled_call_runs :
  (λ h, (open h, actions h)) <$> run mounted (reveal_key both [Press; CloseDrawer; VerifyAnswer 0 true]) =
  Some (false, [Tried 1; SentVerify Passkey []; Verified Passkey; RanCall 1]).
Proof. vm_compute. reflexivity. Qed.

(** When it ends, it closes the dialog of the verification that was started in the meantime. *)
Theorem finished_closes_other :
  (λ h, (open h, apiCall (state h))) <$>
    run mounted (reveal_key both [Press; CloseDrawer; Start 2 None both; VerifyAnswer 0 true; CallAnswer 0 true]) = Some (false, None).
Proof. vm_compute. reflexivity. Qed.

(** The drawer prefers a passkey: a user who only has an authenticator gets a dialog on the method that is not
    among its tabs, and pressing the button asks for the passkey. *)
Theorem preferred_method_unavailable :
  (λ h, (activeMethod h, availableTabs (methods h), actions h)) <$> run mounted (reveal_key only_2fa [Press]) =
  Some (Some Passkey, [TwoFA], [Tried 1; SentVerify Passkey []]).
Proof. vm_compute. reflexivity. Qed.

(** A user whose only method is a passkey that this device does not support gets a dialog without any method. *)
Theorem dialog_without_method :
  (λ h, (open h, method (state h), availableTabs (methods h))) <$> run mounted [Start 1 None foreign_passkey] = Some (true, None, []).
Proof. vm_compute. reflexivity. Qed.

(** Hiding the dialog of the card keeps the code, and the next verification shows it. *)
Theorem code_kept_after_closing :
  (λ h, (open h, code (state h))) <$> run mounted [Start 1 (Some TwoFA) both; Code (js "123456"); CloseCard; Start 2 (Some TwoFA) both] =
  Some (true, js "123456").
Proof. vm_compute. reflexivity. Qed.

(** The code of a press is one that is sent. *)
Theorem pressed_code_sent {C} (h : hook (C := C)) : activeMethod h = Some TwoFA → verifyDisabled h = false →
  verifyTwoFA_code (Some (code (state h))) = Some (trim (code (state h))).
Proof.
  intros Hm Hd. unfold verifyDisabled in Hd. rewrite bool_decide_eq_true_2 in Hd by done. apply orb_false_iff in Hd as [_ Hd]. cbn [andb] in Hd.
  apply orb_false_iff in Hd as [Hd _]. apply negb_false_iff in Hd. unfold verifyTwoFA_code.
  change (default [] (Some (code (state h)))) with (code (state h)). by rewrite Hd.
Qed.
