(* ===== verification/PriceDisplay.v ===== *)
(** * Prices in the model catalogue

    Model of [web/default/src/features/pricing/lib/price.ts]: the price of a model for
    tokens or for requests, for one group or for the cheapest one, with the recharge rate, as
    the text that [Currency] formats.  A group whose name is a property of
    [Object.prototype] is found there. *)

From Stdlib Require Import NArith ZArith SpecFloat Reals.
From S2P Require Import Prelude JsString JsRegExp JsNumber NumRounding Json Currency.

(** ** Data *)

Inductive TokenUnit := UnitM | UnitK.

Definition TOKEN_UNIT_DIVISORS (u : TokenUnit) : num := match u with UnitM => num_of_Z 1 | UnitK => num_of_Z 1000 end.

Definition QUOTA_REQUEST : Z := 1.

Inductive PriceType := PInput | POutput | PCache | PCreateCache | PImage | PAudioInput | PAudioOutput.

(** The fields of a model that prices depend on; [None] is null or missing. *)
Record PricedModel := {
  quota_type : Z;
  model_ratio : num;
  completion_ratio : num;
  model_price : option num;
  cache_ratio : option num;
  create_cache_ratio : option num;
  image_ratio : option num;
  audio_ratio : option num;
  audio_completion_ratio : option num;
  enable_groups : option (list jstr);
  group_ratio : option (list (jstr * num));
}.

(** [groupRatio[group]]: a number, something of the prototype, which is not a number, or nothing. *)
Inductive found := Ratio (x : num) | Foreign | Missing.

Definition ratio_at (groupRatio : list (jstr * num)) (group : jstr) : found :=
  match obj_get group groupRatio with
  | Some x => Ratio x
  | None => if inherited group then Foreign else Missing
  end.

(** ** Trailing zeros *)

(** The pattern of a price: a symbol without digits and minus signs, a number that may have commas, and an optional [k]. *)
Definition price_re : regex :=
  rseq [RBol; RGroup 1 (RStar (RSet (λ c, negb (is_digit c) && negb (c =? 45)%N)));
        RGroup 2 (rseq [RPlus (RSet (λ c, (c =? 45)%N || is_digit c || (c =? 44)%N)); ROpt (rlit (js ".")); RStar RDigit]);
        RGroup 3 (ROpt (rlit (js "k"))); REol].

(** [s.replace(/\.?0+$/, '')]. *)
Definition drop_zeros (s : jstr) : jstr :=
  match re_exec (rseq [ROpt (rlit (js ".")); RPlus (RSet (N.eqb 48)); REol]) None s with
  | Some (before, st) => before ++ m_rest st
  | None => s
  end.

Definition stripTrailingZeros (formatted : jstr) : jstr :=
  match re_find price_re formatted with
  | None => formatted
  | Some st =>
    let cleanNumber := List.filter (λ c, negb (c =? 44)%N) (capt st 2) in
    let parsed := parseFloat cleanNumber in
    if is_nan parsed then formatted
    else
      let result := num_to_string parsed in
      let result := if includes (js "e") result then drop_zeros (toFixed parsed 20) else result in
      capt st 1 ++ result ++ capt st 3
  end.

(** ** Calculation *)

(** The loop keeps the smaller ratio. *)
Definition min_step (groupRatio : list (jstr * num)) (minRatio : num) (group : jstr) : num :=
  match ratio_at groupRatio group with Ratio x => if nlt x minRatio then x else minRatio | _ => minRatio end.

Definition getMinGroupRatio (enableGroups : list jstr) (groupRatio : list (jstr * num)) : num :=
  match enableGroups with
  | [] => num_of_Z 1
  | _ =>
    let minRatio := foldl (min_step groupRatio) ninf enableGroups in
    if num_eqb minRatio ninf then num_of_Z 1 else minRatio
  end.

Definition hasRatio (value : option num) : bool := match value with Some x => is_finite x | None => false end.

(** [hasRatio(v) ? base * Number(v) : NaN]. *)
Definition times_ratio (base : num) (value : option num) : num :=
  match value with Some x => if is_finite x then nmul base x else S754_nan | None => S754_nan end.

Definition calculateTokenPrice (model : PricedModel) (type : PriceType) (ratio : num) : num :=
  let base := nmul (nmul (model_ratio model) (num_of_Z 2)) ratio in
  match type with
  | PInput => base
  | POutput => nmul base (completion_ratio model)
  | PCache => times_ratio base (cache_ratio model)
  | PCreateCache => times_ratio base (create_cache_ratio model)
  | PImage => times_ratio base (image_ratio model)
  | PAudioInput => times_ratio base (audio_ratio model)
  | PAudioOutput =>
    match audio_ratio model, audio_completion_ratio model with
    | Some a, Some c => if is_finite a && is_finite c then nmul (nmul base a) c else S754_nan
    | _, _ => S754_nan
    end
  end.

(** [priceRate] and [usdExchangeRate], when prices are shown with the recharge rate. *)
Definition applyRechargeRate (price : num) (recharge : option (num * num)) : num :=
  match recharge with
  | None => price
  | Some (priceRate, usdExchangeRate) => ndiv (nmul price priceRate) usdExchangeRate
  end.

(** [groupRatio[group] || 1]; what is not a number gives NaN in the product that follows. *)
Definition ratio_or_one (groupRatio : list (jstr * num)) (group : jstr) : num :=
  match ratio_at groupRatio group with
  | Ratio x => if num_truthy x then x else num_of_Z 1
  | Foreign => S754_nan
  | Missing => num_of_Z 1
  end.

Section texts.
Context (i : intl) (store : option CurrencyConfig).

Definition price_options (small : nat) : given_options :=
  {| g_large := Some 4%nat; g_small := Some small; g_abbreviate := Some false; g_minimum := None |}.

(** The common end of the four functions. *)
Definition token_text (model : PricedModel) (type : PriceType) (unit : TokenUnit) (recharge : option (num * num)) (ratio : num) : jstr :=
  let priceInUSD := applyRechargeRate (calculateTokenPrice model type ratio) recharge in
  formatCurrencyFromUSD i store (Some (ndiv priceInUSD (TOKEN_UNIT_DIVISORS unit))) (Some (price_options 6)).

Definition request_text (model : PricedModel) (recharge : option (num * num)) (ratio : num) : jstr :=
  let priceInUSD := applyRechargeRate (nmul (num_or0 (default nzero (model_price model))) ratio) recharge in
  formatCurrencyFromUSD i store (Some priceInUSD) (Some (price_options 4)).

Definition model_min_ratio (model : PricedModel) : num :=
  getMinGroupRatio (default [] (enable_groups model)) (default [] (group_ratio model)).

Definition formatPrice (model : PricedModel) (type : PriceType) (unit : TokenUnit) (recharge : option (num * num)) : jstr :=
  if (quota_type model =? QUOTA_REQUEST)%Z then js "-" else token_text model type unit recharge (model_min_ratio model).

Definition formatGroupPrice (model : PricedModel) (group : jstr) (type : PriceType) (unit : TokenUnit) (recharge : option (num * num))
    (groupRatio : list (jstr * num)) : jstr :=
  if (quota_type model =? QUOTA_REQUEST)%Z then js "-" else token_text model type unit recharge (ratio_or_one groupRatio group).

Definition formatFixedPrice (model : PricedModel) (group : jstr) (recharge : option (num * num)) (groupRatio : list (jstr * num)) : jstr :=
  if negb (quota_type model =? QUOTA_REQUEST)%Z then js "-" else request_text model recharge (ratio_or_one groupRatio group).

Definition formatRequestPrice (model : PricedModel) (recharge : option (num * num)) : jstr :=
  if negb (quota_type model =? QUOTA_REQUEST)%Z then js "-" else request_text model recharge (model_min_ratio model).
End texts.

(** ** The cheapest group *)
Lemma min_fold_spec gr groups m : is_nan m = false →
  let r := foldl (min_step gr) m groups in
  (r = m ∨ ∃ g, g ∈ groups ∧ ratio_at gr g = Ratio r) ∧ nlt m r = false ∧
  ∀ g x, g ∈ groups → ratio_at gr g = Ratio x → nlt x r = false.
Proof.
  revert m. induction groups as [|g groups IH]; intros m Hm; cbn [foldl].
  { split_and!; [by left|apply nlt_irrefl|]. by intros g x ?%elem_of_nil. }
  assert (is_nan (min_step gr m g) = false ∧ nlt m (min_step gr m g) = false ∧
    (min_step gr m g = m ∨ ratio_at gr g = Ratio (min_step gr m g)) ∧ ∀ x, ratio_at gr g = Ratio x → nlt x (min_step gr m g) = false) as (Hn & Hle & Hor & Hx).
  { unfold min_step. destruct (ratio_at gr g) as [x| |]; [|by split_and!; [|apply nlt_irrefl|left|]..].
    destruct (nlt x m) eqn:E.
    - split_and!; [by eapply nlt_not_nan| |by right|by intros y [= <-]; apply nlt_irrefl].
      destruct (nlt m x) eqn:E'; [|done]. pose proof (nlt_trans _ _ _ E E') as H. by rewrite nlt_irrefl in H.
    - split_and!; [done|apply nlt_irrefl|by left|by intros y [= <-]]. }
  destruct (IH _ Hn) as (H1 & H2 & H3). set (m' := min_step gr m g) in *. set (r := foldl (min_step gr) m' groups) in *.
  assert (∀ x, nlt x m' = false → nlt x r = false) as Hmono.
  { intros x Hxm. destruct (nlt x r) eqn:E; [|done]. destruct (nlt_cotrans x m' r Hn E) as [E'|E']; congruence. }
  split_and!.
  - destruct H1 as [->|(g' & Hg' & Hr)]; [|right; exists g'; set_solver]. destruct Hor as [->|Hr]; [by left|]. right. exists g. set_solver.
  - by apply Hmono.
  - intros g' x [->|Hg']%elem_of_cons Hr; [apply Hmono; by apply Hx|by apply (H3 g')].
Qed.

(** C21: The price in the catalogue is the one of the cheapest group. Either no enabled group has a ratio, and the
    model is shown with the ratio 1; or some enabled group has the ratio that is used, no enabled group has a smaller
    one, and unless that ratio is 0 every price of the catalogue, for tokens of every kind and unit or for requests,
    with or without the recharge rate, is the price that the details show for that group. *)
Theorem cheapest_group_shown model :
  let groups := default [] (enable_groups model) in
  let gr := default [] (group_ratio model) in
  let r := model_min_ratio model in
  (r = num_of_Z 1 ∧ ∀ g x, g ∈ groups → ratio_at gr g = Ratio x → nlt x ninf = false) ∨
  (∃ g, g ∈ groups ∧ ratio_at gr g = Ratio r ∧
    (∀ g' x, g' ∈ groups → ratio_at gr g' = Ratio x → nlt x r = false) ∧
    (num_truthy r = true → ∀ i store recharge,
       (∀ type unit, formatPrice i store model type unit recharge = formatGroupPrice i store model g type unit recharge gr) ∧
       formatRequestPrice i store model recharge = formatFixedPrice i store model g recharge gr)).
Proof.
  intros groups gr r. destruct (min_fold_spec gr groups ninf eq_refl) as (H1 & _ & H3). set (m := foldl (min_step gr) ninf groups) in *.
  assert (r = if num_eqb m ninf then num_of_Z 1 else m) as Er.
  { unfold r, model_min_ratio, getMinGroupRatio. fold groups gr. unfold m. by destruct groups. }
  destruct (num_eqb m ninf) eqn:E.
  - left. split; [done|]. intros g x Hg Hx. specialize (H3 g x Hg Hx). by destruct m as [| [] | |].
  - right. destruct H1 as [H1|(g & Hg & Hr)]; [rewrite H1 in E; discriminate E|]. rewrite <- Er in *. exists g. split_and!; [done..|].
    intros Ht i store recharge. assert (ratio_or_one gr g = r) as Eo by (unfold ratio_or_one; by rewrite Hr, Ht).
    unfold formatPrice, formatGroupPrice, formatRequestPrice, formatFixedPrice. by rewrite Eo.
Qed.

(** ** Examples *)

Definition demo_intl : intl := {| intl_currency := λ c d x, c ++ js " " ++ toFixed x d; intl_decimal := λ d x, toFixed x d |}.

Definition demo_priced (groups : list (jstr * num)) : PricedModel := {|
  quota_type := 0; model_ratio := num_of_Z 1; completion_ratio := num_of_Z 4; model_price := None; cache_ratio := None;
  create_cache_ratio := None; image_ratio := None; audio_ratio := None; audio_completion_ratio := None;
  enable_groups := Some (map fst groups); group_ratio := Some groups |}.

Lemma cheapest_group_shown_witness :
  let model := demo_priced [(js "default", num_of_Z 1); (js "vip", dec_to_num false 5 (-1))] in
  formatPrice demo_intl None model POutput UnitM None = js "USD 4.0000" ∧
  ∃ g, g ∈ [js "default"; js "vip"] ∧
    formatGroupPrice demo_intl None model g POutput UnitM None (default [] (group_ratio model)) = js "USD 4.0000".
Proof.
  set (model := demo_priced _). assert (formatPrice demo_intl None model POutput UnitM None = js "USD 4.0000") as Hp by (vm_compute; reflexivity).
  split; [exact Hp|]. destruct (cheapest_group_shown model) as [[Hr _]|(g & Hg & _ & _ & Heq)]; [vm_compute in Hr; discriminate Hr|].
  exists g. split; [exact Hg|]. rewrite <- Hp. symmetry. apply Heq. vm_compute. reflexivity.
Defined.

(** A group with the ratio 0 is free: the catalogue shows the price 0, the details of the group the full price. *)
Theorem free_group_full_price :
  let model := demo_priced [(js "default", num_of_Z 1); (js "free", nzero)] in
  formatPrice demo_intl None model PInput UnitM None = js "USD 0.000000" ∧
  formatGroupPrice demo_intl None model (js "free") PInput UnitM None (default [] (group_ratio model)) = js "USD 2.0000".
Proof. split; vm_compute; reflexivity. Qed.

(** A price whose ratio is missing is shown as a dash. *)
Theorem missing_ratio_dash i store model unit recharge : cache_ratio model = None → quota_type model ≠ QUOTA_REQUEST →
  formatPrice i store model PCache unit recharge = js "-".
Proof.
  intros Hc Hq. unfold formatPrice. destruct (Z.eqb_spec (quota_type model) QUOTA_REQUEST) as [|_]; [done|].
  unfold token_text, calculateTokenPrice. rewrite Hc. cbn [times_ratio]. destruct recharge as [[a b]|]; cbn [applyRechargeRate]; [|by destruct unit].
  assert (ndiv (nmul S754_nan a) b = S754_nan) as -> by (by destruct a, b). by destruct unit.
Qed.

(** The two examples of the comment: half a dollar for a dollar, and four yuan instead of seven. *)
Theorem recharge_examples :
  applyRechargeRate (num_of_Z 1) (Some (dec_to_num false 5 (-1), num_of_Z 1)) = dec_to_num false 5 (-1) ∧
  nmul (applyRechargeRate (num_of_Z 1) (Some (num_of_Z 4, num_of_Z 7))) (num_of_Z 7) = num_of_Z 4.
Proof. split; vm_compute; reflexivity. Qed.

Theorem zeros_stripped :
  map stripTrailingZeros [js "$1.5000"; js "$1,234.50"; js "-0.10"; js "12k"; js "$0.0000001000"; js "USD 3.00 /M"] =
  [js "$1.5"; js "$1234.5"; js "-0.1"; js "12k"; js "$0.0000001"; js "USD 3.00 /M"].
Proof. vm_compute. reflexivity. Qed.
