(* ===== verification/UsageLogs.v ===== *)
(** * Usage logs

    Model of [web/default/src/features/usage-logs/lib]: [utils.ts] (what a page of logs asks
    the server for) and [format.ts] (what a log shows), which reads the tiers of
    [BillingExpr].  Search parameters come from the URL: times are numbers, everything else
    a JSON value, and [None] is null or missing.  The clock is an argument (now and the last
    midnight, in milliseconds), as is the decoder of UTF-8. *)

From S2P Require Import Prelude JsString JsRegExp JsNumber Json Base64 BillingExpr.
From Stdlib Require Import NArith ZArith SpecFloat.

(** ** Types of logs *)

Definition DISPLAYABLE_LOG_TYPES : list Z := [0; 2; 5; 6]%Z.
Definition TIMING_LOG_TYPES : list Z := [2; 5]%Z.

Definition LOG_TYPES : list (Z * (jstr * jstr)) := [
  (0%Z, (js "Unknown", js "default")); (1%Z, (js "Top-up", js "cyan")); (2%Z, (js "Consume", js "green"));
  (3%Z, (js "Manage", js "orange")); (4%Z, (js "System", js "purple")); (5%Z, (js "Error", js "red")); (6%Z, (js "Refund", js "blue"))].

Definition isDisplayableLogType (type : Z) : bool := existsb (Z.eqb type) DISPLAYABLE_LOG_TYPES.
Definition isTimingLogType (type : Z) : bool := existsb (Z.eqb type) TIMING_LOG_TYPES.

Definition getLogTypeConfig (type : Z) : option (Z * (jstr * jstr)) :=
  match List.find (λ t, (fst t =? type)%Z) LOG_TYPES with Some t => Some t | None => head LOG_TYPES end.

Definition isPerCallBilling (modelPrice : option num) : bool := nlt nzero (default nzero modelPrice).

(** ** Requests *)

Record SearchParams := {
  sp_startTime : option num;
  sp_endTime : option num;
  sp_type : option json;
  sp_model : option json;
  sp_token : option json;
  sp_group : option json;
  sp_channel : option json;
  sp_username : option json;
  sp_requestId : option json;
  sp_upstreamRequestId : option json;
  sp_filter : option json;
}.

Record Clock := { now : Z; midnight : Z }.

(** From the last midnight to an hour from now. *)
Definition getDefaultTimeRange (c : Clock) : num * num := (num_of_Z (midnight c), num_of_Z (now c + 3600 * 1000)).

Definition timestampToSeconds (ms : num) : num := num_floor (ndiv ms (num_of_Z 1000)).

(** [paramTime || defaultTime], converted unless it is 0. *)
Definition getTimestamp (useMilliseconds : bool) (paramTime defaultTime : option num) : option num :=
  let convert t := if useMilliseconds then t else timestampToSeconds t in
  let time := match paramTime with Some t => if num_truthy t then Some t else defaultTime | None => defaultTime end in
  match time with Some t => if num_truthy t then Some (convert t) else None | None => None end.

(** [startTime ?? endTime] as a condition. *)
Definition hasTimeParams (s : SearchParams) : bool :=
  match sp_startTime s with
  | Some t => num_truthy t
  | None => match sp_endTime s with Some t => num_truthy t | None => false end
  end.

Definition buildTimeRangeParams (c : Clock) (s : SearchParams) (useMilliseconds : bool) : option num * option num :=
  let range := if hasTimeParams s then None else Some (getDefaultTimeRange c) in
  (getTimestamp useMilliseconds (sp_startTime s) (fst <$> range), getTimestamp useMilliseconds (sp_endTime s) (snd <$> range)).

(** [value ? String(value) : absent]. *)
Definition text_param (v : option json) : option jstr :=
  match v with Some v => if json_truthy v then Some (string_of_json v) else None | None => None end.

Record BaseParams := {
  b_p : Z; b_page_size : Z; b_channel_id : option jstr; b_start_timestamp : option num; b_end_timestamp : option num;
}.

Definition buildBaseParams (c : Clock) (page pageSize : Z) (s : SearchParams) (useMilliseconds : bool) : BaseParams :=
  let '(start, end_) := buildTimeRangeParams c s useMilliseconds in
  {| b_p := page; b_page_size := pageSize; b_channel_id := text_param (sp_channel s); b_start_timestamp := start; b_end_timestamp := end_ |}.

Record GetLogsParams := {
  g_p : Z; g_page_size : Z;
  g_type : option num; g_model_name : option jstr; g_token_name : option jstr; g_group : option jstr;
  g_channel : option num; g_username : option jstr; g_request_id : option jstr; g_upstream_request_id : option jstr;
  g_start_timestamp : option num; g_end_timestamp : option num;
}.

Definition Number (v : json) : num := default S754_nan (number_of_json v).

Definition parseType (raw : json) : option num := if is_finite (Number raw) then Some (Number raw) else None.

(** A list of one value, or a text. *)
Definition processType (value : json) : option num :=
  match value with
  | JArr [v] => parseType v
  | JStr s => if nonempty s then parseType value else None
  | _ => None
  end.

(** [Number(value) || 0]. *)
Definition channel_number (v : json) : num := num_or0 (Number v).

Definition admin_param {A} (isAdmin : bool) (f : json → A) (v : option json) : option A :=
  match v with Some v => if isAdmin && json_truthy v then Some (f v) else None | None => None end.

(** One column filter. *)
Definition apply_filter (isAdmin : bool) (g : GetLogsParams) (filter : jstr * option json) : GetLogsParams :=
  match filter.2 with
  | None | Some JNull | Some (JStr []) => g
  | Some value =>
    let id := filter.1 in
    let named k := str_eqb id (js k) in
    {| g_p := g_p g; g_page_size := g_page_size g;
       g_type := if named "type" then processType value else g_type g;
       g_model_name := if named "model_name" then Some (string_of_json value) else g_model_name g;
       g_token_name := if named "token_name" then Some (string_of_json value) else g_token_name g;
       g_group := if named "group" then Some (string_of_json value) else g_group g;
       g_channel := if named "channel" && isAdmin then Some (channel_number value) else g_channel g;
       g_username := if named "username" && isAdmin then Some (string_of_json value) else g_username g;
       g_request_id := g_request_id g; g_upstream_request_id := g_upstream_request_id g;
       g_start_timestamp := g_start_timestamp g; g_end_timestamp := g_end_timestamp g |}
  end.

Definition buildApiParams (c : Clock) (page pageSize : Z) (s : SearchParams) (columnFilters : list (jstr * option json)) (isAdmin : bool)
  : GetLogsParams :=
  let '(start, end_) := buildTimeRangeParams c s false in
  foldl (apply_filter isAdmin)
    {| g_p := page; g_page_size := pageSize;
       g_type := match sp_type s with Some v => if json_truthy v then processType v else None | None => None end;
       g_model_name := text_param (sp_model s); g_token_name := text_param (sp_token s); g_group := text_param (sp_group s);
       g_channel := admin_param isAdmin channel_number (sp_channel s);
       g_username := admin_param isAdmin string_of_json (sp_username s);
       g_request_id := text_param (sp_requestId s); g_upstream_request_id := text_param (sp_upstreamRequestId s);
       g_start_timestamp := start; g_end_timestamp := end_ |} columnFilters.

(** [buildQueryParams]: 0 is kept. *)
Definition buildQueryParams (params : list (jstr * option json)) : list (jstr * jstr) :=
  omap (λ kv, match kv.2 with
              | None | Some JNull | Some (JStr []) => None
              | Some v => Some (kv.1, string_of_json v)
              end) params.

Inductive LogCategory := CommonLogs | DrawingLogs | TaskLogs.

(** The request that is sent: for all users or for oneself, with its parameters; drawings and tasks also have the filter text. *)
Inductive request :=
  | GetLogs (all : bool) (params : GetLogsParams)
  | GetMidjourneyLogs (all : bool) (params : BaseParams) (mj_id : option json)
  | GetTaskLogs (all : bool) (params : BaseParams) (task_id : option json).

Definition fetchLogsByCategory (c : Clock) (logCategory : LogCategory) (isAdmin : bool) (page pageSize : Z) (s : SearchParams)
    (columnFilters : list (jstr * option json)) : request :=
  match logCategory with
  | CommonLogs => GetLogs isAdmin (buildApiParams c page pageSize s columnFilters isAdmin)
  | DrawingLogs => GetMidjourneyLogs isAdmin (buildBaseParams c page pageSize s true) (sp_filter s)
  | TaskLogs => GetTaskLogs isAdmin (buildBaseParams c page pageSize s false) (sp_filter s)
  end.

(** ** What a log shows *)

Inductive Color := Success | Warning | Danger.

Definition getTimeColor (seconds : num) : Color :=
  if nlt seconds (num_of_Z 10) then Success else if nlt seconds (num_of_Z 30) then Warning else Danger.

Definition getFirstResponseTimeColor (seconds : num) : Color :=
  if nlt seconds (num_of_Z 5) then Success else if nlt seconds (num_of_Z 10) then Warning else Danger.

Definition getThroughputColor (tokensPerSecond : num) : Color :=
  if nle (num_of_Z 30) tokensPerSecond then Success else if nle (num_of_Z 15) tokensPerSecond then Warning else Danger.

Definition getResponseTimeColor (seconds completionTokens : num) : Color :=
  if nlt completionTokens (num_of_Z 100) || nle seconds nzero then getTimeColor seconds
  else getThroughputColor (ndiv completionTokens seconds).

(** The action is the text before the first space that is not at the start. *)
Definition parseAuditLine (line : jstr) : jstr * jstr :=
  match index_of (js " ") line with
  | Some (S n) => (take (S n) line, drop (S (S n)) line)
  | _ => (line, line)
  end.

(** The fields of [other] that these functions read. *)
Record LogOtherData := {
  violation_fee : bool;
  violation_fee_code : jstr;
  violation_fee_marker : bool;
  is_model_mapped : bool;
  upstream_model_name : jstr;
  cache_tokens : num;
  cache_creation_tokens : num;
  cache_creation_tokens_5m : num;
  cache_creation_tokens_1h : num;
  log_billing_mode : jstr;
  expr_b64 : jstr;
  matched_tier : jstr;
}.

Definition isViolationFeeLog (other : option LogOtherData) : bool :=
  match other with Some o => violation_fee o || nonempty (violation_fee_code o) || violation_fee_marker o | None => false end.

(** The name, whether it is mapped and the model it is mapped to. *)
Definition formatModelName (model_name : jstr) (other : option LogOtherData) : jstr * bool * option jstr :=
  let isMapped := match other with Some o => is_model_mapped o && nonempty (upstream_model_name o) | None => false end in
  (model_name, isMapped, if isMapped then upstream_model_name <$> other else None).

(** [TextDecoder], of which nothing is assumed. *)
Class TextDecoder := { decode : list N → jstr }.

Section tiers.
Context `{LowerCase} `{TextDecoder}.

Definition decodeBillingExprB64 (exprB64 : jstr) : jstr :=
  if negb (nonempty exprB64) then []
  else match atob exprB64 with Ret bytes => decode bytes | Throw => [] end.

Definition resolveMatchedTier (tiers : list ParsedTier) (matchedLabel : jstr) : option ParsedTier :=
  if (length tiers =? 0)%nat then None
  else if negb (nonempty matchedLabel) then None
  else List.find (λ tier,
    let l1 := normalizeTierLabel (Some (pt_label tier)) in
    let l2 := normalizeTierLabel (Some matchedLabel) in
    str_eqb l1 l2 && nonempty l1) tiers.

(** [(x || 0) > 0]. *)
Definition hasAnyCacheTokens (other : option LogOtherData) : bool :=
  match other with
  | Some o =>
    nlt nzero (num_or0 (cache_tokens o)) || nlt nzero (num_or0 (cache_creation_tokens o)) ||
    nlt nzero (num_or0 (cache_creation_tokens_5m o)) || nlt nzero (num_or0 (cache_creation_tokens_1h o))
  | None => false
  end.

Record PriceEntry := { pe_field : jstr; pe_shortLabel : jstr; pe_price : num }.

Record TieredBillingSummary := { s_tiers : list ParsedTier; s_tier : ParsedTier; s_priceEntries : list PriceEntry }.

(** The row of one variable; a price that is missing is NaN. *)
Definition price_entry (tier : ParsedTier) (cacheTokensPresent : bool) (v : BillingVar) : option PriceEntry :=
  match field v with
  | None => None
  | Some f =>
    if bool_decide (group v = Some (js "cache")) && negb cacheTokensPresent then None
    else
      let price := default S754_nan (obj_get f (pt_prices tier)) in
      if is_finite price && nlt nzero price then Some {| pe_field := f; pe_shortLabel := shortLabel v; pe_price := price |} else None
  end.

Definition getTieredBillingSummary (other : option LogOtherData) : option TieredBillingSummary :=
  match other with
  | None => None
  | Some o =>
    if negb (str_eqb (log_billing_mode o) (js "tiered_expr")) then None
    else
      let exprStr := decodeBillingExprB64 (expr_b64 o) in
      if negb (nonempty exprStr) then None
      else
        let tiers := parseTiersFromExpr exprStr in
        match resolveMatchedTier tiers (matched_tier o) with
        | None => None
        | Some tier => Some {| s_tiers := tiers; s_tier := tier;
                               s_priceEntries := omap (price_entry tier (hasAnyCacheTokens other)) BILLING_PRICING_VARS |}
        end
  end.

(** ** Properties of tiers *)
Lemma log_price_spec tier present (vars : list BillingVar) (e : PriceEntry) : e ∈ omap (price_entry tier present) vars →
  ∃ v, v ∈ vars ∧ field v = Some (pe_field e) ∧ obj_get (pe_field e) (pt_prices tier) = Some (pe_price e) ∧
    nlt nzero (pe_price e) = true ∧ (present = false → group v ≠ Some (js "cache")).
Proof.
  rewrite list_elem_of_omap. intros (v & Hv & He). unfold price_entry in He. destruct (field v) as [f|] eqn:Ef; [|done].
  destruct (bool_decide (group v = Some (js "cache")) && negb present) eqn:Ec; [done|].
  destruct (obj_get f (pt_prices tier)) as [x|] eqn:Ex; cbn [default from_option id] in He; [|done].
  destruct (is_finite x && nlt nzero x) eqn:Ep; [|done]. injection He as <-. cbn [pe_field pe_price]. apply andb_true_iff in Ep as [_ Ep].
  exists v. split_and!; [done..|]. intros -> Hg. rewrite bool_decide_eq_true_2 in Ec by exact Hg. discriminate Ec.
Qed.

(** No price is guessed: the tier that is shown is one of the expression and has the label that the server reported, up to
    spelling; without such a tier nothing is shown. *)
Theorem matched_tier_shown other s : getTieredBillingSummary other = Some s →
  s_tier s ∈ s_tiers s ∧
  (∃ o, other = Some o ∧ normalizeTierLabel (Some (pt_label (s_tier s))) = normalizeTierLabel (Some (matched_tier o))) ∧
  Forall (λ e, ∃ v, v ∈ BILLING_PRICING_VARS ∧ field v = Some (pe_field e) ∧ obj_get (pe_field e) (pt_prices (s_tier s)) = Some (pe_price e) ∧
    nlt nzero (pe_price e) = true ∧ (hasAnyCacheTokens other = false → group v ≠ Some (js "cache"))) (s_priceEntries s).
Proof.
  unfold getTieredBillingSummary. destruct other as [o|]; [|done]. destruct (negb (str_eqb _ _)); [done|]. destruct (negb (nonempty _)); [done|].
  set (tiers := parseTiersFromExpr _). destruct (resolveMatchedTier tiers (matched_tier o)) as [tier|] eqn:E; [|done]. intros Es%Some_inj. subst s. cbn [s_tier s_tiers s_priceEntries].
  unfold resolveMatchedTier in E. destruct (_ =? _)%nat; [done|]. destruct (negb _); [done|]. apply find_some in E as [Hin E].
  apply andb_true_iff in E as [E _]. apply bool_decide_eq_true in E. split_and!; [by apply list_elem_of_In|by exists o|].
  apply Forall_forall. intros e He. exact (log_price_spec _ _ _ _ He).
Qed.
End tiers.

(** A log of a tiered price, without and with tokens from the cache. *)
Definition ascii_decoder : TextDecoder := {| decode := λ bytes, bytes |}.

Definition demo_other (cached : Z) : LogOtherData := {|
  violation_fee := false; violation_fee_code := []; violation_fee_marker := false; is_model_mapped := false; upstream_model_name := [];
  cache_tokens := num_of_Z cached; cache_creation_tokens := nzero; cache_creation_tokens_5m := nzero; cache_creation_tokens_1h := nzero;
  log_billing_mode := js "tiered_expr"; expr_b64 := js "dGllcigiYmFzZSIsIHAgKiAyICsgYyAqIDQgKyBjciAqIDEp"; matched_tier := js "Base" |}.

Definition shown_prices (other : option LogOtherData) : option (list (jstr * num)) :=
  (λ s, map (λ e, (pe_shortLabel e, pe_price e)) (s_priceEntries s)) <$>
    @getTieredBillingSummary ascii_lower_case ascii_decoder other.

Theorem tier_prices_shown :
  shown_prices (Some (demo_other 0)) = Some [(js "Input", num_of_Z 2); (js "Output", num_of_Z 4)] ∧
  shown_prices (Some (demo_other 5)) = Some [(js "Input", num_of_Z 2); (js "Output", num_of_Z 4); (js "Cache Read", num_of_Z 1)].
Proof. split; vm_compute; reflexivity. Qed.

(** ** Properties of requests *)
Lemma filters_user_fields g filters :
  g_channel (foldl (apply_filter false) g filters) = g_channel g ∧ g_username (foldl (apply_filter false) g filters) = g_username g.
Proof.
  revert g. induction filters as [|f filters IH]; intros g; cbn [foldl]; [done|]. destruct (IH (apply_filter false g f)) as [-> ->].
  unfold apply_filter. destruct f.2 as [[| | |[|]| |]|]; cbn [g_channel g_username]; rewrite ?andb_false_r; done.
Qed.

(** Only an administrator filters by channel or by user: whatever is in the URL and in the filters of the table, the
    request of another user for common logs has neither, and is the request for the user's own logs. *)
Theorem user_filters_own_logs c page pageSize s filters :
  match fetchLogsByCategory c CommonLogs false page pageSize s filters with
  | GetLogs all params => all = false ∧ g_channel params = None ∧ g_username params = None
  | _ => False
  end.
Proof.
  cbn [fetchLogsByCategory]. unfold buildApiParams. destruct (buildTimeRangeParams c s false) as [start end_].
  destruct (filters_user_fields {| g_p := page; g_page_size := pageSize;
       g_type := match sp_type s with Some v => if json_truthy v then processType v else None | None => None end;
       g_model_name := text_param (sp_model s); g_token_name := text_param (sp_token s); g_group := text_param (sp_group s);
       g_channel := admin_param false channel_number (sp_channel s); g_username := admin_param false string_of_json (sp_username s);
       g_request_id := text_param (sp_requestId s); g_upstream_request_id := text_param (sp_upstreamRequestId s);
       g_start_timestamp := start; g_end_timestamp := end_ |} filters) as [-> ->].
  cbn [g_channel g_username]. unfold admin_param. by destruct (sp_channel s), (sp_username s).
Qed.

(** Without times in the URL a request covers the day so far and the next hour. *)
Theorem default_range c s ms : sp_startTime s = None → sp_endTime s = None →
  num_truthy (num_of_Z (midnight c)) = true → num_truthy (num_of_Z (now c + 3600 * 1000)) = true →
  buildTimeRangeParams c s ms =
    (Some (if ms then num_of_Z (midnight c) else timestampToSeconds (num_of_Z (midnight c))),
     Some (if ms then num_of_Z (now c + 3600 * 1000) else timestampToSeconds (num_of_Z (now c + 3600 * 1000)))).
Proof.
  intros Hs He H1 H2. unfold buildTimeRangeParams, hasTimeParams. rewrite Hs, He.
  cbn [getDefaultTimeRange fmap option_fmap option_map fst snd]. unfold getTimestamp. by rewrite H1, H2.
Qed.

Definition no_params : SearchParams := {| sp_startTime := None; sp_endTime := None; sp_type := None; sp_model := None; sp_token := None;
  sp_group := None; sp_channel := None; sp_username := None; sp_requestId := None; sp_upstreamRequestId := None; sp_filter := None |}.

(** A start time of 0 hides the end time from the test, and the default start is used with the given end. *)
Theorem epoch_start_ignored :
  buildTimeRangeParams {| now := 2000000000000; midnight := 1999900800000 |}
    {| sp_startTime := Some nzero; sp_endTime := Some (num_of_Z 1000000000000); sp_type := None; sp_model := None; sp_token := None;
       sp_group := None; sp_channel := None; sp_username := None; sp_requestId := None; sp_upstreamRequestId := None; sp_filter := None |} true =
  (Some (num_of_Z 1999900800000), Some (num_of_Z 1000000000000)).
Proof. vm_compute. reflexivity. Qed.

(** Only a single type is sent: a list of several types asks for all of them. *)
Theorem several_types_all : processType (JArr [JStr (js "2"); JStr (js "5")]) = None ∧ processType (JArr [JStr (js "2")]) = Some (num_of_Z 2).
Proof. split; vm_compute; reflexivity. Qed.

(** An audit line is cut at its first space; the pieces and the space are the line. *)
Theorem audit_line_cut line action content : parseAuditLine line = (action, content) → action ≠ line → line = action ++ js " " ++ content.
Proof.
  unfold parseAuditLine. destruct (index_of (js " ") line) as [[|n]|] eqn:E; intros [= <- <-] Hne; try done.
  apply index_of_Some in E as (t & E & Hl). rewrite E at 1. f_equal. f_equal. rewrite E, drop_app_ge by (rewrite length_take; lia).
  rewrite length_take, Nat.min_l by lia. by replace (S (S n) - S n)%nat with 1%nat by lia.
Qed.
